(* ===== verification/_CoqProject ===== *)
-Q . S2P
Prelude.v
Text.v
Net.v
Json.v
ApiError.v
Routing.v
Depsort.v
DepOrder.v
Db.v
AuditLog.v
AuditChain.v
Canary.v
Operations.v
Dispatch.v
Rollout.v
Views.v
Ids.v
Clock.v
Handler.v
Users.v
UserProps.v
Agents.v
AgentProps.v
Template.v
Diff.v
Executor.v
ExecutorProps.v
Capabilities.v
AgentStore.v
Signing.v
Chars.v
PluginSpec.v
Plugin.v
RateLimit.v
ProcessPlugin.v
SpecReader.v
Posix.v
FileProvider.v
FileProps.v
ConfigFile.v
Cron.v
Command.v
Nginx.v
Systemd.v
Sysctl.v
Package.v
Firewall.v
Docker.v
DockerProps.v
Dns.v
Monitoring.v
Compose.v
Acme.v
ProviderDemo.v
AgentConfig.v
Drift.v
Retention.v
RolloutProps.v
Policy.v
Maintenance.v
Secrets.v
SecretsProps.v
Modules.v
Expansion.v
ExpansionProps.v
Webhook.v
WebhookProps.v
SignatureProps.v
SigningProps.v
Config.v
Server.v
OperationApi.v
OperationApiProps.v
AgentApi.v
AgentApiProps.v
Remote.v
RemoteProps.v
AgentLoop.v
AgentLoopProps.v
AgentRunProps.v
