(* ===== verification/Prelude.v ===== *)
(** * Verification of the iac control plane, its agent and its providers

    iac keeps hosts in the state their manifests describe. An operator submits
    resources to the control plane (crates/iac-controlplane); it checks,
    expands, approves and splits them into assignments, one per agent and
    layer; the agent of each host (crates/iac-agent) fetches the signed
    assignments, applies them through the executor (crates/iac-core) and its
    providers (crates/iac-providers), watches for drift and reports back. This
    library translates the code of these parts and proves what it promises.

    ** How the code is translated

    A Rust function is a function here, under its own name where that is
    free. [Result] is [result] with [?] as bind; a panic is [None] of
    [panics]; an error keeps its text as a list of pieces ([message]), so that
    every branch has the text the code gives it. Integers are [Z] with the
    wrap or saturation of the code written out; strings are bytes, and the
    characters of UTF-8 where the code asks for them. JSON and YAML are
    [Json]; a map is an association list in the order the code iterates in.

    Effects are explicit state passing:
    - a method of the store is a [tx] (Db.v) over the tables, which commits or
      rolls back as one; a request handler is a [handler] (Handler.v), a
      sequence of transactions each of which stays done;
    - the agent and the providers are [io] (Posix.v) over a machine: any call
      may fail where the code handles a failure, and a write may stop halfway;
    - the signing keys and the agent's identity are written to a disk that may
      stop after any number of steps (Signing.v);
    - the rate limiter and the webhook dispatcher share state between tasks
      and are given as schedules of their atomic steps.

    What is not in the repository is a parameter, a class with the laws the
    code relies on where a theorem needs any: SHA-256, Ed25519, Argon2,
    base64, the clock and its arithmetic (Clock.v), the parsers of JSON, YAML
    and TOML, HTTP, name resolution, the kernel (Posix.v), the programs that
    are run (Command.v). Every such class that a theorem assumes has a concrete
    instance behind the theorem's witness.

    ** The parts

    Shared: Prelude (results, integers, lists), Text, Chars (Rust's strings),
    Net (IP addresses), Json, Clock, Posix.

    The control plane (src/crates/iac-controlplane/src):
    - ApiError (error.rs), Config (config.rs, tls.rs), Server (server.rs,
      api/mod.rs), Policy (policy.rs), RateLimit (rate_limit.rs), Maintenance
      (maintenance.rs), Secrets (secrets.rs), Modules (modules.rs), Expansion
      (expansion.rs), Depsort (depsort.rs), Routing: what a submission passes
      through, in OperationApi (api/operations.rs);
    - Db, AuditLog, Canary, Operations, Dispatch, Views, Users, Agents, Drift
      (store.rs, one file for each group of its methods), with the endpoints in
      Users, AgentApi and Drift (api/);
    - Retention (retention.rs), Webhook (webhook.rs), Signing (signing.rs):
      what runs beside the requests.

    The agent (src/crates/iac-agent/src): AgentConfig (config.rs),
    Capabilities (capabilities.rs, with the core's manifest.rs), AgentStore
    (store.rs), Remote (remote.rs), AgentLoop (agent.rs, status.rs).

    The core (src/crates/iac-core/src): Ids (id.rs, resource.rs), Template, Diff, Executor (executor.rs, operation.rs, provider.rs), Command
    (subprocess.rs).

    The providers (src/crates/iac-providers/src): SpecReader (what serde
    derives for their specs, and the journal of their mocks), FileProvider,
    ConfigFile with Cron and Nginx, Systemd, Sysctl, Package, Firewall, Docker,
    Compose, Dns, Acme and Monitoring, and the dynamic ones: PluginSpec, Plugin, ProcessPlugin. [Executor.Provider] is
    the interface between the executor and them; each backend behind a trait is
    a record of operations, and its contract a class of laws
    ([SystemctlLaws], [PackageLaws], [DockerLaws], [ComposeLaws], [DnsLaws]).

    The theorems about a part stand at the end of its file, or in a file of
    their own, XProps for the file X (DepOrder for Depsort, AuditChain for
    AuditLog, Rollout and RolloutProps for Dispatch with Retention, AgentRunProps for the agent as a whole).
    ProviderDemo, and the start of AgentRunProps, hold the concrete machines
    the witnesses run on, with examples of where the code does something else than it says.

    ** What the theorems show

    - Rollout (Rollout, RolloutProps): the calls of the store, and the passes
      of the retention that prune what is settled, as the steps of a transition
      system. In every reachable state layers and the canary are gated, the
      status of an operation agrees with the assignments it still has, a
      settled row stays as it is until a retention pass deletes it, and no
      rollout waits for nothing.
    - Submission (OperationApiProps): what a submission went through, who may
      approve, and that what it stores and answers does not depend on the
      values of the secrets; DepOrder (the order is sound, total and decides),
      Canary, Expansion, Secrets, Maintenance and Policy carry the parts.
    - Audit (AuditChain): the log always verifies, and two logs with the same
      last hash agree on every row that carries a hash, or show a collision.
    - People (UserProps): an enabled administrator remains, and revocation is
      complete.
    - Trust (SigningProps, RemoteProps, AgentRunProps): the
      signer survives faults at any step, what an agent accepts was built by
      the server for it, what the server builds is accepted where the key is
      published and does not rotate between the two loads of the signer, the
      agent's pins move only along the overlap rule, nothing runs twice, and
      the allowlist stands before every execution.
    - Drift and webhooks (Drift, AgentRunProps, WebhookProps,
      SignatureProps): the agent's drift table after a cycle is the one before
      with exactly the rows of the judged resources refreshed, resolved or
      added; the server mirrors the reports; and deliveries neither repeat
      nor skip under any interleaving.
    - Hosts (ExecutorProps, FileProps, Nginx, Cron, Systemd, Firewall,
      DockerProps, Package, Compose, Dns, Acme, Monitoring, Command): the
      executor's rollback undoes its apply over providers that keep a contract
      (ExecutorProps), which the file provider does (FileProps); apply
      converges, changes are confined to the target, a rendered file has the
      lines that were asked for, a firewall rule reads back from its line, a
      name from its URL, a probe never goes to the metadata addresses it is to
      refuse, and a command is waited for within bounds, or for ever exactly
      when some process holds an output of its exited child open.

    ** Bounds and fuel

    Every loop that is not structural has fuel, and a lemma that its fuel is
    enough: the queue of the dependency sort takes one unit per resource
    ([kahn]); the chain verification one per row and a last one
    ([verify_loop]); the renderers of templates and modules and the scans for
    references one per byte and a last one; the caps of the retention one per
    row and a last one ([cap_loop]); the push of observations two per item and
    a last one, since a chunk that is refused for its size is halved
    ([push_fuel]); the passes of expansion the bound the code has itself
    ([MAX_EXPANSION_DEPTH], an error beyond); the wait for a child
    [timeout / 25 ms + 2] polls ([wait_fuel]), and for its end after the kill
    [1 s / 25 ms + 1] looks ([reap_fuel]); hexadecimal and octal texts
    their number of digits. The budget of a disk is not fuel: running out of it
    is a fault, and the theorems hold for every budget.

    ** Not modelled

    The read-only endpoints for health, metrics, the audit listing and the
    expander catalogue; the SSH push and the command-line client, which call
    programs and endpoints; the WASM runtimes, the work of which is wasmtime's; the set-up of
    listeners, tracing and tasks in the two main functions; the in-memory
    backends for tests of the file-based providers. Rows are kept in the order of insertion and a committed
    transaction is atomic, so the isolation of the database is taken for
    granted. Links among the directories of a path are not followed. Times are
    opaque values of the clock's class, compared as texts where the code
    compares them so. *)

From stdpp Require Export base tactics strings list gmap option sorting.
From Stdlib Require Export ZArith Lia.

(** ** Results

    [result E A] is Rust's [Result<A, E>]; the [?] operator is monadic bind. *)

Inductive result (E A : Type) : Type :=
| Ok (a : A)
| Err (e : E).
Arguments Ok {E A} a.
Arguments Err {E A} e.

#[global] Instance result_ret E : MRet (result E) := λ A a, Ok a.
#[global] Instance result_bind E : MBind (result E) := λ A B f r,
  match r with Ok a => f a | Err e => Err e end.
#[global] Instance result_fmap E : FMap (result E) := λ A B f r,
  match r with Ok a => Ok (f a) | Err e => Err e end.

(** [r.map_err(f)]. *)
Definition map_err {E E' A} (f : E → E') (r : result E A) : result E' A :=
  match r with Ok a => Ok a | Err e => Err (f e) end.

(** [o.ok_or(e)]. *)
Definition ok_or {E A} (o : option A) (e : E) : result E A :=
  match o with Some a => Ok a | None => Err e end.

(** [r.is_ok()]. *)
Definition is_ok {E A} (r : result E A) : bool :=
  match r with Ok _ => true | Err _ => false end.

(** A Rust computation that may panic (index out of range, arithmetic
    overflow check, [expect] on [None]): [None] is the panic. *)
Abbreviation panics := option.

(** [for x in xs { f(x)?; }] with the loop state threaded explicitly. *)
Fixpoint try_fold {E A B} (f : B → A → result E B) (b : B) (xs : list A) : result E B :=
  match xs with
  | [] => Ok b
  | x :: xs => b ← f b x; try_fold f b xs
  end.

(** [xs.iter().map(f).collect::<Result<Vec<_>, _>>()]. *)
Fixpoint try_map {E A B} (f : A → result E B) (xs : list A) : result E (list B) :=
  match xs with
  | [] => Ok []
  | x :: xs => y ← f x; ys ← try_map f xs; Ok (y :: ys)
  end.

(** ** Formatted messages

    A [format!] string is kept as the list of its pieces: literal or
    [Display]-ed text, [Debug]-ed strings ([{x:?}]), integers, and error
    values of code outside the repository. *)

Inductive piece :=
| Txt (s : string)
| Dbg (s : string)
| Dec (z : Z)
| Ext (s : string).
Abbreviation message := (list piece).
(** [anyhow::Error]: its chain of contexts, outermost first. *)
Abbreviation Anyhow := (list message).

(** ** Machine integers *)

(** Two's-complement wrap of [z] to [w] bits, signed. *)
Definition wrap_signed (w : Z) (z : Z) : Z := (z + 2 ^ (w - 1)) `mod` 2 ^ w - 2 ^ (w - 1).
(** Wrap of [z] to [w] bits, unsigned. *)
Definition wrap_unsigned (w : Z) (z : Z) : Z := z `mod` 2 ^ w.
Definition i32_add (a b : Z) : Z := wrap_signed 32 (a + b).
Definition u32_max : Z := 2 ^ 32 - 1.
Definition u64_max : Z := 2 ^ 64 - 1.
Definition i64_max : Z := 2 ^ 63 - 1.
Definition u64_sat_sub (a b : Z) : Z := Z.max 0 (a - b).
Definition u32_sat_mul (a b : Z) : Z := Z.min u32_max (a * b).
(** [n as i64] of a [u64]. *)
Definition u64_as_i64 (n : Z) : Z := wrap_signed 64 n.
Definition u64_sat_mul (a b : Z) : Z := Z.min u64_max (a * b).
(** [u32::try_from(n).unwrap_or(u32::MAX)]. *)
Definition u32_try_from (z : Z) : Z := if decide (0 ≤ z ≤ u32_max)%Z then z else u32_max.
(** [x.clamp(lo, hi)]. *)
Definition clamp (lo hi x : Z) : Z := if (x <? lo)%Z then lo else if (hi <? x)%Z then hi else x.

(** ** Lists *)

(** [xs.iter().enumerate()]. *)
Definition enumerate {A} (xs : list A) : list (nat * A) := imap pair xs.

(** Occurrences of [x] in [xs]. *)
Fixpoint count_of (x : nat) (xs : list nat) : nat :=
  match xs with
  | [] => 0
  | y :: xs => (if decide (x = y) then 1 else 0) + count_of x xs
  end.

(** Number of elements satisfying a test. *)
Definition count_if {A} (p : A → bool) (xs : list A) : nat := length (List.filter p xs).

(** ** Automation *)

Create HintDb iac.

(** Splits every [bind] equation with an [Ok] result in the context. *)
Ltac inv_result :=
  repeat match goal with
  | H : mbind _ ?r = Ok _ |- _ =>
      let E := fresh "E" in
      destruct r eqn:E; cbn [mbind result_bind] in H; [|discriminate H]
  | H : Ok _ = Ok _ |- _ => injection H as H
  | H : Err _ = Ok _ |- _ => discriminate H
  | H : Ok _ = Err _ |- _ => discriminate H
  | H : mret _ = Ok _ |- _ => injection H as H
  end; subst.

(** Case split on the scrutinee of the first [match] or [if] of the goal. *)
Ltac case_match_goal :=
  match goal with |- context [match ?x with _ => _ end] => destruct x eqn:? end.

(** ** Lemmas on results *)

Lemma bind_Ok {E A B} (a : A) (f : A → result E B) : (Ok a ≫= f) = f a.
Proof. reflexivity. Qed.

Lemma bind_Ok_inv {E A B} (r : result E A) (f : A → result E B) b :
  r ≫= f = Ok b ↔ ∃ a, r = Ok a ∧ f a = Ok b.
Proof. destruct r; cbn; naive_solver. Qed.

Lemma bind_assoc {E A B C} (r : result E A) (f : A → result E B) (g : B → result E C) :
  (r ≫= f) ≫= g = r ≫= (λ a, f a ≫= g).
Proof. by destruct r. Qed.

Lemma try_fold_app {E A B} (f : B → A → result E B) b xs ys :
  try_fold f b (xs ++ ys) = b' ← try_fold f b xs; try_fold f b' ys.
Proof.
  revert b; induction xs as [|x xs IH]; intros b; cbn; [done|].
  destruct (f b x); cbn; [apply IH|done].
Qed.

(** An invariant of the loop body is an invariant of the loop. *)
Lemma try_fold_inv {E A B} (f : B → A → result E B) (P : B → Prop) xs :
  (∀ b x b', x ∈ xs → P b → f b x = Ok b' → P b') →
  ∀ b b', P b → try_fold f b xs = Ok b' → P b'.
Proof.
  induction xs as [|x xs IH]; intros Hf b b' Hb H; cbn in H; inv_result; [done|].
  eapply IH; [|eapply Hf; [left|exact Hb|eassumption]|eassumption].
  intros; eapply Hf; [by right|eassumption|eassumption].
Qed.

Lemma try_map_Forall2 {E A B} (f : A → result E B) xs ys :
  try_map f xs = Ok ys ↔ Forall2 (λ x y, f x = Ok y) xs ys.
Proof.
  revert ys; induction xs as [|x xs IH]; intros ys; cbn; split; intros H.
  - inv_result. constructor.
  - by inversion H.
  - inv_result. constructor; [done|]. by apply IH.
  - inversion H as [|? y ? ys' Hx Hxs]; subst. rewrite Hx; cbn.
    apply IH in Hxs. by rewrite Hxs.
Qed.

Lemma try_map_length {E A B} (f : A → result E B) xs ys :
  try_map f xs = Ok ys → length ys = length xs.
Proof. intros H%try_map_Forall2. symmetry. by eapply Forall2_length. Qed.

(** ** Lemmas on lists *)

Lemma count_of_app x xs ys : count_of x (xs ++ ys) = count_of x xs + count_of x ys.
Proof. induction xs; cbn; [done|]. case_decide; lia. Qed.

Lemma count_of_0 x xs : count_of x xs = 0 ↔ x ∉ xs.
Proof.
  induction xs as [|y xs IH]; cbn; [set_solver|].
  rewrite not_elem_of_cons, <- IH. case_decide; split; intros; (lia || naive_solver).
Qed.

Lemma count_of_pos x xs : 0 < count_of x xs ↔ x ∈ xs.
Proof.
  pose proof (count_of_0 x xs) as H. split; intros Hx.
  - destruct (decide (x ∈ xs)) as [|Hn]; [done|]. apply H in Hn. lia.
  - destruct (decide (count_of x xs = 0)) as [H0|]; [|lia]. by apply H in H0.
Qed.

Lemma count_of_le x xs : count_of x xs ≤ length xs.
Proof. induction xs; cbn; [done|]. case_decide; lia. Qed.

Lemma enumerate_lookup {A} (xs : list A) i : enumerate xs !! i = pair i <$> xs !! i.
Proof. unfold enumerate. rewrite list_lookup_imap. by destruct (xs !! i). Qed.

Lemma elem_of_enumerate {A} (xs : list A) i x : (i, x) ∈ enumerate xs ↔ xs !! i = Some x.
Proof.
  rewrite list_elem_of_lookup. setoid_rewrite enumerate_lookup. split.
  - intros [j H]. by destruct (xs !! j) eqn:E; simplify_eq/=.
  - intros H. exists i. by rewrite H.
Qed.

Lemma enumerate_snoc {A} (xs : list A) x :
  enumerate (xs ++ [x]) = enumerate xs ++ [(length xs, x)].
Proof. unfold enumerate. rewrite imap_app. cbn. by rewrite Nat.add_0_r. Qed.

Lemma length_enumerate {A} (xs : list A) : length (enumerate xs) = length xs.
Proof. apply length_imap. Qed.

Lemma map_lookup {A B} (f : A → B) xs i : map f xs !! i = f <$> xs !! i.
Proof. exact (list_lookup_fmap f xs i). Qed.

Lemma elem_of_map {A B} (f : A → B) xs y : y ∈ map f xs ↔ ∃ x, x ∈ xs ∧ y = f x.
Proof. rewrite (list_elem_of_fmap f xs y : y ∈ map f xs ↔ _). firstorder. Qed.

(** A key without duplicates determines the element. *)
Lemma NoDup_map_inj {A B} (f : A → B) xs x y :
  NoDup (map f xs) → x ∈ xs → y ∈ xs → f x = f y → x = y.
Proof.
  intros Hnd [i Hi]%list_elem_of_lookup [j Hj]%list_elem_of_lookup He.
  assert (i = j) as ->; [|congruence].
  apply (NoDup_lookup _ i j (f x) Hnd); rewrite map_lookup, ?Hi, ?Hj; cbn; congruence.
Qed.

Lemma NoDup_map_filter {A B} (f : A → B) (p : A → bool) xs :
  NoDup (map f xs) → NoDup (map f (List.filter p xs)).
Proof.
  induction xs as [|x xs IH]; cbn; [done|]. intros [Hin Hnd]%NoDup_cons.
  destruct (p x); [|by apply IH]. cbn. apply NoDup_cons. split; [|by apply IH].
  intros (y & Hy & He)%elem_of_map. apply Hin, elem_of_map. exists y. split; [|done].
  apply list_elem_of_In, filter_In in Hy as [Hy _]. by apply list_elem_of_In.
Qed.

Lemma count_if_app {A} (p : A → bool) xs ys :
  count_if p (xs ++ ys) = count_if p xs + count_if p ys.
Proof. unfold count_if. by rewrite List.filter_app, length_app. Qed.

Lemma elem_of_List_filter {A} (p : A → bool) xs x :
  x ∈ List.filter p xs ↔ x ∈ xs ∧ p x = true.
Proof. rewrite !list_elem_of_In. apply filter_In. Qed.

Lemma count_if_0 {A} (p : A → bool) xs : count_if p xs = 0 ↔ ∀ x, x ∈ xs → p x = false.
Proof.
  unfold count_if. rewrite length_zero_iff_nil. split.
  - intros H x Hx. destruct (p x) eqn:E; [|done].
    assert (x ∈ List.filter p xs) as Hin by by apply elem_of_List_filter.
    rewrite H in Hin. by apply elem_of_nil in Hin.
  - intros H. destruct (List.filter p xs) as [|y l] eqn:E; [done|].
    assert (y ∈ List.filter p xs) as [Hy Hp]%elem_of_List_filter by (rewrite E; left).
    specialize (H y Hy). congruence.
Qed.

Lemma count_if_pos {A} (p : A → bool) xs : 0 < count_if p xs ↔ ∃ x, x ∈ xs ∧ p x = true.
Proof.
  split.
  - intros H. unfold count_if in H. destruct (List.filter p xs) as [|y l] eqn:E; [cbn in H; lia|].
    exists y. apply elem_of_List_filter. rewrite E. left.
  - intros (x & Hx & Hp). destruct (decide (count_if p xs = 0)) as [H0|]; [|lia].
    rewrite count_if_0 in H0. specialize (H0 x Hx). congruence.
Qed.

Lemma count_if_ext {B} (p q : B → bool) xs : (∀ x, x ∈ xs → p x = q x) → count_if p xs = count_if q xs.
Proof.
  unfold count_if. induction xs as [|x xs IH]; intros Hpq; [done|]. cbn. rewrite Hpq by left.
  destruct (q x); cbn; rewrite IH; try done; intros y Hy; apply Hpq; by right.
Qed.

Lemma count_if_cons {B} (p : B → bool) x xs : count_if p (x :: xs) = (if p x then 1 else 0) + count_if p xs.
Proof. unfold count_if. cbn. by destruct (p x). Qed.

Lemma count_if_le {B} (p : B → bool) xs : count_if p xs ≤ length xs.
Proof. unfold count_if. induction xs as [|x xs IH]; cbn; [lia|]. destruct (p x); cbn; lia. Qed.

Lemma count_if_sublist {B} (p : B → bool) xs ys : xs `sublist_of` ys → count_if p xs ≤ count_if p ys.
Proof. unfold count_if. induction 1; cbn; [lia| |]; destruct (p x); cbn; lia. Qed.

Lemma List_filter_filter {B} (p q : B → bool) xs :
  List.filter p (List.filter q xs) = List.filter (λ x, q x && p x) xs.
Proof. induction xs as [|x xs IH]; [done|]. cbn. destruct (q x); cbn; [destruct (p x)|]; by rewrite IH. Qed.

Lemma List_filter_ext_in {B} (p q : B → bool) xs :
  (∀ x, x ∈ xs → p x = q x) → List.filter p xs = List.filter q xs.
Proof. intros H. apply filter_ext_in. intros x Hx. apply H. by apply list_elem_of_In. Qed.

Lemma List_filter_sublist {B} (p : B → bool) xs : List.filter p xs `sublist_of` xs.
Proof. induction xs as [|x xs IH]; cbn; [constructor|]. destruct (p x); by constructor. Qed.

Lemma List_filter_all {B} (p : B → bool) xs : (∀ x, x ∈ xs → p x = true) → List.filter p xs = xs.
Proof.
  induction xs as [|x xs IH]; intros Hp; [done|]. cbn. rewrite Hp by left. f_equal. apply IH.
  intros y Hy. apply Hp. by right.
Qed.

(** ** Lemmas on machine integers *)

Lemma i32_add_small a b :
  (- 2 ^ 31 ≤ a + b < 2 ^ 31)%Z → i32_add a b = (a + b)%Z.
Proof.
  intros H. unfold i32_add, wrap_signed. change (32 - 1)%Z with 31%Z.
  rewrite Z.mod_small; lia.
Qed.

Lemma clamp_range lo hi x : (lo ≤ hi)%Z → (lo ≤ clamp lo hi x ≤ hi)%Z.
Proof.
  intros H. unfold clamp.
  destruct (Z.ltb_spec x lo); [lia|]. destruct (Z.ltb_spec hi x); lia.
Qed.

Lemma clamp_id lo hi x : (lo ≤ x ≤ hi)%Z → clamp lo hi x = x.
Proof.
  intros H. unfold clamp.
  destruct (Z.ltb_spec x lo); [lia|]. destruct (Z.ltb_spec hi x); lia.
Qed.

#[export] Hint Rewrite @bind_Ok @length_enumerate count_of_app @count_if_app : iac.
#[export] Hint Resolve clamp_range count_of_le : iac.
