(* ===== verification/Text.v ===== *)
(** * Strings and characters

    A Rust [str] is a byte string holding UTF-8; [chars] decodes it into
    code points, and the character predicates are those of [std::char]. *)

From stdpp Require Import pretty.
From S2P Require Import Prelude.

#[local] Open Scope string_scope.
#[local] Open Scope list_scope.
#[local] Open Scope nat_scope.

(** ** Bytes *)

(** [s.starts_with(p)]. *)
Definition starts_with (p s : string) : bool := String.prefix p s.

(** [&s[n..]] and [&s[..n]] (byte offsets). *)
Definition str_from (n : nat) (s : string) : string :=
  String.substring n (String.length s - n) s.
Definition str_upto (n : nat) (s : string) : string := String.substring 0 n s.

(** [s.strip_prefix(p)]. *)
Fixpoint strip_prefix (p s : string) : option string :=
  match p, s with
  | "", _ => Some s
  | String a p, String b s => if decide (a = b) then strip_prefix p s else None
  | _, "" => None
  end.

(** Splits at the first occurrence of [pat]: the text before and after it
    ([s.find(pat)] followed by the two slices; [s.split_once(pat)]). *)
Fixpoint split_once (pat s : string) : option (string * string) :=
  match strip_prefix pat s with
  | Some rest => Some ("", rest)
  | None =>
      match s with
      | "" => None
      | String a s =>
          match split_once pat s with
          | Some (before, after) => Some (String a before, after)
          | None => None
          end
      end
  end.

(** [s.contains(pat)]. *)
Definition str_contains (pat s : string) : bool :=
  match split_once pat s with Some _ => true | None => false end.

(** [s.strip_suffix(p)]. *)
Definition strip_suffix (p s : string) : option string :=
  let n := String.length s - String.length p in
  if bool_decide (str_from n s = p) && (String.length p <=? String.length s) then Some (str_upto n s) else None.

(** [s.split(c)] on one character. *)
Fixpoint split_on (c : Ascii.ascii) (s : string) : list string :=
  match s with
  | "" => [""]
  | String a s =>
      if Ascii.eqb a c then "" :: split_on c s
      else match split_on c s with x :: xs => String a x :: xs | [] => [String a ""] end
  end.

(** [s.rsplit_once(c)] on one character: split at its last occurrence. *)
Fixpoint rsplit_once (c : Ascii.ascii) (s : string) : option (string * string) :=
  match s with
  | "" => None
  | String a s =>
      match rsplit_once c s with
      | Some (before, after) => Some (String a before, after)
      | None => if Ascii.eqb a c then Some ("", s) else None
      end
  end.

(** [v.join(sep)]. *)
Definition str_join (sep : string) (xs : list string) : string := String.concat sep xs.

(** ** Characters *)

Definition byte_of (a : Ascii.ascii) : N := Ascii.N_of_ascii a.

(** The six payload bits of a continuation byte. *)
Definition cont_bits (a : Ascii.ascii) : N := N.land (byte_of a) 63.

(** [s.chars()] on UTF-8 text. *)
Fixpoint chars (s : string) : list N :=
  match s with
  | "" => []
  | String a s1 =>
      let b := byte_of a in
      if (b <? 128)%N then b :: chars s1
      else if (b <? 224)%N then
        match s1 with
        | String a1 s2 => (N.land b 31 * 64 + cont_bits a1)%N :: chars s2
        | "" => [b]
        end
      else if (b <? 240)%N then
        match s1 with
        | String a1 (String a2 s3) =>
            (N.land b 15 * 4096 + cont_bits a1 * 64 + cont_bits a2)%N :: chars s3
        | _ => [b]
        end
      else
        match s1 with
        | String a1 (String a2 (String a3 s4)) =>
            (N.land b 7 * 262144 + cont_bits a1 * 4096 + cont_bits a2 * 64 + cont_bits a3)%N
              :: chars s4
        | _ => [b]
        end
  end.

(** The UTF-8 bytes of a code point. *)
Definition utf8 (c : N) : string :=
  let byte (n : N) (s : string) := String (Ascii.ascii_of_N n) s in
  if (c <? 128)%N then byte c ""
  else if (c <? 2048)%N then byte (192 + c / 64)%N (byte (128 + c mod 64)%N "")
  else if (c <? 65536)%N then
    byte (224 + c / 4096)%N (byte (128 + c / 64 mod 64)%N (byte (128 + c mod 64)%N ""))
  else
    byte (240 + c / 262144)%N (byte (128 + c / 4096 mod 64)%N
      (byte (128 + c / 64 mod 64)%N (byte (128 + c mod 64)%N ""))).

(** [cs.iter().collect::<String>()]. *)
Fixpoint of_chars (cs : list N) : string :=
  match cs with [] => "" | c :: cs => utf8 c +:+ of_chars cs end.

(** [char::is_control]: general category Cc. *)
Definition is_control (c : N) : bool := (c <? 32)%N || ((127 <=? c) && (c <? 160))%N.

(** [char::is_whitespace]: the White_Space property. *)
Definition is_whitespace (c : N) : bool :=
  ((9 <=? c) && (c <=? 13))%N ||
  bool_decide (c ∈ [32; 133; 160; 5760; 8232; 8233; 8239; 8287; 12288]%N) ||
  ((8192 <=? c) && (c <=? 8202))%N.

Definition is_ascii_digit (c : N) : bool := ((48 <=? c) && (c <=? 57))%N.
Definition is_ascii_alphabetic (c : N) : bool :=
  ((65 <=? c) && (c <=? 90))%N || ((97 <=? c) && (c <=? 122))%N.
Definition is_ascii_alphanumeric (c : N) : bool := is_ascii_digit c || is_ascii_alphabetic c.

(** ASCII lower-casing. *)
Definition to_ascii_lowercase (s : string) : string :=
  of_chars (map (λ c, if ((65 <=? c) && (c <=? 90))%N then (c + 32)%N else c) (chars s)).

Fixpoint drop_while {A} (p : A → bool) (xs : list A) : list A :=
  match xs with
  | [] => []
  | x :: xs => if p x then drop_while p xs else x :: xs
  end.

(** [s.trim()]. *)
Definition trim (s : string) : string :=
  of_chars (reverse (drop_while is_whitespace (reverse (drop_while is_whitespace (chars s))))).

(** [s.trim().is_empty()]. *)
Definition is_blank (s : string) : bool := forallb is_whitespace (chars s).

(** ** Numbers *)

Fixpoint parse_digits (acc : Z) (s : string) : option Z :=
  match s with
  | "" => Some acc
  | String a s =>
      if is_ascii_digit (byte_of a)
      then parse_digits (acc * 10 + (Z.of_N (byte_of a) - 48))%Z s
      else None
  end.

(** [s.parse::<uN>()] with [max = uN::MAX]: an optional [+], then digits. *)
Definition parse_unsigned (max : Z) (s : string) : option Z :=
  let digits := match strip_prefix "+" s with Some r => r | None => s end in
  match digits with
  | "" => None
  | _ => z ← parse_digits 0 digits; if (z <=? max)%Z then Some z else None
  end.

(** ** Order *)

(** SQL text comparison and [Ord for str]: byte-wise lexicographic. *)
Definition str_lt (a b : string) : bool := String.ltb a b.
Definition str_le (a b : string) : bool := negb (String.ltb b a).

(** ** Messages

    [{:?}] of a string; the text of a message, and [{:#}] of an error's chain. *)

Class DebugText := debug_text : string → string.

Definition piece_text `{DebugText} (p : piece) : string :=
  match p with Txt s | Ext s => s | Dbg s => debug_text s | Dec z => pretty z end.
Definition msg_text `{DebugText} (m : message) : string := str_join "" (map piece_text m).
Definition chain_text `{DebugText} (e : Anyhow) : string := str_join ": " (map msg_text e).

(** ** Lemmas *)

Lemma ascii_compare_refl a : Ascii.compare a a = Eq.
Proof. apply N.compare_refl. Qed.

Lemma compare_refl s : String.compare s s = Eq.
Proof. induction s as [|a s IH]; cbn; [done|]. by rewrite ascii_compare_refl. Qed.

Lemma compare_Eq s t : String.compare s t = Eq ↔ s = t.
Proof. split; [apply String.compare_eq_iff|]. intros ->. apply compare_refl. Qed.

Lemma ascii_compare_Eq a b : Ascii.compare a b = Eq ↔ a = b.
Proof.
  split; [apply Ascii.compare_eq_iff|]. intros ->. apply ascii_compare_refl.
Qed.

Lemma compare_Lt_trans s t u :
  String.compare s t = Lt → String.compare t u = Lt → String.compare s u = Lt.
Proof.
  revert t u; induction s as [|a s IH]; intros [|b t] [|c u]; cbn; try done.
  destruct (Ascii.compare a b) eqn:Eab, (Ascii.compare b c) eqn:Ebc; try done;
    rewrite ?ascii_compare_Eq in *; subst; intros Hst Htu.
  - rewrite ascii_compare_refl. by apply (IH t).
  - by rewrite Ebc.
  - by rewrite Eab.
  - replace (Ascii.compare a c) with Lt; [done|]. symmetry.
    unfold Ascii.compare in *. rewrite N.compare_lt_iff in *. lia.
Qed.

Lemma compare_Gt s t : String.compare s t = Gt ↔ String.compare t s = Lt.
Proof. rewrite (String.compare_antisym s t). by destruct (String.compare t s). Qed.

Lemma str_lt_spec s t : str_lt s t = true ↔ String.compare s t = Lt.
Proof. unfold str_lt, String.ltb. by destruct (String.compare s t). Qed.

Lemma str_lt_irrefl s : str_lt s s = false.
Proof. unfold str_lt, String.ltb. by rewrite compare_refl. Qed.

Lemma str_lt_trans s t u : str_lt s t = true → str_lt t u = true → str_lt s u = true.
Proof. rewrite !str_lt_spec. apply compare_Lt_trans. Qed.

Lemma str_le_total s t : str_le s t = true ∨ str_le t s = true.
Proof.
  unfold str_le, String.ltb. rewrite (String.compare_antisym t s).
  destruct (String.compare s t); cbn; auto.
Qed.

Lemma str_le_trans s t u : str_le s t = true → str_le t u = true → str_le s u = true.
Proof.
  unfold str_le, String.ltb. intros Hts Hut.
  destruct (String.compare u s) eqn:Eus; [done| |done].
  destruct (String.compare t s) eqn:Ets; [apply compare_Eq in Ets as ->| done |].
  - by rewrite Eus in Hut.
  - apply compare_Gt in Ets. by rewrite (compare_Lt_trans _ _ _ Eus Ets) in Hut.
Qed.

Lemma strip_prefix_spec p s r : strip_prefix p s = Some r ↔ s = p +:+ r.
Proof.
  revert s; induction p as [|a p IH]; intros s.
  - change ("" +:+ r) with r. destruct s; (split; [by intros [= <-]|by intros <-]).
  - destruct s as [|b s]; [done|]. cbn [strip_prefix]. case_decide as Hab.
    + subst. rewrite IH. split; [by intros ->|by intros [= ->]].
    + split; [done|]. by intros [= -> _].
Qed.

Lemma split_once_sound pat s before after :
  split_once pat s = Some (before, after) → s = before +:+ pat +:+ after.
Proof.
  revert before; induction s as [|a s IH]; intros before H; cbn [split_once] in H.
  - destruct (strip_prefix pat "") as [r|] eqn:E; [|done]. simplify_eq.
    by apply strip_prefix_spec in E.
  - destruct (strip_prefix pat (String a s)) as [r|] eqn:E.
    + simplify_eq. by apply strip_prefix_spec in E.
    + destruct (split_once pat s) as [[b' a']|] eqn:E'; [|done]. simplify_eq.
      by rewrite (IH _ eq_refl).
Qed.

Lemma str_length_app s t : String.length (s +:+ t) = String.length s + String.length t.
Proof. induction s as [|a s IH]; [done|].
  change (String a s +:+ t) with (String a (s +:+ t)). cbn. lia. Qed.

Lemma split_once_length pat s before after :
  split_once pat s = Some (before, after) →
  String.length s = String.length before + (String.length pat + String.length after).
Proof.
  intros ->%split_once_sound. rewrite !str_length_app. lia.
Qed.

Lemma str_app_assoc s t u : (s +:+ t) +:+ u = s +:+ (t +:+ u).
Proof. induction s as [|c s IH]; [done|]. change (String c ((s +:+ t) +:+ u) = String c (s +:+ (t +:+ u))). by rewrite IH. Qed.

Lemma str_app_nil_r s : s +:+ "" = s.
Proof. induction s as [|c s IH]; [done|]. change (String c (s +:+ "") = String c s). by rewrite IH. Qed.

(** [c] does not occur. *)
Fixpoint lacks (c : Ascii.ascii) (s : string) : bool :=
  match s with "" => true | String a s => negb (Ascii.eqb a c) && lacks c s end.

Lemma split_once_char c s t : lacks c s = true → split_once (String c "") (s +:+ String c t) = Some (s, t).
Proof.
  induction s as [|a s IH].
  - intros _. change ("" +:+ String c t) with (String c t). cbn [split_once strip_prefix]. by rewrite decide_True.
  - change (String a s +:+ String c t) with (String a (s +:+ String c t)). cbn [lacks].
    intros [Ha Hs]%andb_true_iff. apply negb_true_iff, Ascii.eqb_neq in Ha. cbn [split_once strip_prefix]. rewrite decide_False by done.
    by rewrite IH.
Qed.

Lemma split_once_lacks c s : lacks c s = true → split_once (String c "") s = None.
Proof.
  induction s as [|a s IH]; [done|]. cbn [lacks].
  intros [Ha Hs]%andb_true_iff. apply negb_true_iff, Ascii.eqb_neq in Ha. cbn [split_once strip_prefix]. rewrite decide_False by done.
  by rewrite IH.
Qed.

Lemma lacks_app c s t : lacks c (s +:+ t) = lacks c s && lacks c t.
Proof.
  induction s as [|a s IH]; [done|]. change (String a s +:+ t) with (String a (s +:+ t)). cbn [lacks].
  by rewrite IH, andb_assoc.
Qed.

(** ** Substrings and suffixes *)

Lemma substring_all s : String.substring 0 (String.length s) s = s.
Proof. induction s as [|a s IH]; [done|]. cbn. by rewrite IH. Qed.

Lemma substring_split n s : n ≤ String.length s →
  String.substring 0 n s +:+ String.substring n (String.length s - n) s = s.
Proof.
  revert n. induction s as [|a s IH]; intros [|n] Hn; [done|cbn in Hn; lia|..].
  { change (String.substring 0 (String.length (String a s)) (String a s) = String a s). apply substring_all. }
  cbn in Hn. change (String a (String.substring 0 n s +:+ String.substring n (String.length s - n) s) = String a s).
  by rewrite IH by lia.
Qed.

Lemma strip_suffix_sound p s r : strip_suffix p s = Some r → s = r +:+ p.
Proof.
  unfold strip_suffix. case_bool_decide as Hs; [|done]. destruct (Nat.leb_spec (String.length p) (String.length s)); [|done].
  cbn. intros [= <-]. rewrite <- Hs at 2. symmetry. apply substring_split. lia.
Qed.

Lemma substring_app_l s t : String.substring 0 (String.length s) (s +:+ t) = s.
Proof.
  induction s as [|a s IH]; [by destruct t|]. change (String a s +:+ t) with (String a (s +:+ t)). cbn. by rewrite IH.
Qed.

Lemma substring_app_r s t : String.substring (String.length s) (String.length t) (s +:+ t) = t.
Proof.
  induction s as [|a s IH]; [apply substring_all|]. change (String a s +:+ t) with (String a (s +:+ t)). cbn. apply IH.
Qed.

Lemma strip_suffix_app p r : strip_suffix p (r +:+ p) = Some r.
Proof.
  unfold strip_suffix, str_from, str_upto. rewrite str_length_app.
  replace (String.length r + String.length p - String.length p) with (String.length r) by lia.
  replace (String.length r + String.length p - String.length r) with (String.length p) by lia.
  rewrite substring_app_r, substring_app_l, bool_decide_true by done.
  by rewrite (proj2 (Nat.leb_le _ _)) by lia.
Qed.

Lemma str_app_inj s t u v : s +:+ t = u +:+ v → String.length s = String.length u → s = u ∧ t = v.
Proof.
  revert u. induction s as [|a s IH]; intros [|b u] He Hl; try discriminate Hl; [done|].
  change (String a (s +:+ t) = String b (u +:+ v)) in He. injection He as -> He. injection Hl as Hl.
  by destruct (IH u He Hl) as [-> ->].
Qed.

Lemma str_app_inj_r s t u v : s +:+ t = u +:+ v → String.length t = String.length v → s = u ∧ t = v.
Proof.
  intros He Hl. apply str_app_inj; [done|].
  apply (f_equal String.length) in He. rewrite !str_length_app in He. lia.
Qed.
