(* ===== verification/Net.v ===== *)
(** * IP addresses

    [std::net]'s addresses, their text and their classes. *)

From stdpp Require Import pretty.
From S2P Require Import Prelude Text.

#[local] Open Scope string_scope.
#[local] Open Scope list_scope.
#[local] Open Scope nat_scope.

(** ** Addresses

    An IPv4 address is its four octets, an IPv6 address its eight segments. *)

Inductive IpAddr := V4 (octets : list Z) | V6 (segments : list Z).

#[export] Instance IpAddr_eq_dec : EqDecision IpAddr.
Proof. solve_decision. Defined.

Definition colon : Ascii.ascii := Ascii.ascii_of_N 58.
Definition dot : Ascii.ascii := Ascii.ascii_of_N 46.

(** A decimal octet: at most three digits, no leading zero, at most 255. *)
Definition parse_octet (s : string) : option Z :=
  if (3 <? String.length s) || (starts_with "0" s && negb (bool_decide (s = "0"))) || bool_decide (s = "") then None
  else z ← parse_digits 0 s; if (z <=? 255)%Z then Some z else None.

(** [s.parse::<Ipv4Addr>()]. *)
Definition parse_ipv4 (s : string) : option (list Z) :=
  os ← mapM parse_octet (split_on dot s); if length os =? 4 then Some os else None.

Definition hex_value (a : Ascii.ascii) : option Z :=
  let b := byte_of a in
  if is_ascii_digit b then Some (Z.of_N b - 48)%Z
  else if ((97 <=? b) && (b <=? 102))%N then Some (Z.of_N b - 87)%Z
  else if ((65 <=? b) && (b <=? 70))%N then Some (Z.of_N b - 55)%Z
  else None.

Fixpoint parse_hex (acc : Z) (s : string) : option Z :=
  match s with "" => Some acc | String a s => d ← hex_value a; parse_hex (acc * 16 + d)%Z s end.

(** A segment: one to four hexadecimal digits. *)
Definition parse_segment (s : string) : option Z :=
  if (4 <? String.length s) || bool_decide (s = "") then None else parse_hex 0 s.

(** Colon-separated segments, the last of which may be an IPv4 address when
    [tail] allows it; the empty text has none. *)
Definition parse_groups (tail : bool) (s : string) : option (list Z) :=
  if bool_decide (s = "") then Some []
  else
    match reverse (split_on colon s) with
    | last :: init =>
        match (if tail then parse_ipv4 last else None) with
        | Some [a; b; c; d] =>
            segs ← mapM parse_segment (reverse init); Some (segs ++ [a * 256 + b; c * 256 + d]%Z)
        | _ => mapM parse_segment (split_on colon s)
        end
    | [] => None
    end.

(** [s.parse::<Ipv6Addr>()]: eight segments, or fewer around one "::". *)
Definition parse_ipv6 (s : string) : option (list Z) :=
  match split_once "::" s with
  | None => segs ← parse_groups true s; if length segs =? 8 then Some segs else None
  | Some (before, after) =>
      head_ ← parse_groups false before;
      tail_ ← parse_groups true after;
      if length head_ + length tail_ <=? 7
      then Some (head_ ++ replicate (8 - length head_ - length tail_) 0%Z ++ tail_) else None
  end.

(** [s.parse::<IpAddr>()]. *)
Definition parse_ip (s : string) : option IpAddr :=
  match parse_ipv4 s with Some o => Some (V4 o) | None => V6 <$> parse_ipv6 s end.

(** The classes of [std::net] the guard asks for. *)
Definition v4_loopback (o : list Z) : bool := match o with a :: _ => (a =? 127)%Z | [] => false end.
Definition v4_link_local (o : list Z) : bool := match o with a :: b :: _ => (a =? 169)%Z && (b =? 254)%Z | _ => false end.
Definition v4_private (o : list Z) : bool :=
  match o with
  | a :: b :: _ => (a =? 10)%Z || ((a =? 172) && (16 <=? b) && (b <=? 31))%Z || ((a =? 192) && (b =? 168))%Z
  | _ => false
  end.
Definition v4_unspecified (o : list Z) : bool := bool_decide (o = [0; 0; 0; 0]%Z).
Definition v6_loopback (s : list Z) : bool := bool_decide (s = [0; 0; 0; 0; 0; 0; 0; 1]%Z).
Definition v6_unspecified (s : list Z) : bool := bool_decide (s = replicate 8 0%Z).

(** ** Text of an address ([Display] of [std::net]) *)

Definition hex_digit (d : Z) : string := String (Ascii.ascii_of_N (Z.to_N (if (d <? 10)%Z then 48 + d else 87 + d))) "".

(** [{:x}] of a segment; its four digits are fuel enough. *)
Fixpoint hex_text_fuel (fuel : nat) (z : Z) : string :=
  match fuel with
  | O => ""
  | S fuel => if (z <? 16)%Z then hex_digit z else hex_text_fuel fuel (z / 16) +:+ hex_digit (z mod 16)
  end.
Definition hex_text : Z → string := hex_text_fuel 4.

Definition show_ipv4 (o : list Z) : string := str_join "." (map pretty o).

(** The longest run of zero segments, the first of several: its start and its
    length, with the run under way. *)
Definition zero_run_step (acc : nat * nat * (nat * nat)) (seg : nat * Z) : nat * nat * (nat * nat) :=
  let '(start, len, (best_start, best_len)) := acc in
  let '(i, z) := seg in
  if (z =? 0)%Z then
    let start := if len =? 0 then i else start in
    let len := S len in
    (start, len, if best_len <? len then (start, len) else (best_start, best_len))
  else (0, 0, (best_start, best_len)).
Definition longest_zeros (segs : list Z) : nat * nat := (foldl zero_run_step (0, 0, (0, 0)) (enumerate segs)).2.

Definition show_segments (segs : list Z) : string := str_join ":" (map hex_text segs).

Definition show_ipv6 (segs : list Z) : string :=
  match segs with
  | [0; 0; 0; 0; 0; 65535; a; b]%Z => "::ffff:" +:+ show_ipv4 [a / 256; a mod 256; b / 256; b mod 256]%Z
  | _ =>
      let '(start, len) := longest_zeros segs in
      if 1 <? len then show_segments (take start segs) +:+ "::" +:+ show_segments (drop (start + len) segs)
      else show_segments segs
  end.

(** [ip.to_string()]. *)
Definition show_ip (ip : IpAddr) : string := match ip with V4 o => show_ipv4 o | V6 segs => show_ipv6 segs end.

Example show_ip_v4 : show_ip (V4 [10; 0; 0; 255]%Z) = "10.0.0.255".
Proof. reflexivity. Qed.

Example show_ip_v6 : show_ip <$> parse_ip "2001:db8:0:0:1:0:0:1" = Some "2001:db8::1:0:0:1".
Proof. reflexivity. Qed.

Example show_ip_mapped : show_ip <$> parse_ip "::ffff:10.0.0.1" = Some "::ffff:10.0.0.1".
Proof. reflexivity. Qed.
