(* ===== verification/Json.v ===== *)
(** * JSON values

    [serde_json::Value] as a tree: an object is the key-sorted association
    list of serde_json's [BTreeMap]-backed [Map]; a number is kept as its
    decimal rendering ([Number::to_string]).  Parsing and printing of JSON
    text belong to serde_json and are parameters of the components that use them. *)

From S2P Require Import Prelude Text.

#[local] Open Scope string_scope.
#[local] Open Scope list_scope.
#[local] Open Scope nat_scope.

(** ** Values *)

Inductive Json :=
| JNull
| JBool (b : bool)
| JNumber (repr : string)
| JString (s : string)
| JArray (xs : list Json)
| JObject (m : list (string * Json)).

(** [Map::get]. *)
Fixpoint assoc_get {V} (k : string) (m : list (string * V)) : option V :=
  match m with
  | [] => None
  | (k', v) :: m => if decide (k = k') then Some v else assoc_get k m
  end.

(** [Map::insert] of a [BTreeMap]: replaces, or inserts in key order. *)
Fixpoint assoc_insert {V} (k : string) (v : V) (m : list (string * V)) : list (string * V) :=
  match m with
  | [] => [(k, v)]
  | (k', v') :: m =>
      match String.compare k k' with
      | Lt => (k, v) :: (k', v') :: m
      | Eq => (k, v) :: m
      | Gt => (k', v') :: assoc_insert k v m
      end
  end.

(** [Map::remove]. *)
Definition assoc_remove {V} (k : string) (m : list (string * V)) : list (string * V) :=
  List.filter (λ kv, negb (bool_decide (k = kv.1))) m.

(** [Value::get] with a string index. *)
Definition json_get (v : Json) (k : string) : option Json :=
  match v with JObject m => assoc_get k m | _ => None end.

Definition as_str (v : Json) : option string :=
  match v with JString s => Some s | _ => None end.
Definition as_array (v : Json) : option (list Json) :=
  match v with JArray xs => Some xs | _ => None end.
Definition as_object (v : Json) : option (list (string * Json)) :=
  match v with JObject m => Some m | _ => None end.

(** [v.get(a).and_then(|x| x.get(b))]; also [v.pointer("/a/b")] for keys
    that are not array indices. *)
Definition json_get2 (v : Json) (a b : string) : option Json :=
  x ← json_get v a; json_get x b.

(** [v.get_mut(k).map(f)]: updates the member [k] of an object in place. *)
Definition json_update (k : string) (f : Json → Json) (v : Json) : Json :=
  match v with
  | JObject m => JObject (map (λ kv, if decide (k = kv.1) then (kv.1, f kv.2) else kv) m)
  | _ => v
  end.

(** ** Lemmas *)

Lemma assoc_get_insert_eq {V} k (v : V) m : assoc_get k (assoc_insert k v m) = Some v.
Proof.
  induction m as [|[k' v'] m IH]; cbn; [by rewrite decide_True|].
  destruct (String.compare k k') eqn:E; cbn; [by rewrite decide_True..|].
  destruct (decide (k = k')) as [->|]; [|done].
  by rewrite compare_refl in E.
Qed.

Lemma assoc_get_insert_ne {V} k k' (v : V) m :
  k ≠ k' → assoc_get k' (assoc_insert k v m) = assoc_get k' m.
Proof.
  intros Hne. induction m as [|[k1 v1] m IH]; cbn; [by rewrite decide_False|].
  destruct (String.compare k k1) eqn:E; cbn.
  - apply compare_Eq in E as ->. by rewrite !decide_False by done.
  - by rewrite (decide_False (P := k' = k)) by done.
  - case_decide; [done|]. apply IH.
Qed.

Lemma assoc_get_remove_eq {V} k (m : list (string * V)) : assoc_get k (assoc_remove k m) = None.
Proof.
  induction m as [|[k' v'] m IH]; cbn; [done|].
  case_bool_decide; cbn; [done|]. by rewrite decide_False.
Qed.

Lemma assoc_get_remove_ne {V} k k' (m : list (string * V)) :
  k ≠ k' → assoc_get k' (assoc_remove k m) = assoc_get k' m.
Proof.
  intros Hne. induction m as [|[k1 v1] m IH]; cbn; [done|].
  case_bool_decide; cbn; subst; [by rewrite decide_False|]. by case_decide.
Qed.

Lemma assoc_get_update {V} k k' (f : V → V) (m : list (string * V)) :
  assoc_get k' (map (λ kv, if decide (k = kv.1) then (kv.1, f kv.2) else kv) m) =
  (if decide (k = k') then f <$> assoc_get k' m else assoc_get k' m).
Proof.
  induction m as [|[k1 v1] m IH]; cbn; [by case_decide|].
  destruct (decide (k = k1)) as [->|]; cbn.
  - destruct (decide (k' = k1)) as [->|]; [by rewrite decide_True by done|].
    rewrite IH. by rewrite !decide_False by congruence.
  - destruct (decide (k' = k1)) as [->|]; [by rewrite decide_False by done|]. done.
Qed.

Lemma json_get_update k k' f v :
  json_get (json_update k f v) k' =
  (if decide (k = k') then f <$> json_get v k' else json_get v k').
Proof.
  destruct v; cbn; try (by case_decide). apply assoc_get_update.
Qed.
