(* ===== verification/ApiError.v ===== *)
(** * API errors (crates/iac-controlplane/src/error.rs)

    The control plane's error type and the HTTP response each error becomes. *)

From S2P Require Import Prelude Text.

#[local] Open Scope string_scope.
#[local] Open Scope list_scope.
#[local] Open Scope nat_scope.

(** Identity of the rate-limit bucket that rejected a call. *)
Record RateLimitBucket := mkBucket { bucket_type : string; bucket_name : string }.

Definition bucket_env (name : string) := mkBucket "env" name.
Definition bucket_policy (name : string) := mkBucket "policy" name.
Definition bucket_agent (name : string) := mkBucket "agent" name.
Definition bucket_login_user (name : string) := mkBucket "login_user" name.
Definition bucket_client (name : string) := mkBucket "client" name.
Definition bucket_register_ip (name : string) := mkBucket "register_ip" name.

(** What the code looks at in a [sqlx::Error]: whether it is a [Database]
    error, with its message and code. *)
Inductive SqlxError :=
| SqlxDatabase (msg : string) (code : option string)
| SqlxOther (msg : string).

Inductive ApiErr :=
| NotFound
| Unauthorized
| Forbidden
| Conflict (msg : message)
| BadRequest (msg : message)
| PayloadTooLarge
| TooManyRequests (bucket : RateLimitBucket) (retry_after_secs : Z)
| ServiceUnavailable (reason : message) (retry_after_secs : Z)
| Internal (msg : message)
| Sqlx (e : SqlxError)
| JsonErr (msg : string).

Abbreviation ApiResult := (result ApiErr).

Definition is_sqlite_busy (e : SqlxError) : bool :=
  match e with
  | SqlxDatabase msg code =>
      if str_contains "database is locked" msg || str_contains "database table is locked" msg
      then true
      else match code with
           | Some code => bool_decide (code = "5") || bool_decide (code = "6")
           | None => false
           end
  | SqlxOther _ => false
  end.

(** The parts of the HTTP response [into_response] builds. *)
Record Response := mkResponse {
  status : Z;
  body_error : string;
  body_detail : option message;
  body_bucket : option RateLimitBucket;
  retry_after : option Z
}.

Definition into_response (e : ApiErr) : Response :=
  match e with
  | NotFound => mkResponse 404 "not_found" None None None
  | Unauthorized => mkResponse 401 "unauthorized" None None None
  | Forbidden => mkResponse 403 "forbidden" None None None
  | Conflict msg => mkResponse 409 "conflict" (Some msg) None None
  | BadRequest msg => mkResponse 400 "bad_request" (Some msg) None None
  | PayloadTooLarge => mkResponse 413 "payload_too_large" None None None
  | TooManyRequests bucket secs =>
      mkResponse 429 "too_many_requests" (Some [Txt "retry after "; Dec secs; Txt "s"])
        (Some bucket) (Some secs)
  | ServiceUnavailable reason secs =>
      mkResponse 503 "service_unavailable" (Some reason) None (Some secs)
  | Internal _ => mkResponse 500 "internal" None None None
  | Sqlx e =>
      if is_sqlite_busy e
      then mkResponse 503 "service_unavailable" (Some [Txt "database busy; retry"]) None (Some 1%Z)
      else mkResponse 500 "internal" None None None
  | JsonErr msg => mkResponse 400 "bad_json" (Some [Ext msg]) None None
  end.

(** A response asks for a retry exactly when its status is 429 or 503, and
    only the 429 carries a bucket. *)
Lemma into_response_retry e :
  (is_Some (retry_after (into_response e)) ↔
     status (into_response e) = 429%Z ∨ status (into_response e) = 503%Z) ∧
  (is_Some (body_bucket (into_response e)) ↔ status (into_response e) = 429%Z).
Proof.
  destruct e as [| | | | | | | | |e|]; cbn; try (split; split; [intros [? ?]; discriminate|lia]);
    try (split; split; eauto; intros [? ?]; discriminate);
    try (split; split; eauto; intros; (discriminate || naive_solver)).
  destruct (is_sqlite_busy e); cbn; split; split; eauto; try lia; intros [? ?]; discriminate.
Qed.
