(* ===== verification/Routing.v ===== *)
(** * Routing (store.rs and api/operations.rs)

    The routing record of a submitted resource, its extraction from the
    resource JSON, the choice of the target agent, and the removal of the
    server-side routing hint before a resource is sealed into a payload. *)

From S2P Require Import Prelude Text Json ApiError.

#[local] Open Scope string_scope.
#[local] Open Scope list_scope.
#[local] Open Scope nat_scope.

(** serde_json's text codec, code outside the repository. *)
Class JsonCodec := {
  json_from_str : string → result string Json;
  json_to_string : Json → string
}.

Record ResourceForRouting := mkRouting {
  resource_id : string;
  kind : string;
  environment : string;
  resource_json : string;
  name : string;
  host_selector : option string
}.

(** A row of [SELECT id, name, environment FROM agents]. *)
Record AgentRow := mkAgentRow { ag_id : string; ag_name : string; ag_env : string }.

(** [value.get("spec").get("hostSelector").get("name").as_str()]. *)
Definition host_selector_of (value : Json) : option string :=
  s ← json_get value "spec"; h ← json_get s "hostSelector"; v ← json_get h "name"; as_str v.

Definition extract_routing `{JsonCodec} (raw : Json) (op_env : string)
    : ApiResult ResourceForRouting :=
  kind ← ok_or (json_get raw "kind" ≫= as_str) (BadRequest [Txt "resource missing 'kind'"]);
  name ← ok_or (json_get2 raw "metadata" "name" ≫= as_str)
           (BadRequest [Txt "resource missing 'metadata.name'"]);
  environment ←
    match json_get2 raw "metadata" "environment" ≫= as_str with
    | None => Ok op_env
    | Some env =>
        if decide (env = op_env) then Ok env
        else Err (BadRequest
          [Txt "resource '"; Txt (default "<unknown>" (json_get2 raw "metadata" "name" ≫= as_str));
           Txt "' declares metadata.environment="; Dbg env;
           Txt " but operation is for environment "; Dbg op_env;
           Txt "; cross-env submissions are not permitted — either drop the metadata.environment field or submit the operation under the matching environment"])
    end;
  let host_selector := host_selector_of raw in
  let resource_id := kind +:+ "/" +:+ environment +:+ "/" +:+ name in
  let canonical :=
    json_update "metadata"
      (λ meta, match meta with
               | JObject m => JObject (assoc_insert "environment" (JString environment) m)
               | _ => meta
               end) raw in
  Ok (mkRouting resource_id kind environment (json_to_string canonical) name host_selector).

(** [spec.remove("hostSelector")] when [spec] is an object. *)
Definition strip_routing_hints (value : Json) : Json :=
  json_update "spec"
    (λ s, match s with JObject m => JObject (assoc_remove "hostSelector" m) | _ => s end) value.

Definition route_resource (r : ResourceForRouting) (operation_env : string)
    (agents : list AgentRow) : result message string :=
  match host_selector r with
  | Some host =>
      match List.find (λ a, bool_decide (ag_name a = host) && bool_decide (ag_env a = operation_env))
              agents with
      | Some a => Ok (ag_id a)
      | None => Err [Txt "hostSelector.name="; Dbg host;
                     Txt " but no agent registered in environment="; Dbg operation_env]
      end
  | None =>
      match List.filter (λ a, bool_decide (ag_env a = operation_env)) agents with
      | [] => Err [Txt "no agents registered in environment="; Dbg operation_env]
      | [a] => Ok (ag_id a)
      | env_agents =>
          Err [Dec (Z.of_nat (length env_agents)); Txt " agents in environment=";
               Dbg operation_env; Txt "; resource needs spec.hostSelector.name"]
      end
  end.

(** ** Properties *)

(** A resource is only ever routed to an agent registered in the
    operation's environment, and to the one its host selector names. *)
Lemma route_resource_sound r env agents id :
  route_resource r env agents = Ok id →
  ∃ a, a ∈ agents ∧ ag_id a = id ∧ ag_env a = env ∧
       (∀ host, host_selector r = Some host → ag_name a = host).
Proof.
  unfold route_resource. destruct (host_selector r) as [host|] eqn:Hh.
  - destruct (List.find _ agents) as [a|] eqn:Hf; [|done]. intros [= <-].
    apply find_some in Hf as [Hin Hp]. apply andb_true_iff in Hp as [Hn He].
    apply bool_decide_eq_true in Hn, He. exists a.
    split; [by apply list_elem_of_In|]. naive_solver.
  - destruct (List.filter _ agents) as [|a [|? ?]] eqn:Hf; try done. intros [= <-].
    assert (a ∈ List.filter (λ a, bool_decide (ag_env a = env)) agents) as Hin
      by (rewrite Hf; left).
    apply elem_of_List_filter in Hin as [Hin He]. apply bool_decide_eq_true in He.
    exists a. naive_solver.
Qed.

(** Without a host selector the target is the environment's only agent. *)
Lemma route_resource_unique r env agents a :
  host_selector r = None →
  List.filter (λ a, bool_decide (ag_env a = env)) agents = [a] →
  route_resource r env agents = Ok (ag_id a).
Proof. intros Hh Hf. unfold route_resource. by rewrite Hh, Hf. Qed.

Lemma extract_routing_env `{JsonCodec} raw op_env r :
  extract_routing raw op_env = Ok r → environment r = op_env.
Proof.
  unfold extract_routing. intros Hx. inv_result. cbn.
  destruct (json_get2 raw "metadata" "environment" ≫= as_str); [case_decide|]; by inv_result.
Qed.

Lemma strip_routing_hints_host value : host_selector_of (strip_routing_hints value) = None.
Proof.
  unfold host_selector_of, strip_routing_hints. rewrite json_get_update. cbn.
  destruct (json_get value "spec") as [s|]; cbn; [|done].
  destruct s as [| | | | |m]; cbn -[assoc_remove]; try done.
  rewrite decide_True by done. cbn -[assoc_remove]. by rewrite assoc_get_remove_eq.
Qed.

Lemma strip_routing_hints_other value k :
  k ≠ "spec" → json_get (strip_routing_hints value) k = json_get value k.
Proof. intros Hk. unfold strip_routing_hints. rewrite json_get_update. by rewrite decide_False. Qed.
