(* ===== verification/Depsort.v ===== *)
(** * Dependency ordering (crates/iac-controlplane/src/depsort.rs)

    [metadata.dependsOn] edges, the stable topological sort of the routing
    list, and the layer of each resource. *)

From S2P Require Import Prelude Text Json ApiError Routing.

#[local] Open Scope string_scope.
#[local] Open Scope list_scope.
#[local] Open Scope nat_scope.

Section Definitions.
Context `{JsonCodec}.

Fixpoint collect_deps (seen : gset string) (arr : list Json) : ApiResult (list string) :=
  match arr with
  | [] => Ok []
  | item :: arr =>
      match as_str item with
      | None => Err (BadRequest [Txt "metadata.dependsOn entries must be strings"])
      | Some s =>
          if decide (s ∈ seen)
          then Err (BadRequest [Txt "metadata.dependsOn has duplicate entry "; Dbg s])
          else out ← collect_deps ({[s]} ∪ seen) arr; Ok (s :: out)
      end
  end.

Definition read_depends_on (resource_json : string) : ApiResult (list string) :=
  match json_from_str resource_json with
  | Err e => Err (BadRequest [Txt "malformed resource json: "; Ext e])
  | Ok value =>
      match json_get2 value "metadata" "dependsOn" with
      | None => Ok []
      | Some deps_value =>
          match as_array deps_value with
          | None => Err (BadRequest
              [Txt "metadata.dependsOn must be an array of resource id strings"])
          | Some arr => collect_deps ∅ arr
          end
      end
  end.

(** [id_to_idx]: each id mapped to the last index it occurs at. *)
Definition id_index (routing : list ResourceForRouting) : gmap string nat :=
  foldl (λ m '(i, r), <[resource_id r := i]> m) ∅ (enumerate routing).

Definition unknown_dep (r : ResourceForRouting) (dep_id : string) : ApiErr :=
  BadRequest [Txt (resource_id r); Txt ": dependsOn references unknown resource "; Dbg dep_id].

(** *** Layers *)

Definition dep_layer (id_to_idx : gmap string nat) (layers : list Z) (i : nat)
    (r : ResourceForRouting) (max_dep_layer : Z) (dep_id : string) : ApiResult Z :=
  match id_to_idx !! dep_id with
  | None => Err (unknown_dep r dep_id)
  | Some dep_idx =>
      if decide (i ≤ dep_idx)%nat then
        Err (Internal
          [Txt "compute_resource_layers: dep "; Dec (Z.of_nat dep_idx); Txt " of resource "; Dec (Z.of_nat i);
           Txt " not yet visited — caller must topo-sort first"])
      else Ok (Z.max max_dep_layer (List.nth dep_idx layers 0%Z))
  end.

Definition layer_step (id_to_idx : gmap string nat) (layers : list Z)
    (ir : nat * ResourceForRouting) : ApiResult (list Z) :=
  let '(i, r) := ir in
  deps ← read_depends_on (resource_json r);
  max_dep_layer ← try_fold (dep_layer id_to_idx layers i r) (-1)%Z deps;
  Ok (<[i := i32_add max_dep_layer 1]> layers).

Definition compute_resource_layers (routing : list ResourceForRouting) : ApiResult (list Z) :=
  match routing with
  | [] => Ok []
  | _ =>
      let id_to_idx := id_index routing in
      try_fold (layer_step id_to_idx) (replicate (length routing) 0%Z) (enumerate routing)
  end.

(** *** Topological sort *)

Record graph := mkGraph { in_degree : list nat; adjacency : list (list nat) }.

Definition add_edge (id_to_idx : gmap string nat) (i : nat) (r : ResourceForRouting)
    (g : graph) (dep_id : string) : ApiResult graph :=
  match id_to_idx !! dep_id with
  | None => Err (unknown_dep r dep_id)
  | Some dep_idx =>
      if decide (dep_idx = i) then
        Err (BadRequest [Txt (resource_id r); Txt ": dependsOn must not point at itself"])
      else
        Ok (mkGraph (alter S i (in_degree g)) (alter (λ l, l ++ [i]) dep_idx (adjacency g)))
  end.

Definition node_step (id_to_idx : gmap string nat) (g : graph)
    (ir : nat * ResourceForRouting) : ApiResult graph :=
  let '(i, r) := ir in
  deps ← read_depends_on (resource_json r);
  try_fold (add_edge id_to_idx i r) g deps.

Definition empty_graph (n : nat) : graph := mkGraph (replicate n 0) (replicate n []).

Definition build_graph (routing : list ResourceForRouting) : ApiResult graph :=
  try_fold (node_step (id_index routing)) (empty_graph (length routing)) (enumerate routing).

End Definitions.

(** [for &next in &adjacency[idx]]: a decrement below zero would panic. *)
Fixpoint relax (nexts : list nat) (in_degree : list nat) (queue : list nat)
    : panics (list nat * list nat) :=
  match nexts with
  | [] => Some (in_degree, queue)
  | next :: nexts =>
      match in_degree !! next with
      | Some (S d) =>
          relax nexts (<[next := d]> in_degree) (if decide (d = 0) then queue ++ [next] else queue)
      | _ => None
      end
  end.

(** [while let Some(idx) = queue.pop_front()]: [fuel] bounds the pops. *)
Fixpoint kahn (fuel : nat) (adjacency : list (list nat)) (in_degree queue order : list nat)
    : panics (list nat * list nat) :=
  match queue with
  | [] => Some (order, in_degree)
  | idx :: queue =>
      match fuel with
      | O => None
      | S fuel =>
          nexts ← adjacency !! idx;
          '(in_degree, queue) ← relax nexts in_degree queue;
          kahn fuel adjacency in_degree queue (order ++ [idx])
      end
  end.

(** [(0..n).filter(|&i| in_degree[i] == 0)]. *)
Definition seed (n : nat) (in_degree : list nat) : list nat :=
  List.filter (λ i, bool_decide (in_degree !! i = Some 0)) (seq 0 n).

(** Moves the entries out of [taker] in the order of [order]; [expect]
    panics when an entry was already taken. *)
Fixpoint take_in_order {A} (order : list nat) (taker : list (option A)) : panics (list A) :=
  match order with
  | [] => Some []
  | idx :: order =>
      match taker !! idx with
      | Some (Some entry) =>
          sorted ← take_in_order order (<[idx := None]> taker); Some (entry :: sorted)
      | _ => None
      end
  end.

Definition stuck_ids (routing : list ResourceForRouting) (in_degree : list nat) : list string :=
  take 5 (omap (λ '(i, d), if decide (0 < d)%nat then resource_id <$> routing !! i else None)
               (enumerate in_degree)).

(** [topo_sort_by_depends_on(&mut routing)]: the new contents of [routing]
    on [Ok]; [routing] is unchanged on [Err]. *)
Definition topo_sort_by_depends_on `{JsonCodec} (routing : list ResourceForRouting)
    : panics (ApiResult (list ResourceForRouting)) :=
  match routing with
  | [] => Some (Ok [])
  | _ =>
      match build_graph routing with
      | Err e => Some (Err e)
      | Ok g =>
          let n := length routing in
          '(order, in_degree) ← kahn n (adjacency g) (in_degree g) (seed n (in_degree g)) [];
          if decide (length order ≠ n) then
            Some (Err (BadRequest
              [Txt "dependsOn cycle detected (involves: ";
               Txt (str_join ", " (stuck_ids routing in_degree)); Txt ")"]))
          else
            sorted ← take_in_order order (map Some routing);
            Some (Ok sorted)
      end
  end.

(** ** The loops of the sort *)

(** A run of [relax] over [nexts]: every in-degree drops by the number of
    occurrences, and the nodes that reach zero are appended to the queue. *)
Lemma relax_spec nexts d q :
  (∀ k, k ∈ nexts → ∃ v, d !! k = Some v ∧ count_of k nexts ≤ v) →
  ∃ d' new,
    relax nexts d q = Some (d', q ++ new) ∧ length d' = length d ∧
    (∀ k v, d !! k = Some v → d' !! k = Some (v - count_of k nexts)) ∧
    NoDup new ∧ (∀ k, k ∈ new ↔ k ∈ nexts ∧ d' !! k = Some 0).
Proof.
  revert d q; induction nexts as [|next nexts IH]; intros d q Hd; cbn [relax].
  - exists d, []. rewrite app_nil_r. split_and!; [done|done| |constructor|set_solver].
    intros k v Hk. cbn. by rewrite Nat.sub_0_r.
  - destruct (Hd next) as (v & Hv & Hle); [left|]. cbn in Hle. rewrite decide_True in Hle by done.
    rewrite Hv. destruct v as [|v]; [lia|].
    pose proof (lookup_lt_Some _ _ _ Hv) as Hlt.
    assert (∀ k w, d !! k = Some w →
              <[next:=v]> d !! k = Some (if decide (k = next) then v else w)) as Hins.
    { intros k w Hk. case_decide as Hkn; [subst; by apply list_lookup_insert_eq|].
      by rewrite list_lookup_insert_ne by congruence. }
    destruct (IH (<[next:=v]> d) (if decide (v = 0) then q ++ [next] else q))
      as (d' & new & Hrun & Hlen & Hd' & Hnd & Hnew).
    { intros k Hk. destruct (Hd k) as (w & Hw & Hwle); [by right|]. cbn in Hwle.
      exists (if decide (k = next) then v else w). split; [by apply Hins|].
      case_decide; subst; [|lia]. lia. }
    assert (v = 0 → next ∉ nexts) as Hfresh by (intros ->; apply count_of_0; lia).
    assert (d' !! next = Some (v - count_of next nexts)) as Hnext.
    { apply Hd'. by apply list_lookup_insert_eq. }
    exists d', ((if decide (v = 0) then [next] else []) ++ new). split_and!.
    + rewrite Hrun. case_decide; [by rewrite <- app_assoc|done].
    + by rewrite Hlen, length_insert.
    + intros k w Hk. rewrite (Hd' k _ (Hins k w Hk)). cbn.
      destruct (decide (k = next)) as [->|]; [|done].
      assert (w = S v) by congruence. subst. f_equal; lia.
    + case_decide; cbn; [|done]. constructor; [|done]. rewrite Hnew. naive_solver.
    + intros k. rewrite elem_of_app, Hnew, elem_of_cons. case_decide as Hv0.
      * rewrite list_elem_of_singleton. split; [|naive_solver].
        intros [->|]; [|naive_solver]. split; [by left|]. rewrite Hnext. f_equal. lia.
      * rewrite elem_of_nil. split; [naive_solver|]. intros [[->|Hk] H0]; [|naive_solver].
        right. split; [|done]. rewrite Hnext in H0. apply count_of_pos.
        injection H0. lia.
Qed.

(** ** Kahn's algorithm *)

Section Kahn.
Context (n : nat) (adj : list (list nat)) (dp : nat → list nat).
Hypothesis adj_len : length adj = n.
Hypothesis adj_dp : ∀ j k l, adj !! j = Some l → count_of k l = count_of j (if decide (k < n) then dp k else []).
Hypothesis dp_lt : ∀ k j, j ∈ dp k → j < n.

(** Dependencies of [k] not yet emitted. *)
Definition pend (order : list nat) (k : nat) : nat :=
  length (filter (λ j, j ∉ order) (dp k)).

(** The loop invariant of Kahn's algorithm. *)
Record kahn_inv (order queue in_deg : list nat) : Prop := {
  ki_nodup : NoDup (order ++ queue);
  ki_lt : ∀ k, k ∈ order ++ queue → k < n;
  ki_len : length in_deg = n;
  ki_deg : ∀ k, k < n → in_deg !! k = Some (pend order k);
  ki_zero : ∀ k, k < n → k ∈ order ++ queue ↔ pend order k = 0;
  ki_sorted : ∀ j k x, order !! j = Some k → x ∈ dp k → x ∈ take j order
}.

Lemma pend_0 order k : pend order k = 0 ↔ ∀ x, x ∈ dp k → x ∈ order.
Proof.
  unfold pend. rewrite length_zero_iff_nil. split.
  - intros H x Hx. destruct (decide (x ∈ order)) as [|Hn]; [done|].
    assert (x ∈ filter (λ j, j ∉ order) (dp k)) as Hin by by apply list_elem_of_filter.
    rewrite H in Hin. by apply elem_of_nil in Hin.
  - intros H. destruct (filter _ _) as [|y l] eqn:E; [done|].
    assert (y ∈ filter (λ j, j ∉ order) (dp k)) as [Hy Hd]%list_elem_of_filter
      by (rewrite E; left).
    by apply H in Hd.
Qed.

Lemma pend_snoc order idx k :
  idx ∉ order → pend (order ++ [idx]) k + count_of idx (dp k) = pend order k.
Proof.
  intros Hidx. unfold pend. induction (dp k) as [|x l IH]; [done|]. cbn [count_of].
  rewrite !filter_cons. destruct (decide (x ∈ order)) as [Hx|Hx].
  - rewrite !(decide_False (P := x ∉ _)) by set_solver.
    rewrite (decide_False (P := idx = x)) by (intros ->; done). done.
  - rewrite (decide_True (P := x ∉ order)) by done.
    destruct (decide (idx = x)) as [->|].
    + rewrite decide_False by set_solver. cbn. lia.
    + rewrite decide_True by set_solver. cbn. lia.
Qed.

Lemma nodup_lt_length (l : list nat) : NoDup l → (∀ k, k ∈ l → k < n) → length l ≤ n.
Proof using n.
  clear adj_len.
  intros Hnd Hlt. rewrite <- (length_seq n 0). apply submseteq_length, NoDup_submseteq; [done|].
  intros k Hk. apply elem_of_seq. specialize (Hlt k Hk). lia.
Qed.

(** One iteration of the loop preserves the invariant (and does not panic). *)
Lemma kahn_step order idx queue d l :
  kahn_inv order (idx :: queue) d → adj !! idx = Some l →
  ∃ d' q', relax l d queue = Some (d', q') ∧ kahn_inv (order ++ [idx]) q' d'.
Proof.
  intros [Hnd Hlt Hlen Hdeg Hzero Hsort] Hl.
  apply NoDup_app in Hnd as (Hndo & Hdisj & Hndq). apply NoDup_cons in Hndq as [Hidxq Hndq].
  assert (idx ∉ order) as Hidxo by (intros Hi; by apply (Hdisj idx Hi); left).
  assert (∀ k, k < n → count_of k l = count_of idx (dp k)) as Hcnt.
  { intros k Hk. rewrite (adj_dp idx k l Hl). by rewrite decide_True. }
  assert (∀ k, k ∈ l → k < n) as Hladj.
  { intros k Hk%count_of_pos. rewrite (adj_dp idx k l Hl) in Hk.
    case_decide; [done|cbn in Hk; lia]. }
  assert (∀ k, pend (order ++ [idx]) k + count_of idx (dp k) = pend order k) as Hpend
    by (intros k; by apply pend_snoc).
  destruct (relax_spec l d queue) as (d' & new & Hrun & Hlen' & Hd' & Hnn & Hnew).
  { intros k Hk. pose proof (Hladj k Hk) as Hkn. exists (pend order k).
    split; [by apply Hdeg|]. rewrite Hcnt by done. specialize (Hpend k). lia. }
  assert (∀ k, k < n → d' !! k = Some (pend (order ++ [idx]) k)) as Hdeg'.
  { intros k Hk. rewrite (Hd' k _ (Hdeg k Hk)), (Hcnt k Hk). f_equal. specialize (Hpend k). lia. }
  assert (∀ k, k ∈ new → k < n ∧ 0 < count_of idx (dp k) ∧ pend (order ++ [idx]) k = 0) as Hnew1.
  { intros k [Hk H0]%Hnew. pose proof (Hladj k Hk) as Hkn. split; [done|]. split.
    - rewrite <- Hcnt by done. by apply count_of_pos.
    - rewrite Hdeg' in H0 by done. congruence. }
  assert (∀ k, k ∈ new → k ∉ order ++ idx :: queue) as Hnew2.
  { intros k Hk Hin. destruct (Hnew1 k Hk) as (Hkn & Hc & _).
    apply Hzero in Hin; [|done]. specialize (Hpend k). lia. }
  exists d', (queue ++ new). split; [done|]. split.
  - rewrite <- app_assoc. cbn. apply NoDup_app. split; [done|]. split.
    + intros x Hx. specialize (Hdisj x Hx). intros Hin. apply Hdisj.
      apply elem_of_cons in Hin as [->|Hin]; [left|]. apply elem_of_app in Hin as [Hin|Hin].
      * by right.
      * exfalso. apply (Hnew2 x Hin). apply elem_of_app. by left.
    + constructor.
      * rewrite elem_of_app. intros [?|Hin]; [done|]. apply (Hnew2 _ Hin). set_solver.
      * apply NoDup_app. split; [done|]. split; [|done]. intros x Hx Hin.
        apply (Hnew2 _ Hin). set_solver.
  - intros k. rewrite <- app_assoc. cbn. intros Hk.
    destruct (decide (k ∈ new)) as [Hn|Hn]; [by apply Hnew1|]. apply Hlt. set_solver.
  - by rewrite Hlen'.
  - done.
  - intros k Hk. rewrite <- app_assoc. cbn. specialize (Hpend k). split.
    + intros Hin. destruct (decide (k ∈ new)) as [Hn|Hn]; [by apply Hnew1|].
      assert (k ∈ order ++ idx :: queue) as Hin' by set_solver.
      apply Hzero in Hin'; [lia|done].
    + intros H0. destruct (decide (pend order k = 0)) as [Hz|Hz].
      * apply Hzero in Hz; [|done]. set_solver.
      * assert (k ∈ new); [|set_solver]. apply Hnew. split.
        -- apply count_of_pos. rewrite Hcnt by done. lia.
        -- rewrite Hdeg' by done. by rewrite H0.
  - intros j k x Hj Hx. destruct (decide (j < length order)) as [Hjl|Hjl].
    + rewrite lookup_app_l in Hj by done. rewrite take_app_le by lia. by eapply Hsort.
    + apply lookup_app_Some in Hj as [Hj|[Hge Hj]];
        [by apply lookup_lt_Some in Hj|].
      assert (j = length order) as -> by (apply lookup_lt_Some in Hj; cbn in Hj; lia).
      rewrite Nat.sub_diag in Hj. injection Hj as <-. rewrite take_app_length.
      assert (pend order idx = 0) as H0.
      { apply Hzero; [apply Hlt; set_solver|set_solver]. }
      by apply (proj1 (pend_0 order idx) H0).
Qed.

(** With one unit of fuel per node the loop terminates with an empty queue. *)
Lemma kahn_total fuel order queue d :
  kahn_inv order queue d → n ≤ fuel + length order →
  ∃ order' d', kahn fuel adj d queue order = Some (order', d') ∧ kahn_inv order' [] d'.
Proof.
  revert order queue d; induction fuel as [|fuel IH]; intros order queue d Hinv Hfuel.
  - destruct queue as [|idx queue]; cbn; [eauto|]. exfalso.
    pose proof (nodup_lt_length _ (ki_nodup _ _ _ Hinv) (ki_lt _ _ _ Hinv)) as Hle.
    rewrite length_app in Hle. cbn in *. lia.
  - destruct queue as [|idx queue]; cbn [kahn]; [eauto|].
    assert (idx < n) as Hidx by (apply (ki_lt _ _ _ Hinv); set_solver).
    destruct (lookup_lt_is_Some_2 adj idx) as [l Hl]; [by rewrite adj_len|]. rewrite Hl. cbn.
    destruct (kahn_step _ _ _ _ _ Hinv Hl) as (d' & q' & Hrun & Hinv'). rewrite Hrun. cbn.
    apply IH; [done|]. rewrite length_app. cbn. lia.
Qed.

(** The nodes left out are exactly those that still wait for one another. *)
Lemma kahn_stuck order d k :
  kahn_inv order [] d → k < n → k ∉ order → ∃ x, x ∈ dp k ∧ x ∉ order.
Proof.
  intros Hinv Hk Hko. pose proof (ki_zero _ _ _ Hinv k Hk) as Hz. rewrite app_nil_r in Hz.
  destruct (decide (Exists (λ x, x ∉ order) (dp k))) as [He|He].
  - apply Exists_exists in He. naive_solver.
  - exfalso. apply Hko, Hz, pend_0. intros x Hx.
    destruct (decide (x ∈ order)) as [|Hn]; [done|]. exfalso. apply He, Exists_exists. eauto.
Qed.

Lemma kahn_complete order d :
  kahn_inv order [] d → length order = n → order ≡ₚ seq 0 n.
Proof using dp n.
  clear adj_len.
  intros Hinv Hlen. pose proof (ki_nodup _ _ _ Hinv) as Hnd. rewrite app_nil_r in Hnd.
  apply submseteq_length_Permutation; [|rewrite length_seq; lia].
  apply NoDup_submseteq; [done|]. intros k Hk. apply elem_of_seq.
  pose proof (ki_lt _ _ _ Hinv k) as Hlt. rewrite app_nil_r in Hlt. specialize (Hlt Hk). lia.
Qed.

End Kahn.

(** ** The dependency graph *)

Section Graph.
Context `{JsonCodec}.

(** Indices the dependencies of the [k]-th resource of [rs] resolve to. *)
Definition deps_of (idx : gmap string nat) (rs : list ResourceForRouting) (k : nat) : list nat :=
  match rs !! k with
  | Some r =>
      match read_depends_on (resource_json r) with
      | Ok ds => omap (λ d, idx !! d) ds
      | Err _ => []
      end
  | None => []
  end.

(** Every [dependsOn] list parses, and names other resources of the list. *)
Definition deps_valid (idx : gmap string nat) (rs : list ResourceForRouting) : Prop :=
  ∀ i r, rs !! i = Some r →
    ∃ ds, read_depends_on (resource_json r) = Ok ds ∧
          ∀ d, d ∈ ds → ∃ j, idx !! d = Some j ∧ j ≠ i.

Lemma id_index_snoc rs r :
  id_index (rs ++ [r]) = <[resource_id r := length rs]> (id_index rs).
Proof. unfold id_index. by rewrite enumerate_snoc, foldl_app. Qed.

Lemma id_index_Some rs d i :
  id_index rs !! d = Some i → ∃ r, rs !! i = Some r ∧ resource_id r = d.
Proof.
  induction rs as [|r rs IH] using rev_ind; intros Hi; [by cbn in Hi; rewrite lookup_empty in Hi|].
  rewrite id_index_snoc in Hi. apply lookup_insert_Some in Hi as [[<- <-]|[Hne Hi]].
  - exists r. split; [|done]. by apply list_lookup_middle.
  - destruct (IH Hi) as (r' & Hr & Hd). exists r'. split; [|done]. by apply lookup_app_l_Some.
Qed.

Lemma id_index_lt rs d i : id_index rs !! d = Some i → i < length rs.
Proof. intros (r & Hr & _)%id_index_Some. by eapply lookup_lt_Some. Qed.

Lemma id_index_is_Some rs i r : rs !! i = Some r → is_Some (id_index rs !! resource_id r).
Proof.
  induction rs as [|r' rs IH] using rev_ind; intros Hi; [done|]. rewrite id_index_snoc.
  destruct (decide (resource_id r' = resource_id r)) as [->|Hne]; [by rewrite lookup_insert_eq|].
  rewrite lookup_insert_ne by done. apply lookup_app_Some in Hi as [Hi|[_ Hi]]; [by apply IH|].
  apply list_lookup_singleton_Some in Hi as [_ ->]. done.
Qed.

(** With distinct ids the index of a resource is its position. *)
Lemma id_index_NoDup rs i r :
  NoDup (resource_id <$> rs) → rs !! i = Some r → id_index rs !! resource_id r = Some i.
Proof.
  intros Hnd Hi. destruct (id_index_is_Some _ _ _ Hi) as [j Hj]. rewrite Hj. f_equal.
  destruct (id_index_Some _ _ _ Hj) as (r' & Hr' & Hd).
  apply (NoDup_lookup _ j i (resource_id r) Hnd); rewrite list_lookup_fmap, ?Hi, ?Hr'; cbn; congruence.
Qed.

Lemma deps_of_lt rs k j : j ∈ deps_of (id_index rs) rs k → j < length rs.
Proof.
  unfold deps_of. destruct (rs !! k); [|set_solver]. destruct (read_depends_on _); [|set_solver].
  intros (d & _ & Hd)%list_elem_of_omap. by eapply id_index_lt.
Qed.

(** The inner loop over one resource's dependencies. *)
Lemma add_edges_spec idx i r ds g g' :
  try_fold (add_edge idx i r) g ds = Ok g' →
  (∀ d, d ∈ ds → ∃ j, idx !! d = Some j ∧ j ≠ i) ∧
  length (adjacency g') = length (adjacency g) ∧
  in_degree g' = alter (λ v, v + length (omap (λ d, idx !! d) ds)) i (in_degree g) ∧
  ∀ j, adjacency g' !! j =
       (λ l, l ++ replicate (count_of j (omap (λ d, idx !! d) ds)) i) <$> (adjacency g !! j).
Proof.
  revert g; induction ds as [|d ds IH]; intros g Hg; cbn in Hg.
  - inv_result. split_and!; [set_solver|done| |].
    + cbn. apply list_eq. intros k. destruct (decide (k = i)) as [->|].
      * rewrite list_lookup_alter_eq. destruct (in_degree g' !! i); cbn; [|done]. by rewrite Nat.add_0_r.
      * by rewrite list_lookup_alter_ne.
    + intros j. cbn. destruct (adjacency g' !! j); cbn; [by rewrite app_nil_r|done].
  - inv_result. unfold add_edge in E. destruct (idx !! d) as [j0|] eqn:Hd; [|done].
    case_decide as Hji; [done|]. injection E as <-. apply IH in Hg as (Hall & Hlen & Hdeg & Hadj).
    cbn in Hdeg, Hadj.
    assert (omap (λ d, idx !! d) (d :: ds) = j0 :: omap (λ d, idx !! d) ds) as ->
      by (cbn; by rewrite Hd).
    split_and!.
    + intros d' [->|Hd']%elem_of_cons; [by exists j0|by apply Hall].
    + by rewrite Hlen; cbn; rewrite length_alter.
    + rewrite Hdeg. cbn. rewrite list_alter_alter_eq.
      apply list_alter_ext; [|done]. intros v _. cbn. lia.
    + intros j. rewrite Hadj. cbn [count_of]. destruct (decide (j = j0)) as [->|].
      * cbn. rewrite list_lookup_alter_eq.
        destruct (adjacency g !! j0); cbn; [|done]. by rewrite <- app_assoc.
      * cbn. by rewrite list_lookup_alter_ne by done.
Qed.

Lemma add_edges_ok idx i r ds g :
  (∀ d, d ∈ ds → ∃ j, idx !! d = Some j ∧ j ≠ i) →
  ∃ g', try_fold (add_edge idx i r) g ds = Ok g'.
Proof.
  revert g; induction ds as [|d ds IH]; intros g Hall; cbn; [by eexists|].
  destruct (Hall d) as (j & Hj & Hne); [left|].
  assert (∃ g1, add_edge idx i r g d = Ok g1) as [g1 ->].
  { unfold add_edge. rewrite Hj, decide_False by done. by eexists. }
  apply IH. intros d' Hd'. apply Hall. by right.
Qed.

(** The graph after the resources of a prefix [rs] were visited. *)
Record graph_of (idx : gmap string nat) (n : nat) (rs : list ResourceForRouting) (g : graph)
    : Prop := {
  gr_deg : ∀ k, k < n → in_degree g !! k = Some (length (deps_of idx rs k));
  gr_deg_len : length (in_degree g) = n;
  gr_adj_len : length (adjacency g) = n;
  gr_adj : ∀ j l k, adjacency g !! j = Some l → count_of k l = count_of j (deps_of idx rs k)
}.

Lemma deps_of_snoc idx rs r k :
  deps_of idx (rs ++ [r]) k =
  (if decide (k = length rs)
   then match read_depends_on (resource_json r) with
        | Ok ds => omap (λ d, idx !! d) ds | Err _ => [] end
   else deps_of idx rs k).
Proof.
  unfold deps_of. case_decide as Hk.
  - subst. by rewrite list_lookup_middle by done.
  - destruct (decide (k < length rs)); [by rewrite lookup_app_l|].
    rewrite (lookup_ge_None_2 (rs ++ [r])) by (rewrite length_app; cbn; lia).
    by rewrite lookup_ge_None_2 by lia.
Qed.

Lemma count_of_replicate x y m : count_of x (replicate m y) = if decide (x = y) then m else 0.
Proof. induction m as [|m IH]; cbn; [by case_decide|]. rewrite IH. by case_decide. Qed.

Lemma build_prefix idx n rs g :
  try_fold (node_step idx) (empty_graph n) (enumerate rs) = Ok g →
  deps_valid idx rs ∧ graph_of idx n rs g.
Proof.
  revert g; induction rs as [|r rs IH] using rev_ind; intros g Hg.
  - cbn in Hg. injection Hg as <-. split; [by intros i r Hi|]. split.
    + intros k Hk. cbn. by apply lookup_replicate_2.
    + apply length_replicate.
    + apply length_replicate.
    + intros j l k Hl. apply lookup_replicate in Hl as [-> _]. done.
  - rewrite enumerate_snoc, try_fold_app in Hg. cbn in Hg. inv_result. 
    destruct (IH _ eq_refl) as [Hval [Hdeg Hdl Hal Hadj]]. rename E1 into Hds.
    match goal with Hx : try_fold (add_edge _ _ _) _ _ = Ok _ |- _ =>
      apply add_edges_spec in Hx as (Hall & Hal' & Hdeg' & Hadj') end.
    split.
    + intros i r' Hi. apply lookup_app_Some in Hi as [Hi|[Hge Hi]]; [by apply Hval|].
      apply list_lookup_singleton_Some in Hi as [Hi ->].
      assert (i = length rs) as -> by lia. by eexists.
    + split.
      * intros k Hk. rewrite Hdeg', deps_of_snoc. case_decide as Hkr.
        -- subst. rewrite list_lookup_alter_eq, Hdeg by done. cbn. rewrite Hds.
           unfold deps_of. by rewrite lookup_ge_None_2 by lia.
        -- rewrite list_lookup_alter_ne by done. by apply Hdeg.
      * by rewrite Hdeg', length_alter.
      * by rewrite Hal'.
      * intros j l k Hl. rewrite Hadj' in Hl. apply fmap_Some in Hl as (l0 & Hl0 & ->).
        rewrite count_of_app, count_of_replicate, (Hadj _ _ k Hl0), deps_of_snoc.
        case_decide as Hkr; [|lia]. subst. rewrite Hds.
        unfold deps_of at 1. by rewrite lookup_ge_None_2 by lia.
Qed.


(** The graph builds exactly when every dependency list is valid. *)
Lemma build_prefix_ok idx n rs :
  deps_valid idx rs → ∃ g, try_fold (node_step idx) (empty_graph n) (enumerate rs) = Ok g.
Proof.
  induction rs as [|r rs IH] using rev_ind; intros Hval; [by eexists|].
  destruct IH as [g Hg].
  { intros i r' Hi. apply (Hval i). by apply lookup_app_l_Some. }
  destruct (Hval (length rs) r) as (ds & Hds & Hall); [by apply list_lookup_middle|].
  destruct (add_edges_ok idx (length rs) r ds g Hall) as [g' Hg'].
  exists g'. rewrite enumerate_snoc, try_fold_app, Hg. cbn. by rewrite Hds, bind_Ok, Hg'.
Qed.

Lemma build_graph_ok_iff rs :
  (∃ g, build_graph rs = Ok g) ↔ deps_valid (id_index rs) rs.
Proof.
  split.
  - intros [g Hg]. by apply build_prefix in Hg as [? _].
  - apply build_prefix_ok.
Qed.

Lemma collect_deps_NoDup seen arr ds :
  collect_deps seen arr = Ok ds → NoDup ds ∧ ∀ d, d ∈ ds → d ∉ seen.
Proof.
  revert seen ds; induction arr as [|item arr IH]; intros seen ds; cbn.
  - intros [= <-]. split; [constructor|set_solver].
  - destruct (as_str item) as [s|]; [|done]. case_decide; [done|]. intros Hx. inv_result.
    apply IH in E as [Hnd Hns]. split; [constructor; [|done]; set_solver|].
    intros d [->|Hd]%elem_of_cons; [done|]. specialize (Hns d Hd). set_solver.
Qed.

(** Reading and graph errors are client errors. *)
Lemma collect_deps_err seen arr e :
  collect_deps seen arr = Err e → ∃ m, e = BadRequest m.
Proof.
  revert seen; induction arr as [|item arr IH]; intros seen; cbn; [done|].
  destruct (as_str item); [|intros [= <-]; eauto]. case_decide; [intros [= <-]; eauto|].
  destruct (collect_deps _ arr) eqn:Hc; cbn; [done|]. intros [= <-]. eauto.
Qed.

Lemma read_depends_on_err j e : read_depends_on j = Err e → ∃ m, e = BadRequest m.
Proof.
  unfold read_depends_on. destruct (json_from_str j); [|intros [= <-]; eauto].
  destruct (json_get2 _ _ _); [|done]. destruct (as_array _); [|intros [= <-]; eauto].
  apply collect_deps_err.
Qed.

Lemma try_fold_err {E A B} (f : B → A → result E B) (Q : E → Prop) b xs e :
  (∀ b x e, f b x = Err e → Q e) → try_fold f b xs = Err e → Q e.
Proof.
  intros Hf. revert b; induction xs as [|x xs IH]; intros b; cbn; [done|].
  destruct (f b x) eqn:Hx; cbn; [apply IH|]. intros [= <-]. by eapply Hf.
Qed.

Lemma build_graph_err rs e : build_graph rs = Err e → ∃ m, e = BadRequest m.
Proof.
  apply (try_fold_err _ (λ e, ∃ m, e = BadRequest m)). intros g [i r] e'. cbn.
  destruct (read_depends_on _) eqn:Hr; cbn.
  - apply (try_fold_err _ (λ e, ∃ m, e = BadRequest m)). intros g' d e''. unfold add_edge. destruct (_ !! _).
    + case_decide; [|done]. intros [= <-]. by eexists.
    + intros [= <-]. by eexists.
  - intros [= <-]. by eapply read_depends_on_err.
Qed.

End Graph.

(** ** Rearranging the routing list *)

(** Taking every entry once along a duplicate-free list of valid indices
    never hits the [expect]. *)
Lemma take_in_order_ok {A} order (xs : list A) taker :
  NoDup order →
  (∀ i, i ∈ order → ∃ x, xs !! i = Some x ∧ taker !! i = Some (Some x)) →
  ∃ sorted, take_in_order order taker = Some sorted ∧ Forall2 (λ i x, xs !! i = Some x) order sorted.
Proof.
  revert taker; induction order as [|i order IH]; intros taker Hnd Hx; cbn.
  - exists []. by split; [|constructor].
  - apply NoDup_cons in Hnd as [Hi Hnd]. destruct (Hx i) as (x & Hxi & Ht); [left|]. rewrite Ht.
    destruct (IH (<[i:=None]> taker) Hnd) as (sorted & Hs & Hf).
    { intros j Hj. destruct (Hx j) as (y & ? & ?); [by right|]. exists y. split; [done|].
      rewrite list_lookup_insert_ne; [done|]. by intros ->. }
    rewrite Hs. cbn. eexists. split; [done|]. by constructor.
Qed.

Lemma take_in_order_perm {A} (xs sorted : list A) order :
  order ≡ₚ seq 0 (length xs) → Forall2 (λ i x, xs !! i = Some x) order sorted → sorted ≡ₚ xs.
Proof.
  intros Hp Hf.
  assert (∀ ys, Forall2 (λ i x, xs !! i = Some x) order ys → ys = omap (λ i, xs !! i) order) as Ho.
  { clear. induction order as [|i o IH]; intros ys Hy; inversion Hy; subst; cbn; [done|].
    rewrite H1. f_equal. by apply IH. }
  rewrite (Ho _ Hf), Hp. clear.
  induction xs as [|x xs IH] using rev_ind; [done|].
  rewrite length_app, seq_app, omap_app. cbn. rewrite list_lookup_middle by done.
  apply Permutation_app; [|done].
  transitivity (omap (λ i, xs !! i) (seq 0 (length xs))); [|done]. apply reflexive_eq.
  apply list_omap_ext, Forall2_same_length_lookup. split; [done|].
  intros k i j Hi Hj. assert (i = j) as -> by congruence.
  apply lookup_app_l. apply lookup_seq in Hi. lia.
Qed.
