(* ===== verification/DepOrder.v ===== *)
(** * Properties of the dependency ordering

    Totality, soundness and completeness of [topo_sort_by_depends_on], its
    stability, and the characterisation of [compute_resource_layers] on the
    list it produces (the pipeline of [submit] and [create_operation]). *)

From S2P Require Import Prelude Text Json ApiError Routing Depsort.

#[local] Open Scope string_scope.
#[local] Open Scope list_scope.
#[local] Open Scope nat_scope.

(** A ranking of the positions along which every dependency decreases. *)
Definition acyclic `{JsonCodec} (rs : list ResourceForRouting) : Prop :=
  ∃ rank : nat → nat, ∀ k j, j ∈ deps_of (id_index rs) rs k → rank j < rank k.

Section Sort.
Context `{JsonCodec}.
Implicit Types rs sorted : list ResourceForRouting.

Abbreviation dp rs := (deps_of (id_index rs) rs).

Lemma seed_spec n d k : k ∈ seed n d ↔ k < n ∧ d !! k = Some 0.
Proof.
  unfold seed. rewrite elem_of_List_filter, elem_of_seq, bool_decide_eq_true. intuition lia.
Qed.

Lemma kahn_inv_initial rs g :
  graph_of (id_index rs) (length rs) rs g →
  kahn_inv (length rs) (dp rs) [] (seed (length rs) (in_degree g)) (in_degree g).
Proof.
  intros [Hdeg Hdl Hal Hadj].
  assert (∀ k, pend (dp rs) [] k = length (dp rs k)) as Hp.
  { intros k. unfold pend. induction (dp rs k) as [|x l IH]; [done|].
    rewrite filter_cons, decide_True by set_solver. cbn [length]. by rewrite IH. }
  split; cbn.
  - unfold seed. apply NoDup_ListNoDup, List.NoDup_filter, NoDup_ListNoDup, NoDup_seq.
  - intros k Hk. by apply seed_spec in Hk as [? _].
  - done.
  - intros k Hk. rewrite Hp. by apply Hdeg.
  - intros k Hk. rewrite seed_spec, Hp, Hdeg by done. split; [intros [_ [= ?]]; done|by intros ->].
  - intros j k x Hj. by rewrite lookup_nil in Hj.
Qed.

Lemma kahn_run rs g :
  build_graph rs = Ok g →
  ∃ order d,
    kahn (length rs) (adjacency g) (in_degree g) (seed (length rs) (in_degree g)) [] = Some (order, d) ∧
    kahn_inv (length rs) (dp rs) order [] d.
Proof.
  intros [Hval Hg]%build_prefix. apply kahn_total.
  - by destruct Hg.
  - intros j k l Hl. destruct Hg as [_ _ _ Hadj]. rewrite (Hadj _ _ k Hl).
    case_decide as Hk; [done|]. unfold deps_of. by rewrite lookup_ge_None_2 by lia.
  - intros k j. apply deps_of_lt.
  - by apply kahn_inv_initial.
  - cbn. lia.
Qed.

(** Kahn's loop only appends to what is already queued. *)
Lemma kahn_prefix fuel adj d queue order order' d' :
  kahn fuel adj d queue order = Some (order', d') → ∃ tail, order' = order ++ queue ++ tail.
Proof.
  revert d queue order; induction fuel as [|fuel IH]; intros d [|idx queue] order; cbn.
  - intros [= <- _]. exists []. by rewrite app_nil_r.
  - done.
  - intros [= <- _]. exists []. by rewrite app_nil_r.
  - destruct (adj !! idx) as [nexts|]; cbn; [|done].
    destruct (relax nexts d queue) as [[d1 q1]|] eqn:Hr; cbn; [|done].
    intros [tail ->]%IH. assert (∃ q2, q1 = queue ++ q2) as [q2 ->].
    { clear -Hr. revert d queue Hr. induction nexts as [|x l IH]; intros d queue; cbn.
      - intros [= _ <-]. exists []. by rewrite app_nil_r.
      - destruct (d !! x) as [[|v]|]; [done| |done]. intros [q2 ->]%IH. case_decide; [|eauto].
        exists (x :: q2). by rewrite <- app_assoc. }
    exists (q2 ++ tail). by rewrite <- !app_assoc.
Qed.

(** What a run of the sort does, in terms of the order Kahn's loop emits. *)
Lemma topo_sort_run rs :
  (∃ e, build_graph rs = Err e ∧ topo_sort_by_depends_on rs = Some (Err e)) ∨
  (∃ g order d, build_graph rs = Ok g ∧ kahn_inv (length rs) (dp rs) order [] d ∧
     (∃ tail, order = seed (length rs) (in_degree g) ++ tail) ∧
     ((length order ≠ length rs ∧ ∃ m, topo_sort_by_depends_on rs = Some (Err (BadRequest m))) ∨
      (order ≡ₚ seq 0 (length rs) ∧ ∃ sorted,
         topo_sort_by_depends_on rs = Some (Ok sorted) ∧
         Forall2 (λ i x, rs !! i = Some x) order sorted))).
Proof.
  unfold topo_sort_by_depends_on. destruct (build_graph rs) as [g|e] eqn:Hb.
  - right. destruct (kahn_run rs g Hb) as (order & d & Hrun & Hinv).
    exists g, order, d. split_and!; [done|done|by apply kahn_prefix in Hrun|]. destruct (decide (length order ≠ length rs)) as [Hl|Hl].
    + left. split; [done|]. destruct rs as [|r rs'].
      * exfalso. pose proof (ki_nodup _ _ _ _ _ Hinv). destruct order as [|k o]; [done|].
        assert (k < 0); [|lia]. apply (ki_lt _ _ _ _ _ Hinv). left.
      * cbv zeta. rewrite Hrun. cbn -[length]. rewrite decide_True by done. by eexists.
    + right. assert (order ≡ₚ seq 0 (length rs)) as Hp
        by (eapply kahn_complete; [exact Hinv|lia]).
      split; [done|]. destruct rs as [|r rs'].
      * exists []. split; [done|]. cbn in Hp. apply Permutation_nil_r in Hp. by rewrite Hp.
      * destruct (take_in_order_ok order (r :: rs') (map Some (r :: rs'))) as (sorted & Hs & Hf).
        { rewrite Hp. apply NoDup_seq. }
        { intros i Hi. rewrite Hp in Hi. apply elem_of_seq in Hi.
          destruct (lookup_lt_is_Some_2 (r :: rs') i) as [x Hx]; [lia|].
          exists x. split; [done|].
          etransitivity; [exact (list_lookup_fmap Some (r :: rs') i)|by rewrite Hx]. }
        exists sorted. split; [|done]. cbv zeta. rewrite Hrun. cbn -[length map].
        rewrite decide_False by done. by rewrite Hs.
  - left. exists e. split; [done|]. destruct rs; [cbn in Hb; discriminate|done].
Qed.

Lemma dp_lookup rs k r ds :
  rs !! k = Some r → read_depends_on (resource_json r) = Ok ds →
  dp rs k = omap (λ d, id_index rs !! d) ds.
Proof. intros Hk Hds. unfold deps_of. by rewrite Hk, Hds. Qed.

Lemma topo_ordered rs order sorted d :
  deps_valid (id_index rs) rs → kahn_inv (length rs) (dp rs) order [] d →
  Forall2 (λ i x, rs !! i = Some x) order sorted →
  ∀ j r, sorted !! j = Some r →
    ∃ ds, read_depends_on (resource_json r) = Ok ds ∧
      ∀ x, x ∈ ds → ∃ i r', i < j ∧ sorted !! i = Some r' ∧ resource_id r' = x.
Proof.
  intros Hval Hinv Hf j r Hj. destruct (Forall2_lookup_r _ _ _ _ _ Hf Hj) as (k & Hk & Hr).
  destruct (Hval k r Hr) as (ds & Hds & Hall). exists ds. split; [done|]. intros x Hx.
  destruct (Hall x Hx) as (m & Hm & _).
  assert (m ∈ take j order) as Hin.
  { apply (ki_sorted _ _ _ _ _ Hinv j k); [done|]. rewrite (dp_lookup _ _ _ _ Hr Hds).
    apply list_elem_of_omap. eauto. }
  apply list_elem_of_lookup in Hin as [i Hi]. apply lookup_take_Some in Hi as [Hi Hlt].
  destruct (Forall2_lookup_l _ _ _ _ _ Hf Hi) as (r' & Hr' & Hm').
  destruct (id_index_Some _ _ _ Hm) as (r'' & Hr'' & Hid). exists i, r'.
  split_and!; [done|done|congruence].
Qed.

(** The position in the emitted order ranks the nodes. *)
Lemma kahn_acyclic rs order d :
  kahn_inv (length rs) (dp rs) order [] d → order ≡ₚ seq 0 (length rs) → acyclic rs.
Proof.
  intros Hinv Hp. exists (λ k, match list_find (k =.) order with Some (p, _) => p | None => 0 end).
  intros k j Hkj.
  assert (k ∈ order) as Hk.
  { rewrite Hp, elem_of_seq. unfold deps_of in Hkj. destruct (rs !! k) eqn:Hr; [|set_solver].
    apply lookup_lt_Some in Hr. lia. }
  destruct (list_find_elem_of (k =.) order k Hk eq_refl) as [[p k'] Hpk]. rewrite Hpk.
  apply list_find_Some in Hpk as (Hpo & <- & _).
  pose proof (ki_sorted _ _ _ _ _ Hinv p k j Hpo Hkj) as Hin.
  apply list_elem_of_lookup in Hin as [i Hi]. apply lookup_take_Some in Hi as [Hi Hlt].
  assert (j ∈ order) as Hjo by (by eapply list_elem_of_lookup_2).
  destruct (list_find_elem_of (j =.) order j Hjo eq_refl) as [[q j'] Hq]. rewrite Hq.
  apply list_find_Some in Hq as (Hqo & <- & Hmin).
  destruct (decide (q < p)); [done|]. exfalso. apply (Hmin i j); [done|lia|done].
Qed.

(** In an acyclic graph nothing is left waiting. *)
Lemma acyclic_complete rs order d :
  kahn_inv (length rs) (dp rs) order [] d → acyclic rs → length order = length rs.
Proof.
  intros Hinv [rank Hrank]. pose proof (ki_nodup _ _ _ _ _ Hinv) as Hnd. rewrite app_nil_r in Hnd.
  assert (∀ m k, rank k < m → k < length rs → k ∈ order) as Hall.
  { induction m as [|m IH]; intros k Hm Hk; [lia|].
    destruct (decide (k ∈ order)) as [|Hko]; [done|]. exfalso.
    destruct (kahn_stuck _ _ _ _ _ Hinv Hk Hko) as (x & Hx & Hxo).
    apply Hxo, IH; [specialize (Hrank k x Hx); lia|by eapply deps_of_lt]. }
  apply Nat.le_antisymm.
  - apply nodup_lt_length; [done|]. intros k Hk. apply (ki_lt _ _ _ _ _ Hinv).
    by rewrite app_nil_r.
  - rewrite <- (length_seq (length rs) 0) at 1. apply submseteq_length, NoDup_submseteq.
    + apply NoDup_seq.
    + intros k Hk%elem_of_seq. apply (Hall (S (rank k))); lia.
Qed.

(** ** Layers *)

Lemma dep_layers_max idx layers i r ds m0 :
  (∀ d, d ∈ ds → ∃ j, idx !! d = Some j ∧ j < i) →
  ∃ m, try_fold (dep_layer idx layers i r) m0 ds = Ok m ∧ (m0 ≤ m)%Z ∧
    (∀ j, j ∈ omap (λ d, idx !! d) ds → (List.nth j layers 0 ≤ m)%Z) ∧
    (m = m0 ∨ ∃ j, j ∈ omap (λ d, idx !! d) ds ∧ List.nth j layers 0%Z = m).
Proof.
  revert m0; induction ds as [|d ds IH]; intros m0 Hall; cbn.
  - exists m0. split_and!; [done|lia|set_solver|by left].
  - destruct (Hall d) as (j & Hj & Hlt); [left|].
    assert (dep_layer idx layers i r m0 d = Ok (Z.max m0 (List.nth j layers 0%Z))) as ->.
    { unfold dep_layer. rewrite Hj. destruct (decide (i ≤ j)); [lia|done]. }
    rewrite bind_Ok, Hj.
    destruct (IH (Z.max m0 (List.nth j layers 0%Z))) as (m & Hm & Hle & Hmax & Hex).
    { intros d' Hd'. apply Hall. by right. }
    exists m. split_and!; [exact Hm|lia| |].
    + intros k [->|Hk]%elem_of_cons; [lia|by apply Hmax].
    + destruct Hex as [->|(k & Hk & Hkm)].
      * destruct (Z.max_spec m0 (List.nth j layers 0%Z)) as [[_ ->]|[_ ->]];
          [right; exists j; split; [left|done]|by left].
      * right. exists k. split; [by right|done].
Qed.

(** What the layer of position [j] is. *)
Definition layer_ok rs (layers : list Z) (j : nat) : Prop :=
  ∃ l, layers !! j = Some l ∧ (0 ≤ l ≤ Z.of_nat j)%Z ∧
    (∀ i, i ∈ dp rs j → ∃ l', layers !! i = Some l' ∧ (l' < l)%Z) ∧
    (l = 0%Z ∨ ∃ i, i ∈ dp rs j ∧ layers !! i = Some (l - 1)%Z).

Definition ordered rs : Prop :=
  ∀ j r, rs !! j = Some r → ∃ ds, read_depends_on (resource_json r) = Ok ds ∧
    ∀ d, d ∈ ds → ∃ i, id_index rs !! d = Some i ∧ i < j.

Lemma layer_ok_insert rs layers i j l :
  (∀ k, k ∈ dp rs j → k < j) → j < i → layer_ok rs layers j → layer_ok rs (<[i := l]> layers) j.
Proof.
  intros Hlt Hji (lj & Hlj & Hr & Hd & He). exists lj.
  rewrite list_lookup_insert_ne by lia. split_and!; [done|lia|lia| |].
  - intros k Hk. rewrite list_lookup_insert_ne by (specialize (Hlt k Hk); lia). by apply Hd.
  - destruct He as [He|(k & Hk & He)]; [by left|]. right. exists k. split; [done|].
    by rewrite list_lookup_insert_ne by (specialize (Hlt k Hk); lia).
Qed.

Lemma ordered_lt rs k j : ordered rs → k ∈ dp rs j → k < j.
Proof.
  intros Ho. unfold deps_of. destruct (rs !! j) as [r|] eqn:Hr; [|set_solver].
  destruct (Ho j r Hr) as (ds & -> & Hall). intros (d & Hd & Hk)%list_elem_of_omap.
  destruct (Hall d Hd) as (i & Hi & Hlt). congruence.
Qed.

Lemma layer_step_ok rs layers j r :
  ordered rs → rs !! j = Some r → length layers = length rs →
  (Z.of_nat (length rs) ≤ 2 ^ 31)%Z → (∀ i, i < j → layer_ok rs layers i) →
  ∃ layers', layer_step (id_index rs) layers (j, r) = Ok layers' ∧
    length layers' = length rs ∧ ∀ i, i < S j → layer_ok rs layers' i.
Proof.
  intros Ho Hj Hlen Hbig Hok. destruct (Ho j r Hj) as (ds & Hds & Hall).
  pose proof (lookup_lt_Some _ _ _ Hj) as Hjl.
  destruct (dep_layers_max (id_index rs) layers j r ds (-1)%Z Hall) as (m & Hm & Hle & Hmax & Hex).
  rewrite <- (dp_lookup rs j r ds Hj Hds) in Hmax, Hex.
  assert (∀ k, k ∈ dp rs j → layers !! k = Some (List.nth k layers 0%Z) ∧
                             (List.nth k layers 0 < Z.of_nat j)%Z) as Hnth.
  { intros k Hk. pose proof (ordered_lt rs k j Ho Hk) as Hkj.
    destruct (Hok k Hkj) as (l & Hl & Hr & _). rewrite (nth_lookup_Some _ _ 0%Z _ Hl). split; [done|lia]. }
  assert (m < Z.of_nat j)%Z as Hmj.
  { destruct Hex as [->|(k & Hk & <-)]; [lia|by apply Hnth]. }
  exists (<[j := (m + 1)%Z]> layers). split_and!.
  - cbn. rewrite Hds, bind_Ok, Hm, bind_Ok. by rewrite i32_add_small by lia.
  - by rewrite length_insert.
  - intros i Hi. destruct (decide (i = j)) as [->|Hne].
    + exists (m + 1)%Z. rewrite list_lookup_insert_eq by lia. split_and!; [done|lia|lia| |].
      * intros k Hk. destruct (Hnth k Hk) as [Hkl _]. specialize (Hmax k Hk).
        rewrite list_lookup_insert_ne by (pose proof (ordered_lt rs k j Ho Hk); lia).
        eexists; split; [done|lia].
      * destruct Hex as [->|(k & Hk & Hkm)]; [by left|]. right. exists k. split; [done|].
        rewrite list_lookup_insert_ne by (pose proof (ordered_lt rs k j Ho Hk); lia).
        destruct (Hnth k Hk) as [-> _]. f_equal. lia.
    + apply layer_ok_insert; [intros k; by apply ordered_lt|lia|apply Hok; lia].
Qed.

Lemma layers_ok rs :
  ordered rs → (Z.of_nat (length rs) ≤ 2 ^ 31)%Z →
  ∃ layers, compute_resource_layers rs = Ok layers ∧ length layers = length rs ∧
    ∀ j, j < length rs → layer_ok rs layers j.
Proof.
  intros Ho Hbig.
  assert (∀ m, m ≤ length rs → ∃ layers,
    try_fold (layer_step (id_index rs)) (replicate (length rs) 0%Z) (take m (enumerate rs)) = Ok layers ∧
    length layers = length rs ∧ ∀ j, j < m → layer_ok rs layers j) as Hpre.
  { induction m as [|m IH]; intros Hm.
    - exists (replicate (length rs) 0%Z). split_and!; [done|apply length_replicate|lia].
    - destruct IH as (layers & Hrun & Hlen & Hok); [lia|].
      destruct (lookup_lt_is_Some_2 rs m) as [r Hr]; [lia|].
      destruct (layer_step_ok rs layers m r Ho Hr Hlen Hbig Hok) as (l' & Hs & Hl' & Hok').
      exists l'. split_and!; [|done|done].
      rewrite (take_S_r _ _ (m, r)) by (by rewrite enumerate_lookup, Hr).
      rewrite try_fold_app, Hrun, bind_Ok. cbn [try_fold]. by rewrite Hs. }
  destruct (Hpre (length rs) (Nat.le_refl _)) as (layers & Hrun & Hlen & Hok).
  exists layers. split_and!; [|done|done]. rewrite take_ge in Hrun by (by rewrite length_enumerate).
  unfold compute_resource_layers. destruct rs; [|done]. by rewrite (nil_length_inv _ Hlen).
Qed.

Lemma ordered_of_topo rs :
  NoDup (resource_id <$> rs) →
  (∀ j r, rs !! j = Some r → ∃ ds, read_depends_on (resource_json r) = Ok ds ∧
      ∀ x, x ∈ ds → ∃ i r', i < j ∧ rs !! i = Some r' ∧ resource_id r' = x) →
  ordered rs.
Proof.
  intros Hnd Ht j r Hj. destruct (Ht j r Hj) as (ds & Hds & Hall). exists ds. split; [done|].
  intros d Hd. destruct (Hall d Hd) as (i & r' & Hi & Hr' & <-). exists i. split; [|done].
  by apply id_index_NoDup.
Qed.

(** A resource without dependencies. *)
Definition is_root (r : ResourceForRouting) : bool :=
  match read_depends_on (resource_json r) with Ok [] => true | _ => false end.

Lemma omap_filter_seq {A} (p : nat → bool) (q : A → bool) (xs : list A) :
  (∀ i x, xs !! i = Some x → p i = q x) →
  omap (λ i, xs !! i) (List.filter p (seq 0 (length xs))) = List.filter q xs.
Proof.
  induction xs as [|x xs IH] using rev_ind; intros Hpq; [done|].
  rewrite length_app, seq_app, !List.filter_app, omap_app. f_equal.
  - rewrite <- IH by (intros i y Hi; apply Hpq; by apply lookup_app_l_Some).
    apply list_omap_ext, Forall2_same_length_lookup. split; [done|].
    intros k i j Hi Hj. assert (i = j) as -> by congruence. apply lookup_app_l.
    apply list_elem_of_lookup_2, elem_of_List_filter in Hi as [Hi _]. apply elem_of_seq in Hi. lia.
  - cbn. rewrite (Hpq (length xs) x) by by apply list_lookup_middle.
    destruct (q x); cbn; [by rewrite list_lookup_middle|done].
Qed.

(** The nodes Kahn's loop starts from are the roots. *)
Lemma seed_roots rs g :
  build_graph rs = Ok g →
  omap (λ i, rs !! i) (seed (length rs) (in_degree g)) = List.filter is_root rs.
Proof.
  intros [Hval [Hdeg _ _ _]]%build_prefix. apply omap_filter_seq. intros i r Hi.
  rewrite Hdeg by (by eapply lookup_lt_Some). destruct (Hval i r Hi) as (ds & Hds & Hall).
  rewrite (dp_lookup rs i r ds Hi Hds). unfold is_root. rewrite Hds.
  destruct ds as [|d ds]; [done|]. destruct (Hall d) as (j & Hj & _); [left|]. cbn. by rewrite Hj.
Qed.

Lemma Forall2_lookup_omap {A} (xs : list A) order ys :
  Forall2 (λ i x, xs !! i = Some x) order ys → ys = omap (λ i, xs !! i) order.
Proof. induction 1 as [|i x o ys Hi _ IH]; cbn; [done|]. by rewrite Hi, IH. Qed.

(** ** The properties *)

(** C22: [topo_sort_by_depends_on] never panics. It returns a sorted list
    exactly when every [dependsOn] list is well formed, names only other
    resources of the submission, and the dependency graph is acyclic; in
    every other case it fails with a client error ([BadRequest]). *)
Theorem topo_sort_decides rs :
  ((∃ sorted, topo_sort_by_depends_on rs = Some (Ok sorted)) ∧
     deps_valid (id_index rs) rs ∧ acyclic rs) ∨
  ((∃ m, topo_sort_by_depends_on rs = Some (Err (BadRequest m))) ∧
     ¬ (deps_valid (id_index rs) rs ∧ acyclic rs)).
Proof.
  destruct (topo_sort_run rs) as [(e & Hb & Ht)|(g & order & d & Hb & Hinv & _ & [[Hl [m Ht]]|[Hp (sorted & Ht & _)]])].
  - right. split.
    + destruct (build_graph_err rs e Hb) as [m ->]. eauto.
    + intros [Hval _]. apply build_graph_ok_iff in Hval as [g Hg]. congruence.
  - right. split; [eauto|]. intros [_ Hac]. by apply (acyclic_complete rs order d) in Hac.
  - left. split_and!; [eauto|apply build_graph_ok_iff; eauto|by eapply kahn_acyclic].
Qed.

(** C21: The list [topo_sort_by_depends_on] returns is a permutation of its
    input in which every dependency of a resource stands before it. *)
Theorem topo_sort_sound rs sorted (Hrun : topo_sort_by_depends_on rs = Some (Ok sorted)) :
  sorted ≡ₚ rs ∧
  ∀ j r, sorted !! j = Some r →
    ∃ ds, read_depends_on (resource_json r) = Ok ds ∧
      ∀ x, x ∈ ds → ∃ i r', i < j ∧ sorted !! i = Some r' ∧ resource_id r' = x.
Proof.
  destruct (topo_sort_run rs) as [(e & Hb & Ht)|(g & order & d & Hb & Hinv & _ & [[Hl [m Ht]]|[Hp (sorted' & Ht & Hf)]])];
    [congruence|congruence|].
  assert (sorted' = sorted) as -> by congruence. split; [by eapply take_in_order_perm|].
  eapply topo_ordered; [|done|done]. apply build_graph_ok_iff; eauto.
Qed.

(** The sort is stable on the resources without dependencies: they come
    first, in the order they were submitted. *)
Theorem topo_sort_roots_first rs sorted (Hrun : topo_sort_by_depends_on rs = Some (Ok sorted)) :
  ∃ tail, sorted = List.filter is_root rs ++ tail.
Proof.
  destruct (topo_sort_run rs) as [(e & Hb & Ht)|(g & order & d & Hb & _ & Hpre & [[Hl [m Ht]]|[Hp (sorted' & Ht & Hf)]])];
    [congruence|congruence|].
  assert (sorted' = sorted) as -> by congruence. destruct Hpre as [tail ->].
  exists (omap (λ i, rs !! i) tail).
  by rewrite (Forall2_lookup_omap _ _ _ Hf), omap_app, (seed_roots rs g Hb).
Qed.

(** On the list the sort returns, [compute_resource_layers] succeeds
    without overflow (up to 2^31 resources with distinct ids) and gives every
    resource the length of the longest dependency chain below it: a layer
    above those of all its dependencies, which is 0 or one more than the
    layer of one of them. *)
Theorem layers_of_sorted rs sorted (Hids : NoDup (resource_id <$> rs))
    (Hbig : (Z.of_nat (length rs) ≤ 2 ^ 31)%Z)
    (Hrun : topo_sort_by_depends_on rs = Some (Ok sorted)) :
  ∃ layers, compute_resource_layers sorted = Ok layers ∧ length layers = length sorted ∧
    ∀ j, j < length sorted → ∃ l, layers !! j = Some l ∧ (0 ≤ l ≤ Z.of_nat j)%Z ∧
      (∀ i, i ∈ dp sorted j → ∃ l', layers !! i = Some l' ∧ (l' < l)%Z) ∧
      (l = 0%Z ∨ ∃ i, i ∈ dp sorted j ∧ layers !! i = Some (l - 1)%Z).
Proof.
  destruct (topo_sort_run rs) as [(e & Hb & Ht)|(g & order & d & Hb & Hinv & _ & [[Hl [m Ht]]|[Hp (sorted' & Ht & Hf)]])];
    [congruence|congruence|].
  assert (sorted' = sorted) as -> by congruence. pose proof (take_in_order_perm _ _ _ Hp Hf) as Hperm.
  apply layers_ok; [|by rewrite Hperm]. apply ordered_of_topo; [by rewrite Hperm|].
  eapply topo_ordered; [|done|done]. apply build_graph_ok_iff; eauto.
Qed.

End Sort.

(** ** Concrete runs *)

(** A codec for the examples: the text ["leaf"] is a resource without
    dependencies, any other text a resource that depends on that id. *)
Definition demo_codec : JsonCodec := {|
  json_from_str s :=
    if decide (s = "leaf") then Ok (JObject [])
    else Ok (JObject [("metadata", JObject [("dependsOn", JArray [JString s])])]);
  json_to_string _ := "leaf"
|}.

Definition demo_resource (id json : string) : ResourceForRouting :=
  mkRouting id "FileResource" "prod" json id None.

(** [c] needs [b], [b] needs [a]; [d] is independent. *)
Definition demo_rs : list ResourceForRouting :=
  [demo_resource "c" "b"; demo_resource "b" "a"; demo_resource "a" "leaf"; demo_resource "d" "leaf"].

Definition demo_sorted : list ResourceForRouting :=
  [demo_resource "a" "leaf"; demo_resource "d" "leaf"; demo_resource "b" "a"; demo_resource "c" "b"].

Lemma demo_run : topo_sort_by_depends_on (H := demo_codec) demo_rs = Some (Ok demo_sorted).
Proof. vm_compute. reflexivity. Qed.

Lemma demo_layers :
  compute_resource_layers (H := demo_codec) demo_sorted = Ok [0; 0; 1; 2]%Z.
Proof. vm_compute. reflexivity. Qed.

Lemma topo_sort_sound_witness :
  topo_sort_by_depends_on (H := demo_codec) demo_rs = Some (Ok demo_sorted) ∧ demo_sorted ≡ₚ demo_rs.
Proof.
  split; [vm_compute; reflexivity|].
  exact (proj1 (topo_sort_sound (H := demo_codec) demo_rs demo_sorted demo_run)).
Defined.

Lemma topo_sort_roots_first_witness :
  ∃ tail, demo_sorted = demo_resource "a" "leaf" :: demo_resource "d" "leaf" :: tail.
Proof. exact (topo_sort_roots_first (H := demo_codec) demo_rs demo_sorted demo_run). Defined.

Lemma layers_of_sorted_witness :
  ∃ layers, compute_resource_layers (H := demo_codec) demo_sorted = Ok layers ∧ length layers = 4.
Proof.
  destruct (layers_of_sorted (H := demo_codec) demo_rs demo_sorted) as (layers & Hl & Hlen & _).
  - apply (bool_decide_unpack _). vm_compute. exact I.
  - vm_compute. discriminate.
  - exact demo_run.
  - exists layers. split; [exact Hl|exact Hlen].
Defined.
