(* ===== verification/Db.v ===== *)
(** * The control plane's database (crates/iac-controlplane/migrations, store.rs)

    The tables as lists of rows in rowid order, the SQL shapes the store uses
    as list functions, and the transaction monad the store's methods run in.
    A column the store always sets is a plain field, a column it leaves NULL
    an [option]. *)

From S2P Require Import Prelude Text Json ApiError.

#[local] Open Scope string_scope.
#[local] Open Scope list_scope.
#[local] Open Scope nat_scope.

(** ** Statuses

    The TEXT column [status] only ever receives these literals. *)

Inductive AssignmentStatus :=
| APending | AFetched | APendingLayer | APendingCanary
| ASucceeded | APartiallyApplied | AFailed | ACancelled.

Inductive OperationStatus :=
| OpPending | OpPendingApproval | OpRunning | OpPartiallyApplied
| OpFailed | OpSucceeded | OpRejected.

#[export] Instance AssignmentStatus_eq_dec : EqDecision AssignmentStatus.
Proof. solve_decision. Defined.
#[export] Instance OperationStatus_eq_dec : EqDecision OperationStatus.
Proof. solve_decision. Defined.

Definition assignment_status_text (s : AssignmentStatus) : string :=
  match s with
  | APending => "pending" | AFetched => "fetched" | APendingLayer => "pending_layer"
  | APendingCanary => "pending_canary" | ASucceeded => "succeeded"
  | APartiallyApplied => "partially_applied" | AFailed => "failed" | ACancelled => "cancelled"
  end.

Definition operation_status_text (s : OperationStatus) : string :=
  match s with
  | OpPending => "pending" | OpPendingApproval => "pending_approval" | OpRunning => "running"
  | OpPartiallyApplied => "partially_applied" | OpFailed => "failed"
  | OpSucceeded => "succeeded" | OpRejected => "rejected"
  end.

Definition parse_operation_status (s : string) : OperationStatus :=
  if decide (s = "running") then OpRunning
  else if decide (s = "partially_applied") then OpPartiallyApplied
  else if decide (s = "failed") then OpFailed
  else if decide (s = "succeeded") then OpSucceeded
  else if decide (s = "pending_approval") then OpPendingApproval
  else if decide (s = "rejected") then OpRejected
  else OpPending.

(** ** Rows *)

Record DbAgent := mkAgent {
  a_id : string;
  a_name : string;
  a_environment : string;
  a_token_hash : string;
  a_registered_at : string;
  a_last_heartbeat_at : option string;
  a_last_observation_at : option string;
  a_last_status : string;
  a_last_managed : Z;
  a_last_open_drifts : Z;
  a_metadata_json : string;
  a_token_expires_at : option string;
  a_kind : string
}.

Record DbOperation := mkOperation {
  op_id : string;
  op_kind : string;
  op_environment : string;
  op_requested_by : string;
  op_status : OperationStatus;
  op_source_commit : option string;
  op_summary : option string;
  op_created_at : string;
  op_started_at : option string;
  op_finished_at : option string;
  op_requires_approval : Z;
  op_approved_by : option string;
  op_approved_at : option string;
  op_rejected_by : option string;
  op_rejected_at : option string;
  op_rejection_reason : option string;
  op_approval_reason : option string;
  op_matched_policies_json : string
}.

Record DbDesired := mkDesired {
  ds_id : Z;
  ds_operation_id : string;
  ds_resource_id : string;
  ds_kind : string;
  ds_environment : string;
  ds_spec_json : string;
  ds_metadata_json : string
}.

Record DbAssignment := mkAssignment {
  asg_id : string;
  asg_agent_id : string;
  asg_operation_id : string;
  asg_payload_json : string;
  asg_created_at : string;
  asg_fetched_at : option string;
  asg_completed_at : option string;
  asg_status : AssignmentStatus;
  asg_kind : string;
  asg_result_json : option string;
  asg_expires_at : option string;
  asg_layer : Z;
  asg_batch : option Z
}.

Record DbAudit := mkAudit {
  au_id : Z;
  au_timestamp : string;
  au_actor : string;
  au_kind : string;
  au_severity : string;
  au_operation_id : option string;
  au_agent_id : option string;
  au_resource_id : option string;
  au_drift_id : option Z;
  au_payload_json : string;
  au_prev_hash : option string;
  au_row_hash : option string
}.

(** The single row of [audit_chain_tip]. *)
Record DbTip := mkTip { tip_last_id : Z; tip_last_hash : string; tip_updated_at : string }.

Record DbDrift := mkDrift {
  dr_id : Z;
  dr_agent_id : string;
  dr_resource_id : string;
  dr_kind : string;
  dr_severity : string;
  dr_diff_json : string;
  dr_detected_at : string;
  dr_received_at : string;
  dr_resolved_at : option string;
  dr_resolution : option string;
  dr_ignored_until : option string
}.

Record DbUser := mkUser {
  u_id : string;
  u_username : string;
  u_password_hash : string;
  u_roles_json : string;
  u_created_at : string;
  u_disabled_at : option string
}.

Record DbUserToken := mkUserToken {
  ut_token_hash : string;
  ut_user_id : string;
  ut_issued_at : string;
  ut_expires_at : string
}.

Record DbObservation := mkObservation {
  ob_id : Z;
  ob_agent_id : string;
  ob_resource_id : string;
  ob_kind : string;
  ob_observed_at : string;
  ob_present : Z;
  ob_spec_json : string;
  ob_facts_json : string;
  ob_received_at : string
}.

(** [next_*] are the AUTOINCREMENT counters. *)
Record Db := mkDb {
  agents : list DbAgent;
  operations : list DbOperation;
  desired_states : list DbDesired;
  next_desired : Z;
  assignments : list DbAssignment;
  audit_events : list DbAudit;
  next_audit : Z;
  audit_tip : option DbTip;
  drift_events : list DbDrift;
  next_drift : Z;
  observations : list DbObservation;
  next_observation : Z;
  users : list DbUser;
  user_tokens : list DbUserToken
}.

(** The database after the migrations. *)
Definition empty_db : Db := mkDb [] [] [] 1 [] [] 1
  (Some (mkTip 0 "" "1970-01-01T00:00:00Z")) [] 1 [] 1 [] [].

Definition set_agents x (d : Db) : Db := mkDb x (operations d) (desired_states d) (next_desired d)
  (assignments d) (audit_events d) (next_audit d) (audit_tip d) (drift_events d) (next_drift d)
  (observations d) (next_observation d) (users d) (user_tokens d).
Definition set_operations x (d : Db) : Db := mkDb (agents d) x (desired_states d) (next_desired d)
  (assignments d) (audit_events d) (next_audit d) (audit_tip d) (drift_events d) (next_drift d)
  (observations d) (next_observation d) (users d) (user_tokens d).
Definition set_desired x n (d : Db) : Db := mkDb (agents d) (operations d) x n
  (assignments d) (audit_events d) (next_audit d) (audit_tip d) (drift_events d) (next_drift d)
  (observations d) (next_observation d) (users d) (user_tokens d).
Definition set_assignments x (d : Db) : Db := mkDb (agents d) (operations d) (desired_states d)
  (next_desired d) x (audit_events d) (next_audit d) (audit_tip d) (drift_events d) (next_drift d)
  (observations d) (next_observation d) (users d) (user_tokens d).
Definition set_audit x n t (d : Db) : Db := mkDb (agents d) (operations d) (desired_states d)
  (next_desired d) (assignments d) x n t (drift_events d) (next_drift d)
  (observations d) (next_observation d) (users d) (user_tokens d).
Definition set_drift x n (d : Db) : Db := mkDb (agents d) (operations d) (desired_states d)
  (next_desired d) (assignments d) (audit_events d) (next_audit d) (audit_tip d) x n
  (observations d) (next_observation d) (users d) (user_tokens d).
Definition set_observations x n (d : Db) : Db := mkDb (agents d) (operations d) (desired_states d)
  (next_desired d) (assignments d) (audit_events d) (next_audit d) (audit_tip d) (drift_events d)
  (next_drift d) x n (users d) (user_tokens d).
Definition set_users x y (d : Db) : Db := mkDb (agents d) (operations d) (desired_states d)
  (next_desired d) (assignments d) (audit_events d) (next_audit d) (audit_tip d) (drift_events d)
  (next_drift d) (observations d) (next_observation d) x y.

(** ** SQL shapes *)

(** [UPDATE t SET f WHERE p]. *)
Definition update_where {A} (p : A → bool) (f : A → A) (rows : list A) : list A :=
  map (λ r, if p r then f r else r) rows.

(** [SELECT * FROM t WHERE p], in rowid order. *)
Definition select_where {A} (p : A → bool) (rows : list A) : list A := List.filter p rows.

(** [DELETE FROM t WHERE p]. *)
Definition delete_where {A} (p : A → bool) (rows : list A) : list A :=
  List.filter (λ r, negb (p r)) rows.

(** [COALESCE(a, b)]. *)
Definition coalesce {A} (a b : option A) : option A := match a with Some _ => a | None => b end.

(** [ORDER BY]: a stable insertion sort; also Rust's stable [sort_by]. *)
Fixpoint insert_by {A} (le : A → A → bool) (x : A) (xs : list A) : list A :=
  match xs with
  | [] => [x]
  | y :: xs => if le x y then x :: y :: xs else y :: insert_by le x xs
  end.
Definition order_by {A} (le : A → A → bool) (xs : list A) : list A :=
  foldr (insert_by le) [] xs.

(** Equality tests of SQL, on TEXT and on nullable columns. *)
Definition seqb (a b : string) : bool := bool_decide (a = b).
Definition oeqb (a : option string) (b : string) : bool := bool_decide (a = Some b).
Definition steqb (a b : AssignmentStatus) : bool := bool_decide (a = b).

(** The error of a violated UNIQUE or PRIMARY KEY constraint, as the
    database reports it. *)
Class SqlErrors := { unique_violation : SqlxError }.

(** ** Transactions

    A store method maps a database to the value it returns and the database
    it commits. On [Err] the transaction is rolled back: the caller keeps the
    database it had. [None] is a panic. *)

Definition tx (A : Type) : Type := Db → panics (ApiResult (A * Db)).

Definition tx_ret {A} (a : A) : tx A := λ d, Some (Ok (a, d)).
Definition tx_bind {A B} (m : tx A) (f : A → tx B) : tx B := λ d,
  match m d with
  | Some (Ok (a, d')) => f a d'
  | Some (Err e) => Some (Err e)
  | None => None
  end.
Definition tx_throw {A} (e : ApiErr) : tx A := λ _, Some (Err e).
Definition tx_lift {A} (r : ApiResult A) : tx A := λ d,
  match r with Ok a => Some (Ok (a, d)) | Err e => Some (Err e) end.
Definition tx_panics {A} (o : panics A) : tx A := λ d,
  match o with Some a => Some (Ok (a, d)) | None => None end.
Definition tx_get : tx Db := λ d, Some (Ok (d, d)).
Definition tx_modify (f : Db → Db) : tx () := λ d, Some (Ok ((), f d)).

(** [for x in xs { body(x)? }] inside a transaction. *)
Fixpoint tx_for {A B} (body : B → A → tx B) (b : B) (xs : list A) : tx B :=
  match xs with
  | [] => tx_ret b
  | x :: xs => tx_bind (body b x) (λ b, tx_for body b xs)
  end.

Declare Scope tx_scope.
Delimit Scope tx_scope with tx.
Notation "'let!' x ':=' m 'in' k" := (tx_bind m (λ x, k))
  (at level 200, x name, m at level 100, k at level 200, right associativity) : tx_scope.
Notation "'let!' ' p ':=' m 'in' k" := (tx_bind m (λ x, match x with p => k end))
  (at level 200, p pattern, m at level 100, k at level 200, right associativity) : tx_scope.
Notation "m ';;' k" := (tx_bind m (λ _ : (), k)) (at level 100, k at level 200, right associativity) : tx_scope.

(** The outcome of a store method as the next database: a failed or panicked
    call leaves it alone. *)
Definition committed {A} (m : tx A) (d : Db) : Db :=
  match m d with Some (Ok (_, d')) => d' | _ => d end.

(** The call commits. *)
Definition succeeds {A} (m : tx A) (d : Db) : bool :=
  match m d with Some (Ok _) => true | _ => false end.

Lemma succeeds_committed {A} (m : tx A) d :
  succeeds m d = true → ∃ a, m d = Some (Ok (a, committed m d)).
Proof. unfold succeeds, committed. destruct (m d) as [[[a d']|]|]; [eauto|done|done]. Qed.

(** ** Lemmas *)

Lemma parse_operation_status_text s : parse_operation_status (operation_status_text s) = s.
Proof. by destruct s. Qed.

Lemma assignment_status_text_inj s s' :
  assignment_status_text s = assignment_status_text s' → s = s'.
Proof. by destruct s, s'. Qed.

Lemma tx_bind_Ok {A B} (m : tx A) (f : A → tx B) d b d' :
  tx_bind m f d = Some (Ok (b, d')) →
  ∃ a d1, m d = Some (Ok (a, d1)) ∧ f a d1 = Some (Ok (b, d')).
Proof. unfold tx_bind. destruct (m d) as [[[a d1]|e]|]; naive_solver. Qed.

(** Splits a successful [tx] run into the runs of its parts. *)
Ltac tx_step H :=
  let a := fresh "a" in let d := fresh "d" in let Ha := fresh "Ha" in
  apply tx_bind_Ok in H as (a & d & Ha & H).

Lemma tx_lift_Ok {A} (r : ApiResult A) d a d' :
  tx_lift r d = Some (Ok (a, d')) → r = Ok a ∧ d' = d.
Proof. unfold tx_lift. destruct r; naive_solver. Qed.

Lemma tx_panics_Ok {A} (o : panics A) d a d' :
  tx_panics o d = Some (Ok (a, d')) → o = Some a ∧ d' = d.
Proof. unfold tx_panics. destruct o; naive_solver. Qed.

(** An invariant of the body is an invariant of the loop. *)
Lemma tx_for_inv {A B} (body : B → A → tx B) (P : B → Db → Prop) xs :
  (∀ b x d b' d', x ∈ xs → P b d → body b x d = Some (Ok (b', d')) → P b' d') →
  ∀ b d b' d', P b d → tx_for body b xs d = Some (Ok (b', d')) → P b' d'.
Proof.
  induction xs as [|x xs IH]; intros Hbody b d b' d' Hp Hrun; cbn in Hrun.
  - injection Hrun as <- <-. done.
  - apply tx_bind_Ok in Hrun as (b1 & d1 & H1 & H2). eapply IH; [|eapply Hbody|exact H2]; [|left| |]; eauto.
    intros. eapply Hbody; [right|..]; eauto.
Qed.

(** The same, for a property of the part of the list already visited. *)
Lemma tx_for_prefix {A B} (body : B → A → tx B) (P : list A → B → Db → Prop) xs :
  (∀ pre x b d b' d', P pre b d → body b x d = Some (Ok (b', d')) → P (pre ++ [x]) b' d') →
  ∀ b d b' d', P [] b d → tx_for body b xs d = Some (Ok (b', d')) → P xs b' d'.
Proof.
  intros Hbody. enough (∀ pre b d b' d', P pre b d → tx_for body b xs d = Some (Ok (b', d')) →
    P (pre ++ xs) b' d') as H by (intros b d b' d'; apply (H [])).
  induction xs as [|x xs IH]; intros pre b d b' d' Hp Hrun; cbn in Hrun.
  - injection Hrun as <- <-. by rewrite app_nil_r.
  - apply tx_bind_Ok in Hrun as (b1 & d1 & H1 & H2).
    replace (pre ++ x :: xs) with ((pre ++ [x]) ++ xs) by by rewrite <- app_assoc.
    eapply IH; [|exact H2]. by eapply Hbody.
Qed.

Lemma elem_of_update_where {A} (p : A → bool) f rows r :
  r ∈ update_where p f rows ↔ ∃ r0, r0 ∈ rows ∧ r = (if p r0 then f r0 else r0).
Proof.
  unfold update_where. rewrite !list_elem_of_In, in_map_iff.
  split; intros (r0 & ? & ?); exists r0; rewrite ?list_elem_of_In in *; eauto.
Qed.

Lemma update_where_length {A} (p : A → bool) f (rows : list A) :
  length (update_where p f rows) = length rows.
Proof. apply length_map. Qed.

(** A column an update does not touch keeps its values, row by row. *)
Lemma update_where_column {A B} (g : A → B) p f rows :
  (∀ r, g (f r) = g r) → map g (update_where p f rows) = map g rows.
Proof.
  intros Hg. unfold update_where. rewrite map_map. apply map_ext. intros r.
  destruct (p r); [apply Hg|done].
Qed.

Lemma update_where_id {A} (p : A → bool) f rows :
  (∀ r, r ∈ rows → p r = false) → update_where p f rows = rows.
Proof.
  intros Hp. unfold update_where. induction rows as [|r rows IH]; cbn; [done|].
  rewrite Hp by left. f_equal. apply IH. intros. apply Hp. by right.
Qed.

Lemma elem_of_delete_where {A} (p : A → bool) rows r :
  r ∈ delete_where p rows ↔ r ∈ rows ∧ p r = false.
Proof. unfold delete_where. rewrite elem_of_List_filter. by rewrite negb_true_iff. Qed.

Lemma elem_of_insert_by {A} (le : A → A → bool) x y xs : y ∈ insert_by le x xs ↔ y = x ∨ y ∈ xs.
Proof. induction xs as [|z xs IH]; cbn; [set_solver|]. destruct (le x z); set_solver. Qed.

Lemma insert_by_perm {A} (le : A → A → bool) x xs : insert_by le x xs ≡ₚ x :: xs.
Proof.
  induction xs as [|y l IH]; cbn; [done|]. destruct (le x y); [done|].
  rewrite IH. apply Permutation_swap.
Qed.

Lemma order_by_perm {A} (le : A → A → bool) xs : order_by le xs ≡ₚ xs.
Proof. induction xs as [|x xs IH]; cbn; [done|]. by rewrite insert_by_perm, IH. Qed.

Lemma insert_by_sorted {A} (le : A → A → bool) x xs :
  (∀ a b, le a b = true ∨ le b a = true) → (∀ a b c, le a b = true → le b c = true → le a c = true) →
  StronglySorted (λ a b, le a b = true) xs → StronglySorted (λ a b, le a b = true) (insert_by le x xs).
Proof.
  intros Htot Htrans. induction 1 as [|y l Hl IH Hy]; cbn; [repeat constructor|].
  destruct (le x y) eqn:Hxy.
  - constructor; [by constructor|]. constructor; [done|].
    eapply Forall_impl; [exact Hy|]. cbn. eauto.
  - constructor; [done|]. apply Forall_forall. intros z [->|Hz]%elem_of_insert_by.
    + destruct (Htot x y); [congruence|done].
    + rewrite Forall_forall in Hy. by apply Hy.
Qed.

Lemma order_by_sorted {A} (le : A → A → bool) xs :
  (∀ a b, le a b = true ∨ le b a = true) → (∀ a b c, le a b = true → le b c = true → le a c = true) →
  StronglySorted (λ a b, le a b = true) (order_by le xs).
Proof. intros Htot Htrans. induction xs; cbn; [constructor|]. by apply insert_by_sorted. Qed.

Lemma StronglySorted_List_filter {A} (R : A → A → Prop) (p : A → bool) xs :
  StronglySorted R xs → StronglySorted R (List.filter p xs).
Proof.
  induction 1 as [|x l Hl IH Hx]; cbn; [constructor|]. destruct (p x); [|done].
  constructor; [done|]. apply Forall_forall. intros y [Hy _]%elem_of_List_filter.
  rewrite Forall_forall in Hx. by apply Hx.
Qed.

Lemma List_filter_perm {A} (p : A → bool) xs ys : xs ≡ₚ ys → List.filter p xs ≡ₚ List.filter p ys.
Proof.
  induction 1 as [|x l l' _ IH|x y l|l1 l2 l3 _ IH1 _ IH2]; cbn; [done|..].
  - destruct (p x); by rewrite IH.
  - destruct (p x), (p y); try done. apply Permutation_swap.
  - by rewrite IH1.
Qed.

Lemma count_if_perm {B} (p : B → bool) xs ys : xs ≡ₚ ys → count_if p xs = count_if p ys.
Proof. intros Hp. unfold count_if. by rewrite (List_filter_perm p _ _ Hp). Qed.

Lemma seqb_true a b : seqb a b = true ↔ a = b.
Proof. apply bool_decide_eq_true. Qed.
Lemma oeqb_true a b : oeqb a b = true ↔ a = Some b.
Proof. apply bool_decide_eq_true. Qed.
Lemma steqb_true a b : steqb a b = true ↔ a = b.
Proof. apply bool_decide_eq_true. Qed.

Lemma find_unique {A K} (g : A → K) (p : A → bool) xs x :
  NoDup (map g xs) → x ∈ xs → p x = true → (∀ y, y ∈ xs → p y = true → g y = g x) →
  List.find p xs = Some x.
Proof.
  intros Hnd Hx Hp Hu. destruct (List.find p xs) as [y|] eqn:E.
  - apply find_some in E as [Hy%list_elem_of_In Hpy]. f_equal. eapply NoDup_map_inj; eauto.
  - apply list_elem_of_In in Hx. by rewrite (find_none _ _ E x Hx) in Hp.
Qed.

Lemma count_if_unique {A K} (g : A → K) (p : A → bool) xs x :
  NoDup (map g xs) → x ∈ xs → p x = true → (∀ y, y ∈ xs → p y = true → g y = g x) → count_if p xs = 1.
Proof.
  induction xs as [|z xs IH]; intros Hnd Hx Hp Hu; [by apply elem_of_nil in Hx|].
  cbn in Hnd. apply NoDup_cons in Hnd as [Hin Hnd]. rewrite count_if_cons. apply elem_of_cons in Hx as [->|Hx].
  - rewrite Hp, (proj2 (count_if_0 p xs)); [done|]. intros y Hy. apply not_true_iff_false. intros Hpy.
    apply Hin. rewrite <- (Hu y); [|by right|done]. apply elem_of_map. by exists y.
  - rewrite IH; [|done|done|done|intros y Hy; apply Hu; by right]. destruct (p z) eqn:Hz; [|done]. exfalso.
    apply Hin. rewrite (Hu z); [|left|done]. apply elem_of_map. by exists x.
Qed.

#[export] Hint Rewrite @update_where_length seqb_true oeqb_true steqb_true : iac.
