(* ===== verification/AuditLog.v ===== *)
(** * The audit log (store.rs)

    Audit rows, the hash chain that links them, its verification, and the
    query of the log. *)

From S2P Require Import Prelude Text Json ApiError Routing Db.

#[local] Open Scope string_scope.
#[local] Open Scope list_scope.
#[local] Open Scope nat_scope.

(** ** Records *)

Record AuditRecord := mkRecord {
  rec_actor : string;
  rec_kind : string;
  rec_severity : string;
  rec_operation_id : option string;
  rec_agent_id : option string;
  rec_resource_id : option string;
  rec_drift_id : option Z;
  rec_payload : Json
}.

(** The builder methods of [AuditRecord]. *)
Definition record_new (actor kind : string) : AuditRecord :=
  mkRecord actor kind "info" None None None None JNull.
Definition with_severity (s : string) (r : AuditRecord) : AuditRecord :=
  mkRecord (rec_actor r) (rec_kind r) s (rec_operation_id r) (rec_agent_id r) (rec_resource_id r)
    (rec_drift_id r) (rec_payload r).
Definition with_operation (op : string) (r : AuditRecord) : AuditRecord :=
  mkRecord (rec_actor r) (rec_kind r) (rec_severity r) (Some op) (rec_agent_id r)
    (rec_resource_id r) (rec_drift_id r) (rec_payload r).
Definition with_agent (a : string) (r : AuditRecord) : AuditRecord :=
  mkRecord (rec_actor r) (rec_kind r) (rec_severity r) (rec_operation_id r) (Some a)
    (rec_resource_id r) (rec_drift_id r) (rec_payload r).
Definition with_resource (rid : string) (r : AuditRecord) : AuditRecord :=
  mkRecord (rec_actor r) (rec_kind r) (rec_severity r) (rec_operation_id r) (rec_agent_id r)
    (Some rid) (rec_drift_id r) (rec_payload r).
Definition with_drift (id : Z) (r : AuditRecord) : AuditRecord :=
  mkRecord (rec_actor r) (rec_kind r) (rec_severity r) (rec_operation_id r) (rec_agent_id r)
    (rec_resource_id r) (Some id) (rec_payload r).
Definition with_payload (p : Json) (r : AuditRecord) : AuditRecord :=
  mkRecord (rec_actor r) (rec_kind r) (rec_severity r) (rec_operation_id r) (rec_agent_id r)
    (rec_resource_id r) (rec_drift_id r) p.

(** ** Hashing *)

(** [hex::encode(Sha256::digest(bytes))], code outside the repository. *)
Class Sha256 := sha256_hex : string → string.

(** [n.to_be_bytes()]: [k] bytes, most significant first. *)
Fixpoint be_bytes (k : nat) (n : Z) : string :=
  match k with
  | O => ""
  | S k => String (Ascii.ascii_of_N (Z.to_N ((n / 2 ^ (8 * Z.of_nat k)) `mod` 256))) (be_bytes k n)
  end.

Record AuditRowInputs := mkInputs {
  in_timestamp : string;
  in_actor : string;
  in_kind : string;
  in_severity : string;
  in_operation_id : option string;
  in_agent_id : option string;
  in_resource_id : option string;
  in_drift_id : option Z;
  in_payload_json : string
}.

Definition row_to_audit_inputs (r : DbAudit) : AuditRowInputs :=
  mkInputs (au_timestamp r) (au_actor r) (au_kind r) (au_severity r) (au_operation_id r)
    (au_agent_id r) (au_resource_id r) (au_drift_id r) (au_payload_json r).

Definition byte0 : string := String (Ascii.ascii_of_N 0) "".
Definition byte1 : string := String (Ascii.ascii_of_N 1) "".

Definition write_field (bytes : string) : string :=
  be_bytes 8 (Z.of_nat (String.length bytes)) +:+ bytes.

Definition write_optional_str (s : option string) : string :=
  match s with Some s => byte1 +:+ write_field s | None => byte0 end.

Definition write_drift_id (d : option Z) : string :=
  match d with Some n => byte1 +:+ be_bytes 8 n | None => byte0 end.

(** The bytes fed to the hasher. *)
Definition audit_row_bytes (prev_hash : string) (id : Z) (r : AuditRowInputs) : string :=
  prev_hash +:+ be_bytes 8 id +:+
  write_field (in_timestamp r) +:+ write_field (in_actor r) +:+ write_field (in_kind r) +:+
  write_field (in_severity r) +:+ write_optional_str (in_operation_id r) +:+
  write_optional_str (in_agent_id r) +:+ write_optional_str (in_resource_id r) +:+
  write_drift_id (in_drift_id r) +:+ write_field (in_payload_json r).

Section Definitions.
Context `{JsonCodec, Sha256}.

Definition compute_audit_row_hash (prev_hash : string) (id : Z) (r : AuditRowInputs) : string :=
  sha256_hex (audit_row_bytes prev_hash id r).

(** *** Recording *)

Definition record_audit_on (now : string) (rec : AuditRecord) : tx () := λ d,
  let payload_json := json_to_string (rec_payload rec) in
  let prev_hash := from_option tip_last_hash "" (audit_tip d) in
  let inputs := mkInputs now (rec_actor rec) (rec_kind rec) (rec_severity rec)
    (rec_operation_id rec) (rec_agent_id rec) (rec_resource_id rec) (rec_drift_id rec) payload_json in
  let row_hash := compute_audit_row_hash prev_hash 0 inputs in
  let new_id := next_audit d in
  let row := mkAudit new_id now (rec_actor rec) (rec_kind rec) (rec_severity rec)
    (rec_operation_id rec) (rec_agent_id rec) (rec_resource_id rec) (rec_drift_id rec) payload_json
    (Some prev_hash) (Some row_hash) in
  Some (Ok ((), set_audit (audit_events d ++ [row]) (new_id + 1)%Z
                  ((λ _, mkTip new_id row_hash now) <$> audit_tip d) d)).

(** [record_audit] opens its own transaction. *)
Definition record_audit (now : string) (rec : AuditRecord) : tx () := record_audit_on now rec.

Definition audit_chain_tip (d : Db) : ApiResult DbTip :=
  ok_or (audit_tip d) (Sqlx (SqlxOther "no rows returned by a query that expected to return at least one row")).

(** *** Verification *)

Definition CHUNK : nat := Z.to_nat 10000.

(** One row of the walk: [Err id] is the early [return Ok(Some(id))]. *)
Definition verify_row (st : string * Z) (row : DbAudit) : result Z (string * Z) :=
  let '(prev_hash, _) := st in
  let stored_prev := default "" (au_prev_hash row) in
  if decide (stored_prev ≠ prev_hash) then Err (au_id row)
  else
    let computed := compute_audit_row_hash prev_hash 0 (row_to_audit_inputs row) in
    let stored_row_hash := default "" (au_row_hash row) in
    if decide (computed ≠ stored_row_hash) then Err (au_id row)
    else Ok (stored_row_hash, au_id row).

(** [WHERE row_hash IS NOT NULL AND id > last ORDER BY id ASC]. *)
Definition hashed_rows_after (last : Z) (rows : list DbAudit) : list DbAudit :=
  order_by (λ a b, Z.leb (au_id a) (au_id b))
    (select_where (λ r, bool_decide (is_Some (au_row_hash r)) && (last <? au_id r)%Z) rows).

(** The chunked loop; [None] is fuel exhaustion. *)
Fixpoint verify_loop (fuel : nat) (chunk : nat) (rows : list DbAudit) (prev_hash : string)
    (last_seen : Z) : option (option Z) :=
  match fuel with
  | O => None
  | S fuel =>
      let page := take chunk (hashed_rows_after last_seen rows) in
      match page with
      | [] => Some None
      | _ =>
          match try_fold verify_row (prev_hash, last_seen) page with
          | Err id => Some (Some id)
          | Ok (prev_hash, last_seen) =>
              if decide (length page < chunk)%nat then Some None
              else verify_loop fuel chunk rows prev_hash last_seen
          end
      end
  end.

Definition seed_hash (from_id : Z) (rows : list DbAudit) : string :=
  if decide (from_id ≤ 0)%Z then ""
  else default "" (List.find (λ r, Z.eqb (au_id r) from_id && bool_decide (is_Some (au_row_hash r))) rows
                     ≫= au_row_hash).

Definition audit_verify_chain_from (from_id : Z) (d : Db) : option (option Z) :=
  verify_loop (S (length (audit_events d))) CHUNK (audit_events d)
    (seed_hash from_id (audit_events d)) from_id.

Definition audit_verify_chain (d : Db) : option (option Z) := audit_verify_chain_from 0 d.

(** *** Query *)

Record AuditFilter := mkFilter {
  f_since : option string;
  f_since_id : option Z;
  f_kind : option string;
  f_actor : option string;
  f_operation_id : option string;
  f_agent_id : option string;
  f_limit : option Z
}.

Record AuditEvent := mkEvent {
  ev_id : Z;
  ev_timestamp : string;
  ev_actor : string;
  ev_kind : string;
  ev_severity : string;
  ev_operation_id : option string;
  ev_agent_id : option string;
  ev_resource_id : option string;
  ev_drift_id : option Z;
  ev_payload : Json
}.

Definition audit_filter_matches (f : AuditFilter) (r : DbAudit) : bool :=
  match f_since f with Some s => str_le s (au_timestamp r) | None => true end
  && match f_since_id f with Some i => (i <? au_id r)%Z | None => true end
  && match f_kind f with Some k => seqb (au_kind r) k | None => true end
  && match f_actor f with Some a => seqb (au_actor r) a | None => true end
  && match f_operation_id f with Some o => oeqb (au_operation_id r) o | None => true end
  && match f_agent_id f with Some a => oeqb (au_agent_id r) a | None => true end.

Definition audit_limit (f : AuditFilter) : Z := clamp 1 1000 (default 200%Z (f_limit f)).

Definition event_of_row (r : DbAudit) : ApiResult AuditEvent :=
  payload ← map_err JsonErr (json_from_str (au_payload_json r));
  Ok (mkEvent (au_id r) (au_timestamp r) (au_actor r) (au_kind r) (au_severity r)
        (au_operation_id r) (au_agent_id r) (au_resource_id r) (au_drift_id r) payload).

Definition list_audit (f : AuditFilter) (d : Db) : ApiResult (list AuditEvent) :=
  try_map event_of_row
    (take (Z.to_nat (audit_limit f))
       (order_by (λ a b, Z.leb (au_id b) (au_id a)) (select_where (audit_filter_matches f) (audit_events d)))).

End Definitions.
