(* ===== verification/AuditChain.v ===== *)
(** * Integrity of the audit log

    The row encoding is injective; recording keeps the chain verifiable; the
    chunked verification is the plain walk; a verified chain is determined by
    its tip up to a collision of the hash. *)

From S2P Require Import Prelude Text Json ApiError Routing Db AuditLog.

#[local] Open Scope string_scope.
#[local] Open Scope list_scope.
#[local] Open Scope nat_scope.

(** ** The row encoding *)

Lemma be_bytes_length k n : String.length (be_bytes k n) = k.
Proof. induction k; cbn; [done|by rewrite IHk]. Qed.

Lemma ascii_of_byte_inj a b :
  Ascii.ascii_of_N (Z.to_N (a `mod` 256)) = Ascii.ascii_of_N (Z.to_N (b `mod` 256)) →
  (a `mod` 256 = b `mod` 256)%Z.
Proof.
  intros H. apply (f_equal Ascii.N_of_ascii) in H.
  pose proof (Z.mod_pos_bound a 256 eq_refl). pose proof (Z.mod_pos_bound b 256 eq_refl).
  rewrite !Ascii.N_ascii_embedding in H by lia. lia.
Qed.

Lemma be_bytes_mod k a b :
  be_bytes k a = be_bytes k b → (a `mod` 2 ^ (8 * Z.of_nat k) = b `mod` 2 ^ (8 * Z.of_nat k))%Z.
Proof.
  induction k as [|k IH]; cbn [be_bytes]; intros H.
  - change (2 ^ (8 * Z.of_nat 0))%Z with 1%Z. by rewrite !Z.mod_1_r.
  - injection H as Hc Hr. apply ascii_of_byte_inj in Hc. apply IH in Hr.
    replace (2 ^ (8 * Z.of_nat (S k)))%Z with (2 ^ (8 * Z.of_nat k) * 256)%Z.
    + rewrite !Z.rem_mul_r by lia. by rewrite Hc, Hr.
    + replace (8 * Z.of_nat (S k))%Z with (8 * Z.of_nat k + 8)%Z by lia. rewrite Z.pow_add_r by lia. lia.
Qed.

Lemma append_inj_length a b x y :
  String.length a = String.length b → a +:+ x = b +:+ y → a = b ∧ x = y.
Proof.
  revert b; induction a as [|c a IH]; intros [|c' b] Hl He; cbn in *; try done.
  injection He as -> He. destruct (IH b) as [-> ->]; [lia|done|done].
Qed.

(** A Rust string is shorter than 2^64 bytes. *)
Definition fits (s : string) : Prop := (Z.of_nat (String.length s) < 2 ^ 64)%Z.

Lemma write_field_inj a b x y :
  fits a → fits b → write_field a +:+ x = write_field b +:+ y → a = b ∧ x = y.
Proof.
  unfold fits, write_field. intros Ha Hb H. rewrite !str_app_assoc in H.
  apply append_inj_length in H as [Hl H]; [|by rewrite !be_bytes_length].
  apply be_bytes_mod in Hl. change (8 * Z.of_nat 8)%Z with 64%Z in Hl.
  rewrite !Z.mod_small in Hl by lia. apply append_inj_length in H; [done|lia].
Qed.

Lemma write_optional_str_inj a b x y :
  (∀ s, a = Some s → fits s) → (∀ s, b = Some s → fits s) →
  write_optional_str a +:+ x = write_optional_str b +:+ y → a = b ∧ x = y.
Proof.
  destruct a as [a|], b as [b|]; cbn [write_optional_str]; intros Ha Hb H;
    rewrite ?str_app_assoc in H.
  - apply append_inj_length in H as [_ H]; [|done].
    apply write_field_inj in H as [-> ->]; eauto.
  - discriminate H.
  - discriminate H.
  - apply append_inj_length in H as [_ H]; done.
Qed.

(** A Rust [i64]. *)
Definition is_i64 (n : Z) : Prop := (- 2 ^ 63 ≤ n < 2 ^ 63)%Z.

Lemma write_drift_id_inj a b x y :
  (∀ n, a = Some n → is_i64 n) → (∀ n, b = Some n → is_i64 n) →
  write_drift_id a +:+ x = write_drift_id b +:+ y → a = b ∧ x = y.
Proof.
  destruct a as [a|], b as [b|]; cbn [write_drift_id]; intros Ha Hb H;
    rewrite ?str_app_assoc in H.
  - apply append_inj_length in H as [_ H]; [|done].
    apply append_inj_length in H as [Hm H]; [|by rewrite !be_bytes_length].
    apply be_bytes_mod in Hm. change (8 * Z.of_nat 8)%Z with 64%Z in Hm.
    specialize (Ha a eq_refl). specialize (Hb b eq_refl). unfold is_i64 in *.
    assert (a = b) as ->; [|done].
    apply (f_equal (λ z, (z + 2 ^ 63) mod 2 ^ 64)%Z) in Hm.
    rewrite !Zplus_mod_idemp_l, !Z.mod_small in Hm by lia. lia.
  - discriminate H.
  - discriminate H.
  - apply append_inj_length in H as [_ H]; done.
Qed.

(** The values a row can hold: Rust strings and an [i64]. *)
Record inputs_fit (r : AuditRowInputs) : Prop := {
  fit_timestamp : fits (in_timestamp r);
  fit_actor : fits (in_actor r);
  fit_kind : fits (in_kind r);
  fit_severity : fits (in_severity r);
  fit_operation : ∀ s, in_operation_id r = Some s → fits s;
  fit_agent : ∀ s, in_agent_id r = Some s → fits s;
  fit_resource : ∀ s, in_resource_id r = Some s → fits s;
  fit_drift : ∀ n, in_drift_id r = Some n → is_i64 n;
  fit_payload : fits (in_payload_json r)
}.

(** What a stored previous hash looks like: empty, or a digest whose first
    character is not NUL. *)
Definition hash_shaped (h : string) : Prop :=
  h = "" ∨ String.length h = 64 ∧ ∃ c s, h = String c s ∧ Ascii.N_of_ascii c ≠ 0%N.

Lemma prev_hash_inj h h' x y :
  hash_shaped h → hash_shaped h' →
  h +:+ (be_bytes 8 0 +:+ x) = h' +:+ (be_bytes 8 0 +:+ y) → h = h' ∧ x = y.
Proof.
  intros [->|(Hl & c & s & -> & Hc)] [->|(Hl' & c' & s' & -> & Hc')] H.
  - apply (append_inj_length "" "") in H as [_ H]; [|done].
    by apply append_inj_length in H as [_ H].
  - exfalso. injection H as H _. by subst c'.
  - exfalso. injection H as H _. by subst c.
  - apply append_inj_length in H as [-> H]; [|congruence].
    by apply append_inj_length in H as [_ H].
Qed.

(** Two rows with the same bytes have the same previous hash and fields. *)
Lemma audit_row_bytes_inj h h' r r' :
  hash_shaped h → hash_shaped h' → inputs_fit r → inputs_fit r' →
  audit_row_bytes h 0 r = audit_row_bytes h' 0 r' → h = h' ∧ r = r'.
Proof.
  intros Hh Hh' Hr Hr' H. unfold audit_row_bytes in H.
  apply prev_hash_inj in H as [-> H]; [|done..]. split; [done|].
  apply write_field_inj in H as [Ht H]; [|by apply fit_timestamp..].
  apply write_field_inj in H as [Ha H]; [|by apply fit_actor..].
  apply write_field_inj in H as [Hk H]; [|by apply fit_kind..].
  apply write_field_inj in H as [Hs H]; [|by apply fit_severity..].
  apply write_optional_str_inj in H as [Ho H]; [|by apply fit_operation..].
  apply write_optional_str_inj in H as [Hg H]; [|by apply fit_agent..].
  apply write_optional_str_inj in H as [He H]; [|by apply fit_resource..].
  apply write_drift_id_inj in H as [Hd H]; [|by apply fit_drift..].
  rewrite <- (str_app_nil_r (write_field (in_payload_json r))),
    <- (str_app_nil_r (write_field (in_payload_json r'))) in H.
  apply write_field_inj in H as [Hp _]; [|by apply fit_payload..].
  destruct r, r'; cbn in *; congruence.
Qed.

(** ** The walk *)

Section Walk.
Context `{JsonCodec, Sha256}.

Lemma verify_row_Ok h i row h' i' :
  verify_row (h, i) row = Ok (h', i') →
  default "" (au_prev_hash row) = h ∧ i' = au_id row ∧ h' = default "" (au_row_hash row) ∧
  h' = compute_audit_row_hash h 0 (row_to_audit_inputs row).
Proof.
  unfold verify_row. case_decide as Hp; [done|]. case_decide as Hc; [done|].
  intros [= <- <-]. done.
Qed.

Lemma verify_row_last h i j row : verify_row (h, i) row = verify_row (h, j) row.
Proof. done. Qed.

(** *** Pages *)

Abbreviation by_id := (λ a b : DbAudit, Z.leb (au_id a) (au_id b)).

Lemma by_id_total a b : by_id a b = true ∨ by_id b a = true.
Proof. rewrite !Z.leb_le. lia. Qed.

Lemma by_id_trans a b c : by_id a b = true → by_id b c = true → by_id a c = true.
Proof. rewrite !Z.leb_le. lia. Qed.

Lemma NoDup_ids_eq (rows : list DbAudit) a b :
  NoDup (au_id <$> rows) → a ∈ rows → b ∈ rows → au_id a = au_id b → a = b.
Proof.
  intros Hnd [i Hi]%list_elem_of_lookup [j Hj]%list_elem_of_lookup He.
  assert (i = j) as ->; [|congruence]. apply (NoDup_lookup _ i j (au_id a) Hnd);
    rewrite list_lookup_fmap, ?Hi, ?Hj; cbn; congruence.
Qed.

Lemma elem_of_hashed_rows_after last rows r :
  r ∈ hashed_rows_after last rows ↔ r ∈ rows ∧ is_Some (au_row_hash r) ∧ (last < au_id r)%Z.
Proof.
  unfold hashed_rows_after, select_where. rewrite order_by_perm, elem_of_List_filter.
  rewrite andb_true_iff, bool_decide_eq_true, Z.ltb_lt. done.
Qed.

(** A later cursor selects a suffix of the rows. *)
Lemma hashed_rows_after_filter last last' rows :
  NoDup (au_id <$> rows) → (last ≤ last')%Z →
  hashed_rows_after last' rows =
  List.filter (λ r, (last' <? au_id r)%Z) (hashed_rows_after last rows).
Proof.
  intros Hnd Hle. unfold hashed_rows_after at 1.
  eapply (StronglySorted_unique_strong (λ a b, by_id a b = true)).
  - intros a b Ha Hb Hab Hba. apply (NoDup_ids_eq rows); [done|..].
    + rewrite order_by_perm in Ha. by apply elem_of_List_filter in Ha as [Ha _].
    + apply elem_of_List_filter in Hb as [Hb _]. by apply elem_of_hashed_rows_after in Hb as [? _].
    + apply Z.leb_le in Hab, Hba. lia.
  - apply order_by_sorted; [apply by_id_total|apply by_id_trans].
  - apply StronglySorted_List_filter, order_by_sorted; [apply by_id_total|apply by_id_trans].
  - unfold hashed_rows_after. rewrite order_by_perm. unfold select_where.
    rewrite (List_filter_perm _ _ _ (order_by_perm _ _)). apply reflexive_eq. clear Hnd.
    induction rows as [|r rows IH]; cbn; [done|].
    destruct (bool_decide (is_Some (au_row_hash r))); cbn; [|exact IH].
    destruct (Z.ltb_spec last (au_id r)); cbn.
    + destruct (Z.ltb_spec last' (au_id r)); [by rewrite IH|exact IH].
    + destruct (Z.ltb_spec last' (au_id r)); [lia|exact IH].
Qed.

Lemma hashed_rows_after_suffix last rows p1 r p2 :
  NoDup (au_id <$> rows) → hashed_rows_after last rows = p1 ++ r :: p2 →
  hashed_rows_after (au_id r) rows = p2.
Proof.
  intros Hnd Heq.
  assert (r ∈ hashed_rows_after last rows) as Hr by (rewrite Heq; set_solver).
  apply elem_of_hashed_rows_after in Hr as (Hr & _ & Hlt).
  rewrite (hashed_rows_after_filter last) by (done || lia). rewrite Heq.
  assert (StronglySorted (λ a b, by_id a b = true) (p1 ++ r :: p2)) as Hs.
  { rewrite <- Heq. apply order_by_sorted; [apply by_id_total|apply by_id_trans]. }
  assert (NoDup (au_id <$> p1 ++ r :: p2)) as Hnd'.
  { rewrite <- Heq. unfold hashed_rows_after. rewrite order_by_perm. clear -Hnd.
    induction rows as [|x rows IH]; cbn; [constructor|]. apply NoDup_cons in Hnd as [Hx Hnd].
    destruct (_ && _); [|by apply IH]. cbn. constructor; [|by apply IH].
    intros (y & Hy & Hin)%list_elem_of_fmap. apply Hx, list_elem_of_fmap.
    exists y. split; [done|]. by apply elem_of_List_filter in Hin as [? _]. }
  rewrite List.filter_app. cbn. rewrite Z.ltb_irrefl.
  assert (List.filter (λ r0, (au_id r <? au_id r0)%Z) p1 = []) as ->.
  { apply length_zero_iff_nil. apply count_if_0. intros x Hx. apply Z.ltb_ge.
    apply Z.leb_le. apply (StronglySorted_app_1_elem_of _ _ _ _ _ Hs Hx). left. }
  cbn. rewrite fmap_app in Hnd'. cbn in Hnd'. apply NoDup_app in Hnd' as (_ & _ & Hnd').
  apply NoDup_cons in Hnd' as [Hrn _].
  apply StronglySorted_app_1_r in Hs. apply StronglySorted_inv in Hs as [_ Hall].
  rewrite Forall_forall in Hall. clear -Hall Hrn.
  induction p2 as [|y p2 IH]; cbn; [done|].
  assert (au_id r < au_id y)%Z as Hy.
  { specialize (Hall y ltac:(left)). apply Z.leb_le in Hall. cbn in Hrn.
    assert (au_id r ≠ au_id y) by set_solver. lia. }
  apply Z.ltb_lt in Hy. rewrite Hy. f_equal. apply IH; [|set_solver].
  intros x Hx. apply Hall. by right.
Qed.

(** What the unchunked walk of a list of rows reports. *)
Definition walk_result (prev : string) (last : Z) (rows : list DbAudit) : option Z :=
  match try_fold verify_row (prev, last) rows with Ok _ => None | Err id => Some id end.

Lemma walk_last prev last rows h i :
  try_fold verify_row (prev, last) rows = Ok (h, i) → rows ≠ [] →
  ∃ p1 r, rows = p1 ++ [r] ∧ i = au_id r.
Proof.
  destruct rows as [|r rows _] using rev_ind; [done|]. intros Hrun _. exists rows, r. split; [done|].
  rewrite try_fold_app in Hrun. destruct (try_fold _ _ rows) as [[h1 i1]|]; [|done].
  cbn [mbind result_bind try_fold] in Hrun.
  destruct (verify_row (h1, i1) r) as [[h2 i2]|] eqn:Hv; [|done].
  injection Hrun as <- <-. by apply verify_row_Ok in Hv as (_ & -> & _).
Qed.

Lemma verify_loop_walk fuel chunk rows prev last :
  NoDup (au_id <$> rows) → 0 < chunk → length (hashed_rows_after last rows) < fuel →
  verify_loop fuel chunk rows prev last = Some (walk_result prev last (hashed_rows_after last rows)).
Proof.
  intros Hnd Hc. revert prev last; induction fuel as [|fuel IH]; intros prev last Hf; [lia|].
  cbn [verify_loop]. remember (hashed_rows_after last rows) as post eqn:Hpost.
  destruct (take chunk post) as [|r page] eqn:Hpage.
  - destruct post; [done|]. destruct chunk; [lia|done].
  - assert (walk_result prev last post = walk_result prev last ((r :: page) ++ drop chunk post)) as ->
      by (rewrite <- Hpage, take_drop; done).
    unfold walk_result. rewrite try_fold_app.
    destruct (try_fold verify_row (prev, last) (r :: page)) as [[h i]|id] eqn:Hrun;
      rewrite ?bind_Ok; [|done].
    case_decide as Hshort.
    + rewrite drop_ge; [done|]. rewrite <- Hpage, length_take in Hshort. lia.
    + destruct (walk_last _ _ _ _ _ Hrun) as (p1 & r1 & Heq & ->); [done|].
      assert (hashed_rows_after (au_id r1) rows = drop chunk post) as Hrest.
      { apply (hashed_rows_after_suffix last rows p1 r1); [done|].
        rewrite <- Hpost, <- (take_drop chunk post) at 1. rewrite Hpage, Heq. by rewrite <- app_assoc. }
      rewrite IH, Hrest; [done|]. rewrite Hrest, length_drop.
      assert (length (take chunk post) ≠ 0) by (by rewrite Hpage). rewrite length_take in *. lia.
Qed.

(** *** The chain the recorder keeps *)

Record chain_ok (d : Db) : Prop := {
  ck_walk : ∃ t, audit_tip d = Some t ∧
    try_fold verify_row ("", 0%Z) (audit_events d) = Ok (tip_last_hash t, tip_last_id t);
  ck_sorted : StronglySorted Z.lt (au_id <$> audit_events d);
  ck_range : Forall (λ r, 0 < au_id r < next_audit d)%Z (audit_events d);
  ck_next : (0 < next_audit d)%Z;
  ck_hashed : Forall (λ r, is_Some (au_row_hash r)) (audit_events d)
}.

Lemma chain_ok_empty : chain_ok empty_db.
Proof. split; [by eexists|constructor|constructor|done|constructor]. Qed.

Lemma chain_ok_record now rec d a d' :
  record_audit_on now rec d = Some (Ok (a, d')) → chain_ok d → chain_ok d'.
Proof.
  unfold record_audit_on. intros [= _ <-] [(t & Ht & Hw) Hs Hr Hn Hh]. rewrite Ht. cbn. split; cbn.
  - eexists. split; [done|]. rewrite try_fold_app, Hw, bind_Ok. cbn [try_fold]. unfold verify_row.
    cbn [au_prev_hash au_row_hash default]. cbn. rewrite decide_False by (intros Hx; by apply Hx).
    by rewrite decide_False by (intros Hx; by apply Hx).
  - rewrite fmap_app. cbn. apply StronglySorted_app. split_and!; [|done|repeat constructor].
    intros x y (r & -> & Hin)%list_elem_of_fmap ->%list_elem_of_singleton.
    rewrite Forall_forall in Hr. by apply Hr.
  - apply Forall_app. split; [|by repeat constructor; cbn; lia].
    eapply Forall_impl; [exact Hr|]. cbn. lia.
  - lia.
  - apply Forall_app. split; [done|]. repeat constructor. by eexists.
Qed.

Lemma StronglySorted_lt_NoDup xs : StronglySorted Z.lt xs → NoDup xs.
Proof.
  induction 1 as [|x l _ IH Hx]; constructor; [|done]. intros Hin.
  rewrite Forall_forall in Hx. specialize (Hx x Hin). lia.
Qed.

Lemma order_by_id_sorted (rows : list DbAudit) :
  StronglySorted Z.lt (au_id <$> rows) → order_by by_id rows = rows.
Proof.
  induction rows as [|r rows IH]; intros Hs; [done|].
  apply StronglySorted_inv in Hs as [Hs Hall].
  change (insert_by by_id r (order_by by_id rows) = r :: rows). rewrite IH by done.
  destruct rows as [|r' rows]; [done|]. cbn. apply Forall_cons in Hall as [Hr _].
  by rewrite (proj2 (Z.leb_le _ _)) by lia.
Qed.

(** In a chain in good order the rows after the id of a row are the rest. *)
Lemma hashed_rows_all d : chain_ok d → hashed_rows_after 0 (audit_events d) = audit_events d.
Proof.
  intros [_ Hs Hr _ Hh]. unfold hashed_rows_after, select_where.
  rewrite forallb_filter_id.
  - by apply order_by_id_sorted.
  - apply forallb_forall. intros r Hin%list_elem_of_In. rewrite Forall_forall in Hr, Hh.
    apply andb_true_iff. rewrite bool_decide_eq_true, Z.ltb_lt. split; [by apply Hh|by apply Hr].
Qed.

(** ** Determination by the tip *)

Lemma walk_hash_inv rows h i :
  try_fold verify_row ("", 0%Z) rows = Ok (h, i) → h = "" ∧ rows = [] ∨ ∃ x, h = sha256_hex x.
Proof.
  destruct rows as [|r rows _] using rev_ind; cbn [try_fold].
  - intros [= <- <-]. by left.
  - rewrite try_fold_app. destruct (try_fold _ _ rows) as [[h1 i1]|]; [|done].
    cbn [mbind result_bind try_fold].
    destruct (verify_row (h1, i1) r) as [[h2 i2]|] eqn:Hv; [|done]. intros [= <- <-].
    apply verify_row_Ok in Hv as (_ & _ & _ & ->). right. by eexists.
Qed.

Definition digest_shaped (f : string → string) : Prop :=
  ∀ x, String.length (f x) = 64 ∧ hash_shaped (f x).

Lemma walk_determined (Hsha : digest_shaped sha256_hex) rows rows' h i i' :
  Forall (λ r, inputs_fit (row_to_audit_inputs r)) rows →
  Forall (λ r, inputs_fit (row_to_audit_inputs r)) rows' →
  try_fold verify_row ("", 0%Z) rows = Ok (h, i) →
  try_fold verify_row ("", 0%Z) rows' = Ok (h, i') →
  map row_to_audit_inputs rows = map row_to_audit_inputs rows' ∨
  ∃ x y, x ≠ y ∧ sha256_hex x = sha256_hex y.
Proof.
  assert (∀ x, sha256_hex x ≠ "") as Hne.
  { intros x Hx. destruct (Hsha x) as [Hl _]. by rewrite Hx in Hl. }
  revert rows' h i i'; induction rows as [|r rows IH] using rev_ind; intros rows' h i i' Hf Hf' Hw Hw'.
  - cbn in Hw. injection Hw as <- <-.
    apply walk_hash_inv in Hw' as [[_ ->]|[x Hx]]; [by left|]. by destruct (Hne x).
  - destruct rows' as [|r' rows' _] using rev_ind.
    { cbn in Hw'. injection Hw' as <- <-.
      apply walk_hash_inv in Hw as [[_ Hnil]|[x Hx]]; [by destruct rows|]. by destruct (Hne x). }
    apply Forall_app in Hf as [Hf [Hr _]%Forall_cons]. apply Forall_app in Hf' as [Hf' [Hr' _]%Forall_cons].
    rewrite try_fold_app in Hw, Hw'.
    destruct (try_fold verify_row ("", 0%Z) rows) as [[h1 i1]|] eqn:Hw1; [|done].
    destruct (try_fold verify_row ("", 0%Z) rows') as [[h1' i1']|] eqn:Hw1'; [|done].
    cbn [mbind result_bind try_fold] in Hw, Hw'.
    destruct (verify_row (h1, i1) r) as [[h2 i2]|] eqn:Hv; [|done].
    destruct (verify_row (h1', i1') r') as [[h2' i2']|] eqn:Hv'; [|done].
    injection Hw as -> ->. injection Hw' as -> ->.
    apply verify_row_Ok in Hv as (_ & _ & _ & Hv). apply verify_row_Ok in Hv' as (_ & _ & _ & Hv').
    unfold compute_audit_row_hash in Hv, Hv'.
    destruct (decide (audit_row_bytes h1 0 (row_to_audit_inputs r) =
                      audit_row_bytes h1' 0 (row_to_audit_inputs r'))) as [Heq|Hneq];
      [|right; do 2 eexists; split; [exact Hneq|congruence]].
    assert (∀ rs a b, try_fold verify_row ("", 0%Z) rs = Ok (a, b) → hash_shaped a) as Hshape.
    { intros rs a b [[-> _]|[x ->]]%walk_hash_inv; [by left|]. by destruct (Hsha x). }
    apply audit_row_bytes_inj in Heq as [-> Hin]; [|by eapply Hshape..|done|done].
    destruct (IH rows' h1' i1 i1') as [Hm|Hc]; [done..| |by right].
    left. rewrite !map_app, Hm. cbn. by rewrite Hin.
Qed.

(** The rows verification looks at, and a table in id order. *)
Definition chained (r : DbAudit) : Prop := is_Some (au_row_hash r) ∧ (0 < au_id r)%Z.
Definition id_sorted : list DbAudit → list DbAudit := order_by (λ a b, Z.leb (au_id a) (au_id b)).

Lemma hashed_all_chained rows : Forall chained rows → hashed_rows_after 0 rows = id_sorted rows.
Proof.
  rewrite Forall_forall. intros Hall. unfold hashed_rows_after, id_sorted, select_where.
  rewrite List_filter_all; [done|]. intros r [Hh Hid]%Hall.
  rewrite bool_decide_true by done. by apply Z.ltb_lt.
Qed.

(** The hash an auditor reads off the last chained row. *)
Definition tip_of (d : Db) : string := default "" (last (hashed_rows_after 0 (audit_events d)) ≫= au_row_hash).

Lemma walk_end prev rows h i :
  try_fold verify_row (prev, 0%Z) rows = Ok (h, i) →
  h = match last rows with Some r => default "" (au_row_hash r) | None => prev end.
Proof.
  destruct rows as [|r rows _] using rev_ind; [by intros [= <- <-]|].
  rewrite last_snoc, try_fold_app. destruct (try_fold _ _ rows) as [[h1 i1]|]; [|done].
  cbn [mbind result_bind try_fold]. destruct (verify_row (h1, i1) r) as [[h2 i2]|] eqn:Hv; [|done].
  intros [= <- <-]. by apply verify_row_Ok in Hv as (_ & _ & -> & _).
Qed.

Lemma verified_walk d :
  NoDup (au_id <$> audit_events d) → audit_verify_chain d = Some None →
  ∃ i, try_fold verify_row ("", 0%Z) (hashed_rows_after 0 (audit_events d)) = Ok (tip_of d, i).
Proof.
  intros Hnd. unfold audit_verify_chain, audit_verify_chain_from.
  rewrite verify_loop_walk; [|done| |].
  - unfold walk_result, seed_hash. cbn [decide]. rewrite decide_True by lia.
    destruct (try_fold _ _ _) as [[h i]|] eqn:Hw; [|done]. intros _. exists i.
    rewrite (walk_end _ _ _ _ Hw). unfold tip_of. by destruct (last _).
  - unfold CHUNK. lia.
  - unfold hashed_rows_after. rewrite order_by_perm. unfold select_where.
    pose proof (List.filter_length_le
      (λ r, bool_decide (is_Some (au_row_hash r)) && (0 <? au_id r)%Z) (audit_events d)). lia.
Qed.

Lemma Forall_hashed (P : DbAudit → Prop) last rows : Forall P rows → Forall P (hashed_rows_after last rows).
Proof.
  rewrite !Forall_forall. intros HP r (Hr & _)%elem_of_hashed_rows_after. by apply HP.
Qed.

End Walk.

(** ** The properties *)

Section Properties.
Context `{JsonCodec, Sha256}.

(** C4: What a verified chain pins down. Take two audit tables that both pass
    [audit_verify_chain] and whose last chained rows carry the same row hash
    (an auditor recorded it once). Then their chained rows, in id order, hold
    the same events: every hashed column of every row, in the same number and
    order; or the two tables exhibit a collision of SHA-256. A row is chained
    when it has a row hash and a positive id. The rest of a table is outside
    the chain, as the code has it: verification skips rows without a hash, and
    no id is hashed. When every row of both tables is chained, the tables
    agree as a whole, ids apart. *)
Theorem audit_tamper_evident d d' (Hsha : digest_shaped sha256_hex)
    (Hids : NoDup (au_id <$> audit_events d)) (Hids' : NoDup (au_id <$> audit_events d'))
    (Hfit : Forall (λ r, inputs_fit (row_to_audit_inputs r)) (audit_events d))
    (Hfit' : Forall (λ r, inputs_fit (row_to_audit_inputs r)) (audit_events d'))
    (Hv : audit_verify_chain d = Some None) (Hv' : audit_verify_chain d' = Some None)
    (Htip : tip_of d = tip_of d') :
  (map row_to_audit_inputs (hashed_rows_after 0 (audit_events d)) =
   map row_to_audit_inputs (hashed_rows_after 0 (audit_events d')) ∧
   (Forall chained (audit_events d) → Forall chained (audit_events d') →
    map row_to_audit_inputs (id_sorted (audit_events d)) = map row_to_audit_inputs (id_sorted (audit_events d')))) ∨
  ∃ x y, x ≠ y ∧ sha256_hex x = sha256_hex y.
Proof.
  destruct (verified_walk d Hids Hv) as [i Hw]. destruct (verified_walk d' Hids' Hv') as [i' Hw'].
  rewrite <- Htip in Hw'.
  destruct (walk_determined Hsha _ _ _ _ _ (Forall_hashed _ 0 _ Hfit) (Forall_hashed _ 0 _ Hfit') Hw Hw')
    as [Heq|Hc]; [left|by right].
  split; [done|]. intros Hall Hall'. by rewrite <- !hashed_all_chained.
Qed.

(** The chunked walk of [audit_verify_chain_from] terminates and reports
    what one pass over all the chained rows after the cursor, in id order,
    would report. *)
Theorem audit_verify_chunks_refine from_id d (Hids : NoDup (au_id <$> audit_events d)) :
  audit_verify_chain_from from_id d =
  Some (walk_result (seed_hash from_id (audit_events d)) from_id
          (hashed_rows_after from_id (audit_events d))).
Proof.
  unfold audit_verify_chain_from. rewrite verify_loop_walk; [done|done|unfold CHUNK; lia|].
  unfold hashed_rows_after. rewrite order_by_perm. unfold select_where.
  pose proof (List.filter_length_le
    (λ r, bool_decide (is_Some (au_row_hash r)) && (from_id <? au_id r)%Z) (audit_events d)). lia.
Qed.

(** C34: The audit log the recorder writes always verifies: after any
    sequence of records from the migrated database [audit_verify_chain]
    answers "intact", and the stored tip is the hash and id of the last row. *)
Theorem audit_chain_intact (recs : list (string * AuditRecord)) :
  let d := foldl (λ d '(now, rec), committed (record_audit_on now rec) d) empty_db recs in
  length (audit_events d) = length recs ∧ audit_verify_chain d = Some None ∧
  ∃ t, audit_tip d = Some t ∧ tip_last_hash t = tip_of d ∧
       tip_last_id t = match last (audit_events d) with Some r => au_id r | None => 0%Z end.
Proof.
  intros d. assert (chain_ok d ∧ length (audit_events d) = length recs) as [Hok Hlen].
  { subst d. induction recs as [|[now rec] recs IH] using rev_ind; [by split; [apply chain_ok_empty|]|].
    rewrite foldl_app. cbn [foldl]. destruct IH as [Hok Hlen].
    generalize dependent (foldl (λ d '(now, rec), committed (record_audit_on now rec) d) empty_db recs).
    intros d Hok Hlen. split; [eapply chain_ok_record; [reflexivity|exact Hok]|].
    cbn. rewrite !length_app. cbn. lia. }
  split; [done|]. destruct (ck_walk _ Hok) as (t & Ht & Hw).
  pose proof (StronglySorted_lt_NoDup _ (ck_sorted _ Hok)) as Hnd. split.
  - unfold audit_verify_chain, audit_verify_chain_from.
    rewrite verify_loop_walk; [|done|unfold CHUNK; lia|rewrite hashed_rows_all by done; lia].
    unfold walk_result, seed_hash. rewrite decide_True by lia. by rewrite hashed_rows_all, Hw by done.
  - exists t. split; [done|]. unfold tip_of. rewrite hashed_rows_all by done.
    rewrite (walk_end _ _ _ _ Hw). destruct (audit_events d) as [|r rows _] using rev_ind.
    + cbn in Hw. by injection Hw as _ <-.
    + rewrite last_snoc. split; [done|].
      destruct (walk_last _ _ _ _ _ Hw) as (p1 & r1 & Heq & ->); [by destruct rows|].
      by apply app_inj_tail in Heq as [_ ->].
Qed.

End Properties.

(** ** Concrete runs *)

(** A stand-in digest: 64 hexadecimal digits of a polynomial of the bytes. *)
Fixpoint poly_hash (acc : Z) (s : string) : Z :=
  match s with
  | EmptyString => acc
  | String c s => poly_hash ((acc * 257 + Z.of_N (Ascii.N_of_ascii c) + 1) `mod` 2 ^ 256)%Z s
  end.

Definition hex_digit (z : Z) : Ascii.ascii :=
  Ascii.ascii_of_N (Z.to_N (if (z <? 10)%Z then 48 + z else 87 + z)).

Fixpoint hex_digits (k : nat) (z : Z) (acc : string) : string :=
  match k with O => acc | S k => hex_digits k (z / 16)%Z (String (hex_digit (z `mod` 16)) acc) end.

Definition demo_sha : Sha256 := λ s, hex_digits 64 (poly_hash 7 s) "".

Lemma hex_digits_shape k z acc :
  String.length (hex_digits k z acc) = k + String.length acc ∧
  (0 < k → ∃ c s, hex_digits k z acc = String c s ∧ Ascii.N_of_ascii c ≠ 0%N).
Proof.
  assert (∀ z, Ascii.N_of_ascii (hex_digit (z `mod` 16)) ≠ 0%N) as Hd.
  { intros y. pose proof (Z.mod_pos_bound y 16 eq_refl). unfold hex_digit.
    rewrite Ascii.N_ascii_embedding by (case_match; lia). case_match; lia. }
  revert z acc; induction k as [|k IH]; intros z acc; cbn; [split; [done|lia]|].
  destruct (IH (z / 16)%Z (String (hex_digit (z `mod` 16)) acc)) as [-> Hs]. cbn.
  split; [lia|]. intros _. destruct k; [cbn; do 2 eexists; split; [done|apply Hd]|apply Hs; lia].
Qed.

Lemma demo_sha_shaped : digest_shaped demo_sha.
Proof.
  intros x. unfold demo_sha. destruct (hex_digits_shape 64 (poly_hash 7 x) "") as [-> Hs].
  split; [done|]. right. split; [by destruct (hex_digits_shape 64 (poly_hash 7 x) "") as [-> _]|].
  apply Hs. lia.
Qed.

Definition demo_json : JsonCodec := {| json_from_str _ := Ok JNull; json_to_string _ := "null" |}.

Definition demo_log : Db :=
  committed (record_audit_on (H := demo_json) (H0 := demo_sha) "t2" (with_drift 7 (record_new "bob" "drift.accepted")))
    (committed (record_audit_on (H := demo_json) (H0 := demo_sha) "t1" (with_operation "op1" (record_new "alice" "operation.submitted")))
       empty_db).

Lemma demo_log_fits : Forall (λ r, inputs_fit (row_to_audit_inputs r)) (audit_events demo_log).
Proof.
  assert (∀ s n, (Z.of_nat n < 2 ^ 64)%Z → String.length s = n → fits s) as Hfit
    by (unfold fits; intros s n ? ->; done).
  unfold demo_log. cbn -[compute_audit_row_hash].
  repeat (constructor; [split; cbn; first [by eapply Hfit; [|reflexivity] |
    intros ? [= <-]; first [by eapply Hfit; [|reflexivity] | done] | by intros ? [=]]|]). constructor.
Qed.

(** The same log under other ids, with a row that has no hash in between. *)
Definition renumber (f : Z → Z) (r : DbAudit) : DbAudit :=
  mkAudit (f (au_id r)) (au_timestamp r) (au_actor r) (au_kind r) (au_severity r) (au_operation_id r)
    (au_agent_id r) (au_resource_id r) (au_drift_id r) (au_payload_json r) (au_prev_hash r) (au_row_hash r).
Definition unhashed_row : DbAudit :=
  mkAudit 15 "t9" "mallory" "operation.approved" "info" (Some "op1") None None None "null" None None.
Definition padded_log : Db :=
  set_audit (unhashed_row :: map (renumber (Z.mul 10)) (audit_events demo_log)) 30 (audit_tip demo_log) demo_log.

Lemma padded_log_fits : Forall (λ r, inputs_fit (row_to_audit_inputs r)) (audit_events padded_log).
Proof.
  constructor.
  - split; cbn; try by unfold fits.
    all: intros ? [=]; subst; by unfold fits.
  - apply Forall_forall. intros r (x & Hx & ->)%elem_of_map. pose proof demo_log_fits as Hf.
    rewrite Forall_forall in Hf. exact (Hf x Hx).
Qed.

(** Both logs verify and end in the same hash; the unhashed row goes unseen. *)
Lemma audit_tamper_evident_witness :
  length (audit_events padded_log) = 3 ∧
  ((map row_to_audit_inputs (hashed_rows_after 0 (audit_events demo_log)) =
    map row_to_audit_inputs (hashed_rows_after 0 (audit_events padded_log)) ∧
    (Forall chained (audit_events demo_log) → Forall chained (audit_events padded_log) →
     map row_to_audit_inputs (id_sorted (audit_events demo_log)) = map row_to_audit_inputs (id_sorted (audit_events padded_log)))) ∨
   ∃ x y, x ≠ y ∧ @sha256_hex demo_sha x = @sha256_hex demo_sha y).
Proof.
  split; [reflexivity|].
  apply (audit_tamper_evident (H0 := demo_sha) demo_log padded_log).
  - exact demo_sha_shaped.
  - apply (bool_decide_unpack _). vm_compute. exact I.
  - apply (bool_decide_unpack _). vm_compute. exact I.
  - exact demo_log_fits.
  - exact padded_log_fits.
  - vm_compute. reflexivity.
  - vm_compute. reflexivity.
  - vm_compute. reflexivity.
Defined.

Lemma audit_verify_chunks_refine_witness :
  audit_verify_chain_from (H0 := demo_sha) 1 demo_log =
  Some (walk_result (H0 := demo_sha) (seed_hash 1 (audit_events demo_log)) 1
          (hashed_rows_after 1 (audit_events demo_log))).
Proof.
  apply (audit_verify_chunks_refine (H0 := demo_sha)).
  apply (bool_decide_unpack _). vm_compute. exact I.
Defined.
