(* ===== verification/Canary.v ===== *)
(** * Buckets and the canary split (store.rs)

    [create_operation] groups the routed resources into a [BTreeMap] keyed by
    (agent, layer), lists the agents of each layer, and splits them into the
    canary batch 0 and the baseline batch 1. *)

From S2P Require Import Prelude Text Json ApiError Routing Db.

#[local] Open Scope string_scope.
#[local] Open Scope list_scope.
#[local] Open Scope nat_scope.

Record CanarySpec := mkCanary { pct : Z; min_count : option Z }.

(** A [BTreeMap<(String, i32), Vec<_>>] is its key-sorted entry list. *)
Abbreviation bucket_map A := (list ((string * Z) * list A)).

Definition key_compare (k k' : string * Z) : comparison :=
  match String.compare k.1 k'.1 with Eq => Z.compare k.2 k'.2 | c => c end.

(** [m.entry(k).or_default().push(x)]. *)
Fixpoint bucket_push {A} (k : string * Z) (x : A) (m : bucket_map A) : bucket_map A :=
  match m with
  | [] => [(k, [x])]
  | (k', xs) :: m =>
      match key_compare k k' with
      | Lt => (k, [x]) :: (k', xs) :: m
      | Eq => (k', xs ++ [x]) :: m
      | Gt => (k', xs) :: bucket_push k x m
      end
  end.

(** [per_layer.entry(layer).or_default()] followed by the guarded push. *)
Fixpoint layer_push (layer : Z) (a : string) (m : list (Z * list string)) : list (Z * list string) :=
  match m with
  | [] => [(layer, [a])]
  | (l, v) :: m =>
      match Z.compare layer l with
      | Lt => (layer, [a]) :: (l, v) :: m
      | Eq => (l, if decide (a ∈ v) then v else v ++ [a]) :: m
      | Gt => (l, v) :: layer_push layer a m
      end
  end.

Definition bucket_agents_per_layer {A} (buckets : bucket_map A) : list (Z * list string) :=
  map (λ lv, (lv.1, order_by str_le lv.2))
    (foldl (λ m kv, layer_push kv.1.2 kv.1.1 m) [] buckets).

Definition canary_count (spec : CanarySpec) (n : Z) : Z :=
  let pct := clamp 1 99 (pct spec) in
  let min_count := Z.max (default 1%Z (min_count spec)) 1 in
  let from_pct := ((u32_sat_mul n pct + 99) / 100)%Z in
  Z.min (Z.max from_pct min_count) (n - 1).

Definition split_layer (spec : CanarySpec) (out : gmap (string * Z) Z) (lv : Z * list string)
    : gmap (string * Z) Z :=
  let '(layer, agents) := lv in
  let n := wrap_unsigned 32 (Z.of_nat (length agents)) in
  if (n <=? 1)%Z then out
  else
    foldl (λ out ia, <[(ia.2, layer) := if (Z.of_nat ia.1 <? canary_count spec n)%Z then 0%Z else 1%Z]> out)
      out (enumerate agents).

Definition compute_canary_split (agents_per_layer : list (Z * list string))
    (canary : option CanarySpec) : gmap (string * Z) Z :=
  match canary with
  | None => ∅
  | Some spec => foldl (split_layer spec) ∅ agents_per_layer
  end.

(** ** Buckets *)

Lemma key_compare_Eq k k' : key_compare k k' = Eq ↔ k = k'.
Proof.
  unfold key_compare. destruct k as [a x], k' as [b y]; cbn.
  pose proof (compare_Eq a b) as Hab.
  destruct (String.compare a b) eqn:E.
  - rewrite Z.compare_eq_iff. assert (a = b) as -> by by apply Hab.
    split; [by intros ->|by intros [= ->]].
  - split; [done|]. intros [= Ha _]. apply Hab in Ha. done.
  - split; [done|]. intros [= Ha _]. apply Hab in Ha. done.
Qed.

Definition keys {A} (m : bucket_map A) : list (string * Z) := map fst m.

Lemma bucket_push_keys {A} k (x : A) m k' : k' ∈ keys (bucket_push k x m) ↔ k' = k ∨ k' ∈ keys m.
Proof.
  induction m as [|[k1 xs] m IH]; cbn; [set_solver|].
  destruct (key_compare k k1) eqn:E; cbn; [|set_solver|set_solver].
  apply key_compare_Eq in E as ->. set_solver.
Qed.

(** The elements pushed under a key, in push order. *)
Fixpoint bucket_get {A} (k : string * Z) (m : bucket_map A) : list A :=
  match m with
  | [] => []
  | (k', xs) :: m => if decide (k = k') then xs else bucket_get k m
  end.

Lemma elem_of_bucket_push {A} k (x : A) m k' ys :
  (k', ys) ∈ bucket_push k x m →
  (k', ys) ∈ m ∨ k' = k ∧ ys = [x] ∨ k' = k ∧ ∃ xs, (k, xs) ∈ m ∧ ys = xs ++ [x].
Proof.
  induction m as [|[k1 xs] m IH]; cbn.
  - intros Hin%list_elem_of_singleton. naive_solver.
  - destruct (key_compare k k1) eqn:E.
    + apply key_compare_Eq in E as ->. intros [Heq|Hin]%elem_of_cons; [|left; by right].
      injection Heq as -> ->. right; right. split; [done|]. exists xs. split; [left|done].
    + intros [Heq|Hin]%elem_of_cons; [injection Heq as -> ->; naive_solver|by left].
    + intros [Heq|Hin]%elem_of_cons; [left; rewrite Heq; left|].
      destruct (IH Hin) as [?|[?|(? & ys' & ? & ?)]]; [left; by right|naive_solver|].
      right; right. split; [done|]. exists ys'. split; [by right|done].
Qed.

(** ** Agents per layer *)

(** The agent list of a layer, empty when the layer has no entry. *)
Fixpoint layer_get (layer : Z) (m : list (Z * list string)) : list string :=
  match m with
  | [] => []
  | (l, v) :: m => if decide (layer = l) then v else layer_get layer m
  end.

Lemma layer_push_spec layer a m :
  StronglySorted Z.lt (map fst m) →
  StronglySorted Z.lt (map fst (layer_push layer a m)) ∧
  (∀ l, l ∈ map fst (layer_push layer a m) ↔ l = layer ∨ l ∈ map fst m) ∧
  (∀ l, layer_get l (layer_push layer a m) =
     (if decide (l = layer)
      then if decide (a ∈ layer_get l m) then layer_get l m else layer_get l m ++ [a]
      else layer_get l m)).
Proof.
  induction m as [|[l v] m IH]; cbn; intros Hs.
  - split_and!; [repeat constructor|set_solver|]. intros l. case_decide; [|done].
    by rewrite decide_False by set_solver.
  - pose proof (StronglySorted_inv Hs) as [Hs' Hall].
    destruct (Z.compare_spec layer l) as [->|Hlt|Hgt]; cbn.
    + split_and!; [done|set_solver|]. intros l'. destruct (decide (l' = l)) as [->|]; done.
    + rewrite Forall_forall in Hall. split_and!; [|set_solver|].
      * constructor; [done|]. constructor; [done|]. apply Forall_forall. intros z Hz.
        specialize (Hall z Hz). lia.
      * intros l'. destruct (decide (l' = layer)) as [->|Hne].
        -- rewrite (decide_False (P := layer = l)) by lia.
           assert (layer_get layer m = []) as ->; [|by rewrite decide_False by set_solver].
           assert (∀ z, z ∈ map fst m → (layer < z)%Z) as Hlo by (intros z Hz; specialize (Hall z Hz); lia).
           clear -Hlo. induction m as [|[z v'] m IH]; cbn; [done|].
           rewrite decide_False; [apply IH; intros; apply Hlo; by right|].
           specialize (Hlo z ltac:(left)). lia.
        -- done.
    + destruct (IH Hs') as (H1 & H2 & H3). split_and!.
      * constructor; [done|]. apply Forall_forall. intros z [->|Hz]%H2; [done|].
        rewrite Forall_forall in Hall. by apply Hall.
      * intros z. rewrite !elem_of_cons, H2. naive_solver.
      * intros l'. rewrite H3. destruct (decide (l' = l)) as [->|]; [|done].
        by rewrite decide_False by lia.
Qed.

Lemma layers_fold_spec {A} (buckets : bucket_map A) :
  let m := foldl (λ m kv, layer_push kv.1.2 kv.1.1 m) [] buckets in
  StronglySorted Z.lt (map fst m) ∧
  (∀ l, NoDup (layer_get l m) ∧ ∀ a, a ∈ layer_get l m ↔ (a, l) ∈ keys buckets).
Proof.
  induction buckets as [|[[a l] xs] buckets IH] using rev_ind; cbn.
  - split; [constructor|]. intros l. split; [constructor|set_solver].
  - rewrite foldl_app. cbn. destruct IH as [Hs Hl].
    destruct (layer_push_spec l a _ Hs) as (Hs' & _ & Hget). split; [done|]. intros l'.
    rewrite Hget. unfold keys. rewrite map_app. cbn. destruct (Hl l') as [Hnd Hin].
    destruct (decide (l' = l)) as [->|Hne].
    + case_decide as Ha.
      * split; [done|]. intros b. rewrite Hin, elem_of_app, list_elem_of_singleton.
        split; [by left|]. intros [?|[= ->]]; [done|]. by apply Hin.
      * split; [apply NoDup_app; split_and!; [done|set_solver|apply NoDup_singleton]|].
        intros b. rewrite !elem_of_app, Hin, !list_elem_of_singleton. naive_solver.
    + split; [done|]. intros b. rewrite Hin, elem_of_app, list_elem_of_singleton. naive_solver.
Qed.

Lemma layer_get_map (f : list string → list string) l m :
  f [] = [] → layer_get l (map (λ lv, (lv.1, f lv.2)) m) = f (layer_get l m).
Proof. intros Hf. induction m as [|[l' v] m IH]; cbn; [done|]. by case_decide. Qed.

Lemma agents_per_layer_spec {A} (buckets : bucket_map A) l :
  let ags := layer_get l (bucket_agents_per_layer buckets) in
  NoDup ags ∧ StronglySorted (λ a b, str_le a b = true) ags ∧
  ∀ a, a ∈ ags ↔ (a, l) ∈ keys buckets.
Proof.
  cbn. unfold bucket_agents_per_layer. rewrite layer_get_map by done.
  destruct (layers_fold_spec buckets) as [_ Hl]. destruct (Hl l) as [Hnd Hin].
  rewrite order_by_perm at 1. split_and!; [done| |].
  - apply order_by_sorted; [apply str_le_total|apply str_le_trans].
  - intros a. rewrite order_by_perm. apply Hin.
Qed.

(** ** The split *)

Lemma split_fold_spec (layer : Z) (f : nat → Z) (agents : list string) (out : gmap (string * Z) Z) :
  NoDup agents →
  let out' := foldl (λ out ia, <[(ia.2, layer) := f ia.1]> out) out (enumerate agents) in
  (∀ i a, agents !! i = Some a → out' !! (a, layer) = Some (f i)) ∧
  (∀ a l, l ≠ layer ∨ a ∉ agents → out' !! (a, l) = out !! (a, l)).
Proof.
  cbn. induction agents as [|a agents IH] using rev_ind; intros Hnd; [by split|].
  rewrite enumerate_snoc, foldl_app. cbn. apply NoDup_app in Hnd as (Hnd & Ha & _).
  destruct (IH Hnd) as [H1 H2]. split.
  - intros i b Hi. apply lookup_app_Some in Hi as [Hi|[Hge Hi]].
    + rewrite lookup_insert_ne; [by apply H1|]. intros [= <-].
      apply (Ha a); [by eapply list_elem_of_lookup_2|left].
    + apply list_lookup_singleton_Some in Hi as [Hi <-].
      rewrite lookup_insert_eq. do 2 f_equal. lia.
  - intros b l Hb. rewrite lookup_insert_ne; [apply H2; set_solver|]. intros [= <- <-]. set_solver.
Qed.

Lemma split_layer_spec spec out l v :
  NoDup v →
  let n := wrap_unsigned 32 (Z.of_nat (length v)) in
  (∀ i a, v !! i = Some a → split_layer spec out (l, v) !! (a, l) =
     (if (n <=? 1)%Z then out !! (a, l)
      else Some (if (Z.of_nat i <? canary_count spec n)%Z then 0%Z else 1%Z))) ∧
  (∀ a l', l' ≠ l ∨ a ∉ v → split_layer spec out (l, v) !! (a, l') = out !! (a, l')).
Proof.
  intros Hnd n. unfold split_layer. fold n. destruct (Z.leb_spec n 1); [done|].
  by apply (split_fold_spec l (λ i, if (Z.of_nat i <? canary_count spec n)%Z then 0%Z else 1%Z)).
Qed.

Lemma split_layers_spec spec m out :
  StronglySorted Z.lt (map fst m) → (∀ l, NoDup (layer_get l m)) →
  (∀ l i a, layer_get l m !! i = Some a → foldl (split_layer spec) out m !! (a, l) =
     (let n := wrap_unsigned 32 (Z.of_nat (length (layer_get l m))) in
      if (n <=? 1)%Z then out !! (a, l)
      else Some (if (Z.of_nat i <? canary_count spec n)%Z then 0%Z else 1%Z))) ∧
  (∀ l a, a ∉ layer_get l m → foldl (split_layer spec) out m !! (a, l) = out !! (a, l)).
Proof.
  revert out; induction m as [|[l0 v] m IH]; intros out Hs Hnd; [done|]. cbn [foldl].
  cbn in Hs. apply StronglySorted_inv in Hs as [Hs Hall]. rewrite Forall_forall in Hall.
  assert (layer_get l0 m = []) as Hl0.
  { clear -Hall. induction m as [|[z w] m IH]; cbn; [done|].
    rewrite decide_False; [apply IH; intros; apply Hall; by right|].
    specialize (Hall z ltac:(left)). lia. }
  pose proof (Hnd l0) as Hv. cbn in Hv. rewrite decide_True in Hv by done.
  assert (∀ l, NoDup (layer_get l m)) as Hnd'.
  { intros l. specialize (Hnd l). cbn in Hnd. case_decide; [|done]. subst. rewrite Hl0. constructor. }
  destruct (IH (split_layer spec out (l0, v)) Hs Hnd') as [IH1 IH2].
  destruct (split_layer_spec spec out l0 v Hv) as [H1 H2]. split.
  - intros l i a. cbn [layer_get]. case_decide as Hl.
    + subst l0. intros Hi. rewrite IH2 by (rewrite Hl0; set_solver). by apply H1.
    + intros Hi. rewrite (IH1 l i a Hi). cbv zeta. by rewrite H2 by (by left).
  - intros l a. cbn [layer_get]. case_decide as Hl.
    + subst l0. intros Ha. rewrite IH2 by (rewrite Hl0; set_solver). apply H2. by right.
    + intros Ha. rewrite IH2 by done. apply H2. by left.
Qed.

Lemma agents_sorted_layers {A} (buckets : bucket_map A) :
  StronglySorted Z.lt (map fst (bucket_agents_per_layer buckets)).
Proof.
  unfold bucket_agents_per_layer. rewrite map_map. cbn.
  by destruct (layers_fold_spec buckets) as [Hs _].
Qed.

(** The batch of every bucket, with or without a canary. *)
Lemma canary_split_get {A} (buckets : bucket_map A) spec l i a :
  let agents := layer_get l (bucket_agents_per_layer buckets) in
  let n := wrap_unsigned 32 (Z.of_nat (length agents)) in
  agents !! i = Some a →
  compute_canary_split (bucket_agents_per_layer buckets) (Some spec) !! (a, l) =
  (if (n <=? 1)%Z then None
   else Some (if (Z.of_nat i <? canary_count spec n)%Z then 0%Z else 1%Z)).
Proof.
  cbn. intros Hi. destruct (split_layers_spec spec (bucket_agents_per_layer buckets) ∅) as [H1 _].
  - apply agents_sorted_layers.
  - intros l'. by destruct (agents_per_layer_spec buckets l') as [? _].
  - rewrite (H1 l i a Hi). cbv zeta. by rewrite lookup_empty.
Qed.

Lemma canary_split_none {A} (buckets : bucket_map A) spec l a :
  a ∉ layer_get l (bucket_agents_per_layer buckets) →
  compute_canary_split (bucket_agents_per_layer buckets) (Some spec) !! (a, l) = None.
Proof.
  intros Ha. cbn. destruct (split_layers_spec spec (bucket_agents_per_layer buckets) ∅) as [_ Hn].
  - apply agents_sorted_layers.
  - intros l'. by destruct (agents_per_layer_spec buckets l') as [? _].
  - by rewrite Hn.
Qed.

Lemma canary_count_range spec n : (2 ≤ n ≤ u32_max)%Z → (1 ≤ canary_count spec n ≤ n - 1)%Z.
Proof.
  intros Hn. unfold canary_count, u32_sat_mul.
  pose proof (clamp_range 1 99 (pct spec) ltac:(lia)). lia.
Qed.

(** ** The properties *)

(** C40: For every layer of at least two agents the split assigns every agent
    of the layer a batch, and nothing to others: in the order of their ids the
    first [k] agents are the canary, the rest the baseline, with
    [1 <= k <= n - 1], so neither batch is empty, and [k] is
    [max (ceil (n * pct / 100)) min_count] bounded by [n - 1], the percentage
    being brought into 1..99 and the minimum to 1 at least. A layer with one
    agent is not split. This is for layers of at most (2^32 - 1) / 99 agents,
    43 million, where the product in 32 bits does not saturate. *)
Theorem canary_split_partitions {A} (buckets : bucket_map A) spec l
    (Hlen : (Z.of_nat (length (layer_get l (bucket_agents_per_layer buckets))) * 99 ≤ u32_max)%Z) :
  let agents := layer_get l (bucket_agents_per_layer buckets) in
  let split := compute_canary_split (bucket_agents_per_layer buckets) (Some spec) in
  let n := Z.of_nat (length agents) in
  let p := Z.max 1 (Z.min 99 (pct spec)) in
  let k := Z.min (Z.max ((n * p + 99) / 100) (Z.max 1 (default 1%Z (min_count spec)))) (n - 1) in
  (∀ a, (a, l) ∈ keys buckets ↔ a ∈ agents) ∧
  NoDup agents ∧ StronglySorted (λ a b, str_le a b = true) agents ∧
  (∀ a, a ∉ agents → split !! (a, l) = None) ∧
  ((n ≤ 1)%Z → ∀ a, a ∈ agents → split !! (a, l) = None) ∧
  ((2 ≤ n)%Z → (1 ≤ k ≤ n - 1)%Z ∧
     ∀ i a, agents !! i = Some a → split !! (a, l) = Some (if (Z.of_nat i <? k)%Z then 0%Z else 1%Z)).
Proof.
  intros agents split n p k. fold agents in Hlen. fold n in Hlen.
  pose proof (agents_per_layer_spec buckets l) as (Hnd & Hsort & Hin). unfold u32_max in Hlen.
  assert (wrap_unsigned 32 n = n) as Hwrap by (unfold wrap_unsigned; rewrite Z.mod_small; lia).
  assert (clamp 1 99 (pct spec) = p) as Hp by (unfold clamp, p; repeat case_match; lia).
  assert (canary_count spec n = k) as Hk.
  { unfold canary_count, k. rewrite Hp. unfold u32_sat_mul, u32_max.
    rewrite (Z.min_r _ (n * p)) by nia. by rewrite (Z.max_comm (default _ _)). }
  split_and!; [intros a; symmetry; apply Hin|done|done| | |].
  - intros a Ha. subst split. by apply canary_split_none.
  - intros Hn a [i Hi]%list_elem_of_lookup. subst split. rewrite (canary_split_get _ _ _ i) by done.
    fold agents. fold n. rewrite Hwrap. by rewrite (proj2 (Z.leb_le _ _)).
  - intros Hn. split; [rewrite <- Hk; apply canary_count_range; unfold u32_max; lia|].
    intros i a Hi. subst split. rewrite (canary_split_get _ _ _ i) by done.
    fold agents. fold n. rewrite Hwrap, Hk. by rewrite (proj2 (Z.leb_gt _ _)) by lia.
Qed.

(** Three agents at layer 0 and one at layer 1, a third of them as canary. *)
Definition demo_buckets : bucket_map nat :=
  bucket_push ("a1", 0%Z) 1 (bucket_push ("a3", 0%Z) 2 (bucket_push ("a1", 1%Z) 3 (bucket_push ("a2", 0%Z) 4 []))).

Lemma canary_split_partitions_witness :
  compute_canary_split (bucket_agents_per_layer demo_buckets) (Some (mkCanary 34 None)) !! ("a3", 0%Z)
  = Some 1%Z.
Proof.
  destruct (canary_split_partitions demo_buckets (mkCanary 34 None) 0) as (_ & _ & _ & _ & _ & H);
    [vm_compute; discriminate|].
  destruct H as [_ H]; [vm_compute; discriminate|].
  exact (H 2 "a3" eq_refl).
Defined.
