(* ===== verification/Operations.v ===== *)
(** * Operations (store.rs)

    Creation of an operation with its per-(agent, layer) assignments, the
    approval and rejection of a gated operation, and the preparation of a
    rollback. *)

From S2P Require Import Prelude Text Json ApiError Routing Depsort Db AuditLog Canary.
From stdpp Require Import pretty.

#[local] Open Scope string_scope.
#[local] Open Scope list_scope.
#[local] Open Scope nat_scope.
#[local] Open Scope tx_scope.

(** [serde_json::json!] of an object literal. *)
Definition json_object (kvs : list (string * Json)) : Json :=
  JObject (foldl (λ m kv, assoc_insert kv.1 kv.2 m) [] kvs).
Definition json_opt (o : option string) : Json := from_option JString JNull o.
Definition json_nat (n : nat) : Json := JNumber (pretty n).
Definition json_strings (xs : list string) : Json := JArray (map JString xs).

(** [AssignmentPayload { resources }]. *)
Definition payload_json_of (resources : list Json) : Json :=
  JObject [("resources", JArray resources)].

Record CreateOperationOutcome := mkOutcome {
  out_operation_id : string;
  out_assignment_count : nat;
  out_unrouted : list (string * message);
  out_matched_policies : list string;
  out_requires_approval : bool
}.

(** [SELECT id, name, environment FROM agents]. *)
Definition agent_rows (d : Db) : list AgentRow :=
  map (λ a, mkAgentRow (a_id a) (a_name a) (a_environment a)) (agents d).

(** Values the method draws from the outside: the operation id, the ids of
    the assignments it mints, the clock readings of its body and of the
    audit record. *)
Record Fresh := mkFresh {
  fresh_op : string;
  fresh_assignment : nat → string;
  now : string;
  audit_now : string
}.

Section Definitions.
Context `{JsonCodec, Sha256, SqlErrors}.

(** *** Rows *)

Definition insert_operation (o : DbOperation) : tx () := λ d,
  if decide (op_id o ∈ map op_id (operations d)) then Some (Err (Sqlx unique_violation))
  else Some (Ok ((), set_operations (operations d ++ [o]) d)).

Definition insert_desired (op : string) (r : ResourceForRouting) : tx () := λ d,
  if decide ((op, resource_id r) ∈ map (λ x, (ds_operation_id x, ds_resource_id x)) (desired_states d))
  then Some (Err (Sqlx unique_violation))
  else Some (Ok ((), set_desired
    (desired_states d ++ [mkDesired (next_desired d) op (resource_id r) (kind r) (environment r)
                            (resource_json r) "{}"]) (next_desired d + 1)%Z d)).

Definition insert_assignment (a : DbAssignment) : tx () := λ d,
  if decide (asg_id a ∈ map asg_id (assignments d)) then Some (Err (Sqlx unique_violation))
  else Some (Ok ((), set_assignments (assignments d ++ [a]) d)).

Definition new_assignment (id agent op payload created : string) (st : AssignmentStatus) (layer : Z)
    (batch : option Z) : DbAssignment :=
  mkAssignment id agent op payload created None None st "apply" None None layer batch.

(** *** create_operation *)

(** The body of the loop over the resources. *)
Definition route_step (op env : string) (ags : list AgentRow) (layers : list Z)
    (acc : bucket_map ResourceForRouting * list (string * message)) (ir : nat * ResourceForRouting)
    : tx (bucket_map ResourceForRouting * list (string * message)) :=
  let '(buckets, unrouted) := acc in
  let '(i, r) := ir in
  insert_desired op r ;;
  match route_resource r env ags with
  | Ok agent_id =>
      let! layer := tx_panics (layers !! i) in
      tx_ret (bucket_push (agent_id, layer) r buckets, unrouted)
  | Err reason => tx_ret (buckets, unrouted ++ [(resource_id r, reason)])
  end.

Definition seal_resource (r : ResourceForRouting) : ApiResult Json :=
  value ← map_err JsonErr (json_from_str (resource_json r)); Ok (strip_routing_hints value).

Definition initial_assignment_status (layer : Z) (batch : option Z) : AssignmentStatus :=
  if decide (layer = 0%Z) then
    match batch with
    | None => APending
    | Some b => if decide (b = 0%Z) then APending else if decide (b = 1%Z) then APendingCanary else APendingLayer
    end
  else APendingLayer.

(** The body of the loop over the buckets. *)
Definition bucket_step (op : string) (f : Fresh) (split : gmap (string * Z) Z) (count : nat)
    (kv : (string * Z) * list ResourceForRouting) : tx nat :=
  let '((agent_id, layer), items) := kv in
  let! resources_for_payload := tx_lift (try_map seal_resource items) in
  let payload_json := json_to_string (payload_json_of resources_for_payload) in
  let batch := split !! (agent_id, layer) in
  insert_assignment (new_assignment (fresh_assignment f count) agent_id op payload_json (now f)
                       (initial_assignment_status layer batch) layer batch) ;;
  tx_ret (S count).

Definition set_op_succeeded (t : string) (o : DbOperation) : DbOperation :=
  mkOperation (op_id o) (op_kind o) (op_environment o) (op_requested_by o) OpSucceeded
    (op_source_commit o) (op_summary o) (op_created_at o) (Some t) (Some t) (op_requires_approval o)
    (op_approved_by o) (op_approved_at o) (op_rejected_by o) (op_rejected_at o)
    (op_rejection_reason o) (op_approval_reason o) (op_matched_policies_json o).

Definition new_operation (op env requested_by : string) (source_commit summary : option string)
    (t policies_json : string) (requires_approval : bool) : DbOperation :=
  mkOperation op "apply" env requested_by
    (if requires_approval then OpPendingApproval else OpPending) source_commit summary t None None
    (if requires_approval then 1 else 0)%Z None None None None None None policies_json.

Definition create_operation (environment requested_by actor : string)
    (source_commit summary : option string) (resources : list ResourceForRouting)
    (matched_policies : list string) (requires_approval : bool) (canary : option CanarySpec)
    (f : Fresh) : tx CreateOperationOutcome :=
  let! d := tx_get in
  let ags := agent_rows d in
  let op := fresh_op f in
  insert_operation (new_operation op environment requested_by source_commit summary (now f)
                      (json_to_string (json_strings matched_policies)) requires_approval) ;;
  let! layers := tx_lift (compute_resource_layers resources) in
  let! '(buckets, unrouted) :=
    tx_for (route_step op environment ags layers) ([], []) (enumerate resources) in
  let! assignment_count :=
    if requires_approval then tx_ret 0
    else
      let split := compute_canary_split (bucket_agents_per_layer buckets) canary in
      let! n := tx_for (bucket_step op f split) 0 buckets in
      (if decide (n = 0) then
         tx_modify (λ d, set_operations
           (update_where (λ o, seqb (op_id o) op) (set_op_succeeded (now f)) (operations d)) d)
       else tx_ret ()) ;;
      tx_ret n in
  record_audit_on (audit_now f)
    (with_payload (json_object
       [("environment", JString environment); ("requested_by", JString requested_by);
        ("resource_count", json_nat (length resources)); ("assignment_count", json_nat assignment_count);
        ("unrouted_count", json_nat (length unrouted)); ("source_commit", json_opt source_commit);
        ("matched_policies", json_strings matched_policies)])
    (with_operation op
    (record_new actor (if requires_approval then "operation.pending_approval" else "operation.submitted")))) ;;
  tx_ret (mkOutcome op assignment_count unrouted matched_policies requires_approval).

(** *** approve_operation *)

(** The routing record rebuilt from a stored [desired_states] row. *)
Definition routing_of_desired (r : DbDesired) : ApiResult ResourceForRouting :=
  value ← map_err JsonErr (json_from_str (ds_spec_json r));
  Ok (mkRouting (ds_resource_id r) (ds_kind r) (ds_environment r) (ds_spec_json r)
        (default "" (json_get2 value "metadata" "name" ≫= as_str)) (host_selector_of value)).

Definition approve_route_step (env : string) (ags : list AgentRow) (layers : list Z)
    (buckets : bucket_map string) (ir : nat * ResourceForRouting) : tx (bucket_map string) :=
  let '(i, routing) := ir in
  match route_resource routing env ags with
  | Ok agent_id =>
      let! stripped := tx_lift (seal_resource routing) in
      let! layer := tx_panics (layers !! i) in
      tx_ret (bucket_push (agent_id, layer) (json_to_string stripped) buckets)
  | Err _ => tx_ret buckets
  end.

Definition approve_bucket_step (op : string) (f : Fresh) (count : nat)
    (kv : (string * Z) * list string) : tx nat :=
  let '((agent_id, layer), items_json) := kv in
  let! resources_for_payload := tx_lift (try_map (λ s, map_err JsonErr (json_from_str s)) items_json) in
  insert_assignment (new_assignment (fresh_assignment f count) agent_id op
                       (json_to_string (payload_json_of resources_for_payload)) (now f)
                       (if decide (layer = 0%Z) then APending else APendingLayer) layer None) ;;
  tx_ret (S count).

Definition set_op_approved (st : OperationStatus) (approver t : string) (reason finished : option string)
    (o : DbOperation) : DbOperation :=
  mkOperation (op_id o) (op_kind o) (op_environment o) (op_requested_by o) st
    (op_source_commit o) (op_summary o) (op_created_at o) (op_started_at o)
    (coalesce finished (op_finished_at o)) (op_requires_approval o)
    (Some approver) (Some t) (op_rejected_by o) (op_rejected_at o)
    (op_rejection_reason o) reason (op_matched_policies_json o).

(** [WHERE id = ? AND status = 'pending_approval']. *)
Definition awaiting_approval (op : string) (o : DbOperation) : bool :=
  seqb (op_id o) op && bool_decide (op_status o = OpPendingApproval).

Definition find_operation (op : string) (d : Db) : option DbOperation :=
  List.find (λ o, seqb (op_id o) op) (operations d).

Definition approve_operation (op approver_display actor : string) (reason : option string) (f : Fresh)
    : tx nat :=
  let! d := tx_get in
  let! row := tx_lift (ok_or (find_operation op d) NotFound) in
  if decide (op_status row ≠ OpPendingApproval) then
    tx_throw (Conflict [Txt "operation is in status "; Dbg (operation_status_text (op_status row));
                        Txt ", not pending_approval"])
  else
  let environment := op_environment row in
  let desired_rows := select_where (λ r, seqb (ds_operation_id r) op) (desired_states d) in
  let ags := agent_rows d in
  let! routing_list := tx_lift (try_map routing_of_desired desired_rows) in
  let! sorted := tx_panics (topo_sort_by_depends_on routing_list) in
  let! routing_list := tx_lift sorted in
  let! layers := tx_lift (compute_resource_layers routing_list) in
  let! buckets := tx_for (approve_route_step environment ags layers) [] (enumerate routing_list) in
  let! assignment_count := tx_for (approve_bucket_step op f) 0 buckets in
  let new_status := if decide (assignment_count = 0) then OpSucceeded else OpPending in
  let finished_at := if decide (assignment_count = 0) then Some (now f) else None in
  let! d := tx_get in
  let affected := count_if (awaiting_approval op) (operations d) in
  tx_modify (λ d, set_operations
    (update_where (awaiting_approval op)
       (set_op_approved new_status approver_display (now f) reason finished_at) (operations d)) d) ;;
  if decide (affected ≠ 1) then
    tx_throw (Conflict [Txt "operation "; Txt op;
      Txt " no longer in pending_approval (concurrent approve/reject); refusing to overwrite"])
  else
  record_audit_on (audit_now f)
    (with_payload (json_object [("approver", JString approver_display); ("reason", json_opt reason);
                                ("assignment_count", json_nat assignment_count)])
    (with_operation op (record_new actor "operation.approved"))) ;;
  tx_ret assignment_count.

(** *** reject_operation *)

Definition set_op_rejected (rejector t reason : string) (o : DbOperation) : DbOperation :=
  mkOperation (op_id o) (op_kind o) (op_environment o) (op_requested_by o) OpRejected
    (op_source_commit o) (op_summary o) (op_created_at o) (op_started_at o)
    (Some t) (op_requires_approval o) (op_approved_by o) (op_approved_at o) (Some rejector) (Some t)
    (Some reason) (op_approval_reason o) (op_matched_policies_json o).

Definition reject_operation (op rejector_display actor reason : string) (now audit_now : string) : tx () :=
  if is_blank reason then tx_throw (BadRequest [Txt "reason must not be empty"])
  else
  let! d := tx_get in
  if decide (count_if (awaiting_approval op) (operations d) = 0) then
    tx_throw (Conflict [Txt "operation not found or not in pending_approval"])
  else
  tx_modify (λ d, set_operations
    (update_where (awaiting_approval op) (set_op_rejected rejector_display now reason) (operations d)) d) ;;
  record_audit_on audit_now
    (with_payload (json_object [("rejector", JString rejector_display); ("reason", JString reason)])
    (with_operation op (with_severity "warning" (record_new actor "operation.rejected")))).

(** *** prepare_rollback *)

(** [ORDER BY o.created_at DESC, ds.id DESC] over the join. *)
Definition newer_state (a b : DbOperation * DbDesired) : bool :=
  match String.compare (op_created_at a.1) (op_created_at b.1) with
  | Gt => true | Lt => false | Eq => Z.leb (ds_id b.2) (ds_id a.2)
  end.

(** The join of [desired_states] with [operations], in rowid order. *)
Definition desired_join (d : Db) : list (DbOperation * DbDesired) :=
  ds ← desired_states d;
  match find_operation (ds_operation_id ds) d with Some o => [(o, ds)] | None => [] end.

Definition prior_state (op rid : string) (created : string) (d : Db) : option DbDesired :=
  snd <$> head (order_by newer_state (select_where (λ x,
    seqb (ds_resource_id x.2) rid && negb (seqb (ds_operation_id x.2) op)
    && (bool_decide (op_status x.1 = OpSucceeded) || bool_decide (op_status x.1 = OpPartiallyApplied))
    && str_lt (op_created_at x.1) created) (desired_join d))).

Definition rollback_step (op created : string) (d : Db)
    (acc : list ResourceForRouting * list string) (target : DbDesired)
    : ApiResult (list ResourceForRouting * list string) :=
  let '(reverted, orphaned) := acc in
  match prior_state op (ds_resource_id target) created d with
  | None => Ok (reverted, orphaned ++ [ds_resource_id target])
  | Some prior =>
      value ← map_err JsonErr (json_from_str (ds_spec_json prior));
      Ok (reverted ++ [mkRouting (ds_resource_id target) (ds_kind prior) (ds_environment prior)
                         (ds_spec_json prior) (default "" (json_get2 value "metadata" "name" ≫= as_str))
                         (host_selector_of value)], orphaned)
  end.

Definition prepare_rollback (op : string) (d : Db)
    : ApiResult (list ResourceForRouting * list string * string) :=
  row ← ok_or (find_operation op d) NotFound;
  match op_status row with
  | OpSucceeded | OpPartiallyApplied | OpFailed =>
      '(reverted, orphaned) ← try_fold (rollback_step op (op_created_at row) d) ([], [])
        (select_where (λ r, seqb (ds_operation_id r) op) (desired_states d));
      Ok (reverted, orphaned, op_environment row)
  | other =>
      Err (Conflict [Txt "rollback only on terminal operations; current status: ";
                     Txt (operation_status_text other)])
  end.

End Definitions.
