(* ===== verification/Dispatch.v ===== *)
(** * Dispatch and the phased rollout (store.rs)

    How agents claim assignments and report results, and the state machine
    that gates the layers and the canary of an operation and rolls its
    status up. *)

From S2P Require Import Prelude Text Json ApiError Routing Depsort Db AuditLog Canary Operations.
From stdpp Require Import pretty.

#[local] Open Scope string_scope.
#[local] Open Scope list_scope.
#[local] Open Scope nat_scope.
#[local] Open Scope tx_scope.

(** ** Column updates *)

Definition set_asg_status (st : AssignmentStatus) (a : DbAssignment) : DbAssignment :=
  mkAssignment (asg_id a) (asg_agent_id a) (asg_operation_id a) (asg_payload_json a)
    (asg_created_at a) (asg_fetched_at a) (asg_completed_at a) st (asg_kind a)
    (asg_result_json a) (asg_expires_at a) (asg_layer a) (asg_batch a).
Definition set_asg_fetched (st : AssignmentStatus) (t : option string) (a : DbAssignment) : DbAssignment :=
  mkAssignment (asg_id a) (asg_agent_id a) (asg_operation_id a) (asg_payload_json a)
    (asg_created_at a) t (asg_completed_at a) st (asg_kind a)
    (asg_result_json a) (asg_expires_at a) (asg_layer a) (asg_batch a).
Definition set_asg_completed (st : AssignmentStatus) (t : string) (a : DbAssignment) : DbAssignment :=
  mkAssignment (asg_id a) (asg_agent_id a) (asg_operation_id a) (asg_payload_json a)
    (asg_created_at a) (asg_fetched_at a) (Some t) st (asg_kind a)
    (asg_result_json a) (asg_expires_at a) (asg_layer a) (asg_batch a).
Definition set_asg_result (st : AssignmentStatus) (t result : string) (a : DbAssignment) : DbAssignment :=
  mkAssignment (asg_id a) (asg_agent_id a) (asg_operation_id a) (asg_payload_json a)
    (asg_created_at a) (asg_fetched_at a) (Some t) st (asg_kind a)
    (Some result) (asg_expires_at a) (asg_layer a) (asg_batch a).

Definition set_op_running (t : string) (o : DbOperation) : DbOperation :=
  mkOperation (op_id o) (op_kind o) (op_environment o) (op_requested_by o) OpRunning
    (op_source_commit o) (op_summary o) (op_created_at o) (coalesce (op_started_at o) (Some t))
    (op_finished_at o) (op_requires_approval o) (op_approved_by o) (op_approved_at o)
    (op_rejected_by o) (op_rejected_at o) (op_rejection_reason o) (op_approval_reason o)
    (op_matched_policies_json o).
Definition set_op_finished (st : OperationStatus) (t : string) (o : DbOperation) : DbOperation :=
  mkOperation (op_id o) (op_kind o) (op_environment o) (op_requested_by o) st
    (op_source_commit o) (op_summary o) (op_created_at o) (op_started_at o)
    (Some t) (op_requires_approval o) (op_approved_by o) (op_approved_at o)
    (op_rejected_by o) (op_rejected_at o) (op_rejection_reason o) (op_approval_reason o)
    (op_matched_policies_json o).

Definition update_assignments (p : DbAssignment → bool) (f : DbAssignment → DbAssignment) (d : Db) : Db :=
  set_assignments (update_where p f (assignments d)) d.
Definition update_operations (p : DbOperation → bool) (f : DbOperation → DbOperation) (d : Db) : Db :=
  set_operations (update_where p f (operations d)) d.

(** ** Claiming *)

Record AssignmentPayload := mkPayload { payload_resources : list Json }.

Record AssignmentEnvelope := mkEnvelope {
  env_assignment_id : string;
  env_operation_id : string;
  env_kind : string;
  env_created_at : string;
  env_expires_at : option string;
  env_payload : AssignmentPayload;
  env_key_id : string;
  env_signature : string
}.

(** serde's reading of [AssignmentPayload]. *)
Definition payload_of_json (v : Json) : result string AssignmentPayload :=
  match json_get v "resources" with
  | Some (JArray xs) => Ok (mkPayload xs)
  | _ => Err "missing field `resources`"
  end.

(** [status = 'pending' OR (status = 'fetched' AND fetched_at < cutoff)]. *)
Definition claimable (lease_cutoff : string) (a : DbAssignment) : bool :=
  steqb (asg_status a) APending
  || (steqb (asg_status a) AFetched
      && match asg_fetched_at a with Some t => str_lt t lease_cutoff | None => false end).

(** [UPDATE operations SET status = 'running' WHERE id = ? AND status = 'pending']. *)
Definition mark_running (t op : string) (d : Db) : Db :=
  update_operations (λ o, seqb (op_id o) op && bool_decide (op_status o = OpPending)) (set_op_running t) d.

Section Definitions.
Context `{JsonCodec, Sha256}.

Definition fetch_step (t : string) (acc : list AssignmentEnvelope * gset string) (row : DbAssignment)
    : tx (list AssignmentEnvelope * gset string) :=
  let '(out, op_ids_seen) := acc in
  let! payload := tx_lift (v ← map_err JsonErr (json_from_str (asg_payload_json row));
                           map_err JsonErr (payload_of_json v)) in
  let op := asg_operation_id row in
  (if decide (op ∈ op_ids_seen) then tx_ret () else tx_modify (mark_running t op)) ;;
  tx_ret (out ++ [mkEnvelope (asg_id row) op (asg_kind row) (asg_created_at row) (asg_expires_at row)
                    payload "" ""], {[op]} ∪ op_ids_seen).

Definition fetch_pending_assignments (agent_id now lease_cutoff : string) : tx (list AssignmentEnvelope) :=
  let! d := tx_get in
  let p := λ a, seqb (asg_agent_id a) agent_id && claimable lease_cutoff a in
  let rows := select_where p (assignments d) in
  tx_modify (update_assignments p (set_asg_fetched AFetched (Some now))) ;;
  let! '(out, _) := tx_for (fetch_step now) ([], ∅) rows in
  tx_ret (order_by (λ a b, str_le (env_created_at a) (env_created_at b)) out).

Definition claim_ssh_pending (target_ids : list string) (now lease_cutoff : string)
    : tx (option (string * string * string)) :=
  match target_ids with
  | [] => tx_ret None
  | _ =>
      let! d := tx_get in
      match head (order_by (λ a b, str_le (asg_created_at a) (asg_created_at b))
               (select_where (λ a, bool_decide (asg_agent_id a ∈ target_ids) && claimable lease_cutoff a)
                  (assignments d))) with
      | None => tx_ret None
      | Some row =>
          tx_modify (update_assignments (λ a, seqb (asg_id a) (asg_id row))
                       (set_asg_fetched AFetched (Some now))) ;;
          tx_modify (mark_running now (asg_operation_id row)) ;;
          tx_ret (Some (asg_id row, asg_agent_id row, asg_payload_json row))
      end
  end.

Definition revert_assignment_claims (assignment_ids : list string) : tx () :=
  match assignment_ids with
  | [] => tx_ret ()
  | _ =>
      tx_for (λ _ id, tx_modify (update_assignments
        (λ a, seqb (asg_id a) id && steqb (asg_status a) AFetched) (set_asg_fetched APending None)))
        () assignment_ids
  end.

(** ** The rollout state machine *)

(** [SELECT status, COUNT( * ) ... GROUP BY status], read at one status. *)
Definition group_count (p : DbAssignment → bool) (d : Db) (st : AssignmentStatus) : nat :=
  count_if (λ a, p a && steqb (asg_status a) st) (assignments d).

Definition of_op (op : string) (a : DbAssignment) : bool := seqb (asg_operation_id a) op.
Definition at_layer (op : string) (l : Z) (a : DbAssignment) : bool :=
  of_op op a && Z.eqb (asg_layer a) l.
Definition canary_at (op : string) (l : Z) (a : DbAssignment) : bool :=
  at_layer op l a && bool_decide (asg_batch a = Some 0%Z).

Definition distinct_layers (op : string) (st : AssignmentStatus) (d : Db) : list Z :=
  remove_dups (map asg_layer
    (select_where (λ a, of_op op a && steqb (asg_status a) st) (assignments d))).

(** [NOT (layer = ? AND batch = 0)]: with a NULL batch the conjunction is
    NULL when the layer matches, and a row is not updated on NULL. *)
Definition not_canary_at (l : Z) (a : DbAssignment) : bool :=
  match asg_batch a with
  | Some b => negb (Z.eqb (asg_layer a) l && Z.eqb b 0)
  | None => negb (Z.eqb (asg_layer a) l)
  end.

Definition unsettled (st : AssignmentStatus) : bool :=
  match st with
  | APending | AFetched | APendingLayer | APendingCanary => true
  | _ => false
  end.

(** The loop over the waiting layers, which a failed canary leaves early. *)
Fixpoint canary_loop (op now : string) (layers : list Z) (d : Db) : Db :=
  match layers with
  | [] => d
  | layer :: layers =>
      let n := group_count (canary_at op layer) d in
      let still_running := n APending + n AFetched in
      let failed_count := n AFailed + n APartiallyApplied in
      if decide (0 < failed_count) then
        update_assignments
          (λ a, of_op op a && unsettled (asg_status a) && not_canary_at layer a)
          (set_asg_completed ACancelled now) d
      else if decide (0 < still_running) then canary_loop op now layers d
      else
        canary_loop op now layers
          (update_assignments (λ a, at_layer op layer a && steqb (asg_status a) APendingCanary)
             (set_asg_status APending) d)
  end.

Definition advance_canary (op now : string) (d : Db) : Db :=
  canary_loop op now (distinct_layers op APendingCanary d) d.

(** [SELECT MIN(layer) ... status = 'pending_layer']. *)
Definition min_layer (op : string) (d : Db) : option Z :=
  match map asg_layer (select_where (λ a, of_op op a && steqb (asg_status a) APendingLayer)
                         (assignments d)) with
  | [] => None
  | l :: ls => Some (foldl Z.min l ls)
  end.

Definition advance_phased_apply (op now : string) (d : Db) : Db :=
  let d := advance_canary op now d in
  match min_layer op d with
  | None => d
  | Some next_layer =>
      let prev_layer := (next_layer - 1)%Z in
      let n := group_count (at_layer op prev_layer) d in
      let still_running := n APending + n AFetched + n APendingLayer + n APendingCanary in
      let failed_count := n AFailed + n APartiallyApplied in
      if decide (0 < still_running) then d
      else if decide (0 < failed_count) then
        update_assignments (λ a, of_op op a && steqb (asg_status a) APendingLayer)
          (set_asg_completed ACancelled now) d
      else
        update_assignments (λ a, at_layer op next_layer a && steqb (asg_status a) APendingLayer)
          (set_asg_status APending) d
  end.

Definition roll_up_operation (op now : string) (d : Db) : Db :=
  let n := group_count (of_op op) d in
  if decide (0 < n APending + n AFetched + n APendingLayer + n APendingCanary) then d
  else
    let any_failure := 0 <? n AFailed + n APartiallyApplied + n ACancelled in
    let new_status :=
      if any_failure then
        if (0 <? n ASucceeded) || (0 <? n APartiallyApplied) then OpPartiallyApplied else OpFailed
      else OpSucceeded in
    update_operations (λ o, seqb (op_id o) op) (set_op_finished new_status now) d.

(** ** Completion *)

Inductive AssignmentResultStatus := RSucceeded | RPartiallyApplied | RFailed.

Record AssignmentItemResult := mkItemResult {
  item_resource_id : string; item_status : string; item_error : option string }.

Record AssignmentResultRequest := mkResult {
  res_status : AssignmentResultStatus;
  res_summary : option string;
  res_items : list AssignmentItemResult
}.

Definition assignment_status_of_result (r : AssignmentResultStatus) : AssignmentStatus :=
  match r with
  | RSucceeded => ASucceeded | RPartiallyApplied => APartiallyApplied | RFailed => AFailed
  end.

(** [serde_json::to_string(result)]. *)
Definition json_of_result (r : AssignmentResultRequest) : Json :=
  JObject
    [("status", JString (assignment_status_text (assignment_status_of_result (res_status r))));
     ("summary", json_opt (res_summary r));
     ("items", JArray (map (λ i, JObject
        [("resource_id", JString (item_resource_id i)); ("status", JString (item_status i));
         ("error", json_opt (item_error i))]) (res_items r)))].

(** [WHERE id = ? AND agent_id = ? AND status IN ('pending', 'fetched')]. *)
Definition completable (agent_id assignment_id : string) (a : DbAssignment) : bool :=
  seqb (asg_id a) assignment_id && seqb (asg_agent_id a) agent_id
  && (steqb (asg_status a) APending || steqb (asg_status a) AFetched).

Definition complete_assignment_with_extra_audit (agent_id assignment_id : string)
    (result : AssignmentResultRequest) (extra_audit : option AuditRecord)
    (now audit_now extra_now : string) : tx () :=
  let! d := tx_get in
  let! row := tx_lift (ok_or (List.find (completable agent_id assignment_id) (assignments d)) NotFound) in
  let op := asg_operation_id row in
  let result_json := json_to_string (json_of_result result) in
  let status := assignment_status_of_result (res_status result) in
  tx_modify (update_assignments (λ a, seqb (asg_id a) assignment_id)
               (set_asg_result status now result_json)) ;;
  tx_modify (advance_phased_apply op now) ;;
  tx_modify (roll_up_operation op now) ;;
  let severity := match res_status result with RSucceeded => "info" | _ => "warning" end in
  record_audit_on audit_now
    (with_payload (json_object
       [("assignment_id", JString assignment_id); ("status", JString (assignment_status_text status));
        ("item_count", json_nat (length (res_items result))); ("summary", json_opt (res_summary result))])
    (with_agent agent_id (with_operation op (with_severity severity
    (record_new ("agent:" +:+ agent_id) "assignment.completed"))))) ;;
  match extra_audit with
  | Some extra => record_audit_on extra_now extra
  | None => tx_ret ()
  end.

Definition complete_assignment (agent_id assignment_id : string) (result : AssignmentResultRequest)
    (now audit_now : string) : tx () :=
  complete_assignment_with_extra_audit agent_id assignment_id result None now audit_now "".

End Definitions.
