(* ===== verification/Rollout.v ===== *)
(** * The rollout of an operation

    The store's operations as steps of a transition system over the database,
    and the invariants of every state they reach: layers are gated, a
    baseline waits for its canary, an operation's status tells the truth
    about its assignments, and a rollout never waits for nothing. *)

From S2P Require Import Prelude Text Json ApiError Routing Depsort Db AuditLog Canary Operations Dispatch.

#[local] Open Scope string_scope.
#[local] Open Scope list_scope.
#[local] Open Scope nat_scope.

(** ** Rows of one operation *)

Definition in_op (op : string) (L : list DbAssignment) (a : DbAssignment) : Prop :=
  a ∈ L ∧ asg_operation_id a = op.

(** The row left the queue of later layers. *)
Definition started (s : AssignmentStatus) : bool :=
  match s with APendingLayer | ACancelled => false | _ => true end.
(** An agent may be working on the row. *)
Definition in_flight (s : AssignmentStatus) : bool :=
  match s with APending | AFetched => true | _ => false end.
(** The row left the baseline's waiting room. *)
Definition released (s : AssignmentStatus) : bool :=
  match s with APendingCanary | ACancelled => false | _ => true end.
(** The statuses of a canary row: it is dispatched at once and never cancelled. *)
Definition canary_status (s : AssignmentStatus) : bool :=
  match s with APending | AFetched | ASucceeded | APartiallyApplied | AFailed => true | _ => false end.
Definition passed (s : AssignmentStatus) : bool :=
  match s with ASucceeded | ACancelled => true | _ => false end.

Definition is_canary (a : DbAssignment) : Prop := asg_layer a = 0%Z ∧ asg_batch a = Some 0%Z.
Definition is_baseline (a : DbAssignment) : Prop := asg_layer a = 0%Z ∧ asg_batch a = Some 1%Z.

(** The gates between layers and between canary and baseline. *)
Record safe (op : string) (L : list DbAssignment) : Prop := {
  sf_gate : ∀ a b, in_op op L a → in_op op L b → asg_layer a ≠ 0%Z → started (asg_status a) = true →
    asg_layer b = (asg_layer a - 1)%Z → passed (asg_status b) = true;
  sf_layer : ∀ a, in_op op L a → asg_status a = APendingLayer → asg_layer a ≠ 0%Z;
  sf_wait : ∀ a, in_op op L a → asg_status a = APendingCanary → is_baseline a;
  sf_canary_row : ∀ a, in_op op L a → is_canary a → canary_status (asg_status a) = true;
  sf_canary : ∀ a b, in_op op L a → in_op op L b → is_baseline a → released (asg_status a) = true →
    is_canary b → asg_status b = ASucceeded
}.

Definition has_unsettled (op : string) (L : list DbAssignment) : Prop :=
  ∃ a, in_op op L a ∧ unsettled (asg_status a) = true.

(** The operation's status column against its rows. A retention pass may
    delete settled rows: that the outcome is still borne out by a row is part
    of it only while all rows were [kept]. *)
Definition status_ok (kept : Prop) (op : string) (st : OperationStatus) (L : list DbAssignment) : Prop :=
  match st with
  | OpPendingApproval | OpRejected => ∀ a, ¬ in_op op L a
  | OpPending | OpRunning => has_unsettled op L
  | OpSucceeded => ∀ a, in_op op L a → asg_status a = ASucceeded
  | OpFailed => (kept → ∃ a, in_op op L a) ∧
      ∀ a, in_op op L a → asg_status a = AFailed ∨ asg_status a = ACancelled
  | OpPartiallyApplied => ¬ has_unsettled op L ∧
      (kept → ∃ a, in_op op L a ∧ asg_status a ≠ ASucceeded) ∧
      (kept → ∃ a, in_op op L a ∧ (asg_status a = ASucceeded ∨ asg_status a = APartiallyApplied))
  end.

(** Something is in flight, or nothing was ever dispatched because the
    operation has no row at layer 0. *)
Definition progress (op : string) (L : list DbAssignment) : Prop :=
  has_unsettled op L →
  (∃ a, in_op op L a ∧ in_flight (asg_status a) = true) ∨
  (∀ a, in_op op L a → asg_status a = APendingLayer ∧ asg_layer a ≠ 0%Z).

Record op_inv (kept : Prop) (op : string) (st : OperationStatus) (L : list DbAssignment) : Prop := {
  oi_safe : safe op L;
  oi_status : status_ok kept op st L;
  oi_progress : progress op L
}.

Record Inv (kept : Prop) (d : Db) : Prop := {
  inv_op_ids : NoDup (map op_id (operations d));
  inv_asg_ids : NoDup (map asg_id (assignments d));
  inv_owner : ∀ a, a ∈ assignments d → asg_operation_id a ∈ map op_id (operations d);
  inv_ops : ∀ o, o ∈ operations d → op_inv kept (op_id o) (op_status o) (assignments d)
}.

#[global] Arguments oi_safe {kept} op st L _.
#[global] Arguments oi_status {kept} op st L _.
#[global] Arguments oi_progress {kept} op st L _.
#[global] Arguments inv_op_ids {kept} d _.
#[global] Arguments inv_asg_ids {kept} d _.
#[global] Arguments inv_owner {kept} d _ a _.
#[global] Arguments inv_ops {kept} d _ o _.

(** Whatever is known of the rows that were deleted. *)
Section Kept.
Context {kept : Prop}.

(** ** Extensionality *)

Lemma safe_ext op L L' :
  (∀ a, in_op op L a ↔ in_op op L' a) → safe op L → safe op L'.
Proof.
  intros Hx [H1 H0 H2 H3 H4].
  split; [intros a b Ha%Hx Hb%Hx|intros a Ha%Hx|intros a Ha%Hx|intros a Ha%Hx|intros a b Ha%Hx Hb%Hx]; eauto.
Qed.

Lemma has_unsettled_ext op L L' :
  (∀ a, in_op op L a ↔ in_op op L' a) → has_unsettled op L → has_unsettled op L'.
Proof. intros Hx (a & Ha & Hu). exists a. by rewrite <- Hx. Qed.

Lemma op_inv_ext op st L L' :
  (∀ a, in_op op L a ↔ in_op op L' a) → op_inv kept op st L → op_inv kept op st L'.
Proof.
  intros Hx [Hs Ht Hp].
  assert (has_unsettled op L' → has_unsettled op L) as Hback
    by (apply has_unsettled_ext; intros a; by rewrite Hx).
  split; [by eapply safe_ext| |].
  - destruct st; cbn in *; try (by eapply has_unsettled_ext); try (intros a Ha%Hx; by apply (Ht a)).
    + destruct Ht as (Hn & Ha & Hb). split_and!; [by eauto|intros k; destruct (Ha k) as (a & ?%Hx & ?)|
        intros k; destruct (Hb k) as (b & ?%Hx & ?)]; eauto.
    + destruct Ht as [Hex Ht]. split; [intros k; destruct (Hex k) as [a Ha%Hx]; by eexists|].
      intros b Hb%Hx. by apply Ht.
  - intros Hu%Hback. destruct (Hp Hu) as [(a & Ha%Hx & ?)|Hall]; [left; eauto|].
    right. intros a Ha%Hx. by apply Hall.
Qed.

(** ** Pointwise transitions *)

(** A change of one row that keeps its place and what it gates. *)
Record mild (a a' : DbAssignment) : Prop := {
  ml_op : asg_operation_id a' = asg_operation_id a;
  ml_layer : asg_layer a' = asg_layer a;
  ml_batch : asg_batch a' = asg_batch a;
  ml_started : started (asg_status a') = true → started (asg_status a) = true;
  ml_passed : passed (asg_status a) = true → asg_status a' = asg_status a;
  ml_layered : asg_status a' = APendingLayer → asg_status a = APendingLayer;
  ml_waiting : asg_status a' = APendingCanary → asg_status a = APendingCanary;
  ml_released : released (asg_status a') = true → released (asg_status a) = true;
  ml_canary : is_canary a → canary_status (asg_status a) = true → canary_status (asg_status a') = true
}.

Lemma mild_refl a : mild a a.
Proof. by split. Qed.

Lemma in_op_update op p f L a' :
  (∀ a, asg_operation_id (f a) = asg_operation_id a) →
  in_op op (update_where p f L) a' ↔ ∃ a, in_op op L a ∧ a' = (if p a then f a else a).
Proof.
  intros Hf. unfold in_op. rewrite elem_of_update_where. split.
  - intros [(a & Ha & ->) Hop]. exists a. split; [|done]. split; [done|].
    destruct (p a); [by rewrite <- Hop, Hf|done].
  - intros (a & [Ha Hop] & ->). split; [eauto|]. destruct (p a); [by rewrite Hf|done].
Qed.

Lemma safe_mild op p f L :
  (∀ a, asg_operation_id (f a) = asg_operation_id a) →
  (∀ a, in_op op L a → p a = true → mild a (f a)) →
  safe op L → safe op (update_where p f L).
Proof.
  intros Hf Hm [H1 H0 H2 H3 H4].
  assert (∀ a', in_op op (update_where p f L) a' → ∃ a, in_op op L a ∧ mild a a') as Hback.
  { intros a' (a & Ha & ->)%in_op_update; [|done]. exists a. split; [done|].
    destruct (p a) eqn:E; [by apply Hm|apply mild_refl]. }
  split.
  - intros a' b' (a & Ha & Ma)%Hback (b & Hb & Mb)%Hback Hl Hs Hbl.
    rewrite (ml_layer _ _ Ma) in *. rewrite (ml_layer _ _ Mb) in Hbl.
    pose proof (H1 a b Ha Hb Hl (ml_started _ _ Ma Hs) Hbl) as Hp.
    by rewrite (ml_passed _ _ Mb Hp).
  - intros a' (a & Ha & Ma)%Hback Hw. rewrite (ml_layer _ _ Ma).
    apply H0; [done|]. by apply (ml_layered _ _ Ma).
  - intros a' (a & Ha & Ma)%Hback Hw. destruct (H2 a Ha (ml_waiting _ _ Ma Hw)) as [Hl Hb].
    split; [by rewrite (ml_layer _ _ Ma)|by rewrite (ml_batch _ _ Ma)].
  - intros a' (a & Ha & Ma)%Hback [Hl Hb]. rewrite (ml_layer _ _ Ma) in Hl.
    rewrite (ml_batch _ _ Ma) in Hb. apply (ml_canary _ _ Ma); [done|]. by apply H3.
  - intros a' b' (a & Ha & Ma)%Hback (b & Hb & Mb)%Hback [Hl Hbt] Hr [Hl' Hbt'].
    rewrite (ml_layer _ _ Ma) in Hl. rewrite (ml_batch _ _ Ma) in Hbt.
    rewrite (ml_layer _ _ Mb) in Hl'. rewrite (ml_batch _ _ Mb) in Hbt'.
    pose proof (H4 a b Ha Hb (conj Hl Hbt) (ml_released _ _ Ma Hr) (conj Hl' Hbt')) as Hst.
    rewrite (ml_passed _ _ Mb) by by rewrite Hst. done.
Qed.

(** ** Counting *)

Lemma group_count_pos p d st :
  0 < group_count p d st ↔ ∃ a, a ∈ assignments d ∧ p a = true ∧ asg_status a = st.
Proof.
  unfold group_count. rewrite count_if_pos. setoid_rewrite andb_true_iff.
  by setoid_rewrite steqb_true.
Qed.

Lemma group_count_0 p d st :
  group_count p d st = 0 ↔ ∀ a, a ∈ assignments d → p a = true → asg_status a ≠ st.
Proof.
  pose proof (group_count_pos p d st) as H. split.
  - intros H0 a Ha Hp Hs. enough (0 < group_count p d st) by lia. apply H. eauto.
  - intros Hn. destruct (decide (group_count p d st = 0)) as [|Hne]; [done|].
    destruct (proj1 H) as (a & Ha & Hp & Hs); [lia|]. by destruct (Hn a Ha Hp).
Qed.

Lemma at_layer_true op l a : at_layer op l a = true ↔ asg_operation_id a = op ∧ asg_layer a = l.
Proof. unfold at_layer, of_op. by rewrite andb_true_iff, seqb_true, Z.eqb_eq. Qed.

Lemma canary_at_true op l a :
  canary_at op l a = true ↔ asg_operation_id a = op ∧ asg_layer a = l ∧ asg_batch a = Some 0%Z.
Proof. unfold canary_at. rewrite andb_true_iff, at_layer_true, bool_decide_eq_true. tauto. Qed.

(** ** Updates confined to one operation *)

(** What every step of the state machine of [op] leaves alone. *)
Record confined (op : string) (d d' : Db) : Prop := {
  cf_ops : operations d' = operations d;
  cf_ids : map asg_id (assignments d') = map asg_id (assignments d);
  cf_owners : map asg_operation_id (assignments d') = map asg_operation_id (assignments d);
  cf_frame : ∀ op', op' ≠ op → ∀ a, in_op op' (assignments d) a ↔ in_op op' (assignments d') a;
  cf_settled : ∀ a, a ∈ assignments d → unsettled (asg_status a) = false → a ∈ assignments d'
}.

Lemma confined_refl op d : confined op d d.
Proof. by split. Qed.

Lemma confined_trans op d1 d2 d3 : confined op d1 d2 → confined op d2 d3 → confined op d1 d3.
Proof.
  intros [H1 H2 H3 H4 H5] [H1' H2' H3' H4' H5']. split; [congruence..| |eauto].
  intros op' Hne a. by rewrite (H4 op' Hne), (H4' op' Hne).
Qed.

Lemma confined_update op p f d :
  (∀ a, asg_id (f a) = asg_id a) → (∀ a, asg_operation_id (f a) = asg_operation_id a) →
  (∀ a, a ∈ assignments d → p a = true → asg_operation_id a = op ∧ unsettled (asg_status a) = true) →
  confined op d (update_assignments p f d).
Proof.
  intros Hid Hop Hp. split; cbn; [done|by apply update_where_column..| |].
  2: { intros a Ha Hu. apply elem_of_update_where. exists a. split; [done|].
       destruct (p a) eqn:E; [|done]. destruct (Hp a Ha E). congruence. }
  intros op' Hne a. rewrite in_op_update by done. split.
  - intros Ha. exists a. split; [done|]. destruct (p a) eqn:E; [|done].
    destruct Ha as [Ha Hopa]. exfalso. apply Hne. rewrite <- Hopa. by apply Hp.
  - intros (a0 & Ha0 & ->). destruct (p a0) eqn:E; [|done]. destruct Ha0 as [Ha Hopa].
    exfalso. apply Hne. rewrite <- Hopa. by apply Hp.
Qed.

(** ** The canary gate *)

Lemma distinct_layers_spec op st d l :
  l ∈ distinct_layers op st d ↔ ∃ a, in_op op (assignments d) a ∧ asg_status a = st ∧ asg_layer a = l.
Proof.
  unfold distinct_layers. rewrite elem_of_remove_dups, list_elem_of_In, in_map_iff. split.
  - intros (a & <- & Ha). apply list_elem_of_In, elem_of_List_filter in Ha as [Ha Hp].
    apply andb_true_iff in Hp as [Hop Hst]. exists a. unfold in_op. unfold of_op in Hop.
    by rewrite seqb_true in Hop; rewrite steqb_true in Hst.
  - intros (a & [Ha Hop] & Hst & Hl). exists a. split; [done|].
    apply list_elem_of_In, elem_of_List_filter. split; [done|]. unfold of_op.
    by rewrite andb_true_iff, seqb_true, steqb_true.
Qed.

Lemma waiting_layers op d :
  safe op (assignments d) →
  (distinct_layers op APendingCanary d = [] ∧
     ∀ a, in_op op (assignments d) a → asg_status a ≠ APendingCanary) ∨
  distinct_layers op APendingCanary d = [0%Z].
Proof.
  intros Hs.
  assert (∀ l, l ∈ distinct_layers op APendingCanary d → l = 0%Z) as H0.
  { intros l (a & Ha & Hst & <-)%distinct_layers_spec. by destruct (sf_wait _ _ Hs a Ha Hst). }
  pose proof (NoDup_remove_dups (map asg_layer (select_where
    (λ a, of_op op a && steqb (asg_status a) APendingCanary) (assignments d)))) as Hnd.
  fold (distinct_layers op APendingCanary d) in Hnd.
  destruct (distinct_layers op APendingCanary d) as [|l ls] eqn:E.
  - left. split; [done|]. intros a Ha Hst.
    assert (asg_layer a ∈ distinct_layers op APendingCanary d) as Hin by (apply distinct_layers_spec; eauto).
    rewrite E in Hin. by apply elem_of_nil in Hin.
  - right. rewrite (H0 l) in * by left. destruct ls as [|l' ls]; [done|].
    rewrite (H0 l') in * by (right; left). apply NoDup_cons in Hnd as [Hn _]. exfalso. apply Hn. left.
Qed.

(** The three outcomes of the canary gate. *)
Inductive canary_outcome (op now : string) (d : Db) : Db → Prop :=
| co_settled : (∀ a, in_op op (assignments d) a → asg_status a ≠ APendingCanary) →
    canary_outcome op now d d
| co_wait a : in_op op (assignments d) a → in_flight (asg_status a) = true →
    canary_outcome op now d d
| co_abort b : in_op op (assignments d) b → is_canary b →
    asg_status b = AFailed ∨ asg_status b = APartiallyApplied →
    canary_outcome op now d (update_assignments
      (λ a, of_op op a && unsettled (asg_status a) && not_canary_at 0 a) (set_asg_completed ACancelled now) d)
| co_release a : in_op op (assignments d) a → asg_status a = APendingCanary →
    (∀ b, in_op op (assignments d) b → is_canary b → asg_status b = ASucceeded) →
    canary_outcome op now d (update_assignments
      (λ a, at_layer op 0 a && steqb (asg_status a) APendingCanary) (set_asg_status APending) d).

Lemma canary_outcome_ok op now d :
  safe op (assignments d) → canary_outcome op now d (advance_canary op now d).
Proof.
  intros Hs. unfold advance_canary. destruct (waiting_layers op d Hs) as [[-> Hn]|Hw]; [by constructor|].
  rewrite Hw. cbn [canary_loop]. assert (0%Z ∈ distinct_layers op APendingCanary d) as Hin
    by (rewrite Hw; left).
  apply distinct_layers_spec in Hin as (w & Hw1 & Hw2 & _).
  case_decide as Hf; [|case_decide as Hr].
  - assert (0 < group_count (canary_at op 0) d AFailed ∨ 0 < group_count (canary_at op 0) d APartiallyApplied)
      as [H|H] by lia; apply group_count_pos in H as (b & Hb & Hp & Hst);
      apply canary_at_true in Hp as (Hop & Hl & Hbt); apply (co_abort _ _ _ b); by (split || auto).
  - assert (0 < group_count (canary_at op 0) d APending ∨ 0 < group_count (canary_at op 0) d AFetched)
      as [H|H] by lia; apply group_count_pos in H as (b & Hb & Hp & Hst);
      apply canary_at_true in Hp as (Hop & Hl & Hbt);
      apply (co_wait _ _ _ b); [by split|by rewrite Hst|by split|by rewrite Hst].
  - eapply co_release; [done|done|]. intros b [Hb Hop] Hc.
    pose proof (sf_canary_row _ _ Hs b (conj Hb Hop) Hc) as Hst.
    assert (canary_at op 0 b = true) as Hp by (destruct Hc; by apply canary_at_true).
    assert (∀ st, group_count (canary_at op 0) d st = 0 → asg_status b ≠ st) as Hz
      by (intros st H0; by apply (proj1 (group_count_0 _ _ _) H0)).
    destruct (asg_status b) eqn:E; try discriminate; try done; exfalso;
      [apply (Hz APending)|apply (Hz AFetched)|apply (Hz APartiallyApplied)|apply (Hz AFailed)]; (lia || done).
Qed.

Lemma safe_cancel op now d :
  safe op (assignments d) →
  safe op (assignments (update_assignments
    (λ a, of_op op a && unsettled (asg_status a) && not_canary_at 0 a) (set_asg_completed ACancelled now) d)).
Proof.
  intros Hs. apply safe_mild; [done| |done]. intros a Ha Hp.
  apply andb_true_iff in Hp as [Hp Hn]. apply andb_true_iff in Hp as [_ Hu].
  split; cbn; try done.
  - by destruct (asg_status a).
  - intros [Hl Hb]. unfold not_canary_at in Hn. rewrite Hl, Hb in Hn. done.
Qed.

Lemma safe_release op d :
  (∀ b, in_op op (assignments d) b → is_canary b → asg_status b = ASucceeded) →
  safe op (assignments d) →
  safe op (assignments (update_assignments
    (λ a, at_layer op 0 a && steqb (asg_status a) APendingCanary) (set_asg_status APending) d)).
Proof.
  intros Hc [H1 H0 H2 H3 H4].
  assert (∀ a', in_op op (update_where (λ a, at_layer op 0 a && steqb (asg_status a) APendingCanary)
                  (set_asg_status APending) (assignments d)) a' →
    in_op op (assignments d) a' ∧ ¬ (asg_layer a' = 0%Z ∧ asg_status a' = APendingCanary) ∨
    ∃ a, in_op op (assignments d) a ∧ a' = set_asg_status APending a ∧ asg_status a = APendingCanary ∧
         asg_layer a = 0%Z) as Hback.
  { intros a' (a & Ha & ->)%in_op_update; [|done]. destruct (_ && _) eqn:E.
    - right. apply andb_true_iff in E as [E1 E2]. apply at_layer_true in E1 as [_ E1].
      apply steqb_true in E2. eauto.
    - left. split; [done|]. intros [Hl Hst]. apply andb_false_iff in E as [E|E].
      + assert (at_layer op 0 a = true) by (apply at_layer_true; split; [by destruct Ha|done]). congruence.
      + assert (steqb (asg_status a) APendingCanary = true) by by apply steqb_true. congruence. }
  split; cbn.
  - intros a' b' [[Ha _]|(a & Ha & -> & Hsa & Hla)]%Hback [[Hb _]|(b & Hb & -> & Hsb & Hlb)]%Hback; cbn; intros Hl Hst Hbl.
    + by apply (H1 a' b').
    + pose proof (H1 a' b Ha Hb Hl Hst Hbl) as Hp. by rewrite Hsb in Hp.
    + done.
    + done.
  - intros a' [[Ha _]|(a & Ha & -> & Hsa & Hla)]%Hback; cbn; [by apply H0|done].
  - intros a' [[Ha _]|(a & Ha & -> & Hsa & Hla)]%Hback; cbn; [by apply H2|done].
  - intros a' [[Ha _]|(a & Ha & -> & Hsa & Hla)]%Hback; cbn; [by apply H3|done].
  - intros a' b' [[Ha _]|(a & Ha & -> & Hsa & Hla)]%Hback [[Hb _]|(b & Hb & -> & Hsb & Hlb)]%Hback; cbn; intros Hba Hr Hcb.
    + by apply (H4 a' b').
    + exfalso. destruct (H2 b Hb Hsb) as [_ Hbb]. destruct Hcb as [_ Hcb]. cbn in Hcb. congruence.
    + by apply Hc.
    + exfalso. destruct (H2 b Hb Hsb) as [_ Hbb]. destruct Hcb as [_ Hcb]. cbn in Hcb. congruence.
Qed.

(** ** The layer gate *)

Lemma foldl_min_spec ls l :
  foldl Z.min l ls ∈ l :: ls ∧ ∀ x, x ∈ l :: ls → (foldl Z.min l ls ≤ x)%Z.
Proof.
  revert l; induction ls as [|y ls IH]; intros l; cbn.
  - split; [left|]. intros x ->%list_elem_of_singleton. lia.
  - destruct (IH (Z.min l y)) as [Hin Hle]. split.
    + apply elem_of_cons in Hin as [->|Hin]; [|by right; right].
      destruct (Z.min_spec l y) as [[_ ->]|[_ ->]]; [left|right; left].
    + intros x [->|[->|Hx]%elem_of_cons]%elem_of_cons.
      * specialize (Hle (Z.min l y) ltac:(left)). lia.
      * specialize (Hle (Z.min l y) ltac:(left)). lia.
      * apply Hle. by right.
Qed.

Lemma pending_layer_rows op d a :
  a ∈ select_where (λ a, of_op op a && steqb (asg_status a) APendingLayer) (assignments d) ↔
  in_op op (assignments d) a ∧ asg_status a = APendingLayer.
Proof.
  unfold select_where, in_op, of_op.
  rewrite elem_of_List_filter, andb_true_iff, seqb_true, steqb_true. tauto.
Qed.

Lemma min_layer_None op d :
  min_layer op d = None → ∀ a, in_op op (assignments d) a → asg_status a ≠ APendingLayer.
Proof.
  unfold min_layer. intros Hm a Ha Hst. pose proof (proj2 (pending_layer_rows op d a) (conj Ha Hst)) as Hin.
  destruct (select_where _ _); [by apply elem_of_nil in Hin|done].
Qed.

Lemma min_layer_Some op d l :
  min_layer op d = Some l →
  (∃ a, in_op op (assignments d) a ∧ asg_status a = APendingLayer ∧ asg_layer a = l) ∧
  ∀ a, in_op op (assignments d) a → asg_status a = APendingLayer → (l ≤ asg_layer a)%Z.
Proof.
  unfold min_layer. pose proof (pending_layer_rows op d) as Hrows.
  destruct (select_where _ _) as [|r rs]; cbn [map]; [done|]. intros [= <-].
  destruct (foldl_min_spec (map asg_layer rs) (asg_layer r)) as [Hin Hle]. split.
  - change (asg_layer r :: map asg_layer rs) with (map asg_layer (r :: rs)) in Hin.
    apply list_elem_of_In, in_map_iff in Hin as (a & <- & Ha%list_elem_of_In).
    apply Hrows in Ha as [? ?]. eauto.
  - intros a Ha Hst. apply Hle. change (asg_layer r :: map asg_layer rs) with (map asg_layer (r :: rs)).
    apply list_elem_of_In, in_map_iff. exists a. split; [done|]. by apply list_elem_of_In, Hrows.
Qed.

(** The outcomes of the layer gate. *)
Inductive layer_outcome (op now : string) (d : Db) : Db → Prop :=
| lo_settled : (∀ a, in_op op (assignments d) a → asg_status a ≠ APendingLayer) →
    layer_outcome op now d d
| lo_wait l a : in_op op (assignments d) a → unsettled (asg_status a) = true → asg_layer a = (l - 1)%Z →
    (∀ b, in_op op (assignments d) b → asg_status b = APendingLayer → (l ≤ asg_layer b)%Z) →
    layer_outcome op now d d
| lo_abort : layer_outcome op now d (update_assignments
      (λ a, of_op op a && steqb (asg_status a) APendingLayer) (set_asg_completed ACancelled now) d)
| lo_promote l a : in_op op (assignments d) a → asg_status a = APendingLayer → asg_layer a = l →
    (∀ b, in_op op (assignments d) b → asg_layer b = (l - 1)%Z → passed (asg_status b) = true) →
    layer_outcome op now d (update_assignments
      (λ a, at_layer op l a && steqb (asg_status a) APendingLayer) (set_asg_status APending) d).

Lemma at_layer_count op l d st :
  group_count (at_layer op l) d st = 0 →
  ∀ b, in_op op (assignments d) b → asg_layer b = l → asg_status b ≠ st.
Proof.
  intros H0 b [Hb Hop] Hl. apply (proj1 (group_count_0 _ _ _) H0); [done|]. by apply at_layer_true.
Qed.

Definition layer_gate (op now : string) (d : Db) : Db :=
  match min_layer op d with
  | None => d
  | Some next_layer =>
      let n := group_count (at_layer op (next_layer - 1)) d in
      if decide (0 < n APending + n AFetched + n APendingLayer + n APendingCanary) then d
      else if decide (0 < n AFailed + n APartiallyApplied) then
        update_assignments (λ a, of_op op a && steqb (asg_status a) APendingLayer)
          (set_asg_completed ACancelled now) d
      else
        update_assignments (λ a, at_layer op next_layer a && steqb (asg_status a) APendingLayer)
          (set_asg_status APending) d
  end.

Lemma advance_phased_apply_gates op now d :
  advance_phased_apply op now d = layer_gate op now (advance_canary op now d).
Proof. done. Qed.

Lemma layer_outcome_ok op now d : layer_outcome op now d (layer_gate op now d).
Proof.
  unfold layer_gate. destruct (min_layer op d) as [l|] eqn:Hm.
  - apply min_layer_Some in Hm as [(a & Ha & Hst & Hl) Hmin]. cbv zeta.
    pose proof (at_layer_count op (l - 1) d) as Hz.
    set (n := group_count (at_layer op (l - 1)) d) in *.
    case_decide as Hr; [|case_decide as Hf].
    + assert (∃ st, unsettled st = true ∧ 0 < n st) as (st & Hu & Hc).
      { destruct (decide (0 < n APending)); [by exists APending|].
        destruct (decide (0 < n AFetched)); [by exists AFetched|].
        destruct (decide (0 < n APendingLayer)); [by exists APendingLayer|].
        exists APendingCanary. split; [done|lia]. }
      apply group_count_pos in Hc as (b & Hb & Hp & Hsb). apply at_layer_true in Hp as [Hop Hlb].
      apply (lo_wait _ _ _ l b); [by split|by rewrite Hsb|done|done].
    + constructor.
    + apply (lo_promote _ _ _ l a); [done..|]. intros b Hb Hlb.
      destruct (asg_status b) eqn:E; try done; exfalso;
        [apply (Hz APending ltac:(lia) b)|apply (Hz AFetched ltac:(lia) b)|
         apply (Hz APendingLayer ltac:(lia) b)|apply (Hz APendingCanary ltac:(lia) b)|
         apply (Hz APartiallyApplied ltac:(lia) b)|apply (Hz AFailed ltac:(lia) b)]; done.
  - constructor. by apply min_layer_None.
Qed.

Lemma safe_layer_abort op now d :
  safe op (assignments d) →
  safe op (assignments (update_assignments
    (λ a, of_op op a && steqb (asg_status a) APendingLayer) (set_asg_completed ACancelled now) d)).
Proof.
  intros Hs. apply safe_mild; [done| |done]. intros a Ha Hp.
  apply andb_true_iff in Hp as [_ Hp]. apply steqb_true in Hp.
  split; cbn; try done; rewrite Hp; done.
Qed.

Lemma safe_promote op l d :
  (∀ b, in_op op (assignments d) b → asg_layer b = (l - 1)%Z → passed (asg_status b) = true) →
  safe op (assignments d) →
  safe op (assignments (update_assignments
    (λ a, at_layer op l a && steqb (asg_status a) APendingLayer) (set_asg_status APending) d)).
Proof.
  intros Hpass [H1 H0 H2 H3 H4].
  assert (∀ a', in_op op (update_where (λ a, at_layer op l a && steqb (asg_status a) APendingLayer)
                  (set_asg_status APending) (assignments d)) a' →
    in_op op (assignments d) a' ∨
    ∃ a, in_op op (assignments d) a ∧ a' = set_asg_status APending a ∧ asg_status a = APendingLayer ∧
         asg_layer a = l) as Hback.
  { intros a' (a & Ha & ->)%in_op_update; [|done]. destruct (_ && _) eqn:E; [|by left].
    right. apply andb_true_iff in E as [E1 E2]. apply at_layer_true in E1 as [_ E1].
    apply steqb_true in E2. eauto. }
  split; cbn.
  - intros a' b' [Ha|(a & Ha & -> & Hsa & Hla)]%Hback [Hb|(b & Hb & -> & Hsb & Hlb)]%Hback; cbn; intros Hl Hst Hbl.
    + by apply (H1 a' b').
    + pose proof (H1 a' b Ha Hb Hl Hst Hbl) as Hp. by rewrite Hsb in Hp.
    + apply Hpass; [done|lia].
    + exfalso. pose proof (Hpass b Hb ltac:(lia)) as Hp. by rewrite Hsb in Hp.
  - intros a' [Ha|(a & Ha & -> & Hsa & Hla)]%Hback; cbn; [by apply H0|done].
  - intros a' [Ha|(a & Ha & -> & Hsa & Hla)]%Hback; cbn; [by apply H2|done].
  - intros a' [Ha|(a & Ha & -> & Hsa & Hla)]%Hback; cbn; [by apply H3|done].
  - intros a' b' [Ha|(a & Ha & -> & Hsa & Hla)]%Hback [Hb|(b & Hb & -> & Hsb & Hlb)]%Hback; cbn; intros Hba Hr Hcb.
    + by apply (H4 a' b').
    + exfalso. pose proof (H3 b Hb Hcb) as Hc. by rewrite Hsb in Hc.
    + apply (H4 a b'); [done|done|done|by rewrite Hsa|done].
    + exfalso. pose proof (H3 b Hb Hcb) as Hc. by rewrite Hsb in Hc.
Qed.

(** ** One advance of the state machine *)

Definition flying (op : string) (d : Db) : Prop :=
  ∃ a, in_op op (assignments d) a ∧ in_flight (asg_status a) = true.
Definition no_waiting (op : string) (d : Db) : Prop :=
  ∀ a, in_op op (assignments d) a → asg_status a ≠ APendingCanary.

Lemma canary_outcome_spec op now d d' :
  safe op (assignments d) → canary_outcome op now d d' →
  confined op d d' ∧ safe op (assignments d') ∧ (flying op d' ∨ no_waiting op d').
Proof.
  intros Hs [Hn|a Ha Hf|b Hb Hc Hst|a Ha Hst Hall].
  - split_and!; [apply confined_refl|done|by right].
  - split_and!; [apply confined_refl|done|left; by exists a].
  - split_and!; [|by apply safe_cancel|].
    + apply confined_update; [done..|]. intros a Ha Hp. apply andb_true_iff in Hp as [Hp _].
      apply andb_true_iff in Hp as [Hp Hu]. by apply seqb_true in Hp.
    + right. intros a' (a & Ha & ->)%in_op_update; [|done]. destruct (_ && _) eqn:E; [done|].
      intros Hw. destruct (sf_wait _ _ Hs a Ha Hw) as [Hl Hbt].
      unfold of_op, not_canary_at in E. rewrite Hw, Hl, Hbt in E. destruct Ha as [_ Hop].
      by rewrite (proj2 (seqb_true _ _) Hop) in E.
  - split_and!; [|by apply safe_release|].
    + apply confined_update; [done..|]. intros a1 Ha1 Hp. apply andb_true_iff in Hp as [Hp Hq].
      apply at_layer_true in Hp as [Hop _]. apply steqb_true in Hq. by rewrite Hq.
    + left. exists (set_asg_status APending a). split; [|done]. apply in_op_update; [done|].
      exists a. split; [done|]. destruct (sf_wait _ _ Hs a Ha Hst) as [Hl _]. destruct Ha as [_ Hop].
      rewrite (proj2 (at_layer_true op 0 a) (conj Hop Hl)).
      by rewrite (proj2 (steqb_true _ _) Hst).
Qed.

Lemma layer_outcome_spec op now d d' :
  safe op (assignments d) → flying op d ∨ no_waiting op d → layer_outcome op now d d' →
  confined op d d' ∧ safe op (assignments d') ∧ (has_unsettled op (assignments d') → flying op d').
Proof.
  intros Hs Hfw Ho.
  assert (∀ a, in_op op (assignments d) a → unsettled (asg_status a) = true →
            asg_status a ≠ APendingLayer → flying op d) as Hfly.
  { intros a Ha Hu Hl. destruct Hfw as [|Hw]; [done|]. exists a. split; [done|].
    specialize (Hw a Ha). by destruct (asg_status a). }
  destruct Ho as [Hn|l a Ha Hu Hl Hmin| |l a Ha Hst Hl Hpass].
  - split_and!; [apply confined_refl|done|]. intros (a & Ha & Hu). by apply (Hfly a); [..|apply Hn].
  - split_and!; [apply confined_refl|done|]. intros _. apply (Hfly a); [done..|].
    intros Hpl. specialize (Hmin a Ha Hpl). lia.
  - split_and!; [|by apply safe_layer_abort|].
    + apply confined_update; [done..|]. intros a Ha Hp. apply andb_true_iff in Hp as [Hp Hq].
      apply seqb_true in Hp. apply steqb_true in Hq. by rewrite Hq.
    + intros (a' & (a & Ha & ->)%in_op_update & Hu); [|done].
      destruct (of_op op a && steqb (asg_status a) APendingLayer) eqn:E; [done|].
      assert (flying op d) as (b & Hb & Hf).
      { apply (Hfly a Ha Hu). intros Hpl. destruct Ha as [_ Hop]. unfold of_op in E.
        by rewrite (proj2 (seqb_true _ _) Hop), Hpl in E. }
      exists b. split; [|done]. apply in_op_update; [done|]. exists b. split; [done|].
      destruct (asg_status b) eqn:Hsb; try done; unfold steqb; rewrite bool_decide_eq_false_2, andb_false_r by done; done.
  - split_and!; [|by apply safe_promote|].
    + apply confined_update; [done..|]. intros a1 Ha1 Hp. apply andb_true_iff in Hp as [Hp Hq].
      apply at_layer_true in Hp as [Hop _]. apply steqb_true in Hq. by rewrite Hq.
    + intros _. exists (set_asg_status APending a). split; [|done]. apply in_op_update; [done|].
      exists a. split; [done|]. destruct Ha as [_ Hop].
      rewrite (proj2 (at_layer_true op l a) (conj Hop Hl)).
      by rewrite (proj2 (steqb_true _ _) Hst).
Qed.

Lemma advance_spec op now d :
  safe op (assignments d) →
  confined op d (advance_phased_apply op now d) ∧ safe op (assignments (advance_phased_apply op now d)) ∧
  (has_unsettled op (assignments (advance_phased_apply op now d)) →
   flying op (advance_phased_apply op now d)).
Proof.
  intros Hs. rewrite advance_phased_apply_gates.
  destruct (canary_outcome_spec op now d _ Hs (canary_outcome_ok op now d Hs)) as (Hc & Hs1 & Hfw).
  destruct (layer_outcome_spec op now _ _ Hs1 Hfw (layer_outcome_ok op now _)) as (Hc2 & Hs2 & Hf).
  split_and!; [by eapply confined_trans|done|done].
Qed.

(** ** Roll-up *)

Lemma of_op_count op d st :
  0 < group_count (of_op op) d st ↔ ∃ a, in_op op (assignments d) a ∧ asg_status a = st.
Proof.
  rewrite group_count_pos. unfold in_op, of_op. setoid_rewrite seqb_true. firstorder.
Qed.

(** Every count of the roll-up, read back as a statement on the rows. *)
Lemma of_op_count_0 op d st :
  group_count (of_op op) d st = 0 → ∀ a, in_op op (assignments d) a → asg_status a ≠ st.
Proof. intros H0 a Ha Hst. assert (0 < group_count (of_op op) d st); [|lia]. apply of_op_count. eauto. Qed.

Definition rolled_status (op : string) (d : Db) : OperationStatus :=
  let n := group_count (of_op op) d in
  if 0 <? n AFailed + n APartiallyApplied + n ACancelled then
    if (0 <? n ASucceeded) || (0 <? n APartiallyApplied) then OpPartiallyApplied else OpFailed
  else OpSucceeded.

Lemma roll_up_cases op now d :
  (has_unsettled op (assignments d) ∧ roll_up_operation op now d = d) ∨
  (¬ has_unsettled op (assignments d) ∧
   roll_up_operation op now d =
     update_operations (λ o, seqb (op_id o) op) (set_op_finished (rolled_status op d) now) d).
Proof.
  unfold roll_up_operation. case_decide as Hp.
  - left. split; [|done]. unfold has_unsettled.
    assert (∃ st, unsettled st = true ∧ 0 < group_count (of_op op) d st) as (st & Hu & Hc).
    { destruct (decide (0 < group_count (of_op op) d APending)); [by exists APending|].
      destruct (decide (0 < group_count (of_op op) d AFetched)); [by exists AFetched|].
      destruct (decide (0 < group_count (of_op op) d APendingLayer)); [by exists APendingLayer|].
      exists APendingCanary. split; [done|lia]. }
    apply of_op_count in Hc as (a & Ha & <-). eauto.
  - right. split; [|done]. intros (a & Ha & Hu).
    assert (∀ st, group_count (of_op op) d st = 0 → asg_status a ≠ st) as Hz
      by (intros st H0; by eapply of_op_count_0).
    destruct (asg_status a) eqn:E; try done;
      [apply (Hz APending)|apply (Hz AFetched)|apply (Hz APendingLayer)|apply (Hz APendingCanary)];
      (lia || done).
Qed.

Lemma rolled_status_ok op d :
  ¬ has_unsettled op (assignments d) → (∃ a, in_op op (assignments d) a) →
  status_ok kept op (rolled_status op d) (assignments d).
Proof.
  intros Hn [a0 Ha0]. unfold rolled_status.
  assert (∀ a, in_op op (assignments d) a → unsettled (asg_status a) = false) as Hset.
  { intros a Ha. destruct (unsettled _) eqn:E; [|done]. exfalso. apply Hn. by exists a. }
  destruct (Nat.ltb_spec 0 (group_count (of_op op) d AFailed + group_count (of_op op) d APartiallyApplied +
                             group_count (of_op op) d ACancelled)) as [Hf|Hf].
  - destruct (_ || _) eqn:Hs.
    + apply orb_true_iff in Hs. cbn. split_and!; [done|intros _|intros _].
      * assert (∃ st, st ≠ ASucceeded ∧ 0 < group_count (of_op op) d st) as (st & Hst & Hc).
        { destruct (decide (0 < group_count (of_op op) d AFailed)); [by exists AFailed|].
          destruct (decide (0 < group_count (of_op op) d APartiallyApplied)); [by exists APartiallyApplied|].
          exists ACancelled. split; [done|lia]. }
        apply of_op_count in Hc as (a & Ha & <-). eauto.
      * destruct Hs as [Hs|Hs]; apply Nat.ltb_lt, of_op_count in Hs as (a & Ha & Hst); eauto.
    + apply orb_false_iff in Hs as [Hs1%Nat.ltb_ge Hs2%Nat.ltb_ge]. cbn. split; [eauto|].
      intros a Ha. pose proof (of_op_count_0 op d ASucceeded ltac:(lia) a Ha).
      pose proof (of_op_count_0 op d APartiallyApplied ltac:(lia) a Ha).
      specialize (Hset a Ha). destruct (asg_status a); try done; first [by left|by right].
  - cbn. intros a Ha. pose proof (of_op_count_0 op d AFailed ltac:(lia) a Ha).
    pose proof (of_op_count_0 op d APartiallyApplied ltac:(lia) a Ha).
    pose proof (of_op_count_0 op d ACancelled ltac:(lia) a Ha).
    specialize (Hset a Ha). by destruct (asg_status a).
Qed.

(** ** Steps that leave the rows alone *)

Lemma Inv_same d d' :
  operations d' = operations d → assignments d' = assignments d → Inv kept d → Inv kept d'.
Proof. intros Ho Ha [H1 H2 H3 H4]. split; rewrite ?Ho, ?Ha; done. Qed.

Lemma record_audit_frame `{JsonCodec, Sha256} now rec d a d' :
  record_audit_on now rec d = Some (Ok (a, d')) →
  operations d' = operations d ∧ assignments d' = assignments d ∧ desired_states d' = desired_states d ∧
  agents d' = agents d.
Proof. unfold record_audit_on. by intros [= _ <-]. Qed.

Lemma asg_id_inj d a b :
  Inv kept d → a ∈ assignments d → b ∈ assignments d → asg_id a = asg_id b → a = b.
Proof.
  intros Hi. apply NoDup_map_inj. by destruct Hi.
Qed.

(** ** Completion *)

Lemma op_inv_finish op st st' L L' :
  op_inv kept op st L → (∃ a, in_op op L a ∧ in_flight (asg_status a) = true) →
  safe op L' → progress op L' → (has_unsettled op L' → st' = st) →
  (¬ has_unsettled op L' → status_ok kept op st' L') → op_inv kept op st' L'.
Proof.
  intros [Hs Ht Hp] (a & Ha & Hf) Hs' Hp' Hsame Hdone. split; [done| |done].
  destruct (decide (Exists (λ a, asg_operation_id a = op ∧ unsettled (asg_status a) = true) L')) as [He|He].
  - apply Exists_exists in He as (b & Hb & Hop & Hu).
    assert (has_unsettled op L') as Hu' by (exists b; done). rewrite (Hsame Hu').
    destruct st; cbn in Ht; try done; exfalso.
    + by apply (Ht a).
    + destruct Ht as [Hn _]. apply Hn. exists a. split; [done|]. by destruct (asg_status a).
    + destruct Ht as [_ Ht]. destruct (Ht a Ha) as [E|E]; by rewrite E in Hf.
    + specialize (Ht a Ha). by rewrite Ht in Hf.
    + by apply (Ht a).
  - apply Hdone. intros (b & [Hb Hop] & Hu). apply He, Exists_exists. eauto.
Qed.

Lemma elem_of_owners op d : (∃ a, in_op op (assignments d) a) ↔ op ∈ map asg_operation_id (assignments d).
Proof.
  rewrite elem_of_map. unfold in_op. split; intros (a & H1); exists a; naive_solver.
Qed.

Section Complete.
Context `{JsonCodec, Sha256}.

Definition completed_db (row : DbAssignment) (st : AssignmentStatus) (now result_json : string) (d : Db) : Db :=
  roll_up_operation (asg_operation_id row) now
    (advance_phased_apply (asg_operation_id row) now
       (update_assignments (λ a, seqb (asg_id a) (asg_id row)) (set_asg_result st now result_json) d)).

Lemma complete_run agent asg result extra now audit_now extra_now d u d' :
  complete_assignment_with_extra_audit agent asg result extra now audit_now extra_now d = Some (Ok (u, d')) →
  ∃ row json, row ∈ assignments d ∧ asg_id row = asg ∧ asg_agent_id row = agent ∧
    in_flight (asg_status row) = true ∧
    operations d' = operations (completed_db row (assignment_status_of_result (res_status result)) now json d) ∧
    assignments d' = assignments (completed_db row (assignment_status_of_result (res_status result)) now json d).
Proof.
  unfold complete_assignment_with_extra_audit. intros Hrun.
  apply tx_bind_Ok in Hrun as (d0 & d1 & [= <- <-] & Hrun).
  apply tx_bind_Ok in Hrun as (row & d1 & Hrow & Hrun). apply tx_lift_Ok in Hrow as [Hrow ->].
  destruct (List.find _ _) as [row'|] eqn:Hf; [|done]. injection Hrow as ->.
  apply find_some in Hf as [Hin Hp]. apply list_elem_of_In in Hin. unfold completable in Hp.
  apply andb_true_iff in Hp as [Hp Hst]. apply andb_true_iff in Hp as [Hid Hag].
  apply seqb_true in Hid, Hag. subst asg agent.
  apply tx_bind_Ok in Hrun as ([] & d1 & [= <-] & Hrun).
  apply tx_bind_Ok in Hrun as ([] & d1 & [= <-] & Hrun).
  apply tx_bind_Ok in Hrun as ([] & d1 & [= <-] & Hrun).
  apply tx_bind_Ok in Hrun as ([] & d1 & Ha & Hrun). apply record_audit_frame in Ha as (Ho & Has & _).
  exists row, (json_to_string (json_of_result result)). split_and!; [done|done|done| | |].
  - apply orb_true_iff in Hst. rewrite !steqb_true in Hst. by destruct Hst as [-> | ->].
  - destruct extra; [apply record_audit_frame in Hrun as (-> & _)|injection Hrun as _ <-]; by rewrite Ho.
  - destruct extra; [apply record_audit_frame in Hrun as (_ & -> & _)|injection Hrun as _ <-]; by rewrite Has.
Qed.

End Complete.

Lemma update_operations_ids p f d :
  (∀ o, op_id (f o) = op_id o) → map op_id (operations (update_operations p f d)) = map op_id (operations d).
Proof. intros Hf. by apply update_where_column. Qed.

(** Settling one in-flight row keeps the gates. *)
Lemma safe_settle row st now json d :
  Inv kept d → row ∈ assignments d → in_flight (asg_status row) = true →
  canary_status st = true → unsettled st = false →
  safe (asg_operation_id row) (assignments d) →
  safe (asg_operation_id row)
    (assignments (update_assignments (λ a, seqb (asg_id a) (asg_id row)) (set_asg_result st now json) d)).
Proof.
  intros Hi Hin Hf Hc Hu Hs. apply safe_mild; [done| |done]. intros a [Ha _] Hp%seqb_true.
  assert (a = row) as -> by by apply (asg_id_inj d).
  split; cbn; try done; try (by destruct (asg_status row)); by destruct st.
Qed.

Lemma confined_settle row st now json d :
  Inv kept d → row ∈ assignments d → in_flight (asg_status row) = true →
  confined (asg_operation_id row) d
    (update_assignments (λ a, seqb (asg_id a) (asg_id row)) (set_asg_result st now json) d).
Proof.
  intros Hi Hin Hf. apply confined_update; [done..|]. intros a Ha Hp%seqb_true.
  assert (a = row) as -> by by apply (asg_id_inj d). split; [done|]. by destruct (asg_status row).
Qed.

Lemma Inv_completed row st now json d :
  Inv kept d → row ∈ assignments d → in_flight (asg_status row) = true →
  canary_status st = true → unsettled st = false → Inv kept (completed_db row st now json d).
Proof.
  intros Hi Hin Hf Hc Hu. set (op := asg_operation_id row).
  assert (∃ o, o ∈ operations d ∧ op_id o = op) as (o & Ho & Hoid).
  { pose proof (inv_owner _ Hi row Hin) as (o & Ho & He)%elem_of_map. eauto. }
  pose proof (inv_ops _ Hi o Ho) as Hinv. rewrite Hoid in Hinv.
  pose proof (safe_settle row st now json d Hi Hin Hf Hc Hu (oi_safe _ _ _ Hinv)) as Hs1.
  pose proof (confined_settle row st now json d Hi Hin Hf) as Hc1. unfold completed_db. fold op in Hs1, Hc1 |- *.
  set (d1 := update_assignments _ _ d) in *.
  destruct (advance_spec op now d1 Hs1) as (Hc2 & Hs2 & Hf2).
  set (d2 := advance_phased_apply op now d1) in *.
  pose proof (confined_trans _ _ _ _ Hc1 Hc2) as [Hops Hids Hown Hframe _].
  assert (in_op op (assignments d) row) as Hrow by done.
  assert (∃ a, in_op op (assignments d2) a) as Hex.
  { apply elem_of_owners. rewrite Hown. apply elem_of_owners. eauto. }
  assert (∀ o', o' ∈ operations d → op_id o' ≠ op → op_inv kept (op_id o') (op_status o') (assignments d2)) as Hother.
  { intros o' Ho' Hne. eapply op_inv_ext; [|by apply (inv_ops _ Hi)]. by apply Hframe. }
  assert (∀ st', (has_unsettled op (assignments d2) → st' = op_status o) →
             (¬ has_unsettled op (assignments d2) → status_ok kept op st' (assignments d2)) →
             op_inv kept op st' (assignments d2)) as Hthis.
  { intros st' H1 H2. eapply op_inv_finish; [exact Hinv|by exists row|done| |done|done].
    intros Hun. left. by apply Hf2. }
  destruct (roll_up_cases op now d2) as [[Hun ->]|[Hun ->]].
  - split; cbn; rewrite ?Hops, ?Hids; [by apply Hi|by apply Hi| |].
    + intros a Ha. assert (asg_operation_id a ∈ map asg_operation_id (assignments d)) as Hin'.
      { rewrite <- Hown. apply elem_of_map. eauto. }
      apply elem_of_map in Hin' as (b & Hb & ->). by apply (inv_owner _ Hi).
    + intros o' Ho'. destruct (decide (op_id o' = op)) as [He|Hne]; [|by apply Hother].
      assert (o' = o) as -> by (eapply (NoDup_map_inj op_id); [apply Hi|done|done|congruence]).
      rewrite He. by apply Hthis.
  - split; cbn [operations assignments update_operations set_operations].
    + rewrite update_where_column by done. rewrite Hops. by apply Hi.
    + rewrite Hids. by apply Hi.
    + intros a Ha. rewrite update_where_column by done. rewrite Hops.
      assert (asg_operation_id a ∈ map asg_operation_id (assignments d)) as Hin'.
      { rewrite <- Hown. apply elem_of_map. eauto. }
      apply elem_of_map in Hin' as (b & Hb & ->). by apply (inv_owner _ Hi).
    + intros o' (o1 & Ho1 & ->)%elem_of_update_where. rewrite Hops in Ho1.
      destruct (seqb (op_id o1) op) eqn:E.
      * apply seqb_true in E. cbn. rewrite E. apply Hthis; [done|]. intros _. by apply rolled_status_ok.
      * apply Hother; [done|]. intros He. by rewrite (proj2 (seqb_true _ _) He) in E.
Qed.

(** ** Claims and reverts *)

(** Operations before and after some were marked running. *)
Definition ops_running : list DbOperation → list DbOperation → Prop :=
  Forall2 (λ o o', op_id o' = op_id o ∧
    (op_status o' = op_status o ∨ op_status o = OpPending ∧ op_status o' = OpRunning)).

Lemma ops_running_refl ops : ops_running ops ops.
Proof. apply Forall_Forall2_diag, Forall_forall. auto. Qed.

Lemma ops_running_mark t op ops d :
  ops_running ops (operations d) → ops_running ops (operations (mark_running t op d)).
Proof.
  unfold mark_running, update_operations, update_where. cbn.
  induction 1 as [|o o' ops1 ops2 [Hid Hst] _ IH]; cbn; constructor; [|done].
  destruct (_ && _) eqn:E; [|done]. apply andb_true_iff in E as [_ E%bool_decide_eq_true]. cbn.
  split; [done|]. right. destruct Hst as [Hst|[_ Hst]]; [by rewrite <- Hst|congruence].
Qed.

(** A change of rows that only exchanges the two in-flight statuses. *)
Record claims (p : DbAssignment → bool) (f : DbAssignment → DbAssignment) (d d' : Db) : Prop := {
  cl_rows : assignments d' = update_where p f (assignments d);
  cl_ops : ops_running (operations d) (operations d');
  cl_id : ∀ a, asg_id (f a) = asg_id a;
  cl_op : ∀ a, asg_operation_id (f a) = asg_operation_id a;
  cl_layer : ∀ a, asg_layer (f a) = asg_layer a;
  cl_batch : ∀ a, asg_batch (f a) = asg_batch a;
  cl_before : ∀ a, a ∈ assignments d → p a = true → in_flight (asg_status a) = true;
  cl_after : ∀ a, in_flight (asg_status (f a)) = true
}.

Lemma in_flight_unsettled s : in_flight s = true → unsettled s = true.
Proof. by destruct s. Qed.

Lemma op_inv_claims p f d d' op st st' :
  claims p f d d' → st' = st ∨ st = OpPending ∧ st' = OpRunning →
  op_inv kept op st (assignments d) → op_inv kept op st' (assignments d').
Proof.
  intros [Hrows _ Hid Hop Hl Hb Hbef Haft] Hst [Hs Ht Hp].
  assert (∀ a, in_op op (assignments d) a → in_op op (assignments d') (if p a then f a else a)) as Hfwd.
  { intros a Ha. rewrite Hrows. apply in_op_update; [done|]. eauto. }
  assert (∀ a', in_op op (assignments d') a' → ∃ a, in_op op (assignments d) a ∧
            (a' = a ∨ in_flight (asg_status a) = true ∧ in_flight (asg_status a') = true)) as Hback.
  { intros a' Ha'. rewrite Hrows in Ha'. apply in_op_update in Ha' as (a & Ha & ->); [|done].
    exists a. split; [done|]. destruct (p a) eqn:E; [|by left]. right. split; [|done].
    apply Hbef; [by destruct Ha|done]. }
  assert (∀ a, in_op op (assignments d) a → in_flight (asg_status a) = false →
            in_op op (assignments d') a) as Hkeep.
  { intros a Ha Hf. specialize (Hfwd a Ha). destruct (p a) eqn:E; [|done].
    rewrite (Hbef a) in Hf; [done|by destruct Ha|done]. }
  assert (has_unsettled op (assignments d) ↔ has_unsettled op (assignments d')) as Hun.
  { split.
    - intros (a & Ha & Hu). exists (if p a then f a else a). split; [by apply Hfwd|].
      destruct (p a); [by apply in_flight_unsettled|done].
    - intros (a' & Ha' & Hu). destruct (Hback a' Ha') as (a & Ha & [->|[Hf _]]); exists a; [done|].
      split; [done|by apply in_flight_unsettled]. }
  split.
  - rewrite Hrows. apply safe_mild; [done| |done]. intros a [Ha _] Hpa.
    specialize (Hbef a Ha Hpa). specialize (Haft a).
    split; [done..| | | | | |]; destruct (asg_status a), (asg_status (f a)); try done.
  - assert (∀ (Q : AssignmentStatus → Prop), (∀ s, in_flight s = true → ¬ Q s) →
       (∀ a, in_op op (assignments d) a → Q (asg_status a)) →
       ∀ a, in_op op (assignments d') a → Q (asg_status a)) as Hall.
    { intros Q Hq Ha a' Ha'. destruct (Hback a' Ha') as (a & Hain & [->|[Hf _]]); [by apply Ha|].
      exfalso. apply (Hq (asg_status a)); [done|]. by apply Ha. }
    assert (st' = st ∨ has_unsettled op (assignments d)) as [->|Hu].
    { destruct Hst as [|[-> ->]]; [by left|]. right. done. }
    + destruct st; cbn in *; rewrite <- ?Hun; try done;
        try (intros a' Ha'; destruct (Hback a' Ha') as (a & Ha & _); by apply (Ht a)).
      * destruct Ht as (Hn & Hxa & Hxb). split_and!; [done|intros k|intros k].
        -- destruct (Hxa k) as (a & Ha & Hna). exists a. split; [|done]. apply Hkeep; [done|]. destruct (in_flight (asg_status a)) eqn:E; [|done].
           exfalso. apply Hn. exists a. split; [done|by apply in_flight_unsettled].
        -- destruct (Hxb k) as (b & Hb' & Hsb). exists b. split; [|done]. apply Hkeep; [done|]. by destruct Hsb as [-> | ->].
      * destruct Ht as [Hex Ht]. split; [intros k; destruct (Hex k) as [a Ha]; by eexists; apply Hfwd|].
        apply (Hall (λ s, s = AFailed ∨ s = ACancelled)); [|done]. by intros [] ? [|].
      * apply (Hall (λ s, s = ASucceeded)); [|done]. by intros [].
    + destruct Hst as [->|[-> ->]]; [|by apply Hun].
      destruct st; cbn in *; rewrite <- ?Hun; try done; exfalso; destruct Hu as (a & Ha & Hu).
      * by apply (Ht a).
      * destruct Ht as [Hn _]. apply Hn. by exists a.
      * destruct Ht as [_ Ht]. destruct (Ht a Ha) as [E|E]; by rewrite E in Hu.
      * specialize (Ht a Ha). by rewrite Ht in Hu.
      * by apply (Ht a).
  - intros Hu%Hun. destruct (Hp Hu) as [(a & Ha & Hf)|Hall].
    + left. exists (if p a then f a else a). split; [by apply Hfwd|]. by destruct (p a).
    + right. intros a' Ha'. destruct (Hback a' Ha') as (a & Ha & [->|[Hf _]]); [by apply Hall|].
      destruct (Hall a Ha) as [E _]. by rewrite E in Hf.
Qed.

Lemma ops_running_ids ops ops' : ops_running ops ops' → map op_id ops' = map op_id ops.
Proof. induction 1 as [|o o' ? ? [Hid _] _ IH]; cbn; congruence. Qed.

Lemma Inv_claims p f d d' : claims p f d d' → Inv kept d → Inv kept d'.
Proof.
  intros Hc Hi. pose proof (ops_running_ids _ _ (cl_ops _ _ _ _ Hc)) as Hids. split.
  - rewrite Hids. by apply Hi.
  - rewrite (cl_rows _ _ _ _ Hc), update_where_column by apply Hc. by apply Hi.
  - intros a Ha. rewrite Hids. rewrite (cl_rows _ _ _ _ Hc) in Ha.
    apply elem_of_update_where in Ha as (a0 & Ha0 & ->).
    destruct (p a0); rewrite ?(cl_op _ _ _ _ Hc); by apply (inv_owner _ Hi).
  - intros o' [i Ho']%list_elem_of_lookup.
    destruct (Forall2_lookup_r _ _ _ _ _ (cl_ops _ _ _ _ Hc) Ho') as (o & Ho & Hoid & Hst).
    rewrite Hoid. eapply op_inv_claims; [exact Hc|exact Hst|].
    apply (inv_ops _ Hi). by eapply list_elem_of_lookup_2.
Qed.

Lemma claimable_in_flight c a : claimable c a = true → in_flight (asg_status a) = true.
Proof.
  unfold claimable. rewrite orb_true_iff, andb_true_iff, !steqb_true. by intros [->|[-> _]].
Qed.

Section Claims.
Context `{JsonCodec, Sha256}.

Definition fetch_filter (agent cutoff : string) (a : DbAssignment) : bool :=
  seqb (asg_agent_id a) agent && claimable cutoff a.

Lemma fetch_claims agent now cutoff d out d' :
  fetch_pending_assignments agent now cutoff d = Some (Ok (out, d')) →
  claims (fetch_filter agent cutoff) (set_asg_fetched AFetched (Some now)) d d'.
Proof.
  unfold fetch_pending_assignments. intros Hrun.
  apply tx_bind_Ok in Hrun as (d0 & d1 & [= <- <-] & Hrun).
  apply tx_bind_Ok in Hrun as ([] & d1 & [= <-] & Hrun).
  apply tx_bind_Ok in Hrun as ([env seen] & d2 & Hloop & Hrun). injection Hrun as _ <-.
  assert (assignments d2 = update_where (fetch_filter agent cutoff) (set_asg_fetched AFetched (Some now)) (assignments d) ∧
          ops_running (operations d) (operations d2)) as [H1 H2].
  { refine (tx_for_inv (fetch_step now) (λ _ d2,
      assignments d2 = update_where (fetch_filter agent cutoff) (set_asg_fetched AFetched (Some now)) (assignments d) ∧
      ops_running (operations d) (operations d2)) _ _ _ _ _ _ _ Hloop).
    - intros [out1 seen1] row d3 [out2 seen2] d4 _ [Ha Ho] Hstep. cbn in Hstep.
      apply tx_bind_Ok in Hstep as (pl & d5 & Hp & Hstep). apply tx_lift_Ok in Hp as [_ ->].
      apply tx_bind_Ok in Hstep as ([] & d5 & Hm & Hstep). injection Hstep as _ _ <-.
      case_decide; injection Hm as <-; [done|]. split; [done|]. by apply ops_running_mark.
    - split; [done|apply ops_running_refl]. }
  split; try done. intros a _ Hp. apply andb_true_iff in Hp as [_ Hp]. by eapply claimable_in_flight.
Qed.

Lemma claim_ssh_claims targets now cutoff d r d' :
  Inv kept d → claim_ssh_pending targets now cutoff d = Some (Ok (r, d')) →
  d' = d ∨ ∃ row, row ∈ assignments d ∧
    claims (λ a, seqb (asg_id a) (asg_id row)) (set_asg_fetched AFetched (Some now)) d d'.
Proof.
  intros Hi. unfold claim_ssh_pending. destruct targets as [|t ts]; [intros [= _ <-]; by left|].
  intros Hrun. apply tx_bind_Ok in Hrun as (d0 & d1 & [= <- <-] & Hrun).
  destruct (head _) as [row|] eqn:Hh; [|injection Hrun as _ <-; by left]. right.
  apply head_Some_elem_of in Hh. rewrite order_by_perm in Hh.
  apply elem_of_List_filter in Hh as [Hin Hp]. apply andb_true_iff in Hp as [_ Hp].
  apply tx_bind_Ok in Hrun as ([] & d1 & [= <-] & Hrun).
  apply tx_bind_Ok in Hrun as ([] & d1 & [= <-] & Hrun). injection Hrun as _ <-.
  exists row. split; [done|]. split; try done.
  - cbn. apply ops_running_mark. cbn. apply ops_running_refl.
  - intros a Ha He%seqb_true. assert (a = row) as -> by by apply (asg_id_inj d).
    by eapply claimable_in_flight.
Qed.

Lemma Inv_revert ids d u d' :
  Inv kept d → revert_assignment_claims ids d = Some (Ok (u, d')) → Inv kept d'.
Proof.
  intros Hi. unfold revert_assignment_claims. destruct ids as [|i0 ids]; [intros [= _ <-]; done|].
  intros Hrun. refine (tx_for_inv _ (λ _ d, Inv kept d) _ _ _ _ _ _ _ Hrun); [|done].
  intros _ id d1 [] d2 _ Hi1 [= <-]. eapply Inv_claims; [|exact Hi1]. split; try done.
  - cbn. apply ops_running_refl.
  - intros a _ Hp. apply andb_true_iff in Hp as [_ Hp%steqb_true]. by rewrite Hp.
Qed.

End Claims.

(** ** Dispatch of a new operation *)

(** The rows a dispatch inserts. *)
Record fresh_rows (op : string) (news : list DbAssignment) : Prop := {
  fr_op : ∀ a, a ∈ news → asg_operation_id a = op;
  fr_later : ∀ a, a ∈ news → asg_layer a ≠ 0%Z → asg_status a = APendingLayer;
  fr_first : ∀ a, a ∈ news → asg_layer a = 0%Z →
    asg_status a = APending ∧ asg_batch a ≠ Some 1%Z ∨
    asg_status a = APendingCanary ∧ asg_batch a = Some 1%Z;
  fr_start : (∃ a, a ∈ news ∧ asg_layer a = 0%Z) → ∃ a, a ∈ news ∧ asg_status a = APending
}.

Lemma safe_fresh op news L :
  fresh_rows op news → (∀ a, in_op op L a ↔ a ∈ news) → safe op L.
Proof.
  intros [Hop Hlater Hfirst _] Hx. split.
  - intros a b Ha%Hx _ Hl. by rewrite (Hlater a Ha Hl).
  - intros a Ha%Hx Hst Hl. destruct (Hfirst a Ha Hl) as [[E _]|[E _]]; congruence.
  - intros a Ha%Hx Hst. destruct (decide (asg_layer a = 0%Z)) as [Hl|Hl].
    + destruct (Hfirst a Ha Hl) as [[E _]|[_ Hb]]; [congruence|done].
    + rewrite (Hlater a Ha Hl) in Hst. done.
  - intros a Ha%Hx [Hl Hb]. destruct (Hfirst a Ha Hl) as [[-> _]|[_ Hb']]; [done|congruence].
  - intros a b Ha%Hx _ [Hl Hb] Hr. destruct (Hfirst a Ha Hl) as [[_ Hb']|[E _]]; [done|].
    by rewrite E in Hr.
Qed.

Lemma op_inv_fresh op st news L :
  fresh_rows op news → (∀ a, in_op op L a ↔ a ∈ news) →
  (news = [] ∧ (st = OpPendingApproval ∨ st = OpRejected ∨ st = OpSucceeded) ∨
   news ≠ [] ∧ (st = OpPending)) → op_inv kept op st L.
Proof.
  intros Hf Hx Hst. split; [by eapply safe_fresh| |].
  - destruct Hst as [[-> Hst]|[Hne ->]].
    + assert (∀ a, ¬ in_op op L a) as Hn by (intros a Ha%Hx; by apply elem_of_nil in Ha).
      destruct Hst as [-> |[-> | ->]]; cbn; [done|done|]. intros a Ha. by destruct (Hn a).
    + cbn. destruct news as [|a news]; [done|]. exists a.
      assert (a ∈ a :: news) as Ha by left. split; [by apply Hx|].
      destruct (decide (asg_layer a = 0%Z)) as [Hl|Hl].
      * by destruct (fr_first _ _ Hf a Ha Hl) as [[-> _]|[-> _]].
      * by rewrite (fr_later _ _ Hf a Ha Hl).
  - intros _. destruct (decide (Exists (λ a, asg_layer a = 0%Z) news)) as [He|He].
    + left. apply Exists_exists in He. destruct (fr_start _ _ Hf He) as (a & Ha & Hs).
      exists a. split; [by apply Hx|by rewrite Hs].
    + right. intros a Ha%Hx. assert (asg_layer a ≠ 0%Z) as Hl
        by (intros Hl; apply He, Exists_exists; eauto).
      split; [by apply (fr_later _ _ Hf)|done].
Qed.

Lemma in_op_app op L news a : in_op op (L ++ news) a ↔ in_op op L a ∨ in_op op news a.
Proof. unfold in_op. rewrite elem_of_app. tauto. Qed.

Section Dispatch.
Context `{JsonCodec, Sha256, SqlErrors}.

Lemma insert_assignment_run a d u d' :
  insert_assignment a d = Some (Ok (u, d')) →
  asg_id a ∉ map asg_id (assignments d) ∧ d' = set_assignments (assignments d ++ [a]) d.
Proof. unfold insert_assignment. case_decide; [done|]. by intros [= _ <-]. Qed.

(** The rows inserted by a loop over buckets, one per bucket in order. *)
Definition rows_for {A} (op : string) (batch : string * Z → option Z)
    (st : Z → option Z → AssignmentStatus) (d0 : Db) (pre : list ((string * Z) * list A))
    (n : nat) (d : Db) : Prop :=
  ∃ news, assignments d = assignments d0 ++ news ∧ operations d = operations d0 ∧
    n = length pre ∧ length news = length pre ∧
    (NoDup (map asg_id (assignments d0)) → NoDup (map asg_id (assignments d))) ∧
    map (λ a, (asg_agent_id a, asg_layer a)) news = keys pre ∧
    Forall (λ a, asg_operation_id a = op ∧ asg_batch a = batch (asg_agent_id a, asg_layer a) ∧
                 asg_status a = st (asg_layer a) (asg_batch a)) news.

Lemma rows_for_snoc {A} op batch st d0 (pre : list ((string * Z) * list A)) n d k items a d' u :
  rows_for op batch st d0 pre n d → insert_assignment a d = Some (Ok (u, d')) →
  asg_operation_id a = op → (asg_agent_id a, asg_layer a) = k → asg_batch a = batch k →
  asg_status a = st (asg_layer a) (asg_batch a) →
  rows_for op batch st d0 (pre ++ [(k, items)]) (S n) d'.
Proof.
  intros (news & Ha & Ho & -> & Hlen & Hnd & Hk & Hall) [Hfresh ->]%insert_assignment_run Hop Hak Hb Hst.
  exists (news ++ [a]). cbn. rewrite Ha, <- app_assoc, !length_app. split_and!; try done; cbn; try lia.
  - intros Hd0. rewrite Ha in Hnd, Hfresh. rewrite app_assoc, map_app. cbn. apply NoDup_app.
    split_and!; [by apply Hnd|set_solver|apply NoDup_singleton].
  - unfold keys. rewrite !map_app. fold (keys pre). rewrite <- Hk. cbn. by rewrite Hak.
  - apply Forall_app. split; [done|]. repeat constructor; [done| |done]. by rewrite Hak.
Qed.

Lemma bucket_loop_run op f split d buckets n d' :
  tx_for (bucket_step op f split) 0 buckets d = Some (Ok (n, d')) →
  rows_for op (λ k, split !! k) initial_assignment_status d buckets n d'.
Proof.
  intros Hrun. refine (tx_for_prefix _ (rows_for op (λ k, split !! k) initial_assignment_status d) _ _ _ _ _ _ _ Hrun).
  - intros pre [[ag l] items] b d1 b' d2 Hp Hstep. cbn in Hstep.
    apply tx_bind_Ok in Hstep as (rs & d3 & Hl & Hstep). apply tx_lift_Ok in Hl as [_ ->].
    apply tx_bind_Ok in Hstep as (u & d3 & Hins & Hstep). injection Hstep as <- <-.
    by eapply rows_for_snoc.
  - exists []. rewrite app_nil_r. by split_and!.
Qed.

Lemma approve_loop_run op f d buckets n d' :
  tx_for (approve_bucket_step op f) 0 buckets d = Some (Ok (n, d')) →
  rows_for op (λ _, None) (λ l _, if decide (l = 0%Z) then APending else APendingLayer) d buckets n d'.
Proof.
  intros Hrun. refine (tx_for_prefix _ (rows_for op (λ _, None)
    (λ l _, if decide (l = 0%Z) then APending else APendingLayer) d) _ _ _ _ _ _ _ Hrun).
  - intros pre [[ag l] items] b d1 b' d2 Hp Hstep. cbn in Hstep.
    apply tx_bind_Ok in Hstep as (rs & d3 & Hl & Hstep). apply tx_lift_Ok in Hl as [_ ->].
    apply tx_bind_Ok in Hstep as (u & d3 & Hins & Hstep). injection Hstep as <- <-.
    by eapply rows_for_snoc.
  - exists []. rewrite app_nil_r. by split_and!.
Qed.

(** The batch of a bucket, and the batch of the first agent of a layer. *)
Lemma split_batch {A} (buckets : bucket_map A) canary k :
  k ∈ keys buckets →
  let split := compute_canary_split (bucket_agents_per_layer buckets) canary in
  split !! k = None ∨ split !! k = Some 0%Z ∨ split !! k = Some 1%Z.
Proof.
  intros Hk split. destruct canary as [spec|]; [|left; apply lookup_empty].
  destruct k as [a l]. destruct (agents_per_layer_spec buckets l) as (_ & _ & Hin).
  apply Hin, list_elem_of_lookup in Hk as [i Hi]. subst split. rewrite (canary_split_get _ _ _ _ _ Hi).
  case_match; [by left|]. right. case_match; auto.
Qed.

Lemma split_first {A} (buckets : bucket_map A) canary a l :
  (a, l) ∈ keys buckets →
  ∃ a0, (a0, l) ∈ keys buckets ∧
    compute_canary_split (bucket_agents_per_layer buckets) canary !! (a0, l) ≠ Some 1%Z.
Proof.
  intros Hk. destruct canary as [spec|]; [|exists a; split; [done|]; cbn; by rewrite lookup_empty].
  destruct (agents_per_layer_spec buckets l) as (_ & _ & Hin).
  apply Hin, list_elem_of_lookup in Hk as [i Hi].
  destruct (layer_get l (bucket_agents_per_layer buckets)) as [|a0 ags] eqn:E; [done|].
  assert (layer_get l (bucket_agents_per_layer buckets) !! 0 = Some a0) as Hfst by by rewrite E.
  exists a0. split; [apply Hin; left|]. rewrite (canary_split_get _ _ _ _ _ Hfst).
  rewrite E. case_match eqn:Hle; [done|]. apply Z.leb_gt in Hle.
  pose proof (canary_count_range spec (wrap_unsigned 32 (Z.of_nat (length (a0 :: ags))))) as Hc.
  unfold wrap_unsigned, u32_max in *. pose proof (Z.mod_pos_bound (Z.of_nat (length (a0 :: ags))) (2 ^ 32) eq_refl).
  rewrite (proj2 (Z.ltb_lt _ _)); [done|]. cbn [Z.of_nat]. lia.
Qed.

Lemma news_keys {A} (pre : bucket_map A) news :
  map (λ a, (asg_agent_id a, asg_layer a)) news = keys pre →
  ∀ k, k ∈ keys pre ↔ ∃ a, a ∈ news ∧ (asg_agent_id a, asg_layer a) = k.
Proof. intros <- k. rewrite elem_of_map. split; intros (a & ? & ?); eauto. Qed.

Lemma fresh_rows_created {A} op d0 (buckets : bucket_map A) canary n d :
  rows_for op (λ k, compute_canary_split (bucket_agents_per_layer buckets) canary !! k)
    initial_assignment_status d0 buckets n d →
  ∃ news, assignments d = assignments d0 ++ news ∧ n = length news ∧
    (NoDup (map asg_id (assignments d0)) → NoDup (map asg_id (assignments d))) ∧
    operations d = operations d0 ∧ fresh_rows op news.
Proof.
  intros (news & Ha & Ho & -> & Hlen & Hnd & Hk & Hall). exists news.
  split_and!; [done|done|done|done|]. rewrite Forall_forall in Hall.
  assert (∀ a, a ∈ news → (asg_agent_id a, asg_layer a) ∈ keys buckets) as Hin
    by (intros a Hin; apply (news_keys _ _ Hk); eauto).
  split.
  - intros a Hin'. by destruct (Hall a Hin').
  - intros a Hin' Hl. destruct (Hall a Hin') as (_ & _ & ->). unfold initial_assignment_status.
    by rewrite decide_False.
  - intros a Hin' Hl. destruct (Hall a Hin') as (_ & Hb & ->). unfold initial_assignment_status.
    rewrite decide_True by done. destruct (split_batch buckets canary _ (Hin a Hin')) as [E|[E|E]];
      rewrite Hb, E; cbn; auto.
  - intros (a & Hin' & Hl). pose proof (Hin a Hin') as Hka. rewrite Hl in Hka.
    destruct (split_first buckets canary _ _ Hka) as (a0 & Hk0 & Hne).
    apply (news_keys _ _ Hk) in Hk0 as (b & Hb & Hbk). exists b. split; [done|].
    destruct (Hall b Hb) as (_ & Hbb & ->). injection Hbk as Hba Hbl.
    unfold initial_assignment_status. rewrite Hbl. rewrite decide_True by done.
    destruct (split_batch buckets canary _ (Hin b Hb)) as [E|[E|E]]; rewrite Hbb, E; cbn; [done..|].
    rewrite Hba, Hbl in E. done.
Qed.

Lemma fresh_rows_approved {A} op d0 (buckets : bucket_map A) n d :
  rows_for op (λ _, None) (λ l _, if decide (l = 0%Z) then APending else APendingLayer) d0 buckets n d →
  ∃ news, assignments d = assignments d0 ++ news ∧ n = length news ∧
    (NoDup (map asg_id (assignments d0)) → NoDup (map asg_id (assignments d))) ∧
    operations d = operations d0 ∧ fresh_rows op news.
Proof.
  intros (news & Ha & Ho & -> & Hlen & Hnd & Hk & Hall). exists news.
  split_and!; [done|done|done|done|]. rewrite Forall_forall in Hall. split.
  - intros a Hin. by destruct (Hall a Hin).
  - intros a Hin Hl. destruct (Hall a Hin) as (_ & _ & ->). by rewrite decide_False.
  - intros a Hin Hl. destruct (Hall a Hin) as (_ & Hb & ->). rewrite decide_True by done.
    left. by rewrite Hb.
  - intros (a & Hin & Hl). exists a. split; [done|]. destruct (Hall a Hin) as (_ & _ & ->).
    by rewrite decide_True.
Qed.

Lemma route_loop_frame op env ags layers xs acc d acc' d' :
  tx_for (route_step op env ags layers) acc xs d = Some (Ok (acc', d')) →
  operations d' = operations d ∧ assignments d' = assignments d.
Proof.
  intros Hrun. refine (tx_for_inv _ (λ _ d2, operations d2 = operations d ∧ assignments d2 = assignments d)
    _ _ _ _ _ _ _ Hrun); [|done].
  intros [bk un] [i r] d1 b' d2 _ [Ho Ha] Hstep. cbn in Hstep. tx_step Hstep.
  unfold insert_desired in Ha0. case_decide; [done|]. injection Ha0 as _ <-.
  destruct (route_resource r env ags); [|by injection Hstep as _ <-].
  tx_step Hstep. apply tx_panics_Ok in Ha0 as [_ ->]. by injection Hstep as _ <-.
Qed.

Lemma approve_route_frame env ags layers xs acc d acc' d' :
  tx_for (approve_route_step env ags layers) acc xs d = Some (Ok (acc', d')) → d' = d.
Proof.
  intros Hrun. refine (tx_for_inv _ (λ _ d2, d2 = d) _ _ _ _ _ _ _ Hrun); [|done].
  intros bk [i r] d1 b' d2 _ -> Hstep. cbn in Hstep.
  destruct (route_resource r env ags); [|by injection Hstep as _ <-].
  tx_step Hstep. apply tx_lift_Ok in Ha as [_ ->]. tx_step Hstep.
  apply tx_panics_Ok in Ha as [_ ->]. by injection Hstep as _ <-.
Qed.

(** What a successful creation writes. *)
Lemma create_run env rb actor sc sm rs mp ra canary f d out d' :
  create_operation env rb actor sc sm rs mp ra canary f d = Some (Ok (out, d')) →
  ∃ o news, op_id o = fresh_op f ∧ fresh_op f ∉ map op_id (operations d) ∧
    operations d' = operations d ++ [o] ∧ assignments d' = assignments d ++ news ∧
    (NoDup (map asg_id (assignments d)) → NoDup (map asg_id (assignments d'))) ∧
    fresh_rows (fresh_op f) news ∧ out_assignment_count out = length news ∧
    (news = [] ∧ (op_status o = OpPendingApproval ∨ op_status o = OpRejected ∨ op_status o = OpSucceeded) ∨
     news ≠ [] ∧ op_status o = OpPending) ∧
    (op_status o = OpPendingApproval ↔ ra = true).
Proof.
  unfold create_operation. intros Hrun. tx_step Hrun. injection Ha as <- <-.
  tx_step Hrun. unfold insert_operation in Ha. case_decide as Hfresh; [done|]. injection Ha as _ <-.
  tx_step Hrun. apply tx_lift_Ok in Ha as [Hlayers ->].
  tx_step Hrun. destruct a1 as [buckets unrouted]. apply route_loop_frame in Ha as [Ho Has].
  cbn [operations set_operations assignments] in Ho, Has.
  tx_step Hrun. rename Ha into Hdisp. tx_step Hrun. apply record_audit_frame in Ha as (Hao & Haa & _).
  injection Hrun as <- <-. rewrite Hao, Haa. cbn [out_assignment_count].
  set (o := new_operation _ _ _ _ _ _ _ _) in *. destruct ra.
  - injection Hdisp as <- <-. exists o, []. rewrite app_nil_r, Has. split_and!; try done; [|by left; split; auto].
    split; [intros x Hx|intros x Hx|intros x Hx|intros (x & Hx & _)]; by apply elem_of_nil in Hx.
  - tx_step Hdisp. apply bucket_loop_run, fresh_rows_created in Ha as (news & Hn & -> & Hnd & Hops & Hfr).
    tx_step Hdisp. injection Hdisp as <- <-. rewrite Ho in Hops. rewrite Has in Hn, Hnd.
    case_decide as Hlen.
    + injection Ha as Hd4. subst d4. destruct news; [|done]. exists (set_op_succeeded (now f) o), [].
      cbn [operations set_operations assignments]. rewrite Hops. split_and!; try done; [|by left; split; auto].
      * unfold update_where. rewrite map_app. cbn. rewrite (proj2 (seqb_true _ _) eq_refl). f_equal.
        apply update_where_id. intros o1 Ho1. apply not_true_iff_false. rewrite seqb_true. intros He.
        apply Hfresh, elem_of_map. eauto.
    + injection Ha as Hd4. subst d4. exists o, news. split_and!; try done.
      right. split; [by intros ->|done].
Qed.

Lemma find_operation_Some op d o :
  find_operation op d = Some o → o ∈ operations d ∧ op_id o = op.
Proof.
  unfold find_operation. intros [Hin Hp]%find_some. apply list_elem_of_In in Hin.
  by apply seqb_true in Hp.
Qed.

Lemma awaiting_true op o :
  awaiting_approval op o = true ↔ op_id o = op ∧ op_status o = OpPendingApproval.
Proof. unfold awaiting_approval. by rewrite andb_true_iff, seqb_true, bool_decide_eq_true. Qed.

Lemma approve_run op approver actor reason f d n d' :
  approve_operation op approver actor reason f d = Some (Ok (n, d')) →
  ∃ o news st reason' fin, o ∈ operations d ∧ op_id o = op ∧ op_status o = OpPendingApproval ∧
    operations d' = update_where (awaiting_approval op) (set_op_approved st approver (now f) reason' fin)
                      (operations d) ∧
    assignments d' = assignments d ++ news ∧
    (NoDup (map asg_id (assignments d)) → NoDup (map asg_id (assignments d'))) ∧
    fresh_rows op news ∧ n = length news ∧
    (news = [] ∧ st = OpSucceeded ∨ news ≠ [] ∧ st = OpPending).
Proof.
  unfold approve_operation. intros Hrun. tx_step Hrun. injection Ha as <- <-.
  apply tx_bind_Ok in Hrun as (row & d1 & Ha & Hrun). apply tx_lift_Ok in Ha as [Hrow ->].
  destruct (find_operation op d) as [row'|] eqn:Hfind; [|done]. injection Hrow as ->.
  apply find_operation_Some in Hfind as [Hin Hid]. case_decide as Hst; [done|].
  tx_step Hrun. apply tx_lift_Ok in Ha as [_ ->]. tx_step Hrun. apply tx_panics_Ok in Ha as [_ ->].
  tx_step Hrun. apply tx_lift_Ok in Ha as [_ ->]. tx_step Hrun. apply tx_lift_Ok in Ha as [_ ->].
  tx_step Hrun. apply approve_route_frame in Ha as ->.
  tx_step Hrun. apply approve_loop_run, fresh_rows_approved in Ha as (news & Hn & -> & Hnd & Hops & Hfr).
  tx_step Hrun. injection Ha as <- <-. tx_step Hrun. injection Ha as <- Hd. subst.
  case_decide as Haff; [done|]. tx_step Hrun. apply record_audit_frame in Ha as (Hao & Haa & _).
  injection Hrun as <- <-. cbn [operations set_operations assignments] in Hao, Haa.
  exists row, news, (if decide (length news = 0) then OpSucceeded else OpPending), reason,
    (if decide (length news = 0) then Some (now f) else None).
  rewrite Hao, Haa, Hops. split_and!; try done.
  destruct news; [by left|by right].
Qed.

Lemma reject_run op rejector actor reason t ta d u d' :
  reject_operation op rejector actor reason t ta d = Some (Ok (u, d')) →
  operations d' = update_where (awaiting_approval op) (set_op_rejected rejector t reason) (operations d) ∧
  assignments d' = assignments d ∧ ∃ o, o ∈ operations d ∧ awaiting_approval op o = true.
Proof.
  unfold reject_operation. destruct (is_blank reason); [done|]. intros Hrun.
  tx_step Hrun. injection Ha as <- <-. case_decide as Hc; [done|].
  tx_step Hrun. injection Ha as _ Hd. subst. apply record_audit_frame in Hrun as (-> & -> & _).
  split_and!; [done|done|]. apply count_if_pos. lia.
Qed.

End Dispatch.

(** A database that gained the rows [news] of an operation without rows. *)
Lemma Inv_dispatch op news d d' :
  Inv kept d → (∀ a, ¬ in_op op (assignments d) a) → fresh_rows op news →
  assignments d' = assignments d ++ news → NoDup (map asg_id (assignments d')) →
  NoDup (map op_id (operations d')) → op ∈ map op_id (operations d') →
  (∀ i, i ∈ map op_id (operations d) → i ∈ map op_id (operations d')) →
  (∀ o', o' ∈ operations d' →
     op_id o' = op ∧ op_inv kept op (op_status o') news ∨
     op_id o' ≠ op ∧ ∃ o, o ∈ operations d ∧ op_id o' = op_id o ∧ op_status o' = op_status o) →
  Inv kept d'.
Proof.
  intros Hi Hnone Hfr Ha Hnd Hopnd Hin Hsub Hops.
  assert (∀ a, a ∈ news → asg_operation_id a = op) as Hop by apply Hfr.
  split; [done|done| |].
  - intros a. rewrite Ha, elem_of_app. intros [H1|H1]; [by apply Hsub, (inv_owner _ Hi)|by rewrite Hop].
  - intros o' Ho'. rewrite Ha. destruct (Hops o' Ho') as [[-> Hinv]|(Hne & o & Ho & Hid & Hst)].
    + eapply op_inv_ext; [|exact Hinv]. intros a. rewrite in_op_app. split; [by right|].
      intros [Hx|Hx]; [by destruct (Hnone a)|done].
    + rewrite Hid, Hst. eapply op_inv_ext; [|by apply (inv_ops _ Hi)]. intros a. rewrite in_op_app.
      split; [by left|]. intros [Hx|[Hx Hxo]]; [done|]. exfalso. apply Hne. rewrite Hid, <- Hxo. by apply Hop.
Qed.

Lemma no_rows op d :
  Inv kept d → op ∉ map op_id (operations d) → ∀ a, ¬ in_op op (assignments d) a.
Proof. intros Hi Hn a [Ha Hop]. apply Hn. rewrite <- Hop. by apply (inv_owner _ Hi). Qed.

Lemma no_rows_awaiting o d :
  Inv kept d → o ∈ operations d → op_status o = OpPendingApproval ∨ op_status o = OpRejected →
  ∀ a, ¬ in_op (op_id o) (assignments d) a.
Proof.
  intros Hi Ho Hst. pose proof (oi_status _ _ _ (inv_ops _ Hi o Ho)) as Hs.
  by destruct Hst as [E|E]; rewrite E in Hs.
Qed.

Lemma in_op_news op news a : fresh_rows op news → in_op op news a ↔ a ∈ news.
Proof. intros Hfr. split; [by intros [? _]|]. intros Ha. split; [done|]. by apply Hfr. Qed.

Lemma in_op_nil op a : ¬ in_op op [] a.
Proof. intros [Ha _]. by apply elem_of_nil in Ha. Qed.

Lemma fresh_rows_nil op : fresh_rows op [].
Proof. split; [intros a Ha..|intros (a & Ha & _)]; by apply elem_of_nil in Ha. Qed.

End Kept.
