(* ===== verification/Views.v ===== *)
(** * Read models (store.rs)

    The queries agents and operators read the rollout through: the desired
    state an agent watches, the preview of an operation, the operation list
    and the operation view. *)

From S2P Require Import Prelude Text Json ApiError Routing Depsort Db AuditLog Canary Operations Dispatch.

#[local] Open Scope string_scope.
#[local] Open Scope list_scope.
#[local] Open Scope nat_scope.

Record DesiredStateItem := mkDesiredItem {
  it_resource_id : string;
  it_operation_id : string;
  it_created_at : string;
  it_resource : Json
}.

Record OperationDesiredStateItem := mkOpDesiredItem {
  oi_resource_id : string;
  oi_kind : string;
  oi_agent_id : string;
  oi_resource : Json
}.

Record OperationListItem := mkListItem {
  li_id : string;
  li_kind : string;
  li_environment : string;
  li_requested_by : string;
  li_status : OperationStatus;
  li_created_at : string;
  li_started_at : option string;
  li_finished_at : option string
}.

Record AssignmentView := mkAsgView {
  av_id : string;
  av_agent_id : string;
  av_status : string;
  av_created_at : string;
  av_fetched_at : option string;
  av_completed_at : option string;
  av_result : option Json
}.

Record OperationView := mkOpView {
  ov_id : string;
  ov_kind : string;
  ov_environment : string;
  ov_requested_by : string;
  ov_status : OperationStatus;
  ov_created_at : string;
  ov_started_at : option string;
  ov_finished_at : option string;
  ov_assignments : list AssignmentView;
  ov_matched_policies : list string;
  ov_approved_by : option string;
  ov_approved_at : option string;
  ov_rejected_by : option string;
  ov_rejected_at : option string;
  ov_rejection_reason : option string
}.

Section Definitions.
Context `{JsonCodec}.

(** *** What an agent watches *)

(** The [kind/environment/name] of a payload resource, when all three are
    present and not empty. *)
Definition owned_id (res : Json) : option string :=
  let kind := default "" (json_get res "kind" ≫= as_str) in
  let name := default "" (json_get2 res "metadata" "name" ≫= as_str) in
  let env := default "" (json_get2 res "metadata" "environment" ≫= as_str) in
  if decide (kind = "" ∨ name = "" ∨ env = "") then None
  else Some (kind +:+ "/" +:+ env +:+ "/" +:+ name).

(** The resources of a stored payload; a torn one counts as empty. *)
Definition payload_resources_of (payload_json : string) : list Json :=
  match json_from_str payload_json with
  | Err _ => []
  | Ok payload => default [] (json_get payload "resources" ≫= as_array)
  end.

Definition watches (agent_id : string) (a : DbAssignment) : bool :=
  seqb (asg_agent_id a) agent_id && negb (steqb (asg_status a) AFailed) && seqb (asg_kind a) "apply".

Definition owned_pairs (agent_id : string) (d : Db) : gset (string * string) :=
  list_to_set (a ← select_where (watches agent_id) (assignments d);
               omap (λ res, pair (asg_operation_id a) <$> owned_id res)
                 (payload_resources_of (asg_payload_json a))).

(** [ORDER BY ds.resource_id, o.created_at DESC, ds.id DESC]. *)
Definition watch_order (a b : DbOperation * DbDesired) : bool :=
  match String.compare (ds_resource_id a.2) (ds_resource_id b.2) with
  | Lt => true | Gt => false
  | Eq => newer_state a b
  end.

(** The body of the collapsing loop; the state is [(out, last_seen)]. *)
Definition collapse_step (owned : gset (string * string))
    (acc : list DesiredStateItem * option string) (row : DbOperation * DbDesired)
    : ApiResult (list DesiredStateItem * option string) :=
  let '(out, last_seen) := acc in
  let rid := ds_resource_id row.2 in
  let op_id := ds_operation_id row.2 in
  if decide ((op_id, rid) ∉ owned) then Ok (out, last_seen)
  else if decide (last_seen = Some rid) then Ok (out, last_seen)
  else
    value ← map_err JsonErr (json_from_str (ds_spec_json row.2));
    Ok (out ++ [mkDesiredItem rid op_id (op_created_at row.1) (strip_routing_hints value)], Some rid).

Definition list_desired_state_for_agent (agent_id : string) (d : Db) : ApiResult (list DesiredStateItem) :=
  let owned := owned_pairs agent_id d in
  if decide (owned = ∅) then Ok []
  else
    let rows := order_by watch_order
      (select_where (λ x, bool_decide (ds_operation_id x.2 ∈ (set_map fst owned : gset string)))
         (desired_join d)) in
    '(out, _) ← try_fold (collapse_step owned) ([], None) rows;
    Ok out.

(** *** Previews and lists *)

Definition preview_item (environment : string) (ags : list AgentRow) (r : DbDesired)
    : ApiResult OperationDesiredStateItem :=
  value ← map_err JsonErr (json_from_str (ds_spec_json r));
  let routing := mkRouting (ds_resource_id r) (ds_kind r) (ds_environment r) (ds_spec_json r)
    (default "" (json_get2 value "metadata" "name" ≫= as_str)) (host_selector_of value) in
  let agent_id := match route_resource routing environment ags with Ok a => a | Err _ => "" end in
  Ok (mkOpDesiredItem (ds_resource_id r) (ds_kind r) agent_id (strip_routing_hints value)).

Definition list_desired_state_for_operation (operation_id : string) (d : Db)
    : ApiResult (list OperationDesiredStateItem) :=
  op_row ← ok_or (find_operation operation_id d) NotFound;
  try_map (preview_item (op_environment op_row) (agent_rows d))
    (order_by (λ a b, Z.leb (ds_id a) (ds_id b))
       (select_where (λ r, seqb (ds_operation_id r) operation_id) (desired_states d))).

Definition list_item_of (o : DbOperation) : OperationListItem :=
  mkListItem (op_id o) (op_kind o) (op_environment o) (op_requested_by o)
    (parse_operation_status (operation_status_text (op_status o))) (op_created_at o)
    (op_started_at o) (op_finished_at o).

Definition newest_first (a b : DbOperation) : bool := str_le (op_created_at b) (op_created_at a).

Definition list_operations (status : option string) (limit : Z) (d : Db) : list OperationListItem :=
  let limit := clamp 1 1000 limit in
  let base := match status with
    | Some s => select_where (λ o, seqb (operation_status_text (op_status o)) s) (operations d)
    | None => operations d
    end in
  map list_item_of (take (Z.to_nat limit) (order_by newest_first base)).

Definition assignment_view (r : DbAssignment) : AssignmentView :=
  mkAsgView (asg_id r) (asg_agent_id r) (assignment_status_text (asg_status r)) (asg_created_at r)
    (asg_fetched_at r) (asg_completed_at r)
    (s ← asg_result_json r; match json_from_str s with Ok v => Some v | Err _ => None end).

(** [serde_json::from_str::<Vec<String>>(s).unwrap_or_default()]. *)
Definition strings_of_json (s : string) : list string :=
  match json_from_str s with
  | Ok (JArray xs) => default [] (mapM as_str xs)
  | _ => []
  end.

Definition get_operation (operation_id : string) (d : Db) : ApiResult OperationView :=
  row ← ok_or (find_operation operation_id d) NotFound;
  let rows := order_by (λ a b, str_le (asg_created_at a) (asg_created_at b))
                (select_where (of_op operation_id) (assignments d)) in
  Ok (mkOpView (op_id row) (op_kind row) (op_environment row) (op_requested_by row)
        (parse_operation_status (operation_status_text (op_status row))) (op_created_at row)
        (op_started_at row) (op_finished_at row) (map assignment_view rows)
        (strings_of_json (op_matched_policies_json row)) (op_approved_by row) (op_approved_at row)
        (op_rejected_by row) (op_rejected_at row) (op_rejection_reason row)).

End Definitions.

(** ** The collapsing loop *)

Section Collapse.
Context `{JsonCodec}.

(** The rows the loop keeps. *)
Fixpoint kept (owned : gset (string * string)) (last : option string)
    (rows : list (DbOperation * DbDesired)) : list (DbOperation * DbDesired) :=
  match rows with
  | [] => []
  | r :: rows =>
      if decide ((ds_operation_id r.2, ds_resource_id r.2) ∉ owned) then kept owned last rows
      else if decide (last = Some (ds_resource_id r.2)) then kept owned last rows
      else r :: kept owned (Some (ds_resource_id r.2)) rows
  end.

Definition item_of (row : DbOperation * DbDesired) (it : DesiredStateItem) : Prop :=
  it_resource_id it = ds_resource_id row.2 ∧ it_operation_id it = ds_operation_id row.2 ∧
  it_created_at it = op_created_at row.1 ∧
  ∃ v, json_from_str (ds_spec_json row.2) = Ok v ∧ it_resource it = strip_routing_hints v.

Lemma collapse_kept owned rows out last out' last' :
  try_fold (collapse_step owned) (out, last) rows = Ok (out', last') →
  ∃ new, out' = out ++ new ∧ Forall2 item_of (kept owned last rows) new.
Proof.
  revert out last; induction rows as [|r rows IH]; intros out last Hrun; cbn [try_fold kept] in *.
  - injection Hrun as <- <-. exists []. rewrite app_nil_r. split; [done|constructor].
  - destruct (collapse_step owned (out, last) r) as [[o1 l1]|] eqn:Hs; [|done].
    rewrite bind_Ok in Hrun. apply IH in Hrun as (new & -> & Hf). unfold collapse_step in Hs.
    case_decide as Ho; [by injection Hs as <- <-; eauto|].
    case_decide as Hl; [by injection Hs as <- <-; eauto|].
    destruct (json_from_str (ds_spec_json r.2)) as [v|e] eqn:Hv; [|done]. cbn [map_err] in Hs.
    rewrite bind_Ok in Hs. injection Hs as <- <-.
    eexists (_ :: new). rewrite <- app_assoc. split; [done|]. constructor; [|done].
    split_and!; try done. eauto.
Qed.

Abbreviation rid x := (ds_resource_id (snd x)).

Lemma watch_order_spec a b :
  watch_order a b = true ↔
  str_lt (rid a) (rid b) = true ∨ rid a = rid b ∧
    (str_lt (op_created_at b.1) (op_created_at a.1) = true ∨
     op_created_at a.1 = op_created_at b.1 ∧ (ds_id b.2 ≤ ds_id a.2)%Z).
Proof.
  unfold watch_order, newer_state. rewrite !str_lt_spec, <- (compare_Gt (op_created_at a.1)).
  rewrite <- (compare_Eq (rid a)), <- (compare_Eq (op_created_at a.1)), <- Z.leb_le.
  destruct (String.compare (rid a) (rid b)); [|intuition congruence..].
  destruct (String.compare (op_created_at a.1) (op_created_at b.1)); intuition congruence.
Qed.

Lemma str_lt_total a b : str_lt a b = true ∨ a = b ∨ str_lt b a = true.
Proof.
  rewrite !str_lt_spec. destruct (String.compare a b) eqn:E; [|by left|].
  - right; left. by apply compare_Eq.
  - right; right. by apply compare_Gt.
Qed.

Lemma watch_order_total a b : watch_order a b = true ∨ watch_order b a = true.
Proof.
  rewrite !watch_order_spec. destruct (str_lt_total (rid a) (rid b)) as [?|[->|?]]; [by left; left| |by right; left].
  destruct (str_lt_total (op_created_at a.1) (op_created_at b.1)) as [?|[->|?]];
    [right; auto| |left; auto].
  destruct (Z.le_ge_cases (ds_id b.2) (ds_id a.2)); [left|right]; right; auto.
Qed.

Lemma watch_order_trans a b c :
  watch_order a b = true → watch_order b c = true → watch_order a c = true.
Proof.
  rewrite !watch_order_spec. intros [H1|[He1 H1]] [H2|[He2 H2]].
  - left. by eapply str_lt_trans.
  - left. by rewrite <- He2.
  - left. by rewrite He1.
  - right. split; [congruence|]. destruct H1 as [H1|[Hc1 H1]], H2 as [H2|[Hc2 H2]].
    + left. by eapply str_lt_trans.
    + left. by rewrite <- Hc2.
    + left. by rewrite Hc1.
    + right. split; [congruence|lia].
Qed.

Abbreviation sorted_rows := (StronglySorted (λ a b, watch_order a b = true)).

Lemma kept_sub owned last rows r :
  r ∈ kept owned last rows → r ∈ rows ∧ (ds_operation_id r.2, rid r) ∈ owned.
Proof.
  revert last; induction rows as [|x rows IH]; intros last; cbn; [set_solver|].
  case_decide as Ho; [intros [? ?]%IH; split; [by right|done]|].
  case_decide; [intros [? ?]%IH; split; [by right|done]|].
  intros [->|[? ?]%IH]%elem_of_cons; [split; [left|done]|split; [by right|done]].
Qed.

(** Every owned row has a kept row of its resource that is at least as new. *)
Lemma kept_cover owned last rows r :
  sorted_rows rows → r ∈ rows → (ds_operation_id r.2, rid r) ∈ owned → last ≠ Some (rid r) →
  ∃ r', r' ∈ kept owned last rows ∧ rid r' = rid r ∧ watch_order r' r = true.
Proof.
  intros Hs. revert last; induction Hs as [|x rows Hs IH Hx]; intros last Hin Hown Hlast; [set_solver|].
  rewrite Forall_forall in Hx. cbn. apply elem_of_cons in Hin as [->|Hin].
  - rewrite decide_False by (intros Hn; by apply Hn). rewrite decide_False by done.
    exists x. split_and!; [left|done|]. destruct (watch_order_total x x); done.
  - case_decide; [by apply IH|]. case_decide; [by apply IH|].
    destruct (decide (rid x = rid r)) as [He|Hne].
    + exists x. split_and!; [left|done|by apply Hx].
    + destruct (IH (Some (rid x)) Hin Hown) as (r' & ? & ? & ?); [congruence|].
      exists r'. split_and!; [by right|done|done].
Qed.

Lemma watch_order_rid a b : watch_order a b = true → rid a = rid b ∨ str_lt (rid a) (rid b) = true.
Proof. rewrite watch_order_spec. tauto. Qed.

Lemma kept_fresh owned h rows :
  sorted_rows rows → (∀ r, r ∈ rows → h = rid r ∨ str_lt h (rid r) = true) →
  ∀ r, r ∈ kept owned (Some h) rows → rid r ≠ h.
Proof.
  intros Hs. induction Hs as [|x rows Hs IH Hx]; intros Hge r; cbn; [set_solver|].
  rewrite Forall_forall in Hx.
  assert (∀ r, r ∈ rows → h = rid r ∨ str_lt h (rid r) = true) as Hge' by (intros; apply Hge; by right).
  case_decide; [by apply IH|]. case_decide as Hne; [by apply IH|].
  destruct (Hge x ltac:(left)) as [->|Hlt]; [done|].
  intros [->|[Hr _]%kept_sub]%elem_of_cons.
  - intros He. rewrite He in Hlt. by rewrite str_lt_irrefl in Hlt.
  - intros He. destruct (watch_order_rid _ _ (Hx r Hr)) as [Hxr|Hxr].
    + congruence.
    + rewrite He in Hxr. pose proof (str_lt_trans _ _ _ Hlt Hxr) as Hc. by rewrite str_lt_irrefl in Hc.
Qed.

Lemma kept_NoDup owned last rows : sorted_rows rows → NoDup (map (λ x, rid x) (kept owned last rows)).
Proof.
  intros Hs. revert last; induction Hs as [|x rows Hs IH Hx]; intros last; cbn; [constructor|].
  case_decide; [apply IH|]. case_decide; [apply IH|]. cbn. constructor; [|apply IH].
  rewrite elem_of_map. intros (r & Hr & He). rewrite Forall_forall in Hx.
  eapply (kept_fresh owned (rid x) rows Hs); [|exact Hr|by rewrite He].
  intros r' Hr'. by apply watch_order_rid, Hx.
Qed.

Lemma elem_of_owned_pairs agent d op r :
  (op, r) ∈ owned_pairs agent d ↔
  ∃ a res, a ∈ assignments d ∧ watches agent a = true ∧ asg_operation_id a = op ∧
    res ∈ payload_resources_of (asg_payload_json a) ∧ owned_id res = Some r.
Proof.
  unfold owned_pairs. rewrite elem_of_list_to_set, list_elem_of_bind. split.
  - intros (a & Hin & Ha). apply elem_of_List_filter in Ha as [Ha Hw].
    apply list_elem_of_omap in Hin as (res & Hres & Hid).
    destruct (owned_id res) eqn:E; [|done]. injection Hid as <- <-. eauto 10.
  - intros (a & res & Ha & Hw & <- & Hres & Hid). exists a. split; [|by apply elem_of_List_filter].
    apply list_elem_of_omap. exists res. split; [done|]. by rewrite Hid.
Qed.

(** What an agent watches. [list_desired_state_for_agent] returns at most
    one item per resource; every item names a resource that a non-failed
    apply assignment of this very agent delivered, in the operation the item
    is attributed to (no resource of another agent leaks); and for every
    stored desired state the agent owns in this sense there is an item of the
    same resource at least as new. *)
Theorem agent_watch_list agent d items
    (Hrun : list_desired_state_for_agent agent d = Ok items) :
  NoDup (map it_resource_id items) ∧
  (∀ it, it ∈ items → ∃ a res, a ∈ assignments d ∧ asg_agent_id a = agent ∧
     asg_status a ≠ AFailed ∧ asg_operation_id a = it_operation_id it ∧
     res ∈ payload_resources_of (asg_payload_json a) ∧ owned_id res = Some (it_resource_id it)) ∧
  (∀ o ds, (o, ds) ∈ desired_join d → (ds_operation_id ds, ds_resource_id ds) ∈ owned_pairs agent d →
     ∃ it, it ∈ items ∧ it_resource_id it = ds_resource_id ds ∧
       (str_lt (op_created_at o) (it_created_at it) = true ∨ it_created_at it = op_created_at o)).
Proof.
  unfold list_desired_state_for_agent in Hrun. case_decide as Hemp.
  { injection Hrun as <-. split_and!; [constructor|set_solver|]. intros o ds _ Hin.
    rewrite Hemp in Hin. by apply elem_of_empty in Hin. }
  set (rows := order_by _ _) in Hrun.
  destruct (try_fold _ _ rows) as [[out last]|] eqn:Hf; [|done].
  rewrite bind_Ok in Hrun. injection Hrun as ->.
  apply collapse_kept in Hf as (new & Heq & Hitems). cbn in Heq. subst new.
  assert (sorted_rows rows) as Hs by (apply order_by_sorted; [apply watch_order_total|apply watch_order_trans]).
  split_and!.
  - assert (map it_resource_id items = map (λ x, rid x) (kept (owned_pairs agent d) None rows)) as ->;
      [|by apply kept_NoDup].
    clear -Hitems. induction Hitems as [|r it rs its [Hr _] _ IH]; cbn; [done|]. by rewrite Hr, IH.
  - intros it [i Hit]%list_elem_of_lookup.
    destruct (Forall2_lookup_r _ _ _ _ _ Hitems Hit) as (r & Hr & Hrid & Hop & _).
    apply list_elem_of_lookup_2, kept_sub in Hr as [_ Hown].
    apply elem_of_owned_pairs in Hown as (a & res & Ha & Hw & Hao & Hres & Hid).
    apply andb_true_iff in Hw as [Hw _]. apply andb_true_iff in Hw as [Hag%seqb_true Hst].
    exists a, res. rewrite Hop, Hrid. split_and!; try done. intros E. by rewrite E in Hst.
  - intros o ds Hin Hown.
    assert ((o, ds) ∈ rows) as Hrow.
    { subst rows. rewrite order_by_perm. apply elem_of_List_filter. split; [done|].
      apply bool_decide_eq_true. cbn. set_unfold. by exists (ds_operation_id ds, ds_resource_id ds). }
    destruct (kept_cover (owned_pairs agent d) None rows (o, ds) Hs Hrow Hown) as (r' & Hr' & Hrid & Hle); [done|].
    apply list_elem_of_lookup in Hr' as [i Hr'].
    destruct (Forall2_lookup_l _ _ _ _ _ Hitems Hr') as (it & Hit & Hid & _ & Hcr & _).
    exists it. split_and!; [by eapply list_elem_of_lookup_2|by rewrite Hid|].
    rewrite Hcr. apply watch_order_spec in Hle as [Hlt|[_ [Hlt|[Heq _]]]].
    + rewrite Hrid in Hlt. by rewrite str_lt_irrefl in Hlt.
    + by left.
    + by right.
Qed.

End Collapse.

(** ** A concrete watch list *)

(** ["P"] is a payload with the resource [F/prod/n], any other text an empty
    object. *)
#[local] Instance watch_codec : JsonCodec := {|
  json_from_str s :=
    if decide (s = "P") then
      Ok (JObject [("resources", JArray [JObject [("kind", JString "F");
            ("metadata", JObject [("environment", JString "prod"); ("name", JString "n")])]])])
    else Ok (JObject []);
  json_to_string _ := "{}"
|}.

Definition watch_op (id created : string) : DbOperation :=
  set_op_succeeded created (new_operation id "prod" "alice" None None created "[]" false).

(** Operation [op2] supersedes [op1]; a2 owns nothing. *)
Definition watch_db : Db :=
  set_assignments [new_assignment "as1" "a1" "op1" "P" "t1" ASucceeded 0 None;
                   new_assignment "as2" "a1" "op2" "P" "t2" ASucceeded 0 None;
                   new_assignment "as3" "a2" "op2" "Q" "t2" ASucceeded 0 None]
    (set_desired [mkDesired 1 "op1" "F/prod/n" "F" "prod" "old" "{}";
                  mkDesired 2 "op2" "F/prod/n" "F" "prod" "new" "{}";
                  mkDesired 3 "op2" "F/prod/m" "F" "prod" "new" "{}"] 4
       (set_operations [watch_op "op1" "t1"; watch_op "op2" "t2"] empty_db)).

Example watch_a2 : list_desired_state_for_agent "a2" watch_db = Ok [].
Proof. vm_compute. reflexivity. Qed.

Lemma agent_watch_list_witness :
  list_desired_state_for_agent "a1" watch_db =
    Ok [mkDesiredItem "F/prod/n" "op2" "t2" (JObject [])] ∧
  NoDup (map it_resource_id [mkDesiredItem "F/prod/n" "op2" "t2" (JObject [])]).
Proof.
  split; [vm_compute; reflexivity|].
  refine (proj1 (agent_watch_list "a1" watch_db _ _)). vm_compute. reflexivity.
Defined.
