(* ===== verification/Ids.v ===== *)
(** * Resource identity (crates/iac-core/src/id.rs, resource.rs, error.rs)

    The identifier of a resource, its text and path forms, and the shape
    check of a manifest's resource. *)

From S2P Require Import Prelude Text Json ApiError Routing Db AuditLog.

#[local] Open Scope string_scope.
#[local] Open Scope list_scope.
#[local] Open Scope nat_scope.

(** ** Errors of iac-core

    The error values of the standard library and of serde are texts. *)

Inductive CoreError :=
| EIo (path source : string)
| EYaml (path source : string)
| EJson (source : string)
| EManifest (path : string) (m : message)
| EValidation (resource : string) (m : message)
| EUnknownKind (kind : string)
| EProvider (provider : string) (m : message)
| ECheckpoint (resource : string) (m : message)
| ECommand (m : message).
Abbreviation CoreResult := (result CoreError).

(** ** Identifiers *)

Record ResourceId := mkRid { rid_kind : string; rid_environment : string; rid_name : string }.

#[export] Instance ResourceId_eq_dec : EqDecision ResourceId.
Proof. solve_decision. Defined.

(** [Display]. *)
Definition rid_display (id : ResourceId) : string :=
  rid_kind id +:+ "/" +:+ rid_environment id +:+ "/" +:+ rid_name id.

(** [s.splitn(3, '/')] followed by the emptiness checks. *)
Definition rid_parse (s : string) : option ResourceId :=
  '(kind, rest) ← split_once "/" s;
  '(environment, name) ← split_once "/" rest;
  if bool_decide (kind = "") || bool_decide (environment = "") || bool_decide (name = "") then None
  else Some (mkRid kind environment name).

Definition sanitize_char (c : N) : N :=
  if is_ascii_alphanumeric c || (c =? 45)%N || (c =? 46)%N then c else 95%N.
Definition sanitize (s : string) : string := of_chars (map sanitize_char (chars s)).

(** The name of the file that holds a resource's applied state. *)
Definition fs_key `{Sha256} (id : ResourceId) : string :=
  let digest := sha256_hex (rid_kind id +:+ byte0 +:+ rid_environment id +:+ byte0 +:+ rid_name id) in
  sanitize (rid_kind id) +:+ "__" +:+ sanitize (rid_environment id) +:+ "__" +:+
  sanitize (rid_name id) +:+ "__" +:+ str_upto 12 digest.

(** ** Resources

    [spec], [policy] and the annotation values are kept as JSON trees; an
    [IndexMap] is an association list in insertion order. *)

Record Metadata := mkMetadata {
  md_name : string;
  md_environment : string;
  md_owner : option string;
  md_labels : list (string * string);
  md_annotations : list (string * string)
}.

Record Resource := mkResource {
  r_api_version : string;
  r_kind : string;
  r_metadata : Metadata;
  r_spec : Json;
  r_policy : Json
}.

Definition API_VERSION : string := "iac.example/v1".

Definition rid_of (r : Resource) : ResourceId :=
  mkRid (r_kind r) (md_environment (r_metadata r)) (md_name (r_metadata r)).

Definition validate_required_identifier (id field value : string) : CoreResult () :=
  if decide (value = "") then Err (EValidation id [Txt field; Txt " must not be empty"])
  else if is_blank value then
    Err (EValidation id [Txt field; Txt " must not be whitespace-only (got "; Dbg value; Txt ")"])
  else if existsb is_control (chars value) then
    Err (EValidation id [Txt field; Txt " contains control characters (got "; Dbg value; Txt ")"])
  else Ok ().

Definition validate_shape (r : Resource) : CoreResult () :=
  let id := rid_display (rid_of r) in
  _ ← validate_required_identifier id "apiVersion" (r_api_version r);
  _ ← validate_required_identifier id "kind" (r_kind r);
  _ ← validate_required_identifier id "metadata.name" (md_name (r_metadata r));
  _ ← validate_required_identifier id "metadata.environment" (md_environment (r_metadata r));
  Ok ().

(** ** Properties *)

Lemma split_once_slash_sound s before after :
  split_once "/" s = Some (before, after) → s = before +:+ "/" +:+ after.
Proof. apply split_once_sound. Qed.

(** [s] holds no slash. *)
Definition no_slash (s : string) : Prop := split_once "/" s = None.

Definition slash : Ascii.ascii := Ascii.ascii_of_N 47.

Lemma split_once_slash_cons a s :
  split_once "/" (String a s) =
  if decide (slash = a) then Some ("", s)
  else match split_once "/" s with
       | Some (before, after) => Some (String a before, after)
       | None => None
       end.
Proof. cbn [split_once strip_prefix]. change (Ascii.Ascii _ _ _ _ _ _ _ _) with slash. by destruct (decide (slash = a)). Qed.

(** A text without a slash is what stands before the first one. *)
Lemma split_once_slash_first s t : no_slash s → split_once "/" (s +:+ "/" +:+ t) = Some (s, t).
Proof.
  unfold no_slash. induction s as [|a s IH]; intros Hn; [done|].
  change (String a s +:+ "/" +:+ t) with (String a (s +:+ "/" +:+ t)).
  rewrite split_once_slash_cons in Hn |- *. case_decide; [done|].
  destruct (split_once "/" s) as [[]|] eqn:E; [done|]. by rewrite IH.
Qed.

Lemma split_once_slash_no s before after :
  split_once "/" s = Some (before, after) → no_slash before.
Proof.
  unfold no_slash. revert before. induction s as [|a s IH]; intros before; [done|].
  rewrite split_once_slash_cons. case_decide as Hne; [intros H; by simplify_eq/=|].
  destruct (split_once "/" s) as [[b c]|] eqn:E; [|done].
  intros [= <- <-]. rewrite split_once_slash_cons, decide_False by done. by rewrite (IH b).
Qed.

(** A resource the text form can represent. *)
Definition rid_printable (id : ResourceId) : Prop :=
  rid_kind id ≠ "" ∧ rid_environment id ≠ "" ∧ rid_name id ≠ "" ∧
  no_slash (rid_kind id) ∧ no_slash (rid_environment id).

Lemma rid_parse_display s id : rid_parse s = Some id → rid_display id = s ∧ rid_printable id.
Proof.
  unfold rid_parse. destruct (split_once "/" s) as [[kind rest]|] eqn:E1; cbn; [|done].
  destruct (split_once "/" rest) as [[env name]|] eqn:E2; cbn; [|done].
  repeat case_bool_decide; cbn; try done. intros [= <-].
  pose proof (split_once_slash_no _ _ _ E1). pose proof (split_once_slash_no _ _ _ E2).
  apply split_once_sound in E1 as ->, E2 as ->. done.
Qed.

Lemma rid_display_parse id : rid_printable id → rid_parse (rid_display id) = Some id.
Proof.
  intros (Hk & He & Hn & Sk & Se). unfold rid_parse, rid_display.
  rewrite split_once_slash_first by done. cbn. rewrite split_once_slash_first by done. cbn.
  rewrite !bool_decide_false by done. by destruct id.
Qed.

(** The text of a resource id round-trips exactly for the ids whose parts
    are non-empty and whose kind and environment hold no slash: parsing a text
    gives such an id and printing it gives the text back, and printing then
    parsing is the identity on exactly these ids. *)
Theorem rid_roundtrip :
  (∀ s id, rid_parse s = Some id → rid_display id = s) ∧
  (∀ id, rid_parse (rid_display id) = Some id ↔ rid_printable id).
Proof.
  split; [intros s id H; by apply rid_parse_display in H as [H _]|].
  intros id. split; [intros H; by apply rid_parse_display in H as [_ H]|apply rid_display_parse].
Qed.

(** ** Path keys *)

Lemma sanitize_char_safe c :
  let d := sanitize_char c in
  (d < 128)%N ∧ d ≠ 47%N ∧ d ≠ 0%N ∧ (is_ascii_alphanumeric d = true ∨ d ∈ [45; 46; 95]%N).
Proof.
  assert (∀ d, is_ascii_alphanumeric d = true → (d < 128)%N ∧ d ≠ 47%N ∧ d ≠ 0%N) as Ha.
  { intros d. unfold is_ascii_alphanumeric, is_ascii_digit, is_ascii_alphabetic.
    rewrite !orb_true_iff, !andb_true_iff, !N.leb_le. lia. }
  unfold sanitize_char. destruct (is_ascii_alphanumeric c) eqn:E; cbn [orb].
  - destruct (Ha c E) as (? & ? & ?). tauto.
  - destruct (N.eqb_spec c 45) as [->|]; cbn [orb]; [split_and!; [done..|set_solver]|].
    destruct (N.eqb_spec c 46) as [->|]; (split_and!; [done..|set_solver]).
Qed.

(** A byte a path segment may hold. *)
Definition path_safe (a : Ascii.ascii) : bool :=
  is_ascii_alphanumeric (byte_of a) || bool_decide (byte_of a ∈ [45; 46; 95]%N).

Definition str_all (p : Ascii.ascii → bool) (s : string) : bool := forallb p (String.list_ascii_of_string s).

Lemma str_all_app p s t : str_all p (s +:+ t) = str_all p s && str_all p t.
Proof.
  induction s as [|a s IH]; [done|]. change (p a && str_all p (s +:+ t) = (p a && str_all p s) && str_all p t).
  by rewrite IH, andb_assoc.
Qed.

Lemma sanitize_safe s : str_all path_safe (sanitize s) = true.
Proof.
  unfold sanitize. induction (chars s) as [|c cs IH]; [done|]. cbn [map of_chars].
  rewrite str_all_app, IH, andb_true_r.
  destruct (sanitize_char_safe c) as (Hlt & _ & _ & Hs). set (d := sanitize_char c) in *.
  unfold utf8. rewrite (proj2 (N.ltb_lt _ _) Hlt). unfold str_all, path_safe, byte_of. cbn.
  rewrite Ascii.N_ascii_embedding by lia. rewrite andb_true_r.
  apply orb_true_iff. destruct Hs as [Hs|Hs]; [by left|right]. by apply bool_decide_eq_true.
Qed.

Lemma str_all_upto p n s : str_all p s = true → str_all p (str_upto n s) = true.
Proof.
  unfold str_upto, str_all. revert n. induction s as [|a s IH]; intros [|n]; cbn; try done.
  rewrite !andb_true_iff. intros [-> Hs]. by rewrite IH.
Qed.

(** The file name of a resource's state is a safe path segment whatever
    the manifest says: it only holds ASCII letters, digits, dashes, dots and
    underscores, so neither a separator nor a NUL byte; and it is more than
    the two dots of a parent directory. *)
Theorem fs_key_safe `{Sha256} id :
  (∀ s, str_all path_safe (sha256_hex s) = true) →
  str_all path_safe (fs_key id) = true ∧ 6 ≤ String.length (fs_key id).
Proof.
  intros Hsha. unfold fs_key. rewrite !str_all_app, !sanitize_safe. cbn [andb]. split.
  - rewrite str_all_upto by done. done.
  - rewrite !str_length_app. cbn. lia.
Qed.

Lemma fs_key_safe_witness :
  str_all path_safe (@fs_key (λ _, "0123456789abcdef") (mkRid "file" "prod" "../etc/x y")) = true ∧
  6 ≤ String.length (@fs_key (λ _, "0123456789abcdef") (mkRid "file" "prod" "../etc/x y")).
Proof.
  apply (@fs_key_safe (λ _, "0123456789abcdef") (mkRid "file" "prod" "../etc/x y")).
  intros s. reflexivity.
Defined.

(** The shape check lets a slash into the environment, and then two resources
    share one textual identity. *)
Example rid_display_ambiguous :
  rid_display (mkRid "file" "prod/a" "b") = rid_display (mkRid "file" "prod" "a/b") ∧
  validate_shape (mkResource API_VERSION "file" (mkMetadata "b" "prod/a" None [] []) JNull JNull) = Ok ().
Proof. split; vm_compute; reflexivity. Qed.
