(* ===== verification/Clock.v ===== *)
(** * Timestamps

    jiff's timestamps (nanoseconds since the epoch), their RFC 3339 text and
    their arithmetic, code outside the repository. A span of seconds is kept
    as its number of seconds. *)

From stdpp Require Import pretty.
From S2P Require Import Prelude Text.

#[local] Open Scope string_scope.
#[local] Open Scope list_scope.

Class Jiff := {
  ts_parse : string → result string Z;
  ts_print : Z → string;
  ts_span : Z → result string Z;      (* [Span::new().try_seconds(n)] *)
  ts_add : Z → Z → result string Z    (* [t.checked_add(span)] *)
}.

(** Spans of hours and subtraction; a span is its number of seconds here too. *)
Class JiffHours := {
  ts_span_hours : Z → result string Z;   (* [Span::new().try_hours(n)] *)
  span_zero : Z;                         (* [Span::default()] *)
  ts_sub : Z → Z → result string Z       (* [t.checked_sub(span)] *)
}.

(** [Span::new().try_seconds(n)] followed by [checked_add]. *)
Definition ts_add_secs `{Jiff} (t n : Z) : result string Z := span ← ts_span n; ts_add t span.

(** An instance for the examples: seconds written as [@n], with jiff's bound on a span. *)
Definition demo_jiff : Jiff := {|
  ts_parse s := ok_or (d ← strip_prefix "@" s; parse_unsigned u64_max d) "not a timestamp";
  ts_print t := "@" +:+ pretty t;
  ts_span s := if decide (Z.abs s ≤ 631107417600)%Z then Ok s else Err "span out of range";
  ts_add t s := Ok (t + s)%Z
|}.
