(* ===== verification/Handler.v ===== *)
(** * Request handlers

    A handler runs store calls one after the other; each call is a
    transaction of its own, so what a handler did before it fails or panics
    stays done. The outcome [None] is a panic. *)

From S2P Require Import Prelude Text ApiError Db.

#[local] Open Scope list_scope.

Definition handler (A : Type) : Type := Db → panics (ApiResult A) * Db.

Definition h_ret {A} (a : A) : handler A := λ d, (Some (Ok a), d).
Definition h_throw {A} (e : ApiErr) : handler A := λ d, (Some (Err e), d).
Definition h_lift {A} (r : ApiResult A) : handler A := λ d, (Some r, d).
Definition h_bind {A B} (m : handler A) (f : A → handler B) : handler B := λ d,
  match m d with
  | (Some (Ok a), d') => f a d'
  | (Some (Err e), d') => (Some (Err e), d')
  | (None, d') => (None, d')
  end.

(** One store call, committed or rolled back. *)
Definition h_call {A} (m : tx A) : handler A := λ d,
  match m d with
  | Some (Ok (a, d')) => (Some (Ok a), d')
  | Some (Err e) => (Some (Err e), d)
  | None => (None, d)
  end.

(** A read outside a transaction. *)
Definition h_read {A} (f : Db → ApiResult A) : handler A := λ d, (Some (f d), d).

(** [m.await] with its outcome as a value. *)
Definition h_try {A} (m : handler A) : handler (ApiResult A) := λ d,
  match m d with
  | (Some r, d') => (Some (Ok r), d')
  | (None, d') => (None, d')
  end.

Declare Scope handler_scope.
Delimit Scope handler_scope with handler.
Notation "'let+' x ':=' m 'in' k" := (h_bind m (λ x, k))
  (at level 200, x name, m at level 100, k at level 200, right associativity) : handler_scope.
Notation "'let+' ' p ':=' m 'in' k" := (h_bind m (λ x, match x with p => k end))
  (at level 200, p pattern, m at level 100, k at level 200, right associativity) : handler_scope.
Notation "m ';+' k" := (h_bind m (λ _ : (), k)) (at level 100, k at level 200, right associativity) : handler_scope.

(** The database a handler leaves. *)
Definition h_db {A} (m : handler A) (d : Db) : Db := (m d).2.

Lemma h_call_db {A} (m : tx A) d : h_db (h_call m) d = committed m d.
Proof. unfold h_db, h_call, committed. by destruct (m d) as [[[a d']|e]|]. Qed.

(** A property every store call keeps is kept by the handler. *)
Definition preserves {A} (P : Db → Prop) (m : handler A) : Prop := ∀ d, P d → P (h_db m d).

Lemma preserves_bind {A B} P (m : handler A) (f : A → handler B) :
  preserves P m → (∀ a, preserves P (f a)) → preserves P (h_bind m f).
Proof.
  intros Hm Hf d Hd. specialize (Hm d Hd). unfold h_db, h_bind in *.
  destruct (m d) as [[[a|e]|] d']; [|done..]. exact (Hf a d' Hm).
Qed.

Lemma preserves_same {A} P (m : handler A) : (∀ d, h_db m d = d) → preserves P m.
Proof. intros Hm d. by rewrite Hm. Qed.

Lemma preserves_call {A} P (m : tx A) : (∀ d, P d → P (committed m d)) → preserves P (h_call m).
Proof. intros Hm d. rewrite h_call_db. apply Hm. Qed.

Lemma preserves_try {A} P (m : handler A) : preserves P m → preserves P (h_try m).
Proof. intros Hm d Hd. specialize (Hm d Hd). unfold h_db, h_try in *. by destruct (m d) as [[r|] d']. Qed.
