(* ===== verification/Users.v ===== *)
(** * Identities, users and their tokens (identity.rs, auth.rs, store.rs, api/mod.rs, api/auth.rs, api/users.rs)

    Roles and the identities a bearer token resolves to, the user table and
    the tokens issued to users, and the handlers in front of them. *)

From S2P Require Import Prelude Text Json ApiError Routing Db AuditLog Operations Clock Handler.

#[local] Open Scope string_scope.
#[local] Open Scope list_scope.
#[local] Open Scope nat_scope.
#[local] Open Scope tx_scope.
#[local] Open Scope handler_scope.

(** Argon2 hashing with a salt and verification against a PHC string (false
    for a string that does not parse), code outside the repository. *)
Class Argon2 := {
  argon2_hash : string → string → result string string;
  argon2_verify : string → string → bool
}.

(** ** Roles and identities *)

Inductive Role := Viewer | Operator | Approver | Admin.

#[export] Instance Role_eq_dec : EqDecision Role.
Proof. solve_decision. Defined.

(** The derived order. *)
Definition role_rank (r : Role) : nat :=
  match r with Viewer => 0 | Operator => 1 | Approver => 2 | Admin => 3 end.

Definition includes (self required : Role) : bool := role_rank required <=? role_rank self.

Inductive Identity :=
| LegacyAdmin
| User (id username : string) (roles : list Role)
| AgentId (id name : string).

Definition audit_actor (i : Identity) : string :=
  match i with
  | LegacyAdmin => "admin"
  | User _ username _ => "user:" +:+ username
  | AgentId id _ => "agent:" +:+ id
  end.

Definition display_name (i : Identity) : string :=
  match i with LegacyAdmin => "admin" | User _ username _ => username | AgentId _ name => name end.

Definition has_role (i : Identity) (role : Role) : bool :=
  match i with
  | LegacyAdmin => true
  | User _ _ roles => existsb (λ r, includes r role) roles
  | AgentId _ _ => false
  end.

Record UserRecord := mkUserRecord { ur_id : string; ur_username : string; ur_roles : list Role }.

Definition role_to_str (r : Role) : string :=
  match r with Viewer => "viewer" | Operator => "operator" | Approver => "approver" | Admin => "admin" end.

Definition parse_role (s : string) : ApiResult Role :=
  if decide (s = "viewer") then Ok Viewer
  else if decide (s = "operator") then Ok Operator
  else if decide (s = "approver") then Ok Approver
  else if decide (s = "admin") then Ok Admin
  else Err (BadRequest [Txt "unknown role "; Dbg s; Txt "; valid: viewer | operator | approver | admin"]).

Definition parse_roles (roles : list string) : ApiResult (list Role) := try_map parse_role roles.

(** serde's form of a role list, and [from_str(..).unwrap_or_default()]. *)
Definition role_of_json (j : Json) : option Role :=
  s ← as_str j; match parse_role s with Ok r => Some r | Err _ => None end.
Definition roles_to_json `{JsonCodec} (roles : list Role) : string :=
  json_to_string (JArray (map (λ r, JString (role_to_str r)) roles)).
Definition roles_of_json `{JsonCodec} (s : string) : list Role :=
  match json_from_str s with
  | Ok (JArray xs) => default [] (mapM role_of_json xs)
  | _ => []
  end.

(** ** Bearer tokens *)

Definition hash_token `{Sha256} (token : string) : string := sha256_hex token.

Fixpoint xor_fold (diff : N) (a b : string) : N :=
  match a, b with
  | String x a, String y b => xor_fold (N.lor diff (N.lxor (byte_of x) (byte_of y))) a b
  | _, _ => diff
  end.

(** Constant-time equality. *)
Definition ct_eq (a b : string) : bool :=
  if decide (String.length a ≠ String.length b) then false else (xor_fold 0 a b =? 0)%N.

(** [HeaderValue::to_str]: visible ASCII and tabs only. *)
Definition header_to_str (bytes : string) : option string :=
  if forallb (λ a, ((32 <=? byte_of a) && (byte_of a <? 127))%N || (byte_of a =? 9)%N)
       (String.list_ascii_of_string bytes) then Some bytes else None.

Definition bearer_token (header : option string) : ApiResult string :=
  h ← ok_or header Unauthorized;
  h ← ok_or (header_to_str h) Unauthorized;
  if negb (starts_with "Bearer " h) then Err Unauthorized
  else
    let token := trim (str_from 7 h) in
    if decide (token = "") then Err Unauthorized else Ok token.

(** ** The store *)

Definition set_password (hash : string) (u : DbUser) : DbUser :=
  mkUser (u_id u) (u_username u) hash (u_roles_json u) (u_created_at u) (u_disabled_at u).
Definition set_roles_json (roles : string) (u : DbUser) : DbUser :=
  mkUser (u_id u) (u_username u) (u_password_hash u) roles (u_created_at u) (u_disabled_at u).
Definition set_disabled (at_ : option string) (u : DbUser) : DbUser :=
  mkUser (u_id u) (u_username u) (u_password_hash u) (u_roles_json u) (u_created_at u) at_.

Definition is_enabled (u : DbUser) : bool := bool_decide (u_disabled_at u = None).

Record UserListRow := mkUserListRow {
  ul_id : string;
  ul_username : string;
  ul_roles : list Role;
  ul_created_at : string;
  ul_disabled_at : option string
}.

(** What is about to happen to the target user. *)
Inductive ProposedChange := Disable | SetRoles (roles : list Role).

Section Store.
Context `{JsonCodec, Sha256, SqlErrors, Argon2, Jiff}.

Definition hash_password (salt plaintext : string) : ApiResult string :=
  map_err (λ e, Internal [Txt "argon2 hash: "; Ext e]) (argon2_hash salt plaintext).

Definition verify_password (plaintext stored_phc : string) : bool := argon2_verify plaintext stored_phc.

Definition create_user (id salt now username password : string) (roles : list Role) : tx string := λ d,
  if decide (username = "" ∨ password = "") then
    Some (Err (BadRequest [Txt "username and password must be non-empty"]))
  else
    match hash_password salt password with
    | Err e => Some (Err e)
    | Ok hash =>
        let row := mkUser id username hash (roles_to_json roles) now None in
        if decide (id ∈ map u_id (users d) ∨ username ∈ map u_username (users d)) then
          Some (Err (Conflict [Txt "user "; Dbg username; Txt " already exists"]))
        else Some (Ok (id, set_users (users d ++ [row]) (user_tokens d) d))
    end.

Definition user_record (u : DbUser) : UserRecord :=
  mkUserRecord (u_id u) (u_username u) (roles_of_json (u_roles_json u)).

(** The reads of [login]. *)
Definition login_check (username password : string) (d : Db) : ApiResult UserRecord :=
  u ← ok_or (List.find (λ u, seqb (u_username u) username) (users d)) Unauthorized;
  if negb (is_enabled u) then Err Unauthorized
  else if negb (verify_password password (u_password_hash u)) then Err Unauthorized
  else Ok (user_record u).

Definition token_expiry (clock ttl_secs : Z) : ApiResult Z :=
  span ← map_err (λ e, Internal [Txt "ttl span: "; Ext e]) (ts_span ttl_secs);
  map_err (λ e, Internal [Txt "ttl arithmetic: "; Ext e]) (ts_add clock span).

(** [INSERT INTO user_tokens]; the token hash is the primary key. *)
Definition insert_token (row : DbUserToken) : tx () := λ d,
  if decide (ut_token_hash row ∈ map ut_token_hash (user_tokens d)) then Some (Err (Sqlx unique_violation))
  else Some (Ok ((), set_users (users d) (user_tokens d ++ [row]) d)).

(** The insert of [login], with the token drawn. *)
Definition login_issue (user : UserRecord) (ttl_secs : Z) (token : string) (clock : Z)
    : tx (string * string * UserRecord) :=
  let! expires := tx_lift (token_expiry clock ttl_secs) in
  insert_token (mkUserToken (hash_token token) (ur_id user) (ts_print clock) (ts_print expires)) ;;
  tx_ret (token, ts_print expires, user).

Definition login (username password : string) (ttl_secs : Z) (token : string) (clock : Z)
    : tx (string * string * UserRecord) :=
  let! d := tx_get in
  let! user := tx_lift (login_check username password d) in
  login_issue user ttl_secs token clock.

(** [user_tokens JOIN users] for a live token. *)
Definition token_user (token_hash now : string) (d : Db) : option DbUser :=
  t ← List.find (λ t, seqb (ut_token_hash t) token_hash && str_lt now (ut_expires_at t)) (user_tokens d);
  List.find (λ u, seqb (u_id u) (ut_user_id t)) (users d).

Definition delete_tokens (p : DbUserToken → bool) (d : Db) : Db :=
  set_users (users d) (delete_where p (user_tokens d)) d.

Definition refresh_user_token (token : string) (ttl_secs : Z) (new_token : string) (clock : Z)
    : tx (string * string * UserRecord) :=
  let old_hash := hash_token token in
  let! d := tx_get in
  let! u := tx_lift (ok_or (token_user old_hash (ts_print clock) d) Unauthorized) in
  if negb (is_enabled u) then tx_throw Unauthorized
  else
  let! expires := tx_lift (token_expiry clock ttl_secs) in
  let p := λ t, seqb (ut_token_hash t) old_hash in
  if decide (count_if p (user_tokens d) ≠ 1) then tx_throw Unauthorized
  else
  tx_modify (delete_tokens p) ;;
  insert_token (mkUserToken (hash_token new_token) (u_id u) (ts_print clock) (ts_print expires)) ;;
  tx_ret (new_token, ts_print expires, user_record u).

Definition find_user_by_token (token now : string) (d : Db) : option UserRecord :=
  u ← token_user (hash_token token) now d;
  if is_enabled u then Some (user_record u) else None.

Definition revoke_user_token (token : string) : tx () :=
  tx_modify (delete_tokens (λ t, seqb (ut_token_hash t) (hash_token token))).

Definition prune_expired_tokens (now : string) : tx nat :=
  let! d := tx_get in
  let p := λ t, str_le (ut_expires_at t) now in
  tx_modify (delete_tokens p) ;;
  tx_ret (count_if p (user_tokens d)).

Definition user_count (d : Db) : nat := length (users d).

Definition list_users (d : Db) : list UserListRow :=
  map (λ u, mkUserListRow (u_id u) (u_username u) (roles_of_json (u_roles_json u)) (u_created_at u) (u_disabled_at u))
    (order_by (λ a b, str_le (u_created_at a) (u_created_at b)) (users d)).

(** A user who is enabled and has the role Admin in this list. *)
Definition active_admin (disabled : bool) (roles : list Role) : bool :=
  negb disabled && bool_decide (Admin ∈ roles).

(** Disabled flag and roles of a user after the change. *)
Definition effective (target : string) (change : ProposedChange) (u : DbUser) : bool * list Role :=
  let current := roles_of_json (u_roles_json u) in
  if seqb (u_id u) target then
    match change with
    | Disable => (true, current)
    | SetRoles roles => (negb (is_enabled u), roles)
    end
  else (negb (is_enabled u), current).

Definition ensure_active_admin_remains (target : string) (change : ProposedChange) (d : Db) : ApiResult () :=
  let before := count_if (λ u, active_admin (negb (is_enabled u)) (roles_of_json (u_roles_json u))) (users d) in
  let after := count_if (λ u, let '(dis, roles) := effective target change u in active_admin dis roles) (users d) in
  if decide (0 < before ∧ after = 0) then
    Err (Conflict [Txt "refusing change: at least one active admin must remain"])
  else Ok ().

Definition update_users (p : DbUser → bool) (f : DbUser → DbUser) (d : Db) : Db :=
  set_users (update_where p f (users d)) (user_tokens d) d.

(** An UPDATE of users that must touch a row. *)
Definition update_some_user (p : DbUser → bool) (f : DbUser → DbUser) : tx () := λ d,
  if decide (count_if p (users d) = 0) then Some (Err NotFound) else Some (Ok ((), update_users p f d)).

Definition update_user_roles (user_id : string) (roles : list Role) : tx () :=
  let! d := tx_get in
  let! _ := tx_lift (ensure_active_admin_remains user_id (SetRoles roles) d) in
  update_some_user (λ u, seqb (u_id u) user_id) (set_roles_json (roles_to_json roles)).

Definition disable_user (user_id now : string) : tx () :=
  let! d := tx_get in
  let! _ := tx_lift (ensure_active_admin_remains user_id Disable d) in
  update_some_user (λ u, seqb (u_id u) user_id && is_enabled u) (set_disabled (Some now)) ;;
  tx_modify (delete_tokens (λ t, seqb (ut_user_id t) user_id)).

Definition enable_user (user_id : string) : tx () :=
  update_some_user (λ u, seqb (u_id u) user_id && negb (is_enabled u)) (set_disabled None).

Definition set_user_password (user_id salt new_password : string) : tx () :=
  if decide (new_password = "") then tx_throw (BadRequest [Txt "password must not be empty"])
  else
  let! hash := tx_lift (hash_password salt new_password) in
  update_some_user (λ u, seqb (u_id u) user_id) (set_password hash) ;;
  tx_modify (delete_tokens (λ t, seqb (ut_user_id t) user_id)).

(** ** Resolution of a bearer token *)

Definition resolve (admin_token : option string) (token now : string) (d : Db) : ApiResult Identity :=
  if match admin_token with Some expected => ct_eq (hash_token token) (hash_token expected) | None => false end
  then Ok LegacyAdmin
  else match find_user_by_token token now d with
       | Some u => Ok (User (ur_id u) (ur_username u) (ur_roles u))
       | None => Err Unauthorized
       end.

Definition require_role (admin_token : option string) (token now : string) (required : Role) (d : Db)
    : ApiResult Identity :=
  identity ← resolve admin_token token now d;
  if has_role identity required then Ok identity else Err Forbidden.

End Store.

(** ** The user and session endpoints (api/auth.rs, api/users.rs)

    What the handlers do around the store: the role check, the audit entries,
    and the order of the calls. The rate limiter's verdict on a login is an
    argument; the JSON of the responses is left out. *)

(** What a request draws from outside: the clock as a timestamp, the texts of
    later readings, a random token, a salt and a ULID. *)
Record Draw := mkDraw {
  dw_clock : Z;
  dw_now : string;
  dw_audit_now : string;
  dw_token : string;
  dw_salt : string;
  dw_ulid : string
}.

Record UpdateUserRequest := mkUpdateUser {
  up_roles : option (list string);
  up_disabled : option bool;
  up_password : option string
}.

Definition TOKEN_TTL_SECS : Z := 24 * 60 * 60.

Section Handlers.
Context `{JsonCodec, Sha256, SqlErrors, Argon2, Jiff} (admin_token : option string).

Definition h_require_role (bearer now : string) (required : Role) : handler Identity :=
  h_read (require_role admin_token bearer now required).

(** [let _ = store.record_audit(..).await]. *)
Definition audit_quietly (now : string) (rec : AuditRecord) : handler () :=
  let+ _ := h_try (h_call (record_audit now rec)) in h_ret ().

Definition handle_login (username password : string) (limit : ApiResult ()) (w : Draw)
    : handler (string * string * list string) :=
  if decide (username = "" ∨ password = "") then
    h_throw (BadRequest [Txt "username and password must be non-empty"])
  else
  let+ _ := h_lift limit in
  let+ outcome := h_try (h_call (login username password TOKEN_TTL_SECS (dw_token w) (dw_clock w))) in
  match outcome with
  | Ok (token, expires_at, user) =>
      audit_quietly (dw_audit_now w)
        (with_severity "info" (record_new ("user:" +:+ username) "auth.login_succeeded")) ;+
      h_ret (token, expires_at, map role_to_str (ur_roles user))
  | Err e =>
      let kind := match e with Unauthorized => "auth.login_failed" | _ => "auth.login_errored" end in
      audit_quietly (dw_audit_now w)
        (with_payload (json_object [("attempted_username", JString username)])
          (with_severity "warning" (record_new "anonymous" kind))) ;+
      h_throw e
  end.

Definition handle_logout (bearer : string) (w : Draw) : handler () :=
  let+ identity := h_try (h_read (resolve admin_token bearer (dw_now w))) in
  h_call (revoke_user_token bearer) ;+
  match identity with
  | Ok id => audit_quietly (dw_audit_now w) (with_severity "info" (record_new (audit_actor id) "auth.logout"))
  | Err _ => h_ret ()
  end.

Definition handle_refresh (bearer : string) (w : Draw) : handler (string * string * list string) :=
  let+ '(token, expires_at, user) := h_call (refresh_user_token bearer TOKEN_TTL_SECS (dw_token w) (dw_clock w)) in
  audit_quietly (dw_audit_now w)
    (with_payload (json_object [("user_id", JString (ur_id user))])
      (with_severity "info" (record_new ("user:" +:+ ur_username user) "auth.token_refreshed"))) ;+
  h_ret (token, expires_at, map role_to_str (ur_roles user)).

Definition record_user_audit (identity : Identity) (kind user_id username : string) (roles : list Role) (now : string)
    : handler () :=
  h_call (record_audit now
    (with_payload (json_object [("user_id", JString user_id); ("username", JString username);
                                ("roles", json_strings (map role_to_str roles))])
      (record_new (audit_actor identity) kind))).

Definition handle_create_user (bearer username password : string) (roles : list string) (w : Draw) : handler string :=
  let+ identity := h_require_role bearer (dw_now w) Admin in
  let+ roles := h_lift (parse_roles roles) in
  let+ user_id := h_call (create_user (dw_ulid w) (dw_salt w) (dw_now w) username password roles) in
  record_user_audit identity "user.created" user_id username roles (dw_audit_now w) ;+
  h_ret user_id.

Definition handle_list_users (bearer : string) (w : Draw) : handler (list UserListRow) :=
  let+ _ := h_require_role bearer (dw_now w) Admin in
  h_read (λ d, Ok (list_users d)).

Definition handle_update_user (bearer user_id : string) (req : UpdateUserRequest) (w : Draw) : handler (list string) :=
  let+ identity := h_require_role bearer (dw_now w) Admin in
  let+ applied1 :=
    match up_roles req with
    | Some strs =>
        let+ roles := h_lift (parse_roles strs) in
        h_call (update_user_roles user_id roles) ;+ h_ret ["roles"]
    | None => h_ret []
    end in
  let+ applied2 :=
    match up_disabled req with
    | Some true => h_call (disable_user user_id (dw_now w)) ;+ h_ret (applied1 ++ ["disabled"])
    | Some false => h_call (enable_user user_id) ;+ h_ret (applied1 ++ ["enabled"])
    | None => h_ret applied1
    end in
  let+ applied :=
    match up_password req with
    | Some p => h_call (set_user_password user_id (dw_salt w) p) ;+ h_ret (applied2 ++ ["password"])
    | None => h_ret applied2
    end in
  if decide (applied = []) then
    h_throw (BadRequest [Txt "request must set at least one of: roles, disabled, password"])
  else
    h_call (record_audit (dw_audit_now w)
      (with_payload (json_object
         [("user_id", JString user_id); ("fields", json_strings applied);
          ("roles", match up_roles req with Some r => json_strings r | None => JNull end);
          ("disabled", match up_disabled req with Some b => JBool b | None => JNull end);
          ("password_changed", JBool (bool_decide (is_Some (up_password req))))])
      (record_new (audit_actor identity) "user.updated"))) ;+
    h_ret applied.

Definition handle_disable_user (bearer user_id : string) (w : Draw) : handler () :=
  let+ identity := h_require_role bearer (dw_now w) Admin in
  h_call (disable_user user_id (dw_now w)) ;+
  h_call (record_audit (dw_audit_now w)
    (with_payload (json_object [("user_id", JString user_id)])
      (record_new (audit_actor identity) "user.disabled"))).

End Handlers.
