(* ===== verification/UserProps.v ===== *)
(** * Users: who gets in, and what a change takes away

    The meaning of the role check, that an active administrator always
    remains, what rotation and revocation do to sessions, and two gaps that
    open between the store calls. *)

From stdpp Require Import pretty.
From S2P Require Import Prelude Text Json ApiError Routing Db AuditLog AuditChain Operations Clock Handler Users.

#[local] Open Scope string_scope.
#[local] Open Scope list_scope.
#[local] Open Scope nat_scope.
#[local] Open Scope tx_scope.
#[local] Open Scope handler_scope.

(** ** Comparison and roles *)

Lemma lor_0 a b : N.lor a b = 0%N ↔ a = 0%N ∧ b = 0%N.
Proof. rewrite N.lor_eq_0_iff. done. Qed.

Lemma byte_of_inj a b : byte_of a = byte_of b → a = b.
Proof. intros H. rewrite <- (Ascii.ascii_N_embedding a), <- (Ascii.ascii_N_embedding b). unfold byte_of in H. by rewrite H. Qed.

Lemma xor_fold_0 a : ∀ b diff,
  String.length a = String.length b → xor_fold diff a b = 0%N ↔ diff = 0%N ∧ a = b.
Proof.
  induction a as [|x a IH]; intros [|y b] diff Hl; cbn in Hl; try done; cbn [xor_fold].
  - split; [done|by intros [? _]].
  - rewrite IH, lor_0, N.lxor_eq_0_iff by lia. split.
    + intros [[-> Hb] ->]. apply byte_of_inj in Hb as ->. done.
    + by intros [-> [= -> ->]].
Qed.

(** The constant-time comparison is equality. *)
Lemma ct_eq_spec a b : ct_eq a b = true ↔ a = b.
Proof.
  unfold ct_eq. case_decide as Hl.
  - split; [done|]. by intros ->.
  - rewrite N.eqb_eq, xor_fold_0 by done. naive_solver.
Qed.

Lemma parse_role_to_str r : parse_role (role_to_str r) = Ok r.
Proof. by destruct r. Qed.

Lemma includes_spec a b : includes a b = true ↔ role_rank b ≤ role_rank a.
Proof. apply Nat.leb_le. Qed.

Lemma includes_trans a b c : includes a b = true → includes b c = true → includes a c = true.
Proof. rewrite !includes_spec. lia. Qed.

(** ** The role check *)

Section Auth.
Context `{JsonCodec, Sha256, SqlErrors, Argon2, Jiff}.

(** Serde reads back the role lists it prints. *)
Context (Hcodec : ∀ roles, json_from_str (roles_to_json roles) = Ok (JArray (map (λ r, JString (role_to_str r)) roles))).

Lemma roles_roundtrip roles : roles_of_json (roles_to_json roles) = roles.
Proof.
  unfold roles_of_json. rewrite Hcodec.
  enough (mapM role_of_json (map (λ r, JString (role_to_str r)) roles) = Some roles) as -> by done.
  assert (∀ r, role_of_json (JString (role_to_str r)) = Some r) as Hr.
  { intros r. unfold role_of_json. cbn. by rewrite parse_role_to_str. }
  induction roles as [|r rs IH]; [done|]. cbn -[role_of_json]. rewrite Hr. cbn -[role_of_json]. by rewrite IH.
Qed.

(** A session: a token row of an enabled user that has not expired. *)
Definition session (token now : string) (d : Db) (t : DbUserToken) (u : DbUser) : Prop :=
  t ∈ user_tokens d ∧ ut_token_hash t = hash_token token ∧ str_lt now (ut_expires_at t) = true ∧
  u ∈ users d ∧ u_id u = ut_user_id t ∧ u_disabled_at u = None.

(** Keys of the two tables. *)
Record UserInv (d : Db) : Prop := {
  ui_ids : NoDup (map u_id (users d));
  ui_names : NoDup (map u_username (users d));
  ui_tokens : NoDup (map ut_token_hash (user_tokens d))
}.

Lemma find_user_by_token_spec token now d r :
  UserInv d → find_user_by_token token now d = Some r ↔ ∃ t u, session token now d t u ∧ r = user_record u.
Proof.
  intros [Hids _ Htok]. unfold find_user_by_token, token_user, session. split.
  - intros Hf. destruct (List.find _ (user_tokens d)) as [t|] eqn:Et; [|done]. cbn in Hf.
    destruct (List.find _ (users d)) as [u|] eqn:Eu; [|done]. cbn in Hf.
    destruct (is_enabled u) eqn:Hen; [|done]. injection Hf as <-.
    apply find_some in Et as [Ht%list_elem_of_In [Hh%seqb_true Hlt]%andb_true_iff].
    apply find_some in Eu as [Hu%list_elem_of_In Hid%seqb_true]. apply bool_decide_eq_true in Hen.
    by exists t, u.
  - intros (t & u & (Ht & Hh & Hlt & Hu & Hid & Hen) & ->).
    rewrite (find_unique ut_token_hash _ _ t); [|done|done| |].
    2:{ rewrite Hlt, andb_true_r. by apply seqb_true. }
    2:{ intros y _ [Hy%seqb_true _]%andb_true_iff. congruence. }
    cbn. rewrite (find_unique u_id _ _ u); [|done|done|by apply seqb_true|].
    2:{ intros y _ Hy%seqb_true. congruence. }
    cbn. unfold is_enabled. by rewrite bool_decide_true.
Qed.

Lemma find_user_by_token_None token now d :
  UserInv d → find_user_by_token token now d = None ↔ ∀ t u, ¬ session token now d t u.
Proof.
  intros Hi. split.
  - intros Hn t u Hs. enough (find_user_by_token token now d = Some (user_record u)) by congruence.
    apply find_user_by_token_spec; eauto.
  - intros Hn. destruct (find_user_by_token token now d) as [r|] eqn:E; [|done].
    apply find_user_by_token_spec in E as (t & u & Hs & _); [|done]. by destruct (Hn t u).
Qed.

(** The role check lets in exactly the bootstrap token, when one is
    configured, and the sessions of enabled users one of whose roles is at
    least the required one; a session with lower roles is forbidden and any
    other token, an agent's included, is unauthorized. *)
Theorem require_role_decides admin_token token now required d :
  UserInv d →
  let bootstrap := ∃ expected, admin_token = Some expected ∧ hash_token token = hash_token expected in
  match require_role admin_token token now required d with
  | Ok LegacyAdmin => bootstrap
  | Ok (User id username roles) =>
      ¬ bootstrap ∧ ∃ t u, session token now d t u ∧ id = u_id u ∧ username = u_username u ∧
        roles = roles_of_json (u_roles_json u) ∧ ∃ r, r ∈ roles ∧ role_rank required ≤ role_rank r
  | Ok (AgentId _ _) => False
  | Err Forbidden =>
      ¬ bootstrap ∧ ∃ t u, session token now d t u ∧
        ∀ r, r ∈ roles_of_json (u_roles_json u) → role_rank r < role_rank required
  | Err Unauthorized => ¬ bootstrap ∧ ∀ t u, ¬ session token now d t u
  | Err _ => False
  end.
Proof.
  intros Hi bootstrap. unfold require_role, resolve.
  set (boot := match admin_token with Some _ => _ | None => false end).
  assert (boot = true ↔ bootstrap) as Hb.
  { unfold boot, bootstrap. destruct admin_token as [e|]; [rewrite ct_eq_spec|]; naive_solver. }
  destruct boot; cbn [mbind result_bind has_role]; [by apply Hb|].
  assert (¬ bootstrap) as Hnb by (by intros Hx%Hb).
  destruct (find_user_by_token token now d) as [r|] eqn:E; cbn [mbind result_bind].
  - apply find_user_by_token_spec in E as (t & u & Hs & ->); [|done]. cbn [has_role user_record ur_roles ur_id ur_username].
    destruct (existsb _ _) eqn:Ex.
    + apply existsb_exists in Ex as (r & Hr%list_elem_of_In & Hinc%includes_spec). split; [done|].
      exists t, u. split_and!; try done. by exists r.
    + split; [done|]. exists t, u. split; [done|]. intros r Hr%list_elem_of_In.
      apply not_true_iff_false in Ex. apply Nat.nle_gt. intros Hle. apply Ex, existsb_exists.
      exists r. split; [done|]. by apply includes_spec.
  - split; [done|]. by apply find_user_by_token_None.
Qed.

(** ** An active administrator remains *)

Definition has_active_admin (d : Db) : Prop :=
  ∃ u, u ∈ users d ∧ u_disabled_at u = None ∧ Admin ∈ roles_of_json (u_roles_json u).

(** The requests of the user and session endpoints. *)
Inductive UserRequest :=
| ReqLogin (username password : string) (limit : ApiResult ())
| ReqLogout (bearer : string)
| ReqRefresh (bearer : string)
| ReqCreate (bearer username password : string) (roles : list string)
| ReqList (bearer : string)
| ReqUpdate (bearer user_id : string) (req : UpdateUserRequest)
| ReqDisable (bearer user_id : string).

Definition user_step (admin_token : option string) (req : UserRequest) (w : Draw) : Db → Db :=
  match req with
  | ReqLogin username password limit => h_db (handle_login username password limit w)
  | ReqLogout bearer => h_db (handle_logout admin_token bearer w)
  | ReqRefresh bearer => h_db (handle_refresh bearer w)
  | ReqCreate bearer username password roles => h_db (handle_create_user admin_token bearer username password roles w)
  | ReqList bearer => h_db (handle_list_users admin_token bearer w)
  | ReqUpdate bearer user_id req => h_db (handle_update_user admin_token bearer user_id req w)
  | ReqDisable bearer user_id => h_db (handle_disable_user admin_token bearer user_id w)
  end.

(** A property of the user table alone. *)
Definition keeps_users {A} (m : tx A) : Prop := ∀ d, users (committed m d) = users d.

Lemma keeps_users_record_audit now rec : keeps_users (record_audit now rec).
Proof. by intros d. Qed.

Lemma insert_token_users row : keeps_users (insert_token row).
Proof. intros d. unfold committed, insert_token. by case_decide. Qed.

Lemma login_users username password ttl token clock :
  keeps_users (login username password ttl token clock).
Proof.
  intros d. unfold committed, login, login_issue, tx_bind, tx_get, tx_lift, insert_token.
  destruct (login_check _ _ _); [|done]. destruct (token_expiry _ _); [|done]. by case_decide.
Qed.

Lemma refresh_users token ttl new clock : keeps_users (refresh_user_token token ttl new clock).
Proof.
  intros d. unfold committed, refresh_user_token, tx_bind, tx_get, tx_lift, insert_token, tx_modify.
  destruct (ok_or _ _) as [u|]; [|done]. destruct (is_enabled u); [|done]. cbn. destruct (token_expiry _ _); [|done].
  case_decide; [done|]. by case_decide.
Qed.

Lemma revoke_users token : keeps_users (revoke_user_token token).
Proof. by intros d. Qed.

Lemma guard_passed target change d :
  has_active_admin d → ensure_active_admin_remains target change d = Ok () →
  ∃ u, u ∈ users d ∧ (let '(dis, roles) := effective target change u in active_admin dis roles) = true.
Proof.
  intros (u & Hu & Hen & Hadm) Hg. unfold ensure_active_admin_remains in Hg. case_decide as Hc; [done|].
  apply count_if_pos. destruct (decide (count_if (λ u, let '(dis, roles) := effective target change u in
    active_admin dis roles) (users d) = 0)) as [Hz|]; [|lia]. destruct Hc. split; [|done].
  apply count_if_pos. exists u. split; [done|]. unfold active_admin, is_enabled.
  rewrite bool_decide_true by done. by rewrite bool_decide_true.
Qed.

Lemma active_admin_true dis roles : active_admin dis roles = true ↔ dis = false ∧ Admin ∈ roles.
Proof. unfold active_admin. rewrite andb_true_iff, negb_true_iff, bool_decide_eq_true. done. Qed.

Lemma is_enabled_negb u : negb (is_enabled u) = false ↔ u_disabled_at u = None.
Proof. unfold is_enabled. rewrite negb_false_iff, bool_decide_eq_true. done. Qed.

Lemma update_roles_keeps user_id roles d :
  has_active_admin d → has_active_admin (committed (update_user_roles user_id roles) d).
Proof.
  intros Had. unfold committed, update_user_roles, tx_bind, tx_get, tx_lift, update_some_user.
  destruct (ensure_active_admin_remains _ _ d) as [[]|] eqn:Eg; [|done]. case_decide; [done|].
  destruct (guard_passed _ _ _ Had Eg) as (u & Hu & He). unfold effective in He. cbn.
  exists (if seqb (u_id u) user_id then set_roles_json (roles_to_json roles) u else u).
  split; [apply elem_of_update_where; by exists u|].
  destruct (seqb (u_id u) user_id); apply active_admin_true in He as [Hd%is_enabled_negb Ha]; [|done].
  split; [done|]. cbn. by rewrite roles_roundtrip.
Qed.

Lemma disable_keeps user_id now d :
  has_active_admin d → has_active_admin (committed (disable_user user_id now) d).
Proof.
  intros Had. unfold committed, disable_user, tx_bind, tx_get, tx_lift, update_some_user, tx_modify.
  destruct (ensure_active_admin_remains _ _ d) as [[]|] eqn:Eg; [|done]. case_decide; [done|].
  destruct (guard_passed _ _ _ Had Eg) as (u & Hu & He). unfold effective in He. cbn.
  destruct (seqb (u_id u) user_id) eqn:Hid; apply active_admin_true in He as [Hd Ha]; [done|].
  apply is_enabled_negb in Hd. exists u. split; [|done]. apply elem_of_update_where. exists u. by rewrite Hid.
Qed.

Lemma enable_keeps user_id d : has_active_admin d → has_active_admin (committed (enable_user user_id) d).
Proof.
  intros (u & Hu & Hen & Ha). unfold committed, enable_user, update_some_user. case_decide; [by exists u|].
  exists u. split; [|done]. apply elem_of_update_where. exists u. split; [done|].
  apply is_enabled_negb in Hen. by rewrite Hen, andb_false_r.
Qed.

Lemma set_password_keeps user_id salt p d :
  has_active_admin d → has_active_admin (committed (set_user_password user_id salt p) d).
Proof.
  intros (u & Hu & Hen & Ha). unfold committed, set_user_password. case_decide; [by exists u|].
  unfold tx_bind, tx_lift, update_some_user, tx_modify. destruct (hash_password salt p) as [hash|]; [|by exists u].
  case_decide; [by exists u|]. exists (if seqb (u_id u) user_id then set_password hash u else u).
  split; [apply elem_of_update_where; by exists u|]. by destruct (seqb (u_id u) user_id).
Qed.

Lemma create_keeps id salt now username password roles d :
  has_active_admin d → has_active_admin (committed (create_user id salt now username password roles) d).
Proof.
  intros (u & Hu & Hen & Ha). unfold committed, create_user. case_decide; [by exists u|].
  destruct (hash_password salt password); [|by exists u]. case_decide; [by exists u|].
  exists u. split; [|done]. apply elem_of_app. by left.
Qed.

Lemma keeps_admin {A} (m : tx A) : keeps_users m → preserves has_active_admin (h_call m).
Proof. intros Hm. apply preserves_call. intros d (u & Hu & ?). exists u. by rewrite Hm. Qed.

Lemma audit_quietly_keeps now rec : preserves has_active_admin (audit_quietly now rec).
Proof.
  apply preserves_bind; [|intros ?; by apply preserves_same].
  apply preserves_try, keeps_admin, keeps_users_record_audit.
Qed.

Lemma read_keeps {A} (f : Db → ApiResult A) : preserves has_active_admin (h_read f).
Proof. by apply preserves_same. Qed.

Lemma step_keeps_admin admin_token req w d :
  has_active_admin d → has_active_admin (user_step admin_token req w d).
Proof.
  destruct req as [username password limit|bearer|bearer|bearer username password roles|bearer
    |bearer user_id req|bearer user_id]; cbn [user_step]; revert d;
    match goal with |- ∀ d, _ → has_active_admin (h_db ?m d) => change (preserves has_active_admin m) end.
  - unfold handle_login. case_decide; [by apply preserves_same|].
    apply preserves_bind; [by apply preserves_same|intros _].
    apply preserves_bind; [apply preserves_try, keeps_admin, login_users|].
    intros [[[token expires] user]|e]; (apply preserves_bind; [apply audit_quietly_keeps|intros ?; by apply preserves_same]).
  - apply preserves_bind; [apply preserves_try, read_keeps|intros identity].
    apply preserves_bind; [apply keeps_admin, revoke_users|intros ?].
    destruct identity; [apply audit_quietly_keeps|by apply preserves_same].
  - apply preserves_bind; [apply keeps_admin, refresh_users|intros [[token expires] user]].
    apply preserves_bind; [apply audit_quietly_keeps|intros ?; by apply preserves_same].
  - apply preserves_bind; [apply read_keeps|intros identity].
    apply preserves_bind; [by apply preserves_same|intros rs].
    apply preserves_bind; [apply preserves_call; intros d; apply create_keeps|intros id].
    apply preserves_bind; [apply keeps_admin, keeps_users_record_audit|intros ?; by apply preserves_same].
  - apply preserves_bind; [apply read_keeps|intros identity]. apply read_keeps.
  - apply preserves_bind; [apply read_keeps|intros identity].
    apply preserves_bind.
    { destruct (up_roles req); [|by apply preserves_same]. apply preserves_bind; [by apply preserves_same|intros rs].
      apply preserves_bind; [apply preserves_call; intros d; apply update_roles_keeps|intros ?; by apply preserves_same]. }
    intros applied1. apply preserves_bind.
    { destruct (up_disabled req) as [[|]|]; [| |by apply preserves_same];
        (apply preserves_bind; [apply preserves_call; intros d; apply disable_keeps || apply enable_keeps
                               |intros ?; by apply preserves_same]). }
    intros applied2. apply preserves_bind.
    { destruct (up_password req); [|by apply preserves_same].
      apply preserves_bind; [apply preserves_call; intros d; apply set_password_keeps|intros ?; by apply preserves_same]. }
    intros applied. case_decide; [by apply preserves_same|].
    apply preserves_bind; [apply keeps_admin, keeps_users_record_audit|intros ?; by apply preserves_same].
  - apply preserves_bind; [apply read_keeps|intros identity].
    apply preserves_bind; [apply preserves_call; intros d; apply disable_keeps|intros ?].
    apply keeps_admin, keeps_users_record_audit.
Qed.

(** C15: Once the user table has an enabled administrator it keeps one,
    through any sequence of requests to the user and session endpoints,
    whoever sends them and however they end. *)
Theorem active_admin_kept admin_token reqs d :
  has_active_admin d →
  has_active_admin (foldl (λ d '(req, w), user_step admin_token req w d) d reqs).
Proof.
  revert d. induction reqs as [|[req w] reqs IH]; intros d Hd; [done|]. cbn. by apply IH, step_keeps_admin.
Qed.

(** ** Revocation *)

(** All the sessions of a user are gone, all others are as they were. *)
Definition revoked (user_id : string) (d d' : Db) : Prop :=
  (∀ t, t ∈ user_tokens d' → ut_user_id t ≠ user_id) ∧
  (∀ t, ut_user_id t ≠ user_id → (t ∈ user_tokens d' ↔ t ∈ user_tokens d)).

Lemma delete_tokens_revoked user_id d : revoked user_id d (delete_tokens (λ t, seqb (ut_user_id t) user_id) d).
Proof.
  split.
  - intros t [_ Hp]%elem_of_delete_where He. apply not_true_iff_false in Hp. by apply Hp, seqb_true.
  - intros t Hne. cbn. rewrite elem_of_delete_where. split; [by intros [? _]|]. intros Ht. split; [done|].
    apply not_true_iff_false. by rewrite seqb_true.
Qed.

(** C33: Disabling a user or resetting the password takes every session of
    that user away at once and no one else's: afterwards no token of any kind
    resolves to the user (until a new login), and the sessions of the others
    are the same. *)
Theorem revocation_complete user_id now salt p d d' :
  UserInv d →
  disable_user user_id now d = Some (Ok ((), d')) ∨ set_user_password user_id salt p d = Some (Ok ((), d')) →
  (∀ token now' r, find_user_by_token token now' d' = Some r → ur_id r ≠ user_id) ∧
  (∀ token now' t u, u_id u ≠ user_id → (session token now' d' t u ↔ session token now' d t u)).
Proof.
  intros Hi Hrun.
  assert (∃ p f, d' = delete_tokens (λ t, seqb (ut_user_id t) user_id) (update_users p f d) ∧
            (∀ u, p u = true → u_id u = user_id) ∧ (∀ u, u_id (f u) = u_id u) ∧ (∀ u, u_username (f u) = u_username u))
    as (q & f & -> & Hq & Hf & Hn).
  { destruct Hrun as [Hrun|Hrun].
    - tx_step Hrun. injection Ha as <- <-. tx_step Hrun. apply tx_lift_Ok in Ha as [_ ->]. tx_step Hrun.
      unfold update_some_user in Ha. case_decide; [done|]. injection Ha as <- <-. injection Hrun as <-.
      eexists _, _. split_and!; [done| |done|done]. intros u [Hu _]%andb_true_iff. by apply seqb_true.
    - unfold set_user_password in Hrun. case_decide; [done|]. tx_step Hrun. apply tx_lift_Ok in Ha as [_ ->].
      tx_step Hrun. unfold update_some_user in Ha. case_decide; [done|]. injection Ha as <- <-.
      injection Hrun as <-. eexists _, _. split_and!; [done| |done|done]. intros u Hu. by apply seqb_true. }
  set (d1 := update_users q f d). destruct (delete_tokens_revoked user_id d1) as [Hgone Hkept].
  assert (UserInv (delete_tokens (λ t, seqb (ut_user_id t) user_id) d1)) as Hi'.
  { destruct Hi as [I1 I2 I3]. split; cbn; [by rewrite update_where_column..|].
    by apply NoDup_map_filter. }
  split.
  - intros token now' r (t & u & (Ht & _ & _ & _ & Hid & _) & ->)%find_user_by_token_spec; [|done].
    cbn. rewrite Hid. by apply Hgone.
  - intros token now' t u Hne. unfold session.
    assert (u ∈ users d1 ↔ u ∈ users d) as Hu.
    { cbn. rewrite elem_of_update_where. split.
      - intros (u0 & Hu0 & ->). destruct (q u0) eqn:E; [|done]. apply Hq in E. rewrite Hf in Hne. done.
      - intros Hin. exists u. split; [done|]. destruct (q u) eqn:E; [|done]. by apply Hq in E. }
    change (users (delete_tokens _ d1)) with (users d1). rewrite Hu. split.
    + intros (Ht & ? & ? & ? & Hid & ?). split_and!; try done. apply Hkept in Ht; [done|congruence].
    + intros (Ht & ? & ? & ? & Hid & ?). split_and!; try done. apply Hkept; [congruence|done].
Qed.

(** ** Rotation *)

(** Deleting by a key without duplicates deletes one row. *)
Lemma delete_one {A} (g : A → string) k (rows : list A) r :
  r ∈ rows → g r = k → NoDup (map g rows) →
  length (delete_where (λ r, seqb (g r) k) rows) + 1 = length rows.
Proof.
  intros Hr Hk. induction rows as [|x rows IH]; [by apply elem_of_nil in Hr|]. cbn. intros [Hin Hnd]%NoDup_cons.
  destruct (seqb (g x) k) eqn:E; cbn.
  - apply seqb_true in E. enough (delete_where (λ r, seqb (g r) k) rows = rows) as He by (unfold delete_where in He; rewrite He; lia).
    unfold delete_where. clear IH Hr Hnd. induction rows as [|y rows IH]; [done|]. cbn in *.
    apply not_elem_of_cons in Hin as [Hne Hin]. destruct (seqb (g y) k) eqn:Ey; [apply seqb_true in Ey; congruence|].
    cbn. by rewrite IH.
  - apply elem_of_cons in Hr as [->|Hr]; [apply not_true_iff_false in E; by rewrite seqb_true in E|].
    unfold delete_where in IH. rewrite <- (IH Hr Hnd). lia.
Qed.

Lemma insert_token_Ok row d u d' :
  insert_token row d = Some (Ok (u, d')) →
  ut_token_hash row ∉ map ut_token_hash (user_tokens d) ∧ d' = set_users (users d) (user_tokens d ++ [row]) d.
Proof. unfold insert_token. case_decide; [done|]. by intros [= _ <-]. Qed.

(** A successful refresh, taken apart. *)
Lemma refresh_run token ttl new clock d tok exp r d' :
  refresh_user_token token ttl new clock d = Some (Ok ((tok, exp, r), d')) →
  ∃ u t expires,
    token_user (hash_token token) (ts_print clock) d = Some u ∧ u_disabled_at u = None ∧
    token_expiry clock ttl = Ok expires ∧ tok = new ∧ exp = ts_print expires ∧ r = user_record u ∧
    t = mkUserToken (hash_token new) (u_id u) (ts_print clock) exp ∧
    ut_token_hash t ∉ map ut_token_hash (delete_where (λ t, seqb (ut_token_hash t) (hash_token token)) (user_tokens d)) ∧
    users d' = users d ∧
    user_tokens d' = delete_where (λ t, seqb (ut_token_hash t) (hash_token token)) (user_tokens d) ++ [t].
Proof.
  intros Hrun. tx_step Hrun. injection Ha as <- <-. tx_step Hrun. rename a into u.
  apply tx_lift_Ok in Ha as [Hu ->]. destruct (is_enabled u) eqn:Hen; [|done]. cbn [negb] in Hrun.
  apply bool_decide_eq_true in Hen. tx_step Hrun. rename a into expires. apply tx_lift_Ok in Ha as [He ->].
  case_decide; [done|]. tx_step Hrun. injection Ha as _ <-. tx_step Hrun.
  apply insert_token_Ok in Ha as [Hnin ->]. injection Hrun as <- <- <- <-.
  exists u, (mkUserToken (hash_token new) (u_id u) (ts_print clock) (ts_print expires)), expires.
  split_and!; try done. by destruct (token_user _ _ d); [injection Hu as ->|].
Qed.

(** A refresh that succeeds replaces the session it was given: the old
    token never resolves again, the new one resolves, until its expiry, to the
    owner with the roles the owner has now, every other token resolves as
    before, and the number of sessions is unchanged; it succeeds only for a
    live session of an enabled user. *)
Theorem refresh_rotates token ttl new clock d tok exp r d' :
  UserInv d → hash_token new ≠ hash_token token →
  refresh_user_token token ttl new clock d = Some (Ok ((tok, exp, r), d')) →
  UserInv d' ∧ tok = new ∧
  (∃ t u, session token (ts_print clock) d t u ∧ r = user_record u) ∧
  (∀ now, find_user_by_token token now d' = None) ∧
  (∀ now, find_user_by_token new now d' = if str_lt now exp then Some r else None) ∧
  (∀ other now, hash_token other ≠ hash_token token → hash_token other ≠ hash_token new →
     find_user_by_token other now d' = find_user_by_token other now d) ∧
  length (user_tokens d') = length (user_tokens d).
Proof.
  intros Hi Hne (u & t & expires & Hu & Hen & _ & -> & -> & -> & Ht & Hnin & Hus & Hts)%refresh_run.
  set (kept := delete_where _ (user_tokens d)) in *.
  assert (find_user_by_token token (ts_print clock) d = Some (user_record u)) as Hold.
  { unfold find_user_by_token. rewrite Hu. cbn. unfold is_enabled. by rewrite bool_decide_true. }
  apply find_user_by_token_spec in Hold as (t0 & u0 & Hs & Hr); [|done].
  assert (UserInv d') as Hi'.
  { destruct Hi as [I1 I2 I3]. split; rewrite ?Hus; [done|done|]. rewrite Hts, map_app. apply NoDup_app.
    split_and!; [by apply NoDup_map_filter| |repeat constructor; by intros ?%elem_of_nil].
    intros h Hh ->%list_elem_of_singleton. done. }
  split_and!; [done|done|by exists t0, u0| | | |].
  - intros now. apply find_user_by_token_None; [done|]. intros t1 u1 (Ht1 & Hh & _). rewrite Hts in Ht1.
    apply elem_of_app in Ht1 as [[_ Hp]%elem_of_delete_where| ->%list_elem_of_singleton].
    + apply not_true_iff_false in Hp. by apply Hp, seqb_true.
    + rewrite Ht in Hh. done.
  - intros now. assert (u ∈ users d) as Hin.
    { unfold token_user in Hu. destruct (List.find _ (user_tokens d)); [|done].
      apply find_some in Hu as [Hu _]. by apply list_elem_of_In. }
    destruct (str_lt now (ts_print expires)) eqn:Hlt.
    + apply find_user_by_token_spec; [done|]. exists t, u. split; [|done]. subst t. unfold session.
      rewrite Hts, Hus. split_and!; try done. apply elem_of_app. right. by apply list_elem_of_singleton.
    + apply find_user_by_token_None; [done|]. intros t1 u1 (Ht1 & Hh & Hl & _). rewrite Hts in Ht1.
      apply elem_of_app in Ht1 as [Ht1| ->%list_elem_of_singleton].
      * apply Hnin. rewrite Ht. cbn. rewrite <- Hh. apply elem_of_map. eauto.
      * rewrite Ht in Hl. cbn in Hl. congruence.
  - intros other now Ho Hn. apply option_eq. intros r'. rewrite !find_user_by_token_spec by done.
    unfold session. rewrite Hts, Hus. split.
    + intros (t1 & u1 & (Ht1 & Hh & ?) & ?). exists t1, u1. split; [|done]. split; [|done].
      apply elem_of_app in Ht1 as [[? _]%elem_of_delete_where| ->%list_elem_of_singleton]; [done|]. rewrite Ht in Hh. done.
    + intros (t1 & u1 & (Ht1 & Hh & ?) & ?). exists t1, u1. split; [|done]. split; [|done].
      apply elem_of_app. left. apply elem_of_delete_where. split; [done|].
      apply not_true_iff_false. rewrite seqb_true. congruence.
  - rewrite Hts, length_app. cbn. unfold kept.
    assert (length (delete_where (λ t, seqb (ut_token_hash t) (hash_token token)) (user_tokens d)) + 1
            = length (user_tokens d)); [|done].
    destruct Hs as (Hin & Hh & _). destruct Hi as [_ _ I3]. by apply (delete_one ut_token_hash _ _ t0).
Qed.

(** ** Creation and login *)

(** The session [login_issue] stores. *)
Lemma issued_session user ttl token clock d tok exp r d' u :
  UserInv d → u ∈ users d → u_disabled_at u = None → ur_id user = u_id u →
  login_issue user ttl token clock d = Some (Ok ((tok, exp, r), d')) →
  tok = token ∧ r = user ∧
  ∀ now, find_user_by_token token now d' = if str_lt now exp then Some (user_record u) else None.
Proof.
  intros Hi Hu Hen Hid Hrun. tx_step Hrun. rename a into expires. apply tx_lift_Ok in Ha as [_ ->]. tx_step Hrun.
  apply insert_token_Ok in Ha as [Hnin ->]. injection Hrun as <- <- <- <-. split; [done|split; [done|]].
  set (row := mkUserToken _ _ _ _) in *. set (d' := set_users _ _ d).
  assert (UserInv d') as Hi'.
  { destruct Hi as [I1 I2 I3]. split; [done|done|]. cbn. rewrite map_app. apply NoDup_app.
    split_and!; [done| |repeat constructor; by intros ?%elem_of_nil].
    intros h Hh ->%list_elem_of_singleton. done. }
  intros now. destruct (str_lt now (ts_print expires)) eqn:Hlt.
  - apply find_user_by_token_spec; [done|]. exists row, u. split; [|done]. unfold session. split_and!; try done.
    cbn. apply elem_of_app. right. by apply list_elem_of_singleton.
  - apply find_user_by_token_None; [done|]. intros t1 u1 (Ht1 & Hh & Hl & _). cbn in Ht1.
    apply elem_of_app in Ht1 as [Ht1| ->%list_elem_of_singleton]; [|cbn in Hl; congruence].
    apply Hnin. cbn. rewrite <- Hh. apply elem_of_map. eauto.
Qed.

(** A user just created logs in with the password given at creation and
    no password the hash does not verify, and the session the login issues
    resolves, until its expiry, to the new user with exactly the roles given. *)
Theorem create_login_roundtrip id salt now name pw roles d d1 :
  (∀ salt p h, argon2_hash salt p = Ok h → argon2_verify p h = true) →
  UserInv d →
  create_user id salt now name pw roles d = Some (Ok (id, d1)) →
  login_check name pw d1 = Ok (mkUserRecord id name roles) ∧
  (∀ pw' h, argon2_hash salt pw = Ok h → argon2_verify pw' h = false → login_check name pw' d1 = Err Unauthorized) ∧
  ∀ ttl token clock tok exp r d2,
    login name pw ttl token clock d1 = Some (Ok ((tok, exp, r), d2)) →
    tok = token ∧ r = mkUserRecord id name roles ∧
    ∀ now', find_user_by_token token now' d2 = if str_lt now' exp then Some r else None.
Proof.
  intros Hlaw Hi Hc. unfold create_user in Hc. case_decide; [done|].
  destruct (hash_password salt pw) as [h|] eqn:Hh; [|done]. case_decide as Hfresh; [done|]. injection Hc as <-.
  assert (argon2_hash salt pw = Ok h) as Hh'.
  { unfold hash_password in Hh. by destruct (argon2_hash salt pw); [injection Hh as ->|]. }
  set (row := mkUser id name h (roles_to_json roles) now None). set (d1 := set_users _ _ d).
  assert (id ∉ map u_id (users d) ∧ name ∉ map u_username (users d)) as [Hid Hname] by tauto.
  assert (row ∈ users d1) as Hrow by (cbn; apply elem_of_app; right; by apply list_elem_of_singleton).
  assert (UserInv d1) as Hi1.
  { destruct Hi as [I1 I2 I3]. split; [| |done]; cbn; rewrite map_app; apply NoDup_app;
      (split_and!; [done| |repeat constructor; by intros ?%elem_of_nil]);
      intros n Hn ->%list_elem_of_singleton; done. }
  assert (List.find (λ u, seqb (u_username u) name) (users d1) = Some row) as Hfind.
  { apply (find_unique u_username); [by destruct Hi1|done|by apply seqb_true|]. intros y _ Hy%seqb_true. done. }
  assert (user_record row = mkUserRecord id name roles) as Hrec by (unfold user_record; cbn; by rewrite roles_roundtrip).
  assert (login_check name pw d1 = Ok (mkUserRecord id name roles)) as Hlogin.
  { unfold login_check. rewrite Hfind. cbn. unfold verify_password. rewrite (Hlaw _ _ _ Hh'). cbn. by rewrite Hrec. }
  split_and!; [done| |].
  - intros pw' h' Hh2 Hv. rewrite Hh' in Hh2. injection Hh2 as <-. unfold login_check. rewrite Hfind. cbn.
    unfold verify_password. by rewrite Hv.
  - intros ttl token clock tok exp r d2 Hrun. tx_step Hrun. injection Ha as <- <-. tx_step Hrun.
    apply tx_lift_Ok in Ha as [Hl ->]. rewrite Hlogin in Hl. injection Hl as <-. rewrite <- Hrec in Hrun.
    eapply issued_session in Hrun as (-> & -> & Hf); [|exact Hi1|exact Hrow|done|done]. rewrite <- Hrec. by split_and!.
Qed.

(** Login reads the user and stores the session in two transactions, and
    a password reset may fall between them: when a login passed its check
    before a reset of the same user and stores its session after it, the
    session is live until its expiry although it was opened with the password
    the reset replaced. *)
Theorem login_outlives_reset username old user salt new d0 d1 ttl token clock tok exp r d2 :
  UserInv d0 →
  login_check username old d0 = Ok user →
  set_user_password (ur_id user) salt new d0 = Some (Ok ((), d1)) →
  login_issue user ttl token clock d1 = Some (Ok ((tok, exp, r), d2)) →
  ∀ now, str_lt now exp = true → ∃ r', find_user_by_token token now d2 = Some r' ∧ ur_id r' = ur_id user.
Proof.
  intros Hi Hc Hset Hrun now Hlt. unfold login_check in Hc.
  destruct (List.find _ (users d0)) as [u|] eqn:Eu; [|done]. cbn in Hc.
  apply find_some in Eu as [Hu%list_elem_of_In _]. destruct (is_enabled u) eqn:Hen; [|done].
  apply bool_decide_eq_true in Hen. cbn in Hc. case_match; [done|]. injection Hc as <-.
  unfold set_user_password in Hset. case_decide; [done|]. tx_step Hset. rename a into hash.
  apply tx_lift_Ok in Ha as [_ ->]. tx_step Hset. unfold update_some_user in Ha. case_decide; [done|].
  injection Ha as _ <-. injection Hset as <-. set (d1 := delete_tokens _ _) in *.
  assert (UserInv d1) as Hi1.
  { destruct Hi as [I1 I2 I3]. split; cbn; [by rewrite update_where_column..|by apply NoDup_map_filter]. }
  assert (set_password hash u ∈ users d1) as Hu1.
  { cbn. apply elem_of_update_where. exists u. cbn. by rewrite (proj2 (seqb_true _ _) eq_refl). }
  eapply issued_session in Hrun as (_ & _ & Hf); [|exact Hi1|exact Hu1|done|done].
  exists (user_record (set_password hash u)). split; [by rewrite Hf, Hlt|done].
Qed.

End Auth.

(** ** Concrete runs *)

#[local] Existing Instances demo_sha demo_jiff.
#[local] Instance demo_unique : SqlErrors := {| unique_violation := SqlxOther "unique" |}.

(** A role list is printed as the initials of the roles. *)
Definition role_initial (j : Json) : string :=
  match j with JString (String a _) => String a "" | _ => "" end.
Definition initial_role (c : N) : Json :=
  JString (role_to_str (if (c =? 118)%N then Viewer else if (c =? 111)%N then Operator
                        else if decide (c = 97%N) then Admin else Approver)).

(** Approver shares its initial with admin, so it is printed as [p]. *)
Definition role_codec : JsonCodec := {|
  json_from_str s := Ok (JArray (map initial_role (chars s)));
  json_to_string j :=
    match j with
    | JArray xs => String.concat "" (map (λ x, if decide (as_str x = Some "approver") then "p" else role_initial x) xs)
    | _ => "null"
    end
|}.
#[local] Existing Instance role_codec.

Lemma role_codec_ok roles :
  json_from_str (roles_to_json roles) = Ok (JArray (map (λ r, JString (role_to_str r)) roles)).
Proof.
  unfold roles_to_json. cbn [json_from_str json_to_string role_codec]. do 2 f_equal. rewrite map_map.
  induction roles as [|r rs IH]; [done|]. cbn [map]. rewrite <- IH. clear IH.
  generalize (map (λ x, if decide (as_str (JString (role_to_str x)) = Some "approver") then "p"
                        else role_initial (JString (role_to_str x))) rs). intros l.
  destruct r, l; reflexivity.
Qed.

Definition demo_argon : Argon2 := {|
  argon2_hash salt p := Ok ("$" +:+ p);
  argon2_verify p phc := seqb ("$" +:+ p) phc
|}.
#[local] Existing Instance demo_argon.

Definition demo_draw (token : string) : Draw := mkDraw 5 "@5" "@5" token "salt" "u9".

(** The user table after the bootstrap token created an administrator. *)
Definition demo_users : Db :=
  h_db (handle_create_user (Some "root") "root" "alice" "pw" ["admin"] (demo_draw "t0")) empty_db.
Definition demo_session : Db := committed (login "alice" "pw" 60 "t1" 5) demo_users.

Lemma demo_users_ok : UserInv demo_users.
Proof. split; vm_compute; repeat constructor; by intros ?%elem_of_nil. Qed.
Lemma demo_session_ok : UserInv demo_session.
Proof. split; vm_compute; repeat constructor; by intros ?%elem_of_nil. Qed.

Lemma require_role_decides_witness :
  ∃ t u, session "t1" "@6" demo_session t u ∧ u_username u = "alice".
Proof.
  pose proof (require_role_decides (Some "root") "t1" "@6" Operator demo_session demo_session_ok) as Hr.
  cbv zeta in Hr. destruct (require_role (Some "root") "t1" "@6" Operator demo_session) as [[|id name roles|]|e] eqn:E;
    try (vm_compute in E; discriminate E).
  destruct Hr as (_ & t & u & Hs & _ & Hn & _). exists t, u. split; [exact Hs|]. rewrite <- Hn.
  vm_compute in E. injection E as _ <- _. reflexivity.
Defined.

Lemma active_admin_kept_witness :
  has_active_admin (foldl (λ d '(req, w), user_step (Some "root") req w d) demo_users
    [(ReqDisable "root" "u9", demo_draw "t1");
     (ReqUpdate "root" "u9" (mkUpdateUser (Some ["viewer"]) None None), demo_draw "t2")]).
Proof.
  apply (active_admin_kept role_codec_ok (Some "root")).
  exists (mkUser "u9" "alice" "$pw" "a" "@5" None). split; [|split; [reflexivity|]]; vm_compute; left.
Defined.

Lemma revocation_complete_witness :
  let d' := committed (set_user_password "u9" "salt" "new") demo_session in
  (∀ token now' r, find_user_by_token token now' d' = Some r → ur_id r ≠ "u9") ∧
  (∀ token now' t u, u_id u ≠ "u9" → (session token now' d' t u ↔ session token now' demo_session t u)).
Proof.
  intros d'. apply (revocation_complete "u9" "@5" "salt" "new" demo_session d').
  - exact demo_session_ok.
  - right. vm_compute. reflexivity.
Defined.

Lemma refresh_rotates_witness :
  let d' := committed (refresh_user_token "t1" 60 "t2" 6) demo_session in
  (∀ now, find_user_by_token "t1" now d' = None) ∧
  (∀ now, find_user_by_token "t2" now d' =
     if str_lt now "@66" then Some (mkUserRecord "u9" "alice" [Admin]) else None).
Proof.
  intros d'. destruct (refresh_rotates "t1" 60 "t2" 6 demo_session "t2" "@66"
    (mkUserRecord "u9" "alice" [Admin]) d') as (_ & _ & _ & Hold & Hnew & _).
  - exact demo_session_ok.
  - vm_compute. discriminate.
  - vm_compute. reflexivity.
  - split; [exact Hold|exact Hnew].
Defined.

Lemma create_login_roundtrip_witness :
  let d1 := committed (create_user "u1" "salt" "@5" "bob" "pw" [Operator]) demo_users in
  login_check "bob" "pw" d1 = Ok (mkUserRecord "u1" "bob" [Operator]).
Proof.
  intros d1. apply (create_login_roundtrip role_codec_ok "u1" "salt" "@5" "bob" "pw" [Operator] demo_users d1).
  - intros salt p h Hh. injection Hh as <-. cbn. by apply seqb_true.
  - exact demo_users_ok.
  - vm_compute. reflexivity.
Defined.

Lemma login_outlives_reset_witness :
  let d1 := committed (set_user_password "u9" "salt" "new") demo_users in
  let d2 := committed (login_issue (mkUserRecord "u9" "alice" [Admin]) 60 "t1" 5) d1 in
  ∃ r', find_user_by_token "t1" "@6" d2 = Some r' ∧ ur_id r' = "u9".
Proof.
  intros d1 d2. apply (login_outlives_reset "alice" "pw" (mkUserRecord "u9" "alice" [Admin]) "salt" "new"
    demo_users d1 60 "t1" 5 "t1" "@65" (mkUserRecord "u9" "alice" [Admin]) d2).
  - exact demo_users_ok.
  - vm_compute. reflexivity.
  - vm_compute. reflexivity.
  - vm_compute. reflexivity.
  - vm_compute. reflexivity.
Defined.

(** One update request that changes the roles and then fails to disable the
    last administrator leaves the new roles in place and no audit entry. *)
Example update_user_unaudited :
  let req := mkUpdateUser (Some ["admin"; "viewer"]) (Some true) None in
  let '(out, d') := handle_update_user (Some "root") "root" "u9" req (demo_draw "t1") demo_users in
  out = Some (Err (Conflict [Txt "refusing change: at least one active admin must remain"])) ∧
  map u_roles_json (users demo_users) = ["a"] ∧ map u_roles_json (users d') = ["av"] ∧
  audit_events d' = audit_events demo_users.
Proof. vm_compute. by split_and!. Qed.
