(* ===== verification/Agents.v ===== *)
(** * Agents (store.rs, api/agents.rs)

    Registration, the tokens of agents and their rotation, authentication,
    heartbeats, observations and the listing of the fleet. *)

From stdpp Require Import pretty.
From S2P Require Import Prelude Text Json ApiError Routing Db AuditLog Operations Ids Clock Handler Users.

#[local] Open Scope string_scope.
#[local] Open Scope list_scope.
#[local] Open Scope nat_scope.
#[local] Open Scope tx_scope.
#[local] Open Scope handler_scope.

Inductive AgentHealth := Healthy | Degraded | Unhealthy.

Record RegisterRequest := mkRegister { rg_name : string; rg_environment : string; rg_metadata : Json }.

Record HeartbeatRequest := mkHeartbeat { hb_status : AgentHealth; hb_managed : Z; hb_open_drifts : Z }.

Record ObservationItem := mkObservationItem {
  oi_resource_id : ResourceId;
  oi_observed_at : string;
  oi_present : bool;
  oi_spec : Json;
  oi_facts : Json
}.

Record AgentCredentials := mkCredentials {
  cr_agent_id : string;
  cr_token : string;
  cr_expires_at : option string
}.

Record AgentRecord := mkAgentRecord {
  ag_rec_id : string;
  ag_rec_name : string;
  ag_rec_environment : string;
  ag_rec_token_hash : string
}.

Record AgentSummary := mkAgentSummary {
  as_agent_id : string;
  as_name : string;
  as_environment : string;
  as_registered_at : string;
  as_last_heartbeat_at : option string;
  as_last_observation_at : option string;
  as_open_drifts : Z;
  as_managed : Z;
  as_status : AgentHealth;
  as_kind : string
}.

Definition health_text (h : AgentHealth) : string :=
  match h with Healthy => "healthy" | Degraded => "degraded" | Unhealthy => "unhealthy" end.

Definition parse_health (s : string) : AgentHealth :=
  if decide (s = "degraded") then Degraded
  else if decide (s = "unhealthy") then Unhealthy
  else Healthy.

(** *** Column updates *)

Definition set_agent_token (hash : string) (expires : option string) (a : DbAgent) : DbAgent :=
  mkAgent (a_id a) (a_name a) (a_environment a) hash (a_registered_at a) (a_last_heartbeat_at a)
    (a_last_observation_at a) (a_last_status a) (a_last_managed a) (a_last_open_drifts a)
    (a_metadata_json a) expires (a_kind a).
Definition set_agent_heartbeat (now status : string) (managed drifts : Z) (a : DbAgent) : DbAgent :=
  mkAgent (a_id a) (a_name a) (a_environment a) (a_token_hash a) (a_registered_at a) (Some now)
    (a_last_observation_at a) status managed drifts (a_metadata_json a) (a_token_expires_at a) (a_kind a).
Definition set_agent_observed (now : string) (a : DbAgent) : DbAgent :=
  mkAgent (a_id a) (a_name a) (a_environment a) (a_token_hash a) (a_registered_at a) (a_last_heartbeat_at a)
    (Some now) (a_last_status a) (a_last_managed a) (a_last_open_drifts a)
    (a_metadata_json a) (a_token_expires_at a) (a_kind a).

(** [xs.chunks(k)] for a positive [k]; the list's length is fuel enough. *)
Fixpoint chunks_fuel {A} (fuel k : nat) (xs : list A) : list (list A) :=
  match fuel, xs with
  | S fuel, _ :: _ => take k xs :: chunks_fuel fuel k (drop k xs)
  | _, _ => []
  end.
Definition chunks {A} (k : nat) (xs : list A) : list (list A) := chunks_fuel (length xs) k xs.

Definition BATCH_SIZE : nat := 100.

Section Definitions.
Context `{JsonCodec, Sha256, SqlErrors, Jiff}.

(** The expiry of a token issued now; [None] is the panic of [Span::seconds]. *)
Definition agent_token_expiry (clock : Z) (ttl : option Z) : panics (option string) :=
  match ttl with
  | None => Some None
  | Some ttl =>
      match ts_span (u64_as_i64 ttl) with
      | Err _ => None
      | Ok span => Some (Some (ts_print (match ts_add clock span with Ok t => t | Err _ => clock end)))
      end
  end.

Definition json_ttl (ttl : option Z) : Json := match ttl with Some n => JNumber (pretty n) | None => JNull end.

Definition register_agent (req : RegisterRequest) (ttl : option Z) (id token : string) (clock : Z) (audit_now : string)
    : tx AgentCredentials := λ d,
  if decide (rg_name req = "" ∨ rg_environment req = "") then
    Some (Err (BadRequest [Txt "name and environment must be non-empty"]))
  else
    match agent_token_expiry clock ttl with
    | None => None
    | Some expires_at =>
        let row := mkAgent id (rg_name req) (rg_environment req) (hash_token token) (ts_print clock) None None
                     "healthy" 0 0 (json_to_string (rg_metadata req)) expires_at "pull" in
        if decide (id ∈ map a_id (agents d) ∨ rg_name req ∈ map a_name (agents d)) then
          Some (Err (Conflict [Txt "agent name "; Txt (rg_name req); Txt " already taken"]))
        else
          (record_audit_on audit_now
             (with_payload (json_object [("name", JString (rg_name req)); ("environment", JString (rg_environment req));
                                         ("token_ttl_secs", json_ttl ttl)])
               (with_agent id (record_new "system" "agent.registered"))) ;;
           tx_ret (mkCredentials id token expires_at)) (set_agents (agents d ++ [row]) d)
    end.

Definition update_agents (p : DbAgent → bool) (f : DbAgent → DbAgent) (d : Db) : Db :=
  set_agents (update_where p f (agents d)) d.

Definition rotate_agent_token (agent_id : string) (ttl : option Z) (token : string) (clock : Z) (audit_now : string)
    : tx AgentCredentials :=
  let! expires := tx_panics (agent_token_expiry clock ttl) in
  let! d := tx_get in
  let p := λ a, seqb (a_id a) agent_id in
  if decide (count_if p (agents d) = 0) then tx_throw NotFound
  else
  tx_modify (update_agents p (set_agent_token (hash_token token) expires)) ;;
  record_audit_on audit_now
    (with_payload (json_object [("token_ttl_secs", json_ttl ttl); ("rotated_at", JString (ts_print clock))])
      (with_agent agent_id (record_new ("agent:" +:+ agent_id) "agent.token_rotated"))) ;;
  tx_ret (mkCredentials agent_id token expires).

Definition authenticate (agent_id token : string) (clock : Z) (d : Db) : ApiResult AgentRecord :=
  a ← ok_or (List.find (λ a, seqb (a_id a) agent_id) (agents d)) Unauthorized;
  if negb (ct_eq (hash_token token) (a_token_hash a)) then Err Unauthorized
  else
    let live := match a_token_expires_at a with
                | None => true
                | Some s => match ts_parse s with Ok exp => (clock <? exp)%Z | Err _ => false end
                end in
    if live then Ok (mkAgentRecord (a_id a) (a_name a) (a_environment a) (a_token_hash a))
    else Err Unauthorized.

Definition record_heartbeat (agent_id : string) (hb : HeartbeatRequest) (now : string) : tx () :=
  tx_modify (update_agents (λ a, seqb (a_id a) agent_id)
    (set_agent_heartbeat now (health_text (hb_status hb)) (hb_managed hb) (hb_open_drifts hb))).

Definition summary_of (a : DbAgent) : AgentSummary :=
  mkAgentSummary (a_id a) (a_name a) (a_environment a) (a_registered_at a) (a_last_heartbeat_at a)
    (a_last_observation_at a) (a_last_open_drifts a) (a_last_managed a) (parse_health (a_last_status a)) (a_kind a).

Definition list_agents (d : Db) : list AgentSummary :=
  map summary_of (order_by (λ a b, str_le (a_registered_at b) (a_registered_at a)) (agents d)).

Definition upsert_ssh_target (name environment id now : string) : tx string := λ d,
  match List.find (λ a, seqb (a_name a) name && seqb (a_environment a) environment && seqb (a_kind a) "ssh") (agents d) with
  | Some a => Some (Ok (a_id a, d))
  | None =>
      let row := mkAgent id name environment "" now None None "healthy" 0 0 "{}" None "ssh" in
      if decide (id ∈ map a_id (agents d) ∨ name ∈ map a_name (agents d)) then Some (Err (Sqlx unique_violation))
      else Some (Ok (id, set_agents (agents d ++ [row]) d))
  end.

(** *** Observations *)

Definition observation_row (agent_id now : string) (id : Z) (i : ObservationItem) : DbObservation :=
  mkObservation id agent_id (rid_display (oi_resource_id i)) (rid_kind (oi_resource_id i)) (oi_observed_at i)
    (if oi_present i then 1 else 0) (json_to_string (oi_spec i)) (json_to_string (oi_facts i)) now.

(** A multi-row INSERT numbers its rows in order. *)
Definition insert_observations (agent_id now : string) (items : list ObservationItem) (d : Db) : Db :=
  set_observations
    (observations d ++ imap (λ k i, observation_row agent_id now (next_observation d + Z.of_nat k) i) items)
    (next_observation d + Z.of_nat (length items)) d.

Definition record_observations (agent_id : string) (items : list ObservationItem) (now : string) : tx Z :=
  match items with
  | [] => tx_ret 0%Z
  | _ =>
      let total := u32_try_from (Z.of_nat (length items)) in
      tx_for (λ _ chunk, tx_modify (insert_observations agent_id now chunk)) () (chunks BATCH_SIZE items) ;;
      tx_modify (update_agents (λ a, seqb (a_id a) agent_id) (set_agent_observed now)) ;;
      tx_ret total
  end.

(** *** Handlers; the rate limiter's verdicts are arguments. *)

(** [agent_enrollment_token] and the header the agent presents. *)
Definition enrollment_ok (expected provided : option string) : bool :=
  match expected with
  | Some e => if decide (e = "") then true else ct_eq (default "" (provided ≫= header_to_str)) e
  | None => true
  end.

Definition handle_register (expected provided : option string) (limit : ApiResult ()) (req : RegisterRequest)
    (ttl : option Z) (id token : string) (clock : Z) (audit_now : string) : handler AgentCredentials :=
  let+ _ := h_lift limit in
  if negb (enrollment_ok expected provided) then h_throw Unauthorized
  else h_call (register_agent req ttl id token clock audit_now).

Definition handle_rotate_token (agent_id bearer : string) (ttl : option Z) (token : string) (clock clock' : Z)
    (audit_now : string) : handler AgentCredentials :=
  let+ _ := h_read (authenticate agent_id bearer clock) in
  h_call (rotate_agent_token agent_id ttl token clock' audit_now).

Definition handle_heartbeat (agent_id bearer : string) (limit : ApiResult ()) (hb : HeartbeatRequest) (clock : Z)
    (now : string) : handler () :=
  let+ _ := h_read (authenticate agent_id bearer clock) in
  let+ _ := h_lift limit in
  h_call (record_heartbeat agent_id hb now).

Definition handle_observations (agent_id bearer : string) (limit : ApiResult ()) (items : list ObservationItem)
    (clock : Z) (now : string) : handler Z :=
  let+ record := h_read (authenticate agent_id bearer clock) in
  let+ _ := h_lift limit in
  let env := ag_rec_environment record in
  match List.find (λ i, negb (seqb (rid_environment (oi_resource_id i)) env)) items with
  | Some i =>
      h_throw (BadRequest [Txt "observation resource_id env "; Dbg (rid_environment (oi_resource_id i));
        Txt " does not match agent env "; Dbg env; Txt "; refusing cross-env observation"])
  | None => h_call (record_observations agent_id items now)
  end.

Definition handle_list_agents `{Argon2} (admin_token : option string) (bearer now : string) : handler (list AgentSummary) :=
  let+ _ := h_read (require_role admin_token bearer now Viewer) in
  h_read (λ d, Ok (list_agents d)).

End Definitions.
