(* ===== verification/AgentProps.v ===== *)
(** * Agents: whose requests count

    What it takes to authenticate as an agent, what registration and rotation
    do to the tokens in the field, and what an observation push may store. *)

From stdpp Require Import pretty.
From S2P Require Import Prelude Text Json ApiError Routing Db AuditLog AuditChain Operations Ids Clock Handler Users UserProps Agents.

#[local] Open Scope string_scope.
#[local] Open Scope list_scope.
#[local] Open Scope nat_scope.
#[local] Open Scope tx_scope.
#[local] Open Scope handler_scope.

(** ** Batches *)

Lemma chunks_fuel_concat {A} k fuel : ∀ xs : list A,
  0 < k → length xs ≤ fuel → concat (chunks_fuel fuel k xs) = xs.
Proof.
  induction fuel as [|fuel IH]; intros [|x xs] Hk Hl; cbn in Hl; try done; [lia|].
  cbn [chunks_fuel concat]. rewrite IH; [apply take_drop|done|]. rewrite length_drop. cbn. lia.
Qed.

(** The batches are the list, in order. *)
Lemma chunks_concat {A} k (xs : list A) : 0 < k → concat (chunks k xs) = xs.
Proof. intros Hk. by apply chunks_fuel_concat. Qed.

Lemma chunks_fuel_bound {A} k fuel : ∀ xs : list A, Forall (λ c, length c ≤ k) (chunks_fuel fuel k xs).
Proof.
  induction fuel as [|fuel IH]; intros [|x xs]; try constructor; [|apply IH]. rewrite length_take. lia.
Qed.

Section Agents.
Context `{JsonCodec, Sha256, SqlErrors, Jiff}.

Definition live (clock : Z) (expires : option string) : Prop :=
  match expires with None => True | Some s => ∃ exp, ts_parse s = Ok exp ∧ (clock < exp)%Z end.

(** The agent rows a token opens. *)
Definition opens (agent_id token : string) (clock : Z) (a : DbAgent) : Prop :=
  a_id a = agent_id ∧ a_token_hash a = hash_token token ∧ live clock (a_token_expires_at a).

Definition record_of (a : DbAgent) : AgentRecord :=
  mkAgentRecord (a_id a) (a_name a) (a_environment a) (a_token_hash a).

(** The primary key of the table. *)
Definition AgentInv (d : Db) : Prop := NoDup (map a_id (agents d)).

Lemma live_spec clock expires :
  match expires with
  | None => true
  | Some s => match ts_parse s with Ok exp => (clock <? exp)%Z | Err _ => false end
  end = true ↔ live clock expires.
Proof.
  unfold live. destruct expires as [s|]; [|done]. destruct (ts_parse s); [|naive_solver].
  rewrite Z.ltb_lt. naive_solver.
Qed.

Lemma find_agent a d : AgentInv d → a ∈ agents d → List.find (λ b, seqb (a_id b) (a_id a)) (agents d) = Some a.
Proof.
  intros Hi Ha. apply (find_unique a_id); [done|done|by apply seqb_true|]. intros b _ Hb%seqb_true. done.
Qed.

Lemma authenticate_Ok agent_id token clock d r :
  AgentInv d →
  authenticate agent_id token clock d = Ok r ↔ ∃ a, a ∈ agents d ∧ opens agent_id token clock a ∧ r = record_of a.
Proof.
  intros Hi. unfold authenticate, opens. split.
  - intros Hr. destruct (List.find _ _) as [a|] eqn:Ef; [|done]. cbn in Hr.
    apply find_some in Ef as [Ha%list_elem_of_In Hid%seqb_true].
    destruct (ct_eq _ _) eqn:Ec; [|done]. apply ct_eq_spec in Ec. cbn in Hr.
    case_match eqn:El; [|done]. apply live_spec in El. injection Hr as <-. by exists a.
  - intros (a & Ha & (<- & Hh & Hl) & ->). rewrite find_agent by done. cbn.
    rewrite (proj2 (ct_eq_spec _ _)) by done. cbn. apply live_spec in Hl. by rewrite Hl.
Qed.

Lemma authenticate_Err agent_id token clock d e : authenticate agent_id token clock d = Err e → e = Unauthorized.
Proof.
  unfold authenticate. destruct (List.find _ _); cbn; [|naive_solver]. destruct (ct_eq _ _); cbn; [|naive_solver].
  case_match; naive_solver.
Qed.

(** A request authenticates as an agent exactly when the agent's row
    holds the digest of the token it presents and the token's expiry, if it
    has one, is in the future; it then acts with the identity in the row.
    Every other request, for a missing agent, a wrong token, an expired one or
    an expiry that does not parse, ends in the same error, and an SSH target,
    whose row holds no digest, cannot be impersonated. *)
Theorem agent_auth_decides agent_id token clock d :
  AgentInv d →
  match authenticate agent_id token clock d with
  | Ok r => ∃ a, a ∈ agents d ∧ opens agent_id token clock a ∧ r = record_of a
  | Err e => e = Unauthorized ∧ ∀ a, a ∈ agents d → ¬ opens agent_id token clock a
  end ∧
  (digest_shaped hash_token → ∀ a, a ∈ agents d → a_id a = agent_id → a_token_hash a = "" →
     authenticate agent_id token clock d = Err Unauthorized).
Proof.
  intros Hi. split.
  - destruct (authenticate agent_id token clock d) as [r|e] eqn:E; [by apply authenticate_Ok|].
    split; [by eapply authenticate_Err|]. intros a Ha Ho.
    enough (authenticate agent_id token clock d = Ok (record_of a)) by congruence.
    apply authenticate_Ok; eauto.
  - intros Hd a Ha <- He. unfold authenticate. rewrite find_agent by done. cbn. rewrite He.
    destruct (ct_eq _ _) eqn:Ec; [|done]. apply ct_eq_spec in Ec. destruct (Hd token) as [Hl _].
    by rewrite Ec in Hl.
Qed.

(** ** Registration and rotation *)

Lemma authenticate_ext agent_id token clock d d' :
  AgentInv d → AgentInv d' →
  (∀ a, opens agent_id token clock a → a ∈ agents d ↔ a ∈ agents d') →
  authenticate agent_id token clock d = authenticate agent_id token clock d'.
Proof.
  intros Hi Hi' Hsame.
  destruct (authenticate agent_id token clock d) as [r|e] eqn:E.
  - apply authenticate_Ok in E as (a & Ha & Ho & ->); [|done]. symmetry. apply authenticate_Ok; [done|].
    exists a. split_and!; [|done|done]. by apply Hsame.
  - apply authenticate_Err in E as He. subst e.
    destruct (authenticate agent_id token clock d') as [r|e] eqn:E'; [|by apply authenticate_Err in E' as ->].
    apply authenticate_Ok in E' as (a & Ha & Ho & ->); [|done]. apply Hsame in Ha; [|done].
    enough (authenticate agent_id token clock d = Ok (record_of a)) by congruence. apply authenticate_Ok; eauto.
Qed.

(** What a token issued with a time to live promises. *)
Definition issued_for (r : AgentRecord) (clock : Z) (expires : option string) : ApiResult AgentRecord :=
  match expires with
  | None => Ok r
  | Some s => match ts_parse s with
              | Ok exp => if (clock <? exp)%Z then Ok r else Err Unauthorized
              | Err _ => Err Unauthorized
              end
  end.

Lemma authenticate_row a token clock d :
  AgentInv d → a ∈ agents d → a_token_hash a = hash_token token →
  authenticate (a_id a) token clock d = issued_for (record_of a) clock (a_token_expires_at a).
Proof.
  intros Hi Ha Hh. unfold authenticate. rewrite find_agent by done. cbn.
  rewrite (proj2 (ct_eq_spec _ _)) by done. cbn. unfold issued_for.
  destruct (a_token_expires_at a) as [s|]; [|done]. by destruct (ts_parse s).
Qed.

Lemma register_run req ttl id token clock now d cr d' :
  register_agent req ttl id token clock now d = Some (Ok (cr, d')) →
  ∃ row, agents d' = agents d ++ [row] ∧ a_id row = id ∧ a_token_hash row = hash_token token ∧
    a_token_expires_at row = cr_expires_at cr ∧ a_name row = rg_name req ∧
    a_environment row = rg_environment req ∧ a_kind row = "pull" ∧
    id ∉ map a_id (agents d) ∧ rg_name req ∉ map a_name (agents d) ∧
    cr_agent_id cr = id ∧ cr_token cr = token ∧ agent_token_expiry clock ttl = Some (cr_expires_at cr) ∧
    length (audit_events d') = S (length (audit_events d)).
Proof.
  unfold register_agent. case_decide; [done|]. destruct (agent_token_expiry clock ttl) as [expires|]; [|done].
  case_decide as Hf; [done|]. intros Hrun. tx_step Hrun. injection Ha as _ <-. injection Hrun as <- <-.
  eexists. split_and!; try reflexivity; try tauto. cbn. rewrite length_app. cbn. lia.
Qed.

Lemma rotate_run agent_id ttl token clock now d cr d' :
  rotate_agent_token agent_id ttl token clock now d = Some (Ok (cr, d')) →
  (∃ a, a ∈ agents d ∧ a_id a = agent_id) ∧
  cr_agent_id cr = agent_id ∧ cr_token cr = token ∧ agent_token_expiry clock ttl = Some (cr_expires_at cr) ∧
  agents d' = update_where (λ a, seqb (a_id a) agent_id) (set_agent_token (hash_token token) (cr_expires_at cr)) (agents d) ∧
  length (audit_events d') = S (length (audit_events d)).
Proof.
  intros Hrun. tx_step Hrun. rename a into expires. apply tx_panics_Ok in Ha as [He ->].
  tx_step Hrun. injection Ha as <- <-. cbv zeta in Hrun. case_decide as Hc; [done|]. tx_step Hrun. injection Ha as _ <-.
  tx_step Hrun. injection Ha as _ <-. injection Hrun as <- <-. split_and!; try done.
  - assert (0 < count_if (λ a, seqb (a_id a) agent_id) (agents d)) as (b & Hb & Hid%seqb_true)%count_if_pos by lia. eauto.
  - cbn. rewrite length_app. cbn. lia.
Qed.

(** A registration succeeds only for a fresh name and adds one pull
    agent with one audit entry; the credentials it returns authenticate as
    that agent until they expire, without end when no time to live is
    configured, and for every other agent nothing changes. *)
Theorem register_issues req ttl id token clock now d cr d' :
  (∀ t n u, ts_add t n = Ok u → ts_parse (ts_print u) = Ok u) →
  AgentInv d →
  register_agent req ttl id token clock now d = Some (Ok (cr, d')) →
  AgentInv d' ∧ rg_name req ∉ map a_name (agents d) ∧
  length (agents d') = S (length (agents d)) ∧ length (audit_events d') = S (length (audit_events d)) ∧
  (∀ clock', authenticate (cr_agent_id cr) (cr_token cr) clock' d' =
     issued_for (mkAgentRecord id (rg_name req) (rg_environment req) (hash_token token)) clock' (cr_expires_at cr)) ∧
  (∀ secs, ttl = Some secs → (0 ≤ secs ≤ i64_max)%Z →
     ∃ span, ts_span secs = Ok span ∧
       ∀ exp, ts_add clock span = Ok exp → ∀ clock', 
         is_ok (authenticate id token clock' d') = (clock' <? exp)%Z) ∧
  (∀ other tok clock', other ≠ id → authenticate other tok clock' d' = authenticate other tok clock' d).
Proof.
  intros Hlaw Hi (row & Hag & Hid & Hh & Hex & Hn & Henv & _ & Hfresh & Hname & Hcid & Hct & Hexp & Hau)%register_run.
  assert (AgentInv d') as Hi'.
  { unfold AgentInv. rewrite Hag, map_app. apply NoDup_app. split_and!; [done| |repeat constructor; by intros ?%elem_of_nil].
    intros x Hx ->%list_elem_of_singleton. by rewrite Hid in Hx. }
  assert (row ∈ agents d') as Hrow by (rewrite Hag; apply elem_of_app; right; by apply list_elem_of_singleton).
  assert (∀ clock', authenticate (cr_agent_id cr) (cr_token cr) clock' d' =
     issued_for (mkAgentRecord id (rg_name req) (rg_environment req) (hash_token token)) clock' (cr_expires_at cr)) as Hauth.
  { intros clock'. rewrite Hcid, Hct, <- Hex, <- Hid, <- Hn, <- Henv, <- Hh. by apply authenticate_row. }
  split_and!; [done|done|by rewrite Hag, length_app, Nat.add_comm|done|done| |].
  - intros secs -> Hs. unfold agent_token_expiry in Hexp.
    assert (u64_as_i64 secs = secs) as Hw.
    { unfold u64_as_i64, wrap_signed. unfold i64_max in Hs. rewrite Z.mod_small by lia. lia. }
    rewrite Hw in Hexp. destruct (ts_span secs) as [span|]; [|done]. exists span. split; [done|].
    intros exp Ha clock'. rewrite Ha in Hexp. injection Hexp as Hexp. rewrite Hcid, Hct in Hauth.
    rewrite Hauth, <- Hexp. cbn. rewrite (Hlaw _ _ _ Ha). by case_match.
  - intros other tok clock' Hne. symmetry. apply authenticate_ext; [done|done|]. intros a (Ha & _). rewrite Hag, elem_of_app.
    split; [by left|]. intros [?| ->%list_elem_of_singleton]; [done|]. congruence.
Qed.

(** Rotating the token of an agent takes effect at once and for that
    agent alone: no token with another digest opens it again, the new token
    opens it until its own expiry, the identity of the agent and all other
    agents are unchanged; for an agent that does not exist it fails and
    changes nothing. *)
Theorem rotation_replaces agent_id ttl token clock now d :
  AgentInv d →
  match rotate_agent_token agent_id ttl token clock now d with
  | Some (Ok (cr, d')) =>
      AgentInv d' ∧ cr_token cr = token ∧ length (audit_events d') = S (length (audit_events d)) ∧
      (∀ old clock', hash_token old ≠ hash_token token → authenticate agent_id old clock' d' = Err Unauthorized) ∧
      (∃ a, a ∈ agents d ∧ a_id a = agent_id ∧ ∀ clock',
         authenticate agent_id token clock' d' =
           issued_for (mkAgentRecord agent_id (a_name a) (a_environment a) (hash_token token)) clock' (cr_expires_at cr)) ∧
      (∀ other tok clock', other ≠ agent_id → authenticate other tok clock' d' = authenticate other tok clock' d)
  | Some (Err e) => e = NotFound ∧ ∀ a, a ∈ agents d → a_id a ≠ agent_id
  | None => ∃ secs e, ttl = Some secs ∧ ts_span (u64_as_i64 secs) = Err e
  end.
Proof.
  intros Hi. destruct (rotate_agent_token agent_id ttl token clock now d) as [[[cr d']|e]|] eqn:Hrun.
  - apply rotate_run in Hrun as ((a & Ha & Hid) & Hcid & Hct & _ & Hag & Hau).
    assert (AgentInv d') as Hi' by (unfold AgentInv; by rewrite Hag, update_where_column).
    assert (set_agent_token (hash_token token) (cr_expires_at cr) a ∈ agents d') as Hrow.
    { rewrite Hag. apply elem_of_update_where. exists a. split; [done|]. by rewrite Hid, (proj2 (seqb_true _ _)). }
    split_and!; try done.
    + intros old clock' Hne. destruct (authenticate agent_id old clock' d') as [r|e] eqn:E;
        [|by apply authenticate_Err in E as ->]. exfalso.
      apply authenticate_Ok in E as (b & Hb & (Hbid & Hbh & _) & _); [|done].
      rewrite Hag in Hb. apply elem_of_update_where in Hb as (c & Hc & ->).
      destruct (seqb (a_id c) agent_id) eqn:Ec; [by rewrite <- Hbh in Hne|].
      apply not_true_iff_false in Ec. by apply Ec, seqb_true.
    + exists a. split_and!; [done|done|]. intros clock'. subst agent_id. by apply (authenticate_row (set_agent_token _ _ a)).
    + intros other tok clock' Hne. symmetry. apply authenticate_ext; [done|done|]. intros b (Hb & _).
      rewrite Hag, elem_of_update_where. split.
      * intros Hin. exists b. split; [done|]. case_match eqn:E; [|done]. apply seqb_true in E. congruence.
      * intros (c & Hc & ->). case_match eqn:E; [|done]. apply seqb_true in E. cbn in Hb. congruence.
  - unfold rotate_agent_token, tx_bind, tx_panics, tx_get in Hrun. cbv zeta in Hrun.
    destruct (agent_token_expiry clock ttl); [|done]. case_decide as Hc; [|done]. injection Hrun as <-.
    split; [done|]. intros a Ha Hid. apply count_if_0 with (x := a) in Hc; [|done].
    rewrite Hid in Hc. apply not_true_iff_false in Hc. by apply Hc, seqb_true.
  - unfold rotate_agent_token, tx_bind, tx_panics, tx_get in Hrun. cbv zeta in Hrun.
    destruct (agent_token_expiry clock ttl) eqn:He; [by case_decide|].
    unfold agent_token_expiry in He. destruct ttl as [secs|]; [|done]. destruct (ts_span _) as [|e] eqn:Es; [done|]. eauto.
Qed.

(** ** Observations *)

Lemma insert_observations_nil agent_id now d : insert_observations agent_id now [] d = d.
Proof. destruct d. unfold insert_observations, set_observations. cbn. by rewrite app_nil_r, Z.add_0_r. Qed.

Lemma insert_observations_app agent_id now xs ys d :
  insert_observations agent_id now ys (insert_observations agent_id now xs d) =
  insert_observations agent_id now (xs ++ ys) d.
Proof.
  unfold insert_observations, set_observations. cbn. f_equal.
  - rewrite <- app_assoc, imap_app. do 2 f_equal. apply imap_ext. intros k i _. cbn. f_equal. lia.
  - rewrite length_app. lia.
Qed.

(** The batched INSERTs are one INSERT of all the items. *)
Lemma insert_batches agent_id now cs d :
  tx_for (λ _ chunk, tx_modify (insert_observations agent_id now chunk)) () cs d =
  Some (Ok ((), insert_observations agent_id now (concat cs) d)).
Proof.
  revert d. induction cs as [|c cs IH]; intros d; cbn [concat].
  - by rewrite insert_observations_nil.
  - rewrite <- insert_observations_app. apply IH.
Qed.

Definition observed_at (agent_id now : string) (d : Db) : Db :=
  update_agents (λ a, seqb (a_id a) agent_id) (set_agent_observed now) d.

Lemma record_observations_spec agent_id items now d :
  record_observations agent_id items now d =
  Some (Ok (u32_try_from (Z.of_nat (length items)),
            if decide (items = []) then d else observed_at agent_id now (insert_observations agent_id now items d))).
Proof.
  unfold record_observations. destruct items as [|i items]; [done|].
  unfold tx_bind at 1. rewrite insert_batches, chunks_concat by (vm_compute; lia). done.
Qed.

(** An observation push by an agent stores all of its items or none. It
    stores them, in order and whatever the number of INSERTs they are split
    over, as rows of the agent that authenticated, and only when every item
    names a resource of that agent's own environment; a push that fails
    leaves the database as it was. *)
Theorem observations_confined agent_id bearer limit items clock now d :
  AgentInv d →
  let new a := imap (λ k i, observation_row (a_id a) now (next_observation d + Z.of_nat k) i) items in
  match handle_observations agent_id bearer limit items clock now d with
  | (Some (Ok n), d') =>
      ∃ a, a ∈ agents d ∧ opens agent_id bearer clock a ∧
        (∀ i, i ∈ items → rid_environment (oi_resource_id i) = a_environment a) ∧
        n = u32_try_from (Z.of_nat (length items)) ∧
        observations d' = observations d ++ new a ∧ map a_id (agents d') = map a_id (agents d) ∧
        audit_events d' = audit_events d ∧ assignments d' = assignments d ∧ drift_events d' = drift_events d
  | (Some (Err e), d') =>
      d' = d ∧
      ((e = Unauthorized ∧ ∀ a, a ∈ agents d → ¬ opens agent_id bearer clock a) ∨
       limit = Err e ∨
       ∃ a i, a ∈ agents d ∧ opens agent_id bearer clock a ∧ i ∈ items ∧
         rid_environment (oi_resource_id i) ≠ a_environment a)
  | (None, _) => False
  end.
Proof.
  intros Hi new. unfold handle_observations, h_bind, h_read.
  pose proof (authenticate_Ok agent_id bearer clock d) as Hok.
  destruct (authenticate agent_id bearer clock d) as [r|e] eqn:E.
  - destruct (proj1 (Hok r Hi) eq_refl) as (a & Ha & Ho & ->). destruct limit as [[]|e]; cbn [h_lift]; [|auto].
    cbn [ag_rec_environment record_of]. destruct (List.find _ items) as [i|] eqn:Ef; cbn.
    + apply find_some in Ef as [Hin%list_elem_of_In Hne%negb_true_iff]. split; [done|]. right. right. exists a, i.
      split_and!; try done. intros Heq. apply not_true_iff_false in Hne. by apply Hne, seqb_true.
    + unfold h_call. rewrite record_observations_spec. exists a. split; [done|]. split; [done|]. split.
      { intros i Hin%list_elem_of_In. apply (find_none _ _ Ef) in Hin. apply negb_false_iff in Hin. by apply seqb_true. }
      split; [done|]. destruct Ho as [<- _]. case_decide as Hn.
      * subst new. rewrite Hn. cbn. by rewrite app_nil_r.
      * split_and!; try done. by apply update_where_column.
  - split; [done|]. left. split; [by eapply authenticate_Err|]. intros a Ha Ho.
    enough (@Err ApiErr AgentRecord e = Ok (record_of a)) by done. apply Hok; eauto.
Qed.

End Agents.

(** ** Concrete runs *)

#[local] Existing Instances demo_json demo_sha.
#[local] Instance demo_unique : SqlErrors := {| unique_violation := SqlxOther "unique" |}.

(** Timestamps as that many strokes, up to a thousand. *)
Fixpoint strokes (n : nat) : string := match n with O => "" | S n => "|" +:+ strokes n end.

Definition stroke_jiff : Jiff := {|
  ts_parse s := Ok (Z.of_nat (String.length s));
  ts_print t := strokes (Z.to_nat t);
  ts_span n := if decide (Z.abs n ≤ 1000)%Z then Ok n else Err "span out of range";
  ts_add t n := if decide (0 ≤ t + n ≤ 1000)%Z then Ok (t + n)%Z else Err "overflow"
|}.
#[local] Existing Instance stroke_jiff.

Lemma strokes_length n : String.length (strokes n) = n.
Proof. induction n as [|n IH]; [done|]. cbn [strokes]. change (S (String.length (strokes n)) = S n). by rewrite IH. Qed.

Lemma stroke_law t n u : ts_add t n = Ok u → ts_parse (ts_print u) = Ok u.
Proof. cbn. case_decide; [|done]. intros [= <-]. rewrite strokes_length. f_equal. lia. Qed.

Definition demo_request : RegisterRequest := mkRegister "web-1" "prod" (JObject []).
Definition demo_register := register_agent demo_request (Some 5%Z) "a1" "t1" 3 "now".
Definition demo_fleet : Db := committed demo_register empty_db.

Lemma demo_fleet_ok : AgentInv demo_fleet.
Proof. vm_compute. repeat constructor. by intros ?%elem_of_nil. Qed.

Lemma agent_auth_decides_witness :
  is_ok (authenticate "a1" "t1" 7 demo_fleet) = true ∧ authenticate "a1" "t1" 8 demo_fleet = Err Unauthorized ∧
  ∃ a, a ∈ agents demo_fleet ∧ opens "a1" "t1" 7 a.
Proof.
  split; [reflexivity|]. split; [reflexivity|].
  pose proof (agent_auth_decides "a1" "t1" 7 demo_fleet demo_fleet_ok) as [Hd _].
  destruct (authenticate "a1" "t1" 7 demo_fleet) as [r|e] eqn:E.
  - destruct Hd as (a & Ha & Ho & _). exists a. split; [exact Ha|exact Ho].
  - vm_compute in E. discriminate E.
Defined.

Lemma register_issues_witness :
  length (agents demo_fleet) = 1 ∧
  ∀ clock, is_ok (authenticate "a1" "t1" clock demo_fleet) = (clock <? 8)%Z.
Proof.
  destruct (register_issues demo_request (Some 5%Z) "a1" "t1" 3 "now" empty_db
    (mkCredentials "a1" "t1" (Some "||||||||")) demo_fleet) as (_ & _ & Hl & _ & _ & Hex & _).
  - exact stroke_law.
  - apply NoDup_nil_2.
  - vm_compute. reflexivity.
  - split; [exact Hl|]. destruct (Hex 5%Z eq_refl) as (span & Hs & Hlive); [vm_compute; split; discriminate|].
    apply Hlive. cbn in Hs. injection Hs as <-. reflexivity.
Defined.

Lemma rotation_replaces_witness :
  let d' := committed (rotate_agent_token "a1" None "t2" 4 "now") demo_fleet in
  (∀ clock, authenticate "a1" "t1" clock d' = Err Unauthorized) ∧ is_ok (authenticate "a1" "t2" 100 d') = true.
Proof.
  intros d'. split; [|reflexivity].
  pose proof (rotation_replaces "a1" None "t2" 4 "now" demo_fleet demo_fleet_ok) as Hr. subst d'. unfold committed.
  destruct (rotate_agent_token "a1" None "t2" 4 "now" demo_fleet) as [[[cr d']|e]|] eqn:E;
    try (vm_compute in E; discriminate E).
  destruct Hr as (_ & _ & _ & Hold & _). intros clock. apply Hold. vm_compute. discriminate.
Defined.

Definition demo_item (env : string) : ObservationItem :=
  mkObservationItem (mkRid "file" env "motd") "now" true (JObject []) (JObject []).

Lemma observations_confined_witness :
  let push env := handle_observations "a1" "t1" (Ok ()) [demo_item env] 5 "now" demo_fleet in
  (push "prod").1 = Some (Ok 1%Z) ∧ h_db (λ _, push "prod") demo_fleet ≠ demo_fleet ∧ (push "dev").2 = demo_fleet.
Proof.
  intros push. split; [reflexivity|]. split; [vm_compute; discriminate|].
  pose proof (observations_confined "a1" "t1" (Ok ()) [demo_item "dev"] 5 "now" demo_fleet demo_fleet_ok) as Ho.
  cbv zeta in Ho. subst push. cbv beta. destruct (handle_observations "a1" "t1" (Ok ()) [demo_item "dev"] 5 "now" demo_fleet) as [[[n|e]|] d'] eqn:E.
  - vm_compute in E. discriminate E.
  - destruct Ho as [Hd _]. exact Hd.
  - destruct Ho.
Defined.
