(* ===== verification/Template.v ===== *)
(** * Template rendering (crates/iac-core/src/template.rs)

    The [{{ key }}] renderer and its two scalar lookups; a YAML mapping is
    kept as the association list of its string keys. *)

From S2P Require Import Prelude Text Json.

#[local] Open Scope string_scope.
#[local] Open Scope list_scope.
#[local] Open Scope nat_scope.

Inductive TemplateError :=
| Unterminated
| MissingKey (key : string)
| NotScalar (key : string).

(** One round of the loop per [{{]; every round shortens the rest. [None] is
    fuel exhaustion. *)
Fixpoint render_loop (fuel : nat) (lookup : string → result TemplateError (option string))
    (out rest : string) : option (result TemplateError string) :=
  match fuel with
  | O => None
  | S fuel =>
      match split_once "{{" rest with
      | None => Some (Ok (out +:+ rest))
      | Some (before, after) =>
          match split_once "}}" after with
          | None => Some (Err Unterminated)
          | Some (inner, rest) =>
              let key := trim inner in
              match lookup key with
              | Err e => Some (Err e)
              | Ok None => Some (Err (NotScalar key))
              | Ok (Some s) => render_loop fuel lookup (out +:+ before +:+ s) rest
              end
          end
      end
  end.

Definition render (template : string) (lookup : string → result TemplateError (option string))
    : option (result TemplateError string) :=
  render_loop (S (String.length template)) lookup "" template.

Definition bool_text (b : bool) : string := if b then "true" else "false".

Definition yaml_scalar (spec : Json) (key : string) : result TemplateError (option string) :=
  match as_object spec ≫= assoc_get key with
  | None => Err (MissingKey key)
  | Some (JString s) => Ok (Some s)
  | Some (JNumber n) => Ok (Some n)
  | Some (JBool b) => Ok (Some (bool_text b))
  | Some _ => Ok None
  end.

Definition render_yaml_top_scalars (template : string) (spec : Json) :=
  render template (yaml_scalar spec).

Definition json_scalar (vars : list (string * Json)) (key : string) : result TemplateError (option string) :=
  match assoc_get key vars with
  | None => Err (MissingKey key)
  | Some (JString s) => Ok (Some s)
  | Some (JNumber n) => Ok (Some n)
  | Some (JBool b) => Ok (Some (bool_text b))
  | Some JNull => Ok (Some "")
  | Some (JArray _) | Some (JObject _) => Ok None
  end.

Definition render_json_top_scalars (template : string) (vars : list (string * Json)) :=
  render template (json_scalar vars).

(** ** Specification

    A template is literal text with holes; its meaning fills the holes left
    to right, and the first hole that cannot be filled is the error. *)

Fixpoint fill (lookup : string → result TemplateError (option string))
    (holes : list (string * string)) (last : string) : result TemplateError string :=
  match holes with
  | [] => Ok last
  | (lit, inner) :: holes =>
      o ← lookup (trim inner);
      s ← ok_or o (NotScalar (trim inner));
      tail ← fill lookup holes last;
      Ok (lit +:+ s +:+ tail)
  end.

(** The text of a template with holes. *)
Fixpoint print_template (holes : list (string * string)) (last : string) : string :=
  match holes with
  | [] => last
  | (lit, inner) :: holes => lit +:+ "{{" +:+ inner +:+ "}}" +:+ print_template holes last
  end.

(** [pat] first occurs in [s +:+ pat +:+ _] right after [s]. *)
Definition first_at (pat s : string) : Prop := ∀ t, split_once pat (s +:+ pat +:+ t) = Some (s, t).

(** ** Rendering meets the specification *)

Lemma render_loop_out lookup : ∀ fuel out rest,
  render_loop fuel lookup out rest =
  (λ r, s ← r; Ok (out +:+ s)) <$> render_loop fuel lookup "" rest.
Proof.
  induction fuel as [|fuel IH]; intros out rest; [done|]. cbn [render_loop].
  destruct (split_once "{{" rest) as [[before after]|]; [|done].
  destruct (split_once "}}" after) as [[inner rest']|]; [|done].
  destruct (lookup (trim inner)) as [[s|]|]; [|done..].
  rewrite IH, (IH ("" +:+ _)). destruct (render_loop fuel lookup "" rest') as [[r|]|]; [|done..].
  cbn. f_equal. f_equal. by rewrite !str_app_assoc.
Qed.

(** Extra fuel changes nothing. *)
Lemma render_loop_more lookup : ∀ fuel fuel' out rest r,
  render_loop fuel lookup out rest = Some r → fuel ≤ fuel' → render_loop fuel' lookup out rest = Some r.
Proof.
  induction fuel as [|fuel IH]; intros [|fuel'] out rest r H Hle; [done|done|lia|]. cbn [render_loop] in *.
  destruct (split_once "{{" rest) as [[before after]|]; [|done].
  destruct (split_once "}}" after) as [[inner rest']|]; [|done].
  destruct (lookup (trim inner)) as [[s|]|]; [|done..]. apply IH; [done|lia].
Qed.

Lemma split_once_len pat s before after :
  split_once pat s = Some (before, after) →
  String.length after + String.length pat + String.length before = String.length s.
Proof. intros ->%split_once_sound. rewrite !str_length_app. lia. Qed.

Lemma render_loop_total lookup : ∀ fuel out rest,
  String.length rest < fuel → ∃ r, render_loop fuel lookup out rest = Some r.
Proof.
  induction fuel as [|fuel IH]; intros out rest Hle; [lia|]. cbn [render_loop].
  destruct (split_once "{{" rest) as [[before after]|] eqn:E1; [|by eexists].
  destruct (split_once "}}" after) as [[inner rest']|] eqn:E2; [|by eexists].
  destruct (lookup (trim inner)) as [[s|]|]; [|by eexists..].
  apply split_once_len in E1, E2. apply IH. cbn in *. lia.
Qed.

(** The holes of a text: every text is a printed template, perhaps with an
    unterminated hole in its last part. *)
Lemma render_loop_holes lookup : ∀ fuel rest,
  String.length rest < fuel →
  ∃ holes last,
    rest = print_template holes last ∧
    ((split_once "{{" last = None ∧ render_loop fuel lookup "" rest = Some (fill lookup holes last)) ∨
     (∃ before after, split_once "{{" last = Some (before, after) ∧ split_once "}}" after = None ∧
       render_loop fuel lookup "" rest = Some (_ ← fill lookup holes ""; Err Unterminated))).
Proof.
  induction fuel as [|fuel IH]; intros rest Hle; [lia|]. cbn [render_loop].
  destruct (split_once "{{" rest) as [[before after]|] eqn:E1.
  2:{ exists [], rest. split; [done|]. left. done. }
  destruct (split_once "}}" after) as [[inner rest']|] eqn:E2.
  2:{ exists [], rest. split; [done|]. right. eauto. }
  pose proof (split_once_len _ _ _ _ E1). pose proof (split_once_len _ _ _ _ E2). cbn in *.
  destruct (IH rest') as (holes & last & Hr & Hrun); [lia|].
  exists ((before, inner) :: holes), last. apply split_once_sound in E1, E2. split.
  { cbn. rewrite E1, E2, Hr. done. }
  destruct Hrun as [[Hn Hrun]|(b & a & Hb & Ha & Hrun)].
  - left. split; [done|]. cbn. destruct (lookup (trim inner)) as [[s|]|]; cbn; [|done..].
    rewrite render_loop_out, Hrun. cbn. destruct (fill lookup holes last); cbn; [|done].
    change ("" +:+ before +:+ s) with (before +:+ s). by rewrite str_app_assoc.
  - right. exists b, a. split_and!; [done|done|]. cbn.
    destruct (lookup (trim inner)) as [[s|]|]; cbn; [|done..].
    rewrite render_loop_out, Hrun. cbn. by destruct (fill lookup holes "").
Qed.

(** Rendering always returns (the fuel is enough), and every template is
    a text with holes plus a last part: when the last part opens no hole the
    result is exactly the fill of the holes from left to right, with the
    first unresolvable hole as the error and substituted values taken
    verbatim (never scanned again); when the last part opens a hole that is
    never closed, the result is the first unresolvable hole's error or
    Unterminated. *)
Theorem render_meets_spec template lookup :
  ∃ holes last,
    template = print_template holes last ∧
    match split_once "{{" last with
    | None => render template lookup = Some (fill lookup holes last)
    | Some (_, after) =>
        split_once "}}" after = None ∧
        render template lookup = Some (_ ← fill lookup holes ""; Err Unterminated)
    end.
Proof.
  destruct (render_loop_holes lookup (S (String.length template)) template) as (holes & last & He & Hr); [lia|].
  exists holes, last. split; [done|]. destruct Hr as [[-> Hr]|(b & a & -> & Ha & Hr)]; [done|]. by split.
Qed.

(** Rendering fills what printing prints: for literals and keys free of
    the delimiters (a literal is one after which the next opening pair is the
    hole's own), rendering the printed template is filling its holes. *)
Theorem render_print lookup holes last :
  Forall (λ h, first_at "{{" h.1 ∧ first_at "}}" h.2) holes → split_once "{{" last = None →
  render (print_template holes last) lookup = Some (fill lookup holes last).
Proof.
  intros Hh Hl. unfold render.
  enough (∀ out, render_loop (S (String.length (print_template holes last))) lookup out
            (print_template holes last) = Some (s ← fill lookup holes last; Ok (out +:+ s))) as H.
  { rewrite H. by destruct (fill lookup holes last). }
  induction Hh as [|[lit inner] holes [H1 H2] _ IH]; intros out; cbn [print_template fill].
  { cbn [render_loop]. by rewrite Hl. }
  cbn [render_loop]. rewrite H1. cbn [fst snd] in *. rewrite H2.
  destruct (lookup (trim inner)) as [[s|]|]; cbn [mbind result_bind ok_or]; [|done..].
  destruct (fill lookup holes last) as [tail|e] eqn:E.
  - erewrite render_loop_more; [|apply IH|rewrite !str_length_app; cbn; lia]. cbn.
    by rewrite !str_app_assoc.
  - erewrite render_loop_more; [|apply IH|rewrite !str_length_app; cbn; lia]. done.
Qed.

Lemma render_print_witness :
  render (print_template [("name=", " x "); (", count=", "n")] "!")
    (json_scalar [("x", JString "{{ n }}"); ("n", JNumber "3")]) =
  Some (fill (json_scalar [("x", JString "{{ n }}"); ("n", JNumber "3")])
          [("name=", " x "); (", count=", "n")] "!").
Proof.
  apply (render_print _ [("name=", " x "); (", count=", "n")] "!"); [|reflexivity].
  repeat constructor; intros t; reflexivity.
Defined.

Example render_verbatim :
  render_json_top_scalars "name={{ x }}!" [("x", JString "{{ n }}")] = Some (Ok "name={{ n }}!").
Proof. vm_compute. reflexivity. Qed.
