(* ===== verification/Diff.v ===== *)
(** * Diffs (crates/iac-core/src/diff.rs)

    The difference between a resource and the observed state. Field values
    are kept as JSON trees. *)

From S2P Require Import Prelude Text Json.

#[local] Open Scope string_scope.
#[local] Open Scope list_scope.
#[local] Open Scope nat_scope.

Inductive DiffKind := NoChange | Create | Update | Delete.

#[export] Instance DiffKind_eq_dec : EqDecision DiffKind.
Proof. solve_decision. Defined.

Record FieldChange := mkChange {
  fc_field : string;
  fc_from : option Json;
  fc_to : option Json;
  fc_sensitive : bool
}.

Record Diff := mkDiff {
  diff_kind : DiffKind;
  diff_changes : list FieldChange;
  diff_reasons : list string;
  diff_reversible : bool
}.

Definition no_change : Diff := mkDiff NoChange [] [] true.

Definition is_change (d : Diff) : bool := negb (bool_decide (diff_kind d = NoChange)).

(** serde's text codec of [Diff], code outside the repository. *)
Class DiffCodec := {
  diff_from_str : string → result string Diff;
  diff_to_string : Diff → string
}.
