(* ===== verification/Executor.v ===== *)
(** * The local executor (crates/iac-core/src/executor.rs, operation.rs, provider.rs, registry.rs, state.rs)

    Plan, apply and rollback over an abstract host. The host and a step's
    workspace are types of the providers, which are the implementations of an
    interface; the executor's own state is the state directory: the applied
    states and the directories of the operations. A ULID is its 128-bit
    number, whose order is the order of its text. *)

From S2P Require Import Prelude Text Json ApiError Routing Db AuditLog Ids Diff.

#[local] Open Scope string_scope.
#[local] Open Scope list_scope.
#[local] Open Scope nat_scope.

(** ** Steps, operations, checkpoints *)

Inductive StepStatus := StPending | StRunning | StSucceeded | StFailed | StSkipped | StRolledBack.

#[export] Instance StepStatus_eq_dec : EqDecision StepStatus.
Proof. solve_decision. Defined.

Record Step := mkStep {
  st_id : Z;
  st_action : string;
  st_description : string;
  st_reversible : bool;
  st_payload : Json;
  st_status : StepStatus;
  st_started_at : option string;
  st_finished_at : option string
}.

(** [Step::new], with the ULID it draws. *)
Definition step_new (ulid : Z) (action description : string) (payload : Json) : Step :=
  mkStep ulid action description true payload StPending None None.

Definition step_start (now : string) (s : Step) : Step :=
  mkStep (st_id s) (st_action s) (st_description s) (st_reversible s) (st_payload s) StRunning
    (Some now) (st_finished_at s).
Definition step_finish (now : string) (status : StepStatus) (s : Step) : Step :=
  mkStep (st_id s) (st_action s) (st_description s) (st_reversible s) (st_payload s) status
    (st_started_at s) (Some now).

Record StepResult := mkStepResult {
  sr_status : StepStatus;
  sr_message : message;
  sr_data : Json;
  sr_error : option message
}.

Definition step_result_ok (m : message) : StepResult := mkStepResult StSucceeded m JNull None.
Definition step_result_skipped (m : message) : StepResult := mkStepResult StSkipped m JNull None.
Definition step_result_failed (e : message) : StepResult := mkStepResult StFailed e JNull (Some e).

Inductive ExecStatus :=
| ExPending | ExPlanning | ExWaitingApproval | ExRunning | ExPartiallyApplied | ExFailed
| ExRollingBack | ExRolledBack | ExSucceeded | ExCancelled.

#[export] Instance ExecStatus_eq_dec : EqDecision ExecStatus.
Proof. solve_decision. Defined.

Record Operation := mkOp {
  ex_id : Z;
  ex_kind : string;
  ex_status : ExecStatus;
  ex_source_commit : option string;
  ex_requested_by : string;
  ex_created_at : string;
  ex_started_at : option string;
  ex_finished_at : option string
}.

Definition operation_new (ulid : Z) (now kind requested_by : string) : Operation :=
  mkOp ulid kind ExPending None requested_by now None None.
Definition op_start (now : string) (st : ExecStatus) (o : Operation) : Operation :=
  mkOp (ex_id o) (ex_kind o) st (ex_source_commit o) (ex_requested_by o) (ex_created_at o)
    (Some now) (ex_finished_at o).
Definition op_finish (now : string) (st : ExecStatus) (o : Operation) : Operation :=
  mkOp (ex_id o) (ex_kind o) st (ex_source_commit o) (ex_requested_by o) (ex_created_at o)
    (ex_started_at o) (Some now).

Record Checkpoint := mkCheckpoint {
  cp_id : Z;
  cp_resource_id : ResourceId;
  cp_operation_id : Z;
  cp_created_at : string;
  cp_data : Json;
  cp_resource_spec : option Json
}.

Record ObservedState := mkObserved {
  obs_present : bool;
  obs_spec : Json;
  obs_facts : list (string * Json);
  obs_observed_at : string
}.

Record AppliedState := mkApplied {
  ap_spec : Json;
  ap_generation : Z;
  ap_operation_id : option Z;
  ap_applied_at : string
}.

Inductive VerifyOutcome := VMatch | VMismatch (changes : list FieldChange).

(** ** Results *)

Inductive ItemStatus := INoChange | ISucceeded | IFailed | ISkipped.

#[export] Instance ItemStatus_eq_dec : EqDecision ItemStatus.
Proof. solve_decision. Defined.

Record StepRecord := mkStepRecord { srec_step : Step; srec_result : StepResult }.

Record VerifySummary := mkVerifySummary { vs_matched : bool; vs_mismatch : option (list FieldChange) }.

Definition verify_summary (v : VerifyOutcome) : VerifySummary :=
  match v with
  | VMatch => mkVerifySummary true None
  | VMismatch c => mkVerifySummary false (Some c)
  end.

Record ApplyItem := mkApplyItem {
  it_resource_id : ResourceId;
  it_kind : string;
  it_status : ItemStatus;
  it_steps : list StepRecord;
  it_verify : option VerifySummary;
  it_error : option message
}.

Record ApplyResult := mkApplyResult { ar_operation : Operation; ar_items : list ApplyItem }.

Record PlanItem := mkPlanItem {
  pi_resource_id : ResourceId;
  pi_kind : string;
  pi_diff : Diff;
  pi_steps : list Step
}.

Record PlanResult := mkPlanResult { pr_operation : Operation; pr_items : list PlanItem }.

Definition has_changes (p : PlanResult) : bool := existsb (λ i, is_change (pi_diff i)) (pr_items p).
Definition change_count (p : PlanResult) : nat := count_if (λ i, is_change (pi_diff i)) (pr_items p).

(** ** Providers

    [V] is the part of the host a provider manages, [W] what it keeps in a
    step's workspace. [observe], [verify] and [diff] do not mutate, as the
    trait requires; [plan] draws its steps' ULIDs from the shared source, whose
    position it receives and returns. *)

Record ApplyContext := mkContext { ctx_operation_id : Z; ctx_workspace : Z * string * Z }.

Record Provider (V W : Type) := mkProvider {
  p_observe : Resource → V → CoreResult ObservedState;
  p_diff : Resource → ObservedState → CoreResult Diff;
  p_plan : Resource → Diff → nat → CoreResult (list Step) * nat;
  p_pre_apply : Resource → Step → ApplyContext → V * W → CoreResult Json * (V * W);
  p_apply : Resource → Step → ApplyContext → V * W → CoreResult StepResult * (V * W);
  p_verify : Resource → V → CoreResult VerifyOutcome;
  p_rollback : Resource → Checkpoint → V * W → CoreResult () * (V * W);
  p_capability_keys : Resource → CoreResult (list string)
}.
Arguments p_observe {V W} _.
Arguments p_diff {V W} _.
Arguments p_plan {V W} _.
Arguments p_pre_apply {V W} _.
Arguments p_apply {V W} _.
Arguments p_verify {V W} _.
Arguments p_rollback {V W} _.
Arguments p_capability_keys {V W} _.

Abbreviation ProviderRegistry V W := (list (string * Provider V W)).

Definition registry_require {V W} (reg : ProviderRegistry V W) (kind : string) : CoreResult (Provider V W) :=
  ok_or (assoc_get kind reg) (EUnknownKind kind).

(** ** State

    The ULIDs drawn, the clock's readings and the outcomes of the state
    directory's writes, by position; the world holds the next positions. *)

Class ExecEnv := {
  ulid_text : Z → string;
  ulid_at : nat → Z;
  now_at : nat → string;
  io_at : nat → result string ()
}.

Record Slot (W : Type) := mkSlot { sl_checkpoint : option Checkpoint; sl_workspace : W }.
Arguments mkSlot {W}.
Arguments sl_checkpoint {W}.
Arguments sl_workspace {W}.

(** The directory of an operation: the two result files and, by resource key
    and step, the step directories. *)
Record OpDir (W : Type) := mkOpDir {
  od_operation : option Operation;
  od_result : option ApplyResult;
  od_slots : gmap (string * Z) (Slot W)
}.
Arguments mkOpDir {W}.
Arguments od_operation {W}.
Arguments od_result {W}.
Arguments od_slots {W}.

Record World (V W : Type) := mkWorld {
  w_host : V;
  w_applied : gmap string AppliedState;
  w_ops : gmap Z (OpDir W);
  w_ulid : nat;
  w_clock : nat;
  w_io : nat
}.
Arguments mkWorld {V W}.
Arguments w_host {V W}.
Arguments w_applied {V W}.
Arguments w_ops {V W}.
Arguments w_ulid {V W}.
Arguments w_clock {V W}.
Arguments w_io {V W}.

(** ** Effects

    A call returns its result and the world it leaves; unlike a database
    transaction, an error does not undo anything. *)

Definition ex (V W A : Type) : Type := World V W → CoreResult A * World V W.

Definition ex_ret {V W A} (a : A) : ex V W A := λ w, (Ok a, w).
Definition ex_throw {V W A} (e : CoreError) : ex V W A := λ w, (Err e, w).
Definition ex_bind {V W A B} (m : ex V W A) (f : A → ex V W B) : ex V W B := λ w,
  match m w with
  | (Ok a, w') => f a w'
  | (Err e, w') => (Err e, w')
  end.
Definition ex_lift {V W A} (r : CoreResult A) : ex V W A := λ w, (r, w).
Definition ex_get {V W A} (f : World V W → A) : ex V W A := λ w, (Ok (f w), w).
Definition ex_modify {V W} (f : World V W → World V W) : ex V W () := λ w, (Ok (), f w).

Declare Scope ex_scope.
Delimit Scope ex_scope with ex.
Notation "'let*' x ':=' m 'in' k" := (ex_bind m (λ x, k))
  (at level 200, x name, m at level 100, k at level 200, right associativity) : ex_scope.
Notation "'let*' ' p ':=' m 'in' k" := (ex_bind m (λ x, match x with p => k end))
  (at level 200, p pattern, m at level 100, k at level 200, right associativity) : ex_scope.
Notation "m ';*' k" := (ex_bind m (λ _ : (), k)) (at level 100, k at level 200, right associativity) : ex_scope.
#[local] Open Scope ex_scope.

(** [for x in xs { out.push(body(x)?) }]. *)
Fixpoint ex_map {V W A B} (body : A → ex V W B) (xs : list A) : ex V W (list B) :=
  match xs with
  | [] => ex_ret []
  | x :: xs => let* y := body x in let* ys := ex_map body xs in ex_ret (y :: ys)
  end.

(** The text of an error ([thiserror]). *)
Definition core_error_text (e : CoreError) : message :=
  match e with
  | EIo path source => [Txt "io error at "; Txt path; Txt ": "; Ext source]
  | EYaml path source => [Txt "yaml parse error in "; Txt path; Txt ": "; Ext source]
  | EJson source => [Txt "json error: "; Ext source]
  | EManifest path m => [Txt "manifest error in "; Txt path; Txt ": "] ++ m
  | EValidation resource m => [Txt "validation failed for "; Txt resource; Txt ": "] ++ m
  | EUnknownKind kind => [Txt "unknown resource kind: "; Txt kind]
  | EProvider provider m => [Txt "provider "; Txt provider; Txt " failed: "] ++ m
  | ECheckpoint resource m => [Txt "checkpoint missing for resource "; Txt resource; Txt ": "] ++ m
  | ECommand m => [Txt "command failed: "] ++ m
  end.

Section State.
Context {V W : Type} (ws_empty : W).

Definition set_host (v : V) (w : World V W) : World V W :=
  mkWorld v (w_applied w) (w_ops w) (w_ulid w) (w_clock w) (w_io w).
Definition set_applied (a : gmap string AppliedState) (w : World V W) : World V W :=
  mkWorld (w_host w) a (w_ops w) (w_ulid w) (w_clock w) (w_io w).
Definition set_ops (o : gmap Z (OpDir W)) (w : World V W) : World V W :=
  mkWorld (w_host w) (w_applied w) o (w_ulid w) (w_clock w) (w_io w).
Definition set_ulid (n : nat) (w : World V W) : World V W :=
  mkWorld (w_host w) (w_applied w) (w_ops w) n (w_clock w) (w_io w).
Definition set_clock (n : nat) (w : World V W) : World V W :=
  mkWorld (w_host w) (w_applied w) (w_ops w) (w_ulid w) n (w_io w).
Definition set_io (n : nat) (w : World V W) : World V W :=
  mkWorld (w_host w) (w_applied w) (w_ops w) (w_ulid w) (w_clock w) n.

Definition empty_opdir : OpDir W := mkOpDir None None ∅.

(** The files of an operation's directory; [create_dir_all] keeps what is there. *)
Definition opdir_of (op : Z) (w : World V W) : OpDir W := default empty_opdir (w_ops w !! op).
Definition slot_of (op : Z) (key : string * Z) (w : World V W) : Slot W :=
  default (mkSlot None ws_empty) (od_slots (opdir_of op w) !! key).
Definition put_opdir (op : Z) (d : OpDir W) (w : World V W) : World V W :=
  set_ops (<[op := d]> (w_ops w)) w.
Definition put_slot (op : Z) (key : string * Z) (s : Slot W) (w : World V W) : World V W :=
  let d := opdir_of op w in
  put_opdir op (mkOpDir (od_operation d) (od_result d) (<[key := s]> (od_slots d))) w.

Context `{ExecEnv, Sha256}.

Definition new_ulid : ex V W Z := λ w, (Ok (ulid_at (w_ulid w)), set_ulid (S (w_ulid w)) w).
Definition timestamp_now : ex V W string := λ w, (Ok (now_at (w_clock w)), set_clock (S (w_clock w)) w).

(** One operation on the state directory's files. *)
Definition fs_io (path : string) : ex V W () := λ w,
  (match io_at (w_io w) with Ok _ => Ok () | Err e => Err (EIo path e) end, set_io (S (w_io w)) w).

Definition ensure_dir (path : string) : ex V W () := fs_io path.

(** Parent directory, temporary file, rename; the caller publishes the value. *)
Definition write_json (path : string) : ex V W () := ensure_dir path ;* fs_io path ;* fs_io path.

(** A host call of a provider on the workspace of a slot. *)
Definition host_call {A} (op : Z) (key : string * Z) (f : V * W → CoreResult A * (V * W)) : ex V W (CoreResult A) :=
  λ w, let '(r, (v, ws)) := f (w_host w, sl_workspace (slot_of op key w)) in
       (Ok r, put_slot op key (mkSlot (sl_checkpoint (slot_of op key w)) ws) (set_host v w)).

Definition EXECUTOR_OPERATIONS_KEEP : nat := Z.to_nat 200.

(** Deletes the first [drop] directories of [keys]; a failed removal is skipped. *)
Fixpoint gc_loop (keys : list Z) : ex V W () :=
  match keys with
  | [] => ex_ret ()
  | k :: keys =>
      (λ w, match io_at (w_io w) with
            | Ok _ => (Ok (), set_io (S (w_io w)) (set_ops (delete k (w_ops w)) w))
            | Err _ => (Ok (), set_io (S (w_io w)) w)
            end) ;* gc_loop keys
  end.

Definition op_keys (w : World V W) : list Z := order_by Z.leb (map_to_list (w_ops w)).*1.

Definition gc_operation_dirs (keep : nat) : ex V W () :=
  fs_io "operations" ;*
  let* keys := ex_get op_keys in
  if decide (length keys ≤ keep) then ex_ret ()
  else gc_loop (take (length keys - keep) keys).

(** The caller logs a failed pass and goes on. *)
Definition gc_quietly (keep : nat) : ex V W () := λ w, (Ok (), (gc_operation_dirs keep w).2).

(** ** Plan *)

Definition SECRET_FIELDS_ANNOTATION : string := "iac.dev/secret-fields".

Definition mark_secret_changes (r : Resource) (d : Diff) : Diff :=
  match assoc_get SECRET_FIELDS_ANNOTATION (md_annotations (r_metadata r)) with
  | Some v =>
      if decide (v = "") then d
      else mkDiff (diff_kind d)
             (map (λ c, mkChange (fc_field c) (fc_from c) (fc_to c) true) (diff_changes d))
             (diff_reasons d) (diff_reversible d)
  | None => d
  end.

Definition call_plan (p : Provider V W) (r : Resource) (d : Diff) : ex V W (list Step) := λ w,
  let '(res, n) := p_plan p r d (w_ulid w) in (res, set_ulid n w).

Context (reg : ProviderRegistry V W) (actor : string).

(** Observation and diff of one resource, with the secrets marked. *)
Definition observe_diff (r : Resource) : ex V W (Provider V W * Diff) :=
  let* p := ex_lift (registry_require reg (r_kind r)) in
  let* v := ex_get w_host in
  let* observed := ex_lift (p_observe p r v) in
  let* diff := ex_lift (p_diff p r observed) in
  ex_ret (p, mark_secret_changes r diff).

Definition plan_one (r : Resource) : ex V W PlanItem :=
  let* '(p, diff) := observe_diff r in
  let* steps := (if is_change diff then call_plan p r diff else ex_ret []) in
  ex_ret (mkPlanItem (rid_of r) (r_kind r) diff steps).

Definition plan (resources : list Resource) : ex V W PlanResult :=
  let* id := new_ulid in
  let* created := timestamp_now in
  let op := operation_new id created "plan" actor in
  let* items := ex_map plan_one resources in
  let* finished := timestamp_now in
  ex_ret (mkPlanResult (op_finish finished ExSucceeded op) items).

(** ** Apply *)

Definition write_applied (r : Resource) (op : Z) : ex V W () :=
  ensure_dir "applied" ;*
  let* now := timestamp_now in
  write_json (fs_key (rid_of r)) ;*
  ex_modify (λ w, set_applied (<[fs_key (rid_of r) := mkApplied (r_spec r) 1 (Some op) now]> (w_applied w)) w).

Definition checkpoint_with_spec (rid : ResourceId) (op : Z) (data spec : Json) : ex V W Checkpoint :=
  let* id := new_ulid in
  let* now := timestamp_now in
  ex_ret (mkCheckpoint id rid op now data (Some spec)).

Definition step_record (s : Step) (status : StepStatus) (result : StepResult) : ex V W StepRecord :=
  let* now := timestamp_now in
  ex_ret (mkStepRecord (step_finish now status s) result).

(** Runs the steps up to the first failure; returns the records and the
    failure's message. *)
Fixpoint apply_steps (p : Provider V W) (r : Resource) (op : Z) (steps : list Step)
    : ex V W (list StepRecord * option message) :=
  match steps with
  | [] => ex_ret ([], None)
  | step :: steps =>
      let key := (fs_key (rid_of r), st_id step) in
      let ctx := mkContext op (op, key.1, key.2) in
      ensure_dir "workspace" ;*
      ex_modify (λ w, put_slot op key (slot_of op key w) w) ;*
      let* started := timestamp_now in
      let s := step_start started step in
      let* pre := host_call op key (p_pre_apply p r s ctx) in
      match pre with
      | Err e =>
          let msg := [Txt "pre_apply failed: "] ++ core_error_text e in
          let* rec := step_record s StFailed (step_result_failed msg) in
          ex_ret ([rec], Some msg)
      | Ok data =>
          let* cp := checkpoint_with_spec (rid_of r) op data (r_spec r) in
          write_json "checkpoint.json" ;*
          ex_modify (λ w, put_slot op key (mkSlot (Some cp) (sl_workspace (slot_of op key w))) w) ;*
          let* applied := host_call op key (p_apply p r s ctx) in
          let result :=
            match applied with
            | Ok res => res
            | Err e => step_result_failed ([Txt "apply failed: "] ++ core_error_text e)
            end in
          let* rec := step_record s (sr_status result) result in
          if decide (sr_status result = StFailed) then ex_ret ([rec], Some (default [] (sr_error result)))
          else
            let* '(records, err) := apply_steps p r op steps in
            ex_ret (rec :: records, err)
      end
  end.

Definition apply_one (op : Z) (r : Resource) : ex V W ApplyItem :=
  let* '(p, diff) := observe_diff r in
  if decide (diff_kind diff = NoChange) then
    write_applied r op ;*
    ex_ret (mkApplyItem (rid_of r) (r_kind r) INoChange [] None None)
  else
  let* steps := call_plan p r diff in
  let* '(records, err) := apply_steps p r op steps in
  match err with
  | Some e => ex_ret (mkApplyItem (rid_of r) (r_kind r) IFailed records None (Some e))
  | None =>
      let* v := ex_get w_host in
      let* outcome := ex_lift (p_verify p r v) in
      let summary := verify_summary outcome in
      (if vs_matched summary then write_applied r op else ex_ret ()) ;*
      ex_ret (mkApplyItem (rid_of r) (r_kind r) (if vs_matched summary then ISucceeded else IFailed)
                records (Some summary) None)
  end.

Definition item_is (s : ItemStatus) (i : ApplyItem) : bool := bool_decide (it_status i = s).

Definition apply_status (items : list ApplyItem) : ExecStatus :=
  match existsb (item_is IFailed) items, existsb (item_is ISucceeded) items with
  | true, true => ExPartiallyApplied
  | true, false => ExFailed
  | false, _ => ExSucceeded
  end.

Definition apply (resources : list Resource) : ex V W ApplyResult :=
  let* id := new_ulid in
  let* created := timestamp_now in
  let* started := timestamp_now in
  let op := op_start started ExRunning (operation_new id created "apply" actor) in
  ensure_dir "operations" ;*
  ex_modify (λ w, put_opdir id (opdir_of id w) w) ;*
  let* items := ex_map (apply_one id) resources in
  let* finished := timestamp_now in
  let res := mkApplyResult (op_finish finished (apply_status items) op) items in
  write_json "operation.json" ;*
  ex_modify (λ w, put_opdir id (mkOpDir (Some (ar_operation res)) (od_result (opdir_of id w))
                                  (od_slots (opdir_of id w))) w) ;*
  write_json "apply-result.json" ;*
  ex_modify (λ w, put_opdir id (mkOpDir (od_operation (opdir_of id w)) (Some res)
                                  (od_slots (opdir_of id w))) w) ;*
  gc_quietly EXECUTOR_OPERATIONS_KEEP ;*
  ex_ret res.

(** ** Rollback *)

Definition synthesize_resource (cp : Checkpoint) : Resource :=
  mkResource API_VERSION (rid_kind (cp_resource_id cp))
    (mkMetadata (rid_name (cp_resource_id cp)) (rid_environment (cp_resource_id cp)) None [] [])
    (default JNull (cp_resource_spec cp)) JNull.

(** The checkpoints found in the step directories, most recent id first. *)
Definition checkpoints_of (d : OpDir W) : list ((string * Z) * Checkpoint) :=
  order_by (λ a b, Z.leb (cp_id b.2) (cp_id a.2))
    (omap (λ ks, pair ks.1 <$> sl_checkpoint ks.2) (map_to_list (od_slots d))).

(** Every checkpoint is attempted; the failures are collected. *)
Fixpoint rollback_loop (op : Z) (cps : list ((string * Z) * Checkpoint)) : ex V W (list message) :=
  match cps with
  | [] => ex_ret []
  | (key, cp) :: cps =>
      let r := synthesize_resource cp in
      let rid := Txt (rid_display (rid_of r)) in
      let* err :=
        match registry_require reg (r_kind r) with
        | Ok p => host_call op key (p_rollback p r cp)
        | Err e => ex_ret (Err e)
        end in
      let* errs := rollback_loop op cps in
      ex_ret (match err with Ok _ => errs | Err e => ([rid; Txt ": "] ++ core_error_text e) :: errs end)
  end.

Definition join_messages (ms : list message) : message :=
  match ms with [] => [] | m :: ms => m ++ concat (map (λ m, Txt "; " :: m) ms) end.

(** Reads the directory of the checkpoints, then every step directory. *)
Definition read_checkpoints (d : OpDir W) : ex V W (list ((string * Z) * Checkpoint)) :=
  if decide (size (od_slots d) = 0) then ex_ret []
  else
    fs_io "checkpoints" ;*
    let* _ := ex_map (λ _, fs_io "checkpoint.json") (map_to_list (od_slots d)) in
    ex_ret (checkpoints_of d).

Definition rollback (op : Z) : ex V W () :=
  let* dir := ex_get (λ w, w_ops w !! op) in
  match dir with
  | None => ex_throw (ECheckpoint ("operation " +:+ ulid_text op)
              [Txt "operation directory "; Txt (ulid_text op); Txt " does not exist"])
  | Some d =>
      let* cps := read_checkpoints d in
      let* errs := rollback_loop op cps in
      match errs with
      | [] => ex_ret ()
      | _ => ex_throw (ECommand ([Txt "rollback completed with "; Dec (Z.of_nat (length errs));
               Txt " checkpoint failure(s): "] ++ join_messages errs))
      end
  end.

End State.
