(* ===== verification/ExecutorProps.v ===== *)
(** * The executor: rollback undoes apply, and what apply reports

    The contract of a provider, up to what counts of a host and for the hosts
    that are fit; the proof that, over providers that keep it, rolling an
    operation back returns the host to where the operation found it (FileProps
    shows that the file provider keeps it); and the shape of the results of
    apply. *)

From S2P Require Import Prelude Text Json ApiError Routing Db AuditLog Ids Diff Executor.

#[local] Open Scope string_scope.
#[local] Open Scope list_scope.
#[local] Open Scope nat_scope.
#[local] Open Scope ex_scope.

(** ** Hoare triples

    [triple P m Q E]: from a world in [P], [m] ends in [Q] with a value, or in
    [E] with an error. *)

Section Triples.
Context {V W : Type}.

Definition triple {A} (P : World V W → Prop) (m : ex V W A) (Q : A → World V W → Prop)
    (E : World V W → Prop) : Prop :=
  ∀ w, P w → match m w with (Ok a, w') => Q a w' | (Err _, w') => E w' end.

Lemma triple_run {A} P (m : ex V W A) Q E w res w' :
  triple P m Q E → P w → m w = (res, w') → match res with Ok a => Q a w' | Err _ => E w' end.
Proof. intros Hm Hw Hrun. specialize (Hm w Hw). rewrite Hrun in Hm. by destruct res. Qed.

Lemma triple_bind {A B} P (m : ex V W A) (f : A → ex V W B) Q R E :
  triple P m Q E → (∀ a, triple (Q a) (f a) R E) → triple P (ex_bind m f) R E.
Proof.
  intros Hm Hf w Hw. specialize (Hm w Hw). unfold ex_bind.
  destruct (m w) as [[a|e] w']; [by apply Hf|done].
Qed.

Lemma triple_ret {A} P (a : A) E : triple P (ex_ret a) (λ _, P) E.
Proof. by intros w Hw. Qed.

Lemma triple_lift {A} P (r : CoreResult A) (E : World V W → Prop) :
  (∀ w, P w → E w) → triple P (ex_lift r) (λ a w, P w ∧ r = Ok a) E.
Proof. intros HE w Hw. unfold ex_lift. destruct r; [done|by apply HE]. Qed.

Lemma triple_get {A} P (f : World V W → A) E : triple P (ex_get f) (λ a w, P w ∧ a = f w) E.
Proof. by intros w Hw. Qed.

Lemma triple_conseq {A} P P' (m : ex V W A) Q Q' E E' :
  (∀ w, P' w → P w) → (∀ a w, Q a w → Q' a w) → (∀ w, E w → E' w) →
  triple P m Q E → triple P' m Q' E'.
Proof.
  intros HP HQ HE Hm w Hw. specialize (Hm w (HP w Hw)). destruct (m w) as [[a|e] w']; auto.
Qed.

Lemma triple_pure {A} P (φ : Prop) (m : ex V W A) Q E :
  (φ → triple P m Q E) → triple (λ w, P w ∧ φ) m Q E.
Proof. intros Hm w [Hw Hφ]. by apply (Hm Hφ). Qed.

Lemma triple_map {A B} P (body : A → ex V W B) E xs :
  (∀ x, x ∈ xs → triple P (body x) (λ _, P) E) → triple P (ex_map body xs) (λ _, P) E.
Proof.
  induction xs as [|x xs IH]; intros Hb; [apply triple_ret|]. cbn.
  eapply triple_bind; [apply Hb; left|]. intros y. eapply triple_bind; [apply IH; intros z Hz; apply Hb; by right|]. intros ys. apply triple_ret.
Qed.

(** A call that touches neither the host nor the step directories of [op]. *)
Definition quiet (op : Z) (w w' : World V W) : Prop :=
  w_host w' = w_host w ∧ od_slots (opdir_of op w') = od_slots (opdir_of op w) ∧ w_ulid w ≤ w_ulid w' ∧
  (is_Some (w_ops w !! op) → is_Some (w_ops w' !! op)).

#[export] Instance quiet_preorder op : PreOrder (quiet op).
Proof.
  split; [by intros w|]. intros w1 w2 w3 (H1 & H2 & H3 & H4) (H5 & H6 & H7 & H8).
  unfold quiet. split_and!; [congruence|congruence|lia|auto].
Qed.

Definition quietly (op : Z) {A} (m : ex V W A) : Prop := ∀ w, quiet op w (m w).2.

Lemma quietly_bind op {A B} (m : ex V W A) (f : A → ex V W B) :
  quietly op m → (∀ a, quietly op (f a)) → quietly op (ex_bind m f).
Proof.
  intros Hm Hf w. specialize (Hm w). unfold ex_bind. destruct (m w) as [[a|e] w']; [|done].
  cbn in *. etrans; [exact Hm|apply Hf].
Qed.

Lemma quietly_id op {A} (m : ex V W A) : (∀ w, (m w).2 = w) → quietly op m.
Proof. intros H w. by rewrite H. Qed.

Lemma triple_quiet op {A} P (m : ex V W A) (E : World V W → Prop) :
  quietly op m → (∀ w w', P w → quiet op w w' → P w') → (∀ w, P w → E w) → triple P m (λ _, P) E.
Proof.
  intros Hm HP HE w Hw. specialize (Hm w). destruct (m w) as [[a|e] w'] eqn:Em; cbn in Hm; [|apply HE]; by eapply HP.
Qed.
End Triples.

(** ** The provider contract *)

Section Contract.
Context {V W : Type} (ws_empty : W) `{ExecEnv, Sha256}.

(** The part of a host that counts is told by an equivalence [same]; [fit] is
    what the hosts of a run keep to, and [calm] what a rollback needs besides,
    so that its calls succeed. *)
Context (same : V → V → Prop) (fit calm : V → Prop).

(** What the rollback of a resource relies on. [plan] draws the ULIDs of its
    steps, a new one for each; [pre_apply] leaves what counts as it is; and
    [apply], whatever its result, can be undone: on any calm host that counts
    as the one [apply] left, rolling back with the checkpoint that [pre_apply]
    filled in a new workspace leads to a calm host that counts as the one
    [pre_apply] found. *)
Record provider_ok (p : Provider V W) (r : Resource) : Prop := {
  plan_fresh : ∀ d n res n', p_plan p r d n = (res, n') →
    n ≤ n' ∧ ∀ steps, res = Ok steps →
      NoDup (map st_id steps) ∧ ∀ s, s ∈ steps → ∃ i, n ≤ i ∧ i < n' ∧ st_id s = ulid_at i;
  pre_apply_keeps : ∀ s ctx v ws res v' ws',
    fit v → p_pre_apply p r s ctx (v, ws) = (res, (v', ws')) → fit v' ∧ same v v';
  apply_keeps : ∀ s ctx v ws res v' ws',
    fit v → p_apply p r s ctx (v, ws) = (res, (v', ws')) → fit v';
  rollback_undoes : ∀ s ctx v data v1 ws1 res v2 ws2 cp v3,
    fit v → p_pre_apply p r s ctx (v, ws_empty) = (Ok data, (v1, ws1)) →
    p_apply p r s ctx (v1, ws1) = (res, (v2, ws2)) →
    cp_data cp = data → cp_resource_id cp = rid_of r → cp_resource_spec cp = Some (r_spec r) →
    same v2 v3 → fit v3 → calm v3 →
    ∃ v4 ws4, p_rollback p (synthesize_resource cp) cp (v3, ws2) = (Ok (), (v4, ws4)) ∧ same v v4 ∧ fit v4 ∧ calm v4
}.
End Contract.

(** The milliseconds of a ULID: its upper 48 bits. *)
Definition ulid_ms (u : Z) : Z := (u / 2 ^ 80)%Z.

(** ** The stack of checkpoints *)

Section Undo.
Context {V W : Type} (ws_empty : W) `{ExecEnv, Sha256} (reg : ProviderRegistry V W) (actor : string).
Context (same : V → V → Prop) `{!Equivalence same} (fit calm : V → Prop).

(** ULIDs are unique, and the clock does not go back. *)
Context (Hunique : ∀ i j, ulid_at i = ulid_at j → i = j).
Context (Hclock : ∀ i j, i < j → (ulid_ms (ulid_at i) ≤ ulid_ms (ulid_at j))%Z).

Abbreviation undoes := (provider_ok ws_empty same fit calm).

Abbreviation Frame := (((string * Z) * (Checkpoint * W)))%type.
Definition frame_id (x : Frame) : Z := cp_id x.2.1.
Definition frame_cp (x : Frame) : (string * Z) * Checkpoint := (x.1, x.2.1).

(** [a] was drawn after [b]. *)
Definition newer (a b : Z) : Prop := ∃ i j, j < i ∧ a = ulid_at i ∧ b = ulid_at j.

(** Rolling back the frames, first to last, leads from one host to another,
    as far as what counts. *)
Inductive unwinds : list Frame → V → V → Prop :=
| unwinds_nil v v0 : same v v0 → unwinds [] v v0
| unwinds_cons key cp ws stk p v v1 v0 :
    registry_require reg (rid_kind (cp_resource_id cp)) = Ok p →
    (∀ v', same v v' → fit v' → calm v' →
       ∃ v1' ws', p_rollback p (synthesize_resource cp) cp (v', ws) = (Ok (), (v1', ws')) ∧ same v1 v1' ∧ fit v1' ∧ calm v1') →
    unwinds stk v1 v0 → unwinds ((key, (cp, ws)) :: stk) v v0.

Lemma unwinds_same stk v v' v0 : same v v' → unwinds stk v v0 → unwinds stk v' v0.
Proof.
  intros Hs Hun. destruct Hun as [v v0 Hend|key cp ws stk p v v1 v0 Hp Hr Hun].
  - constructor. by rewrite <- Hs.
  - econstructor; [exact Hp| |exact Hun]. intros v2 Hv2. apply Hr. by rewrite Hs.
Qed.

(** The step directories of [op] hold a stack of checkpoints that leads back
    to [v0]; every ULID in them was drawn. *)
Record stacked (op : Z) (v0 : V) (w : World V W) (stk : list Frame) : Prop := {
  sk_unwinds : unwinds stk (w_host w) v0;
  sk_sorted : StronglySorted (λ a b, newer (frame_id a) (frame_id b)) stk;
  sk_keys : NoDup stk.*1;
  sk_slots : ∀ key cp ws, (key, (cp, ws)) ∈ stk ↔
               od_slots (opdir_of op w) !! key = Some (mkSlot (Some cp) ws);
  sk_ids : ∀ x, x ∈ stk → ∃ i, i < w_ulid w ∧ frame_id x = ulid_at i;
  sk_steps : ∀ key, is_Some (od_slots (opdir_of op w) !! key) → ∃ i, i < w_ulid w ∧ key.2 = ulid_at i
}.

Definition undoable (op : Z) (v0 : V) (w : World V W) : Prop :=
  is_Some (w_ops w !! op) ∧ fit (w_host w) ∧ ∃ stk, stacked op v0 w stk.

Lemma stacked_quiet op v0 w w' stk : stacked op v0 w stk → quiet op w w' → stacked op v0 w' stk.
Proof.
  intros [K1 K2 K3 K4 K5 K6] (Qh & Qs & Qu & Qo). split; rewrite ?Qh, ?Qs; try done.
  - intros x Hx. destruct (K5 x Hx) as (i & Hi & He). exists i. split; [lia|done].
  - intros key Hk. destruct (K6 key Hk) as (i & Hi & He). exists i. split; [lia|done].
Qed.

Lemma undoable_quiet op v0 w w' : undoable op v0 w → quiet op w w' → undoable op v0 w'.
Proof.
  intros (Hop & Hfit & stk & Hst) Hq. pose proof Hq as (Qh & _ & _ & Qo). split; [auto|]. split; [by rewrite Qh|].
  exists stk. by eapply stacked_quiet.
Qed.

(** The checkpoints of the operation were made in different milliseconds. *)
Definition apart (op : Z) (w : World V W) : Prop := ∀ key1 key2 cp1 cp2 ws1 ws2,
  od_slots (opdir_of op w) !! key1 = Some (mkSlot (Some cp1) ws1) →
  od_slots (opdir_of op w) !! key2 = Some (mkSlot (Some cp2) ws2) →
  key1 ≠ key2 → ulid_ms (cp_id cp1) ≠ ulid_ms (cp_id cp2).

(** *** Slots *)

Lemma opdir_of_put op d (w : World V W) : opdir_of op (put_opdir op d w) = d.
Proof. unfold opdir_of, put_opdir, set_ops. cbn. by rewrite lookup_insert_eq. Qed.

Lemma slots_put op key s (w : World V W) :
  od_slots (opdir_of op (put_slot op key s w)) = <[key := s]> (od_slots (opdir_of op w)).
Proof. unfold put_slot. by rewrite opdir_of_put. Qed.

Lemma slot_of_put op key s (w : World V W) : slot_of ws_empty op key (put_slot op key s w) = s.
Proof. unfold slot_of. by rewrite slots_put, lookup_insert_eq. Qed.

Lemma is_Some_put_slot op key s (w : World V W) : is_Some (w_ops (put_slot op key s w) !! op).
Proof. unfold put_slot, put_opdir. cbn. rewrite lookup_insert_eq. by eexists. Qed.

(** *** Rolling a stack back *)

Lemma host_call_run {A} op key (f : V * W → CoreResult A * (V * W)) w v ws r v' ws' cp :
  w_host w = v → od_slots (opdir_of op w) !! key = Some (mkSlot cp ws) → f (v, ws) = (r, (v', ws')) →
  host_call ws_empty op key f w = (Ok r, put_slot op key (mkSlot cp ws') (set_host v' w)).
Proof.
  intros <- Hs Hf. unfold host_call, slot_of. rewrite Hs. cbn. by rewrite Hf.
Qed.

Lemma slots_set_host op v (w : World V W) : opdir_of op (set_host v w) = opdir_of op w.
Proof. done. Qed.

Lemma rollback_loop_unwinds op stk : ∀ v0 w,
  unwinds stk (w_host w) v0 → fit (w_host w) → calm (w_host w) → NoDup stk.*1 →
  (∀ key cp ws, (key, (cp, ws)) ∈ stk → od_slots (opdir_of op w) !! key = Some (mkSlot (Some cp) ws)) →
  ∃ w', rollback_loop ws_empty reg op (map frame_cp stk) w = (Ok [], w') ∧ same v0 (w_host w').
Proof.
  induction stk as [|[key [cp ws]] stk IH]; intros v0 w Hun Hfit Hcalm Hnd Hs.
  { inversion Hun; subst. by exists w. }
  inversion Hun as [|? ? ? ? p ? v1 ? Hp Hr Hun']; subst.
  destruct (Hr (w_host w) ltac:(reflexivity) Hfit Hcalm) as (v1' & ws' & Hroll & Hv1 & Hfit1 & Hcalm1).
  apply NoDup_cons in Hnd as [Hin Hnd]. cbn [map frame_cp rollback_loop fst snd].
  unfold ex_bind at 1. change (r_kind (synthesize_resource cp)) with (rid_kind (cp_resource_id cp)).
  rewrite Hp. erewrite host_call_run; [|done|apply Hs; left|exact Hroll].
  edestruct (IH v0 (put_slot op key (mkSlot (Some cp) ws') (set_host v1' w))) as (w' & Hrun & Hv); [|done|done|done| |].
  { by eapply unwinds_same. }
  { intros key' cp' ws2 Hin'. rewrite slots_put, slots_set_host, lookup_insert_ne.
    - apply Hs. by right.
    - intros ->. apply Hin. apply list_elem_of_fmap. by exists (key', (cp', ws2)). }
  unfold ex_bind at 1. rewrite Hrun. by exists w'.
Qed.

Lemma omap_keys_sublist {K A B} (g : A → option B) (l : list (K * A)) :
  sublist (omap (λ ks, pair ks.1 <$> g ks.2) l).*1 l.*1.
Proof.
  induction l as [|[k a] l IH]; [constructor|]. cbn. destruct (g a); cbn; by constructor.
Qed.

Lemma found_perm op v0 w stk :
  stacked op v0 w stk →
  omap (λ ks, pair ks.1 <$> sl_checkpoint ks.2) (map_to_list (od_slots (opdir_of op w))) ≡ₚ map frame_cp stk.
Proof.
  intros [_ _ Hk Hsl _ _]. apply NoDup_Permutation.
  - eapply (NoDup_fmap_1 fst), sublist_NoDup; [|apply omap_keys_sublist]. apply NoDup_fst_map_to_list.
  - apply (NoDup_fmap_1 fst). replace ((map frame_cp stk).*1) with stk.*1; [done|].
    clear. induction stk as [|[k [c s]] stk IH]; [done|]. cbn. by f_equal.
  - intros [key cp]. rewrite list_elem_of_omap, elem_of_map. split.
    + intros ([k s] & Hin%elem_of_map_to_list & He). cbn in He.
      destruct s as [[c|] ws]; cbn in He; [|done]. injection He as <- <-.
      exists (k, (c, ws)). split; [by apply Hsl|done].
    + intros ([k [c ws]] & Hin%Hsl & He). unfold frame_cp in He. cbn in He. injection He as -> ->.
      exists (k, mkSlot (Some c) ws). split; [by apply elem_of_map_to_list|done].
Qed.

Lemma StronglySorted_map {A B} (f : A → B) (R : B → B → Prop) (S : A → A → Prop) l :
  (∀ x y, S x y → R (f x) (f y)) → StronglySorted S l → StronglySorted R (map f l).
Proof.
  intros Hf. induction 1 as [|x l Hl IH Hx]; cbn; constructor; [done|].
  apply Forall_forall. intros y (z & Hz & ->)%elem_of_map. rewrite Forall_forall in Hx. by apply Hf, Hx.
Qed.

Lemma StronglySorted_weaken {A} (R S : A → A → Prop) l :
  StronglySorted R l → (∀ x y, x ∈ l → y ∈ l → R x y → S x y) → StronglySorted S l.
Proof.
  induction 1 as [|x l Hl IH Hx]; intros Hrs; constructor.
  - apply IH. intros y z Hy Hz. apply Hrs; by right.
  - rewrite Forall_forall in Hx |- *. intros y Hy. apply Hrs; [left|by right|by apply Hx].
Qed.

(** Two elements of a strictly sorted list are in one order only. *)
Lemma sorted_ids_inj stk x y :
  StronglySorted (λ a b, (frame_id b < frame_id a)%Z) stk → x ∈ stk → y ∈ stk →
  frame_id x = frame_id y → x = y.
Proof.
  induction 1 as [|z l Hl IH Hz]; [by intros ?%elem_of_nil|]. rewrite Forall_forall in Hz.
  intros [->|Hx]%elem_of_cons [->|Hy]%elem_of_cons He; [done| | |by apply IH].
  - specialize (Hz y Hy). lia.
  - specialize (Hz x Hx). lia.
Qed.

(** Made in different milliseconds, the newer checkpoint has the greater id. *)
Lemma stacked_ordered op v0 w stk :
  stacked op v0 w stk → apart op w → StronglySorted (λ a b, (frame_id b < frame_id a)%Z) stk.
Proof.
  intros Hst Hapart. apply (StronglySorted_weaken _ _ _ (sk_sorted _ _ _ _ Hst)).
  intros [k1 [c1 s1]] [k2 [c2 s2]] Hx1 Hx2 (i & j & Hij & Ha & Hb). unfold frame_id in *. cbn in *.
  apply (sk_slots _ _ _ _ Hst) in Hx1, Hx2. assert (k1 ≠ k2) as Hk.
  { intros ->. rewrite Hx1 in Hx2. injection Hx2 as <- _. rewrite Ha in Hb. apply Hunique in Hb. lia. }
  pose proof (Hapart _ _ _ _ _ _ Hx1 Hx2 Hk) as Hms. rewrite Ha, Hb in *. specialize (Hclock j i Hij).
  unfold ulid_ms in *. assert (¬ (ulid_at i ≤ ulid_at j)%Z); [|lia]. intros Hle.
  apply (Z.div_le_mono _ _ (2 ^ 80)) in Hle; lia.
Qed.

(** The checkpoints on disk, sorted, are the stack. *)
Lemma checkpoints_of_stack op v0 w stk :
  stacked op v0 w stk → apart op w → checkpoints_of (opdir_of op w) = map frame_cp stk.
Proof.
  intros Hst Hapart. pose proof (found_perm _ _ _ _ Hst) as Hperm. pose proof (stacked_ordered _ _ _ _ Hst Hapart) as Hs.
  unfold checkpoints_of. set (found := omap _ _) in *.
  apply (StronglySorted_unique_strong (λ a b, Z.leb (cp_id b.2) (cp_id a.2) = true)).
  - intros x y Hx Hy Hle Hle'. rewrite order_by_perm, Hperm in Hx. apply elem_of_map in Hx as (x' & Hx & ->).
    apply elem_of_map in Hy as (y' & Hy & ->). f_equal.
    apply (sorted_ids_inj stk); [done..|]. cbn in Hle, Hle'. unfold frame_id. lia.
  - apply order_by_sorted; intros; lia.
  - eapply StronglySorted_map; [|exact Hs]. intros x y Hlt. cbn. unfold frame_id in Hlt. lia.
  - by rewrite order_by_perm.
Qed.

(** ** One step keeps the operation undoable *)

(** The steps still to run own no directory yet. *)
Definition steps_fresh (op : Z) (steps : list Step) (w : World V W) : Prop :=
  NoDup (map st_id steps) ∧
  ∀ s, s ∈ steps → (∃ i, i < w_ulid w ∧ st_id s = ulid_at i) ∧
                   ∀ k, od_slots (opdir_of op w) !! (k, st_id s) = None.

Lemma steps_fresh_quiet op steps w w' : steps_fresh op steps w → quiet op w w' → steps_fresh op steps w'.
Proof.
  intros [Hnd Hs] (_ & Qs & Qu & _). split; [done|]. intros s Hin. destruct (Hs s Hin) as [(i & Hi & He) Hk].
  split; [exists i; split; [lia|done]|by rewrite Qs].
Qed.

Lemma steps_fresh_put op s steps key slot w :
  steps_fresh op (s :: steps) w → key.2 = st_id s → steps_fresh op steps (put_slot op key slot w).
Proof.
  intros [[Hin Hnd]%NoDup_cons Hs] Hkey. split; [done|]. intros x Hx.
  destruct (Hs x) as [Hi Hk]; [by right|]. split; [exact Hi|]. intros k. rewrite slots_put, lookup_insert_ne; [done|].
  intros ->. cbn in Hkey. apply Hin, elem_of_map. exists x. by split.
Qed.

(** Steps fresh among the later ones survive a write to a slot they do not own. *)
Lemma steps_fresh_put_used op steps key slot w :
  steps_fresh op steps w → is_Some (od_slots (opdir_of op w) !! key) → steps_fresh op steps (put_slot op key slot w).
Proof.
  intros [Hnd Hs] [x Hx]. split; [done|]. intros s Hin. destruct (Hs s Hin) as [Hi Hk].
  split; [exact Hi|]. intros k. rewrite slots_put, lookup_insert_ne; [done|].
  intros ->. specialize (Hk k). congruence.
Qed.

(** Writing a slot without a checkpoint leaves the stack alone. *)
Lemma stacked_put_unchecked op v0 w stk key ws :
  stacked op v0 w stk → (∀ cp ws, od_slots (opdir_of op w) !! key ≠ Some (mkSlot (Some cp) ws)) →
  (∃ i, i < w_ulid w ∧ key.2 = ulid_at i) →
  stacked op v0 (put_slot op key (mkSlot None ws) w) stk.
Proof.
  intros [K1 K2 K3 K4 K5 K6] Hno Hkey. split; try done.
  - intros k cp ws'. rewrite K4, slots_put. destruct (decide (k = key)) as [->|Hne].
    + rewrite lookup_insert_eq. split; [intros Hs; by apply Hno in Hs|done].
    + by rewrite lookup_insert_ne.
  - intros k. rewrite slots_put. destruct (decide (k = key)) as [->|Hne]; [by intros _|].
    rewrite lookup_insert_ne by done. apply K6.
Qed.

(** The state between [pre_apply] and [apply]. *)
Record prepared (op : Z) (v0 : V) (key : string * Z) (ws : W) (w : World V W) : Prop := {
  pp_undoable : undoable op v0 w;
  pp_slot : od_slots (opdir_of op w) !! key = Some (mkSlot None ws)
}.

Lemma prepared_quiet op v0 key ws w w' : prepared op v0 key ws w → quiet op w w' → prepared op v0 key ws w'.
Proof.
  intros [Hu Hs] Hq. split; [by eapply undoable_quiet|]. destruct Hq as (_ & -> & _). done.
Qed.

(** Publishing the checkpoint and applying pushes one frame. *)
Lemma stacked_push op v0 w stk key ws cp p v2 ws2 :
  stacked op v0 w stk → od_slots (opdir_of op w) !! key = Some (mkSlot None ws) →
  (∃ i, i < w_ulid w ∧ cp_id cp = ulid_at i) → (∀ x, x ∈ stk → newer (cp_id cp) (frame_id x)) →
  registry_require reg (rid_kind (cp_resource_id cp)) = Ok p →
  (∀ v', same v2 v' → fit v' → calm v' →
     ∃ v1' ws', p_rollback p (synthesize_resource cp) cp (v', ws2) = (Ok (), (v1', ws')) ∧ same (w_host w) v1' ∧ fit v1' ∧ calm v1') →
  stacked op v0 (put_slot op key (mkSlot (Some cp) ws2) (set_host v2 w)) ((key, (cp, ws2)) :: stk).
Proof.
  intros [K1 K2 K3 K4 K5 K6] Hs Hid Hmax Hp Hr.
  assert (key ∉ stk.*1) as Hnk.
  { intros ([k [c s]] & -> & Hin)%list_elem_of_fmap. apply K4 in Hin. cbn in Hs. congruence. }
  split.
  - by econstructor.
  - constructor; [done|]. apply Forall_forall. intros x Hx. by apply Hmax.
  - by constructor.
  - intros k c s. rewrite slots_put, slots_set_host, elem_of_cons. destruct (decide (k = key)) as [->|Hne].
    + rewrite lookup_insert_eq. split; [intros [[= -> ->]|Hin]; [done|]|intros [= -> ->]; by left].
      destruct Hnk. apply list_elem_of_fmap. by exists (key, (c, s)).
    + rewrite lookup_insert_ne, <- K4 by done. split; [intros [[= -> -> ->]|]|]; [done|done|by right].
  - intros x [->|Hx]%elem_of_cons; [exact Hid|by apply K5].
  - intros k. rewrite slots_put, slots_set_host. destruct (decide (k = key)) as [->|Hne].
    + intros _. apply K6. by rewrite Hs.
    + rewrite lookup_insert_ne by done. apply K6.
Qed.

(** Every ULID in the stack was drawn before the next one. *)
Lemma stack_below op v0 w stk x n : stacked op v0 w stk → x ∈ stk → w_ulid w ≤ n → newer (ulid_at n) (frame_id x).
Proof. intros Hst Hx Hn. destruct (sk_ids _ _ _ _ Hst x Hx) as (i & Hi & ->). exists n, i. split_and!; [lia|done..]. Qed.

(** *** Calls that leave the host and the step directories alone *)

Lemma quiet_refl_fields op (w w' : World V W) :
  w_host w' = w_host w → w_ops w' = w_ops w → w_ulid w ≤ w_ulid w' → quiet op w w'.
Proof. intros Hh Ho Hu. unfold quiet, opdir_of. rewrite Hh, Ho. by split_and!. Qed.

Lemma quietly_fs_io op path : quietly (V := V) (W := W) op (fs_io path).
Proof. intros w. by apply quiet_refl_fields. Qed.

Lemma quietly_now op : quietly (V := V) (W := W) op timestamp_now.
Proof. intros w. by apply quiet_refl_fields. Qed.

Lemma quietly_ulid op : quietly (V := V) (W := W) op new_ulid.
Proof. intros w. apply quiet_refl_fields; [done|done|cbn; lia]. Qed.

Lemma quietly_ret op {A} (a : A) : quietly (V := V) (W := W) op (ex_ret a).
Proof. by apply quietly_id. Qed.

Lemma quietly_modify op (f : World V W → World V W) : (∀ w, quiet op w (f w)) → quietly op (ex_modify f).
Proof. intros Hf w. apply Hf. Qed.

Lemma quietly_write_json op path : quietly (V := V) (W := W) op (write_json path).
Proof. unfold write_json, ensure_dir. repeat (apply quietly_bind; [apply quietly_fs_io|intros ?]). apply quietly_fs_io. Qed.

Lemma quietly_step_record op s st res : quietly (V := V) (W := W) op (step_record s st res).
Proof. apply quietly_bind; [apply quietly_now|]. intros a. apply quietly_ret. Qed.

Lemma quietly_write_applied op r id : quietly (V := V) (W := W) op (write_applied r id).
Proof.
  apply quietly_bind; [apply quietly_fs_io|intros []]. apply quietly_bind; [apply quietly_now|intros now].
  apply quietly_bind; [apply quietly_write_json|intros []]. apply quietly_modify. intros w.
  by apply quiet_refl_fields.
Qed.

(** *** One step *)

(** What holds between two steps. *)
Definition between (op : Z) (v0 : V) (steps : list Step) (w : World V W) : Prop :=
  undoable op v0 w ∧ steps_fresh op steps w.

Lemma between_quiet op v0 steps w w' : between op v0 steps w → quiet op w w' → between op v0 steps w'.
Proof. intros [Hu Hf] Hq. split; [by eapply undoable_quiet|by eapply steps_fresh_quiet]. Qed.

(** Making the step's directory. *)
Lemma step_dir op v0 s steps k :
  triple (between op v0 (s :: steps))
    (ex_modify (λ w, put_slot op (k, st_id s) (slot_of ws_empty op (k, st_id s) w) w))
    (λ _ w, between op v0 steps w ∧ prepared op v0 (k, st_id s) ws_empty w)
    (undoable op v0).
Proof.
  intros w [(Hop & Hfit & stk & Hst) Hf]. cbn. assert (od_slots (opdir_of op w) !! (k, st_id s) = None) as Hn.
  { destruct Hf as [_ Hf]. apply Hf. left. }
  unfold slot_of. rewrite Hn. cbn.
  assert (undoable op v0 (put_slot op (k, st_id s) (mkSlot None ws_empty) w)) as Hu.
  { split; [apply is_Some_put_slot|]. split; [done|]. exists stk. apply stacked_put_unchecked; [done| |].
    - intros cp ws. by rewrite Hn.
    - destruct Hf as [_ Hf]. apply Hf. left. }
  split; [split; [done|by eapply steps_fresh_put]|]. split; [done|].
  by rewrite slots_put, lookup_insert_eq.
Qed.

Lemma prepared_drawn op v0 key ws w : prepared op v0 key ws w → ∃ i, i < w_ulid w ∧ key.2 = ulid_at i.
Proof. intros [(_ & _ & stk & Hst) Hs]. apply (sk_steps _ _ _ _ Hst). by rewrite Hs. Qed.

(** The host that [pre_apply] found, for the checkpoint's data and the
    workspace it left. *)
Definition backed (p : Provider V W) (r : Resource) (s : Step) (ctx : ApplyContext) (data : Json) (ws : W) (v1 : V) : Prop :=
  ∃ v, fit v ∧ same v v1 ∧ p_pre_apply p r s ctx (v, ws_empty) = (Ok data, (v1, ws)).

(** Another host that counts as the one at hand. *)
Lemma undoable_host op v0 key slot v' w :
  undoable op v0 w → fit v' → same (w_host w) v' →
  (∀ stk, stacked op v0 w stk → stacked op v0 (put_slot op key slot w) stk) →
  undoable op v0 (put_slot op key slot (set_host v' w)).
Proof.
  intros (Hop & Hfit & stk & Hst) Hfit' Hs Hput. split; [apply is_Some_put_slot|]. split; [done|]. exists stk.
  destruct (Hput stk Hst) as [K1 K2 K3 K4 K5 K6]. split; [|done..]. cbn. by eapply unwinds_same.
Qed.

(** Calling [pre_apply]. *)
Lemma step_pre op v0 steps key p r s ctx :
  undoes p r →
  triple (λ w, between op v0 steps w ∧ prepared op v0 key ws_empty w)
    (host_call ws_empty op key (p_pre_apply p r s ctx))
    (λ pre w, between op v0 steps w ∧ ∃ ws, prepared op v0 key ws w ∧
       ∀ data, pre = Ok data → backed p r s ctx data ws (w_host w))
    (undoable op v0).
Proof.
  intros Hp w [[Hu Hf] Hpr]. destruct (p_pre_apply p r s ctx (w_host w, ws_empty)) as [res [v' ws]] eqn:E.
  destruct (pre_apply_keeps _ _ _ _ p r Hp s ctx (w_host w) ws_empty res v' ws) as [Hfit Hs]; [apply Hu|exact E|].
  erewrite host_call_run; [|done|apply Hpr|exact E].
  assert (prepared op v0 key ws (put_slot op key (mkSlot None ws) (set_host v' w))) as Hpr'.
  { split; [|by rewrite slots_put, lookup_insert_eq]. apply undoable_host; [done..|].
    intros stk Hst. apply stacked_put_unchecked; [done| |].
    - intros cp ws'. rewrite (pp_slot _ _ _ _ _ Hpr). by intros [= ].
    - by apply (prepared_drawn _ _ _ _ _ Hpr). }
  split; [split; [apply Hpr'|]|].
  - apply steps_fresh_put_used; [exact Hf|]. rewrite slots_set_host, (pp_slot _ _ _ _ _ Hpr). by eexists.
  - exists ws. split; [exact Hpr'|]. intros data ->. exists (w_host w). split; [apply Hu|]. split; [exact Hs|exact E].
Qed.

(** What is known before the checkpoint is published. *)
Record checkpointed (op : Z) (v0 : V) (key : string * Z) (ws : W) (r : Resource) (data : Json)
    (cp : Checkpoint) (w : World V W) : Prop := {
  ck_prepared : prepared op v0 key ws w;
  ck_data : cp_data cp = data;
  ck_rid : cp_resource_id cp = rid_of r;
  ck_spec : cp_resource_spec cp = Some (r_spec r);
  ck_drawn : ∃ i, i < w_ulid w ∧ cp_id cp = ulid_at i;
  ck_max : ∀ stk x, stacked op v0 w stk → x ∈ stk → newer (cp_id cp) (frame_id x)
}.

Lemma checkpointed_quiet op v0 key ws r data cp w w' :
  checkpointed op v0 key ws r data cp w → quiet op w w' → checkpointed op v0 key ws r data cp w'.
Proof.
  intros [C1 C2 C3 C4 C5 C6] Hq. split; [by eapply prepared_quiet|done..| |].
  - destruct C5 as (i & Hi & He). exists i. split; [|done]. destruct Hq as (_ & _ & Hu & _). lia.
  - intros stk x Hst Hx. destruct C1 as [(_ & _ & stk0 & Hst0) _].
    destruct x as [k [c s]]. apply (sk_slots _ _ _ _ Hst) in Hx. destruct Hq as (_ & Qs & _ & _).
    rewrite Qs in Hx. apply (C6 stk0 (k, (c, s)) Hst0). by apply (sk_slots _ _ _ _ Hst0).
Qed.

(** Filling the checkpoint draws an id after all others. *)
Lemma step_checkpoint op v0 steps key ws p r s ctx data :
  triple (λ w, between op v0 steps w ∧ prepared op v0 key ws w ∧ backed p r s ctx data ws (w_host w))
    (checkpoint_with_spec (rid_of r) op data (r_spec r))
    (λ cp w, between op v0 steps w ∧ checkpointed op v0 key ws r data cp w ∧ backed p r s ctx data ws (w_host w))
    (undoable op v0).
Proof.
  intros w (Hb & Hpr & Hpa). set (w' := (checkpoint_with_spec (rid_of r) op data (r_spec r) w).2).
  assert (quiet op w w') as Hq.
  { unfold w', checkpoint_with_spec. apply quiet_refl_fields; [done|done|cbn; lia]. }
  cbn. change (set_clock _ _) with w'. split_and!.
  - by eapply between_quiet.
  - split; [by eapply prepared_quiet|done|done|done|exists (w_ulid w); split; [cbn; lia|done]|].
    intros stk x Hst Hx. cbn. destruct Hpr as [(_ & _ & stk0 & Hst0) _]. destruct x as [k [c s0]].
    apply (sk_slots _ _ _ _ Hst) in Hx. destruct Hq as (_ & Qs & _ & _). rewrite Qs in Hx.
    apply (stack_below op v0 w stk0 (k, (c, s0))); [done|by apply (sk_slots _ _ _ _ Hst0)|done].
  - done.
Qed.

(** Publishing the checkpoint and applying. *)
Lemma step_apply op v0 steps key ws p r s ctx data cp :
  undoes p r → registry_require reg (r_kind r) = Ok p →
  triple (λ w, between op v0 steps w ∧ checkpointed op v0 key ws r data cp w ∧ backed p r s ctx data ws (w_host w))
    (ex_modify (λ w, put_slot op key (mkSlot (Some cp) (sl_workspace (slot_of ws_empty op key w))) w) ;*
     host_call ws_empty op key (p_apply p r s ctx))
    (λ _, between op v0 steps) (undoable op v0).
Proof.
  intros Hp Hreg' w ([Hu Hf] & [[_ Hslot] C2 C3 C4 C5 C6] & (v & Hv & Hsame & Hpa)). unfold ex_bind, ex_modify.
  unfold slot_of at 1. rewrite Hslot. cbn [default option_rect sl_workspace from_option].
  set (w1 := put_slot op key (mkSlot (Some cp) ws) w).
  destruct (p_apply p r s ctx (w_host w, ws)) as [res [v2 ws2]] eqn:Ea.
  erewrite (host_call_run op key _ w1 (w_host w) ws);
    [|done|unfold w1; by rewrite slots_put, lookup_insert_eq|exact Ea].
  assert (put_slot op key (mkSlot (Some cp) ws2) (set_host v2 w1) =
          put_slot op key (mkSlot (Some cp) ws2) (set_host v2 w)) as ->.
  { unfold w1, put_slot. rewrite !slots_set_host, opdir_of_put. unfold put_opdir, set_host, set_ops. cbn.
    by rewrite !insert_insert_eq. }
  destruct Hu as (Hop & Hfit & stk & Hst). split.
  - split; [apply is_Some_put_slot|]. split; [by apply (apply_keeps _ _ _ _ p r Hp _ _ _ _ _ _ _ Hfit Ea)|].
    exists ((key, (cp, ws2)) :: stk).
    eapply stacked_push; [done|done|done|by intros x; apply C6|rewrite C3; exact Hreg'|].
    intros v3 Hv3 Hf3 Hc3. destruct (rollback_undoes _ _ _ _ p r Hp s ctx v data (w_host w) ws res v2 ws2 cp v3)
      as (v4 & ws4 & Hr & Hs4 & Hf4 & Hc4); [done..|]. exists v4, ws4. split; [exact Hr|]. split; [|done]. by rewrite <- Hsame.
  - apply steps_fresh_put_used; [exact Hf|]. rewrite slots_set_host, Hslot. by eexists.
Qed.

Lemma triple_assoc {A B C} P (m : ex V W A) (f : A → ex V W B) (g : B → ex V W C) Q E :
  triple P (ex_bind (ex_bind m f) g) Q E → triple P (ex_bind m (λ a, ex_bind (f a) g)) Q E.
Proof. intros Ht w Hw. specialize (Ht w Hw). unfold ex_bind in *. by destruct (m w) as [[a|e] w']. Qed.

Lemma between_undoable op v0 steps w : between op v0 steps w → undoable op v0 w.
Proof. by intros [? _]. Qed.

Lemma triple_between op v0 steps {A} (m : ex V W A) :
  quietly op m → triple (between op v0 steps) m (λ _, between op v0 steps) (undoable op v0).
Proof.
  intros Hm. apply (triple_quiet op); [done|by intros w w'; apply between_quiet|apply between_undoable].
Qed.

(** Running steps keeps the operation undoable, wherever it stops. *)
Lemma apply_steps_undoable op v0 p r steps :
  undoes p r → registry_require reg (r_kind r) = Ok p →
  triple (between op v0 steps) (apply_steps ws_empty p r op steps) (λ _, undoable op v0) (undoable op v0).
Proof.
  intros Hp Hr. induction steps as [|step steps IH]; cbn [apply_steps].
  { intros w [Hu _]. exact Hu. }
  eapply triple_bind; [apply triple_between, quietly_fs_io|intros []].
  eapply triple_bind; [apply step_dir|intros []].
  eapply triple_bind; [apply (triple_quiet op); [apply quietly_now| |]|intros started].
  { intros w w' [Hb Hpr] Hq. split; [by eapply between_quiet|by eapply prepared_quiet]. }
  { intros w [[Hu _] _]. exact Hu. }
  eapply triple_bind; [by apply step_pre|intros [data|e]].
  2:{ eapply (triple_conseq (between op v0 steps)); [by intros w [? _]|by intros a w; apply between_undoable|done|].
      eapply triple_bind; [apply triple_between, quietly_step_record|intros rec]. intros w Hw. exact Hw. }
  intros w (Hb & ws & Hpr & Hpa). specialize (Hpa data eq_refl). revert w Hb Hpr Hpa.
  enough (triple (λ w, between op v0 steps w ∧ prepared op v0 (fs_key (rid_of r), st_id step) ws w ∧
            backed p r (step_start started step) (mkContext op (op, fs_key (rid_of r), st_id step)) data ws (w_host w))
          _ (λ _, undoable op v0) (undoable op v0)) as Ht by (intros w Hb Hpr Hpa; apply Ht; by split_and!).
  eapply triple_bind; [apply step_checkpoint|intros cp].
  eapply triple_bind; [apply (triple_quiet op); [apply quietly_write_json| |]|intros []].
  { intros w w' (Hb & Hc & Hpa) Hq. destruct (Hq) as (Hh & _). rewrite Hh.
    split_and!; [by eapply between_quiet|by eapply checkpointed_quiet|done]. }
  { intros w [[Hu _] _]. exact Hu. }
  apply triple_assoc. eapply triple_bind; [by apply (step_apply op v0 steps)|intros applied].
  eapply triple_bind; [apply triple_between, quietly_step_record|intros rec].
  case_decide.
  - intros w [Hu _]. exact Hu.
  - eapply triple_bind; [exact IH|]. intros [records err]. intros w Hw. exact Hw.
Qed.

(** ** A resource *)

Lemma triple_undoable op v0 {A} (m : ex V W A) :
  quietly op m → triple (undoable op v0) m (λ _, undoable op v0) (undoable op v0).
Proof. intros Hm. apply (triple_quiet op); [done|by intros w w'; apply undoable_quiet|done]. Qed.

Lemma observe_diff_undoable op v0 r :
  triple (undoable op v0) (observe_diff reg r)
    (λ pd w, undoable op v0 w ∧ registry_require reg (r_kind r) = Ok pd.1) (undoable op v0).
Proof.
  unfold observe_diff. eapply triple_bind; [by apply triple_lift|intros p].
  intros w [Hu Hp]. cbn. destruct (p_observe p r (w_host w)) as [observed|e]; [|done]. cbn.
  by destruct (p_diff p r observed).
Qed.

(** The steps a plan returns own no directory. *)
Lemma call_plan_between op v0 p r d :
  undoes p r → triple (undoable op v0) (call_plan p r d) (between op v0) (undoable op v0).
Proof.
  intros Hp w Hu. unfold call_plan. destruct (p_plan p r d (w_ulid w)) as [res n'] eqn:E.
  destruct (plan_fresh _ _ _ _ p r Hp _ _ _ _ E) as [Hn Hs].
  assert (undoable op v0 (set_ulid n' w)) as Hu' by (eapply undoable_quiet; [exact Hu|by apply quiet_refl_fields]).
  destruct res as [steps|e]; [|done]. destruct (Hs steps eq_refl) as [Hnd Hids]. split; [done|]. split; [done|].
  intros s Hin. destruct (Hids s Hin) as (i & Hi & Hi' & He). split; [by exists i|]. intros k.
  destruct Hu as (_ & _ & stk & Hst). apply eq_None_not_Some. intros Hk.
  destruct (sk_steps _ _ _ _ Hst (k, st_id s) Hk) as (j & Hj & Hej). cbn in Hej.
  rewrite He in Hej. apply Hunique in Hej. lia.
Qed.

Lemma apply_one_undoable op v0 r :
  (∀ p, registry_require reg (r_kind r) = Ok p → undoes p r) →
  triple (undoable op v0) (apply_one ws_empty reg op r) (λ _, undoable op v0) (undoable op v0).
Proof.
  intros Hreg. unfold apply_one. eapply triple_bind; [apply observe_diff_undoable|intros [p diff]]. cbn [fst].
  apply triple_pure. intros Hp. pose proof (Hreg _ Hp) as Hok. case_decide.
  { eapply triple_bind; [apply triple_undoable, quietly_write_applied|intros []]. apply triple_ret. }
  eapply triple_bind; [by apply call_plan_between|intros steps].
  eapply triple_bind; [by apply apply_steps_undoable|intros [records [e|]]]; [apply triple_ret|].
  eapply triple_bind; [apply triple_undoable; by apply quietly_id|intros v].
  eapply triple_bind; [apply triple_undoable; by apply quietly_id|intros outcome].
  eapply triple_bind; [apply triple_undoable|intros []; apply triple_ret].
  destruct (vs_matched _); [apply quietly_write_applied|apply quietly_ret].
Qed.

(** ** Which operations a run may create *)

Definition touches (op : Z) {A} (m : ex V W A) : Prop :=
  ∀ w k, is_Some (w_ops (m w).2 !! k) → is_Some (w_ops w !! k) ∨ k = op.

Lemma touches_bind op {A B} (m : ex V W A) (f : A → ex V W B) :
  touches op m → (∀ a, touches op (f a)) → touches op (ex_bind m f).
Proof.
  intros Hm Hf w k. specialize (Hm w k). unfold ex_bind. destruct (m w) as [[a|e] w']; [|done].
  intros [Hk|]%Hf; [|by right]. by apply Hm.
Qed.

Lemma touches_ops op {A} (m : ex V W A) : (∀ w, w_ops (m w).2 = w_ops w) → touches op m.
Proof. intros Hm w k. rewrite Hm. by left. Qed.

Lemma touches_put op f : touches op (ex_modify (λ w, put_opdir op (f w) w)).
Proof.
  intros w k. unfold ex_modify, put_opdir, set_ops. cbn. destruct (decide (k = op)) as [->|]; [by right|].
  rewrite lookup_insert_ne by done. by left.
Qed.

Lemma touches_slot op key f : touches op (ex_modify (λ w, put_slot op key (f w) w)).
Proof. unfold put_slot. apply (touches_put op (λ w, mkOpDir _ _ _)). Qed.

Lemma touches_host op key {A} (f : V * W → CoreResult A * (V * W)) : touches op (host_call ws_empty op key f).
Proof.
  intros w k. unfold host_call. destruct (f _) as [r [v ws]]. cbn. destruct (decide (k = op)) as [->|]; [by right|].
  rewrite lookup_insert_ne by done. by left.
Qed.

Lemma touches_map op {A B} (body : A → ex V W B) xs : (∀ x, touches op (body x)) → touches op (ex_map body xs).
Proof.
  intros Hb. induction xs as [|x xs IH]; [by apply touches_ops|].
  repeat (apply touches_bind; [auto|intros ?]). by apply touches_ops.
Qed.

Lemma touches_write_json op path : touches op (write_json (V := V) (W := W) path).
Proof. repeat (apply touches_bind; [by apply touches_ops|intros ?]). by apply touches_ops. Qed.

Lemma touches_write_applied op r id : touches op (write_applied (V := V) (W := W) r id).
Proof.
  do 2 (apply touches_bind; [by apply touches_ops|intros ?]).
  apply touches_bind; [apply touches_write_json|intros ?]. by apply touches_ops.
Qed.

Lemma touches_apply_steps op p r steps : touches op (apply_steps ws_empty p r op steps).
Proof.
  induction steps as [|s steps IH]; [by apply touches_ops|]. cbn [apply_steps].
  apply touches_bind; [by apply touches_ops|intros []].
  apply touches_bind; [apply touches_slot|intros []].
  apply touches_bind; [by apply touches_ops|intros now].
  apply touches_bind; [apply touches_host|intros [data|e]].
  2:{ apply touches_bind; [by apply touches_ops|intros rec]. by apply touches_ops. }
  apply touches_bind; [by apply touches_ops|intros cp].
  apply touches_bind; [apply touches_write_json|intros []].
  apply touches_bind; [apply touches_slot|intros []].
  apply touches_bind; [apply touches_host|intros applied].
  apply touches_bind; [by apply touches_ops|intros rec].
  case_decide; [by apply touches_ops|].
  apply touches_bind; [exact IH|intros [records err]]. by apply touches_ops.
Qed.

Lemma touches_apply_one op r : touches op (apply_one ws_empty reg op r).
Proof.
  apply touches_bind.
  { unfold observe_diff. do 4 (apply touches_bind; [by apply touches_ops|intros ?]). by apply touches_ops. }
  intros [p d]. case_decide.
  { apply touches_bind; [apply touches_write_applied|intros ?]. by apply touches_ops. }
  apply touches_bind.
  { apply touches_ops. intros w. unfold call_plan. by destruct (p_plan _ _ _ _). }
  intros steps. apply touches_bind; [apply touches_apply_steps|intros [records [e|]]]; [by apply touches_ops|].
  do 2 (apply touches_bind; [by apply touches_ops|intros ?]).
  apply touches_bind; [|intros ?; by apply touches_ops].
  case_match; [apply touches_write_applied|by apply touches_ops].
Qed.

(** ** The pruning of old operations *)

Lemma gc_loop_quiet op keys : op ∉ keys → quietly op (gc_loop (V := V) (W := W) keys).
Proof.
  induction keys as [|k keys IH]; [intros _; by apply quietly_id|]. intros [Hne Hin]%not_elem_of_cons.
  apply quietly_bind; [|intros []; by apply IH]. intros w. destruct (io_at (w_io w)); cbn.
  - unfold quiet, opdir_of. cbn. rewrite lookup_delete_ne by done. by split_and!.
  - by apply quiet_refl_fields.
Qed.

(** The last directory of a sorted listing is not among those pruned. *)
Lemma last_not_taken n (l : list Z) op :
  StronglySorted (λ a b, Z.leb a b = true) l → NoDup l → (∀ k, k ∈ l → (k ≤ op)%Z) → n < length l → op ∉ take n l.
Proof.
  intros Hs Hnd Hmax Hn Hin. destruct (drop n l) as [|x rest] eqn:Hd.
  { apply (f_equal length) in Hd. rewrite length_drop in Hd. cbn in Hd. lia. }
  rewrite <- (take_drop n l), Hd in Hs, Hnd.
  assert (Z.leb op x = true) as Hle by (by apply (StronglySorted_app_1_elem_of _ _ _ op x Hs); [|left]).
  assert (x ≤ op)%Z by (apply Hmax; rewrite <- (take_drop n l), Hd; apply elem_of_app; right; left).
  assert (x = op) as -> by lia. apply NoDup_app in Hnd as (_ & Hnd & _). apply (Hnd op Hin). left.
Qed.

Lemma gc_keeps_latest op keep w :
  0 < keep → (∀ k, is_Some (w_ops w !! k) → (k ≤ op)%Z) → quiet op w (gc_quietly (V := V) (W := W) keep w).2.
Proof.
  intros Hk Hmax. unfold gc_quietly, gc_operation_dirs, ex_bind, ex_get, fs_io. cbn [snd].
  destruct (io_at (w_io w)); [|by apply quiet_refl_fields].
  set (w1 := set_io _ w). assert (quiet op w w1) as Hq by (by apply quiet_refl_fields).
  case_decide as Hlen; [exact Hq|]. etrans; [exact Hq|]. apply gc_loop_quiet.
  apply last_not_taken; unfold op_keys in *.
  - apply order_by_sorted; intros; lia.
  - rewrite order_by_perm. apply NoDup_fst_map_to_list.
  - intros k. rewrite order_by_perm. intros ([k' d] & -> & Hin)%list_elem_of_fmap.
    apply elem_of_map_to_list in Hin. apply Hmax. by eexists.
  - lia.
Qed.

(** ** The operation *)

(** What apply keeps: the operation, once its directory exists, can be undone,
    and its directory is the latest. *)
Definition apply_inv (op : Z) (v0 : V) (w : World V W) : Prop :=
  undoable op v0 w ∧ ∀ k, is_Some (w_ops w !! k) → (k ≤ op)%Z.

Lemma triple_apply_inv op v0 {A} (m : ex V W A) :
  triple (undoable op v0) m (λ _, undoable op v0) (undoable op v0) → touches op m →
  triple (apply_inv op v0) m (λ _, apply_inv op v0) (apply_inv op v0).
Proof.
  intros Hm Ht w [Hu Hmax]. specialize (Hm w Hu). specialize (Ht w).
  destruct (m w) as [[a|e] w']; (split; [done|]); intros k [Hk| ->]%Ht; auto; lia.
Qed.

Lemma triple_apply_quiet op v0 {A} (m : ex V W A) :
  quietly op m → touches op m → triple (apply_inv op v0) m (λ _, apply_inv op v0) (apply_inv op v0).
Proof. intros Hq Ht. apply triple_apply_inv; [by apply triple_undoable|done]. Qed.

Lemma quietly_put_results op f :
  (∀ w, od_slots (f w) = od_slots (opdir_of op w)) → quietly op (ex_modify (λ w : World V W, put_opdir op (f w) w)).
Proof.
  intros Hf w. unfold ex_modify. cbn. unfold quiet. rewrite opdir_of_put, Hf. split_and!; try done.
  intros _. cbn. rewrite lookup_insert_eq. by eexists.
Qed.

Lemma opened op (w : World V W) :
  fit (w_host w) → (∀ k, is_Some (w_ops w !! k) → (k < op)%Z) → apply_inv op (w_host w) (put_opdir op (opdir_of op w) w).
Proof.
  intros Hfit Hnew. assert (opdir_of op w = empty_opdir) as He.
  { unfold opdir_of. destruct (w_ops w !! op) eqn:E; [|done]. specialize (Hnew op (ex_intro _ _ E)). lia. }
  split; [split; [|split; [done|]]|].
  - cbn. rewrite lookup_insert_eq. by eexists.
  - exists []. rewrite He. split; rewrite ?opdir_of_put; try constructor.
    + reflexivity.
    + by intros ?%elem_of_nil.
    + intros Hs. cbn in Hs. by rewrite lookup_empty in Hs.
    + by intros x ?%elem_of_nil.
    + intros key. cbn. rewrite lookup_empty. by intros [].
  - intros k. cbn. destruct (decide (k = op)) as [->|]; [lia|]. rewrite lookup_insert_ne by done.
    intros Hk. apply Hnew in Hk. lia.
Qed.

(** The part of [apply] that runs once the directory is there. *)
Lemma apply_inv_run op v0 (items : list Resource) f :
  (∀ r p, r ∈ items → registry_require reg (r_kind r) = Ok p → undoes p r) →
  triple (apply_inv op v0)
    (let* items := ex_map (apply_one ws_empty reg op) items in
     let* finished := timestamp_now in
     let res := f finished items in
     write_json "operation.json" ;*
     ex_modify (λ w, put_opdir op (mkOpDir (Some (ar_operation res)) (od_result (opdir_of op w))
                                     (od_slots (opdir_of op w))) w) ;*
     write_json "apply-result.json" ;*
     ex_modify (λ w, put_opdir op (mkOpDir (od_operation (opdir_of op w)) (Some res)
                                     (od_slots (opdir_of op w))) w) ;*
     gc_quietly EXECUTOR_OPERATIONS_KEEP ;*
     ex_ret res)
    (λ res w, undoable op v0 w ∧ ∃ finished results, res = f finished results) (undoable op v0).
Proof.
  intros Hreg. eapply (triple_conseq (apply_inv op v0) _ _ _ _ (apply_inv op v0)); [done|by intros a w Hw; exact Hw|by intros w [? _]|].
  eapply triple_bind; [apply triple_apply_inv|intros results].
  { apply triple_map. intros r Hr. apply apply_one_undoable. intros p. by apply Hreg. }
  { apply touches_map. intros r. apply touches_apply_one. }
  eapply triple_bind; [apply triple_apply_quiet; [apply quietly_now|by apply touches_ops]|intros finished].
  eapply triple_bind; [apply triple_apply_quiet; [apply quietly_write_json|apply touches_write_json]|intros []].
  eapply triple_bind; [apply triple_apply_quiet; [by apply quietly_put_results|apply (touches_put op)]|intros []].
  eapply triple_bind; [apply triple_apply_quiet; [apply quietly_write_json|apply touches_write_json]|intros []].
  eapply triple_bind; [apply triple_apply_quiet; [by apply quietly_put_results|apply (touches_put op)]|intros []].
  intros w [Hu Hmax]. cbn. split; [|by eexists _, _]. eapply undoable_quiet; [exact Hu|].
  apply (gc_keeps_latest op EXECUTOR_OPERATIONS_KEEP); [unfold EXECUTOR_OPERATIONS_KEEP; lia|exact Hmax].
Qed.

(** ** Rolling back *)

Lemma fs_io_ok path (w : World V W) :
  (∀ n, w_io w ≤ n → io_at n = Ok ()) → fs_io path w = (Ok (), set_io (S (w_io w)) w).
Proof. intros Hio. unfold fs_io. by rewrite Hio. Qed.

Lemma reads_ok {A} op path (xs : list A) : ∀ w : World V W,
  (∀ n, w_io w ≤ n → io_at n = Ok ()) →
  ∃ ys w', ex_map (λ _, fs_io path) xs w = (Ok ys, w') ∧ quiet op w w'.
Proof.
  induction xs as [|x xs IH]; intros w Hio; [by exists [], w|]. cbn [ex_map].
  unfold ex_bind at 1. rewrite fs_io_ok by done.
  destruct (IH (set_io (S (w_io w)) w)) as (ys & w' & Hrun & Hq); [intros n Hn; apply Hio; cbn in Hn; lia|].
  unfold ex_bind. rewrite Hrun. exists (() :: ys), w'. split; [done|]. etrans; [|exact Hq].
  by apply quiet_refl_fields.
Qed.

Lemma read_checkpoints_ok op d (w : World V W) :
  (∀ n, w_io w ≤ n → io_at n = Ok ()) →
  ∃ w', read_checkpoints d w = (Ok (checkpoints_of d), w') ∧ quiet op w w'.
Proof.
  intros Hio. unfold read_checkpoints. case_decide as Hsz.
  - exists w. split; [|done]. unfold checkpoints_of. apply map_size_empty_inv in Hsz as ->.
    by rewrite map_to_list_empty.
  - unfold ex_bind at 1. rewrite fs_io_ok by done.
    destruct (reads_ok op "checkpoint.json" (map_to_list (od_slots d)) (set_io (S (w_io w)) w))
      as (ys & w' & Hrun & Hq); [intros n Hn; apply Hio; cbn in Hn; lia|].
    unfold ex_bind. rewrite Hrun. exists w'. split; [done|]. etrans; [|exact Hq]. by apply quiet_refl_fields.
Qed.

Lemma rollback_undoable op v0 w :
  undoable op v0 w → apart op w → calm (w_host w) → (∀ n, w_io w ≤ n → io_at n = Ok ()) →
  ∃ w', rollback ws_empty reg op w = (Ok (), w') ∧ same v0 (w_host w').
Proof.
  intros ([d Hd] & Hfit & stk & Hst) Hapart Hcalm Hio. unfold rollback. unfold ex_bind at 1, ex_get. rewrite Hd.
  assert (d = opdir_of op w) as -> by (unfold opdir_of; by rewrite Hd).
  destruct (read_checkpoints_ok op (opdir_of op w) w Hio) as (w1 & Hread & Hq).
  unfold ex_bind at 1. rewrite Hread, (checkpoints_of_stack _ _ _ _ Hst Hapart).
  destruct Hq as (Hh & Hs & _ & _).
  destruct (rollback_loop_unwinds op stk v0 w1) as (w2 & Hrun & Hv).
  - rewrite Hh. apply Hst.
  - by rewrite Hh.
  - by rewrite Hh.
  - apply Hst.
  - intros key cp ws Hin. rewrite Hs. by apply (sk_slots _ _ _ _ Hst).
  - unfold ex_bind. rewrite Hrun. by exists w2.
Qed.

(** Over providers that keep their contract, with no newer operation
    directory present: whatever apply returned, success, a failed resource or
    an error half way, and as soon as the operation's directory exists, if its
    checkpoints were made in different milliseconds, rolling it back on a calm
    host succeeds and leaves a host that counts as the one apply found. *)
Theorem rollback_undoes_apply resources w :
  let op := ulid_at (w_ulid w) in
  let '(res, w') := apply ws_empty reg actor resources w in
  (∀ r p, r ∈ resources → registry_require reg (r_kind r) = Ok p → undoes p r) →
  (∀ k, is_Some (w_ops w !! k) → (k < op)%Z) → fit (w_host w) →
  (∀ r, res = Ok r → ex_id (ar_operation r) = op ∧ is_Some (w_ops w' !! op)) ∧
  (is_Some (w_ops w' !! op) → apart op w' → calm (w_host w') → (∀ n, w_io w' ≤ n → io_at n = Ok ()) →
   ∃ w'', rollback ws_empty reg op w' = (Ok (), w'') ∧ same (w_host w) (w_host w'')).
Proof.
  intros op. destruct (apply ws_empty reg actor resources w) as [res w'] eqn:Hrun. intros Hreg Hnew Hfit.
  assert ((∀ r, res = Ok r → ex_id (ar_operation r) = op ∧ is_Some (w_ops w' !! op)) ∧ (is_Some (w_ops w' !! op) → undoable op (w_host w) w')) as [Hok Hund].
  { destruct (io_at (w_io w)) as [u|e] eqn:Hio.
    2:{ cbn in Hrun. unfold ex_bind at 1, ensure_dir, fs_io in Hrun. cbn in Hrun. rewrite Hio in Hrun.
        injection Hrun as <- <-. split; [done|]. intros Hk. apply Hnew in Hk. lia. }
    set (w2 := set_io (S (w_io w)) (set_clock (S (S (w_clock w))) (set_ulid (S (w_ulid w)) w))).
    assert (apply_inv op (w_host w) (put_opdir op (opdir_of op w2) w2)) as Hinv by (apply (opened op w2); [exact Hfit|exact Hnew]).
    unfold apply in Hrun. cbn in Hrun. unfold ex_bind at 1, ensure_dir, fs_io in Hrun. cbn in Hrun. rewrite Hio in Hrun.
    pose proof (triple_run _ _ _ _ _ _ _ (apply_inv_run op (w_host w) resources
      (λ finished items, mkApplyResult (op_finish finished (apply_status items)
         (op_start (now_at (S (w_clock w))) ExRunning (operation_new op (now_at (w_clock w)) "apply" actor))) items) Hreg)
      Hinv Hrun) as Ht.
    destruct res as [r|e]; [|by split].
    destruct Ht as [Hu (finished & results & ->)]. split; [|done].
    intros r [= <-]. split; [done|apply Hu]. }
  split; [exact Hok|].
  intros Hop Hapart Hcalm Hio. by apply rollback_undoable; [apply Hund|..].
Qed.

End Undo.

(** ** What apply reports *)

Section Reports.
Context {V W : Type} (ws_empty : W) `{ExecEnv, Sha256} (reg : ProviderRegistry V W) (actor : string).

Definition step_failed (x : StepRecord) : Prop := sr_status (srec_result x) = StFailed.

(** No step failed, or exactly the last one did and its text is the error. *)
Definition steps_report (records : list StepRecord) (err : option message) : Prop :=
  match err with
  | None => Forall (λ x, ¬ step_failed x) records
  | Some e => ∃ pre x, records = pre ++ [x] ∧ step_failed x ∧ Forall (λ x, ¬ step_failed x) pre ∧
                e = default [] (sr_error (srec_result x))
  end.

(** What an item says about its resource. *)
Definition item_report (r : Resource) (i : ApplyItem) : Prop :=
  it_resource_id i = rid_of r ∧ it_kind i = r_kind r ∧
  match it_status i with
  | INoChange => it_steps i = [] ∧ it_verify i = None ∧ it_error i = None
  | ISucceeded => steps_report (it_steps i) None ∧ it_error i = None ∧
                  it_verify i = Some (mkVerifySummary true None)
  | IFailed => steps_report (it_steps i) (it_error i) ∧
               match it_error i with
               | Some _ => it_verify i = None
               | None => ∃ changes, it_verify i = Some (mkVerifySummary false (Some changes))
               end
  | ISkipped => False
  end.

Definition converged (i : ApplyItem) : bool := item_is INoChange i || item_is ISucceeded i.

(** The spec last applied under [key] by the run. *)
Definition last_applied (key : string) (rs : list Resource) (items : list ApplyItem) : option Json :=
  last (omap (λ ri, if bool_decide (fs_key (rid_of ri.1) = key) && converged ri.2
                    then Some (r_spec ri.1) else None) (zip rs items)).

Definition applied_spec (key : string) (w : World V W) : option Json := ap_spec <$> w_applied w !! key.

(** [w'] has the applied states of [w], except that [r] was recorded. *)
Definition recorded_spec (r : Resource) (w w' : World V W) : Prop :=
  ∀ key, applied_spec key w' = if decide (fs_key (rid_of r) = key) then Some (r_spec r) else applied_spec key w.

Definition same_applied (w w' : World V W) : Prop := w_applied w' = w_applied w.

Definition frames_applied {A} (m : ex V W A) : Prop := ∀ w, same_applied w (m w).2.

Lemma frames_bind {A B} (m : ex V W A) (f : A → ex V W B) :
  frames_applied m → (∀ a, frames_applied (f a)) → frames_applied (ex_bind m f).
Proof.
  intros Hm Hf w. specialize (Hm w). unfold ex_bind. destruct (m w) as [[a|e] w']; [|done].
  unfold same_applied in *. cbn in Hm. rewrite (Hf a w'). done.
Qed.

Lemma frames_triv {A} (m : ex V W A) : (∀ w, w_applied (m w).2 = w_applied w) → frames_applied m.
Proof. done. Qed.

Lemma frames_host op key {A} (f : V * W → CoreResult A * (V * W)) : frames_applied (host_call ws_empty op key f).
Proof. intros w. unfold host_call. by destruct (f _) as [r [v ws]]. Qed.

Lemma frames_write_json path : frames_applied (write_json (V := V) (W := W) path).
Proof. repeat (apply frames_bind; [by apply frames_triv|intros ?]). by apply frames_triv. Qed.

Lemma frames_apply_steps op (p : Provider V W) r steps : frames_applied (apply_steps ws_empty p r op steps).
Proof.
  induction steps as [|s steps IH]; [by apply frames_triv|]. cbn [apply_steps].
  do 3 (apply frames_bind; [by apply frames_triv|intros ?]).
  apply frames_bind; [apply frames_host|intros [data|e]].
  2:{ apply frames_bind; [by apply frames_triv|intros rec]. by apply frames_triv. }
  apply frames_bind; [by apply frames_triv|intros cp].
  apply frames_bind; [apply frames_write_json|intros []].
  apply frames_bind; [by apply frames_triv|intros ?].
  apply frames_bind; [apply frames_host|intros applied].
  apply frames_bind; [by apply frames_triv|intros rec].
  case_decide; [by apply frames_triv|].
  apply frames_bind; [exact IH|intros [records err]]. by apply frames_triv.
Qed.

Lemma ex_bind_Ok {A B} (m : ex V W A) (f : A → ex V W B) w b w' :
  ex_bind m f w = (Ok b, w') → ∃ a w1, m w = (Ok a, w1) ∧ f a w1 = (Ok b, w').
Proof. unfold ex_bind. destruct (m w) as [[a|e] w1]; [eauto|done]. Qed.

Lemma apply_steps_report op (p : Provider V W) r steps : ∀ w records err w',
  apply_steps ws_empty p r op steps w = (Ok (records, err), w') → steps_report records err.
Proof.
  induction steps as [|s steps IH]; intros w records err w' Hrun; cbn [apply_steps] in Hrun.
  { injection Hrun as <- <- _. constructor. }
  do 2 (apply ex_bind_Ok in Hrun as (? & ? & _ & Hrun)).
  apply ex_bind_Ok in Hrun as (started & w1 & _ & Hrun).
  apply ex_bind_Ok in Hrun as (pre & w2 & _ & Hrun). destruct pre as [data|e].
  2:{ apply ex_bind_Ok in Hrun as (rec & w3 & Hrec & Hrun). injection Hrec as <- _.
      injection Hrun as <- <- _. eexists [], _. by split_and!. }
  do 3 (apply ex_bind_Ok in Hrun as (? & ? & _ & Hrun)).
  apply ex_bind_Ok in Hrun as (applied & w3 & _ & Hrun).
  set (result := match applied with Ok res => res | Err e => _ end) in *.
  apply ex_bind_Ok in Hrun as (rec & w4 & Hrec & Hrun). injection Hrec as <- _.
  case_decide as Hst.
  - injection Hrun as <- <- _. by eexists [], _.
  - apply ex_bind_Ok in Hrun as ([records' err'] & w5 & Hrest & Hrun). injection Hrun as <- <- _.
    apply IH in Hrest. destruct err' as [e|]; cbn in *; [|by constructor].
    destruct Hrest as (pre & y & -> & Hy & Hpre & ->). eexists (_ :: pre), y. split_and!; [done|done| |done].
    by constructor.
Qed.

Lemma observe_diff_frame r (w : World V W) pd w' :
  observe_diff reg r w = (Ok pd, w') → w' = w.
Proof.
  unfold observe_diff. intros Hrun. apply ex_bind_Ok in Hrun as (p & w1 & Hp & Hrun).
  apply ex_bind_Ok in Hrun as (v & w2 & Hv & Hrun). apply ex_bind_Ok in Hrun as (o & w3 & Ho & Hrun).
  apply ex_bind_Ok in Hrun as (d & w4 & Hd & Hrun). injection Hp as _ <-. injection Hv as _ <-.
  injection Ho as _ <-. injection Hd as _ <-. by injection Hrun as _ <-.
Qed.

Lemma write_applied_recorded r op (w w' : World V W) u :
  write_applied r op w = (Ok u, w') → recorded_spec r w w'.
Proof.
  unfold write_applied. intros Hrun. apply ex_bind_Ok in Hrun as ([] & w1 & Hd & Hrun).
  apply ex_bind_Ok in Hrun as (now & w2 & Hn & Hrun). apply ex_bind_Ok in Hrun as ([] & w3 & Hj & Hrun).
  injection Hrun as _ <-. injection Hn as _ <-.
  assert (same_applied w w3) as Hs.
  { pose proof (frames_write_json (fs_key (rid_of r)) (set_clock (S (w_clock w1)) w1)) as Hf.
    rewrite Hj in Hf. injection Hd as _ <-. exact Hf. }
  intros key. unfold applied_spec. cbn. unfold same_applied in Hs. rewrite Hs. case_decide as Hk.
  - by rewrite Hk, lookup_insert_eq.
  - by rewrite lookup_insert_ne.
Qed.

(** One resource: its item and the applied states. *)
Lemma apply_one_report op r (w w' : World V W) i :
  apply_one ws_empty reg op r w = (Ok i, w') →
  item_report r i ∧ (if converged i then recorded_spec r w w' else same_applied w w').
Proof.
  unfold apply_one. intros Hrun. apply ex_bind_Ok in Hrun as ([p diff] & w1 & Ho & Hrun).
  apply observe_diff_frame in Ho as ->. case_decide.
  { apply ex_bind_Ok in Hrun as (u & w2 & Hw & Hrun). injection Hrun as <- <-.
    split; [by split_and!|]. by eapply write_applied_recorded. }
  apply ex_bind_Ok in Hrun as (steps & w2 & Hp & Hrun).
  assert (same_applied w w2) as H2.
  { unfold call_plan in Hp. destruct (p_plan p r diff (w_ulid w)). by injection Hp as _ <-. }
  apply ex_bind_Ok in Hrun as ([records err] & w3 & Hs & Hrun).
  assert (same_applied w w3) as H3.
  { pose proof (frames_apply_steps op p r steps w2) as Hf. rewrite Hs in Hf.
    unfold same_applied in *. cbn in Hf. congruence. }
  apply apply_steps_report in Hs. destruct err as [e|].
  { injection Hrun as <- <-. by split. }
  apply ex_bind_Ok in Hrun as (v & w4 & Hv & Hrun). injection Hv as _ <-.
  apply ex_bind_Ok in Hrun as (outcome & w4 & Hv & Hrun). injection Hv as _ <-.
  apply ex_bind_Ok in Hrun as (u & w5 & Hw & Hrun). injection Hrun as <- <-.
  destruct outcome as [|changes]; cbn in *.
  - split; [by split_and!|]. apply write_applied_recorded in Hw. intros key. rewrite (Hw key).
    unfold applied_spec. by rewrite H3.
  - injection Hw as _ <-. split; [|done]. split; [done|split; [done|]]. split; [done|by eexists].
Qed.

(** The same, along the resources. *)
Lemma items_report op rs : ∀ (w w' : World V W) items,
  ex_map (apply_one ws_empty reg op) rs w = (Ok items, w') →
  Forall2 item_report rs items ∧
  ∀ key, applied_spec key w' = from_option Some (applied_spec key w) (last_applied key rs items).
Proof.
  induction rs as [|r rs IH]; intros w w' items Hrun; cbn [ex_map] in Hrun.
  { injection Hrun as <- <-. split; [constructor|done]. }
  apply ex_bind_Ok in Hrun as (i & w1 & Hi & Hrun). apply ex_bind_Ok in Hrun as (tl & w2 & His & Hrun).
  injection Hrun as <- <-. apply apply_one_report in Hi as [Hrep Happ]. apply IH in His as [Hreps Happs].
  split; [by constructor|]. intros key. rewrite Happs. unfold last_applied. cbn [zip omap list_omap fst snd].
  set (rest := omap _ _). destruct (converged i).
  - rewrite (Happ key). case_decide as Hk.
    + rewrite bool_decide_true by done. cbn [andb]. rewrite last_cons. by destruct (last rest).
    + rewrite bool_decide_false by done. done.
  - rewrite andb_false_r. unfold applied_spec. by rewrite Happ.
Qed.

Lemma frames_gc keep : frames_applied (gc_quietly (V := V) (W := W) keep).
Proof.
  assert (∀ keys, frames_applied (gc_loop (V := V) (W := W) keys)) as Hl.
  { induction keys as [|k keys IH]; [by apply frames_triv|]. apply frames_bind; [|intros []; exact IH].
    apply frames_triv. intros w. by destruct (io_at (w_io w)). }
  intros w. change (same_applied w (gc_operation_dirs keep w).2). revert w.
  do 2 (apply frames_bind; [by apply frames_triv|intros ?]). case_decide; [by apply frames_triv|apply Hl].
Qed.

Lemma frames_run {A} (m : ex V W A) w r w' : frames_applied m → m w = (r, w') → w_applied w' = w_applied w.
Proof. intros Hm Hrun. specialize (Hm w). by rewrite Hrun in Hm. Qed.

(** A run that returns reports truthfully: one item per resource in
    order; an item marked unchanged ran no step, one marked succeeded ran only
    steps that did not fail and was verified to match, and a failed one either
    stopped at its first failed step, the last of its records and the source
    of its error, or ran them all and did not verify; the operation is
    partially applied, failed or succeeded as its items say; and the applied
    states change exactly for the unchanged and verified resources, to their
    last spec. *)
Theorem apply_reports resources w res w' :
  apply ws_empty reg actor resources w = (Ok res, w') →
  Forall2 item_report resources (ar_items res) ∧
  ex_status (ar_operation res) =
    (if existsb (item_is IFailed) (ar_items res)
     then if existsb (item_is ISucceeded) (ar_items res) then ExPartiallyApplied else ExFailed
     else ExSucceeded) ∧
  ∀ key, applied_spec key w' =
    from_option Some (applied_spec key w) (last_applied key resources (ar_items res)).
Proof.
  unfold apply. intros Hrun. do 3 (apply ex_bind_Ok in Hrun as (? & ? & [= _ <-] & Hrun)).
  apply ex_bind_Ok in Hrun as ([] & w1 & Hd & Hrun). injection Hd as _ <-.
  apply ex_bind_Ok in Hrun as ([] & w2 & [= <-] & Hrun).
  apply ex_bind_Ok in Hrun as (items & w3 & Hi & Hrun). apply items_report in Hi as [Hrep Happ].
  apply ex_bind_Ok in Hrun as (fin & w4 & [= _ <-] & Hrun).
  apply ex_bind_Ok in Hrun as ([] & w5 & Hj1 & Hrun). apply ex_bind_Ok in Hrun as ([] & w6 & [= <-] & Hrun).
  apply ex_bind_Ok in Hrun as ([] & w7 & Hj2 & Hrun). apply ex_bind_Ok in Hrun as ([] & w8 & [= <-] & Hrun).
  apply ex_bind_Ok in Hrun as ([] & w9 & Hg & Hrun). injection Hrun as <- <-.
  cbn [ar_items ar_operation op_finish ex_status]. split_and!; [done|done|].
  intros key. apply frames_run in Hj1, Hj2, Hg; [|apply frames_gc|apply frames_write_json..].
  specialize (Happ key). unfold applied_spec in *. rewrite Hg. cbn. rewrite Hj2. cbn. rewrite Hj1. exact Happ.
Qed.

End Reports.

(** ** Concrete runs

    A host that is one text, changed in two steps: to ["partial"], then to the
    resource's spec. *)

Definition text_spec (j : Json) : string := default "" (as_str j).

Definition text_provider `{ExecEnv} : Provider string () := {|
  p_observe _ v := Ok (mkObserved true (JString v) [] "t");
  p_diff r o := Ok (if decide (text_spec (r_spec r) = text_spec (obs_spec o)) then no_change
                    else mkDiff Update [mkChange "value" (Some (obs_spec o)) (Some (r_spec r)) false] [] true);
  p_plan r d n := (Ok [step_new (ulid_at n) "text.set" "first half" (JString "partial");
                       step_new (ulid_at (S n)) "text.set" "second half" (r_spec r)], S (S n));
  p_pre_apply r s ctx vw := (Ok (JString vw.1), vw);
  p_apply r s ctx vw := (Ok (step_result_ok [Txt "set"]), (text_spec (st_payload s), vw.2));
  p_verify r v := Ok (if decide (v = text_spec (r_spec r)) then VMatch else VMismatch []);
  p_rollback r cp vw := (Ok (), (text_spec (cp_data cp), vw.2));
  p_capability_keys r := Ok [md_name (r_metadata r)]
|}.

Definition text_resource (name value : string) : Resource :=
  mkResource API_VERSION "text" (mkMetadata name "prod" None [] []) (JString value) JNull.

Definition text_registry `{ExecEnv} : ProviderRegistry string () := [("text", text_provider)].

Definition fresh_world : World string () := mkWorld "before" ∅ ∅ 0 0 0.

(** ULIDs in the order they are drawn. *)
Definition steady_env : ExecEnv :=
  {| ulid_text z := "ulid"; ulid_at n := Z.of_nat n; now_at _ := "t"; io_at _ := Ok () |}.

(** Two ULIDs of one millisecond in the other order: those of the two
    checkpoints, the fourth and fifth drawn. *)
Definition same_millisecond_env : ExecEnv :=
  {| ulid_text z := "ulid"; ulid_at n := match n with 3 => 4%Z | 4 => 3%Z | _ => Z.of_nat n end;
     now_at _ := "t"; io_at _ := Ok () |}.

#[local] Instance short_digest : Sha256 := λ _, "0123456789abcdef".

Definition text_apply (env : ExecEnv) (rs : list Resource) (w : World string ()) :=
  apply (H := env) () (text_registry (H := env)) "alice" rs w.
Definition text_rollback (env : ExecEnv) (op : Z) (w : World string ()) :=
  rollback (H := env) () (text_registry (H := env)) op w.

(** ULIDs drawn in one millisecond come in no particular order, and
    rollback orders the checkpoints by them: with all ULIDs distinct but the
    two checkpoints of a two-step resource drawn in the other order, apply
    succeeds, rollback reports success, and the host is left half way, in the
    state between the two steps. *)
Theorem rollback_order_needs_monotonic_ulids :
  ∃ env : ExecEnv, (∀ i j, ulid_at i = ulid_at j → i = j) ∧
    let '(res, w1) := text_apply env [text_resource "a" "x"] fresh_world in
    w_host fresh_world = "before" ∧ is_ok res = true ∧ w_host w1 = "x" ∧
    let '(rb, w2) := text_rollback env 0 w1 in rb = Ok () ∧ w_host w2 = "partial".
Proof.
  exists same_millisecond_env. split; [|vm_compute; by split_and!].
  intros i j. cbn. do 5 (destruct i as [|i]; [do 5 (destruct j as [|j]; [done || lia|]); lia|]).
  do 5 (destruct j as [|j]; [lia|]). lia.
Qed.

(** An error of one resource ends the run: the resources after it are not
    tried, and the operation's record is never written. *)
Example apply_aborts_on_error :
  let '(res, w1) := text_apply steady_env
      [text_resource "a" "x"; mkResource API_VERSION "unknown" (mkMetadata "b" "prod" None [] []) JNull JNull;
       text_resource "c" "y"] fresh_world in
  res = Err (EUnknownKind "unknown") ∧ w_host w1 = "x" ∧
  (od_operation <$> w_ops w1 !! 0%Z) = Some None.
Proof. vm_compute. by split_and!. Qed.

Definition twice_a : list Resource := [text_resource "a" "x"; text_resource "a" "y"].

Lemma twice_a_runs : is_ok (apply (H := steady_env) () (text_registry (H := steady_env)) "alice" twice_a fresh_world).1 = true.
Proof. vm_compute. reflexivity. Qed.

Lemma apply_reports_witness :
  ∃ res w', apply (H := steady_env) () (text_registry (H := steady_env)) "alice" twice_a fresh_world = (Ok res, w') ∧
    Forall2 item_report twice_a (ar_items res) ∧
    ex_status (ar_operation res) =
      (if existsb (item_is IFailed) (ar_items res)
       then if existsb (item_is ISucceeded) (ar_items res) then ExPartiallyApplied else ExFailed
       else ExSucceeded) ∧
    ∀ key, applied_spec key w' =
      from_option Some (applied_spec key fresh_world) (last_applied key twice_a (ar_items res)).
Proof.
  pose proof twice_a_runs as Hok.
  destruct (apply (H := steady_env) () (text_registry (H := steady_env)) "alice" twice_a fresh_world) as [[res|e] w'] eqn:Hrun; [|discriminate Hok].
  exists res, w'. split; [reflexivity|].
  exact (apply_reports (H := steady_env) () (text_registry (H := steady_env)) "alice" twice_a fresh_world res w' Hrun).
Defined.
