(* ===== verification/Capabilities.v ===== *)
(** * What an agent takes in: manifests and the allowlist (crates/iac-core/src/manifest.rs, crates/iac-agent/src/capabilities.rs, agent.rs)

    Reading resources from YAML files and directories; the rules file, its
    compilation, the check of a resource against it, and the watcher that
    reloads it. The file system, globset and the YAML reader are parameters. *)


From S2P Require Import Prelude Text Json ApiError Routing Ids Diff Executor.

#[local] Open Scope string_scope.
#[local] Open Scope list_scope.
#[local] Open Scope nat_scope.

(** ** Manifests (crates/iac-core/src/manifest.rs) *)

(** An entry of a directory walk; [we_content] is what reading it answers. *)
Record WalkEntry := mkWalk { we_path : string; we_is_file : bool; we_content : result string string }.

(** serde's readers: the documents of a stream (a document that does not
    parse is an error), and a resource from a document. *)
Class Yaml := {
  from_utf8 : string → result string string;
  yaml_documents : string → list (result string Json);
  resource_of_yaml : Json → result string Resource
}.

(** [path.extension()]. *)
Definition extension (path : string) : option string :=
  let name := match rsplit_once (Ascii.ascii_of_N 47) path with Some (_, n) => n | None => path end in
  if decide (name = "..") then None
  else match rsplit_once (Ascii.ascii_of_N 46) name with
       | Some (stem, ext) => if decide (stem = "") then None else Some ext
       | None => None
       end.

Definition is_yaml (path : string) : bool :=
  match extension path with Some ext => bool_decide (ext = "yaml" ∨ ext = "yml") | None => false end.

Section Load.
Context `{Yaml}.

(** The [source] location of a resource is left out. *)
Fixpoint parse_loop (path : string) (docs : list (result string Json)) : CoreResult (list Resource) :=
  match docs with
  | [] => Ok []
  | doc :: docs =>
      value ← map_err (EYaml path) doc;
      match value with
      | JNull => parse_loop path docs
      | _ =>
          resource ← map_err (EYaml path) (resource_of_yaml value);
          _ ← validate_shape resource;
          rest ← parse_loop path docs;
          Ok (resource :: rest)
      end
  end.
Definition parse_documents (path text : string) : CoreResult (list Resource) := parse_loop path (yaml_documents text).

Definition load_file (path : string) (content : result string string) : CoreResult (list Resource) :=
  bytes ← map_err (EIo path) content;
  text ← map_err (λ e, EManifest path [Txt "not valid utf-8: "; Ext e]) (from_utf8 bytes);
  parse_documents path text.

(** The loop over the walk: the resources read and the errors met, with the
    path of the file. *)
Fixpoint load_entries (entries : list (result string WalkEntry)) : list Resource * list (string * result CoreError string) :=
  match entries with
  | [] => ([], [])
  | Err e :: entries => let '(out, errors) := load_entries entries in (out, ("walk error", Ok e) :: errors)
  | Ok entry :: entries =>
      let '(out, errors) := load_entries entries in
      if we_is_file entry && is_yaml (we_path entry) then
        match load_file (we_path entry) (we_content entry) with
        | Ok rs => (rs ++ out, errors)
        | Err e => (out, (we_path entry, Err e) :: errors)
        end
      else (out, errors)
  end.

Definition load_directory (error_text : CoreError → string) (root : string) (entries : list (result string WalkEntry))
    : CoreResult (list Resource) :=
  let '(out, errors) := load_entries entries in
  match errors with
  | [] => Ok out
  | _ =>
      let line x := match x with (p, Ok e) => p +:+ ": " +:+ e | (p, Err e) => p +:+ ": " +:+ error_text e end in
      let separator := String (Ascii.ascii_of_N 10) "  - " in
      Err (EManifest root [Dec (Z.of_nat (length errors)); Txt " file(s) failed to load:"; Txt separator;
                           Txt (str_join separator (map line errors))])
  end.

(** ** Properties *)

Lemma parse_loop_shaped path docs rs :
  parse_loop path docs = Ok rs → Forall (λ r, validate_shape r = Ok ()) rs.
Proof.
  revert rs. induction docs as [|doc docs IH]; intros rs Hp; cbn in Hp; [inv_result; constructor|].
  destruct doc as [v|]; [|done]. cbn in Hp.
  assert (∀ w, (resource ← map_err (EYaml path) (resource_of_yaml w); _ ← validate_shape resource;
                rest ← parse_loop path docs; Ok (resource :: rest)) = Ok rs → Forall (λ r, validate_shape r = Ok ()) rs) as Hg.
  { intros w Hw. inv_result. constructor; [|by apply IH]. match goal with x : () |- _ => by destruct x end. }
  destruct v; [by apply IH|by eapply Hg..].
Qed.

(** A directory either loads whole, and every resource of it is well shaped,
    or not at all: one bad file is an error of the directory. *)
Lemma load_directory_whole error_text root entries rs :
  load_directory error_text root entries = Ok rs →
  Forall (λ r, validate_shape r = Ok ()) rs ∧
  ∀ e, e ∈ entries → ∃ entry, e = Ok entry ∧
    (we_is_file entry && is_yaml (we_path entry) = true → ∃ rs', load_file (we_path entry) (we_content entry) = Ok rs').
Proof.
  unfold load_directory. destruct (load_entries entries) as [out errors] eqn:Hl. destruct errors; [|done].
  intros [= <-]. revert out Hl. induction entries as [|e entries IH]; intros out Hl; cbn in Hl.
  - injection Hl as <-. split; [constructor|]. by intros e He%elem_of_nil.
  - destruct e as [entry|e]; [|by destruct (load_entries entries)].
    destruct (load_entries entries) as [out' errors'] eqn:Hl'.
    destruct (we_is_file entry && is_yaml (we_path entry)) eqn:Hf.
    + destruct (load_file (we_path entry) (we_content entry)) as [rs|] eqn:Hfile; [|done]. injection Hl as <- ->.
      destruct (IH out' eq_refl) as [Hs Hall]. split.
      * apply Forall_app. split; [|done]. unfold load_file, parse_documents in Hfile. inv_result. by eapply parse_loop_shaped.
      * intros e [->|He]%elem_of_cons; [|by apply Hall]. exists entry. split; [done|]. eauto.
    + injection Hl as <- ->. destruct (IH out' eq_refl) as [Hs Hall]. split; [done|].
      intros e [->|He]%elem_of_cons; [|by apply Hall]. exists entry. split; [done|]. by rewrite Hf.
Qed.

End Load.

(** ** The allowlist (crates/iac-agent/src/capabilities.rs) *)

(** [globset]: the parser of a pattern, the builder of a set, and the match of
    one pattern; a set matches what one of its patterns matches. *)
Class Globset := {
  glob_new : string → result string ();
  globset_build : list string → result string ();
  glob_match : string → string → bool
}.

Inductive DefaultKindPolicy := DefaultAllow | DefaultDeny.

#[export] Instance DefaultKindPolicy_eq_dec : EqDecision DefaultKindPolicy.
Proof. solve_decision. Defined.

(** A compiled set is kept as its patterns. *)
Record PathRules := mkPathRules { pr_allow : option (list string); pr_deny : option (list string) }.
Record NameRules := mkNameRules { nr_allow : option (list string) }.

Record Capabilities := mkCapabilities {
  cap_default : DefaultKindPolicy;
  cap_files : PathRules;
  cap_nginx_vhost : PathRules;
  cap_systemd : NameRules;
  cap_docker : NameRules;
  cap_packages : NameRules;
  cap_cron : NameRules
}.

Record DenyReason := mkDeny {
  dn_resource_id : string;
  dn_kind : string;
  dn_identifier : string;
  dn_reason : message
}.

(** [Display]. *)
Definition deny_text (d : DenyReason) : message :=
  [Txt "capability_denied["; Txt (dn_kind d); Txt "]: "; Txt (dn_resource_id d); Txt " ("; Txt (dn_identifier d); Txt ": "]
    ++ dn_reason d ++ [Txt ")"].

(** ** The rules file *)

Record RawPathRules := mkRawPath { rp_allow : list string; rp_deny : list string }.
Record RawNameRules := mkRawName { rn_allow : list string }.

Record RawCapabilities := mkRawCapabilities {
  raw_default : DefaultKindPolicy;
  raw_files : RawPathRules;
  raw_nginx_vhost : RawPathRules;
  raw_systemd : RawNameRules;
  raw_docker : RawNameRules;
  raw_packages : RawNameRules;
  raw_cron : RawNameRules
}.

(** A file that declares nothing. *)
Definition raw_default_capabilities : RawCapabilities :=
  mkRawCapabilities DefaultDeny (mkRawPath [] []) (mkRawPath [] []) (mkRawName []) (mkRawName []) (mkRawName []) (mkRawName []).

Section Compile.
Context `{Globset}.

Definition is_match (set : list string) (key : string) : bool := existsb (λ g, glob_match g key) set.

Definition build_set (patterns : list string) (section : string) : result Anyhow (option (list string)) :=
  match patterns with
  | [] => Ok None
  | _ =>
      _ ← try_map (λ p, map_err (λ e, [[Txt "invalid glob in "; Txt section; Txt ": "; Dbg p]; [Ext e]]) (glob_new p)) patterns;
      _ ← map_err (λ e, [[Txt "building globset for "; Txt section]; [Ext e]]) (globset_build patterns);
      Ok (Some patterns)
  end.

Definition compile_path (section : string) (r : RawPathRules) : result Anyhow PathRules :=
  allow ← build_set (rp_allow r) (section +:+ ".allow");
  deny ← build_set (rp_deny r) (section +:+ ".deny");
  Ok (mkPathRules allow deny).

Definition compile_name (section : string) (r : RawNameRules) : result Anyhow NameRules :=
  allow ← build_set (rn_allow r) (section +:+ ".allow");
  Ok (mkNameRules allow).

Definition compile (raw : RawCapabilities) : result Anyhow Capabilities :=
  files ← compile_path "files" (raw_files raw);
  nginx_vhost ← compile_path "nginx_vhost" (raw_nginx_vhost raw);
  systemd ← compile_name "systemd" (raw_systemd raw);
  docker ← compile_name "docker" (raw_docker raw);
  packages ← compile_name "packages" (raw_packages raw);
  cron ← compile_name "cron" (raw_cron raw);
  Ok (mkCapabilities (raw_default raw) files nginx_vhost systemd docker packages cron).

(** [file]: the file's text, when the file exists, or the error of reading it. *)
Context (path : string) (parse_yaml : string → result string RawCapabilities).

Definition load (file : option (result string string)) : result Anyhow (option Capabilities) :=
  match file with
  | None => Ok None
  | Some contents =>
      text ← map_err (λ e, [[Txt "reading capabilities file "; Txt path]; [Ext e]]) contents;
      raw ← map_err (λ e, [[Txt "parsing capabilities file "; Txt path]; [Ext e]]) (parse_yaml text);
      caps ← compile raw;
      Ok (Some caps)
  end.

(** ** The watcher

    One tick: the file's modification time, then the file, if it changed. *)

Record Watch := mkWatch { wt_caps : option Capabilities; wt_seen : option Z }.

Definition watch_tick (mtime : option Z) (file : option (result string string)) (w : Watch) : Watch :=
  if decide (mtime = wt_seen w) then w
  else
    match load file with
    | Ok (Some caps) => mkWatch (Some caps) mtime
    | Ok None | Err _ => mkWatch (wt_caps w) mtime
    end.

End Compile.

(** ** The check *)

Section Check.
Context `{Globset}.

Definition path_check (r : PathRules) (resource_id kind path : string) : result DenyReason () :=
  if from_option (λ deny, is_match deny path) false (pr_deny r) then
    Err (mkDeny resource_id kind path [Txt "matched deny pattern"])
  else
  match pr_allow r with
  | Some allow =>
      if is_match allow path then Ok () else Err (mkDeny resource_id kind path [Txt "no allow pattern matched"])
  | None => Ok ()
  end.

Definition name_check (r : NameRules) (resource_id kind name : string) : result DenyReason () :=
  match nr_allow r with
  | Some allow =>
      if is_match allow name then Ok () else Err (mkDeny resource_id kind name [Txt "no allow pattern matched"])
  | None => Ok ()
  end.

(** The [match] on the kind, for one key. *)
Definition check_key (c : Capabilities) (id kind key : string) : result DenyReason () :=
  if decide (kind = "file") then path_check (cap_files c) id "file" key
  else if decide (kind = "nginx.vhost") then path_check (cap_nginx_vhost c) id "nginx.vhost" key
  else if decide (kind = "systemd.unit") then name_check (cap_systemd c) id "systemd.unit" key
  else if decide (kind = "docker.container") then name_check (cap_docker c) id "docker.container" key
  else if decide (kind = "package") then name_check (cap_packages c) id "package" key
  else if decide (kind = "cron.job") then name_check (cap_cron c) id "cron.job" key
  else
  match cap_default c with
  | DefaultAllow => Ok ()
  | DefaultDeny => Err (mkDeny id kind key [Txt "default_kind_policy=deny and no rules block declared for this kind"])
  end.

Context {V W : Type} (registry : ProviderRegistry V W).

Definition check (c : Capabilities) (r : Resource) : result DenyReason () :=
  let id := rid_display (rid_of r) in
  match assoc_get (r_kind r) registry with
  | None =>
      match cap_default c with
      | DefaultAllow => Ok ()
      | DefaultDeny =>
          Err (mkDeny id (r_kind r) "<unknown-kind>" [Txt "default_kind_policy=deny and no provider registered for this kind"])
      end
  | Some provider =>
      keys ← map_err (λ e, mkDeny id (r_kind r) "<spec-error>" (Txt "could not extract capability key: " :: core_error_text e))
        (p_capability_keys provider r);
      match keys with
      | [] => Ok ()
      | _ => _ ← try_map (check_key c id (r_kind r)) keys; Ok ()
      end
  end.

(** [Agent::enforce_capabilities]: the resources allowed, and those denied with the reason. *)
Definition enforce_capabilities (caps : option Capabilities) (resources : list Resource) : list Resource * list (Resource * DenyReason) :=
  match caps with
  | None => (resources, [])
  | Some c =>
      (List.filter (λ r, is_ok (check c r)) resources,
       omap (λ r, match check c r with Err reason => Some (r, reason) | Ok _ => None end) resources)
  end.

End Check.
