(* ===== verification/AgentStore.v ===== *)
(** * The agent's store (crates/iac-agent/src/store.rs)

    The agent's SQLite database: observation history, drift events, runs, and
    the assignments already processed. Every statement may fail; a timestamp
    is stored as its text. *)

From S2P Require Import Prelude Text Json ApiError Routing Db Ids Clock Diff Executor.

#[local] Open Scope string_scope.
#[local] Open Scope list_scope.
#[local] Open Scope nat_scope.

(** ** Tables *)

Record DriftRow := mkDriftRow {
  dw_id : Z;
  dw_resource_id : string;
  dw_kind : string;
  dw_severity : string;
  dw_diff : string;
  dw_detected_at : string;
  dw_resolved_at : option string;
  dw_resolution : option string
}.

Record AgentRunRow := mkRunRow {
  rr_id : Z;
  rr_started_at : string;
  rr_finished_at : option string;
  rr_resources_observed : Z;
  rr_drift_detected : Z;
  rr_error : option string
}.

Record ObservationRow := mkObsRow {
  ow_id : Z;
  ow_resource_id : string;
  ow_kind : string;
  ow_observed_at : string;
  ow_present : Z;
  ow_spec : string;
  ow_facts : string
}.

Record ProcessedRow := mkProcessed { pw_assignment_id : string; pw_processed_at : string; pw_status : string }.

(** The tables in rowid order; [tb_next_*] are the AUTOINCREMENT counters. *)
Record Tables := mkTables {
  tb_versions : list (Z * string);
  tb_observations : list ObservationRow;
  tb_next_observation : Z;
  tb_drifts : list DriftRow;
  tb_next_drift : Z;
  tb_runs : list AgentRunRow;
  tb_next_run : Z;
  tb_processed : list ProcessedRow
}.

Definition new_tables : Tables := mkTables [] [] 1 [] 1 [] 1 [].

Definition set_versions v (t : Tables) : Tables := mkTables v (tb_observations t) (tb_next_observation t)
  (tb_drifts t) (tb_next_drift t) (tb_runs t) (tb_next_run t) (tb_processed t).
Definition set_obs_rows o n (t : Tables) : Tables := mkTables (tb_versions t) o n
  (tb_drifts t) (tb_next_drift t) (tb_runs t) (tb_next_run t) (tb_processed t).
Definition set_drift_rows x n (t : Tables) : Tables := mkTables (tb_versions t) (tb_observations t)
  (tb_next_observation t) x n (tb_runs t) (tb_next_run t) (tb_processed t).
Definition set_runs x n (t : Tables) : Tables := mkTables (tb_versions t) (tb_observations t)
  (tb_next_observation t) (tb_drifts t) (tb_next_drift t) x n (tb_processed t).
Definition set_processed x (t : Tables) : Tables := mkTables (tb_versions t) (tb_observations t)
  (tb_next_observation t) (tb_drifts t) (tb_next_drift t) (tb_runs t) (tb_next_run t) x.

(** ** Statements

    What SQLite answers to each statement and what each reading of the clock
    returns, by position; a statement that fails changes nothing. *)

Class StoreEnv := {
  sql_at : nat → result string ();
  clock_at : nat → Z;
  observed_spec_text : Json → result string string;
  observed_facts_text : list (string * Json) → result string string
}.

Record Store := mkStore { so_tables : Tables; so_sql : nat; so_clock : nat }.

Definition st (A : Type) : Type := Store → result Anyhow A * Store.

Definition st_ret {A} (a : A) : st A := λ s, (Ok a, s).
Definition st_throw {A} (e : Anyhow) : st A := λ s, (Err e, s).
Definition st_bind {A B} (m : st A) (f : A → st B) : st B := λ s,
  match m s with
  | (Ok a, s') => f a s'
  | (Err e, s') => (Err e, s')
  end.
Definition st_lift {A} (r : result string A) : st A := λ s, (map_err (λ e, [[Ext e]]) r, s).

Declare Scope st_scope.
Delimit Scope st_scope with st.
Notation "'let*' x ':=' m 'in' k" := (st_bind m (λ x, k))
  (at level 200, x name, m at level 100, k at level 200, right associativity) : st_scope.
Notation "m ';*' k" := (st_bind m (λ _ : (), k)) (at level 100, k at level 200, right associativity) : st_scope.
#[local] Open Scope st_scope.

Section Store.
Context `{StoreEnv, Jiff, JiffHours, JsonCodec, DiffCodec}.

(** A query, and a statement that changes the tables. *)
Definition sql_query {A} (f : Tables → A) : st A := λ s,
  (match sql_at (so_sql s) with Ok _ => Ok (f (so_tables s)) | Err e => Err [[Ext e]] end,
   mkStore (so_tables s) (S (so_sql s)) (so_clock s)).

Definition sql_exec {A} (f : Tables → A * Tables) : st A := λ s,
  match sql_at (so_sql s) with
  | Ok _ => let '(a, t) := f (so_tables s) in (Ok a, mkStore t (S (so_sql s)) (so_clock s))
  | Err e => (Err [[Ext e]], mkStore (so_tables s) (S (so_sql s)) (so_clock s))
  end.

Definition now : st Z := λ s, (Ok (clock_at (so_clock s)), mkStore (so_tables s) (so_sql s) (S (so_clock s))).

(** A transaction: an error leaves the tables as they were. *)
Definition transaction {A} (m : st A) : st A := λ s,
  match m s with
  | (Ok a, s') => (Ok a, s')
  | (Err e, s') => (Err e, mkStore (so_tables s) (so_sql s') (so_clock s'))
  end.

(** [m.unwrap_or(a)] *)
Definition or_else {A} (a : A) (m : st A) : st A := λ s,
  match m s with (Ok a', s') => (Ok a', s') | (Err _, s') => (Ok a, s') end.

(** ** Opening *)

Definition SCHEMA_VERSION : Z := 2.

Definition max_version (t : Tables) : Z := foldr Z.max 0%Z (map fst (tb_versions t)).

(** [CREATE TABLE IF NOT EXISTS] leaves the tables that are there; one that is
    not has no rows. *)
Definition migrate : st () :=
  transaction (
    sql_exec (λ t, ((), t)) ;*
    let* max := or_else 0%Z (sql_query max_version) in
    if (SCHEMA_VERSION <? max)%Z then
      st_throw [[Txt "agent store schema is v"; Dec max; Txt " but this binary only supports v"; Dec SCHEMA_VERSION;
                 Txt "; refusing to run against a newer store (downgrade). Run the matching or newer agent build."]]
    else
    let* exists_ := or_else false (sql_query (λ t, existsb (λ v, (v.1 =? SCHEMA_VERSION)%Z) (tb_versions t))) in
    (if exists_ then st_ret ()
     else let* at_ := now in
          sql_exec (λ t, ((), set_versions (tb_versions t ++ [(SCHEMA_VERSION, ts_print at_)]) t))) ;*
    sql_exec (λ t, ((), t))).

(** ** Processed assignments *)

Definition assignment_already_processed (assignment_id : string) : st (option string) :=
  sql_query (λ t, pw_status <$> List.find (λ r, seqb (pw_assignment_id r) assignment_id) (tb_processed t)).

Definition insert_or_ignore (r : ProcessedRow) (rows : list ProcessedRow) : list ProcessedRow :=
  if existsb (λ x, seqb (pw_assignment_id x) (pw_assignment_id r)) rows then rows else rows ++ [r].

Definition mark_assignment_processed (assignment_id status : string) : st () :=
  let* at_ := now in
  sql_exec (λ t, ((), set_processed (insert_or_ignore (mkProcessed assignment_id (ts_print at_) status) (tb_processed t)) t)).

(** The day count is multiplied as an [i64]; the caller passes 7. *)
Definition vacuum_replay (retain_days : Z) : st Z :=
  let* at_ := now in
  let cutoff_at := ts_sub at_ (retain_days * 86400)%Z in
  let* cutoff := (match cutoff_at with Ok c => st_ret c | Err _ => now end) in
  let old r := str_lt (pw_processed_at r) (ts_print cutoff) in
  sql_exec (λ t, (Z.of_nat (count_if old (tb_processed t)), set_processed (delete_where old (tb_processed t)) t)).

(** ** Observations *)

Definition AGENT_OBSERVATION_HISTORY_CAP : nat := 10.

(** [ORDER BY observed_at DESC, id DESC]. *)
Definition obs_newer (a b : ObservationRow) : bool :=
  str_lt (ow_observed_at b) (ow_observed_at a) ||
  (seqb (ow_observed_at a) (ow_observed_at b) && (ow_id b <=? ow_id a)%Z).

Definition beyond_cap (rid : string) (rows : list ObservationRow) : list Z :=
  map ow_id (drop AGENT_OBSERVATION_HISTORY_CAP (order_by obs_newer (select_where (λ r, seqb (ow_resource_id r) rid) rows))).

Definition record_observation (id : ResourceId) (observed : ObservedState) : st () :=
  let* spec_json := st_lift (observed_spec_text (obs_spec observed)) in
  let* facts_json := st_lift (observed_facts_text (obs_facts observed)) in
  let rid := rid_display id in
  sql_exec (λ t, ((), set_obs_rows
    (tb_observations t ++ [mkObsRow (tb_next_observation t) rid (rid_kind id) (obs_observed_at observed)
                             (if obs_present observed then 1 else 0)%Z spec_json facts_json])
    (tb_next_observation t + 1)%Z t)) ;*
  sql_exec (λ t, ((), set_obs_rows
    (delete_where (λ r, bool_decide (ow_id r ∈ beyond_cap rid (tb_observations t))) (tb_observations t))
    (tb_next_observation t) t)).

(** A row as the code reads it back. *)
Record Observation := mkObservationOf {
  or_resource_id : string; or_kind : string; or_observed_at : string; or_present : bool; or_spec : Json; or_facts : Json }.

Definition row_to_observation (r : ObservationRow) : result string Observation :=
  spec ← json_from_str (ow_spec r);
  facts ← json_from_str (ow_facts r);
  Ok (mkObservationOf (ow_resource_id r) (ow_kind r) (ow_observed_at r) (negb (ow_present r =? 0)%Z) spec facts).

(** [ORDER BY observed_at DESC]; rows of one instant come in rowid order. *)
Definition last_observation (rid : string) : st (option Observation) :=
  let* row := sql_query (λ t, head (order_by (λ a b, negb (str_lt (ow_observed_at a) (ow_observed_at b)))
                                      (select_where (λ r, seqb (ow_resource_id r) rid) (tb_observations t)))) in
  match row with
  | None => st_ret None
  | Some r => let* o := st_lift (row_to_observation r) in st_ret (Some o)
  end.

(** ** Drift *)

Definition is_open (r : DriftRow) : bool := bool_decide (dw_resolved_at r = None).
Definition open_for (rid : string) (r : DriftRow) : bool := seqb (dw_resource_id r) rid && is_open r.

Definition detected_later (a b : DriftRow) : bool := negb (str_lt (dw_detected_at a) (dw_detected_at b)).

Definition refresh_drift (diff severity at_ : string) (r : DriftRow) : DriftRow :=
  mkDriftRow (dw_id r) (dw_resource_id r) (dw_kind r) severity diff at_ (dw_resolved_at r) (dw_resolution r).
Definition resolve_row (at_ resolution : string) (r : DriftRow) : DriftRow :=
  mkDriftRow (dw_id r) (dw_resource_id r) (dw_kind r) (dw_severity r) (dw_diff r) (dw_detected_at r) (Some at_) (Some resolution).

Definition open_drift (id : ResourceId) (severity : string) (diff : Diff) : st Z :=
  let rid := rid_display id in
  let* existing := sql_query (λ t, dw_id <$> head (order_by detected_later (select_where (open_for rid) (tb_drifts t)))) in
  let diff_json := diff_to_string diff in
  match existing with
  | Some i =>
      let* at_ := now in
      sql_exec (λ t, ((), set_drift_rows
        (update_where (λ r, (dw_id r =? i)%Z) (refresh_drift diff_json severity (ts_print at_)) (tb_drifts t)) (tb_next_drift t) t)) ;*
      st_ret i
  | None =>
      let* at_ := now in
      sql_exec (λ t, (tb_next_drift t, set_drift_rows
        (tb_drifts t ++ [mkDriftRow (tb_next_drift t) rid (rid_kind id) severity diff_json (ts_print at_) None None])
        (tb_next_drift t + 1)%Z t))
  end.

Definition resolve_where (p : DriftRow → bool) (resolution : string) : st Z :=
  let* at_ := now in
  sql_exec (λ t, (Z.of_nat (count_if p (tb_drifts t)),
                  set_drift_rows (update_where p (resolve_row (ts_print at_) resolution) (tb_drifts t)) (tb_next_drift t) t)).

Definition resolve_drift (i : Z) (resolution : string) : st Z :=
  resolve_where (λ r, (dw_id r =? i)%Z && is_open r) resolution.

Definition close_open_drift_for (id : ResourceId) (resolution : string) : st Z :=
  resolve_where (open_for (rid_display id)) resolution.

(** A drift event as the code reads it back. *)
Definition row_to_drift (r : DriftRow) : result string (DriftRow * Diff) :=
  diff ← diff_from_str (dw_diff r); Ok (r, diff).

Definition list_open_drifts : st (list (DriftRow * Diff)) :=
  let* rows := sql_query (λ t, order_by detected_later (select_where is_open (tb_drifts t))) in
  st_lift (try_map row_to_drift rows).

Definition open_drift_count : st Z := sql_query (λ t, Z.of_nat (count_if is_open (tb_drifts t))).

(** ** Runs *)

Definition record_run (started_at : Z) (finished_at : option Z) (observed drift : Z) (error : option string) : st Z :=
  sql_exec (λ t, (tb_next_run t, set_runs
    (tb_runs t ++ [mkRunRow (tb_next_run t) (ts_print started_at) (ts_print <$> finished_at) observed drift error])
    (tb_next_run t + 1)%Z t)).

Definition recent_runs (limit : nat) : st (list AgentRunRow) :=
  sql_query (λ t, take limit (order_by (λ a b, (rr_id b <=? rr_id a)%Z) (tb_runs t))).

End Store.
