(* ===== verification/Signing.v ===== *)
(** * Signing keys (crates/iac-controlplane/src/signing.rs, iac-core/src/protocol.rs)

    The server's set of Ed25519 keys on disk and in memory, its rotation, and
    the message an assignment's signature covers. Ed25519, base64, SHA-256 and
    the file system are parameters; a mutation of the disk is one step, and
    any step may be the last one before a fault or a crash. *)

From S2P Require Import Prelude Text Json Routing Db AuditLog.

#[local] Open Scope string_scope.
#[local] Open Scope list_scope.
#[local] Open Scope nat_scope.

(** ** A disk that can fail

    Code that changes files, as a sequence of steps of which any may be the
    last: a step either happens or fails, and a failed write leaves what the
    fault left. [S] is what the code sees of the disk. A Hoare logic whose
    triples also say what a fault leaves. *)

(** The number of steps that still succeed; the one after them fails. *)
Definition fs_on (S A : Type) : Type := S → nat → result Anyhow A * S * nat.

Definition fs_ret {S A} (a : A) : fs_on S A := λ d n, (Ok a, d, n).
Definition fs_bail {S A} (m : message) : fs_on S A := λ d n, (Err [m], d, n).
Definition fs_bind {S A B} (m : fs_on S A) (f : A → fs_on S B) : fs_on S B := λ d n,
  match m d n with
  | (Ok a, d', n') => f a d' n'
  | (Err e, d', n') => (Err e, d', n')
  end.
(** [.with_context(|| c)]. *)
Definition fs_context {S A} (c : message) (m : fs_on S A) : fs_on S A := λ d n,
  match m d n with (Err e, d', n') => (Err (c :: e), d', n') | ok => ok end.
Definition fs_get {S} : fs_on S S := λ d n, (Ok d, d, n).

Declare Scope fs_scope.
Delimit Scope fs_scope with fs.
Notation "'let*' x ':=' m 'in' k" := (fs_bind m (λ x, k))
  (at level 200, x name, m at level 100, k at level 200, right associativity) : fs_scope.
Notation "m ';*' k" := (fs_bind m (λ _ : (), k)) (at level 100, k at level 200, right associativity) : fs_scope.
#[local] Open Scope fs_scope.

(** What a run leaves on the disk, and its result. *)
Definition fs_disk {S A} (m : fs_on S A) (d : S) (n : nat) : S := (m d n).1.2.
Definition fs_result {S A} (m : fs_on S A) (d : S) (n : nat) : result Anyhow A := (m d n).1.1.

Section Steps.
(** The disk, and the text of an I/O error. *)
Context {D : Type} (io_error : string → string).

(** A step that changes the disk; [cut] is what a fault leaves. *)
Definition fs_step (what : string) (f cut : D → D) : fs_on D () := λ d n,
  match n with
  | O => (Err [[Ext (io_error what)]], cut d, 0)
  | S n => (Ok (), f d, n)
  end.

(** A step that reads; [None]: what is read is not there. *)
Definition fs_read {A} (what : string) (f : D → option A) : fs_on D A := λ d n,
  match n with
  | O => (Err [[Ext (io_error what)]], d, 0)
  | S n => match f d with Some a => (Ok a, d, n) | None => (Err [[Ext (io_error what)]], d, n) end
  end.

End Steps.

(** [let _ = m;]: the outcome is dropped. *)
Definition fs_ignore {S} (m : fs_on S ()) : fs_on S () := λ d n, let '(_, d', n') := m d n in (Ok (), d', n').

(** ** Triples with a crash condition *)

(** From [P], [m] ends in [Q] when it succeeds; when it fails, or stops after
    any of its steps, it leaves [C]. *)
Definition hoare {S A} (P : S → Prop) (m : fs_on S A) (Q : A → S → Prop) (C : S → Prop) : Prop :=
  ∀ d n, P d → match m d n with (Ok a, d', _) => Q a d' | (Err _, d', _) => C d' end.

Lemma hoare_ret {S A} (a : A) (P : S → Prop) Q C : (∀ d, P d → Q a d) → hoare P (fs_ret a) Q C.
Proof. intros HP d n Hd. by apply HP. Qed.

Lemma hoare_bind {S A B} P (m : fs_on S A) (f : A → fs_on S B) Q R C :
  hoare P m Q C → (∀ a, hoare (Q a) (f a) R C) → hoare P (fs_bind m f) R C.
Proof.
  intros Hm Hf d n Hd. specialize (Hm d n Hd). unfold fs_bind.
  destruct (m d n) as [[[a|e] d'] n']; [|done]. by apply Hf.
Qed.

Lemma hoare_context {S A} c P (m : fs_on S A) Q C : hoare P m Q C → hoare P (fs_context c m) Q C.
Proof. intros Hm d n Hd. specialize (Hm d n Hd). unfold fs_context. by destruct (m d n) as [[[a|e] d'] n']. Qed.

Lemma hoare_consequence {S A} (P P' : S → Prop) (m : fs_on S A) (Q Q' : A → S → Prop) (C C' : S → Prop) :
  hoare P m Q C → (∀ d, P' d → P d) → (∀ a d, Q a d → Q' a d) → (∀ d, C d → C' d) → hoare P' m Q' C'.
Proof.
  intros Hm HP HQ HC d n Hd. specialize (Hm d n (HP d Hd)). destruct (m d n) as [[[a|e] d'] n']; auto.
Qed.

Lemma hoare_bail {S A} m (P : S → Prop) (Q : A → S → Prop) (C : S → Prop) :
  (∀ d, P d → C d) → hoare P (fs_bail m) Q C.
Proof. intros HP d n Hd. by apply HP. Qed.

#[local] Open Scope fs_scope.

(** ** Keys *)

(** ** Cryptography *)

(** Keys, messages and signatures are byte strings; [ed_point] is the check of
    [VerifyingKey::from_bytes]. *)
Class Ed25519 := {
  ed_public : string → string;
  ed_sign : string → string → string;
  ed_verify : string → string → string → bool;
  ed_point : string → bool
}.

(** What RFC 8032 promises of a key pair. *)
Class Ed25519Laws `{Ed25519} := {
  ed_public_length s : String.length (ed_public s) = 32;
  ed_signature_length s m : String.length (ed_sign s m) = 64;
  ed_public_point s : ed_point (ed_public s) = true;
  ed_sign_verifies s m : ed_verify (ed_public s) m (ed_sign s m) = true
}.

(** The standard alphabet of base64, padded. *)
Class Base64 := {
  b64_encode : string → string;
  b64_decode : string → result string string
}.
Class Base64Laws `{Base64} := { b64_round s : b64_decode (b64_encode s) = Ok s }.

(** ** The signed message *)

Definition line_feed : Ascii.ascii := Ascii.ascii_of_N 10.
Definition lf : string := String line_feed "".

(** The fields of the message, each on a line of its own. *)
Definition message_lines (fields : list string) : string :=
  foldr (λ f rest, f +:+ lf +:+ rest) "" fields.

Definition canonical_assignment_message `{Sha256}
    (agent_id assignment_id operation_id created_at expires_at payload_json : string) : string :=
  message_lines ["iac-assignment-v2"; agent_id; assignment_id; operation_id; created_at; expires_at;
                 sha256_hex payload_json].

(** ** The state directory *)

(** The files the signer touches: the two of the old layout, and the
    [signing-keys] directory once it exists. *)
Record StateDir := mkStateDir {
  sd_exists : bool;
  sd_legacy_secret : option string;
  sd_legacy_id : option string;
  sd_keys : option (gmap string string)
}.

Definition empty_dir : StateDir := mkStateDir false None None None.

Abbreviation fs := (fs_on StateDir).

(** ** The file system *)

Section Files.
(** The text of an I/O error, the file a write leaves when it is cut short,
    and the text of the path of the directory. *)
Context (io_error : string → string) (torn : string) (dir : string).

Definition path_of (name : string) : message := [Ext dir; Txt "/"; Txt name].

Definition update_keys (f : gmap string string → gmap string string) (d : StateDir) : StateDir :=
  mkStateDir (sd_exists d) (sd_legacy_secret d) (sd_legacy_id d) (f <$> sd_keys d).

(** [fs::write]: a fault leaves the file torn. *)
Definition fs_write (name contents : string) : fs () :=
  fs_step io_error "write" (update_keys (insert name contents)) (update_keys (insert name torn)).
(** [fs::set_permissions]; modes are not kept. *)
Definition fs_chmod (name : string) : fs () := fs_step io_error "chmod" id id.
(** [fs::rename], atomic. *)
Definition fs_rename (from to : string) : fs () :=
  fs_step io_error "rename" (update_keys (λ m, match m !! from with Some c => <[to := c]> (delete from m) | None => m end)) id.
Definition fs_remove (name : string) : fs () := fs_step io_error "remove" (update_keys (delete name)) id.
Definition fs_read_file (name : string) : fs string := fs_read io_error "read" (λ d, m ← sd_keys d; m !! name).
Definition fs_create_state_dir : fs () :=
  fs_step io_error "mkdir" (λ d, mkStateDir true (sd_legacy_secret d) (sd_legacy_id d) (sd_keys d)) id.
Definition fs_create_keys_dir : fs () :=
  fs_step io_error "mkdir" (λ d, mkStateDir (sd_exists d) (sd_legacy_secret d) (sd_legacy_id d) (Some (default ∅ (sd_keys d)))) id.

(** ** The key set *)

Record KeyEntry := mkKeyEntry { ke_signing_key : string; ke_verifying_key : string }.
Record SignerState := mkSignerState { ss_keys : gmap string KeyEntry; ss_active_id : string }.

Definition try_active_entry (s : SignerState) : result Anyhow KeyEntry :=
  ok_or (ss_keys s !! ss_active_id s)
    [[Txt "internal invariant violated: active key "; Txt (ss_active_id s); Txt " not in key set (size=";
      Dec (Z.of_nat (size (ss_keys s))); Txt ")"]].

Definition key_file (key_id : string) : string := key_id +:+ ".bin".
Definition key_tmp (key_id : string) : string := "." +:+ key_file key_id +:+ ".tmp".

Context `{Ed25519}.

(** The body of the loop over the directory's entries. *)
Definition load_entry (keys : gmap string KeyEntry) (name : string) : fs (gmap string KeyEntry) :=
  match strip_suffix ".bin" name with
  | None => fs_ret keys
  | Some stem =>
      let* bytes := fs_context ([Txt "reading "] ++ path_of name) (fs_read_file name) in
      if negb (String.length bytes =? 32) then
        fs_bail (path_of name ++ [Txt " has "; Dec (Z.of_nat (String.length bytes)); Txt " bytes, expected 32"])
      else fs_ret (<[stem := mkKeyEntry bytes (ed_public bytes)]> keys)
  end.

Fixpoint load_entries (keys : gmap string KeyEntry) (names : list string) : fs (gmap string KeyEntry) :=
  match names with
  | [] => fs_ret keys
  | name :: names => let* keys := load_entry keys name in load_entries keys names
  end.

(** The order [read_dir] lists in shows only in which bad file is named. *)
Definition load_set : fs SignerState :=
  let* text := fs_context ([Txt "reading "] ++ path_of "active") (fs_read_file "active") in
  let active_id := trim text in
  if decide (active_id = "") then fs_bail (path_of "active" ++ [Txt " is empty"])
  else
  let* names := fs_context ([Txt "listing "; Ext dir])
                  (fs_read io_error "list" (λ d, m ← sd_keys d; Some (map fst (map_to_list m)))) in
  let* keys := load_entries ∅ names in
  if decide (keys !! active_id = None) then
    fs_bail [Txt "active pointer "; Txt active_id; Txt " but no matching key in "; Ext dir]
  else fs_ret (mkSignerState keys active_id).

Definition write_key_file (key_id bytes : string) : fs () :=
  fs_context ([Txt "writing "] ++ path_of (key_tmp key_id)) (fs_write (key_tmp key_id) bytes) ;*
  fs_context ([Txt "chmod 0600 "] ++ path_of (key_tmp key_id)) (fs_chmod (key_tmp key_id)) ;*
  fs_context ([Txt "renaming "] ++ path_of (key_tmp key_id) ++ [Txt " -> "] ++ path_of (key_file key_id))
    (fs_rename (key_tmp key_id) (key_file key_id)).

Definition write_active_pointer (key_id : string) : fs () :=
  fs_context ([Txt "writing "] ++ path_of ".active.tmp") (fs_write ".active.tmp" key_id) ;*
  fs_context ([Txt "renaming "] ++ path_of ".active.tmp" ++ [Txt " -> "] ++ path_of "active")
    (fs_rename ".active.tmp" "active").

(** What a new key draws: 32 random bytes and a ULID. *)
Record KeyDraw := mkKeyDraw { kd_secret : string; kd_id : string }.

Definition generate_and_persist (k : KeyDraw) : fs string :=
  write_key_file (kd_id k) (kd_secret k) ;* fs_ret (kd_id k).

(** ** Boot *)

(** [bytes.map(|b| format!("{b:02x}")).join(":")] of bytes in hexadecimal. *)
Fixpoint colon_pairs (hex : string) : list string :=
  match hex with
  | String a (String b rest) => String a (String b "") :: colon_pairs rest
  | _ => []
  end.

Context `{Sha256, Base64} (state_dir : string).

Definition pubkey_fingerprint (pubkey : string) : string := str_join ":" (colon_pairs (sha256_hex pubkey)).

Definition fingerprint_marker (key_id : string) (e : KeyEntry) : string :=
  "key_id: " +:+ key_id +:+ lf +:+ "sha256: " +:+ pubkey_fingerprint (ke_verifying_key e) +:+ lf +:+
  "pub_b64: " +:+ b64_encode (ke_verifying_key e) +:+ lf.

Definition creating_keys_dir : fs () := fs_context [Txt "creating "; Ext dir] fs_create_keys_dir.

(** The single key of the old layout becomes the active key of the new one. *)
Definition migrate_legacy_key : fs SignerState :=
  creating_keys_dir ;*
  let* secret := fs_context [Txt "reading legacy "; Ext state_dir; Txt "/signing-key.bin"] (fs_read io_error "read" sd_legacy_secret) in
  if negb (String.length secret =? 32) then
    fs_bail [Txt "legacy signing-key.bin has "; Dec (Z.of_nat (String.length secret)); Txt " bytes, expected 32"]
  else
  let* text := fs_context [Txt "reading legacy "; Ext state_dir; Txt "/signing-key.id"] (fs_read io_error "read" sd_legacy_id) in
  let key_id := trim text in
  write_key_file key_id secret ;* write_active_pointer key_id ;* load_set.

Definition create_first_key (k : KeyDraw) : fs SignerState :=
  creating_keys_dir ;*
  let* key_id := generate_and_persist k in
  write_active_pointer key_id ;*
  let* state := load_set in
  match try_active_entry state with
  | Err e => λ d n, (Err e, d, n)
  | Ok entry => fs_ignore (fs_write ".initial-fingerprint" (fingerprint_marker key_id entry)) ;* fs_ret state
  end.

Definition load_or_create (k : KeyDraw) : fs SignerState :=
  let* d := fs_get in
  (if sd_exists d then fs_ret () else fs_context [Txt "creating state dir "; Ext state_dir] fs_create_state_dir) ;*
  let* d := fs_get in
  match sd_keys d, sd_legacy_secret d, sd_legacy_id d with
  | Some _, _, _ => fs_context [Txt "loading key set from "; Ext dir] load_set
  | None, Some _, Some _ => migrate_legacy_key
  | None, _, _ => create_first_key k
  end.

(** ** The running signer

    Its directory and its state in memory; the mutex makes [rotate] and
    [retire] atomic with respect to each other. *)

Record ServerSigner := mkSigner { sg_dir : StateDir; sg_state : SignerState }.

Definition key_id (s : SignerState) : string := ss_active_id s.

Definition public_key_b64 (s : SignerState) : result Anyhow string :=
  entry ← try_active_entry s; Ok (b64_encode (ke_verifying_key entry)).

Definition active_pubkey_fingerprint (s : SignerState) : result Anyhow string :=
  entry ← try_active_entry s; Ok (pubkey_fingerprint (ke_verifying_key entry)).

Definition pubkeys (s : SignerState) : list (string * string) :=
  order_by (λ a b, str_le a.1 b.1) (map (λ kv, (kv.1, b64_encode (ke_verifying_key kv.2))) (map_to_list (ss_keys s))).

Definition sign (s : SignerState) (agent_id assignment_id operation_id created_at expires_at payload_json : string)
    : result Anyhow string :=
  let msg := canonical_assignment_message agent_id assignment_id operation_id created_at expires_at payload_json in
  entry ← try_active_entry s;
  Ok (b64_encode (ed_sign (ke_signing_key entry) msg)).

(** [n]: the number of disk steps that succeed. *)
Definition rotate (k : KeyDraw) (n : nat) (s : ServerSigner) : result Anyhow string * ServerSigner :=
  match (let* new_id := generate_and_persist k in
         write_active_pointer new_id ;*
         let* new_state := fs_context [Txt "reloading key set after rotate ("; Ext dir; Txt ")"] load_set in
         fs_ret (new_id, new_state)) (sg_dir s) n with
  | (Ok (new_id, new_state), d, _) => (Ok new_id, mkSigner d new_state)
  | (Err e, d, _) => (Err e, mkSigner d (sg_state s))
  end.

Definition retire (id : string) (n : nat) (s : ServerSigner) : result Anyhow bool * ServerSigner :=
  if decide (ss_active_id (sg_state s) = id) then
    (Err [[Txt "cannot retire active key "; Txt id; Txt "; rotate first to elect a new active"]], s)
  else if decide (ss_keys (sg_state s) !! id = None) then (Ok false, s)
  else
  match (let* d := fs_get in
         (if decide (is_Some (m ← sd_keys d; m !! key_file id))
          then fs_context ([Txt "removing "] ++ path_of (key_file id)) (fs_remove (key_file id)) else fs_ret ()) ;*
         load_set) (sg_dir s) n with
  | (Ok new_state, d, _) => (Ok true, mkSigner d new_state)
  | (Err e, d, _) => (Err e, mkSigner d (sg_state s))
  end.

End Files.
