(* ===== verification/Chars.v ===== *)
(** * More of Rust's strings

    The parts of the standard library the providers use on text: decoding
    with replacement, lines, words and trimming. *)

From stdpp Require Import pretty.
From S2P Require Import Prelude Text.

#[local] Open Scope string_scope.
#[local] Open Scope list_scope.
#[local] Open Scope nat_scope.

(** ** Decoding

    [String::from_utf8_lossy]: every maximal prefix of a character that does
    not go on as it must becomes one replacement character. *)

Definition in_range (lo hi : N) (a : Ascii.ascii) : bool := ((lo <=? byte_of a) && (byte_of a <=? hi))%N.
Definition is_cont : Ascii.ascii → bool := in_range 128 191.
Definition REPLACEMENT : string := utf8 65533.

(** What may follow the first byte of a character of three or four bytes. *)
Definition second_of_3 (b : N) (a : Ascii.ascii) : bool :=
  if (b =? 224)%N then in_range 160 191 a else if (b =? 237)%N then in_range 128 159 a else is_cont a.
Definition second_of_4 (b : N) (a : Ascii.ascii) : bool :=
  if (b =? 240)%N then in_range 144 191 a else if (b =? 244)%N then in_range 128 143 a else is_cont a.

Fixpoint from_utf8_lossy (s : string) : string :=
  match s with
  | "" => ""
  | String a s1 =>
      let b := byte_of a in
      if (b <? 128)%N then String a (from_utf8_lossy s1)
      else if in_range 194 223 a then
        match s1 with
        | String a1 s2 => if is_cont a1 then String a (String a1 (from_utf8_lossy s2)) else REPLACEMENT +:+ from_utf8_lossy s1
        | "" => REPLACEMENT
        end
      else if in_range 224 239 a then
        match s1 with
        | String a1 s2 =>
            if second_of_3 b a1 then
              match s2 with
              | String a2 s3 =>
                  if is_cont a2 then String a (String a1 (String a2 (from_utf8_lossy s3))) else REPLACEMENT +:+ from_utf8_lossy s2
              | "" => REPLACEMENT
              end
            else REPLACEMENT +:+ from_utf8_lossy s1
        | "" => REPLACEMENT
        end
      else if in_range 240 244 a then
        match s1 with
        | String a1 s2 =>
            if second_of_4 b a1 then
              match s2 with
              | String a2 s3 =>
                  if is_cont a2 then
                    match s3 with
                    | String a3 s4 =>
                        if is_cont a3 then String a (String a1 (String a2 (String a3 (from_utf8_lossy s4))))
                        else REPLACEMENT +:+ from_utf8_lossy s3
                    | "" => REPLACEMENT
                    end
                  else REPLACEMENT +:+ from_utf8_lossy s2
              | "" => REPLACEMENT
              end
            else REPLACEMENT +:+ from_utf8_lossy s1
        | "" => REPLACEMENT
        end
      else REPLACEMENT +:+ from_utf8_lossy s1
  end.

(** ASCII text decodes to itself. *)
Lemma lossy_ascii s : forallb (λ a, (byte_of a <? 128)%N) (String.list_ascii_of_string s) = true → from_utf8_lossy s = s.
Proof. induction s as [|a s IH]; [done|]. cbn. intros [Ha Hs]%andb_true_iff. by rewrite Ha, IH. Qed.

(** ** Words and lines *)

(** [s.split_whitespace()], on the characters. *)
Fixpoint split_chars (word : list N) (cs : list N) : list (list N) :=
  match cs with
  | [] => match word with [] => [] | _ => [word] end
  | c :: cs =>
      if is_whitespace c then match word with [] => split_chars [] cs | _ => word :: split_chars [] cs end
      else split_chars (word ++ [c]) cs
  end.
Definition split_whitespace (s : string) : list string := map of_chars (split_chars [] (chars s)).

Definition newline : Ascii.ascii := Ascii.ascii_of_N 10.
Definition carriage_return : string := String (Ascii.ascii_of_N 13) "".

(** The pieces that end in a newline, then the last one unless it is empty. *)
Fixpoint stream_lines (segments : list string) : list string :=
  match segments with
  | [] => []
  | [last] => if decide (last = "") then [] else [last]
  | line :: segments => line :: stream_lines segments
  end.

(** [s.lines()]: without the line ends, a carriage return before one included. *)
Definition str_lines (s : string) : list string :=
  let fix go (segments : list string) : list string :=
    match segments with
    | [] => []
    | [last] => if decide (last = "") then [] else [last]
    | line :: segments => default line (strip_suffix carriage_return line) :: go segments
    end in
  go (split_on newline s).

(** *** Text made of lines *)

Definition newline_text : string := String newline "".
(** [writeln!]. *)
Definition line (s : string) : string := s +:+ newline_text.

Definition one_line (s : string) : Prop := split_on newline s = [s].

Lemma split_on_cons c s : ∃ x xs, split_on c s = x :: xs.
Proof. destruct s as [|a s]; cbn; [by eexists _, _|]. destruct (Ascii.eqb a c); [by eexists _, _|]. destruct (split_on c s); by eexists _, _. Qed.

Lemma one_line_nil : one_line "".
Proof. done. Qed.

Lemma one_line_cons a s : one_line (String a s) ↔ a ≠ newline ∧ one_line s.
Proof.
  unfold one_line. cbn [split_on]. destruct (Ascii.eqb_spec a newline) as [->|Ha].
  { split; [by intros H'|by intros [? _]]. }
  destruct (split_on_cons newline s) as (x & xs & ->). split; [by intros [= -> ->]|by intros [_ [= -> ->]]].
Qed.

Lemma one_line_app s t : one_line (s +:+ t) ↔ one_line s ∧ one_line t.
Proof.
  induction s as [|a s IH]; [by split; [|intros [_ ?]]|].
  change (String a s +:+ t) with (String a (s +:+ t)). rewrite !one_line_cons, IH. tauto.
Qed.

(** [s] without ['\n'], as the code tests it. *)
Lemma one_line_contains s : str_contains newline_text s = false → one_line s.
Proof.
  unfold str_contains. induction s as [|a s IH]; [done|]. cbn [split_once]. unfold newline_text. cbn [strip_prefix].
  intros Hn. apply one_line_cons. destruct (decide (newline = a)) as [->|Ha]; [done|]. split; [done|]. apply IH.
  fold newline_text in *. by destruct (split_once newline_text s) as [[? ?]|].
Qed.

(** The lines of text written line by line are those lines. *)
Lemma written_lines ls : Forall one_line ls → stream_lines (split_on newline (str_join "" (map line ls))) = ls.
Proof.
  assert (∀ x t, one_line x → split_on newline (line x +:+ t) = x :: split_on newline t) as Hl.
  { intros x t. induction x as [|a x IH]; [done|]. intros [Ha Hx]%one_line_cons. unfold line in *.
    change ((String a x +:+ newline_text) +:+ t) with (String a ((x +:+ newline_text) +:+ t)). cbn [split_on]. rewrite IH by done. by destruct (Ascii.eqb_spec a newline). }
  assert (∀ x (xs : list string), str_join "" (x :: xs) = x +:+ str_join "" xs) as Hj
    by (intros x [|y xs]; [symmetry; apply str_app_nil_r|done]).
  induction 1 as [|x ls Hx _ IH]; [done|]. cbn [map]. rewrite Hj, Hl by done. revert IH. clear.
  destruct (split_on_cons newline (str_join "" (map line ls))) as (y & ys & ->). intros IH. cbn [stream_lines]. by f_equal.
Qed.

(** *** ASCII in UTF-8 text *)

Definition is_utf8 (s : string) : Prop := from_utf8_lossy s = s.

Lemma replaced x a s : REPLACEMENT +:+ x = String a s →
  byte_of a = 239%N ∧ ∃ b c, is_cont b = true ∧ is_cont c = true ∧ s = String b (String c x).
Proof. intros [= <- <-]. split; [done|]. do 2 eexists. split_and!; [..|reflexivity]; reflexivity. Qed.

Lemma cont_ascii b : is_cont b = true → (128 ≤ byte_of b)%N.
Proof. intros [Hb _]%andb_true_iff. by apply N.leb_le in Hb. Qed.
Lemma second_of_3_cont n b : second_of_3 n b = true → is_cont b = true.
Proof.
  unfold second_of_3, is_cont, in_range. destruct (n =? 224)%N, (n =? 237)%N; rewrite !andb_true_iff, !N.leb_le; lia.
Qed.
Lemma second_of_4_cont n b : second_of_4 n b = true → is_cont b = true.
Proof.
  unfold second_of_4, is_cont, in_range. destruct (n =? 240)%N, (n =? 244)%N; rewrite !andb_true_iff, !N.leb_le; lia.
Qed.

(** An ASCII byte of UTF-8 text is one of its characters. *)
Lemma ascii_in_chars a s : is_utf8 s → (byte_of a < 128)%N → a ∈ String.list_ascii_of_string s → byte_of a ∈ chars s.
Proof.
  intros Hu Ha. revert Hu. remember (String.length s) as n eqn:Hn. revert s Hn. induction (lt_wf n) as [n _ IH].
  intros [|b s] -> Hu Hin; [by apply not_elem_of_nil in Hin|]. unfold is_utf8 in Hu.
  assert (∀ s', String.length s' < String.length (String b s) → is_utf8 s' → a ∈ String.list_ascii_of_string s' → byte_of a ∈ chars s')
    as IH' by (intros s' Hl; by eapply IH). clear IH. cbn [from_utf8_lossy chars String.list_ascii_of_string String.length] in *.
  destruct (byte_of b <? 128)%N eqn:Hb.
  { injection Hu as Hu. apply elem_of_cons in Hin as [->|Hin]; [left|right; apply IH'; [lia|done|done]]. }
  assert (a ≠ b) as Hab by (intros ->; apply N.ltb_ge in Hb; lia). apply elem_of_cons in Hin as [?|Hin]; [done|].
  assert (∀ lo hi, in_range lo hi b = true ↔ (lo ≤ byte_of b ≤ hi)%N) as Hrange
    by (intros lo hi; unfold in_range; by rewrite andb_true_iff, !N.leb_le).
  assert (∀ x, is_cont x = true → a ≠ x) as Hc by (intros x Hx%cont_ascii ->; lia).
  apply N.ltb_ge in Hb.
  destruct (in_range 194 223 b) eqn:H2.
  { apply Hrange in H2. rewrite (proj2 (N.ltb_lt (byte_of b) 224)) by lia. destruct s as [|b1 s]; [done|].
    destruct (is_cont b1) eqn:C1; [|apply replaced in Hu; lia]. injection Hu as Hu.
    apply elem_of_cons in Hin as [?|Hin]; [by apply Hc in C1|]. right. apply IH'; [cbn; lia|done|done]. }
  destruct (in_range 224 239 b) eqn:H3.
  { apply Hrange in H3. rewrite (proj2 (N.ltb_ge (byte_of b) 224)), (proj2 (N.ltb_lt (byte_of b) 240)) by lia.
    destruct s as [|b1 s]; [done|]. destruct (second_of_3 (byte_of b) b1) eqn:C1.
    - apply second_of_3_cont in C1. destruct s as [|b2 s]; [done|]. destruct (is_cont b2) eqn:C2.
      + injection Hu as Hu. apply elem_of_cons in Hin as [?|Hin]; [by apply Hc in C1|].
        apply elem_of_cons in Hin as [?|Hin]; [by apply Hc in C2|]. right. apply IH'; [cbn; lia|done|done].
      + apply replaced in Hu as (_ & x & y & _ & Hy & Hs). injection Hs as _ -> _. congruence.
    - apply replaced in Hu as (Hb' & x & y & Hx & _ & [= <- _]). unfold second_of_3 in C1. rewrite Hb' in C1. cbn in C1. congruence. }
  destruct (in_range 240 244 b) eqn:H4.
  2:{ apply replaced in Hu as [Hb' _]. by unfold in_range in H3; rewrite Hb' in H3. }
  apply Hrange in H4. rewrite (proj2 (N.ltb_ge (byte_of b) 224)), (proj2 (N.ltb_ge (byte_of b) 240)) by lia.
  assert (∀ x, REPLACEMENT +:+ x ≠ String b s) as Hne by (intros x [Hb' _]%replaced; lia).
  destruct s as [|b1 s]; [by apply (Hne "") in Hu|]. destruct (second_of_4 (byte_of b) b1) eqn:C1; [|by apply Hne in Hu].
  apply second_of_4_cont in C1. destruct s as [|b2 s]; [by apply (Hne "") in Hu|]. destruct (is_cont b2) eqn:C2; [|by apply Hne in Hu].
  destruct s as [|b3 s]; [by apply (Hne "") in Hu|]. destruct (is_cont b3) eqn:C3; [|by apply Hne in Hu]. injection Hu as Hu.
  apply elem_of_cons in Hin as [?|Hin]; [by apply Hc in C1|]. apply elem_of_cons in Hin as [?|Hin]; [by apply Hc in C2|].
  apply elem_of_cons in Hin as [?|Hin]; [by apply Hc in C3|]. right. apply IH'; [cbn; lia|done|done].
Qed.

(** *** ASCII texts *)

Definition ascii_text (s : string) : bool := forallb (λ a, (byte_of a <? 128)%N) (String.list_ascii_of_string s).

Lemma chars_ascii s : ascii_text s = true → chars s = map byte_of (String.list_ascii_of_string s).
Proof.
  induction s as [|a s IH]; [done|]. unfold ascii_text in *. cbn [String.list_ascii_of_string forallb]. intros [Ha Hs]%andb_true_iff.
  cbn [chars map]. by rewrite Ha, IH.
Qed.

Lemma of_chars_ascii s : ascii_text s = true → of_chars (map byte_of (String.list_ascii_of_string s)) = s.
Proof.
  induction s as [|a s IH]; [done|]. unfold ascii_text in *. cbn [String.list_ascii_of_string forallb]. intros [Ha Hs]%andb_true_iff.
  cbn [map of_chars]. rewrite IH by done. unfold utf8. rewrite Ha. unfold byte_of. by rewrite Ascii.ascii_N_embedding.
Qed.

Lemma lead_2 a : in_range 194 223 a = true → (2 ≤ N.land (byte_of a) 31)%N.
Proof. destruct a as [[] [] [] [] [] [] [] []]; vm_compute; congruence. Qed.
Lemma lead_3 a : in_range 224 239 a = true → byte_of a = 224%N ∨ (1 ≤ N.land (byte_of a) 15)%N.
Proof. destruct a as [[] [] [] [] [] [] [] []]; vm_compute; intros; first [discriminate | by left | right; discriminate]. Qed.
Lemma lead_4 a : in_range 240 244 a = true → byte_of a = 240%N ∨ (1 ≤ N.land (byte_of a) 7)%N.
Proof. destruct a as [[] [] [] [] [] [] [] []]; vm_compute; intros; first [discriminate | by left | right; discriminate]. Qed.
Lemma second_bits lo a : in_range (128 + lo) 191 a = true → (lo ≤ 63)%N → (lo ≤ cont_bits a)%N.
Proof.
  intros Ha Hlo. assert (cont_bits a = byte_of a - 128)%N as ->.
  { assert (in_range 128 191 a = true) as Ha'.
    { revert Ha. unfold in_range. rewrite !andb_true_iff, !N.leb_le. lia. }
    clear -Ha'. revert Ha'. destruct a as [[] [] [] [] [] [] [] []]; vm_compute; congruence. }
  revert Ha. unfold in_range. rewrite !andb_true_iff, !N.leb_le. lia.
Qed.

(** A start of UTF-8 text with a byte beyond ASCII has a character beyond it. *)
Lemma wide_char b s t : is_utf8 (String b s +:+ t) → (128 ≤ byte_of b)%N → ∃ c cs, chars (String b s) = c :: cs ∧ (128 ≤ c)%N.
Proof.
  intros Hu Hb. unfold is_utf8 in Hu. change (String b s +:+ t) with (String b (s +:+ t)) in Hu. cbn [from_utf8_lossy chars] in *.
  assert ((byte_of b <? 128)%N = false) as Hb' by by apply N.ltb_ge. rewrite Hb' in *.
  destruct (byte_of b <? 224)%N eqn:L2.
  { destruct s as [|b1 s]; [exists (byte_of b), []; done|]. do 2 eexists. split; [reflexivity|].
    change (String b1 s +:+ t) with (String b1 (s +:+ t)) in Hu.
    destruct (in_range 194 223 b) eqn:H2; [apply lead_2 in H2; lia|].
    assert (in_range 224 239 b = false ∧ in_range 240 244 b = false) as [H3 H4].
    { unfold in_range. apply N.ltb_lt in L2. rewrite !andb_false_iff, !N.leb_gt. lia. }
    rewrite H3, H4 in Hu. apply replaced in Hu as [Hu _]. apply N.ltb_lt in L2. lia. }
  apply N.ltb_ge in L2. assert (in_range 194 223 b = false) as H2.
  { unfold in_range. rewrite !andb_false_iff, !N.leb_gt. lia. }
  rewrite H2 in Hu. destruct (byte_of b <? 240)%N eqn:L3.
  { apply N.ltb_lt in L3. assert (in_range 224 239 b = true) as H3 by (unfold in_range; rewrite !andb_true_iff, !N.leb_le; lia).
    rewrite H3 in Hu. destruct s as [|b1 [|b2 s]]; [exists (byte_of b), []; done..|]. do 2 eexists. split; [reflexivity|].
    change (String b1 (String b2 s) +:+ t) with (String b1 (String b2 (s +:+ t))) in Hu. apply lead_3 in H3 as [H3|H3]; [|lia]. unfold second_of_3 in Hu. rewrite H3 in Hu. cbn [N.eqb Pos.eqb] in Hu.
    destruct (in_range 160 191 b1) eqn:C1; [apply (second_bits 32) in C1; lia|]. apply replaced in Hu as [Hu _]. lia. }
  apply N.ltb_ge in L3. assert (in_range 224 239 b = false) as H3 by (unfold in_range; rewrite !andb_false_iff, !N.leb_gt; lia).
  rewrite H3 in Hu. destruct (in_range 240 244 b) eqn:H4; [|].
  - destruct s as [|b1 [|b2 [|b3 s]]]; [exists (byte_of b), []; done..|]. do 2 eexists. split; [reflexivity|].
    change (String b1 (String b2 (String b3 s)) +:+ t) with (String b1 (String b2 (String b3 (s +:+ t)))) in Hu.
    apply lead_4 in H4 as [H4|H4]; [|lia]. unfold second_of_4 in Hu. rewrite H4 in Hu. cbn [N.eqb Pos.eqb] in Hu.
    destruct (in_range 144 191 b1) eqn:C1; [apply (second_bits 16) in C1; lia|]. apply replaced in Hu as [Hu _]. lia.
  - apply replaced in Hu as [Hu _]. unfold in_range in H4. rewrite Hu in *. lia.
Qed.

Lemma ascii_from_chars s t : is_utf8 (s +:+ t) → forallb (λ c, (c <? 128)%N) (chars s) = true → ascii_text s = true.
Proof.
  induction s as [|a s IH]; [done|]. intros Hu Hc. destruct (byte_of a <? 128)%N eqn:Ha.
  - unfold is_utf8 in Hu. change (String a s +:+ t) with (String a (s +:+ t)) in Hu. cbn [from_utf8_lossy chars] in *. rewrite Ha in *.
    injection Hu as Hu. cbn [forallb] in Hc. apply andb_true_iff in Hc as [_ Hc].
    unfold ascii_text. cbn [String.list_ascii_of_string forallb]. rewrite Ha. by apply IH.
  - apply N.ltb_ge in Ha. destruct (wide_char a s t Hu Ha) as (c & cs & Hcs & Hw). rewrite Hcs in Hc. cbn [forallb] in Hc.
    apply andb_true_iff in Hc as [Hc _]. apply N.ltb_lt in Hc. lia.
Qed.

(** UTF-8 text all of whose characters are of a kind that a newline is not. *)
Lemma one_line_chars p s : is_utf8 s → p 10%N = false → forallb p (chars s) = true → one_line s.
Proof.
  intros Hu Hp Hs. assert (newline ∉ String.list_ascii_of_string s) as Hn.
  { intros Hin%ascii_in_chars; [|done|done]. rewrite forallb_forall in Hs. apply list_elem_of_In, Hs in Hin. change (byte_of newline) with 10%N in Hin. by rewrite Hp in Hin. }
  clear Hu Hs Hp. induction s as [|a s IH]; [done|]. cbn in Hn. apply not_elem_of_cons in Hn as [Ha Hn].
  apply one_line_cons. split; [by intros ->|by apply IH].
Qed.

(** ** Trimming *)

Definition trim_start_matches (p : N → bool) (s : string) : string := of_chars (drop_while p (chars s)).
Definition trim_end_matches (p : N → bool) (s : string) : string := of_chars (reverse (drop_while p (reverse (chars s)))).

(** ** Decimal numbers *)

Lemma pretty_digit (x : N) : (x < 10)%N →
  byte_of (pretty_N_char x) = (48 + x)%N.
Proof.
  intros Hx. assert (x = 0 ∨ x = 1 ∨ x = 2 ∨ x = 3 ∨ x = 4 ∨ x = 5 ∨ x = 6 ∨ x = 7 ∨ x = 8 ∨ x = 9)%N as Hc by lia.
  by repeat destruct Hc as [->|Hc]; [..|subst].
Qed.

Lemma digit_digit (x : N) : (x < 10)%N → is_ascii_digit (48 + x) = true.
Proof. intros Hx. unfold is_ascii_digit. apply andb_true_iff. rewrite !N.leb_le. lia. Qed.

Lemma parse_pretty_go (x : N) : ∀ s, parse_digits 0 (pretty_N_go x s) = parse_digits (Z.of_N x) s.
Proof.
  induction (N.lt_wf_0 x) as [x _ IH]; intros s.
  assert (x = 0 ∨ 0 < x)%N as [->|Hx] by lia; [by rewrite pretty_N_go_0|].
  rewrite pretty_N_go_step by done. rewrite IH by by apply N.div_lt. cbn [parse_digits].
  pose proof (N.mod_lt x 10 ltac:(done)) as Hm. rewrite pretty_digit by done.
  rewrite digit_digit by done. f_equal. pose proof (N.div_mod x 10 ltac:(done)) as Hx'. lia.
Qed.

Lemma parse_pretty (x : N) : parse_digits 0 (pretty x) = Some (Z.of_N x).
Proof.
  unfold pretty, pretty_N. case_decide; [by subst|]. by rewrite parse_pretty_go.
Qed.

Lemma pretty_N_nonempty (x : N) : pretty x ≠ "".
Proof. intros He. pose proof (parse_pretty x) as Hp. rewrite He in Hp. cbn in Hp. destruct x; [by vm_compute in He|done]. Qed.

(** A number below the bound reads back from its text. *)
Lemma parse_unsigned_pretty max z : (0 ≤ z ≤ max)%Z → parse_unsigned max (pretty z) = Some z.
Proof.
  intros Hz. destruct z as [|p|p]; [| |lia].
  { change (parse_unsigned max (pretty 0%Z)) with (if (0 <=? max)%Z then Some 0%Z else None). by rewrite (proj2 (Z.leb_le 0 max)) by lia. }
  change (pretty (Z.pos p)) with (pretty (Npos p)). unfold parse_unsigned.
  destruct (strip_prefix "+" (pretty (Npos p))) as [r|] eqn:E.
  - apply strip_prefix_spec in E. pose proof (parse_pretty (Npos p)) as Hp. rewrite E in Hp. by cbn in Hp.
  - pose proof (pretty_N_nonempty (Npos p)) as Hne. destruct (pretty (Npos p)) as [|a s] eqn:He; [done|]. rewrite <- He, parse_pretty. cbn -[Z.leb].
    by rewrite (proj2 (Z.leb_le (Z.pos p) max)) by lia.
Qed.

Lemma parse_digits_range acc s z : (0 ≤ acc)%Z → parse_digits acc s = Some z → (0 ≤ z)%Z.
Proof.
  revert acc. induction s as [|a s IH]; intros acc Ha; cbn; [by intros [= <-]|].
  destruct (is_ascii_digit (byte_of a)) eqn:Hd; [|done]. unfold is_ascii_digit in Hd.
  apply andb_true_iff in Hd as [H48 _]. apply N.leb_le in H48. apply IH. lia.
Qed.

Lemma parse_unsigned_range max s z : parse_unsigned max s = Some z → (0 ≤ z ≤ max)%Z.
Proof.
  unfold parse_unsigned. destruct (match strip_prefix _ _ with Some r => r | None => s end); [done|].
  intros (z' & Hz & Hle)%bind_Some. destruct (Z.leb_spec z' max); [|done]. injection Hle as ->.
  split; [|done]. by apply (parse_digits_range 0) in Hz.
Qed.
