(* ===== verification/PluginSpec.v ===== *)
(** * Dynamic providers: their configuration (crates/iac-providers/src/shellout/spec.rs, process/spec.rs, wasm/spec.rs, sha256_pin.rs)

    The entries of the agent's configuration that add a resource kind, and the
    validation of each. *)

From S2P Require Import Prelude Text AuditLog Chars.
From stdpp Require Import pretty.

#[local] Open Scope string_scope.
#[local] Open Scope list_scope.
#[local] Open Scope nat_scope.

(** [Path::is_absolute] on Unix. *)
Definition is_absolute (p : string) : bool := starts_with "/" p.

(** The check on [kind] the three validations share. *)
Definition validate_kind (kind : string) : result message () :=
  if decide (kind = "") then Err [Txt "kind must not be empty"]
  else if existsb is_whitespace (chars kind) then Err [Txt "kind "; Dbg kind; Txt " contains whitespace"]
  else Ok ().

(** [(lo..=hi).contains(&n)], with the message of its failure. *)
Definition validate_range (field : string) (lo hi n : Z) : result message () :=
  if ((lo <=? n) && (n <=? hi))%Z then Ok ()
  else Err [Txt field; Txt " "; Dec n; Txt " out of range ("; Dec lo; Txt "..="; Dec hi; Txt ")"].

(** ** Content pins *)

Fixpoint all_bytes (p : N → bool) (s : string) : bool :=
  match s with
  | "" => true
  | String a s => p (byte_of a) && all_bytes p s
  end.

Definition is_lower_hex (b : N) : bool := is_ascii_digit b || ((97 <=? b) && (b <=? 102))%N.

Definition validate_sha256_hex (s field : string) : result message () :=
  if negb (String.length s =? 64) then
    Err [Txt field; Txt " must be 64 lowercase hex chars (got "; Dec (Z.of_nat (String.length s)); Txt ")"]
  else if negb (all_bytes is_lower_hex s) then
    Err [Txt field; Txt " must be lowercase hex (a-f / 0-9); got "; Dbg s]
  else Ok ().

Definition verify_sha256 `{Sha256} (bytes expected label : string) : result message () :=
  let actual := sha256_hex bytes in
  if decide (actual = expected) then Ok ()
  else Err [Txt label; Txt " hash mismatch: expected "; Txt expected; Txt ", got "; Txt actual].

(** ** Shell commands *)

Record ShellOutSpec := mkShellOut {
  so_kind : string;
  so_observe : string;
  so_apply : string;
  so_verify : option string;
  so_rollback : option string;
  so_capability_keys : list string;
  so_env : list string;
  so_timeout_secs : Z
}.

Definition validate_shellout (s : ShellOutSpec) : result message () :=
  _ ← validate_kind (so_kind s);
  if is_blank (so_observe s) then Err [Txt "observe command must not be empty"]
  else if is_blank (so_apply s) then Err [Txt "apply command must not be empty"]
  else validate_range "timeout_secs" 1 600 (so_timeout_secs s).

Definition split_argv (cmd : string) : list string := split_whitespace cmd.

(** ** External processes *)

Record ExternalProviderSpec := mkExternal {
  xp_kind : string;
  xp_binary : string;
  xp_args : list string;
  xp_env : list string;
  xp_restart_on_crash : bool;
  xp_handshake_timeout_secs : Z;
  xp_call_timeout_secs : Z;
  xp_binary_sha256 : option string
}.

Definition validate_external (s : ExternalProviderSpec) : result message () :=
  _ ← validate_kind (xp_kind s);
  if negb (is_absolute (xp_binary s)) then Err [Txt "binary "; Txt (xp_binary s); Txt " must be absolute"]
  else
  _ ← validate_range "handshake_timeout_secs" 1 60 (xp_handshake_timeout_secs s);
  _ ← validate_range "call_timeout_secs" 1 3600 (xp_call_timeout_secs s);
  match xp_binary_sha256 s with Some h => validate_sha256_hex h "binary_sha256" | None => Ok () end.

(** ** WebAssembly modules *)

Inductive WasmRuntimeKind := Core | Component.

Record WasiPreopen := mkPreopen { wp_host : string; wp_guest : string; wp_writable : bool; wp_unsafe_host : bool }.

Record WasiConfig := mkWasi {
  wa_preopens : list WasiPreopen;
  wa_env : list string;
  wa_inherit_stdout : bool;
  wa_inherit_stderr : bool;
  wa_allow_network : bool
}.

Record WasmProviderSpec := mkWasm {
  ws_kind : string;
  ws_module : string;
  ws_max_memory_bytes : Z;
  ws_fuel_per_call : Z;
  ws_runtime : WasmRuntimeKind;
  ws_wasi : WasiConfig;
  ws_module_sha256 : option string
}.

Definition SENSITIVE_PREFIXES : list string :=
  ["/etc"; "/root"; "/proc"; "/sys"; "/dev"; "/boot"; "/run"; "/var/run"; "/home"; "/usr"; "/bin"; "/sbin";
   "/var/lib/docker"; "/var/lib/iac-agent"; "/var/lib/iac-controlplane"].

Definition is_sensitive_host_path (s : string) : bool :=
  existsb (λ prefix, bool_decide (s = prefix) || starts_with (prefix +:+ "/") s) SENSITIVE_PREFIXES.

Definition wasi_is_empty (w : WasiConfig) : bool :=
  bool_decide (wa_preopens w = []) && bool_decide (wa_env w = []) && negb (wa_inherit_stdout w)
  && negb (wa_inherit_stderr w) && negb (wa_allow_network w).

(** [guest.split(['/', '\\']).any(|seg| seg == "..")]. *)
Definition has_dotdot (guest : string) : bool :=
  existsb (λ part, existsb (λ seg, bool_decide (seg = "..")) (split_on (Ascii.ascii_of_N 92) part))
    (split_on (Ascii.ascii_of_N 47) guest).

Definition validate_preopen (p : WasiPreopen) : result message () :=
  if negb (is_absolute (wp_host p)) then Err [Txt "wasi.preopens host "; Txt (wp_host p); Txt " must be absolute"]
  else if negb (wp_unsafe_host p) && is_sensitive_host_path (wp_host p) then
    Err [Txt "wasi.preopens host "; Txt (wp_host p);
         Txt " maps a sensitive system path; set `unsafe_host = true` in this preopen to opt in"]
  else if wp_writable p && is_sensitive_host_path (wp_host p) then
    Err [Txt "wasi.preopens host "; Txt (wp_host p); Txt " is a sensitive system path and must not be writable"]
  else if decide (wp_guest p = "") then Err [Txt "wasi.preopens guest must not be empty"]
  else if has_dotdot (wp_guest p) then
    Err [Txt "wasi.preopens guest "; Dbg (wp_guest p); Txt " contains '..' segment; pick a clean root-relative path"]
  else Ok ().

Definition validate_wasi_env (kv : string) : result message () :=
  if str_contains "=" kv then Ok ()
  else Err [Txt "wasi.env entry "; Dbg kv; Txt " missing '=' (expected KEY=VALUE)"].

Definition validate_wasm (s : WasmProviderSpec) : result message () :=
  _ ← validate_kind (ws_kind s);
  if negb (is_absolute (ws_module s)) then Err [Txt "module path "; Txt (ws_module s); Txt " must be absolute"]
  else if (ws_max_memory_bytes s <? 64 * 1024)%Z then
    Err [Txt "max_memory_bytes "; Dec (ws_max_memory_bytes s); Txt " below 64 KiB minimum"]
  else if (1024 * 1024 * 1024 <? ws_max_memory_bytes s)%Z then
    Err [Txt "max_memory_bytes "; Dec (ws_max_memory_bytes s); Txt " above 1 GiB ceiling"]
  else if (ws_fuel_per_call s =? 0)%Z then Err [Txt "fuel_per_call must be > 0"]
  else
  _ ← match ws_module_sha256 s with Some h => validate_sha256_hex h "module_sha256" | None => Ok () end;
  if match ws_runtime s with Core => negb (wasi_is_empty (ws_wasi s)) | Component => false end then
    Err [Txt "wasi.* options require runtime = "; Dbg "component"; Txt "; the core runtime has no WASI imports"]
  else
  _ ← try_map validate_preopen (wa_preopens (ws_wasi s));
  _ ← try_map validate_wasi_env (wa_env (ws_wasi s));
  Ok ().
