(* ===== verification/Plugin.v ===== *)
(** * Dynamic providers (crates/iac-providers/src/plugin/provider.rs, plugin/runtime.rs, shellout/provider.rs, iac-core/src/convert.rs)

    The provider built on a plugin's methods, with the fallbacks for those a
    plugin does not have, and the runtime of shell commands. Running a command
    is a parameter. *)

From S2P Require Import Prelude Text Json ApiError Routing Db AuditLog Ids Diff Template Executor Chars PluginSpec.

#[local] Open Scope string_scope.
#[local] Open Scope list_scope.
#[local] Open Scope nat_scope.

#[export] Instance Json_eq_dec : EqDecision Json.
Proof.
  unfold EqDecision, Decision. fix go 1. intros [|b|n|s|xs|m] [|b'|n'|s'|xs'|m']; try (right; discriminate).
  - by left.
  - destruct (decide (b = b')) as [->|]; [by left|right; congruence].
  - destruct (decide (n = n')) as [->|]; [by left|right; congruence].
  - destruct (decide (s = s')) as [->|]; [by left|right; congruence].
  - assert ({xs = xs'} + {xs ≠ xs'}) as [->|]; [|by left|right; congruence].
    revert xs'. induction xs as [|x xs IH]; intros [|x' xs']; try (by left); try (right; discriminate).
    destruct (go x x') as [->|]; [|right; congruence]. destruct (IH xs') as [->|]; [by left|right; congruence].
  - assert ({m = m'} + {m ≠ m'}) as [->|]; [|by left|right; congruence].
    revert m'. induction m as [|[k x] m IH]; intros [|[k' x'] m']; try (by left); try (right; discriminate).
    destruct (decide (k = k')) as [->|]; [|right; congruence]. destruct (go x x') as [->|]; [|right; congruence].
    destruct (IH m') as [->|]; [by left|right; congruence].
Defined.

(** ** Conversions *)

Definition json_strings (m : list (string * string)) : Json :=
  JObject (foldl (λ acc kv, assoc_insert kv.1 (JString kv.2) acc) [] m).

Definition resource_metadata_to_json (r : Resource) : Json :=
  JObject [("annotations", json_strings (md_annotations (r_metadata r)));
           ("environment", JString (md_environment (r_metadata r)));
           ("labels", json_strings (md_labels (r_metadata r)));
           ("name", JString (md_name (r_metadata r)))].

Definition collect_top_level_changes (want have : Json) : list FieldChange :=
  match want, have with
  | JObject w, JObject h =>
      omap (λ kv, if decide (assoc_get kv.1 h = Some kv.2) then None
                  else Some (mkChange ("spec." +:+ kv.1) (assoc_get kv.1 h) (Some kv.2) false)) w ++
      omap (λ kv, match assoc_get kv.1 w with
                  | Some _ => None
                  | None => Some (mkChange ("spec." +:+ kv.1) (Some kv.2) None false)
                  end) h
  | _, _ => []
  end.

(** serde's reading of a struct whose fields all have defaults: an object, or
    an array of the first fields. *)
Definition struct_fields (names : list string) (v : Json) : option (list (option Json)) :=
  match v with
  | JObject m => Some (map (λ n, assoc_get n m) names)
  | JArray xs => if length xs <=? length names then Some (map Some xs ++ replicate (length names - length xs) None) else None
  | _ => None
  end.

Definition default_bool (v : option Json) : option bool :=
  match v with None => Some false | Some (JBool b) => Some b | Some _ => None end.
Definition default_string (v : option Json) : option string :=
  match v with None => Some "" | Some (JString s) => Some s | Some _ => None end.

Record ObserveResp := mkObserveResp { rsp_present : bool; rsp_spec : Json }.
Record ApplyResp := mkApplyResp { rsp_status : string; rsp_message : string }.

Definition observe_resp_of (v : Json) : option ObserveResp :=
  match struct_fields ["present"; "spec"] v with
  | Some [p; s] => b ← default_bool p; Some (mkObserveResp b (default JNull s))
  | _ => None
  end.
Definition apply_resp_of (v : Json) : option ApplyResp :=
  match struct_fields ["status"; "message"] v with
  | Some [s; m] => st ← default_string s; msg ← default_string m; Some (mkApplyResp st msg)
  | _ => None
  end.
Definition strings_of (v : Json) : option (list string) :=
  match v with JArray xs => mapM as_str xs | _ => None end.

(** ** The plugin interface *)

Inductive CapabilityKeysStrategy := Templates (templates : list string) | PluginKeys.

(** [V] is the part of the host the plugin sees; a call may change it. *)
Record PluginRuntime (V : Type) := mkRuntime {
  rt_kind : string;
  rt_call : string → Json → V → CoreResult Json * V;
  rt_supports : string → V → bool;
  rt_keys : V → CapabilityKeysStrategy
}.
Arguments mkRuntime {V}.
Arguments rt_kind {V}.
Arguments rt_call {V}.
Arguments rt_supports {V}.
Arguments rt_keys {V}.

Definition ACTION_CREATE := "plugin-create".
Definition ACTION_UPDATE := "plugin-update".
Definition ACTION_DELETE := "plugin-delete".

Definition phase_of_action (action : string) : option string :=
  if decide (action = ACTION_CREATE) then Some "create"
  else if decide (action = ACTION_UPDATE) then Some "update"
  else if decide (action = ACTION_DELETE) then Some "delete"
  else None.

Definition spec_state_field (spec : Json) : option string :=
  v ← json_get spec "state"; as_str v.

(** [Display] of a template's error. *)
Definition template_error_text (e : TemplateError) : message :=
  match e with
  | Unterminated => [Txt "unterminated `{{` in template"]
  | MissingKey k => [Txt "template variable {{ "; Txt k; Txt " }} not found"]
  | NotScalar k => [Txt "template variable {{ "; Txt k; Txt " }} is array/object; only scalar substitution is supported"]
  end.

(** The words that mark an error of the transport. *)
Definition TRANSPORT_WORDS : list string := ["EOF"; "read:"; "write:"; "not running"; "timed out"; "deadline"; "ndjson line exceeded"].

Section Provider.
Context `{ExecEnv, DebugText}.
(** serde's error for a reply, its reading of a diff, and the clock. *)
Context (decode_error : string → Json → string) (diff_of_value : Json → result string Diff).
Context {V : Type} (stamp : V → string) (rt : PluginRuntime V).

Definition provider_error (m : message) : CoreError := EProvider (rt_kind rt) m.

Definition envelope (r : Resource) : Json :=
  JObject [("kind", JString (rt_kind rt)); ("metadata", resource_metadata_to_json r); ("spec", r_spec r)].

Definition decode {A} (method : string) (read : Json → option A) (raw : Json) : CoreResult A :=
  ok_or (read raw) (provider_error [Txt "decode "; Txt method; Txt ": "; Ext (decode_error method raw)]).

Definition observe_inner (r : Resource) (v : V) : CoreResult ObserveResp * V :=
  let '(raw, v) := rt_call rt "observe" (envelope r) v in
  (raw ← raw; decode "observe" observe_resp_of raw, v).

Definition plugin_observe (r : Resource) (v : V) : CoreResult ObservedState :=
  resp ← (observe_inner r v).1;
  Ok (if rsp_present resp then mkObserved true (rsp_spec resp) [] (stamp v) else mkObserved false JNull [] (stamp v)).

(** The built-in comparison. *)
Definition fallback_diff (r : Resource) (o : ObservedState) : Diff :=
  let desired_absent := bool_decide (spec_state_field (r_spec r) = Some "absent") in
  match obs_present o, desired_absent with
  | false, true => no_change
  | false, false => mkDiff Create [] ["resource absent on host"] true
  | true, true => mkDiff Delete [] ["state=absent and resource present"] true
  | true, false =>
      if decide (r_spec r = obs_spec o) then no_change
      else mkDiff Update (collect_top_level_changes (r_spec r) (obs_spec o)) ["spec differs from observed"] true
  end.

Definition plugin_diff (r : Resource) (o : ObservedState) (v : V) : CoreResult Diff :=
  if rt_supports rt "diff" v then
    raw ← (rt_call rt "diff"
             (JObject [("desired_spec", r_spec r); ("metadata", resource_metadata_to_json r);
                       ("observed", JObject [("present", JBool (obs_present o)); ("spec", obs_spec o)])]) v).1;
    map_err (λ e, provider_error [Txt "decode diff: "; Ext e]) (diff_of_value raw)
  else Ok (fallback_diff r o).

Definition plugin_plan (r : Resource) (d : Diff) (n : nat) : CoreResult (list Step) * nat :=
  match diff_kind d with
  | NoChange => (Ok [], n)
  | k =>
      let action := match k with Create => ACTION_CREATE | Update => ACTION_UPDATE | _ => ACTION_DELETE end in
      (Ok [step_new (ulid_at n) action (action +:+ " via " +:+ rt_kind rt) JNull], S n)
  end.

Definition plugin_pre_apply (r : Resource) (s : Step) (ctx : ApplyContext) (vw : V * ()) : CoreResult Json * (V * ()) :=
  let '(v, w) := vw in
  if rt_supports rt "pre_apply" v then
    let '(raw, v) := rt_call rt "pre_apply" (envelope r) v in (raw, (v, w))
  else
    let '(prior, v) := observe_inner r v in
    (prior ← prior; Ok (JObject [("prior_present", JBool (rsp_present prior)); ("prior_spec", rsp_spec prior)]), (v, w)).

Definition apply_params (r : Resource) (spec : Json) (phase : string) : Json :=
  JObject [("kind", JString (rt_kind rt)); ("metadata", resource_metadata_to_json r); ("phase", JString phase); ("spec", spec)].

Definition message_or (message fallback : string) : string := if decide (message = "") then fallback else message.

Definition plugin_apply (r : Resource) (s : Step) (ctx : ApplyContext) (vw : V * ()) : CoreResult StepResult * (V * ()) :=
  let '(v, w) := vw in
  match phase_of_action (st_action s) with
  | None => (Err (provider_error [Txt "unknown step action "; Dbg (st_action s)]), (v, w))
  | Some phase =>
      let '(raw, v) := rt_call rt "apply" (apply_params r (r_spec r) phase) v in
      (raw ← raw;
       resp ← decode "apply" apply_resp_of raw;
       let via := phase +:+ " via " +:+ rt_kind rt in
       if decide (rsp_status resp = "ok") then Ok (step_result_ok [Txt (message_or (rsp_message resp) via)])
       else Ok (step_result_failed [Txt (message_or (rsp_message resp) (via +:+ " reported failure"))]), (v, w))
  end.

Definition plugin_verify (r : Resource) (v : V) : CoreResult VerifyOutcome :=
  if rt_supports rt "verify" v then
    raw ← (rt_call rt "verify" (envelope r) v).1;
    resp ← decode "verify" observe_resp_of raw;
    Ok (if rsp_present resp && bool_decide (r_spec r = rsp_spec resp) then VMatch else VMismatch [])
  else
    observed ← plugin_observe r v;
    d ← plugin_diff r observed v;
    Ok (match diff_kind d with NoChange => VMatch | _ => VMismatch (diff_changes d) end).

Definition as_bool (v : Json) : option bool := match v with JBool b => Some b | _ => None end.

Definition plugin_rollback (r : Resource) (cp : Checkpoint) (vw : V * ()) : CoreResult () * (V * ()) :=
  let '(v, w) := vw in
  if rt_supports rt "rollback" v then
    let '(raw, v) := rt_call rt "rollback"
      (JObject [("checkpoint", cp_data cp); ("kind", JString (rt_kind rt)); ("metadata", resource_metadata_to_json r)]) v in
    (_ ← raw; Ok (), (v, w))
  else
    let prior_present := default false (json_get (cp_data cp) "prior_present" ≫= as_bool) in
    let prior_spec := default JNull (json_get (cp_data cp) "prior_spec") in
    let phase := if prior_present then "update" else "delete" in
    let '(raw, v) := rt_call rt "apply" (apply_params r prior_spec phase) v in
    (raw ← raw;
     resp ← decode "rollback-apply" apply_resp_of raw;
     if decide (rsp_status resp = "ok") then Ok ()
     else Err (provider_error [Txt "rollback failed: "; Txt (message_or (rsp_message resp) "no message")]), (v, w)).

(** Template rendering always returns; [None] stands for that case. *)
Definition plugin_capability_keys (r : Resource) (v : V) : CoreResult (list string) :=
  match rt_keys rt v with
  | Templates templates =>
      try_map (λ tmpl, match render_yaml_top_scalars tmpl (r_spec r) with
                       | Some (Ok s) => Ok s
                       | Some (Err e) => Err (provider_error ([Txt "capability_keys["; Dbg tmpl; Txt "]: "] ++ template_error_text e))
                       | None => Err (provider_error [])
                       end) templates
  | PluginKeys =>
      match (rt_call rt "capability_keys" (envelope r) v).1 with
      | Ok raw => decode "capability_keys" strings_of raw
      | Err e =>
          if existsb (λ w, str_contains w (msg_text (core_error_text e))) TRANSPORT_WORDS then Err e else Ok []
      end
  end.

(** The provider, over a view of the host that its key derivation sees. *)
Definition plugin_provider (seen : V) : Provider V () := {|
  p_observe := plugin_observe;
  p_diff r o := plugin_diff r o seen;
  p_plan := plugin_plan;
  p_pre_apply := plugin_pre_apply;
  p_apply := plugin_apply;
  p_verify := plugin_verify;
  p_rollback := plugin_rollback;
  p_capability_keys r := plugin_capability_keys r seen
|}.

End Provider.

(** ** Shell commands *)

(** What became of a child process. *)
Inductive ChildRun :=
| ChildExit (success : bool) (code stdout stderr : string)
| ChildTimeout (elapsed_secs : Z)
| ChildSpawn (e : string)
| ChildWait (e : string).

Section ShellOut.
Context `{JsonCodec}.
(** [run_with_timeout]: program and arguments, environment, input, timeout. *)
Context {V : Type} (run_child : list string → list (string * string) → string → Z → V → ChildRun * V).

Definition env_pairs (env : list string) : list (string * string) := omap (split_once "=") env.

Definition shell_run (spec : ShellOutSpec) (cmd_str stdin : string) (v : V) : CoreResult string * V :=
  let error m := Err (EProvider (so_kind spec) m) in
  let argv := split_argv cmd_str in
  match argv with
  | [] => (error [Txt "empty command"], v)
  | _ =>
      let words := Txt (str_join " " argv) in
      let '(outcome, v) := run_child argv (env_pairs (so_env spec)) stdin (so_timeout_secs spec) v in
      (match outcome with
       | ChildExit true _ stdout _ => Ok stdout
       | ChildExit false code _ stderr => error [words; Txt " exit="; Txt code; Txt " stderr="; Ext (from_utf8_lossy stderr)]
       | ChildTimeout secs => error [words; Txt " timed out after "; Dec secs; Txt "s"]
       | ChildSpawn e => error [Txt "spawn "; words; Txt ": "; Ext e]
       | ChildWait e => error [Txt "wait: "; Ext e]
       end, v)
  end.

Definition cmd_for (spec : ShellOutSpec) (method : string) : option string :=
  if decide (method = "observe") then Some (so_observe spec)
  else if decide (method = "apply") then Some (so_apply spec)
  else if decide (method = "verify") then so_verify spec
  else if decide (method = "rollback") then so_rollback spec
  else None.

Definition shell_call (spec : ShellOutSpec) (method : string) (params : Json) (v : V) : CoreResult Json * V :=
  match cmd_for spec method with
  | None => (Err (EProvider (so_kind spec) [Txt "shellout does not implement method "; Dbg method]), v)
  | Some cmd =>
      let '(stdout, v) := shell_run spec cmd (json_to_string params) v in
      (stdout ← stdout;
       if decide (stdout = "") then Ok JNull
       else map_err (λ e, EProvider (so_kind spec) [Txt "decode "; Txt method; Txt ": "; Ext e; Txt ": "; Dbg (from_utf8_lossy stdout)]) (json_from_str stdout), v)
  end.

Definition shell_supports (spec : ShellOutSpec) (method : string) : bool :=
  bool_decide (method = "observe") || bool_decide (method = "apply")
  || (bool_decide (method = "verify") && bool_decide (is_Some (so_verify spec)))
  || (bool_decide (method = "rollback") && bool_decide (is_Some (so_rollback spec))).

Definition shell_runtime (spec : ShellOutSpec) : PluginRuntime V :=
  mkRuntime (so_kind spec) (shell_call spec) (λ m _, shell_supports spec m) (λ _, Templates (so_capability_keys spec)).

End ShellOut.
