(* ===== verification/RateLimit.v ===== *)
(** * Rate limiting (crates/iac-controlplane/src/rate_limit.rs)

    The sliding-window limiter: its caps, the history of each bucket, the
    check that records, the batch over several policies, and the entry points
    of the handlers. An [Instant] is its number of nanoseconds; the mutex
    makes each call one step. *)

From S2P Require Import Prelude Text ApiError.

#[local] Open Scope string_scope.
#[local] Open Scope list_scope.
#[local] Open Scope Z_scope.

Record RateLimitConfig := mkRateConfig {
  operations_per_minute : option Z;
  agent_requests_per_minute : option Z;
  login_per_minute_per_user : option Z;
  login_per_minute_per_ip : option Z;
  register_per_minute_per_ip : option Z
}.

(** [RateLimitConfig::default()], the derived one, and what serde fills in
    for a section without these fields. *)
Definition rate_config_default : RateLimitConfig := mkRateConfig None None None None None.
Definition rate_config_serde_default : RateLimitConfig := mkRateConfig None None (Some 10) (Some 30) (Some 20).

Record RateLimiter := mkLimiter {
  max_per_minute : Z;
  agent_max_per_minute : Z;
  login_user_max_per_minute : Z;
  login_ip_max_per_minute : Z;
  register_ip_max_per_minute : Z;
  rl_state : gmap string (list Z);
  rl_checks_total : Z;
  rl_rejected_total : Z
}.

Definition norm (o : option Z) : Z := match o with Some n => if 0 <? n then n else 0 | None => 0 end.

Definition from_config (cfg : RateLimitConfig) : RateLimiter :=
  mkLimiter (norm (operations_per_minute cfg)) (norm (agent_requests_per_minute cfg))
    (norm (login_per_minute_per_user cfg)) (norm (login_per_minute_per_ip cfg))
    (norm (register_per_minute_per_ip cfg)) ∅ 0 0.

Definition apply_config (cfg : RateLimitConfig) (l : RateLimiter) : RateLimiter :=
  mkLimiter (norm (operations_per_minute cfg)) (norm (agent_requests_per_minute cfg))
    (norm (login_per_minute_per_user cfg)) (norm (login_per_minute_per_ip cfg))
    (norm (register_per_minute_per_ip cfg)) (rl_state l) (rl_checks_total l) (rl_rejected_total l).

Definition with_state (s : gmap string (list Z)) (l : RateLimiter) : RateLimiter :=
  mkLimiter (max_per_minute l) (agent_max_per_minute l) (login_user_max_per_minute l)
    (login_ip_max_per_minute l) (register_ip_max_per_minute l) s (rl_checks_total l) (rl_rejected_total l).
(** [fetch_add] wraps. *)
Definition count_check (l : RateLimiter) : RateLimiter :=
  mkLimiter (max_per_minute l) (agent_max_per_minute l) (login_user_max_per_minute l)
    (login_ip_max_per_minute l) (register_ip_max_per_minute l) (rl_state l)
    (wrap_unsigned 64 (rl_checks_total l + 1)) (rl_rejected_total l).
Definition count_rejected (l : RateLimiter) : RateLimiter :=
  mkLimiter (max_per_minute l) (agent_max_per_minute l) (login_user_max_per_minute l)
    (login_ip_max_per_minute l) (register_ip_max_per_minute l) (rl_state l)
    (rl_checks_total l) (wrap_unsigned 64 (rl_rejected_total l + 1)).

Record RateLimitMetricsSnapshot := mkRateSnapshot { rs_checks : Z; rs_rejected : Z; rs_admitted : Z }.

Definition metrics (l : RateLimiter) : RateLimitMetricsSnapshot :=
  mkRateSnapshot (rl_checks_total l) (rl_rejected_total l) (u64_sat_sub (rl_checks_total l) (rl_rejected_total l)).

(** ** One bucket *)

Definition NANOS : Z := 1000000000.
Definition WINDOW : Z := 60 * NANOS.

Definition bucket_key (b : RateLimitBucket) : string := bucket_type b +:+ ":" +:+ bucket_name b.

Section Limiter.
(** The earliest instant the platform can represent. *)
Context (instant_min : Z).

(** [now.checked_sub(Duration::from_secs(60))]. *)
Definition cutoff_of (now : Z) : option Z := if instant_min <=? now - WINDOW then Some (now - WINDOW) else None.

(** [while let Some(&t) = q.front() { if t < cutoff { q.pop_front(); } else { break; } }]. *)
Fixpoint pop_old (cutoff : Z) (q : list Z) : list Z :=
  match q with
  | t :: rest => if t <? cutoff then pop_old cutoff rest else q
  | [] => []
  end.

Definition expire (now : Z) (q : list Z) : list Z :=
  match cutoff_of now with Some cutoff => pop_old cutoff q | None => q end.

(** [duration_since] saturates at zero, [as_secs] rounds down. *)
Definition secs_since (now t : Z) : Z := Z.max 0 (now - t) `div` NANOS.

Definition retry_secs (now : Z) (q : list Z) : Z :=
  Z.max 1 (match q with t :: _ => u64_sat_sub 60 (secs_since now t) | [] => 60 end).

Definition check_and_record_keyed_at (bucket : RateLimitBucket) (max now : Z) (l : RateLimiter)
    : ApiResult () * RateLimiter :=
  let l := count_check l in
  let key := bucket_key bucket in
  let q := expire now (default [] (rl_state l !! key)) in
  if max <=? Z.of_nat (length q) then
    (Err (TooManyRequests bucket (retry_secs now q)), count_rejected (with_state (<[key := q]> (rl_state l)) l))
  else (Ok (), with_state (<[key := q ++ [now]]> (rl_state l)) l).

(** ** The entry points; each reads the clock once per bucket. *)

Definition check_and_record_login (username client_ip : string) (now now' : Z) (l : RateLimiter)
    : ApiResult () * RateLimiter :=
  let user_max := login_user_max_per_minute l in
  let '(r, l) := if 0 <? user_max then check_and_record_keyed_at (bucket_login_user username) user_max now l
                 else (Ok (), l) in
  match r with
  | Err e => (Err e, l)
  | Ok _ =>
      let ip_max := login_ip_max_per_minute l in
      if 0 <? ip_max then check_and_record_keyed_at (bucket_client client_ip) ip_max now' l else (Ok (), l)
  end.

Definition check_and_record_register (client_ip : string) (now : Z) (l : RateLimiter) : ApiResult () * RateLimiter :=
  let max := register_ip_max_per_minute l in
  if max =? 0 then (Ok (), l)
  else
    let key := if is_blank client_ip then "unknown" else client_ip in
    check_and_record_keyed_at (bucket_register_ip key) max now l.

Definition check_and_record (environment : string) (now : Z) (l : RateLimiter) : ApiResult () * RateLimiter :=
  let max := max_per_minute l in
  if max =? 0 then (Ok (), l) else check_and_record_keyed_at (bucket_env environment) max now l.

Definition check_and_record_agent (agent_id : string) (now : Z) (l : RateLimiter) : ApiResult () * RateLimiter :=
  let max := agent_max_per_minute l in
  if max =? 0 then (Ok (), l) else check_and_record_keyed_at (bucket_agent agent_id) max now l.

Definition check_and_record_policy (policy_name : string) (max now : Z) (l : RateLimiter) : ApiResult () * RateLimiter :=
  if max =? 0 then (Ok (), l) else check_and_record_keyed_at (bucket_policy policy_name) max now l.

(** Phase 1 of the batch: every bucket is checked, none is charged. *)
Fixpoint policies_check (now : Z) (active : list (RateLimitBucket * Z)) (l : RateLimiter) : ApiResult () * RateLimiter :=
  match active with
  | [] => (Ok (), l)
  | (bucket, max) :: active =>
      let l := count_check l in
      let key := bucket_key bucket in
      let q := expire now (default [] (rl_state l !! key)) in
      let l := with_state (<[key := q]> (rl_state l)) l in
      if max <=? Z.of_nat (length q) then
        (Err (TooManyRequests bucket (retry_secs now q)), count_rejected l)
      else policies_check now active l
  end.

(** Phase 2: every bucket is charged. *)
Definition policies_commit (now : Z) (active : list (RateLimitBucket * Z)) (s : gmap string (list Z))
    : gmap string (list Z) :=
  foldl (λ s '(bucket, _), let key := bucket_key bucket in <[key := default [] (s !! key) ++ [now]]> s) s active.

Definition check_and_record_policies (policies : list (string * Z)) (now : Z) (l : RateLimiter)
    : ApiResult () * RateLimiter :=
  let active := map (λ '(name, cap), (bucket_policy name, cap)) (List.filter (λ '(_, cap), 0 <? cap) policies) in
  match active with
  | [] => (Ok (), l)
  | _ =>
      let '(r, l) := policies_check now active l in
      match r with
      | Err e => (Err e, l)
      | Ok _ => (Ok (), with_state (policies_commit now active (rl_state l)) l)
      end
  end.

End Limiter.

(** ** Rate limiting: the window, the batch and the advice to retry

    That a bucket never admits more than its cap within a window, that a
    rejected batch charges nobody, and that the advice to retry is honest. *)

Section Limiter.
Context (instant_min : Z).
Abbreviation live := (expire instant_min).

(** ** Expiry *)

Lemma pop_old_split c q : ∃ old, q = old ++ pop_old c q ∧ Forall (λ t, t < c) old.
Proof.
  induction q as [|t q (old & Hq & Ho)]; cbn; [by exists []|]. destruct (Z.ltb_spec t c).
  - exists (t :: old). cbn. split; [by f_equal|by constructor].
  - by exists [].
Qed.

Lemma pop_old_pop_old c c' q : c ≤ c' → pop_old c' (pop_old c q) = pop_old c' q.
Proof.
  intros Hc. induction q as [|t q IH]; [done|]. cbn. destruct (Z.ltb_spec t c); [|done].
  destruct (Z.ltb_spec t c'); [done|lia].
Qed.

Lemma expire_split now q : ∃ old, q = old ++ live now q ∧ Forall (λ t, t < now - WINDOW) old.
Proof.
  unfold expire, cutoff_of. destruct (Z.leb_spec instant_min (now - WINDOW)); [apply pop_old_split|by exists []].
Qed.

(** Expiring earlier changes nothing for a later reader. *)
Lemma expire_expire now now' q : now ≤ now' → live now' (live now q) = live now' q.
Proof.
  intros Hn. unfold expire, cutoff_of. destruct (Z.leb_spec instant_min (now - WINDOW)) as [H|H]; [|done].
  rewrite (proj2 (Z.leb_le _ (now' - WINDOW))) by lia. apply pop_old_pop_old. lia.
Qed.

Lemma pop_old_app c q x : pop_old c (q ++ [x]) = match pop_old c q with [] => pop_old c [x] | q' => q' ++ [x] end.
Proof. induction q as [|t q IH]; [by cbn; case_match|]. cbn [app pop_old]. by destruct (t <? c). Qed.

Definition queue (l : RateLimiter) (k : string) : list Z := default [] (rl_state l !! k).

(** What a later reader sees of two limiters is the same. *)
Definition same_from (now : Z) (l l' : RateLimiter) : Prop :=
  ∀ k now', now ≤ now' → live now' (queue l' k) = live now' (queue l k).

Lemma same_from_refl now l : same_from now l l.
Proof. done. Qed.

Lemma same_from_trans now l1 l2 l3 : same_from now l1 l2 → same_from now l2 l3 → same_from now l1 l3.
Proof. intros H1 H2 k now' Hn. by rewrite H2, H1. Qed.

Lemma queue_insert l s k q k' : queue (with_state (<[k := q]> s) l) k' = if decide (k' = k) then q else default [] (s !! k').
Proof. unfold queue. cbn. case_decide as Hk; [subst; by rewrite lookup_insert_eq|by rewrite lookup_insert_ne by congruence]. Qed.

Lemma same_from_expire now k l :
  same_from now l (with_state (<[k := live now (queue l k)]> (rl_state l)) l).
Proof.
  intros k' now' Hn. rewrite queue_insert. case_decide as Hk; [|done]. subst. by apply expire_expire.
Qed.

(** The verdict on one bucket. *)
Definition verdict (b : RateLimitBucket) (max now : Z) (q : list Z) : ApiResult () :=
  if max <=? Z.of_nat (length q) then Err (TooManyRequests b (retry_secs now q)) else Ok ().

Lemma keyed_verdict b max now l :
  (check_and_record_keyed_at instant_min b max now l).1 = verdict b max now (live now (queue l (bucket_key b))).
Proof. unfold check_and_record_keyed_at, verdict, queue. cbn. by case_match. Qed.

Lemma keyed_queue b max now l k :
  queue (check_and_record_keyed_at instant_min b max now l).2 k =
  if decide (k = bucket_key b) then
    live now (queue l k) ++ (if is_ok (verdict b max now (live now (queue l k))) then [now] else [])
  else queue l k.
Proof.
  unfold check_and_record_keyed_at, verdict. cbn. fold (queue l (bucket_key b)).
  destruct (max <=? Z.of_nat (length (live now (queue l (bucket_key b))))) eqn:E; cbn;
    unfold queue; cbn; (case_decide as Hk; [subst; rewrite lookup_insert_eq|by rewrite lookup_insert_ne by congruence]);
    fold (queue l (bucket_key b)); cbn; rewrite E; [by rewrite app_nil_r|done].
Qed.

(** ** The batch *)

Abbreviation active_bucket := (RateLimitBucket * Z)%type.

Definition within_cap (now : Z) (l : RateLimiter) (a : active_bucket) : Prop :=
  Z.of_nat (length (live now (queue l (bucket_key a.1)))) < a.2.

Lemma policies_check_spec now active l :
  let '(r, l') := policies_check instant_min now active l in
  same_from now l l' ∧
  (∀ k, queue l' k = queue l k ∨ queue l' k = live now (queue l k)) ∧
  match r with
  | Ok _ => Forall (within_cap now l) active ∧
            ∀ k, k ∈ map (λ a, bucket_key a.1) active → queue l' k = live now (queue l k)
  | Err e => ∃ a, a ∈ active ∧ ¬ within_cap now l a ∧
               e = TooManyRequests a.1 (retry_secs now (live now (queue l (bucket_key a.1))))
  end.
Proof.
  revert l. induction active as [|[b max] active IH]; intros l; cbn [policies_check].
  { split_and!; [done|by left|constructor|]. intros k Hk. by apply elem_of_nil in Hk. }
  fold (queue (count_check l) (bucket_key b)). change (queue (count_check l) (bucket_key b)) with (queue l (bucket_key b)).
  set (q := live now (queue l (bucket_key b))). set (l1 := with_state _ _).
  assert (same_from now l l1) as Hs by apply (same_from_expire now (bucket_key b) (count_check l)).
  assert (∀ k, queue l1 k = if decide (k = bucket_key b) then q else queue l k) as Hq1 by (intros k; apply queue_insert).
  destruct (Z.leb_spec max (Z.of_nat (length q))) as [Hfull|Hroom].
  - split_and!; [exact Hs| |].
    + intros k. change (queue (count_rejected l1) k) with (queue l1 k). rewrite Hq1.
      case_decide as Hk; [subst; by right|by left].
    + exists (b, max). split_and!; [left| |done]. unfold within_cap. cbn. fold q. lia.
  - specialize (IH l1). destruct (policies_check instant_min now active l1) as [r l2].
    destruct IH as (Hs2 & Hq2 & Hr). split_and!; [by eapply same_from_trans| |].
    + intros k. destruct (Hq2 k) as [->| ->]; rewrite Hq1; case_decide as Hk; subst; eauto.
      right. unfold q. rewrite expire_expire by lia. done.
    + assert (∀ a, within_cap now l1 a ↔ within_cap now l a) as Hw.
      { intros a. unfold within_cap. by rewrite (Hs (bucket_key a.1) now) by lia. }
      destruct r as [[]|e].
      * destruct Hr as [Hall Hkeys]. split.
        -- constructor; [by unfold within_cap; cbn; fold q|]. eapply Forall_impl; [exact Hall|]. intros a. by apply Hw.
        -- cbn [map fst]. intros k [->|Hk]%elem_of_cons.
           ++ destruct (Hq2 (bucket_key b)) as [->| ->]; rewrite Hq1, decide_True by done; [done|].
              unfold q. by rewrite expire_expire by lia.
           ++ rewrite (Hkeys k Hk). by rewrite (Hs k now) by lia.
      * destruct Hr as (a & Ha & Hn & ->). exists a. split_and!; [by right|by rewrite <- Hw|].
        by rewrite (Hs (bucket_key a.1) now) by lia.
Qed.

Lemma policies_commit_spec now active s k :
  default [] (policies_commit now active s !! k) =
  default [] (s !! k) ++ replicate (length (List.filter (λ a, bool_decide (bucket_key a.1 = k)) active)) now.
Proof.
  revert s. induction active as [|[b max] active IH]; intros s; cbn; [by rewrite app_nil_r|].
  unfold policies_commit in IH. rewrite IH. case_bool_decide as Hk; cbn.
  - subst. rewrite lookup_insert_eq. cbn. by rewrite <- app_assoc.
  - by rewrite lookup_insert_ne by done.
Qed.


(** ** All or nothing *)

Definition active_of (policies : list (string * Z)) : list (RateLimitBucket * Z) :=
  map (λ '(name, cap), (bucket_policy name, cap)) (List.filter (λ '(_, cap), 0 <? cap) policies).

(** How often a bucket occurs in a batch. *)
Definition times (k : string) (active : list (RateLimitBucket * Z)) : nat :=
  length (List.filter (λ a, bool_decide (bucket_key a.1 = k)) active).

Lemma queue_commit now active l k :
  queue (with_state (policies_commit now active (rl_state l)) l) k = queue l k ++ replicate (times k active) now.
Proof. apply policies_commit_spec. Qed.

Lemma times_pos k active : (0 < times k active)%nat → k ∈ map (λ a, bucket_key a.1) active.
Proof.
  unfold times. intros H. destruct (List.filter _ active) as [|a f] eqn:E; [cbn in H; lia|].
  assert (a ∈ List.filter (λ a, bool_decide (bucket_key a.1 = k)) active) as Ha by (rewrite E; left).
  apply list_elem_of_In, filter_In in Ha as [Ha Hk]. apply bool_decide_eq_true in Hk. subst.
  apply list_elem_of_In. by apply (in_map (λ a, bucket_key a.1)).
Qed.

(** What a batch does to every bucket. *)
Lemma batch_spec policies now l :
  let '(r, l') := check_and_record_policies instant_min policies now l in
  match r with
  | Ok _ => Forall (within_cap now l) (active_of policies) ∧
            ∀ k, (times k (active_of policies) = 0%nat ∧ (queue l' k = queue l k ∨ queue l' k = live now (queue l k))) ∨
                 ((0 < times k (active_of policies))%nat ∧
                  queue l' k = live now (queue l k) ++ replicate (times k (active_of policies)) now)
  | Err e => same_from now l l' ∧ (∀ k, queue l' k = queue l k ∨ queue l' k = live now (queue l k)) ∧
             ∃ a, a ∈ active_of policies ∧ ¬ within_cap now l a ∧
               e = TooManyRequests a.1 (retry_secs now (live now (queue l (bucket_key a.1))))
  end.
Proof.
  unfold check_and_record_policies. fold (active_of policies).
  destruct (active_of policies) as [|a0 active0] eqn:Ea.
  { split; [constructor|]. intros k. left. split; [done|by left]. }
  rewrite <- Ea. pose proof (policies_check_spec now (active_of policies) l) as H.
  destruct (policies_check instant_min now (active_of policies) l) as [[[]|e] l1]; [|tauto].
  destruct H as (_ & Hq & Hall & Hkeys). split; [done|]. intros k. rewrite queue_commit.
  destruct (times k (active_of policies)) as [|n] eqn:En.
  - left. split; [done|]. by rewrite app_nil_r.
  - right. split; [lia|]. rewrite Hkeys; [done|]. apply times_pos. lia.
Qed.

(** ** The advice to retry *)

Lemma retry_range now q : 1 ≤ retry_secs now q ≤ 60.
Proof.
  unfold retry_secs, u64_sat_sub. destruct q as [|t q]; [lia|].
  assert (0 ≤ secs_since now t) by (apply Z.div_pos; unfold NANOS; lia). lia.
Qed.

(** Waiting longer than the advice lets the oldest entry go; a second less does not. *)
Lemma retry_exact now t q :
  instant_min ≤ t → t ≤ now → (live now (t :: q) = t :: q) →
  (∀ now', now + retry_secs now (t :: q) * NANOS < now' → (length (live now' (t :: q)) ≤ length q)%nat) ∧
  (∀ now', now ≤ now' → now' < now + (retry_secs now (t :: q) - 1) * NANOS → live now' (t :: q) = t :: q).
Proof.
  intros Hmin Hle Hkeep. unfold retry_secs, u64_sat_sub, secs_since. replace (Z.max 0 (now - t)) with (now - t) by lia.
  pose proof (Z.div_mod (now - t) NANOS ltac:(done)) as Hd.
  pose proof (Z.mod_pos_bound (now - t) NANOS ltac:(done)) as Hm.
  set (d := (now - t) `div` NANOS) in *.
  assert (t < now - WINDOW → False) as Hin.
  { unfold expire, cutoff_of in Hkeep. intros Hout. rewrite (proj2 (Z.leb_le _ _)) in Hkeep by lia. cbn in Hkeep.
    rewrite (proj2 (Z.ltb_lt _ _)) in Hkeep by done. destruct (pop_old_split (now - WINDOW) q) as (old & Hq & _).
    apply (f_equal length) in Hq. rewrite Hkeep, length_app in Hq. cbn in Hq. lia. }
  split.
  - intros now' Hn. assert (t < now' - WINDOW) as Hpop by (unfold WINDOW, NANOS in *; lia).
    unfold expire, cutoff_of. rewrite (proj2 (Z.leb_le _ _)) by lia. cbn.
    rewrite (proj2 (Z.ltb_lt _ _)) by done.
    destruct (pop_old_split (now' - WINDOW) q) as (old & Hq & _). rewrite Hq at 2. rewrite length_app. lia.
  - intros now' Hn' Hn. assert (now' - WINDOW ≤ t) as Hk by (unfold WINDOW, NANOS in *; lia).
    unfold expire, cutoff_of. destruct (instant_min <=? now' - WINDOW); [|done]. cbn. by rewrite (proj2 (Z.ltb_ge _ _) Hk).
Qed.

Lemma expire_idem now q : live now (live now q) = live now q.
Proof. by apply expire_expire. Qed.

(** The advice to retry of a rejected check is between 1 and 60 seconds
    and right to the second: when the bucket is exactly at its cap, the same
    check made any time after the advised delay is admitted, and made a full
    second or more before it is rejected again. *)
Theorem retry_advice_honest b max now l e l' :
  check_and_record_keyed_at instant_min b max now l = (Err e, l') →
  0 < max → Z.of_nat (length (queue l (bucket_key b))) ≤ max →
  Forall (λ t, instant_min ≤ t ≤ now) (queue l (bucket_key b)) →
  ∃ secs, e = TooManyRequests b secs ∧ 1 ≤ secs ≤ 60 ∧
    (∀ now', now + secs * NANOS < now' → (check_and_record_keyed_at instant_min b max now' l').1 = Ok ()) ∧
    (∀ now', now ≤ now' → now' < now + (secs - 1) * NANOS →
      ∃ secs', (check_and_record_keyed_at instant_min b max now' l').1 = Err (TooManyRequests b secs')).
Proof.
  intros Hc Hmax Hlen Hts.
  pose proof (keyed_verdict b max now l) as Hv. pose proof (keyed_queue b max now l (bucket_key b)) as Hq.
  rewrite Hc in Hv, Hq. cbn in Hv, Hq. rewrite decide_True in Hq by done. rewrite <- Hv in Hq. cbn in Hq.
  rewrite app_nil_r in Hq. unfold verdict in Hv. destruct (Z.leb_spec max (Z.of_nat (length (live now (queue l (bucket_key b)))))) as [Hfull|]; [|done].
  simplify_eq. exists (retry_secs now (live now (queue l (bucket_key b)))). split; [done|]. split; [apply retry_range|].
  destruct (expire_split now (queue l (bucket_key b))) as (old & Hsplit & _).
  pose proof (expire_idem now (queue l (bucket_key b))) as Hidem.
  destruct (live now (queue l (bucket_key b))) as [|t q] eqn:Eq; [cbn in Hfull; lia|].
  assert (instant_min ≤ t ≤ now) as [Ht1 Ht2].
  { eapply (proj1 (Forall_forall _ _)) in Hts; [exact Hts|]. rewrite Hsplit. set_solver. }
  destruct (retry_exact now t q Ht1 Ht2 Hidem) as [Hgo Hstay].
  rewrite Hsplit, length_app in Hlen. cbn [length] in Hlen.
  split; intros now' Hn; rewrite keyed_verdict, Hq; unfold verdict.
  - specialize (Hgo now' Hn). rewrite (proj2 (Z.leb_gt _ _)) by (cbn [length] in *; lia). done.
  - intros Hn'. rewrite (Hstay now' Hn Hn'), (proj2 (Z.leb_le _ _)) by done. eauto.
Qed.

(** ** The window

    Every entry point is a sequence of critical sections: one bucket checked
    and charged, a batch, or a change of the caps. *)

Inductive event :=
| EvKeyed (b : RateLimitBucket) (max : Z)
| EvPolicies (policies : list (string * Z))
| EvConfig (cfg : RateLimitConfig).

Definition exec (now : Z) (e : event) (l : RateLimiter) : ApiResult () * RateLimiter :=
  match e with
  | EvKeyed b max => check_and_record_keyed_at instant_min b max now l
  | EvPolicies ps => check_and_record_policies instant_min ps now l
  | EvConfig cfg => (Ok (), apply_config cfg l)
  end.

(** How often an event, when it succeeds, charges a bucket. *)
Definition charges (k : string) (e : event) : nat :=
  match e with
  | EvKeyed b _ => if decide (bucket_key b = k) then 1%nat else 0%nat
  | EvPolicies ps => times k (active_of ps)
  | EvConfig _ => 0%nat
  end.

(** The admissions of bucket [k] along a run, and the limiter at its end. *)
Fixpoint admissions (k : string) (run : list (Z * event)) (l : RateLimiter) : list Z * RateLimiter :=
  match run with
  | [] => ([], l)
  | (now, e) :: run =>
      let '(r, l) := exec now e l in
      let '(ts, l) := admissions k run l in
      ((if is_ok r then replicate (charges k e) now else []) ++ ts, l)
  end.

(** The event uses cap at most [m] for [k] and charges it at most once. *)
Definition capped (k : string) (m : nat) (e : event) : Prop :=
  match e with
  | EvKeyed b max => bucket_key b = k → max ≤ Z.of_nat m
  | EvPolicies ps => (times k (active_of ps) ≤ 1)%nat ∧
      Forall (λ a, bucket_key a.1 = k → a.2 ≤ Z.of_nat m) (active_of ps)
  | EvConfig _ => True
  end.

(** One step leaves the queue, expires it, or expires it and appends one
    admission within the cap. *)
Lemma exec_step k m now e l :
  capped k m e →
  let '(r, l') := exec now e l in
  ((if is_ok r then replicate (charges k e) now else []) = [] ∧ (queue l' k = queue l k ∨ queue l' k = live now (queue l k))) ∨
  ((if is_ok r then replicate (charges k e) now else []) = [now] ∧
   (length (live now (queue l k)) < m)%nat ∧ queue l' k = live now (queue l k) ++ [now]).
Proof.
  intros Hcap. destruct e as [b max|ps|cfg]; cbn [exec charges].
  - pose proof (keyed_verdict b max now l) as Hv. pose proof (keyed_queue b max now l k) as Hq.
    destruct (check_and_record_keyed_at instant_min b max now l) as [r l']. cbn in Hv, Hq. subst r.
    destruct (decide (k = bucket_key b)) as [->|Hk].
    + rewrite decide_True by done. unfold verdict in *. rewrite Hq. specialize (Hcap eq_refl). cbn in Hcap.
      destruct (Z.leb_spec max (Z.of_nat (length (live now (queue l (bucket_key b)))))); cbn.
      * left. rewrite app_nil_r. eauto.
      * right. split_and!; [done|lia|done].
    + rewrite decide_False by congruence. left. split; [by destruct (is_ok _)|by left].
  - pose proof (batch_spec ps now l) as H. destruct Hcap as [Honce Hcaps].
    destruct (check_and_record_policies instant_min ps now l) as [[[]|e] l']; cbn [is_ok].
    + destruct H as [Hall Hk]. destruct (Hk k) as [[-> Hq]|[Hpos Hq]]; [by left|]. right.
      assert (times k (active_of ps) = 1%nat) as H1 by lia. apply times_pos in Hpos.
      rewrite H1 in *. split_and!; [done| |done]. apply list_elem_of_fmap in Hpos as (a & -> & Ha).
      rewrite Forall_forall in Hall, Hcaps. specialize (Hall a Ha). specialize (Hcaps a Ha eq_refl).
      unfold within_cap in Hall. lia.
    + left. split; [done|]. destruct H as (_ & Hq & _). apply Hq.
  - left. split; [done|by left].
Qed.

(** Any [m + 1] consecutive admissions span more than the window. *)
Definition spaced (m : nat) (ts : list Z) : Prop :=
  ∀ i t t', ts !! i = Some t → ts !! (i + m)%nat = Some t' → WINDOW < t' - t.

(** The admissions so far are those that left the bucket and those in it. *)
Definition tracked (k : string) (m : nat) (now : Z) (ts : list Z) (l : RateLimiter) : Prop :=
  spaced m ts ∧ ∃ old, ts = old ++ queue l k ∧ Forall (λ t, t < now - WINDOW) old.

Lemma tracked_later k m now now' ts l : now ≤ now' → tracked k m now ts l → tracked k m now' ts l.
Proof.
  intros Hn (Hs & old & -> & Ho). split; [done|]. exists old. split; [done|].
  eapply Forall_impl; [exact Ho|]. cbn. lia.
Qed.

Lemma tracked_expire k m now ts l l' :
  queue l' k = live now (queue l k) → tracked k m now ts l → tracked k m now ts l'.
Proof.
  intros Hq (Hs & old & -> & Ho). split; [done|]. destruct (expire_split now (queue l k)) as (old' & Hsp & Ho').
  exists (old ++ old'). rewrite Hq, <- app_assoc, <- Hsp. split; [done|]. by apply Forall_app.
Qed.

Lemma spaced_snoc m now old q :
  (length q < m)%nat → Forall (λ t, t < now - WINDOW) old → spaced m (old ++ q) → spaced m ((old ++ q) ++ [now]).
Proof.
  intros Hlen Ho Hs i t t' Hi Hi'.
  pose proof (lookup_lt_Some _ _ _ Hi') as Hlt. rewrite !length_app in Hlt. cbn in Hlt.
  destruct (decide (i + m < length (old ++ q))%nat) as [Hb|Hb]; rewrite length_app in Hb.
  - rewrite lookup_app_l in Hi, Hi' by (rewrite length_app; lia). by eapply Hs.
  - rewrite lookup_app_r in Hi' by (rewrite length_app; lia).
    replace (i + m - length (old ++ q))%nat with 0%nat in Hi' by (rewrite length_app; lia). cbn in Hi'. simplify_eq.
    rewrite <- app_assoc, lookup_app_l in Hi by lia.
    eapply Forall_lookup_1 in Ho; [|exact Hi]. cbn in Ho. lia.
Qed.

Lemma tracked_step k m now e ts l :
  capped k m e → tracked k m now ts l →
  let '(r, l') := exec now e l in
  tracked k m now (ts ++ (if is_ok r then replicate (charges k e) now else [])) l'.
Proof.
  intros Hc Ht. pose proof (exec_step k m now e l Hc) as H. destruct (exec now e l) as [r l'].
  destruct H as [[-> [Hq|Hq]]|(-> & Hlen & Hq)].
  - rewrite app_nil_r. destruct Ht as (Hs & old & -> & Ho). split; [done|]. exists old. by rewrite Hq.
  - rewrite app_nil_r. by eapply tracked_expire.
  - assert (tracked k m now ts (with_state (<[k := live now (queue l k)]> (rl_state l)) l)) as (Hs & old & Hts & Ho).
    { eapply tracked_expire; [|exact Ht]. rewrite queue_insert. by rewrite decide_True. }
    rewrite queue_insert, decide_True in Hts by done. subst ts. split.
    + by apply spaced_snoc.
    + exists old. rewrite Hq. split; [by rewrite app_assoc|done].
Qed.

Lemma admissions_tracked k m run : ∀ now ts l,
  StronglySorted Z.le (now :: map fst run) → Forall (λ x, capped k m x.2) run → tracked k m now ts l →
  spaced m (ts ++ (admissions k run l).1).
Proof.
  induction run as [|[now e] run IH]; intros now0 ts l Hsort Hcap Ht; cbn [admissions].
  { rewrite app_nil_r. apply Ht. }
  apply StronglySorted_inv in Hsort as [Hsort Hle]. cbn [map fst] in Hsort, Hle.
  apply Forall_cons in Hle as [Hle _]. apply Forall_cons in Hcap as [Hc Hcap].
  pose proof (tracked_step k m now e ts l Hc (tracked_later _ _ _ _ _ _ Hle Ht)) as Hstep.
  destruct (exec now e l) as [r l1]. specialize (IH now _ l1 Hsort Hcap Hstep).
  destruct (admissions k run l1) as [ts' l2]. cbn in *. by rewrite app_assoc.
Qed.

(** The sliding window holds over any interleaving of checks, batches
    and reloads of the configuration that take the lock in the order of their
    instants: as long as bucket [k] is never checked
    against a cap above [m] nor named twice in one batch, any [m + 1]
    consecutive admissions of it span more than sixty seconds. *)
Theorem rate_window k m run l :
  StronglySorted Z.le (map fst run) → Forall (λ x, capped k m x.2) run → queue l k = [] →
  ∀ i t t', (admissions k run l).1 !! i = Some t → (admissions k run l).1 !! (i + m)%nat = Some t' → 60 * NANOS < t' - t.
Proof.
  intros Hsort Hcap Hq. destruct run as [|[now e] run]; [intros i t t' Hi; by destruct i|].
  apply (admissions_tracked k m ((now, e) :: run) now [] l).
  - constructor; [done|]. cbn [map fst] in *. apply StronglySorted_inv in Hsort as [? ?]. constructor; [lia|done].
  - done.
  - split; [intros i t t' Hi; by destruct i|]. exists []. by rewrite Hq.
Qed.

(** A batch over several policies is all or nothing: it is accepted
    exactly when every limited policy has room, and then each one's live
    history gains the call, once per mention; when one is full, nobody is
    charged: every later verdict on every bucket is what it would have been
    without the call. *)
Theorem policies_all_or_nothing policies now l :
  let '(r, l') := check_and_record_policies instant_min policies now l in
  (is_ok r = true ↔ Forall (within_cap now l) (active_of policies)) ∧
  match r with
  | Ok _ => ∀ k now', now ≤ now' →
      live now' (queue l' k) = live now' (live now (queue l k) ++ replicate (times k (active_of policies)) now)
  | Err e =>
      (∃ b max, (b, max) ∈ active_of policies ∧ ¬ within_cap now l (b, max) ∧
                e = TooManyRequests b (retry_secs now (live now (queue l (bucket_key b))))) ∧
      ∀ b max now', now ≤ now' →
        (check_and_record_keyed_at instant_min b max now' l').1 = (check_and_record_keyed_at instant_min b max now' l).1
  end.
Proof.
  pose proof (batch_spec policies now l) as H.
  destruct (check_and_record_policies instant_min policies now l) as [[[]|e] l']; cbn [is_ok].
  - destruct H as [Hall Hk]. split; [done|]. intros k now' Hn. destruct (Hk k) as [[-> Hq]|[_ ->]]; [|done].
    cbn [replicate]. rewrite app_nil_r, expire_expire by done. destruct Hq as [->| ->]; [done|by apply expire_expire].
  - destruct H as (Hs & _ & [b max] & Ha & Hn & ->). split.
    + split; [done|]. intros Hall. rewrite Forall_forall in Hall. by apply Hall in Ha.
    + split; [eauto|]. intros b' max' now' Hle. rewrite !keyed_verdict. by rewrite (Hs (bucket_key b') now' Hle).
Qed.

(** ** The entry points are such events *)

(** From [l] to [l'] by events at some of these instants. *)
Definition runs (ts : list Z) (l l' : RateLimiter) : Prop :=
  ∃ run, map fst run `sublist_of` ts ∧ ∀ k, (admissions k run l).2 = l'.

Lemma runs_none ts l : runs ts l l.
Proof. exists []. split; [apply sublist_nil_l|done]. Qed.

Lemma runs_one now e ts l : runs (now :: ts) l (exec now e l).2.
Proof.
  exists [(now, e)]. split; [apply sublist_skip, sublist_nil_l|]. intros k. cbn. by destruct (exec now e l).
Qed.

Lemma runs_cons now e ts l l' : runs ts (exec now e l).2 l' → runs (now :: ts) l l'.
Proof.
  intros (run & Hs & Hr). exists ((now, e) :: run). split; [by apply sublist_skip|]. intros k. cbn.
  specialize (Hr k). destruct (exec now e l) as [r l1]. cbn in Hr. by destruct (admissions k run l1).
Qed.

Lemma entry_points_run now now' user ip env agent policy cap l :
  runs [now; now'] l (check_and_record_login instant_min user ip now now' l).2 ∧
  runs [now] l (check_and_record_register instant_min ip now l).2 ∧
  runs [now] l (check_and_record instant_min env now l).2 ∧
  runs [now] l (check_and_record_agent instant_min agent now l).2 ∧
  runs [now] l (check_and_record_policy instant_min policy cap now l).2.
Proof.
  unfold check_and_record_register, check_and_record, check_and_record_agent, check_and_record_policy.
  split_and!; [|case_match; (apply runs_none || apply (runs_one now (EvKeyed _ _)))..].
  unfold check_and_record_login. destruct (0 <? login_user_max_per_minute l).
  - set (b := bucket_login_user user). set (m := login_user_max_per_minute l).
    pose proof (runs_cons now (EvKeyed b m) [now'] l) as Hr. pose proof (runs_one now (EvKeyed b m) [now'] l) as H1.
    cbn [exec] in Hr, H1. destruct (check_and_record_keyed_at instant_min b m now l) as [[[]|e] l1]; [|exact H1].
    apply Hr. cbn. case_match; [apply (runs_one now' (EvKeyed _ _))|apply runs_none].
  - case_match; [|apply runs_none]. set (b := bucket_client ip). set (m := login_ip_max_per_minute l).
    exists [(now', EvKeyed b m)]. split; [apply sublist_cons, sublist_skip, sublist_nil_l|]. intros k. cbn.
    by destruct (check_and_record_keyed_at instant_min b m now' l).
Qed.

End Limiter.

(** ** At concrete inputs *)

Definition demo_limiter : RateLimiter := from_config (mkRateConfig (Some 2) None (Some 10) (Some 30) (Some 20)).
Definition at_s (s : Z) : Z := 1000 * NANOS + s * NANOS.

Lemma rate_window_witness :
  (admissions 0 "env:prod" [(at_s 0, EvKeyed (bucket_env "prod") 2); (at_s 1, EvKeyed (bucket_env "prod") 2);
     (at_s 2, EvKeyed (bucket_env "prod") 2); (at_s 61, EvKeyed (bucket_env "prod") 2)] demo_limiter).1
  = [at_s 0; at_s 1; at_s 61] ∧ 60 * NANOS < at_s 61 - at_s 0.
Proof.
  split; [vm_compute; reflexivity|].
  apply (rate_window 0 "env:prod" 2
    [(at_s 0, EvKeyed (bucket_env "prod") 2); (at_s 1, EvKeyed (bucket_env "prod") 2);
     (at_s 2, EvKeyed (bucket_env "prod") 2); (at_s 61, EvKeyed (bucket_env "prod") 2)] demo_limiter) with (i := 0%nat).
  - repeat constructor; vm_compute; discriminate.
  - repeat constructor; vm_compute; discriminate.
  - vm_compute. reflexivity.
  - vm_compute. reflexivity.
  - vm_compute. reflexivity.
Defined.

Lemma retry_advice_honest_witness :
  let l := with_state {["env:prod" := [at_s 0; at_s 10]]} demo_limiter in
  check_and_record_keyed_at 0 (bucket_env "prod") 2 (at_s 20) l =
    (Err (TooManyRequests (bucket_env "prod") 40), count_rejected (count_check l)) ∧
  ∃ secs, TooManyRequests (bucket_env "prod") 40 = TooManyRequests (bucket_env "prod") secs ∧ 1 ≤ secs ≤ 60 ∧
    (∀ now', at_s 20 + secs * NANOS < now' →
       (check_and_record_keyed_at 0 (bucket_env "prod") 2 now' (count_rejected (count_check l))).1 = Ok ()) ∧
    (∀ now', at_s 20 ≤ now' → now' < at_s 20 + (secs - 1) * NANOS →
       ∃ secs', (check_and_record_keyed_at 0 (bucket_env "prod") 2 now' (count_rejected (count_check l))).1
                = Err (TooManyRequests (bucket_env "prod") secs')).
Proof.
  split; [vm_compute; reflexivity|].
  eapply (retry_advice_honest 0 (bucket_env "prod") 2 (at_s 20) (with_state {["env:prod" := [at_s 0; at_s 10]]} demo_limiter)).
  - vm_compute. reflexivity.
  - reflexivity.
  - vm_compute. discriminate.
  - repeat constructor; vm_compute; discriminate.
Defined.

(** Two policies may share a name: nothing checks that names are distinct.
    They share a bucket, and a call that matches both is counted twice: here a
    cap of two is passed by three within the same second. *)
Lemma shared_name_exceeds_cap :
  let '(r1, l1) := check_and_record_policies 0 [("web", 2); ("web", 2)] (at_s 0) demo_limiter in
  let '(r0, l0) := check_and_record_policy 0 "web" 2 (at_s 0) demo_limiter in
  let '(r2, l2) := check_and_record_policies 0 [("web", 2); ("web", 2)] (at_s 1) l0 in
  r1 = Ok () ∧ queue l1 "policy:web" = [at_s 0; at_s 0] ∧
  r2 = Ok () ∧ queue l2 "policy:web" = [at_s 0; at_s 1; at_s 1].
Proof. vm_compute. done. Qed.

(** A configuration without the section gets the derived default, not the
    defaults the fields name: logins and registrations are then not limited. *)
Lemma absent_section_unlimited user ip now now' instant_min :
  let l := from_config rate_config_default in
  check_and_record_login instant_min user ip now now' l = (Ok (), l) ∧
  check_and_record_register instant_min ip now l = (Ok (), l) ∧
  login_user_max_per_minute (from_config rate_config_serde_default) = 10.
Proof. vm_compute. done. Qed.
