(* ===== verification/ProcessPlugin.v ===== *)
(** * Plugin processes (crates/iac-providers/src/process/handle.rs, proto.rs, provider.rs)

    The supervisor of a long-running plugin: the handshake, the requests and
    replies over its pipes, the restart after a crash with its cool-off, and
    the reader of its output. Processes, pipes and clock are parameters. *)

From stdpp Require Import pretty.
From S2P Require Import Prelude Text Json ApiError Routing Db AuditLog Ids Diff Executor Chars PluginSpec Plugin RateLimit.

#[local] Open Scope string_scope.
#[local] Open Scope list_scope.
#[local] Open Scope nat_scope.

(** ** Messages *)

Definition PROTOCOL_VERSION : Z := 1.

Record Hello := mkHello {
  he_protocol_version : Z;
  he_kind : string;
  he_capability_keys : list string;
  he_methods : list string
}.

Record Response := mkResponse { rs_id : Z; rs_result : option Json; rs_error : option string }.

(** What a first line can be; the response is kept as its debug text. *)
Inductive Frame := FrameHello (h : Hello) | FrameResponse (debug : string).

(** serde's text of the messages. *)
Class ProtoCodec := {
  encode_request : Z → string → Json → result string string;
  parse_frame : string → result string Frame;
  parse_response : string → result string Response
}.

(** ** The supervisor *)

Record Handle (P : Type) := mkHandle {
  hd_proc : option P;
  hd_next_id : Z;
  hd_hello : option Hello;
  hd_consecutive_crashes : Z;
  hd_spawn_blocked_until : option Z
}.
Arguments mkHandle {P}.
Arguments hd_proc {P}.
Arguments hd_next_id {P}.
Arguments hd_hello {P}.
Arguments hd_consecutive_crashes {P}.
Arguments hd_spawn_blocked_until {P}.

Definition handle_new {P} : Handle P := mkHandle None 1 None 0 None.

Definition set_proc {P} p (h : Handle P) : Handle P :=
  mkHandle p (hd_next_id h) (hd_hello h) (hd_consecutive_crashes h) (hd_spawn_blocked_until h).
Definition set_next_id {P} n (h : Handle P) : Handle P :=
  mkHandle (hd_proc h) n (hd_hello h) (hd_consecutive_crashes h) (hd_spawn_blocked_until h).
Definition set_blocked {P} b (h : Handle P) : Handle P :=
  mkHandle (hd_proc h) (hd_next_id h) (hd_hello h) (hd_consecutive_crashes h) b.
Definition set_running {P} p hello (h : Handle P) : Handle P :=
  mkHandle (Some p) (hd_next_id h) (Some hello) (hd_consecutive_crashes h) (hd_spawn_blocked_until h).

(** [n.wrapping_add(1).max(1)] on [u64]. *)
Definition next_request_id (n : Z) : Z := Z.max 1 (wrap_unsigned 64 (n + 1)).

(** [2u64.saturating_pow((n - 3).min(8)).min(300)]. *)
Definition cool_off_secs (crashes : Z) : Z := Z.min 300 (2 ^ Z.min (crashes - 3) 8).

Definition CRASH_WORDS : list string := ["EOF"; "write:"; "read:"; "not running"; "ndjson line exceeded"].

Definition is_transport `{DebugText} (e : CoreError) : bool :=
  match e with EProvider _ m => existsb (λ w, str_contains w (msg_text m)) CRASH_WORDS | _ => false end.

Section Supervisor.
Context `{ProtoCodec, DebugText, Sha256}.
(** [X] is the outside, [P] a child with its pipes; a line is read up to a
    deadline, an instant in nanoseconds. *)
Context {P X : Type} (instant : X → Z) (read_binary : string → X → result string string).
Context (spawn : ExternalProviderSpec → X → result string P * X).
Context (write_line : P → string → X → result string () * X).
Context (read_line : P → Z → X → result string string * X).
Context (spec : ExternalProviderSpec).

Definition fail {A} (m : message) : CoreResult A := Err (EProvider (xp_kind spec) m).

(** The pin on the binary's contents. *)
Definition check_pin (x : X) : CoreResult () :=
  match xp_binary_sha256 spec with
  | None => Ok ()
  | Some expected =>
      bytes ← map_err (λ e, EProvider (xp_kind spec) [Txt "read binary "; Txt (xp_binary spec); Txt ": "; Ext e]) (read_binary (xp_binary spec) x);
      map_err (EProvider (xp_kind spec)) (verify_sha256 bytes expected "binary")
  end.

(** The first line and what it must say. *)
Definition check_hello (line : string) : CoreResult Hello :=
  match parse_frame line with
  | Err e => fail [Txt "hello parse: "; Ext e; Txt ": "; Dbg line]
  | Ok (FrameResponse other) => fail [Txt "expected hello, got "; Ext other]
  | Ok (FrameHello hello) =>
      if negb (he_protocol_version hello =? PROTOCOL_VERSION)%Z then
        fail [Txt "plugin protocol_version="; Dec (he_protocol_version hello); Txt " != agent protocol_version="; Dec PROTOCOL_VERSION]
      else if negb (bool_decide (he_kind hello = xp_kind spec)) then
        fail [Txt "plugin announces kind="; Dbg (he_kind hello); Txt " but config expects "; Dbg (xp_kind spec)]
      else Ok hello
  end.

(** A child whose handshake fails is dropped. *)
Definition start (h : Handle P) (x : X) : CoreResult () * Handle P * X :=
  match check_pin x with
  | Err e => (Err e, h, x)
  | Ok _ =>
      let '(child, x) := spawn spec x in
      match child with
      | Err e => (fail [Txt "spawn "; Txt (xp_binary spec); Txt ": "; Ext e], h, x)
      | Ok p =>
          let '(line, x) := read_line p (instant x + xp_handshake_timeout_secs spec * NANOS) x in
          match map_err (λ e, EProvider (xp_kind spec) [Txt "handshake read: "; Ext e]) line with
          | Err e => (Err e, h, x)
          | Ok line =>
              match check_hello line with
              | Err e => (Err e, h, x)
              | Ok hello => (Ok (), set_running p hello h, x)
              end
          end
      end
  end.

Definition spawn_locked (h : Handle P) (x : X) : CoreResult () * Handle P * X :=
  match hd_spawn_blocked_until h with
  | Some until =>
      if (instant x <? until)%Z then
        (fail [Txt "plugin in restart cool-off after "; Dec (hd_consecutive_crashes h); Txt " consecutive crashes; retry in ";
               Dec ((until - instant x) / NANOS + 1); Txt "s"], h, x)
      else start (set_blocked None h) x
  | None => start h x
  end.

(** The exchange with a running child. *)
Definition exchange (p : P) (id : Z) (line : string) (x : X) : CoreResult Json * X :=
  let '(written, x) := write_line p line x in
  match written with
  | Err e => (fail [Txt "write: "; Ext e], x)
  | Ok _ =>
      let '(reply, x) := read_line p (instant x + xp_call_timeout_secs spec * NANOS) x in
      let resp := (text ← reply; map_err (λ e, "parse response: " +:+ e +:+ ": " +:+ debug_text text) (parse_response text)) in
      (match resp with
       | Err e => fail [Txt "read: "; Ext e]
       | Ok resp =>
           if negb (rs_id resp =? id)%Z then fail [Txt "response id mismatch: expected "; Dec id; Txt ", got "; Dec (rs_id resp)]
           else match rs_error resp with
                | Some err => fail [Txt err]
                | None => Ok (default JNull (rs_result resp))
                end
       end, x)
  end.

Definition call_once (method : string) (params : Json) (h : Handle P) (x : X) : CoreResult Json * Handle P * X :=
  let '(spawned, h, x) := (match hd_proc h with None => spawn_locked h x | Some _ => (Ok (), h, x) end) in
  match spawned with
  | Err e => (Err e, h, x)
  | Ok _ =>
      let id := hd_next_id h in
      let h := set_next_id (next_request_id id) h in
      match encode_request id method params with
      | Err e => (fail [Txt "encode request: "; Ext e], h, x)
      | Ok line =>
          match hd_proc h with
          | None => (fail [Txt "plugin not running"], h, x)
          | Some p => let '(r, x) := exchange p id line x in (r, h, x)
          end
      end
  end.

(** The bookkeeping of a crash, at the instant it is noticed. *)
Definition crashed (now : Z) (h : Handle P) : Handle P :=
  let n := Z.min u32_max (hd_consecutive_crashes h + 1) in
  mkHandle None (hd_next_id h) (hd_hello h) n
    (if (3 <=? n)%Z then Some (now + cool_off_secs n * NANOS)%Z else hd_spawn_blocked_until h).

Definition succeeded (h : Handle P) : Handle P := mkHandle (hd_proc h) (hd_next_id h) (hd_hello h) 0 None.

(** One round of the loop: the outcome, and whether the error was of the transport. *)
Definition attempt (method : string) (params : Json) (h : Handle P) (x : X) : CoreResult Json * bool * Handle P * X :=
  let '(outcome, h, x) := call_once method params h x in
  match outcome with
  | Ok v => (Ok v, false, succeeded h, x)
  | Err e => if is_transport e then (Err e, true, crashed (instant x) h, x) else (Err e, false, h, x)
  end.

(** A second round only after a crash in the first, when the configuration allows it. *)
Definition call (method : string) (params : Json) (h : Handle P) (x : X) : CoreResult Json * Handle P * X :=
  let '(outcome, transport, h1, x1) := attempt method params h x in
  if transport && xp_restart_on_crash spec then
    let '(outcome, _, h2, x2) := attempt method params h1 x1 in (outcome, h2, x2)
  else (outcome, h1, x1).

(** ** As a plugin runtime *)

Definition external_runtime : PluginRuntime (Handle P * X) :=
  mkRuntime (xp_kind spec)
    (λ method params '(h, x), let '(r, h, x) := call method params h x in (r, (h, x)))
    (λ method '(h, _), match hd_hello h with Some he => bool_decide (method ∈ he_methods he) | None => false end)
    (λ '(h, _), Templates (match hd_hello h with Some he => he_capability_keys he | None => [] end)).

(** ** Properties *)

(** The plugin that runs said what the configuration expects, and its greeting is the one kept. *)
Definition handle_ok (h : Handle P) : Prop :=
  is_Some (hd_proc h) → ∃ hello, hd_hello h = Some hello ∧ he_protocol_version hello = PROTOCOL_VERSION ∧ he_kind hello = xp_kind spec.

Lemma check_hello_Ok line hello :
  check_hello line = Ok hello → he_protocol_version hello = PROTOCOL_VERSION ∧ he_kind hello = xp_kind spec.
Proof.
  unfold check_hello. destruct (parse_frame line) as [[he|other]|e]; [|done|done].
  destruct (Z.eqb_spec (he_protocol_version he) PROTOCOL_VERSION); [|done]. cbn [negb].
  case_bool_decide; [|done]. by intros [= <-].
Qed.

Lemma start_ok h x r h' x' : handle_ok h → start h x = (r, h', x') → handle_ok h' ∧ (r = Ok () → is_Some (hd_proc h')).
Proof.
  intros Hh. unfold start. destruct (check_pin x); [|by intros [= <- <- <-]]. destruct (spawn spec x) as [[p|e] x1]; [|by intros [= <- <- <-]].
  destruct (read_line _ _ _) as [[line|e] x2]; cbn [map_err]; [|by intros [= <- <- <-]].
  destruct (check_hello line) as [hello|e] eqn:Hc; intros [= <- <- <-]; [|by split]. apply check_hello_Ok in Hc.
  split; [|by eexists]. intros _. by exists hello.
Qed.

Lemma spawn_locked_ok h x r h' x' : handle_ok h → spawn_locked h x = (r, h', x') → handle_ok h'.
Proof.
  intros Hh. unfold spawn_locked. destruct (hd_spawn_blocked_until h) as [until|].
  - destruct (Z.ltb_spec (instant x) until); [by intros [= <- <- <-]|]. intros Hs. eapply start_ok; [|exact Hs]. exact Hh.
  - intros Hs. by eapply start_ok.
Qed.

Lemma call_once_ok method params h x r h' x' : handle_ok h → call_once method params h x = (r, h', x') → handle_ok h'.
Proof.
  intros Hh. unfold call_once.
  destruct (match hd_proc h with None => spawn_locked h x | Some _ => _ end) as [[spawned h1] x1] eqn:Hs.
  assert (handle_ok h1) as Hh1.
  { destruct (hd_proc h); [by injection Hs as _ <- _|]. by eapply spawn_locked_ok. }
  destruct spawned as [[]|e]; [|by intros [= <- <- <-]].
  destruct (encode_request _ _ _); [|by intros [= <- <- <-]].
  destruct (hd_proc (set_next_id _ h1)) eqn:Hp; [|by intros [= <- <- <-]].
  destruct (exchange _ _ _ _). by intros [= <- <- <-].
Qed.

Lemma attempt_ok method params h x o b h' x' : handle_ok h → attempt method params h x = (o, b, h', x') → handle_ok h'.
Proof.
  intros Hh. unfold attempt. destruct (call_once method params h x) as [[outcome h1] x1] eqn:Hc.
  apply (call_once_ok _ _ _ _ _ _ _ Hh) in Hc. destruct outcome as [v|e]; [by intros [= <- <- <- <-]|].
  destruct (is_transport e); intros [= <- <- <- <-]; [by intros []|done].
Qed.

Lemma call_ok method params h x r h' x' : handle_ok h → call method params h x = (r, h', x') → handle_ok h'.
Proof.
  intros Hh. unfold call. destruct (attempt method params h x) as [[[o b] h1] x1] eqn:Ha.
  apply (attempt_ok _ _ _ _ _ _ _ _ Hh) in Ha. destruct (b && xp_restart_on_crash spec); [|by intros [= <- <- <-]].
  destruct (attempt method params h1 x1) as [[[o2 b2] h2] x2] eqn:Ha2. intros [= <- <- <-]. by eapply attempt_ok.
Qed.

(** While the cool-off lasts no process is started: the call fails at once
    and nothing outside changes. *)
Lemma cool_off_holds method params h x until :
  hd_proc h = None → hd_spawn_blocked_until h = Some until → (instant x < until)%Z →
  ∃ e, call_once method params h x = (Err e, h, x).
Proof.
  intros Hp Hb Hlt. unfold call_once, spawn_locked. rewrite Hp, Hb. destruct (Z.ltb_spec (instant x) until); [by eexists|lia].
Qed.

End Supervisor.

(** ** The reader of the output

    A read delivers a part of the stream; a line longer than the cap is
    reported once and dropped up to its end. *)

Definition MAX_NDJSON_LINE_BYTES : Z := 16 * 1024 * 1024.

Definition over_length : string := "ndjson line exceeded 16777216 bytes without newline; refusing to buffer further".

(** The line read so far, and whether it is being dropped. *)
Record Reader := mkReader { rd_line : string; rd_capped : bool }.

(** The parts of a read up to each newline, then the rest of it. *)
Fixpoint feed (segments : list string) (r : Reader) : list (result string string) * Reader :=
  match segments with
  | [] => ([], r)
  | [rest] =>
      if decide (rest = "") then ([], r)
      else if rd_capped r then ([], r)
      else
        let line := rd_line r +:+ rest in
        if (MAX_NDJSON_LINE_BYTES <? Z.of_nat (String.length line))%Z then ([Err over_length], mkReader "" true)
        else ([], mkReader line false)
  | before :: segments =>
      let '(out, r') := feed segments (mkReader "" false) in
      (if rd_capped r then out else Ok (from_utf8_lossy (rd_line r +:+ before)) :: out, r')
  end.

(** Reads until the end of the stream or an error. *)
Fixpoint reader_loop (reads : list (result string string)) (r : Reader) : list (result string string) :=
  match reads with
  | [] => if negb (bool_decide (rd_line r = "")) && negb (rd_capped r) then [Ok (from_utf8_lossy (rd_line r))] else []
  | Err e :: _ => [Err e]
  | Ok chunk :: reads => let '(out, r) := feed (split_on newline chunk) r in out ++ reader_loop reads r
  end.

(** *** The reads do not matter *)

(** The segments of two texts in a row: the last of the first goes on in the
    first of the second. *)
Fixpoint glue (xs ys : list string) : list string :=
  match xs, ys with
  | [], _ => ys
  | [x], y :: ys => (x +:+ y) :: ys
  | x :: xs, _ => x :: glue xs ys
  end.

Lemma split_on_glue c s t : split_on c (s +:+ t) = glue (split_on c s) (split_on c t).
Proof.
  destruct (split_on_cons c t) as (y & ys & Ht). rewrite Ht.
  induction s as [|a s IH]; [exact Ht|]. change (String a s +:+ t) with (String a (s +:+ t)). cbn [split_on]. rewrite IH.
  destruct (split_on_cons c s) as (x & xs & ->). destruct (Ascii.eqb a c); [by destruct xs|]. by destruct xs.
Qed.

Lemma glue_snoc xs x ys : ys ≠ [] → glue (xs ++ [x]) ys = xs ++ glue [x] ys.
Proof.
  intros Hys. induction xs as [|z xs IH]; [done|]. cbn [app]. rewrite <- IH. cbn. by destruct xs, ys.
Qed.

Lemma stream_lines_app xs ys : ys ≠ [] → stream_lines (xs ++ ys) = xs ++ stream_lines ys.
Proof. intros Hys. induction xs as [|x xs IH]; [done|]. cbn. destruct (xs ++ ys) eqn:E; [by destruct xs, ys|]. by rewrite <- IH. Qed.

Definition short (s : string) : Prop := (Z.of_nat (String.length s) ≤ MAX_NDJSON_LINE_BYTES)%Z.

(** One read: the finished lines, and the start of the next. *)
Lemma feed_segments segs acc :
  segs ≠ [] → Forall short (glue [acc] segs) →
  ∃ full rest, glue [acc] segs = full ++ [rest] ∧ feed segs (mkReader acc false) = (map (λ l, Ok (from_utf8_lossy l)) full, mkReader rest false).
Proof.
  revert acc. induction segs as [|x segs IH]; intros acc Hne Hs; [done|]. destruct segs as [|y segs].
  - exists [], (acc +:+ x). split; [done|]. cbn. case_decide as Hx.
    + subst x. by rewrite str_app_nil_r.
    + cbn in Hs. apply Forall_cons in Hs as [Hs _]. unfold short in Hs. destruct (Z.ltb_spec MAX_NDJSON_LINE_BYTES (Z.of_nat (String.length (acc +:+ x)))); [lia|done].
  - cbn in Hs. apply Forall_cons in Hs as [Hx Hs]. destruct (IH "" ltac:(done)) as (full & rest & Hg & Hf); [done|].
    exists ((acc +:+ x) :: full), rest. change (glue [acc] (x :: y :: segs)) with ((acc +:+ x) :: glue [""] (y :: segs)).
    split; [by rewrite Hg|]. change (feed (x :: y :: segs) (mkReader acc false)) with
      (let '(out, r') := feed (y :: segs) (mkReader "" false) in (Ok (from_utf8_lossy (acc +:+ x)) :: out, r')). by rewrite Hf.
Qed.
Lemma split_on_parts c s : Forall (λ x, split_on c x = [x]) (split_on c s).
Proof.
  induction s as [|a s IH]; [by repeat constructor|]. cbn [split_on]. destruct (Ascii.eqb a c) eqn:Ha; [by constructor|].
  destruct (split_on c s) as [|x xs] eqn:E; [by destruct (split_on_cons c s) as (? & ? & ?); congruence|].
  apply Forall_cons in IH as [Hx Hxs]. constructor; [|done]. cbn [split_on]. by rewrite Ha, Hx.
Qed.

Lemma short_prefix s t : short (s +:+ t) → short s.
Proof. unfold short. rewrite str_length_app. lia. Qed.

Lemma concat_cons s ss : String.concat "" (s :: ss) = s +:+ String.concat "" ss.
Proof. destruct ss; [symmetry; apply str_app_nil_r|done]. Qed.

(** However the stream is cut into reads, the lines are those of the whole. *)
Lemma reader_lines chunks acc :
  split_on newline acc = [acc] → Forall short (split_on newline (acc +:+ String.concat "" chunks)) →
  reader_loop (map Ok chunks) (mkReader acc false) = map (λ l, Ok (from_utf8_lossy l)) (stream_lines (split_on newline (acc +:+ String.concat "" chunks))).
Proof.
  revert acc. induction chunks as [|chunk chunks IH]; intros acc Hacc Hs.
  - cbn [map reader_loop String.concat rd_line rd_capped]. rewrite str_app_nil_r, Hacc. cbn. by case_bool_decide; case_decide.
  - rewrite concat_cons, <- str_app_assoc, split_on_glue in *.
    destruct (split_on_cons newline (String.concat "" chunks)) as (y & ys & Hy).
    assert (split_on newline (acc +:+ chunk) = glue [acc] (split_on newline chunk)) as Hg by by rewrite split_on_glue, Hacc.
    pose proof (split_on_parts newline (acc +:+ chunk)) as Hparts.
    destruct (split_on_cons newline chunk) as (z & zs & Hz).
    assert (∃ full rest, glue [acc] (split_on newline chunk) = full ++ [rest]) as (full & rest & Hfr).
    { rewrite Hz. destruct (exists_last (l := glue [acc] (z :: zs))) as (f & r & ->); [done|]. by eexists _, _. }
    rewrite Hg, Hfr, glue_snoc in Hs by by rewrite Hy. rewrite Hg, Hfr in Hparts.
    apply Forall_app in Hs as [Hfull Hs]. apply Forall_app in Hparts as [_ [Hrest _]%Forall_cons].
    assert (short rest) as Hsr. { rewrite Hy in Hs. cbn in Hs. apply Forall_cons in Hs as [Hs _]. by eapply short_prefix. }
    destruct (feed_segments (split_on newline chunk) acc) as (full' & rest' & Hfr' & Hf); [by rewrite Hz| |].
    { rewrite Hfr. by apply Forall_app; repeat constructor. }
    rewrite Hfr in Hfr'. apply app_inj_2 in Hfr' as [<- [= <-]]; [|done].
    assert (split_on newline (rest +:+ String.concat "" chunks) = glue [rest] (split_on newline (String.concat "" chunks))) as Hr
      by by rewrite split_on_glue, Hrest.
    cbn [map reader_loop]. rewrite Hf, IH, Hr by by rewrite ?Hr.
    rewrite Hg, Hfr, glue_snoc by by rewrite Hy. rewrite stream_lines_app, map_app; [done|]. by rewrite Hy.
Qed.

(** The longest cool-off. *)
Lemma cool_off_max n : (3 ≤ n)%Z → (1 ≤ cool_off_secs n ≤ 256)%Z.
Proof.
  intros Hn. unfold cool_off_secs. assert (1 ≤ 2 ^ Z.min (n - 3) 8 ≤ 2 ^ 8)%Z as Hp; [|change (2 ^ 8)%Z with 256%Z in Hp; lia].
  split; [change 1%Z with (2 ^ 0)%Z|]; apply Z.pow_le_mono_r; lia.
Qed.

(** ** A plugin that answers with an error

    It carries every request out, then says that it could not read
    something. *)

Section Demo.
#[local] Instance plain_text : DebugText := λ s, s.
#[local] Instance no_digest : Sha256 := λ _, "".
#[local] Instance demo_proto : ProtoCodec := {|
  encode_request id method _ := Ok (method +:+ "#" +:+ pretty id);
  parse_frame _ := Ok (FrameHello (mkHello 1 "db.row" [] []));
  parse_response s := match parse_unsigned u64_max s with
                      | Some id => Ok (mkResponse id None (Some "cannot read: permission denied"))
                      | None => Err "not a response"
                      end
|}.

(** The requests carried out, and whether the child has said hello. *)
Definition demo_call : CoreResult Json * Handle () * (list string * bool) :=
  call (λ _, 0%Z) (λ _ _, Err "")
    (λ _ x, (Ok (), (x.1, false)))
    (λ _ line x, (Ok (), (x.1 ++ [line], x.2)))
    (λ _ _ x, if x.2 then (Ok (pretty (Z.of_nat (length x.1))), x) else (Ok "hello", (x.1, true)))
    (mkExternal "db.row" "/usr/local/bin/db" [] [] true 5 60 None) "apply" JNull handle_new ([], false).

(** An application error whose text looks like one of the transport is
    retried: the plugin applies twice. *)
Example application_error_retried :
  demo_call.1.1 = Err (EProvider "db.row" [Txt "cannot read: permission denied"]) ∧
  demo_call.2.1 = ["apply#1"; "apply#2"] ∧ hd_consecutive_crashes demo_call.1.2 = 2%Z.
Proof. vm_compute. by split_and!. Qed.

End Demo.
