(* ===== verification/SpecReader.v ===== *)
(** * What the providers share

    What serde derives for the providers' spec types, the fields of which are
    read from a YAML mapping (or, in order, from a sequence). The texts of
    serde's errors are outside. *)

From S2P Require Import Prelude Text Json Ids Diff Executor Plugin.

#[local] Open Scope string_scope.
#[local] Open Scope list_scope.
#[local] Open Scope nat_scope.

(** ** Fields *)

(** [#[serde(deny_unknown_fields)]]. *)
Definition only_fields (names : list string) (v : Json) : bool :=
  match v with JObject m => forallb (λ kv, bool_decide (kv.1 ∈ names)) m | _ => true end.

Definition strict_fields (names : list string) (v : Json) : option (list (option Json)) :=
  if only_fields names v then struct_fields names v else None.

Definition required_string (v : option Json) : option string := x ← v; as_str x.

(** [Option<String>] with [#[serde(default)]]. *)
Definition optional_string (v : option Json) : option (option string) :=
  match v with
  | None | Some JNull => Some None
  | Some (JString s) => Some (Some s)
  | Some _ => None
  end.

(** [bool] with a default. *)
Definition bool_or (d : bool) (v : option Json) : option bool :=
  match v with None => Some d | Some (JBool b) => Some b | Some _ => None end.

(** An unsigned integer of at most [max], with a default. *)
Definition unsigned_of (max : Z) (v : Json) : option Z :=
  match v with JNumber repr => parse_unsigned max repr | _ => None end.
Definition unsigned_or (max d : Z) (v : option Json) : option Z :=
  match v with None => Some d | Some x => unsigned_of max x end.
Definition optional_unsigned (max : Z) (v : option Json) : option (option Z) :=
  match v with
  | None | Some JNull => Some None
  | Some x => n ← unsigned_of max x; Some (Some n)
  end.

(** [Vec<String>] with [#[serde(default)]]. *)
Definition strings_or_empty (v : option Json) : option (list string) :=
  match v with None => Some [] | Some x => strings_of x end.

(** An [IndexMap] of texts, empty by default; a text with a default. *)
Definition texts_or_empty (v : option Json) : option (list (string * string)) :=
  match v with
  | None => Some []
  | Some (JObject m) => mapM (λ kv, s ← as_str kv.2; Some (kv.1, s)) m
  | Some _ => None
  end.
Definition string_or (d : string) (v : option Json) : option string := match v with None => Some d | Some x => as_str x end.

(** [Vec<T>] with a default, and [Option<T>]. *)
Definition list_or {A} (d : list A) (read : Json → option A) (v : option Json) : option (list A) :=
  match v with None => Some d | Some (JArray xs) => mapM read xs | Some _ => None end.
Definition optional_of {A} (read : Json → option A) (v : option Json) : option (option A) :=
  match v with None | Some JNull => Some None | Some x => a ← read x; Some (Some a) end.

(** An enum of unit variants, by their names, with a default. *)
Definition enum_or {A} (variants : list (string * A)) (d : A) (v : option Json) : option A :=
  match v with
  | None => Some d
  | Some x => name ← as_str x; assoc_get name variants
  end.

(** ** Checks on texts

    [s.chars().all(p)] and [s.contains(['c', …])]. *)
Definition all_chars (p : N → bool) (s : string) : bool := forallb p (chars s).
Definition contains_any (cs : list N) (s : string) : bool := existsb (λ c, bool_decide (c ∈ cs)) (chars s).

(** [{list:?}]. *)
Definition debug_list (l : list string) : message :=
  Txt "[" :: match l with [] => [] | x :: l => Dbg x :: concat (map (λ y, [Txt ", "; Dbg y]) l) end ++ [Txt "]"].

(** ** Numbers that do not parse

    The text of [ParseIntError] for an unsigned type, met from the left. *)
Fixpoint int_error_from (max radix acc : Z) (s : string) : string :=
  match s with
  | "" => ""
  | String a s =>
      let d := (Z.of_N (byte_of a) - 48)%Z in
      if negb ((0 <=? d) && (d <? radix))%Z then "invalid digit found in string"
      else let acc := (acc * radix + d)%Z in
           if (max <? acc)%Z then "number too large to fit in target type" else int_error_from max radix acc s
  end.
Definition int_error (max radix : Z) (s : string) : string :=
  if decide (s = "") then "cannot parse integer from empty string"
  else if decide (s = "+") then "invalid digit found in string"
  else int_error_from max radix 0 (default s (strip_prefix "+" s)).

(** ** Errors

    [parse_spec] of a provider: what [from_value] refuses is an error of the
    resource. *)
Definition parse_spec {A} (kind : string) (from_value : Json → result message A) (r : Resource) : CoreResult A :=
  map_err (λ e, EValidation (rid_display (rid_of r)) (Txt ("invalid " +:+ kind +:+ " spec: ") :: e)) (from_value (r_spec r)).

(** [step_actions!]: the name of an action, and its reading. *)
Definition parse_action {A} (namespace : string) (actions : list (string * A)) (s : string) : CoreResult A :=
  match assoc_get s actions with
  | Some a => Ok a
  | None => Err (EProvider namespace [Txt "unknown step action "; Dbg s])
  end.

(** ** The journal of a backend kept in memory (crates/iac-providers/src/mock_journal.rs)

    The calls in order, what is armed to fail next, and the state of the
    backend. *)
Record MockJournal (S : Type) := mkJournal { mj_state : S; mj_calls : list string; mj_failures : list (string * string) }.
Arguments mkJournal {S}.
Arguments mj_state {S}.
Arguments mj_calls {S}.
Arguments mj_failures {S}.

Definition mj_fail_next {S} (op msg : string) (j : MockJournal S) : MockJournal S :=
  mkJournal (mj_state j) (mj_calls j) (assoc_insert op msg (mj_failures j)).
Definition mj_with_state_mut {S} (f : S → S) (j : MockJournal S) : MockJournal S := mkJournal (f (mj_state j)) (mj_calls j) (mj_failures j).

(** The call is noted even when it is armed to fail; then nothing else is done. *)
Definition mj_record {S R} (op line : string) (f : S → R * S) (j : MockJournal S) : result string R * MockJournal S :=
  match assoc_get op (mj_failures j) with
  | Some msg => (Err msg, mkJournal (mj_state j) (mj_calls j ++ [line]) (assoc_remove op (mj_failures j)))
  | None => let '(r, s) := f (mj_state j) in (Ok r, mkJournal s (mj_calls j ++ [line]) (mj_failures j))
  end.

(** ** Steps in a row

    The steps of a plan, each applied where the one before it left the host;
    up to the first that fails. *)
Fixpoint apply_all {V W} (p : Provider V W) (r : Resource) (ctx : ApplyContext) (steps : list Step) (s : V * W) : CoreResult () * (V * W) :=
  match steps with
  | [] => (Ok (), s)
  | step :: steps =>
      match p_apply p r step ctx s with
      | (Ok _, s') => apply_all p r ctx steps s'
      | (Err e, s') => (Err e, s')
      end
  end.
