(* ===== verification/Posix.v ===== *)
(** * Files (std::fs and the system calls of crates/iac-providers/src/file/ops.rs)

    The files the providers manage, and the calls of the standard library and
    of rustix on them. A path is the list of its components: what its
    directories link to, and [..], is not followed. An error is kept by the
    name of its errno. Any call can fail; a write or a copy that fails may
    leave a part. *)

From S2P Require Import Prelude Text Json Ids Chars.

#[local] Open Scope string_scope.
#[local] Open Scope list_scope.
#[local] Open Scope nat_scope.

(** ** Paths *)

Definition solidus : Ascii.ascii := Ascii.ascii_of_N 47.

(** [Path::components] of an absolute path, the root apart. *)
Definition components (path : string) : list string :=
  List.filter (λ c, negb (bool_decide (c = "")) && negb (bool_decide (c = "."))) (split_on solidus path).

(** [Path::parent] and [Path::file_name]. *)
Definition parent (p : list string) : option (list string) := match p with [] => None | _ => Some (removelast p) end.
Definition file_name (p : list string) : option string :=
  match last p with Some name => if decide (name = "..") then None else Some name | None => None end.

(** A path's text, for messages. *)
Definition path_text (p : list string) : string := "/" +:+ str_join "/" p.

(** ** Modes *)

Definition octal_digit (d : Z) : string := String (Ascii.ascii_of_N (Z.to_N (48 + d))) "".
(** [{:o}] of a [u32]; its eleven digits are fuel enough. *)
Fixpoint octal_fuel (fuel : nat) (z : Z) : string :=
  match fuel with
  | O => ""
  | S fuel => if (z <? 8)%Z then octal_digit z else octal_fuel fuel (z / 8) +:+ octal_digit (z mod 8)
  end.
Definition octal_text : Z → string := octal_fuel 11.

Fixpoint parse_octal (acc : Z) (s : string) : option Z :=
  match s with
  | "" => Some acc
  | String a s =>
      let d := (Z.of_N (byte_of a) - 48)%Z in
      if ((0 <=? d) && (d <=? 7))%Z then
        let acc := (acc * 8 + d)%Z in if (acc <=? u32_max)%Z then parse_octal acc s else None
      else None
  end.
(** [u32::from_str_radix(s, 8)]. *)
Definition from_str_radix_8 (s : string) : option Z :=
  match default s (strip_prefix "+" s) with "" => None | digits => parse_octal 0 digits end.

(** ** The machine *)

Inductive LinkTarget := ToDirectory | ToOther | Dangling.
Inductive Node :=
| Regular (content : string) (mode uid gid : Z)
| Directory
| Symlink (target : LinkTarget)
| Special.

#[export] Instance LinkTarget_eq_dec : EqDecision LinkTarget.
Proof. solve_decision. Defined.
#[export] Instance Node_eq_dec : EqDecision Node.
Proof. solve_decision. Defined.

Abbreviation Files := (@gmap (list string) (@list_eq_dec string String.eq_dec) (@list_countable string String.eq_dec String.countable) Node).

Record Machine := mkMachine { mc_files : Files; mc_calls : nat; mc_ulids : nat }.

(** What a call meets: whether it fails, how much of a write that fails is
    done ([None]: nothing, the file is not even made), the owner of a new
    file and its mode, what reading through a link gives, the names [Ulid::new] gives, and the mode the kernel leaves when it
    changes the owner of a file. *)
Class Kernel := {
  call_fails : nat → option string;
  part_written : nat → option nat;
  new_owner : Z * Z;
  new_mode : Z;
  behind_link : list string → result string string;
  ulid_name : nat → string;
  chown_mode : Z → Z
}.

(** Calls in a row, up to the first that fails, on a state [S]. *)
Definition io (S A : Type) : Type := S → CoreResult A * S.

Definition io_ret {S A} (a : A) : io S A := λ m, (Ok a, m).
Definition io_throw {S A} (e : CoreError) : io S A := λ m, (Err e, m).
Definition io_bind {S A B} (c : io S A) (f : A → io S B) : io S B := λ m,
  match c m with (Ok a, m') => f a m' | (Err e, m') => (Err e, m') end.
Definition io_lift {S A} (r : CoreResult A) : io S A := λ m, (r, m).
(** [let _ = c;]. *)
Definition io_ignore {S A} (c : io S A) : io S () := λ m, (Ok (), (c m).2).
(** On the machine, beside a workspace. *)
Definition on_machine {M W A} (c : io M A) : io (M * W) A := λ '(m, w), let '(r, m) := c m in (r, (m, w)).

Declare Scope io_scope.
Delimit Scope io_scope with io.
Notation "'let*' x ':=' c 'in' k" := (io_bind c (λ x, k))
  (at level 200, x name, c at level 100, k at level 200, right associativity) : io_scope.
Notation "c ';*' k" := (io_bind c (λ _ : (), k)) (at level 100, k at level 200, right associativity) : io_scope.
#[local] Open Scope io_scope.

Definition set_files (f : Files) (m : Machine) : Machine := mkMachine f (mc_calls m) (mc_ulids m).

Section Calls.
Context `{Kernel}.

(** A call: it fails by itself, or answers from the files; [cut] is what it
    leaves when it fails. *)
Definition call_or {A : Type} (cut : option nat → Files → Files) (f : Files → result string (A * Files)) : Machine → result string A * Machine :=
  λ m,
    let m' := mkMachine (mc_files m) (S (mc_calls m)) (mc_ulids m) in
    match call_fails (mc_calls m) with
    | Some e => (Err e, set_files (cut (part_written (mc_calls m)) (mc_files m)) m')
    | None => match f (mc_files m) with Ok (a, files) => (Ok a, set_files files m') | Err e => (Err e, m') end
    end.
Definition syscall {A : Type} (f : Files → result string (A * Files)) := call_or (λ _ files, files) f.

(** The error of a call, with the path the code names. *)
Definition at_path {A : Type} (path : string) (c : Machine → result string A * Machine) : io Machine A := λ m,
  let '(r, m') := c m in (map_err (EIo path) r, m').

Definition new_ulid_name : io Machine string := λ m, (Ok (ulid_name (mc_ulids m)), mkMachine (mc_files m) (mc_calls m) (S (mc_ulids m))).

(** *** Looking *)

(** [fs::symlink_metadata] or [statat]: the link at the end is not followed. *)
Definition lstat (p : list string) := syscall (λ files,
  match files !! p with Some n => Ok (n, files) | None => Err "ENOENT" end).

(** The answer, with [NotFound] told apart: [None]. *)
Definition found {A : Type} (c : Machine → result string A * Machine) : Machine → result string (option A) * Machine := λ m,
  let '(r, m') := c m in
  (match r with Ok a => Ok (Some a) | Err e => if decide (e = "ENOENT") then Ok None else Err e end, m').

(** [path.exists()]. *)
Definition path_exists (p : list string) : io Machine bool := λ m,
  let '(r, m') := lstat p m in
  (Ok (match r with Ok (Symlink Dangling) => false | Ok _ => true | Err _ => bool_decide (p = []) end), m').

(** [path.is_dir()]. *)
Definition is_dir (n : option Node) : bool :=
  match n with Some Directory | Some (Symlink ToDirectory) => true | _ => false end.

(** Opening and reading a whole file, the link at its end not followed: the code looked first. *)
Definition read_file (p : list string) := syscall (λ files,
  match files !! p with
  | Some (Regular c _ _ _) => Ok (c, files)
  | Some _ => Err "EISDIR"
  | None => Err "ENOENT"
  end).

(** [fs::read_to_string]: links are followed, the contents are UTF-8. *)
Definition read_to_string (p : list string) := syscall (λ files,
  let text := match files !! p with
              | Some (Regular c _ _ _) => Ok c
              | Some (Symlink _) => behind_link p
              | Some Directory => Err "EISDIR"
              | Some Special => Err "EINVAL"
              | None => Err "ENOENT"
              end in
  c ← text; if decide (from_utf8_lossy c = c) then Ok (c, files) else Err "stream did not contain valid UTF-8").

(** *** Directories *)

Definition mkdir (p : list string) := syscall (λ files,
  match files !! p with
  | Some _ => Err "EEXIST"
  | None =>
      match parent p with
      | None => Err "EEXIST"
      | Some [] => Ok ((), <[p := Directory]> files)
      | Some d => if is_dir (files !! d) then Ok ((), <[p := Directory]> files)
                  else match files !! d with
                       | None | Some (Symlink Dangling) => Err "ENOENT"
                       | _ => Err "ENOTDIR"
                       end
      end
  end).

(** [mkdir], or the directory is there already. *)
Definition mkdir_or_there (p : list string) (e : string) : Machine → result string () * Machine := λ m,
  let '(r, m') := lstat p m in
  if match r with Ok n => is_dir (Some n) | Err _ => bool_decide (p = []) end then (Ok (), m') else (Err e, m').

(** [DirBuilder::create_dir_all], on the reversed path. *)
Fixpoint create_dir_all_rev (rev_path : list string) : Machine → result string () * Machine := λ m,
  let p := rev rev_path in
  let '(r, m1) := mkdir p m in
  match r with
  | Ok _ => (Ok (), m1)
  | Err e =>
      if decide (e = "ENOENT") then
        match rev_path with
        | [] => (Err e, m1)
        | _ :: above =>
            let '(r, m2) := create_dir_all_rev above m1 in
            match r with
            | Err e => (Err e, m2)
            | Ok _ =>
                let '(r, m3) := mkdir p m2 in
                match r with Ok _ => (Ok (), m3) | Err e => mkdir_or_there p e m3 end
            end
        end
      else mkdir_or_there p e m1
  end.
Definition create_dir_all (p : list string) := create_dir_all_rev (rev p).

(** [open] with [O_DIRECTORY | O_NOFOLLOW]. *)
Definition open_dir (p : list string) := syscall (λ files,
  match files !! p, p with
  | Some Directory, _ | None, [] => Ok ((), files)
  | Some (Symlink _), _ => Err "ELOOP"
  | None, _ => Err "ENOENT"
  | Some _, _ => Err "ENOTDIR"
  end).

(** *** Changing *)

(** [openat] with [O_CREAT | O_EXCL], mode 0600. *)
Definition create_new (p : list string) := syscall (λ files,
  match files !! p with
  | Some _ => Err "EEXIST"
  | None => Ok ((), <[p := Regular "" 384 new_owner.1 new_owner.2]> files)
  end).

Definition map_regular (f : string → Z → Z → Z → Node) (p : list string) (files : Files) : Files :=
  match files !! p with Some (Regular c mode u g) => <[p := f c mode u g]> files | _ => files end.

(** Through an open file: [write_all] from its start, [sync_all], [fchmod]
    (twelve bits count), [fchown]. *)
Definition write_all (p : list string) (content : string) :=
  let put c files := map_regular (λ _ mode u g, Regular c mode u g) p files in
  call_or (λ part files, match part with Some n => put (str_upto n content) files | None => files end)
    (λ files, Ok ((), put content files)).
Definition sync_all := syscall (λ files, Ok ((), files)).
Definition chmod (p : list string) (mode : Z) :=
  syscall (λ files, Ok ((), map_regular (λ c _ u g, Regular c (Z.land mode 4095) u g) p files)).
Definition chown (p : list string) (uid gid : option Z) :=
  syscall (λ files, Ok ((), map_regular (λ c mode u g, Regular c (chown_mode mode) (default u uid) (default g gid)) p files)).

(** [fs::write]: a new file, or new contents for the one there. *)
Definition write_path (p : list string) (content : string) :=
  let put c files := match files !! p with
                     | None => <[p := Regular c new_mode new_owner.1 new_owner.2]> files
                     | _ => map_regular (λ _ mode u g, Regular c mode u g) p files
                     end in
  call_or (λ part files, match part with Some n => put (str_upto n content) files | None => files end)
    (λ files, match files !! p with
              | None | Some (Regular _ _ _ _) => Ok ((), put content files)
              | Some Directory => Err "EISDIR"
              | Some _ => Err "ENXIO"
              end).

(** [rename(2)] of a regular file within a directory. *)
Definition rename (a b : list string) := syscall (λ files,
  match files !! a with
  | None => Err "ENOENT"
  | Some n => if decide (files !! b = Some Directory) then Err "EISDIR" else Ok ((), <[b := n]> (delete a files))
  end).

(** [fs::remove_file]. *)
Definition remove_file (p : list string) := syscall (λ files,
  match files !! p with
  | None => Err "ENOENT"
  | Some Directory => Err "EISDIR"
  | Some _ => Ok ((), delete p files)
  end).

(** The file [fs::copy] leaves: the contents and the mode of its source; a
    file that was there keeps its owner. *)
Definition copied (content : string) (mode : Z) (old : option Node) : option Node :=
  match old with
  | None => Some (Regular content mode new_owner.1 new_owner.2)
  | Some (Regular _ _ u g) => Some (Regular content mode u g)
  | Some _ => None
  end.

End Calls.

(** ** Through links

    What is behind a link is kept beside the machine, and so is what the
    removal of a directory leaves when it fails, by its call. *)
Class Links (H : Type) := {
  read_behind : list string → H → result string string;
  write_behind : list string → string → H → result string () * H;
  left_behind : nat → list string → bool
}.

Section LinkedCalls.
Context {H : Type} `{Kernel} `{!Links H}.

(** A call on the machine alone. *)
Definition beside {A : Type} (c : Machine → A * Machine) : Machine * H → A * (Machine * H) := λ '(m, h), let '(r, m') := c m in (r, (m', h)).

Definition is_link (n : option Node) : bool := match n with Some (Symlink _) => true | _ => false end.

(** [fs::read]. *)
Definition read_bytes (p : list string) : Machine * H → result string string * (Machine * H) := λ '(m, h),
  if is_link (mc_files m !! p) then let '(r, m') := syscall (λ files, Ok ((), files)) m in (_ ← r; read_behind p h, (m', h))
  else beside (read_file p) (m, h).

(** [fs::read_to_string]. *)
Definition read_string (p : list string) : Machine * H → result string string * (Machine * H) := λ s,
  let '(r, s') := read_bytes p s in
  (c ← r; if decide (from_utf8_lossy c = c) then Ok c else Err "stream did not contain valid UTF-8", s').

(** [fs::write]. *)
Definition write_bytes (p : list string) (content : string) : Machine * H → result string () * (Machine * H) := λ '(m, h),
  if is_link (mc_files m !! p) then
    let '(r, m') := syscall (λ files, Ok ((), files)) m in
    match r with Ok _ => let '(r, h') := write_behind p content h in (r, (m', h')) | Err e => (Err e, (m', h)) end
  else beside (write_path p content) (m, h).

(** [fs::remove_dir_all]: of a link, the link. *)
Definition under (p : list string) (kv : list string * Node) : Prop := p `prefix_of` kv.1.
#[export] Instance under_dec p kv : Decision (under p kv).
Proof. unfold under. apply _. Defined.
Definition remove_dir_all (p : list string) : Machine → result string () * Machine := λ m,
  let '(r, m') := lstat p m in
  match r with
  | Err e => (Err e, m')
  | Ok (Symlink _) => remove_file p m'
  | Ok _ =>
      call_or (λ _ files, filter (λ kv, ¬ under p kv ∨ left_behind (mc_calls m') kv.1 = true) files)
        (λ files, match files !! p with
                  | Some Directory => Ok ((), filter (λ kv, ¬ under p kv) files)
                  | Some _ => Err "ENOTDIR"
                  | None => Err "ENOENT"
                  end) m'
  end.
End LinkedCalls.
