(* ===== verification/FileProvider.v ===== *)
(** * The file provider (crates/iac-providers/src/file/)

    Regular files: their contents, mode and owner. What [observe] finds and
    [diff] compares, the write through a temporary file that is renamed over
    the target, the backup before a change and the restore from it. *)

From stdpp Require Import pretty.
From S2P Require Import Prelude Text Json ApiError Routing Db AuditLog Ids Diff Executor Chars PluginSpec Plugin SpecReader Posix.

#[local] Open Scope string_scope.
#[local] Open Scope list_scope.
#[local] Open Scope nat_scope.
#[local] Open Scope io_scope.

(** ** The spec *)

Inductive FileState := FilePresent | FileAbsent.

#[export] Instance FileState_eq_dec : EqDecision FileState.
Proof. solve_decision. Defined.

Record FileSpec := mkFileSpec {
  fl_path : string;
  fl_state : FileState;
  fl_mode : option string;
  fl_owner : option string;
  fl_group : option string;
  fl_content : option string
}.

Definition mode_digits (s : string) : string := let s := trim s in default s (strip_prefix "0o" s).
Definition parse_mode (s : string) : option Z := from_str_radix_8 (mode_digits s).

Definition parsed_mode (spec : FileSpec) : option Z := m ← fl_mode spec; parse_mode m.

Definition validate_file (spec : FileSpec) : result message () :=
  if negb (is_absolute (fl_path spec)) then Err [Txt "path must be absolute, got "; Txt (fl_path spec)]
  else
  _ ← match fl_state spec with
      | FileAbsent =>
          if bool_decide (is_Some (fl_content spec)) then Err [Txt "state=absent forbids content"]
          else if bool_decide (is_Some (fl_mode spec)) || bool_decide (is_Some (fl_owner spec)) || bool_decide (is_Some (fl_group spec))
          then Err [Txt "state=absent forbids mode/owner/group"]
          else Ok ()
      | FilePresent => Ok ()
      end;
  match fl_mode spec with
  | Some m => match parse_mode m with
              | Some _ => Ok ()
              | None => Err [Txt "invalid mode "; Dbg m; Txt ": "; Txt (int_error u32_max 8 (mode_digits m))]
              end
  | None => Ok ()
  end.

Definition file_fields (v : Json) : option FileSpec :=
  match strict_fields ["path"; "state"; "mode"; "owner"; "group"; "content"] v with
  | Some [path; state; mode; owner; group; content] =>
      p ← required_string path;
      st ← enum_or [("present", FilePresent); ("absent", FileAbsent)] FilePresent state;
      m ← optional_string mode; o ← optional_string owner; g ← optional_string group; c ← optional_string content;
      Some (mkFileSpec p st m o g c)
  | _ => None
  end.

Inductive FileAction := FileWrite | FileDelete.
Definition file_actions : list (string * FileAction) := [("file.write", FileWrite); ("file.delete", FileDelete)].
Definition file_action_name (a : FileAction) : string := match a with FileWrite => "file.write" | FileDelete => "file.delete" end.

Definition BACKUP_FILENAME : string := "backup.bin".

(** The mode as it is written down. *)
Definition mode_text (mode : Z) : string := "0" +:+ octal_text mode.
(** [parse_mode(s.trim_start_matches('0'))]. *)
Definition read_mode_text (s : string) : option Z := parse_mode (trim_start_matches (λ c, (c =? 48)%N) s).

Definition JNum (z : Z) : Json := JNumber (pretty z).

(** The files of a step's workspace directory. *)
Abbreviation Workspace := (gmap string Node).

Section FileProvider.
Context `{Kernel, ExecEnv, Sha256, DebugText}.
(** serde's error for a spec, [/etc/passwd] and [/etc/group] as they are read,
    and the clock. *)
Context (serde_error : Json → string) (passwd group_db : Machine → result string string) (stamp : Machine → string).

Definition file_from_value (v : Json) : result message FileSpec :=
  spec ← ok_or (file_fields v) [Ext (serde_error v)]; _ ← validate_file spec; Ok spec.

(** *** Users and groups

    The third field of the line that starts with the name. *)
Fixpoint find_id (label name : string) (lines : list string) : result string Z :=
  match lines with
  | [] => Err (label +:+ " " +:+ debug_text name +:+ " not found in " +:+ (if decide (label = "user") then "/etc/passwd" else "/etc/group"))
  | line :: lines =>
      let fields := split_on (Ascii.ascii_of_N 58) line in
      if decide (default "" (fields !! 0) = name) then
        match parse_unsigned u32_max (default "" (fields !! 2)) with
        | Some n => Ok n
        | None => Err ("bad " +:+ (if decide (label = "user") then "uid" else "gid") +:+ " for " +:+ name +:+ ": " +:+ int_error u32_max 10 (default "" (fields !! 2)))
        end
      else find_id label name lines
  end.

Definition resolve_id (label : string) (db : result string string) (spec : string) : result string Z :=
  match parse_unsigned u32_max spec with
  | Some n => Ok n
  | None => content ← db; find_id label spec (str_lines content)
  end.
Definition resolve_uid (m : Machine) : string → result string Z := resolve_id "user" (passwd m).
Definition resolve_gid (m : Machine) : string → result string Z := resolve_id "group" (group_db m).

(** *** Observing *)

Definition file_mode (mode : Z) : Z := Z.land mode 4095.

Definition file_kind_label (n : Node) : string :=
  match n with Regular _ _ _ _ => "regular" | Directory => "directory" | Symlink _ => "symlink" | Special => "other" end.

Definition size_of (content : string) : Z := Z.of_nat (String.length content).

Definition observe_file (spec : FileSpec) : io Machine ObservedState :=
  let p := components (fl_path spec) in
  let* node := at_path (fl_path spec) (found (lstat p)) in
  match node with
  | None => λ m, (Ok (mkObserved false JNull [] (stamp m)), m)
  | Some (Regular _ mode uid gid) =>
      let* content := at_path (fl_path spec) (read_file p) in
      let sha := sha256_hex content in
      let size := JNum (size_of content) in
      let mode := JString (mode_text (file_mode mode)) in
      λ m, (Ok (mkObserved true
        (JObject [("path", JString (fl_path spec)); ("state", JString "present"); ("mode", mode); ("owner_uid", JNum uid);
                  ("group_gid", JNum gid); ("content_sha256", JString sha); ("size", size)])
        [("kind", JString "regular"); ("content_sha256", JString sha); ("size", size); ("mode", mode); ("uid", JNum uid); ("gid", JNum gid)]
        (stamp m)), m)
  | Some n =>
      λ m, (Ok (mkObserved true JNull [("kind", JString (file_kind_label n)); ("present_but_not_regular", JBool true)] (stamp m)), m)
  end.

(** *** Comparing *)

Definition fact_str (o : ObservedState) (k : string) : string := default "" (v ← assoc_get k (obs_facts o); as_str v).
(** [as_u64 … as u32]. *)
Definition fact_u32 (o : ObservedState) (k : string) : Z :=
  wrap_unsigned 32 (default 0%Z (v ← assoc_get k (obs_facts o); unsigned_of u64_max v)).

Definition state_change (from to : string) : FieldChange := mkChange "state" (Some (JString from)) (Some (JString to)) false.

(** The changes and reasons one field gives. *)
Definition content_changes (spec : FileSpec) (o : ObservedState) : list FieldChange * list string :=
  match fl_content spec with
  | None => ([], [])
  | Some want =>
      let want_sha := sha256_hex want in
      let have_sha := fact_str o "content_sha256" in
      if decide (want_sha = have_sha) then ([], [])
      else ([mkChange "content_sha256" (Some (JString have_sha)) (Some (JString want_sha)) false], ["content sha256 differs"])
  end.

Definition mode_changes (spec : FileSpec) (o : ObservedState) : list FieldChange * list string :=
  match parsed_mode spec with
  | None => ([], [])
  | Some want =>
      let have := default 0%Z (read_mode_text (fact_str o "mode")) in
      if decide (want = have) then ([], [])
      else ([mkChange "mode" (Some (JString (mode_text have))) (Some (JString (mode_text want))) false],
            ["mode " +:+ mode_text have +:+ " -> " +:+ mode_text want])
  end.

Definition owner_changes (field unit_name fact : string) (resolve : string → result string Z) (who : option string) (o : ObservedState)
    : list FieldChange * list string :=
  match who with
  | None => ([], [])
  | Some name =>
      match resolve name with
      | Ok want =>
          let have := fact_u32 o fact in
          if decide (want = have) then ([], [])
          else ([mkChange field (Some (JNum have)) (Some (JString name)) false],
                [field +:+ " " +:+ unit_name +:+ " " +:+ pretty have +:+ " -> " +:+ pretty want])
      | Err e => ([], ["could not resolve " +:+ field +:+ " " +:+ debug_text name +:+ ": " +:+ e])
      end
  end.

(** The users are those of the machine [seen]. *)
Definition diff_file (seen : Machine) (spec : FileSpec) (o : ObservedState) : Diff :=
  match fl_state spec, obs_present o with
  | FileAbsent, false => no_change
  | FileAbsent, true => mkDiff Update [state_change "present" "absent"] ["file should be absent but exists"] true
  | FilePresent, false => mkDiff Create [state_change "absent" "present"] ["file should be present but is missing"] true
  | FilePresent, true =>
      let parts := [content_changes spec o; mode_changes spec o;
                    owner_changes "owner" "uid" "uid" (resolve_uid seen) (fl_owner spec) o;
                    owner_changes "group" "gid" "gid" (resolve_gid seen) (fl_group spec) o] in
      match concat (map fst parts) with
      | [] => no_change
      | changes => mkDiff Update changes (concat (map snd parts)) true
      end
  end.

(** *** Writing *)

Definition wrote (spec : FileSpec) (content : string) : StepResult :=
  mkStepResult StSucceeded [Txt "wrote "; Txt (fl_path spec); Txt " ("; Dec (size_of content); Txt " bytes)"]
    (JObject [("bytes", JNum (size_of content)); ("content_sha256", JString (sha256_hex content)); ("path", JString (fl_path spec))]) None.

Definition temp_name (stem ulid : string) : string := "." +:+ stem +:+ ".iac." +:+ ulid +:+ ".tmp".

(** [FileType] of what is there, and the refusal. *)
Definition refuse_target (path : string) (n : Node) : CoreResult () :=
  match n with
  | Symlink _ =>
      Err (EProvider "file" [Txt "refusing to write through symlink at "; Txt path;
        Txt ": remove the symlink first or change the manifest path. A symlink at this location often signals an attacker-planted redirect aimed at privilege escalation."])
  | Directory => Err (EProvider "file" [Txt path; Txt " is a directory, not a file — refusing to overwrite"])
  | _ => Ok ()
  end.

Definition when_some {S A} (o : option A) (f : A → io S ()) : io S () :=
  match o with Some a => f a | None => io_ret () end.

Definition write_atomic_unix (path : string) (dir : list string) (content : string) (mode uid gid : option Z) : io Machine () :=
  let p := components path in
  match file_name p with
  | None => io_throw (EProvider "file" [Txt "path has no file name: "; Txt path])
  | Some basename =>
      at_path (path_text dir) (open_dir dir) ;*
      let target := dir ++ [basename] in
      let* existing := at_path path (found (lstat target)) in
      when_some existing (λ n, io_lift (refuse_target path n)) ;*
      let* ulid := new_ulid_name in
      let tmp := dir ++ [temp_name basename ulid] in
      at_path (path_text tmp) (create_new tmp) ;*
      at_path (path_text tmp) (write_all tmp content) ;*
      at_path (path_text tmp) sync_all ;*
      when_some mode (λ mode, at_path (path_text tmp) (chmod tmp mode)) ;*
      (if bool_decide (is_Some uid) || bool_decide (is_Some gid) then at_path (path_text tmp) (chown tmp uid gid) else io_ret ()) ;*
      at_path path (rename tmp target)
  end.

Definition path_has_no_parent (kind path : string) : CoreError := EProvider kind [Txt "path has no parent: "; Txt path].

(** The parent, made when it is not there. *)
Definition ensure_parent (no_parent : CoreError) (path : string) : io Machine (list string) :=
  match parent (components path) with
  | None => io_throw no_parent
  | Some dir =>
      let* there := path_exists dir in
      (if there then io_ret () else at_path (path_text dir) (create_dir_all dir)) ;*
      io_ret dir
  end.

(** [spec.owner.map(resolve).transpose()]. *)
Definition resolve_opt (what : string) (resolve : string → result string Z) (who : option string) : CoreResult (option Z) :=
  match who with
  | None => Ok None
  | Some name => match resolve name with
                 | Ok n => Ok (Some n)
                 | Err e => Err (EProvider "file" [Txt what; Txt " resolution failed: "; Txt e])
                 end
  end.

Definition write_file (spec : FileSpec) : io Machine StepResult :=
  let* dir := ensure_parent (path_has_no_parent "file" (fl_path spec)) (fl_path spec) in
  let content := default "" (fl_content spec) in
  let* uid := (λ m, (resolve_opt "owner" (resolve_uid m) (fl_owner spec), m)) in
  let* gid := (λ m, (resolve_opt "group" (resolve_gid m) (fl_group spec), m)) in
  write_atomic_unix (fl_path spec) dir content (parsed_mode spec) uid gid ;*
  io_ret (wrote spec content).

Definition delete_file (path : string) : io Machine StepResult :=
  let* removed := at_path path (found (remove_file (components path))) in
  io_ret (match removed with
          | Some _ => step_result_ok [Txt "deleted "; Txt path]
          | None => step_result_skipped [Txt path; Txt " already absent"]
          end).

(** *** The backup *)

(** [fs::copy] into the workspace. *)
Definition copy_out (p : list string) (name : string) : io (Machine * Workspace) () := λ '(m, ws),
  let put c mode := match copied c mode (ws !! name) with Some n => <[name := n]> ws | None => ws end in
  let '(r, m') := read_file p m in
  match r with
  | Ok c =>
      match mc_files m !! p with
      | Some (Regular _ mode _ _) =>
          match copied c mode (ws !! name) with
          | Some n => (Ok (), (m', put c mode))
          | None => (Err (EIo name "EISDIR"), (m', ws))
          end
      | _ => (Err (EIo name "ENOENT"), (m', ws))
      end
  | Err e =>
      match part_written (mc_calls m), mc_files m !! p with
      | Some k, Some (Regular c mode _ _) => (Err (EIo name e), (m', put (str_upto k c) mode))
      | _, _ => (Err (EIo name e), (m', ws))
      end
  end.

Definition backup (path : string) : io (Machine * Workspace) Json :=
  let p := components path in
  on_machine (at_path "workspace" (syscall (λ files, Ok ((), files)))) ;*
  let* node := on_machine (at_path path (found (lstat p))) in
  match node with
  | None => io_ret (JObject [("existed", JBool false); ("path", JString path)])
  | Some (Regular content mode uid gid) =>
      copy_out p BACKUP_FILENAME ;*
      io_ret (JObject [("backup", JString BACKUP_FILENAME); ("existed", JBool true); ("gid", JNum gid);
                       ("mode", JString (mode_text (file_mode mode))); ("path", JString path);
                       ("size", JNum (size_of content)); ("uid", JNum uid)])
  | Some _ => io_throw (EProvider "file" [Txt "refusing to back up non-regular file "; Txt path])
  end.

(** *** The restore *)

(** Equality of paths: of their components. *)
Definition path_eq (a b : string) : bool :=
  Bool.eqb (is_absolute a) (is_absolute b) && bool_decide (components a = components b).

(** [fs::copy] out of the workspace, to a path that may be taken. *)
Definition copy_in (name : string) (tmp : list string) : io (Machine * Workspace) () := λ '(m, ws),
  match ws !! name with
  | Some (Regular c mode _ _) =>
      let put text files := match copied text mode (files !! tmp) with Some n => <[tmp := n]> files | None => files end in
      let '(r, m') := call_or (λ part files, match part with Some k => put (str_upto k c) files | None => files end)
                        (λ files, match copied c mode (files !! tmp) with
                                  | Some n => Ok ((), <[tmp := n]> files)
                                  | None => Err "EISDIR"
                                  end) m in
      (map_err (EIo (path_text tmp)) r, (m', ws))
  | _ => (Err (EIo (path_text tmp) "ENOENT"), (m, ws))
  end.

(** [backup.exists()]. *)
Definition backup_exists (name : string) : io (Machine * Workspace) bool := λ '(m, ws),
  let '(r, m') := syscall (λ files, Ok ((), files)) m in
  (Ok (match r, ws !! name with Ok _, Some _ => true | _, _ => false end), (m', ws)).

Definition data_u32 (data : Json) (k : string) : option Z :=
  v ← json_get data k; n ← unsigned_of u64_max v; if decide (n ≤ u32_max)%Z then Some n else None.

Definition restore (target : string) (data : Json) : io (Machine * Workspace) () :=
  let stored := v ← json_get data "path"; as_str v in
  if match stored with Some s => negb (path_eq s target) | None => false end then
    io_throw (EProvider "file" [Txt "checkpoint path mismatch: stored="; Dbg (default "" stored); Txt " but resource path=";
      Txt target; Txt " (refusing to restore — possible tampered checkpoint)"])
  else if negb (default false (v ← json_get data "existed"; as_bool v)) then
    on_machine (let* _ := at_path target (found (remove_file (components target))) in io_ret ())
  else
    let name := default BACKUP_FILENAME (v ← json_get data "backup"; as_str v) in
    if str_contains "/" name || str_contains "\" name || str_contains ".." name then
      io_throw (EProvider "file" [Txt "checkpoint backup name "; Dbg name; Txt " contains path separators"])
    else
    let* there := backup_exists name in
    if negb there then io_throw (EProvider "file" [Txt "backup file "; Txt name; Txt " not found"])
    else
    let* dir := on_machine (ensure_parent (path_has_no_parent "file" target) target) in
    let* ulid := on_machine new_ulid_name in
    let tmp := dir ++ [temp_name (default "tmp" (file_name (components target))) ulid] in
    copy_in name tmp ;*
    when_some (v ← json_get data "mode"; s ← as_str v; read_mode_text s)
      (λ mode, io_ignore (on_machine (at_path (path_text tmp) (chmod tmp mode)))) ;*
    let uid := data_u32 data "uid" in
    let gid := data_u32 data "gid" in
    (if bool_decide (is_Some uid) || bool_decide (is_Some gid)
     then io_ignore (on_machine (at_path (path_text tmp) (chown tmp uid gid))) else io_ret ()) ;*
    on_machine (at_path target (rename tmp (components target))).

(** *** The provider *)

Definition file_spec_of (r : Resource) : CoreResult FileSpec := parse_spec "file" file_from_value r.

Definition file_plan (r : Resource) (d : Diff) (n : nat) : CoreResult (list Step) * nat :=
  match file_spec_of r with
  | Err e => (Err e, n)
  | Ok spec =>
      match diff_kind d with
      | NoChange => (Ok [], n)
      | k =>
          let action := match k, fl_state spec with Delete, _ | _, FileAbsent => FileDelete | _, FilePresent => FileWrite end in
          let verb := match action with FileWrite => "write " | FileDelete => "delete " end in
          (Ok [step_new (ulid_at n) (file_action_name action) (verb +:+ fl_path spec) (JObject [("path", JString (fl_path spec))])], S n)
      end
  end.

Definition file_verify (r : Resource) (m : Machine) : CoreResult VerifyOutcome :=
  spec ← file_spec_of r;
  o ← (observe_file spec m).1;
  let d := diff_file m spec o in
  Ok (if is_change d then
        VMismatch (match diff_changes d with [] => [mkChange "state" None None false] | changes => changes end)
      else VMatch).

Definition file_rollback (r : Resource) (cp : Checkpoint) : io (Machine * Workspace) () :=
  let from_spec := match file_spec_of r with Ok spec => Some (fl_path spec) | Err _ => None end in
  let from_checkpoint := v ← json_get (cp_data cp) "path"; as_str v in
  match from_spec, from_checkpoint with
  | Some target, _ | None, Some target => restore target (cp_data cp)
  | None, None => io_throw (EProvider "file" [Txt "rollback: neither resource spec nor checkpoint carried a path"])
  end.

Definition file_provider (seen : Machine) : Provider Machine Workspace := {|
  p_observe r m := spec ← file_spec_of r; (observe_file spec m).1;
  p_diff r o := spec ← file_spec_of r; Ok (diff_file seen spec o);
  p_plan := file_plan;
  p_pre_apply r s ctx := let* spec := io_lift (file_spec_of r) in
                         let* _ := io_lift (parse_action "FileAction" file_actions (st_action s)) in
                         backup (fl_path spec);
  p_apply r s ctx := let* spec := io_lift (file_spec_of r) in
                     let* action := io_lift (parse_action "FileAction" file_actions (st_action s)) in
                     on_machine (match action with FileWrite => write_file spec | FileDelete => delete_file (fl_path spec) end);
  p_verify := file_verify;
  p_rollback := file_rollback;
  p_capability_keys r := spec ← file_spec_of r; Ok [fl_path spec]
|}.

End FileProvider.
