(* ===== verification/FileProps.v ===== *)
(** * What the file provider guarantees

    A write replaces the target as a whole or leaves it, and touches nothing
    else but its temporary file and missing directories; so does a restore,
    whatever the checkpoint says; a restore after a backup brings the file
    back; what was written is what the next observation wants; and the
    provider keeps the contract of the executor's rollback, so that an
    operation on many files is undone as a whole. *)

From stdpp Require Import pretty.
From S2P Require Import Prelude Text Json ApiError Routing Db AuditLog Ids Diff Executor ExecutorProps Chars PluginSpec Plugin SpecReader Posix FileProvider.

#[local] Open Scope string_scope.
#[local] Open Scope list_scope.
#[local] Open Scope nat_scope.

(** ** Triples over the files *)

Section Triples.
Context `{Kernel}.

(** From files in [P], [c] ends in [Q] when it succeeds and leaves [E] when it fails. *)
Definition ftriple {A : Type} (P : Files → Prop) (c : io Machine A) (Q : A → Files → Prop) (E : Files → Prop) : Prop :=
  ∀ m, P (mc_files m) → match c m with (Ok a, m') => Q a (mc_files m') | (Err _, m') => E (mc_files m') end.

Lemma ft_ret {A : Type} (a : A) P (Q : A → Files → Prop) E : (∀ f, P f → Q a f) → ftriple P (io_ret a) Q E.
Proof. intros HP m Hm. by apply HP. Qed.

Lemma ft_throw {A : Type} e P (Q : A → Files → Prop) (E : Files → Prop) : (∀ f, P f → E f) → ftriple P (io_throw e) Q E.
Proof. intros HP m Hm. by apply HP. Qed.

Lemma ft_lift {A : Type} (r : CoreResult A) P (Q : A → Files → Prop) (E : Files → Prop) :
  (∀ f, P f → match r with Ok a => Q a f | Err _ => E f end) → ftriple P (io_lift r) Q E.
Proof. intros HP m Hm. unfold io_lift. specialize (HP _ Hm). by destruct r. Qed.

Lemma ft_bind {A B : Type} P (c : io Machine A) (k : A → io Machine B) Q R E :
  ftriple P c Q E → (∀ a, ftriple (Q a) (k a) R E) → ftriple P (io_bind c k) R E.
Proof. intros Hc Hk m Hm. specialize (Hc m Hm). unfold io_bind. destruct (c m) as [[a|e] m']; [by apply Hk|done]. Qed.

Lemma ft_weaken {A : Type} (P P' : Files → Prop) (c : io Machine A) (Q Q' : A → Files → Prop) (E E' : Files → Prop) :
  ftriple P c Q E → (∀ f, P' f → P f) → (∀ a f, Q a f → Q' a f) → (∀ f, E f → E' f) → ftriple P' c Q' E'.
Proof. intros Hc HP HQ HE m Hm. specialize (Hc m (HP _ Hm)). destruct (c m) as [[a|e] m']; auto. Qed.

Lemma ft_call_or {A : Type} path cut (f : Files → result string (A * Files)) P (Q : A → Files → Prop) (E : Files → Prop) :
  (∀ part files, P files → E (cut part files)) →
  (∀ files, P files → match f files with Ok (a, files') => Q a files' | Err _ => E files end) →
  ftriple P (at_path path (call_or cut f)) Q E.
Proof.
  intros Hcut Hf m Hm. unfold at_path, call_or. destruct (call_fails (mc_calls m)) as [e|]; cbn; [by apply Hcut|].
  specialize (Hf _ Hm). by destruct (f (mc_files m)) as [[a files]|e].
Qed.

Lemma ft_syscall {A : Type} path (f : Files → result string (A * Files)) P (Q : A → Files → Prop) (E : Files → Prop) :
  (∀ files, P files → E files) →
  (∀ files, P files → match f files with Ok (a, files') => Q a files' | Err _ => E files end) →
  ftriple P (at_path path (syscall f)) Q E.
Proof. intros HE Hf. by apply ft_call_or; [intros _|]. Qed.

Lemma ft_assume {A : Type} (φ : Prop) P (c : io Machine A) Q E : (φ → ftriple P c Q E) → ftriple (λ f, φ ∧ P f) c Q E.
Proof. intros Hc m [Hφ Hm]. by apply Hc. Qed.

Lemma ft_assume_r {A : Type} (φ : Prop) P (c : io Machine A) Q E : (φ → ftriple P c Q E) → ftriple (λ f, P f ∧ φ) c Q E.
Proof. intros Hc m [Hm Hφ]. by apply Hc. Qed.

(** A fault does not pass for a missing file. *)
Hypothesis honest : ∀ i, call_fails i ≠ Some "ENOENT".

Lemma ft_lstat path p P : ftriple P (at_path path (found (lstat p))) (λ o f, P f ∧ f !! p = o) P.
Proof.
  intros m Hm. unfold at_path, found, lstat, syscall, call_or. destruct (call_fails (mc_calls m)) as [e|] eqn:Hf; cbn.
  - rewrite decide_False by (intros ->; by apply honest in Hf). exact Hm.
  - destruct (mc_files m !! p) as [n|] eqn:Hn; cbn; [done|]. rewrite decide_True; [done|reflexivity].
Qed.

Lemma ft_remove path p (P : Files → Prop) (Q : option () → Files → Prop) (E : Files → Prop) :
  (∀ f, P f → E f) → (∀ f, P f → f !! p = None → Q None f) →
  (∀ f n, P f → f !! p = Some n → n ≠ Directory → Q (Some ()) (delete p f)) →
  ftriple P (at_path path (found (remove_file p))) Q E.
Proof.
  intros HE HN HS m Hm. unfold at_path, found, remove_file, syscall, call_or. destruct (call_fails (mc_calls m)) as [e|] eqn:Hf; cbn.
  - rewrite decide_False by (intros ->; by apply honest in Hf). by apply HE.
  - destruct (mc_files m !! p) as [[c mode u g| |l|]|] eqn:Hn; cbn; [by eapply HS|by apply HE|by eapply HS..|].
    rewrite decide_True; [by apply HN|reflexivity].
Qed.

Lemma ft_ulid (P : Files → Prop) E : ftriple P new_ulid_name (λ _, P) E.
Proof. by intros m Hm. Qed.

Lemma ft_exists p P E : ftriple P (path_exists p) (λ _, P) E.
Proof.
  intros m Hm. unfold path_exists, lstat, syscall, call_or. destruct (call_fails (mc_calls m)); cbn; [exact Hm|].
  by destruct (mc_files m !! p) as [[]|].
Qed.

Lemma ft_open_dir path d P : ftriple P (at_path path (open_dir d)) (λ _, P) P.
Proof. apply ft_syscall; [done|]. intros f Hf. by destruct (f !! d) as [[]|], d. Qed.

(** ** Directories *)

(** [f] is [f0] with directories made on the way to [dir]. *)
Definition grown (dir : list string) (f0 f : Files) : Prop :=
  ∀ q, f !! q = f0 !! q ∨ (f0 !! q = None ∧ f !! q = Some Directory ∧ q `prefix_of` dir).

Lemma grown_refl dir f : grown dir f f.
Proof. intros q. by left. Qed.

Lemma grown_insert dir f0 f p : grown dir f0 f → f !! p = None → p `prefix_of` dir → grown dir f0 (<[p := Directory]> f).
Proof.
  intros Hg Hn Hp q. destruct (decide (q = p)) as [->|Hq].
  - right. rewrite lookup_insert_eq. destruct (Hg p) as [He|[? ?]]; [split_and!; [congruence|done|done]|naive_solver].
  - rewrite lookup_insert_ne by done. apply Hg.
Qed.

Lemma ft_raw {A : Type} path (c : Machine → result string A * Machine) P (Q : A → Files → Prop) (E : Files → Prop) :
  (∀ m, P (mc_files m) → match c m with (Ok a, m') => Q a (mc_files m') | (Err _, m') => E (mc_files m') end) →
  ftriple P (at_path path c) Q E.
Proof. intros Hc m Hm. specialize (Hc m Hm). unfold at_path. by destruct (c m) as [[a|e] m']. Qed.

Lemma mkdir_grown dir f0 p m :
  p `prefix_of` dir → grown dir f0 (mc_files m) → grown dir f0 (mc_files (mkdir p m).2).
Proof.
  intros Hp Hg. unfold mkdir, syscall, call_or. destruct (call_fails (mc_calls m)); cbn; [done|].
  destruct (mc_files m !! p) eqn:Hn; [done|]. destruct (parent p) as [[|d ds]|]; cbn; [by apply grown_insert| |done].
  destruct (is_dir _); cbn; [by apply grown_insert|]. by destruct (mc_files m !! (d :: ds)) as [[| |[]|]|].
Qed.

Lemma mkdir_or_there_same p e m : mc_files (mkdir_or_there p e m).2 = mc_files m.
Proof.
  unfold mkdir_or_there, lstat, syscall, call_or. destruct (call_fails (mc_calls m)); cbn.
  - by case_bool_decide.
  - destruct (mc_files m !! p) as [n|]; cbn; by repeat case_match.
Qed.

Lemma create_dir_all_grown dir f0 rp m :
  rev rp `prefix_of` dir → grown dir f0 (mc_files m) → grown dir f0 (mc_files (create_dir_all_rev rp m).2).
Proof.
  revert m. induction rp as [|c rp IH]; intros m Hp Hg; cbn [create_dir_all_rev].
  - pose proof (mkdir_grown dir f0 (rev []) m Hp Hg) as H1. destruct (mkdir (rev []) m) as [[[]|e] m1]; [exact H1|]. cbn in *.
    case_decide; [exact H1|]. by rewrite mkdir_or_there_same.
  - pose proof (mkdir_grown dir f0 (rev (c :: rp)) m Hp Hg) as H1. destruct (mkdir (rev (c :: rp)) m) as [[[]|e] m1]; [exact H1|]. cbn [snd] in H1.
    case_decide; [|by rewrite mkdir_or_there_same].
    assert (rev rp `prefix_of` dir) as Hp' by (etrans; [|exact Hp]; cbn; by apply prefix_app_r).
    specialize (IH m1 Hp' H1). destruct (create_dir_all_rev rp m1) as [[[]|e'] m2]; [|exact IH]. cbn [snd] in IH.
    pose proof (mkdir_grown dir f0 (rev (c :: rp)) m2 Hp IH) as H3. destruct (mkdir (rev (c :: rp)) m2) as [[[]|e'] m3]; [exact H3|].
    by rewrite mkdir_or_there_same.
Qed.

Lemma ft_ensure_parent kind path f0 :
  let dir := removelast (components path) in
  ftriple (grown dir f0) (ensure_parent kind path) (λ d f, d = dir ∧ grown dir f0 f) (grown dir f0).
Proof.
  intros dir. unfold ensure_parent. destruct (components path) as [|c p] eqn:Hc; [by apply ft_throw|]. cbn [parent].
  eapply ft_bind; [apply ft_exists|]. intros there.
  eapply (ft_bind _ _ _ (λ _ f, grown dir f0 f)); [|intros _; by apply ft_ret].
  destruct there; [by apply ft_ret|]. apply ft_raw. intros m Hm.
  pose proof (create_dir_all_grown dir f0 (rev dir) m) as Hg. rewrite rev_involutive in Hg. specialize (Hg ltac:(done) Hm).
  unfold create_dir_all. fold dir. by destruct (create_dir_all_rev (rev dir) m) as [[[]|e] m'].
Qed.

(** ** The write *)

(** The file a write makes. *)
Definition written_file (content : string) (mode uid gid : option Z) : Node :=
  let m := match mode with Some mode => Z.land mode 4095 | None => 384%Z end in
  Regular content (if bool_decide (is_Some uid) || bool_decide (is_Some gid) then chown_mode m else m)
    (default new_owner.1 uid) (default new_owner.2 gid).

Definition replaceable (n : option Node) : Prop := ∀ k, n = Some k → k ≠ Directory ∧ ∀ t, k ≠ Symlink t.

(** [f]: grown from [f0], and the temporary file holds [n]. *)
Definition staged (dir tmp : list string) (f0 : Files) (n : Node) (f : Files) : Prop :=
  ∃ f1, grown dir f0 f1 ∧ f1 !! tmp = None ∧ f = <[tmp := n]> f1.

Lemma staged_map dir tmp f0 c mode u g n f (k : string → Z → Z → Z → Node) :
  staged dir tmp f0 (Regular c mode u g) f → k c mode u g = n → staged dir tmp f0 n (map_regular k tmp f).
Proof.
  intros (f1 & Hg & Hn & ->) <-. exists f1. split_and!; [done..|]. unfold map_regular. rewrite lookup_insert_eq.
  by rewrite insert_insert_eq.
Qed.

Section Write.
Context (path : string) (dir : list string) (basename : string) (f0 : Files).
Let target : list string := dir ++ [basename].
Let temp (u : string) : list string := dir ++ [temp_name basename u].

(** Not finished: nothing but directories and a temporary file. *)
Definition pending (f : Files) : Prop := grown dir f0 f ∨ ∃ u n, staged dir (temp u) f0 n f.

Lemma ft_write_atomic content mode uid gid :
  components path = target → basename ≠ ".." →
  ftriple (grown dir f0) (write_atomic_unix path dir content mode uid gid)
    (λ _ f, replaceable (f0 !! target) ∧ ∃ f1, grown dir f0 f1 ∧ f = <[target := written_file content mode uid gid]> f1)
    pending.
Proof.
  intros Hp Hb. unfold write_atomic_unix. rewrite Hp. unfold file_name, target. rewrite last_snoc, decide_False by done.
  fold target. assert (∀ f, grown dir f0 f → pending f) as Hpend by (by left).
  eapply ft_bind with (Q := λ _, grown dir f0).
  { eapply (ft_weaken (grown dir f0)); [apply ft_open_dir|done..|exact Hpend]. }
  intros []. eapply ft_bind; [eapply (ft_weaken (grown dir f0)); [apply (ft_lstat path target (grown dir f0))|done|intros o f Hf; exact Hf|exact Hpend]|].
  intros existing. eapply ft_bind with (Q := λ _ f, grown dir f0 f ∧ replaceable (f0 !! target)).
  { destruct existing as [n|]; cbn [when_some].
    - apply ft_lift. intros f [Hg Hn]. destruct n as [c md u g| |t|] eqn:E; cbn; [|by apply Hpend..|]; (split; [done|]);
        (destruct (Hg target) as [He|(? & ? & _)]; [|congruence]); intros k Hk; rewrite <- He, Hn in Hk; by simplify_eq.
    - apply ft_ret. intros f [Hg Hn]. split; [done|]. destruct (Hg target) as [He|(Hz & _)]; intros k Hk; congruence. }
  intros []. eapply ft_bind; [apply (ft_ulid _ pending)|]. intros u. fold (temp u).
  eapply ft_bind with (Q := λ _ f, staged dir (temp u) f0 (Regular "" 384 new_owner.1 new_owner.2) f ∧ replaceable (f0 !! target)).
  { apply ft_syscall; [by intros f [Hg _]; left|]. intros f [Hg Hr]. destruct (f !! temp u) eqn:Hn; [by left|].
    split; [|done]. by exists f. }
  assert (∀ n f, staged dir (temp u) f0 n f ∧ replaceable (f0 !! target) → pending f) as Hst by (intros n f [Hs _]; right; by exists u, n).
  intros []. eapply ft_bind with (Q := λ _ f, staged dir (temp u) f0 (Regular content 384 new_owner.1 new_owner.2) f ∧ replaceable (f0 !! target)).
  { apply ft_call_or.
    - intros [n|] f Hf; [|by eapply Hst]. destruct Hf as [Hs Hr]. right. eexists u, _. by eapply staged_map; [exact Hs|].
    - intros f [Hs Hr]. split; [|done]. by eapply staged_map; [exact Hs|]. }
  intros []. eapply ft_bind with (Q := λ _ f, staged dir (temp u) f0 (Regular content 384 new_owner.1 new_owner.2) f ∧ replaceable (f0 !! target)).
  { apply ft_syscall; [by apply Hst|done]. }
  set (md := match mode with Some mode => Z.land mode 4095 | None => 384%Z end).
  intros []. eapply ft_bind with (Q := λ _ f, staged dir (temp u) f0 (Regular content md new_owner.1 new_owner.2) f ∧ replaceable (f0 !! target)).
  { destruct mode as [mode|]; cbn [when_some]; [|by apply ft_ret].
    apply ft_syscall; [by apply Hst|]. intros f [Hs Hr]. split; [|done]. by eapply staged_map; [exact Hs|]. }
  intros []. eapply ft_bind with (Q := λ _ f, staged dir (temp u) f0 (written_file content mode uid gid) f ∧ replaceable (f0 !! target)).
  { unfold written_file. fold md. destruct (bool_decide (is_Some uid) || bool_decide (is_Some gid)) eqn:Hsome.
    - apply ft_syscall; [by apply Hst|]. intros f [Hs Hr]. split; [|done]. by eapply staged_map; [exact Hs|].
    - apply orb_false_iff in Hsome as [Hu Hg]. apply bool_decide_eq_false in Hu, Hg.
      destruct uid; [by destruct Hu|]. destruct gid; [by destruct Hg|]. by apply ft_ret. }
  intros []. apply ft_syscall; [by apply Hst|]. intros f [(f1 & Hg & Hn & ->) Hr]. rewrite lookup_insert_eq.
  case_decide; [apply (Hst (written_file content mode uid gid)); split; [by exists f1|done]|].
  split; [done|]. exists f1. split; [done|]. by rewrite delete_insert_id.
Qed.

End Write.

(** ** The whole write *)

Lemma temp_ne b u (dir : list string) : dir ++ [b] ≠ dir ++ [temp_name b u].
Proof.
  intros He%(inj (app dir)). injection He as He. apply (f_equal String.length) in He. unfold temp_name in He. rewrite !str_length_app in He. cbn in He. lia.
Qed.

(** What changed between two states of the files, when only the target, its
    temporary file and missing directories did. *)
Definition confined (dir : list string) (b : string) (f0 f : Files) : Prop :=
  ∀ q, q ≠ dir ++ [b] → (∀ u, q ≠ dir ++ [temp_name b u]) →
    f !! q = f0 !! q ∨ (f0 !! q = None ∧ f !! q = Some Directory ∧ q `prefix_of` dir).

Lemma grown_confined dir b f0 f : grown dir f0 f → confined dir b f0 f.
Proof. intros Hg q _ _. apply Hg. Qed.

Lemma confined_insert_temp dir b u n f0 f : confined dir b f0 f → confined dir b f0 (<[dir ++ [temp_name b u] := n]> f).
Proof. intros Hc q Hq Hu. rewrite lookup_insert_ne by (intros Hz; by apply (Hu u)). by apply Hc. Qed.
Lemma confined_insert_target dir b n f0 f : confined dir b f0 f → confined dir b f0 (<[dir ++ [b] := n]> f).
Proof. intros Hc q Hq Hu. rewrite lookup_insert_ne by (intros Hz; by apply Hq). by apply Hc. Qed.
Lemma confined_delete_temp dir b u f0 f : confined dir b f0 f → confined dir b f0 (delete (dir ++ [temp_name b u]) f).
Proof. intros Hc q Hq Hu. rewrite lookup_delete_ne by (intros Hz; by apply (Hu u)). by apply Hc. Qed.
Lemma confined_delete_target dir b f0 f : confined dir b f0 f → confined dir b f0 (delete (dir ++ [b]) f).
Proof. intros Hc q Hq Hu. rewrite lookup_delete_ne by (intros Hz; by apply Hq). by apply Hc. Qed.

Lemma grown_target dir b f0 f : grown dir f0 f → f !! (dir ++ [b]) = f0 !! (dir ++ [b]).
Proof.
  intros Hg. destruct (Hg (dir ++ [b])) as [He|(_ & _ & Hp)]; [done|].
  apply prefix_length in Hp. rewrite length_app in Hp. cbn in Hp. lia.
Qed.

Lemma pending_confined dir b f0 f : pending dir b f0 f → confined dir b f0 f ∧ f !! (dir ++ [b]) = f0 !! (dir ++ [b]).
Proof.
  intros [Hg|(u & n & f1 & Hg & Hn & ->)].
  - split; [by apply grown_confined|by apply grown_target].
  - split; [by apply confined_insert_temp, grown_confined|]. rewrite lookup_insert_ne by (intros He; by apply (temp_ne b u dir)).
    by apply grown_target.
Qed.

Lemma file_name_Some p b : file_name p = Some b → p = removelast p ++ [b] ∧ b ≠ "..".
Proof.
  unfold file_name. destruct (last p) as [x|] eqn:Hl; [|done]. case_decide; [done|]. intros [= <-]. split; [|done].
  apply last_Some in Hl as [l ->]. by rewrite removelast_last.
Qed.

Context `{ExecEnv, Sha256, DebugText} (passwd group_db : Machine → result string string).

Lemma ft_query {A : Type} (r : Machine → CoreResult A) P :
  ftriple P (λ m, (r m, m)) (λ a f, P f ∧ ∃ m, r m = Ok a) P.
Proof. intros m Hm. destruct (r m) eqn:Hr; [|done]. split; [done|]. by exists m. Qed.

Section Spec.
Context (spec : FileSpec) (b : string).
Let dir : list string := removelast (components (fl_path spec)).
Let target : list string := dir ++ [b].

(** The user and the group the machine gives for the spec. *)
Definition owners (uid gid : option Z) : Prop :=
  (∃ m, resolve_opt "owner" (resolve_uid passwd m) (fl_owner spec) = Ok uid) ∧
  (∃ m, resolve_opt "group" (resolve_gid group_db m) (fl_group spec) = Ok gid).

Lemma ft_write_file f0 : file_name (components (fl_path spec)) = Some b →
  ftriple (λ f, f = f0) (write_file passwd group_db spec)
    (λ _ f, replaceable (f0 !! target) ∧ ∃ uid gid f1, owners uid gid ∧ grown dir f0 f1 ∧
       f = <[target := written_file (default "" (fl_content spec)) (parsed_mode spec) uid gid]> f1)
    (pending dir b f0).
Proof.
  intros [Hp Hb]%file_name_Some. unfold write_file.
  eapply ft_bind; [eapply ft_weaken; [apply (ft_ensure_parent _ _ f0)|intros f ->; apply grown_refl|intros d f Hd; exact Hd|by left]|].
  intros d. apply ft_assume. intros ->. fold dir.
  eapply ft_bind with (Q := λ uid f, grown dir f0 f ∧ ∃ m, resolve_opt "owner" (resolve_uid passwd m) (fl_owner spec) = Ok uid).
  { eapply ft_weaken; [apply (ft_query _ (grown dir f0))|done|done|by left]. }
  intros uid. apply ft_assume_r. intros Hu.
  eapply ft_bind with (Q := λ gid f, grown dir f0 f ∧ ∃ m, resolve_opt "group" (resolve_gid group_db m) (fl_group spec) = Ok gid).
  { eapply ft_weaken; [apply (ft_query _ (grown dir f0))|done|done|by left]. }
  intros gid. apply ft_assume_r. intros Hg.
  eapply ft_bind; [by apply (ft_write_atomic (fl_path spec) dir b f0)|].
  intros []. apply ft_ret. intros f (Hr & f1 & Hf1 & ->). split; [done|]. by exists uid, gid, f1.
Qed.

Lemma ft_delete_file f0 : file_name (components (fl_path spec)) = Some b →
  ftriple (λ f, f = f0) (delete_file (fl_path spec))
    (λ _ f, f = delete target f0 ∧ f0 !! target ≠ Some Directory) (λ f, f = f0).
Proof.
  intros [Hp Hb]%file_name_Some. unfold delete_file. fold dir in Hp. rewrite Hp. fold target.
  eapply ft_bind; [apply (ft_remove _ _ _ (λ _ f, f = delete target f0 ∧ f0 !! target ≠ Some Directory))|].
  - done.
  - intros f -> Hn. by rewrite delete_id, Hn.
  - intros f n -> Hn Hd. rewrite Hn. split; congruence.
  - intros o. by apply ft_ret.
Qed.
End Spec.

(** ** The restore *)

(** Triples of a computation that leaves the workspace alone. *)
Definition wtriple {A : Type} (ws : Workspace) (P : Files → Prop) (c : io (Machine * Workspace) A) (Q : A → Files → Prop)
    (E : Files → Prop) : Prop :=
  ∀ m, P (mc_files m) → match c (m, ws) with
                        | (Ok a, (m', ws')) => ws' = ws ∧ Q a (mc_files m')
                        | (Err _, (m', ws')) => ws' = ws ∧ E (mc_files m')
                        end.

Lemma wt_bind {A B : Type} ws P (c : io (Machine * Workspace) A) (k : A → io (Machine * Workspace) B) Q R E :
  wtriple ws P c Q E → (∀ a, wtriple ws (Q a) (k a) R E) → wtriple ws P (io_bind c k) R E.
Proof.
  intros Hc Hk m Hm. specialize (Hc m Hm). unfold io_bind. destruct (c (m, ws)) as [[a|e] [m' ws']]; destruct Hc as [-> Hc]; [by apply Hk|done].
Qed.

Lemma wt_ret {A : Type} ws (a : A) P (Q : A → Files → Prop) E : (∀ f, P f → Q a f) → wtriple ws P (io_ret a) Q E.
Proof. intros HP m Hm. split; [done|]. by apply HP. Qed.

Lemma wt_throw {A : Type} ws e P (Q : A → Files → Prop) (E : Files → Prop) : (∀ f, P f → E f) → wtriple ws P (io_throw e) Q E.
Proof. intros HP m Hm. split; [done|]. by apply HP. Qed.

Lemma wt_machine {A : Type} ws P (c : io Machine A) Q E : ftriple P c Q E → wtriple ws P (on_machine c) Q E.
Proof. intros Hc m Hm. specialize (Hc m Hm). unfold on_machine. by destruct (c m) as [[a|e] m']. Qed.

Lemma wt_ignore {A : Type} ws P (c : io (Machine * Workspace) A) (R E : Files → Prop) :
  wtriple ws P c (λ _, R) R → wtriple ws P (io_ignore c) (λ _, R) E.
Proof. intros Hc m Hm. specialize (Hc m Hm). unfold io_ignore. by destruct (c (m, ws)) as [[a|e] [m' ws']]. Qed.

Lemma wt_assume {A : Type} ws (φ : Prop) P (c : io (Machine * Workspace) A) Q E :
  (φ → wtriple ws P c Q E) → wtriple ws (λ f, φ ∧ P f) c Q E.
Proof. intros Hc m [Hφ Hm]. by apply Hc. Qed.

Section Restore.
Context (path : string) (b : string) (f0 : Files) (ws : Workspace).
Let dir : list string := removelast (components path).
Let target : list string := dir ++ [b].

Definition untouched (f : Files) : Prop := confined dir b f0 f ∧ f !! target = f0 !! target.

(** The file under [tmp] holds the contents of a file of the workspace. *)
Definition copied_in (tmp : list string) (f : Files) : Prop :=
  untouched f ∧ ∃ name c md u g md' u' g', ws !! name = Some (Regular c md u g) ∧ f !! tmp = Some (Regular c md' u' g').

Definition put_back (f : Files) : Prop :=
  confined dir b f0 f ∧
  (f !! target = None ∨
   ∃ name c md u g md' u' g', ws !! name = Some (Regular c md u g) ∧ f !! target = Some (Regular c md' u' g')).

Lemma untouched_temp u n f : untouched f → untouched (<[dir ++ [temp_name b u] := n]> f).
Proof.
  intros [Hc Ht]. split; [by apply confined_insert_temp|]. by rewrite lookup_insert_ne by (intros He; by apply (temp_ne b u dir)).
Qed.

Lemma copied_in_map u f (k : string → Z → Z → Z → Node) :
  (∀ c md x g, ∃ md' x' g', k c md x g = Regular c md' x' g') →
  copied_in (dir ++ [temp_name b u]) f → copied_in (dir ++ [temp_name b u]) (map_regular k (dir ++ [temp_name b u]) f).
Proof.
  intros Hk [Hu (name & c & md & x & g & md' & x' & g' & Hw & Hf)]. unfold map_regular. rewrite Hf.
  destruct (Hk c md' x' g') as (md2 & x2 & g2 & ->). split; [by apply untouched_temp|].
  exists name, c, md, x, g, md2, x2, g2. by rewrite lookup_insert_eq.
Qed.

Lemma wt_copy_in name u :
  wtriple ws untouched (copy_in name (dir ++ [temp_name b u])) (λ _, copied_in (dir ++ [temp_name b u])) untouched.
Proof.
  intros m Hm. unfold copy_in. destruct (ws !! name) as [[c md x g| |t|]|] eqn:Hw; [|by split..].
  unfold call_or. destruct (call_fails (mc_calls m)); cbn.
  - split; [done|]. destruct (part_written (mc_calls m)); cbn; [|done]. destruct (copied _ _ _); [by apply untouched_temp|done].
  - destruct (copied c md _) as [n|] eqn:Hc; cbn; [|by split]. split; [done|]. split; [by apply untouched_temp|].
    unfold copied in Hc. destruct (mc_files m !! _) as [[? ? x' g'| | |]|]; simplify_eq;
      eexists name, c, md, x, g, md, _, _; by rewrite lookup_insert_eq.
Qed.

Lemma wt_restore data : file_name (components path) = Some b →
  wtriple ws (λ f, f = f0) (restore path data) (λ _, put_back) untouched.
Proof.
  intros Hfn. pose proof (file_name_Some _ _ Hfn) as [Hp Hb]. fold dir in Hp. fold target in Hp.
  assert (∀ f, f = f0 → untouched f) as H00 by (intros f ->; split; [apply grown_confined, grown_refl|done]).
  unfold restore. destruct (match _ with Some s => negb (path_eq s path) | None => false end); [by apply wt_throw|].
  destruct (negb _).
  { apply wt_machine. eapply ft_bind; [|intros o; by apply (ft_ret _ (put_back))]. rewrite Hp. apply ft_remove; [done| |].
    - intros f -> Hn. split; [apply H00; done|by left].
    - intros f n -> Hn Hd. split; [by apply confined_delete_target, H00|left]. by rewrite lookup_delete_eq. }
  set (name := default BACKUP_FILENAME _). destruct (_ || _ || _); [by apply wt_throw|].
  eapply wt_bind with (Q := λ _ f, f = f0).
  { intros m Hm. unfold backup_exists, syscall, call_or. by destruct (call_fails (mc_calls m)), (ws !! name). }
  intros [|]; cbn [negb]; [|by apply wt_throw].
  eapply wt_bind with (Q := λ d f, d = dir ∧ untouched f).
  { apply wt_machine. eapply ft_weaken; [apply (ft_ensure_parent _ _ f0)|intros f ->; apply grown_refl|..].
    - intros d f [-> Hg]. split; [done|]. split; [by apply grown_confined|by apply grown_target].
    - intros f Hg. split; [by apply grown_confined|by apply grown_target]. }
  intros d. apply wt_assume. intros ->. eapply wt_bind; [apply wt_machine, (ft_ulid untouched untouched)|]. intros u. rewrite Hfn. change (default "tmp" (Some b)) with b.
  eapply wt_bind; [apply (wt_copy_in name u)|]. intros [].
  assert (∀ (c : io Machine ()), ftriple (copied_in (dir ++ [temp_name b u])) c (λ _, copied_in (dir ++ [temp_name b u])) (copied_in (dir ++ [temp_name b u])) →
          wtriple ws (copied_in (dir ++ [temp_name b u])) (io_ignore (on_machine c)) (λ _, copied_in (dir ++ [temp_name b u])) untouched) as Hign
    by (intros c Hc; by apply wt_ignore, wt_machine).
  eapply wt_bind with (Q := λ _, copied_in (dir ++ [temp_name b u])).
  { destruct (v ← json_get data "mode"; _) as [mode|]; cbn [when_some]; [|by apply wt_ret]. apply Hign, ft_syscall; [done|].
    intros f Hf. apply copied_in_map; [|done]. intros. by eexists _, _, _. }
  intros []. eapply wt_bind with (Q := λ _, copied_in (dir ++ [temp_name b u])).
  { destruct (_ || _); [|by apply wt_ret]. apply Hign, ft_syscall; [done|].
    intros f Hf. apply copied_in_map; [|done]. intros. by eexists _, _, _. }
  intros []. apply wt_machine. rewrite Hp. apply ft_syscall; [by intros f [Hf _]|].
  intros f [[Hc Ht] (nm & c & md & x & g & md' & x' & g' & Hw & Hf)]. cbn beta. rewrite Hf. case_decide; [by split|].
  split; [by apply confined_insert_target, confined_delete_temp|]. right.
  exists nm, c, md, x, g, md', x', g'. by rewrite lookup_insert_eq.
Qed.

End Restore.

(** ** Whatever happens, nothing else changes *)

Context (serde_error : Json → string) (stamp : Machine → string) (seen : Machine).
Abbreviation provider := (file_provider serde_error passwd group_db stamp seen).

Section Confined.
Context (r : Resource) (spec : FileSpec) (b : string).
Context (Hspec : file_spec_of serde_error r = Ok spec) (Hfn : file_name (components (fl_path spec)) = Some b).
Let dir : list string := removelast (components (fl_path spec)).
Let target : list string := dir ++ [b].

(** What an apply may leave at the target. *)
Definition applied_target (old new : option Node) : Prop :=
  new = old ∨ (new = None ∧ old ≠ Some Directory) ∨
  (replaceable old ∧ ∃ uid gid, owners spec uid gid ∧
   new = Some (written_file (default "" (fl_content spec)) (parsed_mode spec) uid gid)).

Lemma apply_confined s ctx m ws res m' ws' : p_apply provider r s ctx (m, ws) = (res, (m', ws')) →
  ws' = ws ∧ confined dir b (mc_files m) (mc_files m') ∧ applied_target (mc_files m !! target) (mc_files m' !! target).
Proof.
  intros Hrun. cbn [p_apply file_provider] in Hrun. unfold io_bind, io_lift in Hrun. rewrite Hspec in Hrun.
  destruct (parse_action _ _ _) as [[|]|e]; [| |by injection Hrun as <- <- <-; split_and!; [|apply grown_confined, grown_refl|left]].
  - pose proof (wt_machine ws _ _ _ _ (ft_write_file spec b (mc_files m) Hfn) m eq_refl) as Ht. rewrite Hrun in Ht.
    destruct res as [res|e]; destruct Ht as [-> Ht]; (split; [done|]).
    + destruct Ht as (Hr & uid & gid & f1 & Ho & Hg & ->). split; [by apply confined_insert_target, grown_confined|].
      right; right. split; [done|]. exists uid, gid. split; [done|]. apply lookup_insert_eq.
    + apply pending_confined in Ht as [Hc He]. split; [done|]. by left.
  - pose proof (wt_machine ws _ _ _ _ (ft_delete_file spec b (mc_files m) Hfn) m eq_refl) as Ht. rewrite Hrun in Ht.
    destruct res as [res|e]; destruct Ht as [-> Ht]; (split; [done|]).
    + destruct Ht as [-> Hd]. split; [apply confined_delete_target, grown_confined, grown_refl|]. right; left. split; [apply lookup_delete_eq|done].
    + rewrite Ht. split; [apply grown_confined, grown_refl|by left].
Qed.

Lemma rollback_confined cp m ws res m' ws' : p_rollback provider r cp (m, ws) = (res, (m', ws')) →
  ws' = ws ∧ confined dir b (mc_files m) (mc_files m') ∧
  (mc_files m' !! target = mc_files m !! target ∨ mc_files m' !! target = None ∨
   ∃ name c md u g md' u' g', ws !! name = Some (Regular c md u g) ∧ mc_files m' !! target = Some (Regular c md' u' g')).
Proof.
  intros Hrun. cbn [p_rollback file_provider] in Hrun. unfold file_rollback in Hrun. rewrite Hspec in Hrun.
  pose proof (wt_restore (fl_path spec) b (mc_files m) ws (cp_data cp) Hfn m eq_refl) as Ht.
  rewrite Hrun in Ht. destruct res as [[]|e]; destruct Ht as [-> Ht]; (split; [done|]).
  - destruct Ht as [Hc Ht]. split; [done|]. by right.
  - destruct Ht as [Hc Ht]. split; [done|]. by left.
Qed.

End Confined.

(** C18: Applying and rolling back touch the target alone. Stopped by any
    faults, an apply leaves the workspace and every file as they were, but for
    three things: missing directories on the way to the target, temporary
    files beside it, and the target itself, which is as before, or is gone (a
    deletion), or is a new file with all of the contents, the mode and the
    owner of the spec; a directory or a link is never replaced. A rollback,
    whatever the checkpoint says, keeps to the same places, and what it puts
    at the target are the whole contents of a file of the step's workspace. *)
Theorem file_changes_confined r spec b :
  file_spec_of serde_error r = Ok spec → file_name (components (fl_path spec)) = Some b →
  let dir := removelast (components (fl_path spec)) in
  let target := dir ++ [b] in
  (∀ s ctx m ws res m' ws', p_apply provider r s ctx (m, ws) = (res, (m', ws')) →
     ws' = ws ∧ confined dir b (mc_files m) (mc_files m') ∧
     (mc_files m' !! target = mc_files m !! target ∨
      (mc_files m' !! target = None ∧ mc_files m !! target ≠ Some Directory) ∨
      (replaceable (mc_files m !! target) ∧ ∃ uid gid, owners spec uid gid ∧
       mc_files m' !! target = Some (written_file (default "" (fl_content spec)) (parsed_mode spec) uid gid)))) ∧
  (∀ cp m ws res m' ws', p_rollback provider r cp (m, ws) = (res, (m', ws')) →
     ws' = ws ∧ confined dir b (mc_files m) (mc_files m') ∧
     (mc_files m' !! target = mc_files m !! target ∨ mc_files m' !! target = None ∨
      ∃ name c md u g md' u' g', ws !! name = Some (Regular c md u g) ∧ mc_files m' !! target = Some (Regular c md' u' g'))).
Proof.
  intros Hspec Hfn dir target. split; intros *; [intros Hrun; by apply (apply_confined r spec b Hspec Hfn) in Hrun|].
  intros Hrun. by apply (rollback_confined r spec b Hspec Hfn) in Hrun.
Qed.

(** ** The way back *)

Lemma mode_text_reads m : (0 < m ≤ 4095)%Z → read_mode_text (mode_text m) = Some m.
Proof.
  intros Hm. assert (forallb (λ n, bool_decide (read_mode_text (mode_text (Z.of_nat n)) = Some (Z.of_nat n))) (seq 1 4095) = true) as Hall
    by (vm_compute; reflexivity).
  rewrite forallb_forall in Hall. specialize (Hall (Z.to_nat m)). rewrite Z2Nat.id in Hall by lia.
  apply bool_decide_eq_true in Hall; [done|]. apply in_seq. lia.
Qed.

(** No call fails from here on. *)
Definition quiet_from (k : nat) : Prop := ∀ i, k ≤ i → call_fails i = None.

Lemma call_runs {A : Type} path cut (f : Files → result string (A * Files)) m a files :
  quiet_from (mc_calls m) → f (mc_files m) = Ok (a, files) →
  at_path path (call_or cut f) m = (Ok a, mkMachine files (S (mc_calls m)) (mc_ulids m)).
Proof. intros Hq Hf. unfold at_path, call_or. rewrite Hq by done. cbn. by rewrite Hf. Qed.

Lemma quiet_S k : quiet_from k → quiet_from (S k).
Proof. intros Hq i Hi. apply Hq. lia. Qed.

Lemma backup_Ok path m ws data m1 ws1 :
  backup path (m, ws) = (Ok data, (m1, ws1)) →
  mc_files m1 = mc_files m ∧
  match mc_files m !! components path with
  | None => data = JObject [("existed", JBool false); ("path", JString path)] ∧ ws1 = ws
  | Some (Regular c md u g) =>
      data = JObject [("backup", JString BACKUP_FILENAME); ("existed", JBool true); ("gid", JNum g);
                      ("mode", JString (mode_text (file_mode md))); ("path", JString path);
                      ("size", JNum (size_of c)); ("uid", JNum u)] ∧
      ∃ n, copied c md (ws !! BACKUP_FILENAME) = Some n ∧ ws1 = <[BACKUP_FILENAME := n]> ws
  | Some _ => False
  end.
Proof.
  unfold backup, io_bind, on_machine, at_path, found, lstat, syscall, call_or.
  destruct (call_fails (mc_calls m)); cbn; [done|]. destruct (call_fails (S (mc_calls m))) as [e|] eqn:Hf; cbn.
  { rewrite decide_False by (intros ->; by apply honest in Hf). done. }
  destruct (mc_files m !! components path) as [[c md u g| |t|]|] eqn:Hn; cbn; [|done..|rewrite decide_True by done; by intros [= <- <- <-]].
  unfold copy_out, read_file, syscall, call_or. cbn. destruct (call_fails (S (S (mc_calls m)))) as [e|]; cbn.
  - rewrite Hn. by destruct (part_written _).
  - rewrite Hn. destruct (copied c md (ws !! BACKUP_FILENAME)) as [n|] eqn:Hc; [|done]. intros [= <- <- <-].
    split; [done|]. split; [done|]. by exists n.
Qed.

Lemma path_eq_refl path : path_eq path path = true.
Proof. unfold path_eq. rewrite eqb_reflx. by apply bool_decide_eq_true. Qed.
Definition dir_there (p : list string) (f : Files) : Prop := is_dir (f !! p) = true ∨ (p = [] ∧ f !! p = None).

Lemma parent_runs kind path m :
  let dir := removelast (components path) in
  components path ≠ [] → quiet_from (mc_calls m) → dir_there dir (mc_files m) →
  ensure_parent kind path m = (Ok dir, mkMachine (mc_files m) (S (mc_calls m)) (mc_ulids m)).
Proof.
  intros dir Hne Hq Hd. unfold ensure_parent. destruct (components path) as [|c p] eqn:Hc; [done|]. cbn [parent]. fold dir.
  unfold io_bind, path_exists, lstat, syscall, call_or. rewrite Hq by done. unfold dir_there in Hd.
  destruct (mc_files m !! dir) as [[| |[]|]|] eqn:Hn; try (by destruct Hd as [|[_ ?]]); [done..|].
  destruct Hd as [|[-> _]]; [done|]. reflexivity.
Qed.

Lemma backup_there name m (ws : Workspace) n :
  quiet_from (mc_calls m) → ws !! name = Some n →
  backup_exists name (m, ws) = (Ok true, (mkMachine (mc_files m) (S (mc_calls m)) (mc_ulids m), ws)).
Proof. intros Hq Hn. unfold backup_exists, syscall, call_or. rewrite Hq by done. cbn. by rewrite Hn. Qed.

Lemma copy_in_runs name tmp m (ws : Workspace) c md u g :
  quiet_from (mc_calls m) → ws !! name = Some (Regular c md u g) → mc_files m !! tmp = None →
  copy_in name tmp (m, ws) = (Ok (), (mkMachine (<[tmp := Regular c md new_owner.1 new_owner.2]> (mc_files m)) (S (mc_calls m)) (mc_ulids m), ws)).
Proof. intros Hq Hn Ht. unfold copy_in. rewrite Hn. unfold call_or. rewrite Hq by done. by rewrite Ht. Qed.

Lemma data_u32_at data k z : (0 ≤ z ≤ u32_max)%Z → json_get data k = Some (JNum z) → data_u32 data k = Some z.
Proof.
  intros Hz Hk. unfold data_u32. rewrite Hk. unfold mbind, option_bind, JNum, unsigned_of.
  rewrite parse_unsigned_pretty by (unfold u32_max, u64_max in *; lia). cbn. rewrite decide_True; [done|lia].
Qed.

(** The attributes a checkpoint can carry: twelve bits of mode, that a change
    of owner leaves as they are, and ids of 32 bits. *)
Definition restorable (n : Node) : Prop :=
  ∃ c md u g, n = Regular c md u g ∧ (0 ≤ md ≤ 4095)%Z ∧ chown_mode md = md ∧ (0 ≤ u ≤ u32_max)%Z ∧ (0 ≤ g ≤ u32_max)%Z.

Section WayBack.
Context (path b : string) (m : Machine) (ws : Workspace) (data : Json).
Let dir : list string := removelast (components path).
Let target : list string := dir ++ [b].
Let temp : list string := dir ++ [temp_name b (ulid_name (mc_ulids m))].

Lemma restore_runs c md u g u0 g0 :
  file_name (components path) = Some b → quiet_from (mc_calls m) → dir_there dir (mc_files m) →
  mc_files m !! temp = None → mc_files m !! target ≠ Some Directory →
  restorable (Regular c md u g) → ws !! BACKUP_FILENAME = Some (Regular c md u0 g0) →
  data = JObject [("backup", JString BACKUP_FILENAME); ("existed", JBool true); ("gid", JNum g);
                  ("mode", JString (mode_text (file_mode md))); ("path", JString path);
                  ("size", JNum (size_of c)); ("uid", JNum u)] →
  ∃ m', restore path data (m, ws) = (Ok (), (m', ws)) ∧ mc_files m' = <[target := Regular c md u g]> (mc_files m) ∧
    mc_calls m ≤ mc_calls m' ∧ mc_ulids m ≤ mc_ulids m'.
Proof.
  intros Hfn Hq Hd Htmp Ht (? & ? & ? & ? & [= <- <- <- <-] & Hmd & Hch & Hu & Hg) Hw ->.
  pose proof (file_name_Some _ _ Hfn) as [Hp Hb]. fold dir in Hp. fold target in Hp.
  set (data0 := JObject _).
  assert (json_get data0 "path" = Some (JString path)) as J1 by reflexivity.
  assert (json_get data0 "existed" = Some (JBool true)) as J2 by reflexivity.
  assert (json_get data0 "backup" = Some (JString BACKUP_FILENAME)) as J3 by reflexivity.
  assert (json_get data0 "mode" = Some (JString (mode_text (file_mode md)))) as J4 by reflexivity.
  assert (json_get data0 "uid" = Some (JNum u)) as J5 by reflexivity.
  assert (json_get data0 "gid" = Some (JNum g)) as J6 by reflexivity.
  unfold restore. rewrite J1, J2, J3, J4. rewrite (data_u32_at _ _ _ Hu J5), (data_u32_at _ _ _ Hg J6).
  cbn [mbind option_bind as_str as_bool default from_option]. rewrite path_eq_refl. cbn [negb id].
  change (str_contains "/" BACKUP_FILENAME || str_contains "\" BACKUP_FILENAME || str_contains ".." BACKUP_FILENAME) with false. cbn iota.
  assert (file_mode md = md) as -> by (unfold file_mode; change 4095%Z with (Z.ones 12); rewrite Z.land_ones by lia; apply Z.mod_small; lia).
  unfold io_bind at 1. rewrite (backup_there _ _ _ _ Hq Hw). cbn [negb].
  unfold io_bind at 1, on_machine at 1. rewrite (parent_runs _ path); [|by rewrite Hp; destruct dir|by apply quiet_S|exact Hd].
  fold dir. unfold io_bind at 1, on_machine at 1, new_ulid_name. cbn [mc_files mc_calls mc_ulids]. rewrite Hfn. change (default "tmp" (Some b)) with b. fold temp.
  unfold io_bind at 1. erewrite copy_in_runs; [|by do 2 apply quiet_S|exact Hw|exact Htmp].
  assert (∀ md', md' = md → Z.land md' 4095 = md) as Hland by (intros ? ->; change 4095%Z with (Z.ones 12); rewrite Z.land_ones by lia; apply Z.mod_small; lia).
  set (m1 := mkMachine _ _ _).
  assert (∃ k, quiet_from k ∧ mc_calls m ≤ k ∧ when_some (read_mode_text (mode_text md)) (λ mode, io_ignore (on_machine (at_path (path_text temp) (chmod temp mode)))) (m1, ws) =
          (Ok (), (mkMachine (mc_files m1) k (mc_ulids m1), ws))) as (k & Hk & Hle & Hmode).
  { destruct (decide (md = 0%Z)) as [->|Hnz].
    - exists (mc_calls m1). split; [by do 3 apply quiet_S|]. split; [cbn; lia|]. by change (read_mode_text (mode_text 0)) with (@None Z).
    - exists (S (mc_calls m1)). split; [by do 4 apply quiet_S|]. split; [cbn; lia|]. rewrite mode_text_reads by lia. cbn [when_some].
      unfold io_ignore, on_machine, chmod, syscall. cbn beta iota. erewrite call_runs; [|by do 3 apply quiet_S|reflexivity]. cbn [snd].
      unfold map_regular. cbn [mc_files m1]. rewrite lookup_insert_eq, insert_insert_eq. by rewrite Hland. }
  unfold io_bind at 1. rewrite Hmode. rewrite !bool_decide_true by by eexists. cbn [orb].
  unfold io_bind at 1, io_ignore, on_machine, chown, rename, syscall. cbn beta iota. erewrite call_runs; [|exact Hk|reflexivity]. cbn [snd].
  erewrite call_runs; [|by apply quiet_S|].
  2:{ cbn [mc_files]. unfold map_regular. cbn [m1 mc_files]. rewrite !lookup_insert_eq. cbn iota. rewrite insert_insert_eq.
      rewrite decide_False; [reflexivity|]. rewrite Hp, lookup_insert_ne; [exact Ht|]. intros He. by apply (temp_ne b (ulid_name (mc_ulids m)) dir). }
  eexists. split; [reflexivity|]. cbn [mc_files default from_option id]. rewrite Hch, Hp, delete_insert_id by done. cbn [mc_calls mc_ulids m1]. split; [done|lia].
Qed.

Lemma restore_absent : file_name (components path) = Some b → quiet_from (mc_calls m) → mc_files m !! target ≠ Some Directory →
  data = JObject [("existed", JBool false); ("path", JString path)] →
  ∃ m', restore path data (m, ws) = (Ok (), (m', ws)) ∧ mc_files m' = delete target (mc_files m) ∧
    mc_calls m ≤ mc_calls m' ∧ mc_ulids m ≤ mc_ulids m'.
Proof.
  intros Hfn Hq Ht ->. pose proof (file_name_Some _ _ Hfn) as [Hp Hb]. fold dir in Hp. fold target in Hp.
  set (data0 := JObject _). assert (json_get data0 "path" = Some (JString path)) as J1 by reflexivity.
  assert (json_get data0 "existed" = Some (JBool false)) as J2 by reflexivity.
  unfold restore. rewrite J1, J2. cbn [mbind option_bind as_str as_bool default from_option]. rewrite path_eq_refl. cbn [negb id].
  unfold on_machine, io_bind, at_path, found, remove_file, syscall, call_or. rewrite Hq by done. rewrite Hp.
  destruct (mc_files m !! target) as [n|] eqn:Hn; cbn.
  - destruct n; [|done|..]; cbn; eexists; (split; [done|]); cbn; split; done || lia.
  - eexists. split; [done|]. cbn. rewrite delete_id by done. split; [done|lia].
Qed.

End WayBack.

Lemma dir_there_confined dir b f0 f : dir_there dir f0 → confined dir b f0 f → dir_there dir f.
Proof.
  intros Hd Hc. assert (∀ x, dir ≠ dir ++ [x]) as Hne.
  { intros x He. apply (f_equal length) in He. rewrite length_app in He. cbn in He. lia. }
  destruct (Hc dir (Hne _) ltac:(intros u; apply Hne)) as [He|(Hn & Hs & _)].
  - unfold dir_there. by rewrite He.
  - left. by rewrite Hs.
Qed.

(** C12: Rolling back an applied change brings the file back. Take the
    checkpoint that the backup made before an apply, and whatever the apply
    then did (succeeded, failed or stopped halfway). A rollback with that
    checkpoint during which no call fails succeeds, and leaves at the target
    what was there before the apply: the same contents, mode, user and group,
    or nothing; everything else is as before the apply but for directories
    that were missing and left-over temporary files. This is for a file whose
    mode survives a change of owner, in a directory that is there. *)
Theorem file_rollback_restores r spec b s ctx m ws data m1 ws1 res m2 ws2 cp :
  file_spec_of serde_error r = Ok spec → file_name (components (fl_path spec)) = Some b →
  let dir := removelast (components (fl_path spec)) in
  let target := dir ++ [b] in
  (∀ n, mc_files m !! target = Some n → restorable n ∧ dir_there dir (mc_files m)) → ws !! BACKUP_FILENAME = None →
  p_pre_apply provider r s ctx (m, ws) = (Ok data, (m1, ws1)) →
  p_apply provider r s ctx (m1, ws1) = (res, (m2, ws2)) →
  quiet_from (mc_calls m2) → mc_files m2 !! (dir ++ [temp_name b (ulid_name (mc_ulids m2))]) = None →
  cp_data cp = data → cp_resource_spec cp = Some (r_spec r) →
  ∃ m3, p_rollback provider (synthesize_resource cp) cp (m2, ws2) = (Ok (), (m3, ws2)) ∧
    mc_files m3 !! target = mc_files m !! target ∧ confined dir b (mc_files m) (mc_files m3).
Proof.
  intros Hspec Hfn dir target Hold Hws Hpre Happ Hq Htmp Hdata Hcs.
  pose proof (file_name_Some _ _ Hfn) as [Hp _]. fold dir in Hp. fold target in Hp.
  destruct (apply_confined r spec b Hspec Hfn _ _ _ _ _ _ _ Happ) as (-> & Hconf & Htgt).
  cbn [p_pre_apply file_provider] in Hpre. unfold io_bind, io_lift in Hpre. rewrite Hspec in Hpre.
  destruct (parse_action _ _ _); [|done]. apply backup_Ok in Hpre as [Hsame Hbk]. rewrite Hsame in *. fold dir in Htgt, Hconf. fold target in Htgt.
  assert (file_spec_of serde_error (synthesize_resource cp) = Ok spec) as Hspec'.
  { unfold file_spec_of, parse_spec in *. cbn [synthesize_resource r_spec]. rewrite Hcs. cbn [default from_option id].
    by destruct (file_from_value serde_error (r_spec r)). }
  cbn [p_rollback file_provider]. unfold file_rollback. rewrite Hspec'. rewrite Hdata.
  assert (mc_files m !! target ≠ Some Directory → mc_files m2 !! target ≠ Some Directory) as Hnd.
  { intros H0d. destruct Htgt as [->|[[-> _]|(_ & uid & gid & _ & ->)]]; done. }
  rewrite Hp in Hbk. destruct (mc_files m !! target) as [[c md u g| |t|]|] eqn:Hn; [|done..|].
  - destruct Hbk as (Hd & n & Hcp & ->). rewrite Hws in Hcp. injection Hcp as <-. destruct (Hold _ eq_refl) as [Hr Hdt].
    destruct (restore_runs (fl_path spec) b m2 (<[BACKUP_FILENAME:=Regular c md new_owner.1 new_owner.2]> ws) data c md u g new_owner.1 new_owner.2)
      as (m3 & Hrun & Hf3 & _); [done|done|by eapply dir_there_confined|exact Htmp|by apply Hnd|done|by apply lookup_insert_eq|done|].
    exists m3. split; [exact Hrun|]. fold dir in Hf3. fold target in Hf3. rewrite Hf3. split; [apply lookup_insert_eq|by apply confined_insert_target].
  - destruct Hbk as [Hd ->]. destruct (restore_absent (fl_path spec) b m2 ws data) as (m3 & Hrun & Hf3 & _); [done|done|by apply Hnd|done|].
    exists m3. split; [exact Hrun|]. fold dir in Hf3. fold target in Hf3. rewrite Hf3. split; [apply lookup_delete_eq|by apply confined_delete_target].
Qed.

(** ** What was written is what is wanted *)

Lemma find_id_range label name ls n : find_id label name ls = Ok n → (0 ≤ n ≤ u32_max)%Z.
Proof.
  induction ls as [|l ls IH]; [done|]. cbn [find_id]. case_decide; [|exact IH].
  destruct (parse_unsigned _ _) eqn:Hp; [|done]. intros [= <-]. by eapply parse_unsigned_range.
Qed.

Lemma resolve_id_range label db s n : resolve_id label db s = Ok n → (0 ≤ n ≤ u32_max)%Z.
Proof.
  unfold resolve_id. destruct (parse_unsigned u32_max s) eqn:Hp; [intros [= <-]; by eapply parse_unsigned_range|].
  destruct db as [content|e]; [|done]. cbn. apply find_id_range.
Qed.

Lemma read_mode_back m : (0 ≤ m ≤ 4095)%Z → default 0%Z (read_mode_text (mode_text m)) = m.
Proof. intros Hm. destruct (decide (m = 0%Z)) as [->|]; [by vm_compute|]. by rewrite mode_text_reads by lia. Qed.

Lemma land_mode m : (0 ≤ m ≤ 4095)%Z → Z.land m 4095 = m.
Proof. intros Hm. change 4095%Z with (Z.ones 12). rewrite Z.land_ones by lia. apply Z.mod_small. lia. Qed.

(** No change for an owner that the file has. *)
Lemma owner_settled field unit_name fact resolve who o n :
  (∀ name, who = Some name → resolve name = Ok n ∧ (0 ≤ n ≤ u32_max)%Z ∧ assoc_get fact (obs_facts o) = Some (JNum n)) →
  owner_changes field unit_name fact resolve who o = ([], []).
Proof.
  intros Hw. unfold owner_changes. destruct who as [name|]; [|done]. destruct (Hw name eq_refl) as (-> & Hn & Hf).
  unfold fact_u32. rewrite Hf. unfold mbind, option_bind, JNum, unsigned_of. rewrite parse_unsigned_pretty by (unfold u64_max, u32_max in *; lia).
  cbn [default from_option id]. unfold wrap_unsigned. rewrite Z.mod_small by (unfold u32_max in *; lia). by rewrite decide_True.
Qed.

(** What is found at a regular file. *)
Lemma observe_regular spec m o c md u g :
  mc_files m !! components (fl_path spec) = Some (Regular c md u g) → (observe_file stamp spec m).1 = Ok o →
  obs_present o = true ∧
  assoc_get "content_sha256" (obs_facts o) = Some (JString (sha256_hex c)) ∧
  assoc_get "mode" (obs_facts o) = Some (JString (mode_text (file_mode md))) ∧
  assoc_get "uid" (obs_facts o) = Some (JNum u) ∧ assoc_get "gid" (obs_facts o) = Some (JNum g).
Proof.
  intros Hf. unfold observe_file, io_bind, at_path, found, lstat, read_file, syscall, call_or.
  destruct (call_fails (mc_calls m)) as [e|] eqn:He; cbn.
  { rewrite decide_False by (intros ->; by apply honest in He). done. }
  rewrite Hf. cbn. destruct (call_fails (S (mc_calls m))); cbn; [done|]. rewrite Hf. cbn. by intros [= <-].
Qed.

Lemma written_settled_on (on : Machine) spec b m m1 res o :
  file_name (components (fl_path spec)) = Some b → fl_state spec = FilePresent →
  (∀ m m', passwd m = passwd m') → (∀ m m', group_db m = group_db m') →
  (∀ md, parsed_mode spec = Some md → (0 ≤ md ≤ 4095)%Z ∧ (is_Some (fl_owner spec) ∨ is_Some (fl_group spec) → chown_mode md = md)) →
  write_file passwd group_db spec m = (Ok res, m1) → (observe_file stamp spec m1).1 = Ok o →
  diff_file passwd group_db on spec o = no_change.
Proof.
  intros Hfn Hst Hpw Hgr Hmode Hrun Hobs. pose proof (file_name_Some _ _ Hfn) as [Hp _].
  pose proof (ft_write_file spec b (mc_files m) Hfn m eq_refl) as Hw. rewrite Hrun in Hw.
  destruct Hw as (_ & uid & gid & f1 & [[mu Hu] [mg Hg]] & _ & Hf). rewrite <- Hp in Hf.
  assert (mc_files m1 !! components (fl_path spec) = Some (written_file (default "" (fl_content spec)) (parsed_mode spec) uid gid)) as Hnode
    by (rewrite Hf; apply lookup_insert_eq).
  unfold written_file in Hnode. apply (observe_regular _ _ o) in Hnode as (Hpr & F1 & F2 & F3 & F4); [|exact Hobs].
  unfold diff_file. rewrite Hst, Hpr. cbn [map concat].
  assert (content_changes spec o = ([], [])) as ->.
  { unfold content_changes. destruct (fl_content spec) as [want|]; [|done]. unfold fact_str. rewrite F1. by rewrite decide_True. }
  assert (mode_changes spec o = ([], [])) as ->.
  { unfold mode_changes. destruct (parsed_mode spec) as [md|]; [|done]. destruct (Hmode md eq_refl) as [Hr Hc].
    assert (∀ t, assoc_get "mode" (obs_facts o) = Some (JString t) → fact_str o "mode" = t) as Ht by (intros t Hf'; unfold fact_str; by rewrite Hf').
    rewrite (Ht _ F2). rewrite land_mode by done. assert ((if bool_decide (is_Some uid) || bool_decide (is_Some gid) then chown_mode md else md) = md) as ->.
    { destruct (_ || _) eqn:Hor; [|done]. apply Hc. apply orb_true_iff in Hor as [Hs|Hs]; apply bool_decide_eq_true in Hs.
      - left. unfold resolve_opt in Hu. destruct (fl_owner spec); [by eexists|]. injection Hu as <-. by destruct Hs.
      - right. unfold resolve_opt in Hg. destruct (fl_group spec); [by eexists|]. injection Hg as <-. by destruct Hs. }
    unfold file_mode. rewrite land_mode by done. by rewrite read_mode_back, decide_True by done. }
  rewrite (owner_settled "owner" "uid" "uid" _ _ _ (default new_owner.1 uid)); [|intros name Hn]; [|].
  2:{ unfold resolve_opt in Hu. rewrite Hn in Hu. unfold resolve_uid in *. rewrite (Hpw on mu). destruct (resolve_id _ _ name) eqn:Hri; [|done].
      injection Hu as <-. split_and!; [done|by eapply resolve_id_range..|exact F3]. }
  rewrite (owner_settled "group" "gid" "gid" _ _ _ (default new_owner.2 gid)); [done|intros name Hn].
  unfold resolve_opt in Hg. rewrite Hn in Hg. unfold resolve_gid in *. rewrite (Hgr on mg). destruct (resolve_id _ _ name) eqn:Hri; [|done].
  injection Hg as <-. split_and!; [done|by eapply resolve_id_range..|exact F4].
Qed.

(** C29: Applying a file resource converges. When the step that is planned
    for a resource (a write for one that is to be there, a deletion for one
    that is not) has succeeded, the next observation, if it succeeds, shows no
    difference, neither against the users and groups known when the difference
    is taken nor against those known now, and the verification matches,
    whatever calls failed on the way, as long as no fault passes for a missing
    file. This needs users and groups that stay what they are, and a mode
    within twelve bits that a change of owner, where one is asked for, does
    not alter: without these the code does not converge. *)
Theorem file_apply_converges r spec b s ctx m ws res m1 ws1 o :
  file_spec_of serde_error r = Ok spec → file_name (components (fl_path spec)) = Some b →
  (∀ m m', passwd m = passwd m') → (∀ m m', group_db m = group_db m') →
  (∀ md, parsed_mode spec = Some md → (0 ≤ md ≤ 4095)%Z ∧ (is_Some (fl_owner spec) ∨ is_Some (fl_group spec) → chown_mode md = md)) →
  st_action s = file_action_name (match fl_state spec with FilePresent => FileWrite | FileAbsent => FileDelete end) →
  p_apply provider r s ctx (m, ws) = (Ok res, (m1, ws1)) →
  p_observe provider r m1 = Ok o →
  p_diff provider r o = Ok no_change ∧ p_verify provider r m1 = Ok VMatch.
Proof.
  intros Hspec Hfn Hpw Hgr Hmode Hact Happ Hobs. cbn [p_apply p_observe p_diff p_verify file_provider] in *.
  unfold file_verify. unfold io_bind, io_lift in Happ. rewrite Hspec in *. cbn [mbind result_bind] in *. rewrite Hobs.
  cbn [mbind result_bind]. rewrite Hact in Happ.
  assert (diff_file passwd group_db m1 spec o = no_change ∧ diff_file passwd group_db seen spec o = no_change) as [H1m H1s];
    [|by rewrite H1m, H1s].
  destruct (fl_state spec) eqn:Hst.
  - change (parse_action _ file_actions (file_action_name FileWrite)) with (@Ok CoreError _ FileWrite) in Happ.
    unfold on_machine in Happ. cbn iota in Happ. destruct (write_file passwd group_db spec m) as [w m2] eqn:Hw. cbn in Happ. simplify_eq.
    split; exact (written_settled_on _ spec b m m1 _ o Hfn Hst Hpw Hgr Hmode Hw Hobs).
  - change (parse_action _ file_actions (file_action_name FileDelete)) with (@Ok CoreError _ FileDelete) in Happ.
    unfold on_machine in Happ. cbn iota in Happ. pose proof (ft_delete_file spec b (mc_files m) Hfn m eq_refl) as Hd.
    destruct (delete_file (fl_path spec) m) as [w m2]. cbn in Happ. simplify_eq. destruct Hd as [Hd _].
    pose proof (file_name_Some _ _ Hfn) as [Hp _].
    assert (obs_present o = false) as Habs; [|unfold diff_file; rewrite Hst, Habs; done].
    revert Hobs. unfold observe_file, io_bind, at_path, found, lstat, syscall, call_or.
    destruct (call_fails (mc_calls m1)) as [e|] eqn:He; cbn; [rewrite decide_False by (intros ->; by apply honest in He); done|].
    rewrite Hd, <- Hp, lookup_delete_eq. cbn. rewrite decide_True by done. by intros [= <-].
Qed.

(** ** An operation on files, undone

    The file provider keeps the contract of the executor's rollback, so that
    an operation on any number of files can be undone as a whole. *)

Section Operation.
Context (resources : list Resource).

(** The paths of the resources, and the temporary files beside them. *)
Definition file_targets : list (list string) :=
  omap (λ r, match file_spec_of serde_error r with Ok spec => Some (components (fl_path spec)) | Err _ => None end) resources.
Definition temp_of (t : list string) (u : string) : list string := removelast t ++ [temp_name (default "" (last t)) u].

(** A resource with a file name and, where it sets a mode, one of twelve bits
    that a change of owner leaves as it is. *)
Definition sane (r : Resource) : Prop := ∀ spec, file_spec_of serde_error r = Ok spec →
  is_Some (file_name (components (fl_path spec))) ∧
  ∀ md, parsed_mode spec = Some md → (0 ≤ md ≤ 4095)%Z ∧ chown_mode md = md.

(** No path is a directory on the way to another, or is, or lies below, a
    name that a temporary file can get. *)
Definition separate : Prop := ∀ t t', t ∈ file_targets → t' ∈ file_targets →
  ¬ t' `prefix_of` removelast t ∧ ∀ u, ¬ temp_of t u `prefix_of` t'.

(** What a new file gets by itself can be put back as well. *)
Definition plain_owner : Prop :=
  (0 ≤ new_owner.1 ≤ u32_max)%Z ∧ (0 ≤ new_owner.2 ≤ u32_max)%Z ∧ chown_mode 384 = 384%Z.

Context (Hsane : ∀ r, r ∈ resources → sane r) (Hsep : separate) (Howner : plain_owner).

(** The directories of the paths are there, and what is at the paths is a
    file whose attributes a checkpoint can carry, or nothing. *)
Definition files_fit (m : Machine) : Prop := ∀ t, t ∈ file_targets →
  (∀ q, q `prefix_of` removelast t → dir_there q (mc_files m)) ∧ ∀ n, mc_files m !! t = Some n → restorable n.

(** From here on no call fails, and the temporary names to come are free. *)
Definition files_calm (m : Machine) : Prop :=
  quiet_from (mc_calls m) ∧
  ∀ t j, t ∈ file_targets → mc_ulids m ≤ j → mc_files m !! temp_of t (ulid_name j) = None.

(** The same files, but for temporary ones. *)
Definition same_files (m m' : Machine) : Prop :=
  ∀ q, q ≠ [] → (∀ t u, t ∈ file_targets → q ≠ temp_of t u) → mc_files m' !! q = mc_files m !! q.

#[export] Instance same_files_equiv : Equivalence same_files.
Proof.
  split; [by intros m q|intros m m' Hs q Hq Ht; symmetry; by apply Hs|].
  intros m1 m2 m3 Ha Hb q Hq Ht. by rewrite Hb, Ha by done.
Qed.

Section One.
Context (r : Resource) (spec : FileSpec) (b : string).
Context (Hr : r ∈ resources) (Hspec : file_spec_of serde_error r = Ok spec) (Hfn : file_name (components (fl_path spec)) = Some b).
Let dir : list string := removelast (components (fl_path spec)).
Let target : list string := dir ++ [b].

Lemma target_in : target ∈ file_targets.
Proof.
  apply list_elem_of_omap. exists r. split; [exact Hr|]. rewrite Hspec. pose proof (file_name_Some _ _ Hfn) as [Hp _]. by rewrite Hp at 1.
Qed.

Lemma temp_of_target u : temp_of target u = dir ++ [temp_name b u].
Proof. unfold temp_of, target. by rewrite removelast_last, last_snoc. Qed.

(** A path that is neither the target nor a temporary file beside it. *)
Lemma confined_elsewhere f f' q : confined dir b f f' → q ≠ [] → q ≠ target → (∀ t u, t ∈ file_targets → q ≠ temp_of t u) →
  (∀ p, p `prefix_of` dir → dir_there p f) → f' !! q = f !! q.
Proof.
  intros Hc Hne Hq Ht Hd. destruct (Hc q Hq) as [He|(Hn & _ & Hp)]; [|done|].
  - intros u Hu. apply (Ht target u target_in). by rewrite temp_of_target.
  - destruct (Hd q Hp) as [Hdir|[-> _]]; [by rewrite Hn in Hdir|done].
Qed.

(** What the directories and the other paths keep. *)
Lemma confined_fit m m' : confined dir b (mc_files m) (mc_files m') → (∀ n, mc_files m' !! target = Some n → restorable n) →
  files_fit m → files_fit m'.
Proof.
  intros Hc Htgt Hfit t Ht. destruct (Hfit t Ht) as [Hd Hn]. destruct (Hsep t target Ht target_in) as [Hpre _].
  destruct (Hsep target t target_in Ht) as [Hpre' Htmp]. split.
  - intros q Hq. destruct (Hc q) as [He|(_ & Hs & _)].
    + intros ->. by apply Hpre.
    + intros u ->. rewrite <- temp_of_target in Hq. apply (Htmp u). etrans; [exact Hq|].
      destruct (decide (t = [])) as [->|Hne]; [done|]. rewrite (app_removelast_last "" Hne) at 2. by apply prefix_app_r.
    + unfold dir_there. rewrite He. by apply Hd.
    + left. by rewrite Hs.
  - intros n Hl. destruct (decide (t = target)) as [->|Hne]; [by apply Htgt|].
    destruct (Hc t Hne) as [He|(_ & _ & Hp)]; [|rewrite He in Hl; by apply Hn|].
    + intros u Hu. apply (Htmp u). by rewrite temp_of_target, <- Hu.
    + destruct Hpre'. unfold target. by rewrite removelast_last.
Qed.

Lemma owners_range uid gid : owners spec uid gid → (0 ≤ default new_owner.1 uid ≤ u32_max)%Z ∧ (0 ≤ default new_owner.2 gid ≤ u32_max)%Z.
Proof.
  intros [[mu Hu] [mg Hg]]. destruct Howner as (Ho1 & Ho2 & _). unfold resolve_opt in *. split.
  - destruct (fl_owner spec); [|by injection Hu as <-]. destruct (resolve_uid _ _ _) eqn:Hri; [|done]. injection Hu as <-. cbn.
    by eapply resolve_id_range.
  - destruct (fl_group spec); [|by injection Hg as <-]. destruct (resolve_gid _ _ _) eqn:Hri; [|done]. injection Hg as <-. cbn.
    by eapply resolve_id_range.
Qed.

Lemma written_restorable content uid gid : owners spec uid gid → restorable (written_file content (parsed_mode spec) uid gid).
Proof.
  intros [Hu Hg]%owners_range. destruct (Hsane r Hr spec Hspec) as [_ Hmode]. destruct Howner as (_ & _ & Hdef). unfold written_file.
  set (md := match parsed_mode spec with Some mode => Z.land mode 4095 | None => 384%Z end).
  assert ((0 ≤ md ≤ 4095)%Z ∧ chown_mode md = md) as [Hb Hc].
  { unfold md. destruct (parsed_mode spec) as [mode|]; [|by split]. destruct (Hmode mode eq_refl) as [Hm Hk]. by rewrite land_mode. }
  assert ((if bool_decide (is_Some uid) || bool_decide (is_Some gid) then chown_mode md else md) = md) as -> by (by destruct (_ || _)).
  by do 4 eexists.
Qed.

Lemma apply_fit s ctx m ws res m' ws' :
  files_fit m → p_apply provider r s ctx (m, ws) = (res, (m', ws')) → files_fit m'.
Proof.
  intros Hfit Hrun. destruct (apply_confined r spec b Hspec Hfn _ _ _ _ _ _ _ Hrun) as (_ & Hc & Ht). fold dir in Hc, Ht. fold target in Ht.
  eapply confined_fit; [exact Hc| |exact Hfit]. intros n Hn.
  destruct Ht as [He|[[He _]|(_ & uid & gid & Ho & He)]]; rewrite He in Hn; [|done|].
  - by apply (Hfit target target_in).
  - injection Hn as <-. by apply written_restorable.
Qed.

(** The contract's last clause. *)
Lemma file_undoes s ctx m data m1 ws1 res m2 ws2 cp m3 :
  files_fit m → p_pre_apply provider r s ctx (m, ∅) = (Ok data, (m1, ws1)) →
  p_apply provider r s ctx (m1, ws1) = (res, (m2, ws2)) →
  cp_data cp = data → cp_resource_spec cp = Some (r_spec r) →
  same_files m2 m3 → files_fit m3 → files_calm m3 →
  ∃ m4 ws4, p_rollback provider (synthesize_resource cp) cp (m3, ws2) = (Ok (), (m4, ws4)) ∧
    same_files m m4 ∧ files_fit m4 ∧ files_calm m4.
Proof.
  intros Hfit Hpre Happ Hdata Hcs Hs3 Hfit3 [Hq Hfree].
  pose proof (file_name_Some _ _ Hfn) as [Hp _]. fold dir in Hp. fold target in Hp.
  destruct (apply_confined r spec b Hspec Hfn _ _ _ _ _ _ _ Happ) as (-> & Hconf & _). fold dir in Hconf.
  cbn [p_pre_apply file_provider] in Hpre. unfold io_bind, io_lift in Hpre. rewrite Hspec in Hpre.
  destruct (parse_action _ _ _); [|done]. apply backup_Ok in Hpre as [Hsame Hbk]. rewrite Hp in Hbk. rewrite Hsame in Hconf.
  destruct (Hfit target target_in) as [Hdirs Hold]. unfold target in Hdirs. rewrite removelast_last in Hdirs. fold target in Hold.
  destruct (Hfit3 target target_in) as [Hdirs3 Hnow]. unfold target in Hdirs3. rewrite removelast_last in Hdirs3.
  assert (file_spec_of serde_error (synthesize_resource cp) = Ok spec) as Hspec'.
  { unfold file_spec_of, parse_spec in *. cbn [synthesize_resource r_spec]. rewrite Hcs. cbn [default from_option id].
    by destruct (file_from_value serde_error (r_spec r)). }
  assert (mc_files m3 !! target ≠ Some Directory) as Hnd.
  { intros Hd. destruct (Hnow _ Hd) as (c & md & u & g & [=] & _). }
  assert (∃ m4, restore (fl_path spec) data (m3, ws1) = (Ok (), (m4, ws1)) ∧
    (∀ q, mc_files m4 !! q = if decide (q = target) then mc_files m !! target else mc_files m3 !! q) ∧
    mc_calls m3 ≤ mc_calls m4 ∧ mc_ulids m3 ≤ mc_ulids m4) as (m4 & Hrun & Hf4 & Hcalls & Hulids).
  { destruct (mc_files m !! target) as [[c md u g| |t|]|] eqn:Hn; [|done..|].
    - destruct Hbk as (Hd & n & Hcp & ->). rewrite lookup_empty in Hcp. injection Hcp as <-.
      destruct (restore_runs (fl_path spec) b m3 (<[BACKUP_FILENAME:=Regular c md new_owner.1 new_owner.2]> ∅) data c md u g new_owner.1 new_owner.2
        Hfn Hq (Hdirs3 _ ltac:(done))) as (m4 & Hrun & Hf4 & Hn4); [|exact Hnd|by apply Hold|by apply lookup_insert_eq|exact Hd|].
      { fold dir. rewrite <- temp_of_target. by apply Hfree; [apply target_in|]. }
      exists m4. split; [exact Hrun|]. split; [|exact Hn4]. intros q. rewrite Hf4. fold dir. fold target. case_decide as He.
      + by rewrite He, lookup_insert_eq.
      + by rewrite lookup_insert_ne.
    - destruct Hbk as [Hd ->]. destruct (restore_absent (fl_path spec) b m3 ∅ data Hfn Hq Hnd Hd) as (m4 & Hrun & Hf4 & Hn4).
      exists m4. split; [exact Hrun|]. split; [|exact Hn4]. intros q. rewrite Hf4. fold dir. fold target. case_decide as He.
      + by rewrite He, lookup_delete_eq.
      + by rewrite lookup_delete_ne. }
  exists m4, ws1. split; [|split; [|split; [|split]]].
  - cbn [p_rollback file_provider]. unfold file_rollback. rewrite Hspec', Hdata. exact Hrun.
  - intros q Hne Hqt. rewrite Hf4. case_decide as He; [by rewrite He|]. rewrite (Hs3 q Hne Hqt).
    by rewrite (confined_elsewhere _ _ q Hconf).
  - eapply (confined_fit m3); [| |exact Hfit3].
    + intros q Hqt _. left. rewrite Hf4. by rewrite decide_False.
    + intros n. rewrite Hf4, decide_True by done. apply Hold.
  - intros i Hi. apply Hq. lia.
  - intros t j Ht Hj. rewrite Hf4, decide_False; [apply Hfree; [done|lia]|].
    intros He. destruct (Hsep t target Ht target_in) as [_ Htmp]. apply (Htmp (ulid_name j)). by rewrite He.
Qed.

End One.

Lemma backup_files path m ws : mc_files (backup path (m, ws)).2.1 = mc_files m.
Proof.
  unfold backup, io_bind, on_machine, at_path, found, lstat, syscall, call_or.
  destruct (call_fails (mc_calls m)); cbn; [done|]. destruct (call_fails (S (mc_calls m))) as [e|] eqn:Hf; cbn.
  { rewrite decide_False by (intros ->; by apply honest in Hf). done. }
  destruct (mc_files m !! components path) as [[c md u g| |t|]|] eqn:Hn; cbn; [|done..|by rewrite decide_True by done].
  unfold copy_out, read_file, syscall, call_or. cbn. destruct (call_fails (S (S (mc_calls m)))) as [e|]; cbn; rewrite Hn.
  - by destruct (part_written _).
  - by destruct (copied c md (ws !! BACKUP_FILENAME)).
Qed.

(** The file provider keeps the contract. *)
Lemma file_provider_ok r : r ∈ resources → provider_ok (∅ : Workspace) same_files files_fit files_calm provider r.
Proof.
  intros Hr. split; cbn [p_plan file_provider].
  - intros d n res n' Hplan. unfold file_plan in Hplan. destruct (file_spec_of serde_error r) as [spec|e]; [|by injection Hplan as <- <-; split; [lia|]].
    destruct (diff_kind d); injection Hplan as <- <-; (split; [lia|]); intros steps [= <-]; (split; [repeat constructor; by intros ?%elem_of_nil|]);
      try (by intros s ?%elem_of_nil); intros s ->%list_elem_of_singleton; exists n; by split_and!; [lia..|].
  - intros s ctx m ws res m' ws' Hfit Hpre. assert (mc_files m' = mc_files m) as Hf.
    { cbn [p_pre_apply file_provider] in Hpre. unfold io_bind, io_lift in Hpre.
      destruct (file_spec_of serde_error r) as [spec|]; [|by injection Hpre as _ <- _]. destruct (parse_action _ _ _); [|by injection Hpre as _ <- _].
      pose proof (backup_files (fl_path spec) m ws) as Hb. by rewrite Hpre in Hb. }
    split; [unfold files_fit; by rewrite Hf|]. intros q _ _. by rewrite Hf.
  - intros s ctx m ws res m' ws' Hfit Happ. destruct (file_spec_of serde_error r) as [spec|e] eqn:Hspec.
    + destruct (Hsane r Hr spec Hspec) as [[b Hfn] _]. by eapply apply_fit.
    + cbn [p_apply file_provider] in Happ. unfold io_bind, io_lift in Happ. rewrite Hspec in Happ. by injection Happ as _ <- _.
  - intros s ctx m data m1 ws1 res m2 ws2 cp m3 Hfit Hpre Happ Hdata _ Hcs. destruct (file_spec_of serde_error r) as [spec|e] eqn:Hspec.
    + destruct (Hsane r Hr spec Hspec) as [[b Hfn] _]. by eapply file_undoes.
    + cbn [p_pre_apply file_provider] in Hpre. unfold io_bind, io_lift in Hpre. rewrite Hspec in Hpre. done.
Qed.

End Operation.

(** C6: Rolling an operation back undoes it. Take an executor with the file
    provider, and any list of resources. The apply may meet any faults: calls
    on files that fail or stop half way, writes of the state directory that
    fail. Whatever it returned, success, a failed resource or an error half
    way, and as soon as the operation's directory exists, rolling the operation
    back, with no further fault, succeeds and leaves every file as the apply
    found it, with its contents, mode, user and group; only temporary files
    that a fault left behind may remain. Assumed of the files: the directories
    are there; what is at the paths is a regular file whose attributes fit a
    checkpoint, or nothing; no path is a directory of another, or has or lies
    below a name of a temporary file, and when the rollback starts the names
    its temporary files will get are free; modes, that of a new file too,
    survive a change of owner, and a new file's ids have 32 bits; no fault
    passes for a missing file. Assumed of the ULIDs: they are unique, the
    clock does not go back, no newer operation directory is present, and no two
    checkpoints of the operation were made in the same millisecond. (Within
    one, ULIDs come in no order, and the rollback may undo the steps in the
    wrong one: ExecutorProps.rollback_order_needs_monotonic_ulids.) *)
Theorem rollback_restores_files actor resources w :
  let op := ulid_at (w_ulid w) in
  let reg := [("file", provider)] in
  let '(res, w') := apply (∅ : Workspace) reg actor resources w in
  (∀ i j, ulid_at i = ulid_at j → i = j) → (∀ i j, i < j → (ulid_ms (ulid_at i) ≤ ulid_ms (ulid_at j))%Z) →
  (∀ r, r ∈ resources → sane r) → separate resources → plain_owner →
  (∀ k, is_Some (w_ops w !! k) → (k < op)%Z) → files_fit resources (w_host w) →
  (∀ result, res = Ok result → ex_id (ar_operation result) = op ∧ is_Some (w_ops w' !! op)) ∧
  (is_Some (w_ops w' !! op) → apart op w' → files_calm resources (w_host w') → (∀ n, w_io w' ≤ n → io_at n = Ok ()) →
   ∃ w'', rollback (∅ : Workspace) reg op w' = (Ok (), w'') ∧
     ∀ q, q ≠ [] → (∀ t u, t ∈ file_targets resources → q ≠ temp_of t u) → mc_files (w_host w'') !! q = mc_files (w_host w) !! q).
Proof.
  intros op reg. destruct (apply _ reg actor resources w) as [res w'] eqn:Hrun. intros Hunique Hclock Hsane Hsep Howner Hnew Hfit.
  pose proof (rollback_undoes_apply (∅ : Workspace) reg actor (same_files resources) (files_fit resources) (files_calm resources)
    Hunique Hclock resources w) as Ht. cbv zeta in Ht. rewrite Hrun in Ht. apply Ht; [|exact Hnew|exact Hfit].
  intros r p Hr Hp. unfold registry_require, reg in Hp. cbn in Hp. case_decide; [|done]. injection Hp as <-. by apply file_provider_ok.
Qed.

End Triples.
