(* ===== verification/ConfigFile.v ===== *)
(** * Rendered configuration files

    What the cron and nginx providers share: reading a file as text, and
    replacing it through a temporary file with a fixed mode. *)

From stdpp Require Import pretty.
From S2P Require Import Prelude Text Json ApiError Routing Db AuditLog Ids Diff Executor Chars PluginSpec Plugin SpecReader Posix FileProvider FileProps.

#[local] Open Scope string_scope.
#[local] Open Scope list_scope.
#[local] Open Scope nat_scope.
#[local] Open Scope io_scope.

Section ConfigFile.
Context `{Kernel}.

(** Reading the file; [None]: there is none. *)
Definition read_text (path : string) : io Machine (option string) := at_path path (found (read_to_string (components path))).

(** [fs::write] to a temporary file, its mode, and the rename. *)
Definition replace_text (no_parent : CoreError) (path content : string) (mode : Z) : io Machine () :=
  let* dir := ensure_parent no_parent path in
  let* ulid := new_ulid_name in
  let tmp := dir ++ [temp_name (default "tmp" (file_name (components path))) ulid] in
  at_path (path_text tmp) (write_path tmp content) ;*
  at_path (path_text tmp) (chmod tmp mode) ;*
  at_path path (rename tmp (components path)).

(** *** What it leaves *)

Definition holds (path content : string) (mode : Z) (f : Files) : Prop :=
  ∃ u g, f !! components path = Some (Regular content (Z.land mode 4095) u g).

Lemma ft_replace_text e path content mode :
  ftriple (λ _, True) (replace_text e path content mode) (λ _, holds path content mode) (λ _, True).
Proof.
  unfold replace_text. eapply ft_bind with (Q := λ _ _, True).
  { intros m _. by destruct (ensure_parent e path m) as [[?|?] ?]. }
  intros dir. eapply ft_bind with (Q := λ _ _, True); [by intros m _|]. intros ulid. set (tmp := dir ++ _).
  eapply ft_bind with (Q := λ _ f, ∃ md u g, f !! tmp = Some (Regular content md u g)).
  { apply ft_call_or; [done|]. intros f _. destruct (f !! tmp) as [[c md u g| | |]|] eqn:E; [|done..|].
    - unfold map_regular. rewrite E. exists md, u, g. apply lookup_insert_eq.
    - eexists _, _, _. apply lookup_insert_eq. }
  intros []. eapply ft_bind with (Q := λ _ f, ∃ u g, f !! tmp = Some (Regular content (Z.land mode 4095) u g)).
  { apply ft_syscall; [done|]. intros f (md & u & g & E). unfold map_regular. rewrite E. exists u, g. apply lookup_insert_eq. }
  intros []. apply ft_syscall; [done|]. intros f (u & g & E). rewrite E. case_decide; [done|]. exists u, g. apply lookup_insert_eq.
Qed.

Lemma removelast_last_name (p : list string) b : p = removelast p ++ [b] → b ≠ ".." → file_name p = Some b.
Proof. intros -> Hb. unfold file_name. rewrite last_snoc. by rewrite decide_False. Qed.

(** A failure leaves the file at the path as it was. *)
Lemma ft_replace_text_fails e path content mode b f0 : file_name (components path) = Some b →
  ftriple (λ f, f = f0) (replace_text e path content mode) (λ _, holds path content mode)
    (λ f, f !! components path = f0 !! components path).
Proof.
  intros [Hp Hb]%file_name_Some. pose proof (removelast_last_name _ _ Hp Hb) as Hn. unfold replace_text.
  set (dir := removelast (components path)) in *. set (same := λ f : Files, f !! components path = f0 !! components path).
  eapply ft_bind with (Q := λ d f, d = dir ∧ same f).
  { eapply ft_weaken; [apply (ft_ensure_parent e path f0)|intros f ->; apply grown_refl| |].
    - intros d f [-> Hg]. split; [done|]. unfold same. rewrite Hp. by apply grown_target.
    - intros f Hg. unfold same. rewrite Hp. by apply grown_target. }
  intros d. apply ft_assume. intros ->. eapply ft_bind; [apply (ft_ulid _ same)|]. intros u. rewrite Hn. change (default "tmp" (Some b)) with b.
  set (tmp := dir ++ _). assert (components path ≠ tmp) as Hne by (rewrite Hp; apply temp_ne).
  assert (∀ n f, same f → same (<[tmp := n]> f)) as Hsame by (intros n f Hf; unfold same; by rewrite lookup_insert_ne).
  assert (∀ k f, same f → same (map_regular k tmp f)) as Hmap by (intros k f Hf; unfold map_regular; repeat case_match; by try apply Hsame).
  eapply ft_bind with (Q := λ _ f, same f ∧ ∃ md u g, f !! tmp = Some (Regular content md u g)).
  { apply ft_call_or.
    - intros [n|] f Hf; [|done]. destruct (f !! tmp); [by apply Hmap|by apply Hsame].
    - intros f Hf. destruct (f !! tmp) as [[c md u' g| | |]|] eqn:E; [|done..|].
      + split; [by apply Hmap|]. unfold map_regular. rewrite E. exists md, u', g. apply lookup_insert_eq.
      + split; [by apply Hsame|]. eexists _, _, _. apply lookup_insert_eq. }
  intros []. eapply ft_bind with (Q := λ _ f, same f ∧ ∃ u g, f !! tmp = Some (Regular content (Z.land mode 4095) u g)).
  { apply ft_syscall; [by intros f [? _]|]. intros f (Hf & md & u' & g & E). split; [by apply Hmap|]. unfold map_regular. rewrite E.
    exists u', g. apply lookup_insert_eq. }
  intros []. apply ft_syscall; [by intros f [? _]|]. intros f (Hf & u' & g & E). rewrite E. case_decide; [done|].
  exists u', g. apply lookup_insert_eq.
Qed.

(** *** Reading *)

(** The text at a path: what a link leads to counts. *)
Definition text_at (path : string) (f : Files) : option string :=
  match f !! components path with
  | Some (Regular c _ _ _) => Some c
  | Some (Symlink _) => match behind_link (components path) with Ok c => Some c | Err _ => None end
  | _ => None
  end.

Lemma holds_text path content mode f : holds path content mode f → text_at path f = Some content.
Proof. intros (u & g & Hf). unfold text_at. by rewrite Hf. Qed.

Hypothesis honest : ∀ i, call_fails i ≠ Some "ENOENT".

Lemma ft_read_text path P :
  ftriple P (read_text path) (λ t f, P f ∧ t = text_at path f ∧ f !! components path ≠ Some Directory) P.
Proof.
  intros m Hm. unfold read_text, at_path, found, read_to_string, syscall, call_or, text_at.
  destruct (call_fails (mc_calls m)) as [e|] eqn:He; cbn; [rewrite decide_False by (intros ->; by apply honest in He); done|].
  destruct (mc_files m !! components path) as [[c md u g| |t|]|] eqn:Hn; cbn.
  - by case_decide; cbn; [|rewrite decide_False by done]; rewrite ?Hn.
  - by rewrite decide_False.
  - destruct (behind_link (components path)) as [c|e] eqn:Hl; cbn.
    + by case_decide; cbn; [|rewrite decide_False by done]; rewrite ?Hn.
    + by case_decide; cbn; rewrite ?Hn.
  - by rewrite decide_False.
  - rewrite decide_True by done. by rewrite Hn.
Qed.

Lemma ft_remove_text path P (Q : Files → Prop) :
  (∀ f, P f → f !! components path ≠ Some Directory → Q (delete (components path) f)) →
  ftriple P (at_path path (found (remove_file (components path)))) (λ _, Q) P.
Proof.
  intros HQ. apply (ft_remove honest); [done| |].
  - intros f Hf Hn. rewrite <- (delete_id f (components path)) by done. apply HQ; [done|by rewrite Hn].
  - intros f n Hf Hn Hd. apply HQ; [done|congruence].
Qed.

End ConfigFile.
