(* ===== verification/Cron.v ===== *)
(** * The cron provider (crates/iac-providers/src/cron/)

    A job is a file of the cron directory, rendered from its spec: what a
    spec may hold, the rendered text, and the provider's operations. *)

From stdpp Require Import pretty.
From S2P Require Import Prelude Text Json ApiError Routing Db AuditLog Ids Diff Executor Chars PluginSpec Plugin SpecReader Posix FileProvider ConfigFile.

#[local] Open Scope string_scope.
#[local] Open Scope list_scope.
#[local] Open Scope nat_scope.
#[local] Open Scope io_scope.

(** ** The spec *)

Inductive CronState := CronPresent | CronAbsent.

#[export] Instance CronState_eq_dec : EqDecision CronState.
Proof. solve_decision. Defined.

Record CronJobSpec := mkCron {
  cj_name : string;
  cj_state : CronState;
  cj_schedule : option string;
  cj_command : option string;
  cj_user : string;
  cj_env : list (string * string);
  cj_cron_dir : option string
}.

(** [A-Za-z0-9._-]. *)
Definition name_char (c : N) : bool := is_ascii_alphanumeric c || (c =? 95)%N || (c =? 45)%N || (c =? 46)%N.

Definition validate_cron_name (name : string) : result message () :=
  if decide (name = "") then Err [Txt "must not be empty"]
  else if negb (all_chars name_char name) then Err [Txt "must match [a-zA-Z0-9._-]+, got "; Dbg name; Txt " (run-parts would skip it)"]
  else if bool_decide (name = ".") || bool_decide (name = "..") || str_contains "/" name then Err [Txt "must not be '.', '..', or contain '/'"]
  else Ok ().

Definition validate_user (user : string) : result message () :=
  if decide (user = "") then Err [Txt "must not be empty"]
  else if negb (all_chars name_char user) then Err [Txt "must match [a-zA-Z0-9._-]+, got "; Dbg user]
  else Ok ().

Definition validate_env_key (key : string) : result message () :=
  match chars key with
  | [] => Err [Txt "must not be empty"]
  | first :: _ =>
      if negb (is_ascii_alphabetic first || (first =? 95)%N) then Err [Txt "must start with [A-Za-z_]"]
      else if negb (all_chars (λ c, is_ascii_alphanumeric c || (c =? 95)%N) key) then Err [Txt "must match [A-Za-z_][A-Za-z0-9_]*"]
      else Ok ()
  end.

Definition SHORTHANDS : list string := ["yearly"; "annually"; "monthly"; "weekly"; "daily"; "midnight"; "hourly"; "reboot"].

(** Alphanumeric, or one of [*,-/]. *)
Definition field_char (c : N) : bool := is_ascii_alphanumeric c || (c =? 42)%N || (c =? 44)%N || (c =? 45)%N || (c =? 47)%N.

Definition validate_schedule (schedule : string) : result message () :=
  let trimmed := trim schedule in
  if decide (trimmed = "") then Err [Txt "must not be empty"]
  else match strip_prefix "@" trimmed with
  | Some rest =>
      let words := split_whitespace rest in
      if negb (bool_decide (default "" (head words) ∈ SHORTHANDS)) then Err (Txt "@-shorthand must be one of " :: debug_list SHORTHANDS)
      else if negb (length words =? 1) then Err [Txt "@-shorthand must be standalone"]
      else Ok ()
  | None =>
      let fields := split_whitespace trimmed in
      if negb (length fields =? 5) then Err [Txt "expected 5 fields, got "; Dec (Z.of_nat (length fields))]
      else match List.find (λ f, negb (all_chars field_char f)) fields with
           | Some f => Err [Txt "field "; Dbg f; Txt " contains disallowed characters"]
           | None => Ok ()
           end
  end.

(** [r.map_err(|e| format!("what: {e}"))]. *)
Definition labelled {A} (what : message) (r : result message A) : result message A := map_err (λ e, what ++ Txt ": " :: e) r.

Definition validate_env_entry (kv : string * string) : result message () :=
  _ ← labelled [Txt "env key "; Dbg kv.1] (validate_env_key kv.1);
  if str_contains newline_text kv.2 then Err [Txt "env "; Dbg kv.1; Txt ": value must not contain newline"] else Ok ().

Definition validate_cron (s : CronJobSpec) : result message () :=
  _ ← labelled [Txt "name"] (validate_cron_name (cj_name s));
  _ ← labelled [Txt "user"] (validate_user (cj_user s));
  _ ← match cj_cron_dir s with
      | Some dir => if negb (is_absolute dir) then Err [Txt "cron_dir must be absolute, got "; Txt dir] else Ok ()
      | None => Ok ()
      end;
  _ ← try_map validate_env_entry (cj_env s);
  match cj_state s with
  | CronAbsent =>
      if bool_decide (is_Some (cj_schedule s)) || bool_decide (is_Some (cj_command s)) || negb (bool_decide (cj_env s = []))
      then Err [Txt "state=absent forbids schedule/command/env"] else Ok ()
  | CronPresent =>
      schedule ← ok_or (cj_schedule s) [Txt "schedule is required when state=present"];
      _ ← labelled [Txt "schedule "; Dbg schedule] (validate_schedule schedule);
      command ← ok_or (cj_command s) [Txt "command is required when state=present"];
      if str_contains newline_text command then Err [Txt "command must be a single line (no newline)"]
      else if is_blank command then Err [Txt "command must not be empty"]
      else Ok ()
  end.

Definition cron_fields (v : Json) : option CronJobSpec :=
  match strict_fields ["name"; "state"; "schedule"; "command"; "user"; "env"; "cron_dir"] v with
  | Some [name; state; schedule; command; user; env; dir] =>
      n ← required_string name;
      st ← enum_or [("present", CronPresent); ("absent", CronAbsent)] CronPresent state;
      s ← optional_string schedule; c ← optional_string command; u ← string_or "root" user;
      e ← texts_or_empty env; d ← optional_string dir;
      Some (mkCron n st s c u e d)
  | _ => None
  end.

Definition config_path (s : CronJobSpec) : string :=
  let dir := default "/etc/cron.d" (cj_cron_dir s) in
  match strip_suffix "/" dir with Some _ => dir +:+ cj_name s | None => dir +:+ "/" +:+ cj_name s end.

(** ** The file *)

Definition HEADER : string := line "# Managed by iac. Do not edit by hand.".

Definition tab : string := String (Ascii.ascii_of_N 9) "".

Definition job_line (s : CronJobSpec) : string :=
  default "" (cj_schedule s) +:+ tab +:+ cj_user s +:+ tab +:+ default "" (cj_command s).

Definition render_cron (s : CronJobSpec) : string :=
  HEADER +:+ str_join "" (map (λ kv, line (kv.1 +:+ "=" +:+ kv.2)) (cj_env s)) +:+
  (if bool_decide (cj_env s = []) then "" else newline_text) +:+ line (job_line s).

(** ** The operations *)

Inductive CronAction := CronWrite | CronRemove.
Definition cron_actions : list (string * CronAction) := [("cron.write", CronWrite); ("cron.remove", CronRemove)].
Definition cron_action_name (a : CronAction) : string := match a with CronWrite => "cron.write" | CronRemove => "cron.remove" end.

Section CronProvider.
Context `{Kernel, ExecEnv, Sha256}.
Context (serde_error : Json → string) (stamp : Machine → string).

Definition cron_from_value (v : Json) : result message CronJobSpec :=
  spec ← ok_or (cron_fields v) [Ext (serde_error v)]; _ ← validate_cron spec; Ok spec.

Definition cron_spec_of (r : Resource) : CoreResult CronJobSpec := parse_spec "cron.job" cron_from_value r.

Definition observe_cron (s : CronJobSpec) : io Machine ObservedState :=
  let path := config_path s in
  let* text := read_text path in
  match text with
  | Some text =>
      let sha := JString (sha256_hex text) in
      λ m, (Ok (mkObserved true (JObject [("path", JString path); ("content_sha256", sha)])
                 [("present", JBool true); ("content_sha256", sha); ("size", JNum (size_of text))] (stamp m)), m)
  | None => λ m, (Ok (mkObserved false JNull [("present", JBool false)] (stamp m)), m)
  end.

Definition diff_cron (s : CronJobSpec) (o : ObservedState) : Diff :=
  match cj_state s, obs_present o with
  | CronAbsent, false => no_change
  | CronAbsent, true => mkDiff Update [state_change "present" "absent"] ["remove cron job " +:+ cj_name s] true
  | CronPresent, false => mkDiff Create [state_change "absent" "present"] ["install cron job " +:+ cj_name s] true
  | CronPresent, true =>
      let desired_sha := sha256_hex (render_cron s) in
      let observed_sha := fact_str o "content_sha256" in
      if decide (desired_sha = observed_sha) then no_change
      else mkDiff Update [mkChange "content_sha256" (Some (JString observed_sha)) (Some (JString desired_sha)) false]
             ["rendered cron file differs"] true
  end.

Definition plan_cron (s : CronJobSpec) (d : Diff) (n : nat) : list Step * nat :=
  if negb (is_change d) then ([], n)
  else
    let path := config_path s in
    let '(action, verb) := match cj_state s with CronPresent => (CronWrite, "write ") | CronAbsent => (CronRemove, "remove ") end in
    ([step_new (ulid_at n) (cron_action_name action) (verb +:+ path) (JObject [("path", JString path)])], S n).

Definition pre_apply_cron (s : CronJobSpec) : io Machine Json :=
  let path := config_path s in
  let* text := read_text path in
  io_ret (match text with
          | Some text => JObject [("content", JString text); ("existed", JBool true); ("path", JString path)]
          | None => JObject [("existed", JBool false); ("path", JString path)]
          end).

Definition atomic_write (path content : string) (mode : Z) : io Machine () :=
  replace_text (path_has_no_parent "cron" path) path content mode.

Definition CRON_MODE : Z := 420.

Definition wrote_cron (path content : string) : StepResult :=
  mkStepResult StSucceeded [Txt "wrote "; Txt path; Txt " ("; Dec (size_of content); Txt " bytes)"]
    (JObject [("bytes", JNum (size_of content)); ("content_sha256", JString (sha256_hex content)); ("path", JString path)]) None.

Definition apply_cron (s : CronJobSpec) (step : Step) : io Machine StepResult :=
  let path := config_path s in
  let* action := io_lift (parse_action "CronAction" cron_actions (st_action step)) in
  match action with
  | CronWrite => let content := render_cron s in atomic_write path content CRON_MODE ;* io_ret (wrote_cron path content)
  | CronRemove =>
      let* removed := at_path path (found (remove_file (components path))) in
      io_ret (match removed with
              | Some _ => step_result_ok [Txt "removed "; Txt path]
              | None => step_result_skipped [Txt path; Txt " already absent"]
              end)
  end.

Definition rollback_cron (s : CronJobSpec) (data : Json) : io Machine () :=
  let path := config_path s in
  if default false (v ← json_get data "existed"; as_bool v) then
    match v ← json_get data "content"; as_str v with
    | Some content => atomic_write path content CRON_MODE
    | None => io_ret ()
    end
  else let* _ := at_path path (found (remove_file (components path))) in io_ret ().

Definition cron_provider : Provider Machine () := {|
  p_observe r m := s ← cron_spec_of r; (observe_cron s m).1;
  p_diff r o := s ← cron_spec_of r; Ok (diff_cron s o);
  p_plan r d n := match cron_spec_of r with Ok s => let '(steps, n) := plan_cron s d n in (Ok steps, n) | Err e => (Err e, n) end;
  p_pre_apply r _ _ := on_machine (let* s := io_lift (cron_spec_of r) in pre_apply_cron s);
  p_apply r step _ := on_machine (let* s := io_lift (cron_spec_of r) in apply_cron s step);
  p_verify r m := s ← cron_spec_of r; o ← (observe_cron s m).1;
                  let d := diff_cron s o in Ok (if is_change d then VMismatch (diff_changes d) else VMatch);
  p_rollback r cp := on_machine (let* s := io_lift (cron_spec_of r) in rollback_cron s (cp_data cp));
  p_capability_keys r := s ← cron_spec_of r; Ok [cj_name s]
|}.

End CronProvider.

(** ** What the cron provider guarantees

    The file of a job has the lines its spec asks for and no other, when the
    schedule is one line; and an apply converges. *)

From S2P Require Import FileProps.

(** ** The lines of the file *)

Definition env_line (kv : string * string) : string := kv.1 +:+ "=" +:+ kv.2.

(** What a job's file is to hold. *)
Definition wanted_lines (s : CronJobSpec) : list string :=
  "# Managed by iac. Do not edit by hand." ::
  map env_line (cj_env s) ++ (if bool_decide (cj_env s = []) then [] else [""]) ++ [job_line s].

Lemma str_join_cons (x : string) xs : str_join "" (x :: xs) = x +:+ str_join "" xs.
Proof. destruct xs; [symmetry; apply str_app_nil_r|done]. Qed.

Lemma str_join_app xs ys : str_join "" (xs ++ ys) = str_join "" xs +:+ str_join "" ys.
Proof. induction xs as [|x xs IH]; [done|]. cbn [app]. by rewrite !str_join_cons, IH, str_app_assoc. Qed.

(** The text is those lines. *)
Lemma render_lines s : render_cron s = str_join "" (map line (wanted_lines s)).
Proof.
  unfold render_cron, wanted_lines. cbn [map]. rewrite str_join_cons, !map_app, !str_join_app, map_map. unfold HEADER, env_line.
  f_equal. f_equal. by case_bool_decide.
Qed.

Lemma labelled_Ok {A} what (r : result message A) a : labelled what r = Ok a → r = Ok a.
Proof. by destruct r. Qed.

Section Valid.
Context (s : CronJobSpec) (Hs : validate_cron s = Ok ()).

Lemma valid_parts :
  validate_user (cj_user s) = Ok () ∧ Forall (λ kv, validate_env_entry kv = Ok ()) (cj_env s) ∧
  (cj_state s = CronPresent → ∃ schedule command, cj_schedule s = Some schedule ∧ cj_command s = Some command ∧
     validate_schedule schedule = Ok () ∧ str_contains newline_text command = false).
Proof.
  revert Hs. unfold validate_cron. intros (? & _ & ([] & Hu%labelled_Ok & (? & _ & (us & He & Hst)%bind_Ok_inv)%bind_Ok_inv)%bind_Ok_inv)%bind_Ok_inv.
  split_and!; [done| |].
  - clear -He. revert us He. induction (cj_env s) as [|kv env IH]; intros us; [constructor|]. cbn [try_map].
    intros ([] & Hkv & (us' & He & _)%bind_Ok_inv)%bind_Ok_inv. constructor; [done|by eapply IH].
  - intros Hp. rewrite Hp in Hst. apply bind_Ok_inv in Hst as (schedule & Hsc & ([] & Hv%labelled_Ok & (command & Hc & Hl)%bind_Ok_inv)%bind_Ok_inv).
    exists schedule, command. destruct (cj_schedule s); [|done]. destruct (cj_command s); [|done].
    cbn in Hsc, Hc. simplify_eq. split_and!; [done..|]. by destruct (str_contains newline_text command).
Qed.
End Valid.

Section Provider.
Context `{Kernel, ExecEnv, Sha256}.
Context (serde_error : Json → string) (stamp : Machine → string).

(** C20: The file the cron provider writes for a spec it accepts has exactly
    the lines the spec asks for, in order: the header, one line per variable,
    a blank line when there are variables, and one job. Nothing in a user, a
    variable's name or value, or a command adds a line; the schedule is the
    exception, and is assumed to be one. The texts are UTF-8. *)
Theorem cron_file_lines r s :
  cron_spec_of serde_error r = Ok s → cj_state s = CronPresent →
  is_utf8 (cj_user s) → Forall (λ kv, is_utf8 kv.1) (cj_env s) →
  (∀ schedule, cj_schedule s = Some schedule → one_line schedule) →
  stream_lines (split_on newline (render_cron s)) =
    "# Managed by iac. Do not edit by hand." ::
    map (λ kv, kv.1 +:+ "=" +:+ kv.2) (cj_env s) ++ (if bool_decide (cj_env s = []) then [] else [""]) ++ [job_line s].
Proof.
  intros Hspec Hpres Hutf Hkeys Hsch. rewrite render_lines. apply written_lines.
  unfold cron_spec_of, parse_spec, cron_from_value in Hspec.
  assert (validate_cron s = Ok ()) as Hv.
  { destruct (spec ← _; _) as [s'|e] eqn:E; [|done]. injection Hspec as ->. apply bind_Ok_inv in E as (s' & _ & ([] & Hv & [= ->])%bind_Ok_inv). done. }
  apply valid_parts in Hv as (Hu & He & Hp). destruct (Hp Hpres) as (schedule & command & Hsc & Hc & _ & Hcl).
  constructor; [done|]. apply Forall_app. split; [|apply Forall_app; split; [by case_bool_decide; repeat constructor|]].
  - apply Forall_map. rewrite Forall_forall in He, Hkeys |- *. intros kv Hkv. specialize (He _ Hkv). specialize (Hkeys _ Hkv).
    unfold validate_env_entry in He. apply bind_Ok_inv in He as ([] & Hk%labelled_Ok & Hval).
    apply one_line_app. split; [|apply one_line_cons; split; [done|]].
    + eapply one_line_chars; [done| |]; [|by revert Hk; unfold validate_env_key; destruct (chars kv.1) eqn:Ec;
        [|destruct (negb (_ || _)); [|destruct (all_chars _ kv.1) eqn:Ea; [unfold all_chars in Ea; rewrite Ec in Ea; exact (λ _, Ea)|]]]]. done.
    + apply one_line_contains. by destruct (str_contains newline_text kv.2).
  - constructor; [|done]. unfold job_line. rewrite Hsc, Hc. cbn [default from_option id]. rewrite !one_line_app.
    split; [by apply Hsch|]. split; [done|]. split; [|split; [done|by apply one_line_contains]].
    apply (one_line_chars name_char); [done..|]. revert Hu. unfold validate_user. case_decide; [done|]. by destruct (all_chars name_char (cj_user s)) eqn:Ea.
Qed.

(** ** Convergence *)

Hypothesis honest : ∀ i, call_fails i ≠ Some "ENOENT".

Lemma ft_cron_write path content mode :
  ftriple (λ _, True) (atomic_write path content mode) (λ _, holds path content mode) (λ _, True).
Proof. apply ft_replace_text. Qed.

Lemma ft_cron_remove path :
  ftriple (λ _, True) (at_path path (found (remove_file (components path)))) (λ _ f, f !! components path = None) (λ _, True).
Proof. apply (ft_remove honest); [done..|]. intros f n _ _ _. apply lookup_delete_eq. Qed.

Lemma observe_cron_present s m o content mode u g :
  mc_files m !! components (config_path s) = Some (Regular content mode u g) →
  (observe_cron stamp s m).1 = Ok o → obs_present o = true ∧ fact_str o "content_sha256" = sha256_hex content.
Proof.
  intros Hf. unfold observe_cron, read_text, io_bind, at_path, found, read_to_string, syscall, call_or.
  destruct (call_fails (mc_calls m)) as [e|] eqn:He; cbn; [rewrite decide_False by (intros ->; by apply honest in He); done|].
  rewrite Hf. cbn. case_decide; cbn; [by intros [= <-]|]. rewrite decide_False by done. done.
Qed.

Lemma observe_cron_absent s m o :
  mc_files m !! components (config_path s) = None → (observe_cron stamp s m).1 = Ok o → obs_present o = false.
Proof.
  intros Hf. unfold observe_cron, read_text, io_bind, at_path, found, read_to_string, syscall, call_or.
  destruct (call_fails (mc_calls m)) as [e|] eqn:He; cbn; [rewrite decide_False by (intros ->; by apply honest in He); done|].
  rewrite Hf. cbn. rewrite decide_True by done. by intros [= <-].
Qed.

(** An apply of a cron job converges. When the step planned for the job
    has succeeded, whatever calls failed on the way, its file holds the
    rendered job with mode 0644, or is gone when the job is to be absent; and
    the next observation that succeeds shows no difference and verifies. *)
Theorem cron_apply_converges r s step ctx m m1 res :
  let provider := cron_provider serde_error stamp in
  cron_spec_of serde_error r = Ok s →
  st_action step = cron_action_name (match cj_state s with CronPresent => CronWrite | CronAbsent => CronRemove end) →
  p_apply provider r step ctx (m, ()) = (Ok res, (m1, ())) →
  match cj_state s with
  | CronPresent => ∃ u g, mc_files m1 !! components (config_path s) = Some (Regular (render_cron s) 420 u g)
  | CronAbsent => mc_files m1 !! components (config_path s) = None
  end ∧
  ∀ o, p_observe provider r m1 = Ok o → p_diff provider r o = Ok no_change ∧ p_verify provider r m1 = Ok VMatch.
Proof.
  intros provider Hspec Hact. cbn [provider p_apply p_observe p_diff p_verify cron_provider]. unfold on_machine, io_bind, io_lift.
  rewrite Hspec. cbn [mbind result_bind]. unfold apply_cron. rewrite Hact. intros Happ.
  assert (∀ o, (observe_cron stamp s m1).1 = Ok o → diff_cron s o = no_change →
    Ok (diff_cron s o) = @Ok CoreError _ no_change ∧
    (o0 ← (observe_cron stamp s m1).1; Ok (if is_change (diff_cron s o0) then VMismatch (diff_changes (diff_cron s o0)) else VMatch)) = Ok VMatch) as Hdone
    by (intros o -> Hd; cbn; by rewrite Hd).
  destruct (cj_state s) eqn:Hst.
  - change (parse_action _ cron_actions (cron_action_name CronWrite)) with (@Ok CoreError _ CronWrite) in Happ. cbn iota in Happ.
    unfold io_bind, io_lift, io_ret in Happ. pose proof (ft_cron_write (config_path s) (render_cron s) CRON_MODE m I) as Hw.
    destruct (atomic_write _ _ _ m) as [[[]|e] m2]; [|done]. simplify_eq. destruct Hw as (u & g & Hf).
    split; [by exists u, g|]. intros o Ho. apply Hdone; [done|]. destruct (observe_cron_present _ _ _ _ _ _ _ Hf Ho) as [Hpr Hsha].
    unfold diff_cron. rewrite Hst, Hpr, Hsha. by rewrite decide_True.
  - change (parse_action _ cron_actions (cron_action_name CronRemove)) with (@Ok CoreError _ CronRemove) in Happ. cbn iota in Happ.
    unfold io_bind, io_lift, io_ret in Happ. pose proof (ft_cron_remove (config_path s) m I) as Hr.
    destruct (at_path _ _ m) as [[?|e] m2]; [|done]. simplify_eq. split; [done|]. intros o Ho. apply Hdone; [done|].
    unfold diff_cron. by rewrite Hst, (observe_cron_absent _ _ _ Hr Ho).
Qed.

End Provider.
