(* ===== verification/Command.v ===== *)
(** * Commands (crates/iac-core/src/subprocess.rs and crates/iac-providers/src/subprocess.rs)

    Running a program under a deadline, and what the providers make of its
    answer. Programs are not of this repository: what they do to the machine
    is a parameter. *)

From stdpp Require Import pretty.
From S2P Require Import Prelude Text Json Ids Chars Posix.

#[local] Open Scope string_scope.
#[local] Open Scope list_scope.
#[local] Open Scope nat_scope.
#[local] Open Scope io_scope.

(** ** Waiting for a child

    Times are in milliseconds. *)

Definition POLL_INTERVAL : Z := 25.
Definition POST_KILL_REAP_WINDOW : Z := 1000.

(** [status]: the exit code, or none for a signal. *)
Record Output := mkOutput { out_status : option Z; out_stdout : string; out_stderr : string }.

Inductive SubprocessError :=
| Spawn (e : string)
| Timeout_ (elapsed : Z) (partial_stdout partial_stderr : string)
| Wait (e : string).

(** What a reader thread drains: all that is written, and when it sees the end
    of it, in time since the start; never, while some process holds the
    writing end. *)
Record Pipe := mkPipe { pp_bytes : string; pp_eof : option Z }.

(** A child as its parent sees it: the [i]th [try_wait] and the time since the
    start at the [i]th poll; after a kill, whether the [j]th look finds it gone
    and the time since the kill; and its outputs, if they are piped, which the
    kill may cut ([None]: it was not killed). *)
Record Child := mkChild {
  ch_try_wait : nat → result string (option (option Z));
  ch_elapsed : nat → Z;
  ch_reaped : nat → bool;
  ch_reap_after : nat → Z;
  ch_stdout : option (option Z → Pipe);
  ch_stderr : option (option Z → Pipe)
}.

(** How a call ends: it returns at some time, or it blocks for ever. *)
Inductive CallEnd (A : Type) :=
| Returned (a : A) (now : Z)
| Blocked.
Arguments Returned {A} a now.
Arguments Blocked {A}.

(** [rx.and_then(|rx| rx.recv().ok())]: without a deadline. *)
Definition recv (now : Z) (rx : option (option Z → Pipe)) : CallEnd string :=
  match rx with
  | None => Returned "" now
  | Some pipe => match pp_eof (pipe None) with
                 | Some t => Returned (pp_bytes (pipe None)) (Z.max now t)
                 | None => Blocked
                 end
  end.

(** [rx.recv_timeout(POST_KILL_REAP_WINDOW)], after the kill. *)
Definition recv_timeout (now killed : Z) (rx : option (option Z → Pipe)) : string * Z :=
  match rx with
  | None => ("", now)
  | Some pipe =>
      match pp_eof (pipe (Some killed)) with
      | Some t => if (t <=? now + POST_KILL_REAP_WINDOW)%Z then (pp_bytes (pipe (Some killed)), Z.max now t)
                  else ("", (now + POST_KILL_REAP_WINDOW)%Z)
      | None => ("", (now + POST_KILL_REAP_WINDOW)%Z)
      end
  end.

(** Looking for the killed child, until it is gone or the window is over; the
    answer is the time since the kill. *)
Fixpoint reap_loop (fuel : nat) (c : Child) (j : nat) : option Z :=
  match fuel with
  | O => None
  | S fuel =>
      if (POST_KILL_REAP_WINDOW <=? ch_reap_after c j)%Z then Some (ch_reap_after c j)
      else if ch_reaped c j then Some (ch_reap_after c j) else reap_loop fuel c (S j)
  end.
Definition reap_fuel : nat := S (Z.to_nat (POST_KILL_REAP_WINDOW / POLL_INTERVAL)).

(** The child has exited: its outputs are waited for. *)
Definition collect (c : Child) (status : option Z) (now : Z) : CallEnd (result SubprocessError Output) :=
  match recv now (ch_stdout c) with
  | Blocked => Blocked
  | Returned out now =>
      match recv now (ch_stderr c) with
      | Blocked => Blocked
      | Returned err now => Returned (Ok (mkOutput status out err)) now
      end
  end.

(** The deadline has passed. *)
Definition kill_and_reap (c : Child) (killed : Z) : option (CallEnd (result SubprocessError Output)) :=
  match reap_loop reap_fuel c 0 with
  | None => None
  | Some after =>
      let '(out, now) := recv_timeout (killed + after) killed (ch_stdout c) in
      let '(err, now) := recv_timeout now killed (ch_stderr c) in
      Some (Returned (Err (Timeout_ now out err)) now)
  end.

(** The loop, from the [i]th poll. *)
Fixpoint wait_loop (fuel : nat) (timeout : Z) (c : Child) (i : nat) : option (CallEnd (result SubprocessError Output)) :=
  match fuel with
  | O => None
  | S fuel =>
      match ch_try_wait c i with
      | Ok (Some status) => Some (collect c status (ch_elapsed c i))
      | Ok None =>
          if (timeout <=? ch_elapsed c i)%Z then kill_and_reap c (ch_elapsed c i)
          else wait_loop fuel timeout c (S i)
      | Err e => Some (Returned (Err (Wait e)) (ch_elapsed c i))
      end
  end.

(** Polls enough for the deadline to pass. *)
Definition wait_fuel (timeout : Z) : nat := S (S (Z.to_nat (timeout / POLL_INTERVAL))).

Definition run_with_timeout (spawned : result string Child) (timeout : Z) : option (CallEnd (result SubprocessError Output)) :=
  match spawned with
  | Err e => Some (Returned (Err (Spawn e)) 0)
  | Ok c => wait_loop (wait_fuel timeout) timeout c 0
  end.

(** *** The loops end *)

(** Every sleep takes its interval at least. *)
Record sleeps (c : Child) : Prop := {
  sl_poll : ∀ i, (POLL_INTERVAL * Z.of_nat i ≤ ch_elapsed c i)%Z;
  sl_reap : ∀ j, (POLL_INTERVAL * Z.of_nat j ≤ ch_reap_after c j)%Z
}.

Lemma reap_ends c fuel j :
  (∀ j, (POLL_INTERVAL * Z.of_nat j ≤ ch_reap_after c j)%Z) →
  (POST_KILL_REAP_WINDOW ≤ POLL_INTERVAL * Z.of_nat (j + fuel - 1))%Z → 1 ≤ fuel →
  ∃ last, reap_loop fuel c j = Some (ch_reap_after c last) ∧ j ≤ last < j + fuel.
Proof.
  intros Hs. revert j. induction fuel as [|fuel IH]; intros j Hj Hf; [lia|]. cbn [reap_loop].
  destruct (Z.leb_spec POST_KILL_REAP_WINDOW (ch_reap_after c j)) as [|Hlt]; [exists j; split; [done|lia]|].
  destruct (ch_reaped c j); [exists j; split; [done|lia]|].
  destruct fuel as [|fuel]; [specialize (Hs j); replace (j + 1 - 1) with j in Hj by lia; lia|].
  destruct (IH (S j)) as (l & Hl & Hb); [by replace (S j + S fuel - 1) with (j + S (S fuel) - 1) by lia|lia|].
  exists l. split; [done|lia].
Qed.

Lemma recv_timeout_bounded now killed rx :
  (now ≤ (recv_timeout now killed rx).2 ≤ now + POST_KILL_REAP_WINDOW)%Z.
Proof.
  unfold recv_timeout, POST_KILL_REAP_WINDOW. destruct rx as [pipe|]; [|cbn; lia].
  destruct (pp_eof _) as [t|]; [|cbn; lia]. destruct (Z.leb_spec t (now + 1000)); cbn; lia.
Qed.

(** A kill is answered within the three windows that follow it. *)
Lemma killed_returns c killed :
  (∀ j, (POLL_INTERVAL * Z.of_nat j ≤ ch_reap_after c j)%Z) →
  ∃ elapsed out err last, kill_and_reap c killed = Some (Returned (Err (Timeout_ elapsed out err)) elapsed) ∧
    (Z.of_nat last ≤ POST_KILL_REAP_WINDOW / POLL_INTERVAL)%Z ∧
    (killed + ch_reap_after c last ≤ elapsed ≤ killed + ch_reap_after c last + 2 * POST_KILL_REAP_WINDOW)%Z.
Proof.
  intros Hs. destruct (reap_ends c reap_fuel 0 Hs) as (l & Hl & Hb); [by vm_compute|unfold reap_fuel; lia|].
  unfold kill_and_reap. rewrite Hl.
  pose proof (recv_timeout_bounded (killed + ch_reap_after c l) killed (ch_stdout c)) as H1.
  destruct (recv_timeout (killed + _) killed (ch_stdout c)) as [out now].
  pose proof (recv_timeout_bounded now killed (ch_stderr c)) as H2.
  destruct (recv_timeout now killed (ch_stderr c)) as [err now']. cbn [snd] in *.
  exists now', out, err, l. split; [done|]. split; [|lia].
  change (POST_KILL_REAP_WINDOW / POLL_INTERVAL)%Z with 40%Z. change reap_fuel with 41 in Hb. lia.
Qed.

(** A child that exited is waited for until its outputs end. *)
Lemma collect_ends c status now :
  let open rx := ∃ pipe, rx = Some pipe ∧ pp_eof (pipe None) = None in
  (Some (collect c status now) = Some Blocked ↔ open (ch_stdout c) ∨ open (ch_stderr c)) ∧
  (¬ (open (ch_stdout c) ∨ open (ch_stderr c)) →
   ∃ now', Some (collect c status now) =
     Some (Returned (Ok (mkOutput status (from_option (λ pipe, pp_bytes (pipe None)) "" (ch_stdout c))
                           (from_option (λ pipe, pp_bytes (pipe None)) "" (ch_stderr c)))) now')).
Proof.
  intros open. unfold collect.
  assert (∀ now rx, (recv now rx = Blocked ∧ open rx) ∨
            (∃ now', recv now rx = Returned (from_option (λ pipe, pp_bytes (pipe None)) "" rx) now') ∧ ¬ open rx) as Hrecv.
  { intros n rx. unfold recv, open. destruct rx as [pipe|]; [|right; split; [by eexists|by intros (? & ? & _)]].
    destruct (pp_eof (pipe None)) eqn:E; [right|left; split; [done|by exists pipe]].
    split; [by eexists|]. intros (? & [= <-] & ?). congruence. }
  destruct (Hrecv now (ch_stdout c)) as [[-> Ho]|[[n1 ->] Hn]]; [split; [tauto|intros Hno; exfalso; tauto]|].
  destruct (Hrecv n1 (ch_stderr c)) as [[-> Ho]|[[n2 ->] Hn']]; [split; [tauto|intros Hno; exfalso; tauto]|].
  split; [split; [done|tauto]|]. intros _. by exists n2.
Qed.

(** A poll that ends the loop, the polls before it having seen a child that
    runs, before the deadline. *)
Definition last_poll (c : Child) (timeout : Z) (i : nat) : Prop :=
  (Z.of_nat i ≤ timeout / POLL_INTERVAL + 1)%Z ∧ ∀ j, j < i → ch_try_wait c j = Ok None ∧ (ch_elapsed c j < timeout)%Z.

(** What the parent does at it. *)
Definition poll_end (c : Child) (timeout : Z) (i : nat) : option (CallEnd (result SubprocessError Output)) :=
  match ch_try_wait c i with
  | Ok (Some status) => Some (collect c status (ch_elapsed c i))
  | Ok None => if (timeout <=? ch_elapsed c i)%Z then kill_and_reap c (ch_elapsed c i) else None
  | Err e => Some (Returned (Err (Wait e)) (ch_elapsed c i))
  end.

Lemma wait_loop_ends timeout c fuel i : (∀ i, (POLL_INTERVAL * Z.of_nat i ≤ ch_elapsed c i)%Z) →
  (timeout < POLL_INTERVAL * Z.of_nat (i + fuel - 1))%Z → 1 ≤ fuel →
  ∃ last, i ≤ last < i + fuel ∧ (∀ j, i ≤ j < last → ch_try_wait c j = Ok None ∧ (ch_elapsed c j < timeout)%Z) ∧
    wait_loop fuel timeout c i = poll_end c timeout last ∧
    (ch_try_wait c last = Ok None → (timeout ≤ ch_elapsed c last)%Z).
Proof.
  intros Hs. revert i. induction fuel as [|fuel IH]; intros i Hi Hf; [lia|]. cbn [wait_loop].
  destruct (ch_try_wait c i) as [[status|]|e] eqn:E.
  1, 3: exists i; unfold poll_end; rewrite E; split_and!; [lia..|done|done].
  destruct (Z.leb_spec timeout (ch_elapsed c i)) as [Hle|Hlt].
  { exists i. unfold poll_end. rewrite E, (proj2 (Z.leb_le _ _) Hle). split_and!; [lia..|done|done]. }
  destruct fuel as [|fuel]; [specialize (Hs i); replace (i + 1 - 1) with i in Hi by lia; lia|].
  destruct (IH (S i)) as (l & Hl & Hb & Hr & Ht); [by replace (S i + S fuel - 1) with (i + S (S fuel) - 1) by lia|lia|].
  exists l. split_and!; [lia..| |done|done]. intros j Hj. destruct (decide (j = i)) as [->|]; [done|]. apply Hb. lia.
Qed.

(** C31: How running a program ends, the sleeps between two polls taking their
    interval at least. Waiting for the child is bounded: it is over at poll
    [timeout/25ms + 1] at the latest. At that poll the child has exited, or
    polling failed, or the deadline has passed; then the child is killed and
    the call returns a timeout, never before the deadline, after at most 41
    looks for the killed child and one second for each of its two outputs,
    whoever holds them open. A child that exited in time gives its status and
    all of its outputs once their ends are seen, and this wait has no
    deadline: the call blocks for ever exactly when a process the child left
    behind never closes one of the outputs. *)
Theorem run_with_timeout_returns spawned timeout :
  (0 ≤ timeout)%Z → (∀ c, spawned = Ok c → sleeps c) →
  match spawned with
  | Err e => run_with_timeout spawned timeout = Some (Returned (Err (Spawn e)) 0)
  | Ok c =>
      ∃ i, last_poll c timeout i ∧
        match ch_try_wait c i with
        | Err e => run_with_timeout spawned timeout = Some (Returned (Err (Wait e)) (ch_elapsed c i))
        | Ok None =>
            (timeout ≤ ch_elapsed c i)%Z ∧
            ∃ elapsed out err last,
              run_with_timeout spawned timeout = Some (Returned (Err (Timeout_ elapsed out err)) elapsed) ∧
              (Z.of_nat last ≤ 40)%Z ∧
              (ch_elapsed c i + ch_reap_after c last ≤ elapsed ≤ ch_elapsed c i + ch_reap_after c last + 2000)%Z
        | Ok (Some status) =>
            let open rx := ∃ pipe, rx = Some pipe ∧ pp_eof (pipe None) = None in
            (run_with_timeout spawned timeout = Some Blocked ↔ open (ch_stdout c) ∨ open (ch_stderr c)) ∧
            (¬ (open (ch_stdout c) ∨ open (ch_stderr c)) →
             ∃ now, run_with_timeout spawned timeout =
               Some (Returned (Ok (mkOutput status (from_option (λ pipe, pp_bytes (pipe None)) "" (ch_stdout c))
                                     (from_option (λ pipe, pp_bytes (pipe None)) "" (ch_stderr c)))) now))
        end
  end.
Proof.
  intros Ht Hsl. destruct spawned as [c|e]; [|done]. destruct (Hsl c eq_refl) as [Hs Hr].
  assert (0 ≤ timeout / POLL_INTERVAL)%Z by (apply Z.div_pos; unfold POLL_INTERVAL; lia).
  pose proof (Z.mod_pos_bound timeout POLL_INTERVAL ltac:(done)) as Hm. pose proof (Z.div_mod timeout POLL_INTERVAL ltac:(done)) as Hd.
  destruct (wait_loop_ends timeout c (wait_fuel timeout) 0 Hs) as (i & Hi & Hb & Hrun & Hover);
    [unfold wait_fuel, POLL_INTERVAL in *; lia|unfold wait_fuel; lia|].
  exists i. split; [split; [unfold wait_fuel in Hi; lia|intros j Hj; apply Hb; lia]|].
  unfold run_with_timeout. rewrite Hrun. unfold poll_end. destruct (ch_try_wait c i) as [[status|]|e]; [|..|done].
  - apply collect_ends.
  - specialize (Hover eq_refl). split; [done|]. rewrite (proj2 (Z.leb_le _ _) Hover).
    destruct (killed_returns c (ch_elapsed c i) Hr) as (elapsed & out & err & l & Hk & Hl & Hbd).
    exists elapsed, out, err, l. split; [exact Hk|]. split; [exact Hl|]. exact Hbd.
Qed.

(** ** Errors for the record *)

Definition ERR_BYTES_PER_STREAM : nat := 512.

(** The marker starts with an ellipsis, three bytes of UTF-8. *)
Definition ELLIPSIS : string := utf8 8230.

Definition truncate_for_error (bytes : string) : string :=
  if String.length bytes <=? ERR_BYTES_PER_STREAM then from_utf8_lossy bytes
  else from_utf8_lossy (str_upto ERR_BYTES_PER_STREAM bytes) +:+ ELLIPSIS +:+ "[truncated, " +:+
       pretty (String.length bytes - ERR_BYTES_PER_STREAM) +:+ " more bytes]".

Definition map_subprocess_error (err : SubprocessError) (kind : string) (label : message) : CoreError :=
  EProvider kind (label ++
    match err with
    | Timeout_ elapsed _ err => [Txt " timed out after "; Dec (elapsed / 1000); Txt "s (stderr="; Txt (truncate_for_error err); Txt ")"]
    | Spawn e => [Txt ": spawn failed: "; Ext e]
    | Wait e => [Txt ": wait failed: "; Ext e]
    end).

(** [{:?}] of [ExitStatus::code()]. *)
Definition code_text (status : option Z) : message :=
  match status with Some c => [Txt "Some("; Dec c; Txt ")"] | None => [Txt "None"] end.

Definition nonzero_exit_error (out : Output) (kind : string) (label : message) : CoreError :=
  EProvider kind (label ++ [Txt " exit="] ++ code_text (out_status out) ++
    [Txt " stderr="; Txt (truncate_for_error (out_stderr out)); Txt " stdout="; Txt (truncate_for_error (out_stdout out))]).

Definition success (out : Output) : bool := bool_decide (out_status out = Some 0%Z).

(** ** Running *)

Record Command := mkCommand { cmd_program : string; cmd_args : list string; cmd_stdin : string; cmd_timeout : Z }.

(** What programs do: [run_with_timeout] of a command on a machine and what
    else the host holds. *)
Class Programs (H : Type) := run_program : Command → Machine * H → result SubprocessError Output * (Machine * H).

Section Run.
Context {H : Type} `{Programs H}.

Definition run_capture_stdout (cmd : Command) (kind : string) (label : message) : io (Machine * H) string := λ h,
  let '(r, h) := run_program cmd h in
  (match r with
   | Ok out =>
       if negb (success out) then Err (nonzero_exit_error out kind label)
       else if decide (from_utf8_lossy (out_stdout out) = out_stdout out) then Ok (out_stdout out)
       else Err (EProvider kind (label ++ [Txt ": response not utf-8"]))
   | Err e => Err (map_subprocess_error e kind label)
   end, h).

Definition run_check_status (cmd : Command) (kind : string) (label : message) : io (Machine * H) () :=
  let* _ := run_capture_stdout cmd kind label in io_ret ().

Definition run_with_status (cmd : Command) (kind : string) (label : message) : io (Machine * H) (bool * string * string) := λ h,
  let '(r, h) := run_program cmd h in
  (match r with
   | Ok out => Ok (success out, from_utf8_lossy (out_stdout out), from_utf8_lossy (out_stderr out))
   | Err e => Err (map_subprocess_error e kind label)
   end, h).

End Run.
