(* ===== verification/Nginx.v ===== *)
(** * The nginx provider (crates/iac-providers/src/nginx/)

    A virtual host is a configuration snippet rendered from its spec. A write
    or a removal is tested with [nginx -t] and undone when the test fails;
    then nginx is told to reload. *)

From stdpp Require Import pretty.
From S2P Require Import Prelude Text Json ApiError Routing Db AuditLog Ids Diff Executor Chars PluginSpec Plugin SpecReader Posix FileProvider FileProps ConfigFile Command.

#[local] Open Scope string_scope.
#[local] Open Scope list_scope.
#[local] Open Scope nat_scope.
#[local] Open Scope io_scope.

(** ** The spec *)

Inductive NginxState := NginxPresent | NginxAbsent.

#[export] Instance NginxState_eq_dec : EqDecision NginxState.
Proof. solve_decision. Defined.

Record ExtraLocation := mkLocation { el_path : string; el_proxy_pass : option string; el_root : option string }.
Record TlsConfig := mkTls { tls_certificate : string; tls_key : string; tls_redirect_http : bool }.

Record NginxVhostSpec := mkVhost {
  ng_config_path : string;
  ng_state : NginxState;
  ng_server_names : list string;
  ng_listen : list Z;
  ng_upstream : option string;
  ng_client_max_body_size : option string;
  ng_proxy_read_timeout : option string;
  ng_tls : option TlsConfig;
  ng_extra_locations : list ExtraLocation
}.

(** [;], blank, tab, newline and the quotes. *)
Definition METACHARACTERS : list N := [59; 32; 9; 10; 34; 39]%N.

(** [- . _ * ~ ^ $ / : + ? |], letters and digits. *)
Definition server_name_char (c : N) : bool :=
  is_ascii_alphanumeric c || bool_decide (c ∈ [45; 46; 95; 42; 126; 94; 36; 47; 58; 43; 63; 124]%N).

Definition validate_server_name (name : string) : result message () :=
  if decide (name = "") then Err [Txt "server_name must not be empty"]
  else if negb (all_chars server_name_char name) then Err [Txt "server_name "; Dbg name; Txt " contains disallowed characters"]
  else if str_contains ";" name then Err [Txt "server_name "; Dbg name; Txt " contains ';'"]
  else Ok ().

Definition validate_upstream (upstream : string) : result message () :=
  if decide (upstream = "") then Err [Txt "upstream must not be empty"]
  else if existsb is_whitespace (chars upstream) then Err [Txt "upstream must not contain whitespace"]
  else if str_contains ";" upstream then Err [Txt "upstream must not contain ';'"]
  else if negb (starts_with "http://" upstream || starts_with "https://" upstream || starts_with "unix:" upstream)
  then Err [Txt "upstream must start with http://, https://, or unix:"]
  else Ok ().

(** A number of 64 bits with one of the [suffixes], or without. *)
Definition validate_suffixed (suffixes : list N) (shown value field : string) : result message () :=
  let value := trim value in
  match last (chars value) with
  | None => Err [Txt field; Txt " must not be empty"]
  | Some suffix =>
      if negb (is_ascii_digit suffix) && negb (bool_decide (suffix ∈ suffixes))
      then Err [Txt field; Txt ": suffix must be one of "; Txt shown]
      else
      let digits := if is_ascii_digit suffix then value else str_upto (String.length value - 1) value in
      match parse_unsigned u64_max digits with
      | Some _ => Ok ()
      | None => Err [Txt field; Txt ": numeric part "; Dbg digits; Txt " is not a u64"]
      end
  end.

(** k K m M g G, and s m h d w M y. *)
Definition validate_size : string → string → result message () :=
  validate_suffixed [107; 75; 109; 77; 103; 71]%N "['k', 'K', 'm', 'M', 'g', 'G']".
Definition validate_duration : string → string → result message () :=
  validate_suffixed [115; 109; 104; 100; 119; 77; 121]%N "['s', 'm', 'h', 'd', 'w', 'M', 'y']".

Definition validate_pem_path (path field : string) : result message () :=
  if negb (is_absolute path) then Err [Txt field; Txt " must be absolute, got "; Txt path]
  else if str_contains ".." path then Err [Txt field; Txt " must not contain '..'"]
  else if contains_any METACHARACTERS path then Err [Txt field; Txt " must not contain shell metacharacters"]
  else Ok ().

Definition validate_tls (tls : TlsConfig) : result message () :=
  _ ← validate_pem_path (tls_certificate tls) "tls.certificate"; validate_pem_path (tls_key tls) "tls.key".

Definition validate_extra_location (loc : ExtraLocation) : result message () :=
  let path := trim (el_path loc) in
  match chars path with
  | [] => Err [Txt "path must not be empty"]
  | leading :: _ =>
      if contains_any [59; 10; 34]%N path then Err [Txt "path must not contain ';', '"; Txt (String (Ascii.ascii_of_N 34) ""); Txt "', or newlines"]
      else if negb (bool_decide (leading ∈ [47; 61; 126; 94]%N))
      then Err [Txt "path must start with '/', '=', '~', or '^~'; got "; Dbg path]
      else
      match el_proxy_pass loc, el_root loc with
      | None, None => Err [Txt "must set exactly one of proxy_pass or root"]
      | Some _, Some _ => Err [Txt "proxy_pass and root are mutually exclusive"]
      | Some upstream, None => validate_upstream upstream
      | None, Some root =>
          if negb (starts_with "/" root) then Err [Txt "root must be absolute, got "; Dbg root]
          else if str_contains ".." root then Err [Txt "root must not contain '..'"]
          else if contains_any METACHARACTERS root then Err [Txt "root must not contain shell metacharacters"]
          else Ok ()
      end
  end.

(** The ports of which TLS is expected. *)
Definition TLS_PORTS : list Z := [443; 4443; 8443]%Z.

Definition each_some {A} (o : option A) (f : A → result message ()) : result message () := match o with Some a => f a | None => Ok () end.

Definition validate_location_at (il : nat * ExtraLocation) : result message () :=
  map_err (λ e, [Txt "extra_locations["; Dec (Z.of_nat il.1); Txt "]: "] ++ e) (validate_extra_location il.2).

Definition validate_vhost (s : NginxVhostSpec) : result message () :=
  if negb (is_absolute (ng_config_path s)) then Err [Txt "config_path must be absolute, got "; Txt (ng_config_path s)]
  else if str_contains ".." (ng_config_path s) then Err [Txt "config_path must not contain '..'"]
  else
  match ng_state s with
  | NginxAbsent =>
      if negb (bool_decide (ng_server_names s = [])) || bool_decide (is_Some (ng_upstream s)) || bool_decide (is_Some (ng_client_max_body_size s))
         || bool_decide (is_Some (ng_proxy_read_timeout s)) || match ng_tls s with Some _ => true | None => false end
      then Err [Txt "state=absent forbids vhost fields"] else Ok ()
  | NginxPresent =>
      if decide (ng_server_names s = []) then Err [Txt "server_names is required when state=present"]
      else
      _ ← try_map validate_server_name (ng_server_names s);
      upstream ← ok_or (ng_upstream s) [Txt "upstream is required when state=present"];
      _ ← validate_upstream upstream;
      _ ← each_some (ng_client_max_body_size s) (λ v, validate_size v "client_max_body_size");
      _ ← each_some (ng_proxy_read_timeout s) (λ v, validate_duration v "proxy_read_timeout");
      _ ← each_some (ng_tls s) validate_tls;
      _ ← match ng_tls s with
          | Some _ => Ok ()
          | None =>
              match List.find (λ p, bool_decide (p ∈ TLS_PORTS)) (ng_listen s) with
              | Some port => Err [Txt "listen port "; Dec port; Txt " requires tls: section; plain HTTP on a well-known TLS port is rejected"]
              | None => Ok ()
              end
          end;
      _ ← try_map validate_location_at (enumerate (ng_extra_locations s));
      Ok ()
  end.

(** *** Reading it *)

Definition tls_of (v : Json) : option TlsConfig :=
  match strict_fields ["certificate"; "key"; "redirect_http"] v with
  | Some [certificate; key; redirect] =>
      c ← required_string certificate; k ← required_string key; r ← bool_or true redirect; Some (mkTls c k r)
  | _ => None
  end.

Definition location_of (v : Json) : option ExtraLocation :=
  match strict_fields ["path"; "proxy_pass"; "root"] v with
  | Some [path; proxy_pass; root] =>
      p ← required_string path; pp ← optional_string proxy_pass; r ← optional_string root; Some (mkLocation p pp r)
  | _ => None
  end.

Definition vhost_fields (v : Json) : option NginxVhostSpec :=
  match strict_fields ["config_path"; "state"; "server_names"; "listen"; "upstream"; "client_max_body_size"; "proxy_read_timeout"; "tls"; "extra_locations"] v with
  | Some [path; state; names; listen; upstream; size; timeout; tls; locations] =>
      p ← required_string path;
      st ← enum_or [("present", NginxPresent); ("absent", NginxAbsent)] NginxPresent state;
      n ← strings_or_empty names; l ← list_or [80%Z] (unsigned_of 65535) listen;
      u ← optional_string upstream; sz ← optional_string size; tm ← optional_string timeout;
      t ← optional_of tls_of tls; e ← list_or [] location_of locations;
      Some (mkVhost p st n l u sz tm t e)
  | _ => None
  end.

Definition effective_listen (s : NginxVhostSpec) : list Z :=
  if bool_decide (is_Some (ng_tls s)) && negb (bool_decide (443%Z ∈ ng_listen s)) then ng_listen s ++ [443%Z] else ng_listen s.

(** ** The snippet *)

Definition NGINX_HEADER : string := line "# Managed by iac. Do not edit by hand.".

Definition option_lines (o : option string) (f : string → list string) : list string := match o with Some s => f s | None => [] end.

(** [out.push_str("…\n")] and [writeln!(out, …)], a line each. *)
Definition redirect_block (names : string) : list string :=
  ["server {"; "    listen 80;"; "    listen [::]:80;"; "    server_name " +:+ names +:+ ";"; "    return 301 https://$host$request_uri;"; "}"].

Definition listen_lines (ssl : bool) (port : Z) : list string :=
  let tail := if ssl then " ssl;" else ";" in
  ["    listen " +:+ pretty port +:+ tail; "    listen [::]:" +:+ pretty port +:+ tail].

Definition tls_lines (t : TlsConfig) : list string :=
  ["    ssl_certificate " +:+ tls_certificate t +:+ ";"; "    ssl_certificate_key " +:+ tls_key t +:+ ";";
   "    ssl_protocols TLSv1.2 TLSv1.3;"; "    ssl_prefer_server_ciphers on;"].

Definition proxy_headers : list string :=
  ["        proxy_http_version 1.1;"; "        proxy_set_header Host $host;"; "        proxy_set_header X-Real-IP $remote_addr;";
   "        proxy_set_header X-Forwarded-For $proxy_add_x_forwarded_for;"; "        proxy_set_header X-Forwarded-Proto $scheme;"].

Definition proxy_pass_line (upstream : string) : string := "        proxy_pass " +:+ upstream +:+ ";".

Definition location_lines (l : ExtraLocation) : list string :=
  ["    location " +:+ el_path l +:+ " {"] ++
  option_lines (el_proxy_pass l) (λ u, proxy_pass_line u :: proxy_headers) ++
  option_lines (el_root l) (λ r, ["        root " +:+ r +:+ ";"]) ++ ["    }"].

Definition render_redirect (s : NginxVhostSpec) : bool :=
  match ng_tls s with Some t => tls_redirect_http t | None => false end &&
  bool_decide (80%Z ∈ effective_listen s) && bool_decide (443%Z ∈ effective_listen s).

Definition main_ports (s : NginxVhostSpec) : list Z :=
  match ng_tls s with
  | Some _ => List.filter (λ p, negb (render_redirect s) || negb (p =? 80)%Z) (effective_listen s)
  | None => effective_listen s
  end.

Definition ssl_port (s : NginxVhostSpec) (port : Z) : bool := bool_decide (is_Some (ng_tls s)) && (port =? 443)%Z.

Definition render_vhost (s : NginxVhostSpec) : string :=
  let names := str_join " " (ng_server_names s) in
  NGINX_HEADER +:+ str_join "" (map line (
    (if render_redirect s then redirect_block names else []) ++
    ["server {"] ++ concat (map (λ p, listen_lines (ssl_port s p) p) (main_ports s)) ++
    ["    server_name " +:+ names +:+ ";"] ++
    match ng_tls s with Some t => tls_lines t | None => [] end ++
    option_lines (ng_client_max_body_size s) (λ v, ["    client_max_body_size " +:+ v +:+ ";"]) ++
    ["    location / {"] ++ option_lines (ng_upstream s) (λ u, [proxy_pass_line u]) ++ proxy_headers ++
    option_lines (ng_proxy_read_timeout s) (λ t, ["        proxy_read_timeout " +:+ t +:+ ";"]) ++ ["    }"] ++
    concat (map location_lines (ng_extra_locations s)) ++ ["}"])).

(** ** The backend *)

(** [trait NginxBackend]. *)
Record NginxBackend (M : Type) := mkNginxBackend {
  nb_read_config : string → io M (option string);
  nb_write_config : string → string → io M ();
  nb_remove_config : string → io M ();
  nb_validate : io M ();
  nb_reload : io M ()
}.
Arguments nb_read_config {M} _ _.
Arguments nb_write_config {M} _ _ _.
Arguments nb_remove_config {M} _ _.
Arguments nb_validate {M} _.
Arguments nb_reload {M} _.

Definition NGINX_TIMEOUT : Z := 30000.

Section Cli.
Context {S : Type} `{Kernel, !Programs S}.

Definition nginx_run (cmd : string) (args : list string) : io (Machine * S) () :=
  run_check_status (mkCommand cmd args "" NGINX_TIMEOUT) "nginx" (Txt cmd :: Txt " " :: debug_list args).

Definition NginxCli : NginxBackend (Machine * S) := {|
  nb_read_config path := on_machine (read_text path);
  nb_write_config path content :=
    on_machine (replace_text (EProvider "nginx" [Txt "config path has no parent: "; Txt path]) path content 420);
  nb_remove_config path := on_machine (let* _ := at_path path (found (remove_file (components path))) in io_ret ());
  nb_validate := nginx_run "nginx" ["-t"];
  nb_reload := nginx_run "systemctl" ["reload"; "nginx"]
|}.
End Cli.

(** ** The operations *)

Inductive NginxAction := NginxWrite | NginxRemove.
Definition nginx_actions : list (string * NginxAction) := [("nginx.write", NginxWrite); ("nginx.remove", NginxRemove)].
Definition nginx_action_name (a : NginxAction) : string := match a with NginxWrite => "nginx.write" | NginxRemove => "nginx.remove" end.

Section NginxProvider.
Context {M : Type} `{ExecEnv, Sha256} (backend : NginxBackend M).
Context (serde_error : Json → string) (stamp : M → string).

Definition nginx_from_value (v : Json) : result message NginxVhostSpec :=
  spec ← ok_or (vhost_fields v) [Ext (serde_error v)]; _ ← validate_vhost spec; Ok spec.

Definition nginx_spec_of (r : Resource) : CoreResult NginxVhostSpec := parse_spec "nginx.vhost" nginx_from_value r.

Definition observe_nginx (s : NginxVhostSpec) : io M ObservedState :=
  let* content := nb_read_config backend (ng_config_path s) in
  match content with
  | Some text =>
      let sha := JString (sha256_hex text) in
      λ m, (Ok (mkObserved true (JObject [("config_path", JString (ng_config_path s)); ("content_sha256", sha)])
                 [("present", JBool true); ("content_sha256", sha); ("size", JNum (size_of text))] (stamp m)), m)
  | None => λ m, (Ok (mkObserved false JNull [("present", JBool false)] (stamp m)), m)
  end.

Definition diff_nginx (s : NginxVhostSpec) (o : ObservedState) : Diff :=
  match ng_state s, obs_present o with
  | NginxAbsent, false => no_change
  | NginxAbsent, true => mkDiff Update [state_change "present" "absent"] ["remove " +:+ ng_config_path s] true
  | NginxPresent, false => mkDiff Create [state_change "absent" "present"] ["create " +:+ ng_config_path s] true
  | NginxPresent, true =>
      let desired_sha := sha256_hex (render_vhost s) in
      let observed_sha := fact_str o "content_sha256" in
      if decide (desired_sha = observed_sha) then no_change
      else mkDiff Update [mkChange "content_sha256" (Some (JString observed_sha)) (Some (JString desired_sha)) false]
             ["rendered config differs"] true
  end.

Definition plan_nginx (s : NginxVhostSpec) (d : Diff) (n : nat) : list Step * nat :=
  if negb (is_change d) then ([], n)
  else
    let '(action, verb) := match ng_state s with NginxPresent => (NginxWrite, "write ") | NginxAbsent => (NginxRemove, "remove ") end in
    ([step_new (ulid_at n) (nginx_action_name action) (verb +:+ ng_config_path s) (JObject [("path", JString (ng_config_path s))])], S n).

Definition pre_apply_nginx (s : NginxVhostSpec) : io M Json :=
  let* content := nb_read_config backend (ng_config_path s) in
  io_ret (match content with
          | Some text => JObject [("content", JString text); ("existed", JBool true); ("path", JString (ng_config_path s))]
          | None => JObject [("existed", JBool false); ("path", JString (ng_config_path s))]
          end).

Definition restore_nginx (path : string) (checkpoint : Json) : io M () :=
  if default false (v ← json_get checkpoint "existed"; as_bool v) then
    match v ← json_get checkpoint "content"; as_str v with
    | Some content => nb_write_config backend path content
    | None => io_ret ()
    end
  else nb_remove_config backend path.

(** [if let Err(e) = backend.validate() { restore(…)?; return Err(…) }]. *)
Definition validate_or_restore (path : string) (checkpoint : Json) (why : string) : io M () := λ m,
  match nb_validate backend m with
  | (Ok _, m) => (Ok (), m)
  | (Err e, m) => (restore_nginx path checkpoint ;* io_throw (EProvider "nginx" (Txt why :: core_error_text e))) m
  end.

Definition wrote_nginx (path content : string) : StepResult :=
  mkStepResult StSucceeded [Txt "wrote and reloaded "; Txt path]
    (JObject [("bytes", JNum (size_of content)); ("content_sha256", JString (sha256_hex content)); ("path", JString path)]) None.

Definition apply_nginx (s : NginxVhostSpec) (step : Step) (checkpoint : Json) : io M StepResult :=
  let path := ng_config_path s in
  let* action := io_lift (parse_action "NginxAction" nginx_actions (st_action step)) in
  match action with
  | NginxWrite =>
      let content := render_vhost s in
      nb_write_config backend path content ;*
      validate_or_restore path checkpoint "nginx -t rejected the rendered config; restored: " ;*
      nb_reload backend ;*
      io_ret (wrote_nginx path content)
  | NginxRemove =>
      nb_remove_config backend path ;*
      validate_or_restore path checkpoint "nginx -t rejected the post-removal state; restored: " ;*
      nb_reload backend ;*
      io_ret (step_result_ok [Txt "removed and reloaded "; Txt path])
  end.

Definition rollback_nginx (s : NginxVhostSpec) (checkpoint : Json) : io M () :=
  restore_nginx (ng_config_path s) checkpoint ;* nb_validate backend ;* nb_reload backend.

(** The executor's [checkpoint.json] in the workspace, where there is one. *)
Context {W : Type} (checkpoint_json : W → option (CoreResult Checkpoint)).

Definition nginx_apply (r : Resource) (step : Step) : io (M * W) StepResult := λ '(m, w),
  (let* s := io_lift (nginx_spec_of r) in
   let* checkpoint := match checkpoint_json w with
                      | Some cp => io_lift (cp ← cp; Ok (cp_data cp))
                      | None => on_machine (pre_apply_nginx s)
                      end in
   on_machine (apply_nginx s step checkpoint)) (m, w).

Definition nginx_provider : Provider M W := {|
  p_observe r m := s ← nginx_spec_of r; (observe_nginx s m).1;
  p_diff r o := s ← nginx_spec_of r; Ok (diff_nginx s o);
  p_plan r d n := match nginx_spec_of r with Ok s => let '(steps, n) := plan_nginx s d n in (Ok steps, n) | Err e => (Err e, n) end;
  p_pre_apply r _ _ := on_machine (let* s := io_lift (nginx_spec_of r) in pre_apply_nginx s);
  p_apply r step _ := nginx_apply r step;
  p_verify r m := s ← nginx_spec_of r; o ← (observe_nginx s m).1;
                  let d := diff_nginx s o in Ok (if is_change d then VMismatch (diff_changes d) else VMatch);
  p_rollback r cp := on_machine (let* s := io_lift (nginx_spec_of r) in rollback_nginx s (cp_data cp));
  p_capability_keys r := s ← nginx_spec_of r; Ok [ng_config_path s]
|}.

End NginxProvider.

(** ** What the nginx provider guarantees

    An apply leaves the old snippet or a new one that nginx accepts, and an
    apply that succeeded is one that nginx has loaded and the next observation
    agrees with. *)

Section NginxProps.
Context {S W : Type} `{Kernel, !Programs S, ExecEnv, Sha256}.
Context (serde_error : Json → string) (stamp : Machine * S → string) (checkpoint_json : W → option (CoreResult Checkpoint)).

(** A fault does not pass for a missing file. *)
Hypothesis honest : ∀ i, call_fails i ≠ Some "ENOENT".

Abbreviation Host := (Machine * S)%type.
Definition files (h : Host) : Files := mc_files h.1.

(** A command that leaves the text of a path as it is. *)
Definition spares (path : string) (command : io Host ()) : Prop := ∀ h, text_at path (files (command h).2) = text_at path (files h).

(** ** The file's text *)

Abbreviation path_of := ng_config_path.

(** The checkpoint says what the file's text is. *)
Definition checkpoint_of (path : string) (data : Json) (text : option string) : Prop :=
  data = match text with
         | Some text => JObject [("content", JString text); ("existed", JBool true); ("path", JString path)]
         | None => JObject [("existed", JBool false); ("path", JString path)]
         end.

Lemma pre_apply_checkpoint s h data h' : pre_apply_nginx NginxCli s h = (Ok data, h') →
  files h' = files h ∧ checkpoint_of (path_of s) data (text_at (path_of s) (files h)).
Proof.
  unfold pre_apply_nginx, NginxCli. cbn [nb_read_config]. unfold io_bind, on_machine. destruct h as [m x].
  pose proof (ft_read_text honest (path_of s) (λ f, f = mc_files m) m eq_refl) as Hr.
  destruct (read_text (path_of s) m) as [[t|e] m']; [|done]. destruct Hr as (Hf & Ht & _). unfold io_ret, files. cbn.
  intros [= <- <-]. rewrite Hf in Ht. split; [done|]. unfold checkpoint_of. by rewrite <- Ht; destruct t.
Qed.

(** The text a state of the resource asks for. *)
Definition wanted (s : NginxVhostSpec) : option string := match ng_state s with NginxPresent => Some (render_vhost s) | NginxAbsent => None end.

Lemma restore_back path data text h : file_name (components path) ≠ None → checkpoint_of path data text →
  match restore_nginx NginxCli path data h with
  | (Ok _, h') => text_at path (files h') = text
  | (Err e, h') => text_at path (files h') = text_at path (files h)
  end.
Proof.
  intros Hn ->. destruct (file_name (components path)) as [b|] eqn:Hb; [clear Hn|done]. destruct h as [m x].
  unfold restore_nginx. destruct text as [text|];
    [set (d := default false _); change d with true|set (d := default false _); change d with false]; subst d; cbn iota; unfold NginxCli, on_machine, files.
  - change (v ← json_get _ "content"; as_str v) with (Some text). cbn [nb_write_config].
    pose proof (ft_replace_text_fails (EProvider "nginx" [Txt "config path has no parent: "; Txt path]) path text 420 b (mc_files m) Hb m eq_refl) as Hw.
    destruct (replace_text _ _ _ _ m) as [[[]|e] m']; cbn in *; [by apply holds_text in Hw|]. unfold text_at. by rewrite Hw.
  - cbn [nb_remove_config]. unfold io_bind, io_ret.
    pose proof (ft_remove_text honest path (λ f, f = mc_files m) (λ f, text_at path f = None)) as Hr.
    specialize (Hr ltac:(intros f -> _; unfold text_at; by rewrite lookup_delete_eq) m eq_refl).
    destruct (at_path path _ m) as [[?|e] m']; cbn in *; [done|]. by rewrite Hr.
Qed.

(** The file's step: the wanted text is there, or nothing changed. *)
Lemma change_file s h : file_name (components (path_of s)) ≠ None →
  match (match ng_state s with
         | NginxPresent => nb_write_config NginxCli (path_of s) (render_vhost s)
         | NginxAbsent => nb_remove_config NginxCli (path_of s)
         end) h with
  | (Ok _, h') => text_at (path_of s) (files h') = wanted s
  | (Err e, h') => text_at (path_of s) (files h') = text_at (path_of s) (files h)
  end.
Proof.
  intros Hn. destruct (file_name (components (path_of s))) as [b|] eqn:Hb; [clear Hn|done]. destruct h as [m x].
  unfold wanted. destruct (ng_state s); unfold NginxCli, on_machine, files; cbn [nb_write_config nb_remove_config].
  - pose proof (ft_replace_text_fails (EProvider "nginx" [Txt "config path has no parent: "; Txt (path_of s)]) (path_of s) (render_vhost s) 420 b (mc_files m) Hb m eq_refl) as Hw.
    destruct (replace_text _ _ _ _ m) as [[[]|e] m']; cbn in *; [by apply holds_text in Hw|]. unfold text_at. by rewrite Hw.
  - unfold io_bind, io_ret. pose proof (ft_remove_text honest (path_of s) (λ f, f = mc_files m) (λ f, text_at (path_of s) f = None)) as Hr.
    specialize (Hr ltac:(intros f -> _; unfold text_at; by rewrite lookup_delete_eq) m eq_refl).
    destruct (at_path (path_of s) _ m) as [[?|e] m']; cbn in *; [done|]. by rewrite Hr.
Qed.

(** What a step may leave, where [old] is the text it found: on success, the
    wanted text, which [nginx -t] and the reload passed last; on failure, the
    old text, or the wanted one, where either the test passed and the reload
    failed, or the test failed and putting the old text back failed too. *)
Definition old_or_valid (s : NginxVhostSpec) (old : option string) (data : Json) {A : Type} (out : CoreResult A * Host) : Prop :=
  match out.1 with
  | Ok _ => text_at (path_of s) (files out.2) = wanted s ∧
      ∃ h1 h2, text_at (path_of s) (files h1) = wanted s ∧ nb_validate NginxCli h1 = (Ok (), h2) ∧ nb_reload NginxCli h2 = (Ok (), out.2)
  | Err e => text_at (path_of s) (files out.2) = old ∨
      text_at (path_of s) (files out.2) = wanted s ∧ ∃ h1 h2, text_at (path_of s) (files h1) = wanted s ∧
        (nb_validate NginxCli h1 = (Ok (), h2) ∧ nb_reload NginxCli h2 = (Err e, out.2) ∨
         (∃ refusal, nb_validate NginxCli h1 = (Err refusal, h2)) ∧ restore_nginx NginxCli (path_of s) data h2 = (Err e, out.2))
  end.

(** A change of the file, then the test and the reload. *)
Lemma change_then_test {A : Type} s (change : io Host ()) data old why (ok : A) h :
  spares (path_of s) (nb_validate NginxCli) → spares (path_of s) (nb_reload NginxCli) →
  file_name (components (path_of s)) ≠ None → checkpoint_of (path_of s) data old → text_at (path_of s) (files h) = old →
  match change h with
  | (Ok _, h') => text_at (path_of s) (files h') = wanted s
  | (Err e, h') => text_at (path_of s) (files h') = text_at (path_of s) (files h)
  end →
  old_or_valid s old data ((change ;* validate_or_restore NginxCli (path_of s) data why ;* nb_reload NginxCli ;* io_ret ok) h).
Proof.
  intros Htest Hload Hn Hck Hold Hc. unfold old_or_valid, io_bind, validate_or_restore.
  destruct (change h) as [[[]|e] h1]; [|left; cbn; congruence]. specialize (Htest h1).
  destruct (nb_validate NginxCli h1) as [[[]|e] h2] eqn:Hv; cbn [snd] in Htest.
  - specialize (Hload h2). destruct (nb_reload NginxCli h2) as [[[]|e] h3] eqn:Hr; cbn in *.
    + split; [congruence|]. by exists h1, h2.
    + right. split; [congruence|]. exists h1, h2. split; [done|]. by left.
  - unfold io_bind. pose proof (restore_back _ _ _ h2 Hn Hck) as Hr.
    destruct (restore_nginx NginxCli (path_of s) data h2) as [[[]|e'] h3] eqn:He; cbn in *; [by left|]. right. split; [congruence|].
    exists h1, h2. split; [done|]. right. split; [by exists e|done].
Qed.

(** The whole step. *)
Lemma apply_steps s step data h :
  spares (path_of s) (nb_validate NginxCli) → spares (path_of s) (nb_reload NginxCli) →
  file_name (components (path_of s)) ≠ None →
  st_action step = nginx_action_name (match ng_state s with NginxPresent => NginxWrite | NginxAbsent => NginxRemove end) →
  checkpoint_of (path_of s) data (text_at (path_of s) (files h)) →
  old_or_valid s (text_at (path_of s) (files h)) data (apply_nginx NginxCli s step data h).
Proof.
  intros Htest Hload Hn Hact Hck. pose proof (change_file s h Hn) as Hc. unfold apply_nginx. rewrite Hact. destruct (ng_state s).
  - change (parse_action _ nginx_actions (nginx_action_name NginxWrite)) with (@Ok CoreError _ NginxWrite). by apply change_then_test.
  - change (parse_action _ nginx_actions (nginx_action_name NginxRemove)) with (@Ok CoreError _ NginxRemove). by apply change_then_test.
Qed.

Lemma observed_wanted s h o : text_at (path_of s) (files h) = wanted s → (observe_nginx NginxCli stamp s h).1 = Ok o → diff_nginx s o = no_change.
Proof.
  intros Ht. destruct h as [m x]. unfold observe_nginx, NginxCli, on_machine, io_bind. cbn [nb_read_config].
  pose proof (ft_read_text honest (path_of s) (λ f, f = mc_files m) m eq_refl) as Hr.
  destruct (read_text (path_of s) m) as [[t|e] m']; [|done]. destruct Hr as (Hf & -> & _). rewrite Hf. unfold files in Ht. cbn [fst] in Ht.
  rewrite Ht. unfold wanted, diff_nginx. destruct (ng_state s); cbn; intros [= <-]; cbn; [|done].
  change (fact_str _ "content_sha256") with (sha256_hex (render_vhost s)). by rewrite decide_True.
Qed.

(** C19: An nginx apply leaves the old snippet or one that nginx accepts.
    Assumed are that the file system reports a missing file only where there
    is none, and that [nginx -t] and [systemctl reload nginx] leave the text of
    this one snippet as it is (whatever else they write). With the checkpoint
    the executor took before: when the apply succeeds, the file has the text
    the resource asks for (none, when it is to be absent), the last two things
    done were a test that nginx passed with that text in place and a reload
    that succeeded, and the next observation shows no difference. When it
    fails, the file has the text it had before, or it has the wanted text and
    one of two things happened: nginx passed the test with it and the reload
    failed, or nginx refused it and the call that puts the old text back
    failed, with the error that the apply reports. *)
Theorem nginx_apply_old_or_valid r s step ctx h ws0 h1 ws1 data ws cp res h' ws' :
  let provider := nginx_provider NginxCli serde_error stamp checkpoint_json in
  let text h := text_at (path_of s) (files h) in
  spares (path_of s) (nb_validate NginxCli) → spares (path_of s) (nb_reload NginxCli) →
  nginx_spec_of serde_error r = Ok s → file_name (components (path_of s)) ≠ None →
  st_action step = nginx_action_name (match ng_state s with NginxPresent => NginxWrite | NginxAbsent => NginxRemove end) →
  p_pre_apply provider r step ctx (h, ws0) = (Ok data, (h1, ws1)) →
  checkpoint_json ws = Some (Ok cp) → cp_data cp = data →
  p_apply provider r step ctx (h1, ws) = (res, (h', ws')) →
  match res with
  | Ok _ => text h' = wanted s ∧
      (∃ h2 h3, text h2 = wanted s ∧ nb_validate NginxCli h2 = (Ok (), h3) ∧ nb_reload NginxCli h3 = (Ok (), h')) ∧
      ∀ o, p_observe provider r h' = Ok o → p_diff provider r o = Ok no_change
  | Err e => text h' = text h ∨
      text h' = wanted s ∧ ∃ h2 h3, text h2 = wanted s ∧
        (nb_validate NginxCli h2 = (Ok (), h3) ∧ nb_reload NginxCli h3 = (Err e, h') ∨
         (∃ refusal, nb_validate NginxCli h2 = (Err refusal, h3)) ∧ restore_nginx NginxCli (path_of s) data h3 = (Err e, h'))
  end.
Proof.
  intros provider text Htest Hload Hspec Hn Hact Hpre Hcp <- Happ. subst provider text. cbn [p_pre_apply p_apply p_observe p_diff nginx_provider] in *.
  unfold on_machine, io_bind at 1, io_lift at 1 in Hpre. rewrite Hspec in *.
  destruct (pre_apply_nginx NginxCli s h) as [d h2] eqn:Hp. simplify_eq. apply pre_apply_checkpoint in Hp as [Hf Hck]. rewrite <- Hf in Hck |- *. clear Hf h.
  unfold nginx_apply in Happ. unfold io_bind at 1, io_lift at 1 in Happ. rewrite Hspec, Hcp in Happ. unfold io_bind at 1, io_lift at 1, on_machine in Happ.
  cbn [mbind result_bind] in Happ |- *. destruct (apply_nginx NginxCli s step (cp_data cp) h1) as [res1 h2] eqn:Ha. simplify_eq.
  pose proof (apply_steps s step (cp_data cp) h1 Htest Hload Hn Hact Hck) as Hs. rewrite Ha in Hs. destruct res as [x|e]; [|exact Hs].
  destruct Hs as (Ht & Hruns). split_and!; [done..|]. intros o Ho. f_equal. by eapply observed_wanted.
Qed.

End NginxProps.
