(* ===== verification/Systemd.v ===== *)
(** * The systemd provider (crates/iac-providers/src/systemd/)

    Whether a unit is enabled and whether it is active: what [systemctl show]
    says of it, the steps towards what the spec asks for, and the way back. *)

From stdpp Require Import pretty.
From S2P Require Import Prelude Text Json ApiError Routing Db AuditLog Ids Diff Executor Chars PluginSpec Plugin SpecReader Posix FileProvider Command.

#[local] Open Scope string_scope.
#[local] Open Scope list_scope.
#[local] Open Scope nat_scope.
#[local] Open Scope io_scope.

(** ** The spec *)

Inductive UnitType := UService | USocket | UTimer | UTarget | UPath | UMount.
Definition unit_types : list (string * UnitType) :=
  [("service", UService); ("socket", USocket); ("timer", UTimer); ("target", UTarget); ("path", UPath); ("mount", UMount)].
Definition unit_suffix (t : UnitType) : string :=
  match t with UService => "service" | USocket => "socket" | UTimer => "timer" | UTarget => "target" | UPath => "path" | UMount => "mount" end.

Record SystemdUnitSpec := mkUnit { su_name : string; su_type : UnitType; su_enabled : bool; su_active : bool }.

(** Letters, digits and [: . _ @ - \ ]. *)
Definition unit_char (c : N) : bool := is_ascii_alphanumeric c || bool_decide (c ∈ [58; 46; 95; 64; 45; 92]%N).

Definition validate_unit (s : SystemdUnitSpec) : result message () :=
  if decide (su_name s = "") then Err [Txt "name must not be empty"]
  else if existsb is_whitespace (chars (su_name s)) then Err [Txt "name must not contain whitespace"]
  else if starts_with "-" (su_name s) then Err [Txt "name must not start with '-' (parsed as a systemctl option)"]
  else match List.find (λ c, negb (unit_char c)) (chars (su_name s)) with
       | Some c => Err [Txt "unsafe character '"; Txt (utf8 c); Txt "' in unit name "; Dbg (su_name s)]
       | None => Ok ()
       end.

Definition unit_fields (v : Json) : option SystemdUnitSpec :=
  match strict_fields ["name"; "type"; "enabled"; "active"] v with
  | Some [name; type; enabled; active] =>
      n ← required_string name; t ← enum_or unit_types UService type; e ← bool_or true enabled; a ← bool_or true active;
      Some (mkUnit n t e a)
  | _ => None
  end.

Definition unit_name (s : SystemdUnitSpec) : string :=
  if str_contains "." (su_name s) then su_name s else su_name s +:+ "." +:+ unit_suffix (su_type s).

(** ** The backend *)

Record UnitInfo := mkUnitInfo { ui_load_state : string; ui_active_state : string; ui_sub_state : string; ui_unit_file_state : string }.

Definition is_enabled (i : UnitInfo) : bool := bool_decide (ui_unit_file_state i ∈ ["enabled"; "enabled-runtime"; "alias"]).
Definition is_active (i : UnitInfo) : bool := bool_decide (ui_active_state i = "active").
Definition is_loaded (i : UnitInfo) : bool := bool_decide (ui_load_state i = "loaded").
Definition is_masked (i : UnitInfo) : bool := bool_decide (ui_load_state i = "masked") || bool_decide (ui_unit_file_state i = "masked").
Definition is_static (i : UnitInfo) : bool := bool_decide (ui_unit_file_state i = "static").

(** [trait Systemctl]. *)
Record Systemctl (M : Type) := mkSystemctl {
  sc_show : string → io M UnitInfo;
  sc_enable : string → io M ();
  sc_disable : string → io M ();
  sc_start : string → io M ();
  sc_stop : string → io M ();
  sc_restart : string → io M ();
  sc_reload : string → io M ()
}.
Arguments sc_show {M} _ _.
Arguments sc_enable {M} _ _.
Arguments sc_disable {M} _ _.
Arguments sc_start {M} _ _.
Arguments sc_stop {M} _ _.
Arguments sc_restart {M} _ _.
Arguments sc_reload {M} _ _.

(** The properties a line sets, the last one of a name counting. *)
Definition show_props (output : string) : list (string * string) :=
  foldl (λ props line, match split_once "=" line with Some (k, v) => assoc_insert (trim k) (trim v) props | None => props end)
    [] (str_lines output).

Definition parse_show (output : string) : UnitInfo :=
  let get k d := default d (assoc_get k (show_props output)) in
  mkUnitInfo (get "LoadState" "unknown") (get "ActiveState" "unknown") (get "SubState" "unknown") (get "UnitFileState" "static").

Definition SYSTEMCTL_TIMEOUT : Z := 90000.

Section Cli.
Context {H : Type} `{!Programs H}.

Definition systemctl_run (args : list string) : io (Machine * H) string :=
  run_capture_stdout (mkCommand "systemctl" args "" SYSTEMCTL_TIMEOUT) "systemd" (Txt "systemctl " :: debug_list args).

Definition systemctl_do (verb unit : string) : io (Machine * H) () := let* _ := systemctl_run [verb; "--"; unit] in io_ret ().

Definition RealSystemctl : Systemctl (Machine * H) := {|
  sc_show unit := let* output := systemctl_run ["show"; unit; "--no-page"; "--property=LoadState"; "--property=ActiveState";
                                                "--property=SubState"; "--property=UnitFileState"] in io_ret (parse_show output);
  sc_enable := systemctl_do "enable";
  sc_disable := systemctl_do "disable";
  sc_start := systemctl_do "start";
  sc_stop := systemctl_do "stop";
  sc_restart := systemctl_do "restart";
  sc_reload := systemctl_do "reload"
|}.
End Cli.

(** ** The operations *)

Inductive SystemdAction := UEnable | UDisable | UStart | UStop | URestart | UReload.
Definition systemd_actions : list (string * SystemdAction) :=
  [("systemd.enable", UEnable); ("systemd.disable", UDisable); ("systemd.start", UStart); ("systemd.stop", UStop);
   ("systemd.restart", URestart); ("systemd.reload", UReload)].
Definition systemd_action_name (a : SystemdAction) : string :=
  match a with
  | UEnable => "systemd.enable" | UDisable => "systemd.disable" | UStart => "systemd.start"
  | UStop => "systemd.stop" | URestart => "systemd.restart" | UReload => "systemd.reload"
  end.

Section SystemdProvider.
Context {M W : Type} `{ExecEnv} (backend : Systemctl M).
Context (serde_error : Json → string) (stamp : M → string).

Definition unit_from_value (v : Json) : result message SystemdUnitSpec :=
  spec ← ok_or (unit_fields v) [Ext (serde_error v)]; _ ← validate_unit spec; Ok spec.
Definition unit_spec_of (r : Resource) : CoreResult SystemdUnitSpec := parse_spec "systemd.unit" unit_from_value r.

Definition observation_from_info (unit : string) (i : UnitInfo) (now : string) : ObservedState :=
  mkObserved (is_loaded i)
    (if is_loaded i then JObject [("name", JString unit); ("active", JBool (is_active i)); ("enabled", JBool (is_enabled i))] else JNull)
    [("load_state", JString (ui_load_state i)); ("active_state", JString (ui_active_state i)); ("sub_state", JString (ui_sub_state i));
     ("unit_file_state", JString (ui_unit_file_state i)); ("masked", JBool (is_masked i)); ("static", JBool (is_static i))] now.

Definition observe_unit (s : SystemdUnitSpec) : io M ObservedState :=
  let* info := sc_show backend (unit_name s) in λ m, (Ok (observation_from_info (unit_name s) info (stamp m)), m).

Definition bool_word (b : bool) : string := if b then "true" else "false".
Definition fact_bool (o : ObservedState) (k : string) : bool := default false (v ← assoc_get k (obs_facts o); as_bool v).
Definition observed_bool (o : ObservedState) (k : string) : bool := default false (v ← json_get (obs_spec o) k; as_bool v).

Definition toggle (field : string) (want have : bool) : FieldChange := mkChange field (Some (JBool have)) (Some (JBool want)) false.

Definition diff_unit (s : SystemdUnitSpec) (o : ObservedState) : Diff :=
  if fact_bool o "masked" then
    mkDiff Update [toggle "masked" false true] ["unit is masked; refusing to manage"] false
  else if negb (obs_present o) then
    mkDiff Update [mkChange "load_state" (assoc_get "load_state" (obs_facts o)) (Some (JString "loaded")) false]
      ["unit is not loaded; install the unit file first"] false
  else
    let active := observed_bool o "active" in
    let enabled := observed_bool o "enabled" in
    let static := fact_bool o "static" in
    let '(changes1, reasons1) :=
      if Bool.eqb (su_enabled s) enabled then ([], [])
      else if static then ([], ["unit is static; cannot toggle enabled state"])
      else ([toggle "enabled" (su_enabled s) enabled], ["enabled " +:+ bool_word enabled +:+ " -> " +:+ bool_word (su_enabled s)]) in
    let '(changes2, reasons2) :=
      if Bool.eqb (su_active s) active then ([], [])
      else ([toggle "active" (su_active s) active], ["active " +:+ bool_word active +:+ " -> " +:+ bool_word (su_active s)]) in
    match changes1 ++ changes2 with
    | [] => no_change
    | changes => mkDiff Update changes (reasons1 ++ reasons2) true
    end.

Definition changed_to_bool (d : Diff) (field : string) : option bool :=
  c ← List.find (λ c, bool_decide (fc_field c = field)) (diff_changes d); v ← fc_to c; as_bool v.

(** The step's action and the verb of its summary, in the order they run:
    enable before start, stop before disable. *)
Definition planned_actions (d : Diff) : list (SystemdAction * string) :=
  let want f b := bool_decide (changed_to_bool d f = Some b) in
  (if want "enabled" true then [(UEnable, "enable ")] else []) ++ (if want "active" true then [(UStart, "start ")] else []) ++
  (if want "active" false then [(UStop, "stop ")] else []) ++ (if want "enabled" false then [(UDisable, "disable ")] else []).

Definition unit_step (unit : string) (n : nat) (a : SystemdAction * string) : Step :=
  step_new (ulid_at n) (systemd_action_name a.1) (a.2 +:+ unit) (JObject [("unit", JString unit)]).

Definition plan_unit (s : SystemdUnitSpec) (d : Diff) (n : nat) : list Step * nat :=
  if negb (is_change d) then ([], n)
  else let actions := planned_actions d in
       (map (λ ia, unit_step (unit_name s) (n + ia.1) ia.2) (enumerate actions), n + length actions).

Definition pre_apply_unit (s : SystemdUnitSpec) : io M Json :=
  let* info := sc_show backend (unit_name s) in
  io_ret (JObject [("previous_active", JBool (is_active info)); ("previous_enabled", JBool (is_enabled info)); ("unit", JString (unit_name s))]).

Definition apply_unit (step : Step) : io M StepResult :=
  match v ← json_get (st_payload step) "unit"; as_str v with
  | None => io_throw (EProvider "systemd" [Txt "step payload missing 'unit'"])
  | Some unit =>
      let* action := io_lift (parse_action "SystemdAction" systemd_actions (st_action step)) in
      match action with
      | UEnable => sc_enable backend unit ;* io_ret (step_result_ok [Txt "enabled "; Txt unit])
      | UDisable => sc_disable backend unit ;* io_ret (step_result_ok [Txt "disabled "; Txt unit])
      | UStart => sc_start backend unit ;* io_ret (step_result_ok [Txt "started "; Txt unit])
      | UStop => sc_stop backend unit ;* io_ret (step_result_ok [Txt "stopped "; Txt unit])
      | URestart => sc_restart backend unit ;* io_ret (step_result_ok [Txt "restarted "; Txt unit])
      | UReload => sc_reload backend unit ;* io_ret (step_result_ok [Txt "reloaded "; Txt unit])
      end
  end.

Definition rollback_unit (checkpoint : Json) : io M () :=
  match v ← json_get checkpoint "unit"; as_str v with
  | None => io_throw (EProvider "systemd" [Txt "checkpoint missing 'unit'"])
  | Some unit =>
      let prev k := default false (v ← json_get checkpoint k; as_bool v) in
      let* cur := sc_show backend unit in
      (if is_enabled cur && negb (prev "previous_enabled") then sc_disable backend unit
       else if negb (is_enabled cur) && prev "previous_enabled" then sc_enable backend unit else io_ret ()) ;*
      (if is_active cur && negb (prev "previous_active") then sc_stop backend unit
       else if negb (is_active cur) && prev "previous_active" then sc_start backend unit else io_ret ())
  end.

Definition systemd_provider : Provider M W := {|
  p_observe r m := s ← unit_spec_of r; (observe_unit s m).1;
  p_diff r o := s ← unit_spec_of r; Ok (diff_unit s o);
  p_plan r d n := match unit_spec_of r with Ok s => let '(steps, n) := plan_unit s d n in (Ok steps, n) | Err e => (Err e, n) end;
  p_pre_apply r _ _ := on_machine (let* s := io_lift (unit_spec_of r) in pre_apply_unit s);
  p_apply _ step _ := on_machine (apply_unit step);
  p_verify r m := s ← unit_spec_of r; o ← (observe_unit s m).1;
                  let d := diff_unit s o in Ok (if is_change d then VMismatch (diff_changes d) else VMatch);
  p_rollback _ cp := on_machine (rollback_unit (cp_data cp));
  p_capability_keys r := s ← unit_spec_of r; Ok [unit_name s]
|}.

End SystemdProvider.

(** ** What the systemd provider guarantees

    The steps planned for a unit bring it to what the spec asks for, and a
    rollback brings it back, with a [systemctl] that does what it is told. *)

(** ** What a [Systemctl] promises

    On one unit: [show] tells what it is and changes nothing; [enable] and
    [disable], when they succeed, set whether it is enabled and leave its
    activity, [start] and [stop] the other way round. *)
Class SystemctlLaws {M : Type} (backend : Systemctl M) (unit : string) (view : M → UnitInfo) := {
  show_tells m i m' : sc_show backend unit m = (Ok i, m') → i = view m ∧ view m' = view m;
  show_keeps m e m' : sc_show backend unit m = (Err e, m') → view m' = view m;
  enable_sets m m' : sc_enable backend unit m = (Ok (), m') →
    is_enabled (view m') = true ∧ ui_active_state (view m') = ui_active_state (view m) ∧ ui_load_state (view m') = ui_load_state (view m);
  disable_sets m m' : sc_disable backend unit m = (Ok (), m') →
    is_enabled (view m') = false ∧ ui_unit_file_state (view m') ≠ "masked" ∧
    ui_active_state (view m') = ui_active_state (view m) ∧ ui_load_state (view m') = ui_load_state (view m);
  start_sets m m' : sc_start backend unit m = (Ok (), m') →
    is_active (view m') = true ∧ ui_unit_file_state (view m') = ui_unit_file_state (view m) ∧ ui_load_state (view m') = ui_load_state (view m);
  stop_sets m m' : sc_stop backend unit m = (Ok (), m') →
    is_active (view m') = false ∧ ui_unit_file_state (view m') = ui_unit_file_state (view m) ∧ ui_load_state (view m') = ui_load_state (view m)
}.

Section Laws.
Context {M : Type} `{ExecEnv} (backend : Systemctl M) (s : SystemdUnitSpec) (view : M → UnitInfo).
Context `{!SystemctlLaws backend (unit_name s) view}.
Context (serde_error : Json → string) (stamp : M → string).

(** The steps of a plan, one after the other, while they succeed. *)
Fixpoint run_steps (steps : list Step) : io M () :=
  match steps with
  | [] => io_ret ()
  | step :: steps => let* _ := apply_unit backend step in run_steps steps
  end.

Definition run_action (a : SystemdAction) : io M () :=
  match a with
  | UEnable => sc_enable backend (unit_name s) | UDisable => sc_disable backend (unit_name s)
  | UStart => sc_start backend (unit_name s) | UStop => sc_stop backend (unit_name s)
  | URestart => sc_restart backend (unit_name s) | UReload => sc_reload backend (unit_name s)
  end.

Lemma parse_systemd_action a : parse_action "SystemdAction" systemd_actions (systemd_action_name a) = Ok a.
Proof. by destruct a. Qed.

Lemma apply_unit_step n a m res m' :
  apply_unit backend (unit_step (unit_name s) n a) m = (Ok res, m') → run_action a.1 m = (Ok (), m').
Proof.
  destruct a as [a verb]. unfold apply_unit, unit_step. cbn [fst snd st_payload step_new st_action].
  change (v ← json_get _ "unit"; as_str v) with (Some (unit_name s)). unfold io_bind, io_lift, io_ret. rewrite parse_systemd_action.
  destruct a; cbn [run_action];
    match goal with |- context [?c (unit_name s) m] => destruct (c (unit_name s) m) as [[[]|?] ?] end; intros ?; by simplify_eq.
Qed.

Lemma run_steps_actions n actions m m' :
  run_steps (map (λ ia, unit_step (unit_name s) (n + ia.1) ia.2) actions) m = (Ok (), m') →
  match actions with
  | [] => m' = m
  | a :: rest => ∃ m1, run_action a.2.1 m = (Ok (), m1) ∧
                   run_steps (map (λ ia, unit_step (unit_name s) (n + ia.1) ia.2) rest) m1 = (Ok (), m')
  end.
Proof.
  destruct actions as [|[k a] rest]; cbn [map run_steps]; [unfold io_ret; by intros [= <-]|]. unfold io_bind at 1.
  destruct (apply_unit backend _ m) as [[res|e] m1] eqn:Ha; [|done]. intros Hr. exists m1. split; [|exact Hr]. by eapply apply_unit_step.
Qed.

(** *** Settled units *)

Definition settled (i : UnitInfo) : Prop :=
  is_loaded i = true ∧ is_masked i = false ∧ (is_enabled i = su_enabled s ∨ is_static i = true) ∧ is_active i = su_active s.

Lemma settled_no_change i now : settled i → diff_unit s (observation_from_info (unit_name s) i now) = no_change.
Proof.
  intros (Hl & Hm & He & Ha). unfold diff_unit, observation_from_info.
  change (fact_bool _ "masked") with (is_masked i). rewrite Hm. cbn [obs_present]. rewrite Hl. cbn [negb].
  change (observed_bool _ "active") with (is_active i). change (observed_bool _ "enabled") with (is_enabled i).
  change (fact_bool _ "static") with (is_static i). rewrite Ha, eqb_reflx.
  destruct (Bool.eqb (su_enabled s) (is_enabled i)) eqn:E; [done|]. destruct He as [He|Hs]; [by rewrite He, eqb_reflx in E|by rewrite Hs].
Qed.

(** The steps the booleans call for. *)
Lemma planned_of i now : is_loaded i = true → is_masked i = false →
  planned_actions (diff_unit s (observation_from_info (unit_name s) i now)) =
    (let en := negb (Bool.eqb (su_enabled s) (is_enabled i)) && negb (is_static i) in
     let ac := negb (Bool.eqb (su_active s) (is_active i)) in
     (if en && su_enabled s then [(UEnable, "enable ")] else []) ++ (if ac && su_active s then [(UStart, "start ")] else []) ++
     (if ac && negb (su_active s) then [(UStop, "stop ")] else []) ++ (if en && negb (su_enabled s) then [(UDisable, "disable ")] else [])).
Proof.
  intros Hl Hm. unfold diff_unit, observation_from_info. change (fact_bool _ "masked") with (is_masked i). rewrite Hm. cbn [obs_present]. rewrite Hl.
  change (observed_bool _ "active") with (is_active i). change (observed_bool _ "enabled") with (is_enabled i).
  change (fact_bool _ "static") with (is_static i). cbn [negb].
  by destruct (su_enabled s), (is_enabled i), (is_static i), (su_active s), (is_active i).
Qed.

Lemma unchanged_plans_nothing o : is_change (diff_unit s o) = false → planned_actions (diff_unit s o) = [].
Proof.
  unfold diff_unit. destruct (fact_bool o "masked"); [done|]. destruct (negb (obs_present o)); [done|].
  by destruct (Bool.eqb (su_enabled s) _), (fact_bool o "static"), (Bool.eqb (su_active s) _).
Qed.

(** *** One action *)

Lemma masked_of (i j : UnitInfo) : ui_unit_file_state i = ui_unit_file_state j → ui_load_state i = ui_load_state j →
  is_loaded i = is_loaded j ∧ is_masked i = is_masked j ∧ is_enabled i = is_enabled j ∧ is_static i = is_static j.
Proof. intros Hu Hl. unfold is_loaded, is_masked, is_enabled, is_static. by rewrite Hu, Hl. Qed.

Lemma enabled_not_masked i : is_enabled i = true → ui_unit_file_state i ≠ "masked".
Proof. unfold is_enabled. intros He%bool_decide_eq_true Hm. rewrite Hm in He. set_solver. Qed.

(** What an action sets, and what it leaves. *)
Lemma action_effect a m m' : run_action a m = (Ok (), m') → is_loaded (view m) = true → is_masked (view m) = false →
  a ∈ [UEnable; UDisable; UStart; UStop] →
  is_loaded (view m') = true ∧ is_masked (view m') = false ∧
  match a with
  | UEnable => is_enabled (view m') = true ∧ is_active (view m') = is_active (view m)
  | UDisable => is_enabled (view m') = false ∧ is_active (view m') = is_active (view m)
  | UStart => is_active (view m') = true ∧ is_enabled (view m') = is_enabled (view m) ∧ is_static (view m') = is_static (view m)
  | UStop => is_active (view m') = false ∧ is_enabled (view m') = is_enabled (view m) ∧ is_static (view m') = is_static (view m)
  | _ => True
  end.
Proof.
  intros Hr Hl Hm Ha.
  assert (∀ m', ui_load_state (view m') = ui_load_state (view m) → ui_unit_file_state (view m') ≠ "masked" →
    is_loaded (view m') = true ∧ is_masked (view m') = false) as Hkeep.
  { intros m2 Hld Hu. unfold is_loaded, is_masked in *. rewrite Hld. split; [done|]. apply orb_false_iff in Hm as [-> _].
    by rewrite bool_decide_false. }
  destruct a; cbn [run_action] in Hr.
  - apply enable_sets in Hr as (He & Hac & Hld). destruct (Hkeep m' Hld (enabled_not_masked _ He)) as [-> ->].
    unfold is_active. by rewrite Hac.
  - apply disable_sets in Hr as (He & Hu & Hac & Hld). destruct (Hkeep m' Hld Hu) as [-> ->]. unfold is_active. by rewrite Hac.
  - apply start_sets in Hr as (Hac & Hu & Hld). destruct (masked_of _ _ Hu Hld) as (-> & -> & -> & ->). done.
  - apply stop_sets in Hr as (Hac & Hu & Hld). destruct (masked_of _ _ Hu Hld) as (-> & -> & -> & ->). done.
  - set_solver.
  - set_solver.
Qed.

(** C27: Applying a unit's plan settles it. For a unit that is loaded and not
    masked, and a systemctl that does what it is told, running the planned
    steps to their end leaves the unit enabled and active as the spec asks (a
    static unit keeps its enabled state), with the next observation showing no
    difference. The steps run in the order enable, start, stop, disable. *)
Theorem systemd_apply_converges r n m now m' now' :
  unit_spec_of serde_error r = Ok s →
  is_loaded (view m) = true → is_masked (view m) = false →
  let d := diff_unit s (observation_from_info (unit_name s) (view m) now) in
  run_steps (plan_unit s d n).1 m = (Ok (), m') →
  settled (view m') ∧
  p_diff (systemd_provider (W := ()) backend serde_error stamp) r (observation_from_info (unit_name s) (view m') now') = Ok no_change.
Proof.
  intros Hspec Hl Hm d Hrun. cbn [p_diff systemd_provider]. rewrite Hspec. cbn [mbind result_bind].
  assert (settled (view m')) as Hs; [|split; [done|]; by rewrite settled_no_change].
  assert (run_steps (map (λ ia, unit_step (unit_name s) (n + ia.1) ia.2) (enumerate (planned_actions d))) m = (Ok (), m')) as Hrun'.
  { unfold plan_unit in Hrun. destruct (is_change d) eqn:Hc; cbn [negb fst] in Hrun; [done|].
    assert (planned_actions d = []) as Hp; [|rewrite Hp; exact Hrun]. by apply unchanged_plans_nothing in Hc. }
  subst d. rewrite planned_of in Hrun' by done. clear Hrun. revert Hrun'. unfold settled. cbn zeta.
  destruct (su_enabled s), (is_enabled (view m)) eqn:He, (is_static (view m)) eqn:Hst, (su_active s), (is_active (view m)) eqn:Hac;
    cbn [Bool.eqb negb andb app]; unfold enumerate; cbn [imap Init.Nat.add]; intros Hrun';
    repeat (apply run_steps_actions in Hrun'; cbn [fst snd imap] in Hrun';
      lazymatch type of Hrun' with
      | ∃ _, _ => let m1 := fresh "m" in let Hx := fresh in
                  destruct Hrun' as (m1 & Hx & Hrun'); apply action_effect in Hx; [|assumption|assumption|by repeat constructor];
                  destruct Hx as (? & ? & ?)
      | _ => subst m'
      end); naive_solver congruence.
Qed.
(** A unit's rollback brings it back: with the checkpoint taken before an
    apply, and whatever happened since, a rollback that succeeds leaves the
    unit as enabled and as active as it was then. *)
Theorem systemd_rollback_restores {W : Type} r step ctx m data m1 m2 m3 cp (w w1 : W) r' :
  unit_spec_of serde_error r = Ok s →
  p_pre_apply (systemd_provider backend serde_error stamp) r step ctx (m, w) = (Ok data, (m1, w1)) →
  cp_data cp = data →
  p_rollback (systemd_provider backend serde_error stamp) r' cp (m2, w) = (Ok (), (m3, w)) →
  is_enabled (view m3) = is_enabled (view m) ∧ is_active (view m3) = is_active (view m).
Proof.
  intros Hspec Hpre <- Hroll. cbn [p_pre_apply p_rollback systemd_provider] in *. unfold on_machine, io_bind, io_lift, io_ret in *.
  rewrite Hspec in Hpre. unfold pre_apply_unit, io_bind, io_ret in Hpre.
  destruct (sc_show backend (unit_name s) m) as [[i|e] mi] eqn:Hi; [|done]. apply show_tells in Hi as [-> _]. injection Hpre as Hdata _ _.
  rewrite <- Hdata in Hroll. unfold rollback_unit in Hroll.
  change (v ← json_get _ "unit"; as_str v) with (Some (unit_name s)) in Hroll.
  change (default false (v ← json_get _ "previous_enabled"; as_bool v)) with (is_enabled (view m)) in Hroll.
  change (default false (v ← json_get _ "previous_active"; as_bool v)) with (is_active (view m)) in Hroll.
  unfold io_bind, io_ret in Hroll. destruct (sc_show backend (unit_name s) m2) as [[j|e] mj] eqn:Hj; [|done].
  apply show_tells in Hj as [-> Hj]. rewrite <- Hj in Hroll. clear Hj Hdata m2.
  assert (∀ x y : M, ui_active_state (view x) = ui_active_state (view y) → is_active (view x) = is_active (view y)) as Hac
    by (intros x y Hxy; unfold is_active; by rewrite Hxy).
  assert (∀ x y : M, ui_unit_file_state (view x) = ui_unit_file_state (view y) → is_enabled (view x) = is_enabled (view y)) as Hen
    by (intros x y Hxy; unfold is_enabled; by rewrite Hxy).
  destruct (is_enabled (view mj)) eqn:E1, (is_enabled (view m)) eqn:E2, (is_active (view mj)) eqn:E3, (is_active (view m)) eqn:E4;
    cbn [andb negb] in Hroll;
    repeat match type of Hroll with context [?c backend (unit_name s) ?x] =>
      let E := fresh in destruct (c backend (unit_name s) x) as [[[]|?] ?] eqn:E; [|done];
      first [apply enable_sets in E as (? & ? & ?) | apply disable_sets in E as (? & ? & ? & ?)
            | apply start_sets in E as (? & ? & ?) | apply stop_sets in E as (? & ? & ?)] end;
    simplify_eq; split; try congruence;
    repeat match goal with
    | Hx : ui_active_state (view ?x) = ui_active_state (view ?y) |- _ => apply Hac in Hx
    | Hx : ui_unit_file_state (view ?x) = ui_unit_file_state (view ?y) |- _ => apply Hen in Hx
    end; congruence.
Qed.
End Laws.
