(* ===== verification/Sysctl.v ===== *)
(** * The sysctl provider (crates/iac-providers/src/sysctl/)

    Kernel parameters under /proc/sys, read and written as files. *)

From stdpp Require Import pretty.
From S2P Require Import Prelude Text Json ApiError Routing Db AuditLog Ids Diff Executor Chars PluginSpec Plugin SpecReader Posix FileProvider.

#[local] Open Scope string_scope.
#[local] Open Scope list_scope.
#[local] Open Scope nat_scope.
#[local] Open Scope io_scope.

(** ** The spec *)

Inductive SysctlState := SysctlPresent.

Record SysctlSettingSpec := mkSysctl { sy_key : string; sy_value : string; sy_state : SysctlState }.

(** Letters, digits and [. _ -]. *)
Definition key_char (c : N) : bool := is_ascii_alphanumeric c || bool_decide (c ∈ [46; 95; 45]%N).

Definition validate_key (key : string) : result message () :=
  if decide (key = "") then Err [Txt "key must not be empty"]
  else if starts_with "." key || bool_decide (is_Some (strip_suffix "." key)) || str_contains ".." key
  then Err [Txt "key "; Dbg key; Txt " must not start/end with '.' or contain '..'"]
  else if negb (all_chars key_char key) then Err [Txt "key "; Dbg key; Txt " must be alphanumeric with optional '.', '_', '-'"]
  else if str_contains "/" key then Err [Txt "key "; Dbg key; Txt " must use dots, not slashes (kernel uses dotted form)"]
  else if (256 <? size_of key)%Z then Err [Txt "key "; Dbg key; Txt " length "; Dec (size_of key); Txt " exceeds 256"]
  else Ok ().

Definition validate_value (value : string) : result message () :=
  if contains_any [0; 10; 13]%N value then Err [Txt "value must not contain control characters (NUL, LF, CR)"]
  else if (4096 <? size_of value)%Z then Err [Txt "value length "; Dec (size_of value); Txt " exceeds 4096 (kernel write buffer limit)"]
  else Ok ().

Definition validate_sysctl (s : SysctlSettingSpec) : result message () := _ ← validate_key (sy_key s); validate_value (sy_value s).

Definition sysctl_fields (v : Json) : option SysctlSettingSpec :=
  match strict_fields ["key"; "value"; "state"] v with
  | Some [key; value; state] =>
      k ← required_string key; x ← required_string value; st ← enum_or [("present", SysctlPresent)] SysctlPresent state; Some (mkSysctl k x st)
  | _ => None
  end.

(** [key.replace('.', "/")]. *)
Fixpoint slashed (s : string) : string :=
  match s with
  | "" => ""
  | String a s => String (if Ascii.eqb a (Ascii.ascii_of_N 46) then solidus else a) (slashed s)
  end.

Definition proc_path (s : SysctlSettingSpec) : string := "/proc/sys/" +:+ slashed (sy_key s).

(** ** The backend *)

Record SysctlBackend (M : Type) := mkSysctlBackend { sb_read : string → io M (option string); sb_write : string → string → io M () }.
Arguments sb_read {M} _ _.
Arguments sb_write {M} _ _ _.

(** [fs::read_to_string] and [fs::write] on /proc/sys, where the kernel
    answers: it is not of this repository. *)
Class ProcFs (M : Type) := {
  proc_read : string → M → result string string * M;
  proc_write : string → string → M → result string () * M
}.

Definition ProcfsBackend {M} `{!ProcFs M} : SysctlBackend M := {|
  sb_read path m :=
    let '(r, m) := proc_read path m in
    (match r with
     | Ok s => Ok (Some (trim_end_matches (λ c, (c =? 10)%N || (c =? 13)%N) s))
     | Err e => if decide (e = "ENOENT") then Ok None else Err (EProvider "sysctl" [Txt "reading "; Txt path; Txt ": "; Ext e])
     end, m);
  sb_write path value m :=
    let '(r, m) := proc_write path value m in (map_err (λ e, EProvider "sysctl" [Txt "writing "; Txt path; Txt ": "; Ext e]) r, m)
|}.

Definition read_current {M} (backend : SysctlBackend M) (s : SysctlSettingSpec) : io M (option string) := sb_read backend (proc_path s).

(** ** The operations *)

Inductive SysctlAction := SysctlSet.
Definition sysctl_actions : list (string * SysctlAction) := [("sysctl.set", SysctlSet)].

Section SysctlProvider.
Context {M W : Type} `{ExecEnv, DebugText} (backend : SysctlBackend M).
Context (serde_error : Json → string) (stamp : M → string).

Definition sysctl_from_value (v : Json) : result message SysctlSettingSpec :=
  spec ← ok_or (sysctl_fields v) [Ext (serde_error v)]; _ ← validate_sysctl spec; Ok spec.
Definition sysctl_spec_of (r : Resource) : CoreResult SysctlSettingSpec := parse_spec "sysctl.setting" sysctl_from_value r.

Definition observe_sysctl (s : SysctlSettingSpec) : io M ObservedState :=
  let* current := read_current backend s in
  match current with
  | None => λ m, (Ok (mkObserved false (JObject [("key", JString (sy_key s))]) [("exists", JBool false)] (stamp m)), m)
  | Some value => λ m, (Ok (mkObserved true (JObject [("key", JString (sy_key s)); ("value", JString value)])
                              [("exists", JBool true); ("value", JString value)] (stamp m)), m)
  end.

Definition diff_sysctl (s : SysctlSettingSpec) (o : ObservedState) : Diff :=
  let exists_ := default false (v ← assoc_get "exists" (obs_facts o); as_bool v) in
  let observed := v ← assoc_get "value" (obs_facts o); as_str v in
  if negb exists_ then
    mkDiff Update [mkChange "exists" (Some (JBool false)) (Some (JBool true)) false]
      ["kernel parameter " +:+ sy_key s +:+ " not present on this system"] false
  else if decide (observed = Some (sy_value s)) then no_change
  else mkDiff Update [mkChange "value" (option_map JString observed) (Some (JString (sy_value s))) false]
         [sy_key s +:+ " " +:+ debug_text (default "" observed) +:+ " -> " +:+ debug_text (sy_value s)] true.

Definition plan_sysctl (s : SysctlSettingSpec) (d : Diff) (n : nat) : list Step * nat :=
  if negb (is_change d) then ([], n)
  else ([step_new (ulid_at n) "sysctl.set" ("sysctl.setting/" +:+ sy_key s) (JObject [("key", JString (sy_key s))])], S n).

Definition pre_apply_sysctl (s : SysctlSettingSpec) : io M Json :=
  let* current := read_current backend s in
  io_ret (JObject [("previous_value", match current with Some v => JString v | None => JNull end)]).

Definition apply_sysctl (s : SysctlSettingSpec) (step : Step) : io M StepResult :=
  let* _ := io_lift (parse_action "SysctlAction" sysctl_actions (st_action step)) in
  sb_write backend (proc_path s) (sy_value s) ;*
  io_ret (step_result_ok [Txt "set "; Txt (sy_key s); Txt " = "; Dbg (sy_value s)]).

Definition rollback_sysctl (s : SysctlSettingSpec) (checkpoint : Json) : io M () :=
  match v ← json_get checkpoint "previous_value"; as_str v with
  | Some prev => sb_write backend (proc_path s) prev
  | None => io_ret ()
  end.

Definition sysctl_provider : Provider M W := {|
  p_observe r m := s ← sysctl_spec_of r; (observe_sysctl s m).1;
  p_diff r o := s ← sysctl_spec_of r; Ok (diff_sysctl s o);
  p_plan r d n := match sysctl_spec_of r with Ok s => let '(steps, n) := plan_sysctl s d n in (Ok steps, n) | Err e => (Err e, n) end;
  p_pre_apply r _ _ := on_machine (let* s := io_lift (sysctl_spec_of r) in pre_apply_sysctl s);
  p_apply r step _ := on_machine (let* s := io_lift (sysctl_spec_of r) in apply_sysctl s step);
  p_verify r m := s ← sysctl_spec_of r; o ← (observe_sysctl s m).1;
                  let d := diff_sysctl s o in Ok (if is_change d then VMismatch (diff_changes d) else VMatch);
  p_rollback r cp := on_machine (let* s := io_lift (sysctl_spec_of r) in rollback_sysctl s (cp_data cp));
  p_capability_keys r := s ← sysctl_spec_of r; Ok [sy_key s]
|}.

End SysctlProvider.
