(* ===== verification/Package.v ===== *)
(** * The package provider (crates/iac-providers/src/package/)

    Packages of the operating system, through dpkg-query and apt-get. *)

From stdpp Require Import pretty.
From S2P Require Import Prelude Text Json ApiError Routing Db AuditLog Ids Diff Executor Chars PluginSpec Plugin SpecReader Posix FileProvider Command.

#[local] Open Scope string_scope.
#[local] Open Scope list_scope.
#[local] Open Scope nat_scope.
#[local] Open Scope io_scope.

(** ** The spec *)

Inductive PackageState := PackagePresent | PackageAbsent.

#[export] Instance PackageState_eq_dec : EqDecision PackageState.
Proof. solve_decision. Defined.

Record PackageSpec := mkPackage { pk_name : string; pk_state : PackageState; pk_version : option string; pk_backend : string }.

(** Letters, digits and [- . + :], and in a version [~]. *)
Definition package_char (c : N) : bool := is_ascii_alphanumeric c || bool_decide (c ∈ [45; 46; 43; 58]%N).
Definition version_char (c : N) : bool := package_char c || (c =? 126)%N.

Definition validate_package (s : PackageSpec) : result message () :=
  if decide (pk_name s = "") then Err [Txt "name must not be empty"]
  else if existsb is_whitespace (chars (pk_name s)) then Err [Txt "name must not contain whitespace"]
  else if starts_with "-" (pk_name s) then Err [Txt "name must not start with '-' (parsed as an apt-get option)"]
  else if negb (all_chars package_char (pk_name s)) then Err [Txt "unsafe character in package name: "; Dbg (pk_name s)]
  else
  _ ← match pk_version s with
      | Some v => if negb (all_chars version_char v) then Err [Txt "unsafe character in version: "; Dbg v] else Ok ()
      | None => Ok ()
      end;
  if bool_decide (pk_state s = PackageAbsent) && bool_decide (is_Some (pk_version s)) then Err [Txt "state=absent forbids version"]
  else if negb (bool_decide (pk_backend s = "apt"))
  then Err [Txt "unsupported backend "; Dbg (pk_backend s); Txt "; only 'apt' is implemented in Phase 0"]
  else Ok ().

Definition package_fields (v : Json) : option PackageSpec :=
  match strict_fields ["name"; "state"; "version"; "backend"] v with
  | Some [name; state; version; backend] =>
      n ← required_string name; st ← enum_or [("present", PackagePresent); ("absent", PackageAbsent)] PackagePresent state;
      ver ← optional_string version; b ← match backend with None => Some "apt" | Some x => as_str x end;
      Some (mkPackage n st ver b)
  | _ => None
  end.

(** ** The backend *)

Inductive InstallStatus := NotInstalled | Installed (status version : string).

Definition is_installed (s : InstallStatus) : bool :=
  match s with Installed status _ => str_contains "install ok installed" status | NotInstalled => false end.
Definition status_version (s : InstallStatus) : option string := match s with Installed _ v => Some v | NotInstalled => None end.

(** [trait PackageBackend]. *)
Record PackageBackend (M : Type) := mkPackageBackend {
  pb_query : string → io M InstallStatus;
  pb_install : string → option string → io M ();
  pb_remove : string → io M ()
}.
Arguments pb_query {M} _ _.
Arguments pb_install {M} _ _ _.
Arguments pb_remove {M} _ _.

Definition APT_TIMEOUT : Z := 600000.
Definition TAB : string := String (Ascii.ascii_of_N 9) "".

Section Apt.
Context {H : Type} `{!Programs H}.

(** The first argument is the program, and the label. *)
Definition apt_run (program : string) (args : list string) : io (Machine * H) (bool * string * string) :=
  run_with_status (mkCommand program args "" APT_TIMEOUT) "package" [Txt program].

Definition apt_check (what : message) (program : string) (args : list string) : io (Machine * H) () :=
  let* out := apt_run program args in
  let '(ok, _, stderr) := out in
  if ok : bool then io_ret () else io_throw (EProvider "package" (what ++ [Txt " failed: "; Txt (trim stderr)])).

Definition AptBackend : PackageBackend (Machine * H) := {|
  pb_query name :=
    let* out := apt_run "dpkg-query" ["-W"; "-f=${Status}\t${Version}"; name] in
    let '(ok, stdout, _) := out in
    io_ret (if negb ok then NotInstalled
            else match split_once TAB stdout with Some (status, version) => Installed status version | None => Installed stdout "" end);
  pb_install name version :=
    let target := match version with Some v => name +:+ "=" +:+ v | None => name end in
    apt_check [Txt "apt-get install "; Txt target] "apt-get"
      ["install"; "--yes"; "--no-install-recommends"; "-o"; "Dpkg::Options::=--force-confdef"; "-o"; "Dpkg::Options::=--force-confold"; "--"; target];
  pb_remove name := apt_check [Txt "apt-get remove "; Txt name] "apt-get" ["remove"; "--yes"; "--"; name]
|}.
End Apt.

(** ** The operations *)

Inductive PackageAction := PackageInstall | PackageRemove.
Definition package_actions : list (string * PackageAction) := [("package.install", PackageInstall); ("package.remove", PackageRemove)].
Definition package_action_name (a : PackageAction) : string := match a with PackageInstall => "package.install" | PackageRemove => "package.remove" end.

Section PackageProvider.
Context {M W : Type} `{ExecEnv} (backend : PackageBackend M).
Context (serde_error : Json → string) (stamp : M → string).

Definition package_from_value (v : Json) : result message PackageSpec :=
  spec ← ok_or (package_fields v) [Ext (serde_error v)]; _ ← validate_package spec; Ok spec.
Definition package_spec_of (r : Resource) : CoreResult PackageSpec := parse_spec "package" package_from_value r.

Definition observe_package (s : PackageSpec) : io M ObservedState :=
  let* status := pb_query backend (pk_name s) in
  match status with
  | NotInstalled => λ m, (Ok (mkObserved false JNull [("installed", JBool false)] (stamp m)), m)
  | Installed dpkg version =>
      let installed := is_installed status in
      λ m, (Ok (mkObserved installed
        (JObject [("name", JString (pk_name s)); ("state", JString (if installed then "present" else "absent")); ("version", JString version)])
        [("installed", JBool installed); ("dpkg_status", JString dpkg); ("version", JString version)] (stamp m)), m)
  end.

Definition installed_change (from to : bool) : FieldChange := mkChange "installed" (Some (JBool from)) (Some (JBool to)) false.

Definition diff_package (s : PackageSpec) (o : ObservedState) : Diff :=
  let installed := default false (v ← assoc_get "installed" (obs_facts o); as_bool v) in
  let version := default "" (v ← assoc_get "version" (obs_facts o); as_str v) in
  match pk_state s, installed with
  | PackageAbsent, false => no_change
  | PackageAbsent, true => mkDiff Update [installed_change true false] ["uninstall " +:+ pk_name s] true
  | PackagePresent, false => mkDiff Create [installed_change false true] ["install " +:+ pk_name s] true
  | PackagePresent, true =>
      match pk_version s with
      | Some pin =>
          if decide (version = pin) then no_change
          else mkDiff Update [mkChange "version" (Some (JString version)) (Some (JString pin)) false]
                 ["version pin " +:+ version +:+ " -> " +:+ pin] true
      | None => no_change
      end
  end.

Definition opt_json (o : option string) : Json := match o with Some s => JString s | None => JNull end.

Definition plan_package (s : PackageSpec) (d : Diff) (n : nat) : list Step * nat :=
  if negb (is_change d) then ([], n)
  else
    match pk_state s with
    | PackagePresent => ([step_new (ulid_at n) "package.install" ("install " +:+ pk_name s)
                            (JObject [("name", JString (pk_name s)); ("version", opt_json (pk_version s))])], S n)
    | PackageAbsent => ([step_new (ulid_at n) "package.remove" ("remove " +:+ pk_name s) (JObject [("name", JString (pk_name s))])], S n)
    end.

Definition pre_apply_package (s : PackageSpec) : io M Json :=
  let* status := pb_query backend (pk_name s) in
  io_ret (match status with
          | NotInstalled => JObject [("name", JString (pk_name s)); ("previous_installed", JBool false); ("previous_version", JNull)]
          | Installed _ version => JObject [("name", JString (pk_name s)); ("previous_installed", JBool true); ("previous_version", JString version)]
          end).

Definition apply_package (step : Step) : io M StepResult :=
  match v ← json_get (st_payload step) "name"; as_str v with
  | None => io_throw (EProvider "package" [Txt "step payload missing 'name'"])
  | Some name =>
      let* action := io_lift (parse_action "PackageAction" package_actions (st_action step)) in
      match action with
      | PackageInstall =>
          pb_install backend name (v ← json_get (st_payload step) "version"; as_str v) ;* io_ret (step_result_ok [Txt "installed "; Txt name])
      | PackageRemove => pb_remove backend name ;* io_ret (step_result_ok [Txt "removed "; Txt name])
      end
  end.

Definition rollback_package (checkpoint : Json) : io M () :=
  match v ← json_get checkpoint "name"; as_str v with
  | None => io_throw (EProvider "package" [Txt "checkpoint missing 'name'"])
  | Some name =>
      let prev_installed := default false (v ← json_get checkpoint "previous_installed"; as_bool v) in
      let prev_version := v ← json_get checkpoint "previous_version"; as_str v in
      let* cur := pb_query backend name in
      match is_installed cur, prev_installed with
      | true, true =>
          match prev_version with
          | Some v => if decide (status_version cur = Some v) then io_ret () else pb_install backend name (Some v)
          | None => io_ret ()
          end
      | true, false => pb_remove backend name
      | false, true => pb_install backend name prev_version
      | false, false => io_ret ()
      end
  end.

Definition package_provider : Provider M W := {|
  p_observe r m := s ← package_spec_of r; (observe_package s m).1;
  p_diff r o := s ← package_spec_of r; Ok (diff_package s o);
  p_plan r d n := match package_spec_of r with Ok s => let '(steps, n) := plan_package s d n in (Ok steps, n) | Err e => (Err e, n) end;
  p_pre_apply r _ _ := on_machine (let* s := io_lift (package_spec_of r) in pre_apply_package s);
  p_apply _ step _ := on_machine (apply_package step);
  p_verify r m := s ← package_spec_of r; o ← (observe_package s m).1;
                  let d := diff_package s o in Ok (if is_change d then VMismatch (diff_changes d) else VMatch);
  p_rollback _ cp := on_machine (rollback_package (cp_data cp));
  p_capability_keys r := s ← package_spec_of r; Ok [pk_name s]
|}.

(** ** What a backend promises *)

(** On one package: [query] tells its status and changes nothing; [install]
    and [remove], when they succeed, leave it installed, at the version when
    one is named, or not installed. *)
Class PackageLaws (name : string) (view : M → InstallStatus) := {
  query_tells m r m' : pb_query backend name m = (r, m') → view m' = view m ∧ ∀ i, r = Ok i → i = view m;
  install_sets version m m' : pb_install backend name version m = (Ok (), m') →
    is_installed (view m') = true ∧ (∀ v, version = Some v → status_version (view m') = Some v);
  remove_sets m m' : pb_remove backend name m = (Ok (), m') → is_installed (view m') = false
}.

(** Whether a package is there, and which version. *)
Definition have (i : InstallStatus) : option string := if is_installed i then status_version i else None.

(** A package's rollback brings it back: with the checkpoint taken before
    an apply of a package that was installed or not known at all, and
    whatever happened since, a rollback that succeeds leaves the package
    installed at the version it had, or not installed. (A package that was
    removed with its configuration left is the exception.) *)
Theorem package_rollback_restores s view r step ctx m data m1 m2 m3 cp (w w1 : W) r' : PackageLaws (pk_name s) view →
  package_spec_of r = Ok s →
  is_installed (view m) = true ∨ view m = NotInstalled →
  p_pre_apply package_provider r step ctx (m, w) = (Ok data, (m1, w1)) →
  cp_data cp = data →
  p_rollback package_provider r' cp (m2, w) = (Ok (), (m3, w)) →
  have (view m3) = have (view m).
Proof.
  intros Hlaws Hspec Hwas Hpre <- Hroll. cbn [p_pre_apply p_rollback package_provider] in *. unfold on_machine, io_bind, io_lift, io_ret in *.
  rewrite Hspec in Hpre. unfold pre_apply_package, io_bind, io_ret in Hpre.
  destruct (pb_query backend (pk_name s) m) as [[i|e] mi] eqn:Hi; [|done]. apply query_tells in Hi as [_ Hi]. specialize (Hi i eq_refl). subst i.
  injection Hpre as Hdata _ _. unfold rollback_package in Hroll.
  assert ((v ← json_get (cp_data cp) "name"; as_str v) = Some (pk_name s)) as Hname by (by rewrite <- Hdata; destruct (view m)).
  assert (default false (v ← json_get (cp_data cp) "previous_installed"; as_bool v) = is_installed (view m)) as Hpi.
  { rewrite <- Hdata. by destruct Hwas as [Hwas|Hwas]; destruct (view m). }
  assert ((v ← json_get (cp_data cp) "previous_version"; as_str v) = status_version (view m)) as Hpv by (by rewrite <- Hdata; destruct (view m)).
  rewrite Hname, Hpi, Hpv in Hroll. unfold io_bind, io_ret in Hroll.
  destruct (pb_query backend (pk_name s) m2) as [[j|e] mj] eqn:Hj; [|done]. apply query_tells in Hj as [Hv Hj]. specialize (Hj j eq_refl). subst j.
  rewrite <- Hv in Hroll. clear Hv Hdata m2. unfold have.
  destruct (is_installed (view mj)) eqn:E1, (is_installed (view m)) eqn:E2.
  - destruct (status_version (view m)) as [v|] eqn:Ev; [|by destruct (view m)]. destruct (decide _) as [Hd|].
    + simplify_eq. by rewrite E1.
    + destruct (pb_install _ _ _ _) as [[[]|?] ?] eqn:Hin; simplify_eq. apply install_sets in Hin as [-> Hin]. by apply Hin.
  - destruct (pb_remove _ _ _) as [[[]|?] ?] eqn:Hr; simplify_eq. by rewrite (remove_sets _ _ Hr).
  - destruct (pb_install _ _ _ _) as [[[]|?] ?] eqn:Hin; simplify_eq. apply install_sets in Hin as [-> Hin].
    destruct (status_version (view m)) as [v|] eqn:Ev; [by apply Hin|by destruct (view m)].
  - simplify_eq. by rewrite E1.
Qed.

End PackageProvider.
