(* ===== verification/Firewall.v ===== *)
(** * The firewall provider (crates/iac-providers/src/firewall/)

    One rule of iptables or nftables, found again by the comment it carries
    (backend.rs, nft.rs), compared with its spec and put back (spec.rs,
    ops.rs, mod.rs); and that a rule reads back from the line that wrote it. *)

From stdpp Require Import pretty.
From S2P Require Import Prelude Text Json ApiError Routing Db AuditLog Ids Diff Executor Chars PluginSpec Plugin SpecReader Posix FileProvider Command.

#[local] Open Scope string_scope.
#[local] Open Scope list_scope.
#[local] Open Scope nat_scope.
#[local] Open Scope io_scope.

(** ** The spec *)

Inductive FirewallState := FirewallPresent | FirewallAbsent.
Inductive Family := Ipv4 | Ipv6.

#[export] Instance FirewallState_eq_dec : EqDecision FirewallState.
Proof. solve_decision. Defined.
#[export] Instance Family_eq_dec : EqDecision Family.
Proof. solve_decision. Defined.

Record FirewallRuleSpec := mkRuleSpec {
  fw_name : string;
  fw_table : string;
  fw_chain : string;
  fw_protocol : string;
  fw_port : option Z;
  fw_source : option string;
  fw_destination : option string;
  fw_action : string;
  fw_family : Family;
  fw_state : FirewallState
}.

Definition u16_max : Z := 65535.
Definition u8_max : Z := 255.

Definition rule_fields (v : Json) : option FirewallRuleSpec :=
  match strict_fields ["name"; "table"; "chain"; "protocol"; "port"; "source"; "destination"; "action"; "family"; "state"] v with
  | Some [name; table; chain; protocol; port; source; destination; action; family; state] =>
      n ← required_string name; t ← string_or "filter" table; c ← required_string chain; p ← string_or "all" protocol;
      port ← optional_unsigned u16_max port; s ← optional_string source; d ← optional_string destination; a ← required_string action;
      f ← enum_or [("ipv4", Ipv4); ("ipv6", Ipv6)] Ipv4 family;
      st ← enum_or [("present", FirewallPresent); ("absent", FirewallAbsent)] FirewallPresent state;
      Some (mkRuleSpec n t c p port s d a f st)
  | _ => None
  end.

Definition rule_name_char (c : N) : bool := is_ascii_alphanumeric c || bool_decide (c ∈ [45; 95; 46]%N).

Definition validate_rule_name (name : string) : result message () :=
  if decide (name = "") then Err [Txt "name must not be empty"]
  else if 200 <? String.length name then Err [Txt "name "; Dbg name; Txt " exceeds 200 chars (iptables --comment cap)"]
  else if negb (all_chars rule_name_char name) then Err [Txt "name "; Dbg name; Txt " must be alphanumeric with optional '-', '_', '.'"]
  else Ok ().

(** A value of a closed list. *)
Definition one_of (what : string) (values : list string) (v : string) : result message () :=
  if bool_decide (v ∈ values) then Ok () else Err [Txt what; Txt " "; Dbg v; Txt (" must be one of: " +:+ str_join ", " values)].

Definition validate_table : string → result message () := one_of "table" ["filter"; "nat"; "mangle"].
Definition validate_protocol : string → result message () := one_of "protocol" ["tcp"; "udp"; "icmp"; "all"].
Definition validate_action : string → result message () := one_of "action" ["ACCEPT"; "DROP"; "REJECT"].

Definition chains_of (table : string) : option (list string) :=
  assoc_get table [("filter", ["INPUT"; "OUTPUT"; "FORWARD"]); ("nat", ["PREROUTING"; "POSTROUTING"; "OUTPUT"; "INPUT"]);
                   ("mangle", ["PREROUTING"; "POSTROUTING"; "INPUT"; "OUTPUT"; "FORWARD"])].
Definition validate_chain (table chain : string) : result message () :=
  match chains_of table with
  | None => Err [Txt "unknown table "; Dbg table]
  | Some valid =>
      if bool_decide (chain ∈ valid) then Ok ()
      else Err ([Txt "chain "; Dbg chain; Txt " not valid for table "; Dbg table; Txt "; must be one of: "] ++ debug_list valid)
  end.

(** Blank, tab, newline, semicolon, the quotes, backquote and backslash. *)
Definition addr_metacharacters : list N := [32; 9; 10; 59; 34; 39; 96; 92]%N.

Definition is_hexdigit (c : N) : bool := is_ascii_digit c || ((65 <=? c) && (c <=? 70))%N || ((97 <=? c) && (c <=? 102))%N.

Definition dot : Ascii.ascii := Ascii.ascii_of_N 46.

Definition validate_octet (addr o : string) : result message () :=
  match parse_unsigned u16_max o with
  | None => Err [Dbg addr; Txt " octet "; Dbg o; Txt " not a number"]
  | Some n => if (255 <? n)%Z then Err [Dbg addr; Txt " octet "; Txt o; Txt " out of range 0..=255"] else Ok ()
  end.

Definition validate_prefix (addr version : string) (max : Z) (p : option string) : result message () :=
  match p with
  | None => Ok ()
  | Some p =>
      match parse_unsigned u8_max p with
      | None => Err [Dbg addr; Txt " prefix "; Dbg p; Txt " not a number"]
      | Some n => if (max <? n)%Z then Err [Dbg addr; Txt (" " +:+ version +:+ " prefix "); Dec n; Txt " out of range 0..="; Dec max] else Ok ()
      end
  end.

Definition validate_addr (addr : string) (family : Family) : result message () :=
  if decide (addr = "") then Err [Txt "must not be empty"]
  else if contains_any addr_metacharacters addr then Err [Dbg addr; Txt " contains a disallowed character (whitespace or shell meta)"]
  else
    let '(host, prefix) := match split_once "/" addr with Some (h, p) => (h, Some p) | None => (addr, None) end in
    match family with
    | Ipv4 =>
        let octets := split_on dot host in
        if negb (length octets =? 4) then Err [Dbg addr; Txt " not a valid IPv4 address (4 octets expected)"]
        else _ ← try_map (validate_octet addr) octets; validate_prefix addr "IPv4" 32 prefix
    | Ipv6 =>
        if negb (str_contains ":" host) then Err [Dbg addr; Txt " not a valid IPv6 address (':' expected)"]
        else if negb (all_chars (λ c, is_hexdigit c || (c =? 58)%N) host) then Err [Dbg addr; Txt " contains non-hex characters"]
        else validate_prefix addr "IPv6" 128 prefix
    end.

Definition validate_opt_addr (what : string) (family : Family) (addr : option string) : result message () :=
  match addr with Some a => map_err (λ e, Txt (what +:+ ": ") :: e) (validate_addr a family) | None => Ok () end.

Definition has_ports (protocol : string) : bool := bool_decide (protocol ∈ ["tcp"; "udp"]).

Definition validate_rule (s : FirewallRuleSpec) : result message () :=
  _ ← validate_rule_name (fw_name s);
  _ ← validate_table (fw_table s);
  _ ← validate_chain (fw_table s) (fw_chain s);
  _ ← validate_protocol (fw_protocol s);
  _ ← match fw_port s with
      | None => if has_ports (fw_protocol s) then Err [Txt "protocol "; Dbg (fw_protocol s); Txt " requires `port`"] else Ok ()
      | Some _ => if bool_decide (fw_protocol s ∈ ["icmp"; "all"])
                  then Err [Txt "protocol "; Dbg (fw_protocol s); Txt " must not set `port` (port is meaningless for non-tcp/udp)"] else Ok ()
      end;
  _ ← if bool_decide (fw_port s = Some 0%Z) then Err [Txt "port must be 1..=65535"] else Ok ();
  _ ← validate_opt_addr "source" (fw_family s) (fw_source s);
  _ ← validate_opt_addr "destination" (fw_family s) (fw_destination s);
  validate_action (fw_action s).

(** ** The backends *)

Record ObservedRule := mkRule {
  ob_name : string;
  ob_table : string;
  ob_chain : string;
  ob_protocol : string;
  ob_port : option Z;
  ob_source : option string;
  ob_destination : option string;
  ob_action : string;
  ob_family : Family
}.
Definition set_chain (v : string) (r : ObservedRule) : ObservedRule :=
  mkRule (ob_name r) (ob_table r) v (ob_protocol r) (ob_port r) (ob_source r) (ob_destination r) (ob_action r) (ob_family r).
Definition set_protocol (v : string) (r : ObservedRule) : ObservedRule :=
  mkRule (ob_name r) (ob_table r) (ob_chain r) v (ob_port r) (ob_source r) (ob_destination r) (ob_action r) (ob_family r).
Definition set_port (v : option Z) (r : ObservedRule) : ObservedRule :=
  mkRule (ob_name r) (ob_table r) (ob_chain r) (ob_protocol r) v (ob_source r) (ob_destination r) (ob_action r) (ob_family r).
Definition set_source (v : string) (r : ObservedRule) : ObservedRule :=
  mkRule (ob_name r) (ob_table r) (ob_chain r) (ob_protocol r) (ob_port r) (Some v) (ob_destination r) (ob_action r) (ob_family r).
Definition set_destination (v : string) (r : ObservedRule) : ObservedRule :=
  mkRule (ob_name r) (ob_table r) (ob_chain r) (ob_protocol r) (ob_port r) (ob_source r) (Some v) (ob_action r) (ob_family r).
Definition set_action (v : string) (r : ObservedRule) : ObservedRule :=
  mkRule (ob_name r) (ob_table r) (ob_chain r) (ob_protocol r) (ob_port r) (ob_source r) (ob_destination r) v (ob_family r).
Definition set_place (table chain : string) (r : ObservedRule) : ObservedRule :=
  mkRule (ob_name r) table chain (ob_protocol r) (ob_port r) (ob_source r) (ob_destination r) (ob_action r) (ob_family r).

(** [trait FirewallBackend]. *)
Record FirewallBackend (M : Type) := mkFirewallBackend {
  fb_query : string → Family → io M (option ObservedRule);
  fb_ensure_present : FirewallRuleSpec → io M ();
  fb_ensure_absent : string → string → string → Family → io M ()
}.
Arguments fb_query {M} _ _ _.
Arguments fb_ensure_present {M} _ _.
Arguments fb_ensure_absent {M} _ _ _ _ _.

(** *** iptables *)

Definition IPTABLES_TIMEOUT : Z := 30000.
Definition QUOTE : string := String (Ascii.ascii_of_N 34) "".

Definition iptables_binary (f : Family) : string := match f with Ipv4 => "iptables" | Ipv6 => "ip6tables" end.
Definition iptables_save (f : Family) : string := match f with Ipv4 => "iptables-save" | Ipv6 => "ip6tables-save" end.

Definition flag_value (flag : string) (v : option string) : list string := match v with Some v => [flag; v] | None => [] end.
Definition build_match (s : FirewallRuleSpec) : list string :=
  [fw_chain s] ++ (if decide (fw_protocol s = "all") then [] else ["-p"; fw_protocol s]) ++ flag_value "--dport" (option_map pretty (fw_port s)) ++
  flag_value "-s" (fw_source s) ++ flag_value "-d" (fw_destination s) ++ ["-m"; "comment"; "--comment"; "iac:" +:+ fw_name s; "-j"; fw_action s].

(** On the characters; quotes group and are dropped. *)
Fixpoint tokens_go (in_quote : bool) (buf : list N) (cs : list N) : list string :=
  match cs with
  | [] => match buf with [] => [] | _ => [of_chars buf] end
  | c :: cs =>
      if (c =? 34)%N then tokens_go (negb in_quote) buf cs
      else if negb in_quote && is_whitespace c then
        match buf with [] => tokens_go in_quote [] cs | _ => of_chars buf :: tokens_go in_quote [] cs end
      else tokens_go in_quote (buf ++ [c]) cs
  end.
Definition tokenize_iptables (line : string) : list string := tokens_go false [] (chars line).

Definition strip_default_prefix (s : string) : string :=
  match strip_suffix "/32" s with
  | Some rest => if str_contains ":" rest then s else rest
  | None => match strip_suffix "/128" s with Some rest => if str_contains ":" rest then rest else s | None => s end
  end.

(** The walk over the tokens: a flag takes the next one. *)
Fixpoint save_tokens (r : ObservedRule) (ts : list string) : ObservedRule :=
  match ts with
  | t :: (v :: rest) as tail =>
      if decide (t = "-A") then save_tokens (set_chain v r) rest
      else if decide (t = "-p") then save_tokens (set_protocol v r) rest
      else if decide (t = "--dport") then save_tokens (set_port (parse_unsigned u16_max v) r) rest
      else if decide (t = "-s") then save_tokens (set_source (strip_default_prefix v) r) rest
      else if decide (t = "-d") then save_tokens (set_destination (strip_default_prefix v) r) rest
      else if decide (t = "-j") then save_tokens (set_action v r) rest
      else save_tokens r tail
  | _ => r
  end.
Definition parse_save_line (line name : string) (family : Family) : ObservedRule :=
  save_tokens (mkRule name "filter" "" "all" None None None "" family) (tokenize_iptables line).

(** The comment in quotes, or bare: the bare one is a prefix of others. *)
Definition tagged (name line : string) : bool :=
  str_contains ("--comment " +:+ QUOTE +:+ "iac:" +:+ name +:+ QUOTE) line || str_contains ("--comment iac:" +:+ name) line.

(** The number of the first tagged rule, among the rules listed. *)
Fixpoint rule_index (name : string) (index : nat) (lines : list string) : option nat :=
  match lines with
  | [] => None
  | line :: lines =>
      if starts_with "-A " line then if tagged name line then Some (S index) else rule_index name (S index) lines
      else rule_index name index lines
  end.

Section Backends.
Context {H : Type} `{!Programs H}.

Definition firewall_run (argv : list string) (timeout : Z) : io (Machine * H) (bool * string * string) :=
  let program := default "" (head argv) in run_with_status (mkCommand program (tail argv) "" timeout) "firewall" [Txt program].
Definition iptables_run (argv : list string) := firewall_run argv IPTABLES_TIMEOUT.
Definition firewall_failed {A} (what : message) (stderr : string) : CoreResult A :=
  Err (EProvider "firewall" (what ++ [Txt " failed: "; Txt (trim stderr)])).

Definition iptables_query (name : string) (family : Family) : io (Machine * H) (option ObservedRule) :=
  let* out := iptables_run [iptables_save family] in
  let '(ok, stdout, stderr) := out in
  io_lift (
    if negb ok then firewall_failed [Txt (iptables_save family)] stderr
    else Ok (option_map (λ line, parse_save_line line name family) (List.find (tagged name) (str_lines stdout)))).

Definition iptables_ensure_absent (name table chain : string) (family : Family) : io (Machine * H) () :=
  let bin := iptables_binary family in
  let* out := iptables_run [bin; "-t"; table; "-S"; chain] in
  let '(ok, stdout, _) := out in
  if negb ok then io_ret ()
  else
    match rule_index name 0 (str_lines stdout) with
    | None => io_ret ()
    | Some index =>
        let* out := iptables_run [bin; "-t"; table; "-D"; chain; pretty index] in
        let '(ok, _, stderr) := out in
        io_lift (if ok : bool then Ok () else firewall_failed [Txt bin; Txt " -D "; Txt chain] stderr)
    end.

Definition iptables_ensure_present (s : FirewallRuleSpec) : io (Machine * H) () :=
  let bin := iptables_binary (fw_family s) in
  io_ignore (iptables_ensure_absent (fw_name s) (fw_table s) (fw_chain s) (fw_family s)) ;*
  let* out := iptables_run ([bin; "-t"; fw_table s; "-A"] ++ build_match s) in
  let '(ok, _, stderr) := out in
  io_lift (if ok : bool then Ok () else firewall_failed [Txt bin; Txt " -A"] stderr).

Definition IptablesBackend : FirewallBackend (Machine * H) := {|
  fb_query := iptables_query;
  fb_ensure_present := iptables_ensure_present;
  fb_ensure_absent := iptables_ensure_absent
|}.

(** *** nftables *)

Definition NFT_TIMEOUT : Z := 30000.
Definition family_str (f : Family) : string := match f with Ipv4 => "ip" | Ipv6 => "ip6" end.
Definition action_str (action : string) : string := to_ascii_lowercase action.

Definition build_match_body (s : FirewallRuleSpec) : string :=
  str_join " " (
    match fw_source s with Some a => [family_str (fw_family s) +:+ " saddr " +:+ a] | None => [] end ++
    match fw_destination s with Some a => [family_str (fw_family s) +:+ " daddr " +:+ a] | None => [] end ++
    (if has_ports (fw_protocol s) then
       match fw_port s with Some p => [fw_protocol s +:+ " dport " +:+ pretty p] | None => ["ip protocol " +:+ fw_protocol s] end
     else if decide (fw_protocol s = "icmp") then ["ip protocol icmp"] else [])).

Definition build_add_rule_argv (s : FirewallRuleSpec) : list string :=
  let body := build_match_body s in
  ["nft"; "-e"; "add rule " +:+ family_str (fw_family s) +:+ " " +:+ fw_table s +:+ " " +:+ fw_chain s +:+ " " +:+
                (if decide (body = "") then "" else body +:+ " ") +:+
                action_str (fw_action s) +:+ " comment " +:+ QUOTE +:+ "iac:" +:+ fw_name s +:+ QUOTE].
Definition build_list_table_argv (f : Family) (table : string) : list string := ["nft"; "-a"; "list"; "table"; family_str f; table].
Definition build_delete_handle_argv (f : Family) (table chain : string) (handle : Z) : list string :=
  ["nft"; "delete"; "rule"; family_str f; table; chain; "handle"; pretty handle].

(** What follows the last occurrence of a text. *)
Fixpoint after_last (pat s : string) : option string :=
  match s with
  | "" => strip_prefix pat ""
  | String _ s' => match after_last pat s' with Some r => Some r | None => strip_prefix pat s end
  end.
Definition parse_handle_annotation (line : string) : option Z :=
  rest ← after_last "# handle " line; token ← head (split_whitespace rest); parse_unsigned u64_max token.

Definition to_ascii_uppercase (s : string) : string :=
  of_chars (map (λ c, if ((97 <=? c) && (c <=? 122))%N then (c - 32)%N else c) (chars s)).

Definition nft_action (t : string) (r : ObservedRule) : ObservedRule :=
  if bool_decide (t ∈ ["accept"; "drop"; "reject"]) then set_action (to_ascii_uppercase t) r else r.
Fixpoint nft_tokens (r : ObservedRule) (ts : list string) : ObservedRule :=
  match ts with
  | [] => r
  | t :: (k :: v :: rest) as tail =>
      if bool_decide (t ∈ ["ip"; "ip6"]) && bool_decide (k = "saddr") then nft_tokens (set_source v r) rest
      else if bool_decide (t ∈ ["ip"; "ip6"]) && bool_decide (k = "daddr") then nft_tokens (set_destination v r) rest
      else if bool_decide (t ∈ ["ip"; "ip6"]) && bool_decide (k = "protocol") then nft_tokens (set_protocol v r) rest
      else if has_ports t && bool_decide (k = "dport") then nft_tokens (set_port (parse_unsigned u16_max v) (set_protocol t r)) rest
      else nft_tokens (nft_action t r) tail
  | t :: tail => nft_tokens (nft_action t r) tail
  end.
Definition parse_nft_rule_line (line name : string) (family : Family) : ObservedRule :=
  nft_tokens (mkRule name "" "" "all" None None None "" family) (split_whitespace line).

Definition nft_needle (name : string) : string := "comment " +:+ QUOTE +:+ "iac:" +:+ name +:+ QUOTE.

(** The descent through the rules, with the table and the chain it is in. *)
Fixpoint nft_find (name : string) (family : Family) (table chain : string) (lines : list string) : option ObservedRule :=
  match lines with
  | [] => None
  | line :: lines =>
      let trimmed := trim line in
      match strip_prefix "table " trimmed with
      | Some rest => nft_find name family (default "" (split_whitespace rest !! 1)) "" lines
      | None =>
          match strip_prefix "chain " trimmed with
          | Some rest => nft_find name family table (default "" (head (split_whitespace rest))) lines
          | None =>
              if str_contains (nft_needle name) line then Some (set_place table chain (parse_nft_rule_line line name family))
              else nft_find name family table chain lines
          end
      end
  end.

(** The handle of the first line with the comment that has one. *)
Definition nft_handle (name : string) (lines : list string) : option Z :=
  head (omap parse_handle_annotation (List.filter (str_contains (nft_needle name)) lines)).

Definition nft_run (argv : list string) := firewall_run argv NFT_TIMEOUT.

Definition nft_query (name : string) (family : Family) : io (Machine * H) (option ObservedRule) :=
  let* out := nft_run ["nft"; "-a"; "list"; "ruleset"] in
  let '(ok, stdout, stderr) := out in
  io_lift (if negb ok then firewall_failed [Txt "nft list"] stderr else Ok (nft_find name family "" "" (str_lines stdout))).

Definition nft_ensure_absent (name table chain : string) (family : Family) : io (Machine * H) () :=
  let* out := nft_run (build_list_table_argv family table) in
  let '(ok, stdout, _) := out in
  if negb ok then io_ret ()
  else
    match nft_handle name (str_lines stdout) with
    | None => io_ret ()
    | Some handle =>
        let* out := nft_run (build_delete_handle_argv family table chain handle) in
        let '(ok, _, stderr) := out in
        io_lift (if ok : bool then Ok () else firewall_failed [Txt "nft delete rule"] stderr)
    end.

Definition nft_ensure_present (s : FirewallRuleSpec) : io (Machine * H) () :=
  io_ignore (nft_ensure_absent (fw_name s) (fw_table s) (fw_chain s) (fw_family s)) ;*
  let* out := nft_run (build_add_rule_argv s) in
  let '(ok, _, stderr) := out in
  io_lift (if ok : bool then Ok () else firewall_failed [Txt "nft add rule"] stderr).

Definition NftablesBackend : FirewallBackend (Machine * H) := {|
  fb_query := nft_query;
  fb_ensure_present := nft_ensure_present;
  fb_ensure_absent := nft_ensure_absent
|}.

(** Which one the environment asks for ([FirewallProvider::new]). *)
Definition choose_backend (env : option string) : FirewallBackend (Machine * H) :=
  match env with
  | Some raw => if bool_decide (to_ascii_lowercase (trim raw) ∈ ["nft"; "nftables"]) then NftablesBackend else IptablesBackend
  | None => IptablesBackend
  end.
End Backends.

(** *** In memory

    [MockFirewall]: the rules, in the order they were made. *)

Definition rule_of (s : FirewallRuleSpec) : ObservedRule :=
  mkRule (fw_name s) (fw_table s) (fw_chain s) (fw_protocol s) (fw_port s) (fw_source s) (fw_destination s) (fw_action s) (fw_family s).
Definition is_rule (name : string) (family : Family) (r : ObservedRule) : bool := bool_decide (ob_name r = name) && bool_decide (ob_family r = family).
Definition MockFirewall : FirewallBackend (list ObservedRule) := {|
  fb_query name family rules := (Ok (List.find (is_rule name family) rules), rules);
  fb_ensure_present s rules := (Ok (), List.filter (λ r, negb (is_rule (fw_name s) (fw_family s) r)) rules ++ [rule_of s]);
  fb_ensure_absent name _ _ family rules := (Ok (), List.filter (λ r, negb (is_rule name family r)) rules)
|}.

(** ** The operations *)

Inductive FirewallAction := FirewallUpsert | FirewallDelete.
Definition firewall_actions : list (string * FirewallAction) := [("firewall.upsert", FirewallUpsert); ("firewall.delete", FirewallDelete)].
Definition firewall_action_name (a : FirewallAction) : string := match a with FirewallUpsert => "firewall.upsert" | FirewallDelete => "firewall.delete" end.
Definition family_name (f : Family) : string := match f with Ipv4 => "ipv4" | Ipv6 => "ipv6" end.

(** [{:?}] of an optional number. *)
Definition debug_port (o : option Z) : string := match o with Some n => "Some(" +:+ pretty n +:+ ")" | None => "None" end.

Section FirewallProvider.
Context {M W : Type} `{ExecEnv, DebugText} (backend : FirewallBackend M).
Context (serde_error : Json → string) (stamp : M → string).

Definition rule_from_value (v : Json) : result message FirewallRuleSpec :=
  spec ← ok_or (rule_fields v) [Ext (serde_error v)]; _ ← validate_rule spec; Ok spec.
Definition rule_spec_of (r : Resource) : CoreResult FirewallRuleSpec := parse_spec "firewall.rule" rule_from_value r.

Definition text_member (k : string) (o : option string) : list (string * Json) := match o with Some s => [(k, JString s)] | None => [] end.
Definition rule_value (r : ObservedRule) : Json :=
  JObject ([("name", JString (ob_name r)); ("chain", JString (ob_chain r)); ("protocol", JString (ob_protocol r))] ++
           match ob_port r with Some p => [("port", JNum p)] | None => [] end ++ text_member "source" (ob_source r) ++
           text_member "destination" (ob_destination r) ++ [("action", JString (ob_action r)); ("family", JString (family_name (ob_family r)))]).
Definition rule_observation (rule : option ObservedRule) (now : string) : ObservedState :=
  match rule with
  | None => mkObserved false JNull [("present", JBool false)] now
  | Some r => mkObserved true (rule_value r) [("present", JBool true)] now
  end.
Definition observe_rule (s : FirewallRuleSpec) : io M ObservedState :=
  let* rule := fb_query backend (fw_name s) (fw_family s) in λ m, (Ok (rule_observation rule (stamp m)), m).

Definition get_str (o : ObservedState) (k : string) : option string := v ← json_get (obs_spec o) k; as_str v.
Definition cmp_str (field : string) (obs des : option string) : list (FieldChange * string) :=
  if decide (obs = des) then []
  else [(mkChange field (option_map JString obs) (option_map JString des) false,
         field +:+ " " +:+ debug_text (default "" obs) +:+ " -> " +:+ debug_text (default "" des))].

(** [get_num("port").map(|p| p as u16)]. *)
Definition observed_port (o : ObservedState) : option Z := n ← (v ← json_get (obs_spec o) "port"; unsigned_of u64_max v); Some (n `mod` 65536)%Z.

Definition rule_changes (s : FirewallRuleSpec) (o : ObservedState) : list (FieldChange * string) :=
  cmp_str "chain" (get_str o "chain") (Some (fw_chain s)) ++ cmp_str "protocol" (get_str o "protocol") (Some (fw_protocol s)) ++
  cmp_str "source" (get_str o "source") (fw_source s) ++ cmp_str "destination" (get_str o "destination") (fw_destination s) ++
  cmp_str "action" (get_str o "action") (Some (fw_action s)) ++
  (if decide (observed_port o = fw_port s) then []
   else [(mkChange "port" (option_map JNum (observed_port o)) (option_map JNum (fw_port s)) false,
          "port " +:+ debug_port (observed_port o) +:+ " -> " +:+ debug_port (fw_port s))]).

Definition present_change (from to : bool) : FieldChange := mkChange "present" (Some (JBool from)) (Some (JBool to)) false.

Definition diff_rule (s : FirewallRuleSpec) (o : ObservedState) : Diff :=
  match fw_state s, default false (v ← assoc_get "present" (obs_facts o); as_bool v) with
  | FirewallAbsent, false => no_change
  | FirewallAbsent, true => mkDiff Update [present_change true false] ["delete firewall rule " +:+ fw_name s] true
  | FirewallPresent, false => mkDiff Create [present_change false true] ["create firewall rule " +:+ fw_name s] true
  | FirewallPresent, true =>
      match rule_changes s o with
      | [] => no_change
      | changes => mkDiff Update (map fst changes) (map snd changes) true
      end
  end.

Definition plan_rule (s : FirewallRuleSpec) (d : Diff) (n : nat) : list Step * nat :=
  if negb (is_change d) then ([], n)
  else let action := match fw_state s with FirewallPresent => FirewallUpsert | FirewallAbsent => FirewallDelete end in
       ([step_new (ulid_at n) (firewall_action_name action) ("firewall.rule/" +:+ fw_name s) (JObject [("name", JString (fw_name s))])], S n).

Definition opt_member (o : option string) : Json := match o with Some s => JString s | None => JNull end.
Definition rule_json (r : ObservedRule) : Json :=
  JObject [("action", JString (ob_action r)); ("chain", JString (ob_chain r)); ("destination", opt_member (ob_destination r));
           ("family", JString (family_name (ob_family r))); ("name", JString (ob_name r));
           ("port", match ob_port r with Some p => JNum p | None => JNull end); ("protocol", JString (ob_protocol r));
           ("source", opt_member (ob_source r)); ("table", JString (ob_table r))].
Definition pre_apply_rule (s : FirewallRuleSpec) : io M Json :=
  let* rule := fb_query backend (fw_name s) (fw_family s) in
  io_ret (JObject [("previous", match rule with Some r => rule_json r | None => JNull end)]).

Definition apply_rule (s : FirewallRuleSpec) (step : Step) : io M StepResult :=
  let* action := io_lift (parse_action "FirewallAction" firewall_actions (st_action step)) in
  match action with
  | FirewallUpsert => fb_ensure_present backend s ;* io_ret (step_result_ok [Txt "upserted firewall rule "; Txt (fw_name s)])
  | FirewallDelete =>
      fb_ensure_absent backend (fw_name s) (fw_table s) (fw_chain s) (fw_family s) ;*
      io_ret (step_result_ok [Txt "deleted firewall rule "; Txt (fw_name s)])
  end.

(** The rule to bring back, from the checkpoint. *)
Definition previous_rule (s : FirewallRuleSpec) (p : Json) : FirewallRuleSpec :=
  let text k d := default d (v ← json_get p k; as_str v) in
  let opt k := v ← json_get p k; as_str v in
  mkRuleSpec (text "name" (fw_name s)) (text "table" "filter") (text "chain" "INPUT") (text "protocol" "all")
    (n ← (v ← json_get p "port"; unsigned_of u64_max v); if (n <=? u16_max)%Z then Some n else None)
    (opt "source") (opt "destination") (text "action" "ACCEPT") (if decide (opt "family" = Some "ipv6") then Ipv6 else Ipv4) FirewallPresent.

Definition rollback_rule (s : FirewallRuleSpec) (checkpoint : Json) : io M () :=
  match json_get checkpoint "previous" with
  | Some JNull | None => fb_ensure_absent backend (fw_name s) (fw_table s) (fw_chain s) (fw_family s)
  | Some p => fb_ensure_present backend (previous_rule s p)
  end.

Definition firewall_provider : Provider M W := {|
  p_observe r m := s ← rule_spec_of r; (observe_rule s m).1;
  p_diff r o := s ← rule_spec_of r; Ok (diff_rule s o);
  p_plan r d n := match rule_spec_of r with Ok s => let '(steps, n) := plan_rule s d n in (Ok steps, n) | Err e => (Err e, n) end;
  p_pre_apply r _ _ := on_machine (let* s := io_lift (rule_spec_of r) in pre_apply_rule s);
  p_apply r step _ := on_machine (let* s := io_lift (rule_spec_of r) in apply_rule s step);
  p_verify r m := s ← rule_spec_of r; o ← (observe_rule s m).1;
                  let d := diff_rule s o in Ok (if is_change d then VMismatch (diff_changes d) else VMatch);
  p_rollback r cp := on_machine (let* s := io_lift (rule_spec_of r) in rollback_rule s (cp_data cp));
  p_capability_keys r := s ← rule_spec_of r; Ok [fw_name s]
|}.
End FirewallProvider.

(** ** Reading back what was written *)

(** Visible ASCII without the double quote. *)
Definition token_byte (a : Ascii.ascii) : bool := (33 <=? byte_of a)%N && (byte_of a <? 127)%N && negb (byte_of a =? 34)%N.
Definition bare (s : string) : bool := forallb token_byte (String.list_ascii_of_string s).

Lemma list_ascii_app s t : String.list_ascii_of_string (s +:+ t) = String.list_ascii_of_string s ++ String.list_ascii_of_string t.
Proof. induction s as [|a s IH]; [done|]. change (String a s +:+ t) with (String a (s +:+ t)). cbn. by rewrite IH. Qed.

Lemma bare_app s t : bare (s +:+ t) = bare s && bare t.
Proof. unfold bare. by rewrite list_ascii_app, forallb_app. Qed.

Lemma ascii_text_app s t : ascii_text (s +:+ t) = ascii_text s && ascii_text t.
Proof. unfold ascii_text. by rewrite list_ascii_app, forallb_app. Qed.

Lemma token_byte_spec a : token_byte a = true → (33 ≤ byte_of a < 127)%N ∧ byte_of a ≠ 34%N.
Proof. unfold token_byte. rewrite !andb_true_iff, negb_true_iff, N.leb_le, N.ltb_lt, N.eqb_neq. lia. Qed.

Lemma bare_ascii s : bare s = true → ascii_text s = true.
Proof.
  unfold bare, ascii_text. rewrite !forallb_forall. intros Hb a Ha. apply Hb, token_byte_spec in Ha. apply N.ltb_lt. lia.
Qed.

(** *** Tokens *)

Lemma token_text_step bytes : ∀ buf cs, forallb token_byte bytes = true →
  tokens_go false buf (map byte_of bytes ++ cs) = tokens_go false (buf ++ map byte_of bytes) cs.
Proof.
  induction bytes as [|a bytes IH]; intros buf cs; [by rewrite app_nil_r|]. cbn [forallb map app]. intros [Ha Hb]%andb_true_iff.
  apply token_byte_spec in Ha. cbn [tokens_go]. rewrite (proj2 (N.eqb_neq _ _)) by tauto.
  assert (is_whitespace (byte_of a) = false) as ->.
  { unfold is_whitespace. rewrite !orb_false_iff, !andb_false_iff, bool_decide_eq_false, !N.leb_gt, !elem_of_cons, elem_of_nil. lia. }
  cbn [negb andb]. rewrite IH by done. by rewrite <- app_assoc.
Qed.

(** Bare words joined by blanks are the tokens. *)
Lemma tokens_joined ts : Forall (λ t, bare t = true ∧ t ≠ "") ts → tokenize_iptables (str_join " " ts) = ts.
Proof.
  intros Hts. assert (ascii_text (str_join " " ts) = true) as Ha.
  { induction Hts as [|t ts [Hb _] _ IH]; [done|]. destruct ts as [|u ts]; [by apply bare_ascii|].
    change (str_join " " (t :: u :: ts)) with (t +:+ " " +:+ str_join " " (u :: ts)). rewrite !ascii_text_app, IH, (bare_ascii t) by done. done. }
  unfold tokenize_iptables. rewrite chars_ascii by done. clear Ha. induction Hts as [|t ts [Hb Hne] Hts IH]; [done|].
  assert (∀ rest, tokens_go false [] (map byte_of (String.list_ascii_of_string t) ++ rest) =
            tokens_go false (map byte_of (String.list_ascii_of_string t)) rest) as Ht by (intros rest; by apply (token_text_step _ [])).
  pose proof (of_chars_ascii t (bare_ascii t Hb)) as Hof. destruct t as [|a t]; [done|]. destruct ts as [|u ts].
  - change (str_join " " [String a t]) with (String a t). rewrite <- (app_nil_r (map _ _)), Ht. cbn [String.list_ascii_of_string map tokens_go].
    f_equal. exact Hof.
  - change (str_join " " (String a t :: u :: ts)) with (String a t +:+ " " +:+ str_join " " (u :: ts)).
    rewrite !list_ascii_app, !map_app, Ht. change (map byte_of (String.list_ascii_of_string " ")) with [32%N].
    cbn [app tokens_go]. change (32 =? 34)%N with false. change (negb false && is_whitespace 32) with true. cbv iota.
    rewrite IH. cbn [String.list_ascii_of_string map]. f_equal. exact Hof.
Qed.

(** *** The texts of a checked spec are bare *)

Lemma digits_bare acc s z : parse_digits acc s = Some z → bare s = true.
Proof.
  revert acc. induction s as [|a s IH]; intros acc; [done|]. cbn [parse_digits]. destruct (is_ascii_digit (byte_of a)) eqn:Ha; [|done].
  intros Hs. unfold bare. cbn [String.list_ascii_of_string forallb]. fold (bare s). rewrite (IH _ Hs), andb_true_r.
  revert Ha. unfold is_ascii_digit, token_byte. rewrite !andb_true_iff, negb_true_iff, !N.leb_le, N.ltb_lt, N.eqb_neq. lia.
Qed.

Lemma unsigned_bare max s z : parse_unsigned max s = Some z → bare s = true ∧ s ≠ "".
Proof.
  unfold parse_unsigned. intros Hp. destruct (strip_prefix "+" s) as [r|] eqn:E.
  - apply strip_prefix_spec in E as ->. destruct r as [|a r]; [done|]. apply bind_Some in Hp as (z' & Hp & _).
    rewrite bare_app, (digits_bare _ _ _ Hp). done.
  - destruct s as [|a s]; [done|]. apply bind_Some in Hp as (z' & Hp & _). by rewrite (digits_bare _ _ _ Hp).
Qed.

Lemma pretty_bare z : (0 ≤ z ≤ u16_max)%Z → bare (pretty z) = true ∧ pretty z ≠ "".
Proof. intros Hz. by apply (unsigned_bare u16_max _ z), parse_unsigned_pretty. Qed.

Lemma split_on_bare c s : token_byte c = true → Forall (λ x, bare x = true) (split_on c s) → bare s = true.
Proof.
  intros Hc. induction s as [|a s IH]; [done|]. cbn [split_on]. destruct (Ascii.eqb_spec a c) as [->|Hne].
  - intros [_ Hs]%Forall_cons. change (String c s) with (String c "" +:+ s). rewrite bare_app, IH by done. unfold bare. cbn. by rewrite Hc.
  - destruct (split_on_cons c s) as (x & xs & E). rewrite E in *. intros [Hx Hxs]%Forall_cons.
    change (String a s) with (String a "" +:+ s). change (String a x) with (String a "" +:+ x) in Hx. rewrite bare_app in Hx |- *.
    apply andb_true_iff in Hx as [-> Hx]. apply IH. by constructor.
Qed.

Lemma bare_of_chars p s t : is_utf8 (s +:+ t) → (∀ c, p c = true → (33 ≤ c < 127)%N ∧ c ≠ 34%N) → all_chars p s = true → bare s = true.
Proof.
  intros Hu Hp Hs. unfold all_chars in Hs. assert (ascii_text s = true) as Ha.
  { apply (ascii_from_chars s t Hu). revert Hs. rewrite !forallb_forall. intros Hs c [Hc _]%Hs%Hp. apply N.ltb_lt. lia. }
  rewrite chars_ascii in Hs by done. unfold bare. rewrite !forallb_forall in *. intros a Hin.
  destruct (Hp (byte_of a)) as [H1 H2]; [by apply Hs, in_map|]. unfold token_byte. rewrite !andb_true_iff, negb_true_iff, N.leb_le, N.ltb_lt, N.eqb_neq. lia.
Qed.

Lemma name_bare s : is_utf8 s → validate_rule_name s = Ok () → bare s = true.
Proof.
  unfold validate_rule_name. intros Hu. destruct (decide _); [done|]. destruct (200 <? _); [done|]. destruct (all_chars rule_name_char s) eqn:E; [|done].
  intros _. apply (bare_of_chars rule_name_char s ""); [by rewrite str_app_nil_r| |done]. intros c. unfold rule_name_char, is_ascii_alphanumeric, is_ascii_digit, is_ascii_alphabetic.
  rewrite !orb_true_iff, !andb_true_iff, bool_decide_eq_true, !N.leb_le, !elem_of_cons, elem_of_nil. lia.
Qed.

Lemma prefix_bare addr v max p : validate_prefix addr v max (Some p) = Ok () → bare p = true.
Proof. unfold validate_prefix. destruct (parse_unsigned _ p) as [n|] eqn:E; [|done]. intros _. by eapply unsigned_bare. Qed.

Lemma octets_bare addr os u : try_map (validate_octet addr) os = Ok u → Forall (λ x, bare x = true) os.
Proof.
  revert u. induction os as [|o os IH]; intros u; [constructor|]. cbn [try_map]. intros (? & Ho & (us & Hos & _)%bind_Ok_inv)%bind_Ok_inv.
  constructor; [|by eapply IH]. unfold validate_octet in Ho. destruct (parse_unsigned _ o) as [n|] eqn:E; [|done]. by eapply unsigned_bare.
Qed.

Lemma addr_bare a f : is_utf8 a → validate_addr a f = Ok () → bare a = true ∧ a ≠ "".
Proof.
  unfold validate_addr. intros Hu. destruct (decide (a = "")); [done|]. destruct (contains_any _ a); [done|]. intros Hv. split; [|done].
  assert (∀ host rest v max p, a = host +:+ rest → bare rest = true ∨ (∃ q, p = Some q ∧ rest = "/" +:+ q) →
    match f with
    | Ipv4 => if negb (length (split_on dot host) =? 4) then Err [Dbg a; Txt " not a valid IPv4 address (4 octets expected)"]
              else _ ← try_map (validate_octet a) (split_on dot host); validate_prefix a v max p
    | Ipv6 => if negb (str_contains ":" host) then Err [Dbg a; Txt " not a valid IPv6 address (':' expected)"]
              else if negb (all_chars (λ c, is_hexdigit c || (c =? 58)%N) host) then Err [Dbg a; Txt " contains non-hex characters"]
              else validate_prefix a v max p
    end = Ok () → bare a = true) as Hgen.
  { intros host rest v max p -> Hrest Hf. rewrite bare_app. apply andb_true_iff.
    assert (validate_prefix (host +:+ rest) v max p = Ok () → bare rest = true) as Hr.
    { destruct Hrest as [?|(q & -> & ->)]; [done|]. intros Hq%prefix_bare. by rewrite bare_app, Hq. }
    destruct f.
    - destruct (negb _); [done|]. apply bind_Ok_inv in Hf as (us & Hos & Hp). split; [|by apply Hr].
      apply (split_on_bare dot); [done|]. by eapply octets_bare.
    - destruct (negb (str_contains _ _)); [done|]. destruct (all_chars _ host) eqn:E; [|done]. split; [|by apply Hr].
      apply (bare_of_chars _ host rest Hu) in E; [done|]. intros c. unfold is_hexdigit, is_ascii_digit.
      rewrite !orb_true_iff, !andb_true_iff, !N.leb_le, N.eqb_eq. lia. }
  destruct (split_once "/" a) as [[h p]|] eqn:Es.
  - apply split_once_sound in Es. destruct f; [eapply (Hgen h ("/" +:+ p) "IPv4" 32%Z (Some p))|eapply (Hgen h ("/" +:+ p) "IPv6" 128%Z (Some p))];
      [done|right; by exists p|exact Hv|done|right; by exists p|exact Hv].
  - destruct f; [eapply (Hgen a "" "IPv4" 32%Z None)|eapply (Hgen a "" "IPv6" 128%Z None)];
      [by rewrite str_app_nil_r|by left|exact Hv|by rewrite str_app_nil_r|by left|exact Hv].
Qed.

(** *** The rule *)

Lemma cmp_str_nil `{DebugText} field obs des : cmp_str field obs des = [] ↔ obs = des.
Proof. unfold cmp_str. by destruct (decide (obs = des)). Qed.

Lemma one_of_spec what values v : one_of what values v = Ok () → v ∈ values.
Proof. unfold one_of. by case_bool_decide. Qed.

(** The parts of a checked spec that reach the command line. *)
Lemma valid_rule s : validate_rule s = Ok () →
  validate_rule_name (fw_name s) = Ok () ∧ fw_chain s ∈ ["INPUT"; "OUTPUT"; "FORWARD"; "PREROUTING"; "POSTROUTING"] ∧
  fw_protocol s ∈ ["tcp"; "udp"; "icmp"; "all"] ∧ fw_action s ∈ ["ACCEPT"; "DROP"; "REJECT"] ∧
  (∀ a, fw_source s = Some a ∨ fw_destination s = Some a → validate_addr a (fw_family s) = Ok ()).
Proof.
  unfold validate_rule. intros ([] & Hn & ([] & Ht & ([] & Hc & ([] & Hp & (_ & _ & (_ & _ & ([] & Hs & ([] & Hd & Ha)%bind_Ok_inv)%bind_Ok_inv)%bind_Ok_inv)%bind_Ok_inv)%bind_Ok_inv)%bind_Ok_inv)%bind_Ok_inv)%bind_Ok_inv.
  apply one_of_spec in Ht, Hp, Ha. split_and!; [done| |done|done|].
  - unfold validate_chain in Hc. rewrite !elem_of_cons, elem_of_nil in Ht.
    destruct (chains_of (fw_table s)) as [valid|] eqn:E; [|done]. case_bool_decide as Hin; [|done]. revert Hin. clear -Ht E.
    destruct Ht as [Ht|[Ht|[Ht|[]]]]; rewrite Ht in E; vm_compute in E; injection E as <-; rewrite !elem_of_cons, elem_of_nil; tauto.
  - intros a Hor. unfold validate_opt_addr in *. destruct Hor as [E|E]; rewrite E in *.
    + destruct (validate_addr a _) as [[]|]; done.
    + destruct (validate_addr a _) as [[]|]; done.
Qed.

Lemma bare_values values v : Forall (λ t, bare t = true ∧ t ≠ "") values → v ∈ values → bare v = true ∧ v ≠ "".
Proof. rewrite Forall_forall. auto. Qed.

Lemma match_bare s : validate_rule s = Ok () → is_utf8 (fw_name s) →
  (∀ a, fw_source s = Some a ∨ fw_destination s = Some a → is_utf8 a) → (∀ p, fw_port s = Some p → (0 ≤ p ≤ u16_max)%Z) →
  Forall (λ t, bare t = true ∧ t ≠ "") ("-A" :: build_match s).
Proof.
  intros (Hn & Hc & Hp & Ha & Haddr)%valid_rule Hun Hua Hport.
  assert (bare (fw_chain s) = true ∧ fw_chain s ≠ "") as Hc' by (eapply bare_values, Hc; by repeat constructor).
  assert (bare (fw_protocol s) = true ∧ fw_protocol s ≠ "") as Hp' by (eapply bare_values, Hp; by repeat constructor).
  assert (bare (fw_action s) = true ∧ fw_action s ≠ "") as Ha' by (eapply bare_values, Ha; by repeat constructor).
  assert (∀ flag o, bare flag = true ∧ flag ≠ "" → (∀ v, o = Some v → bare v = true ∧ v ≠ "") →
            Forall (λ t, bare t = true ∧ t ≠ "") (flag_value flag o)) as Hflag.
  { intros flag [v|] Hf Hv; repeat constructor; try apply Hf; by apply Hv. }
  constructor; [done|]. unfold build_match. rewrite !Forall_app. split_and!.
  - by constructor.
  - destruct (decide _); [constructor|]. by do 2 (constructor; [done|]).
  - apply Hflag; [done|]. intros v Hv. destruct (fw_port s) as [p|]; [|done]. injection Hv as <-. by apply pretty_bare, Hport.
  - apply Hflag; [done|]. intros v Hv. eapply addr_bare; [apply Hua|apply Haddr]; by left.
  - apply Hflag; [done|]. intros v Hv. eapply addr_bare; [apply Hua|apply Haddr]; by right.
  - do 3 (constructor; [done|]). constructor; [|by do 2 (constructor; [done|])]. split; [|done]. rewrite bare_app. by rewrite (name_bare _ Hun Hn).
Qed.

(** The rule as the line shows it. *)
Definition shown_rule (s : FirewallRuleSpec) : ObservedRule :=
  mkRule (fw_name s) "filter" (fw_chain s) (fw_protocol s) (fw_port s) (option_map strip_default_prefix (fw_source s))
    (option_map strip_default_prefix (fw_destination s)) (fw_action s) (fw_family s).

Lemma save_tokens_match s : (∀ p, fw_port s = Some p → (0 ≤ p ≤ u16_max)%Z) →
  save_tokens (mkRule (fw_name s) "filter" "" "all" None None None "" (fw_family s)) ("-A" :: build_match s) = shown_rule s.
Proof.
  intros Hport. transitivity (set_port (p ← fw_port s; parse_unsigned u16_max (pretty p)) (shown_rule s)).
  - clear Hport. destruct s as [name table chain protocol port source destination action family st].
    unfold build_match, shown_rule. cbn [fw_name fw_chain fw_protocol fw_port fw_source fw_destination fw_action fw_family].
    by destruct (decide (protocol = "all")) as [->|_], port as [p|], source as [src|], destination as [dst|].
  - unfold shown_rule, set_port. cbn. destruct (fw_port s) as [p|] eqn:E; [|done]. cbn. by rewrite parse_unsigned_pretty by by apply Hport.
Qed.

Lemma shown_rule_changes `{DebugText} s now : (∀ p, fw_port s = Some p → (0 ≤ p ≤ u16_max)%Z) →
  rule_changes s (rule_observation (Some (shown_rule s)) now) = [] ↔
    option_map strip_default_prefix (fw_source s) = fw_source s ∧ option_map strip_default_prefix (fw_destination s) = fw_destination s.
Proof.
  intros Hport. set (o := rule_observation (Some (shown_rule s)) now).
  assert (get_str o "chain" = Some (fw_chain s) ∧ get_str o "protocol" = Some (fw_protocol s) ∧ get_str o "action" = Some (fw_action s) ∧
          get_str o "source" = option_map strip_default_prefix (fw_source s) ∧
          get_str o "destination" = option_map strip_default_prefix (fw_destination s)) as (Hc & Hp & Ha & Hs & Hd).
  { subst o. unfold get_str, rule_observation, shown_rule. cbn [obs_spec rule_value].
    destruct (fw_port s), (fw_source s), (fw_destination s); split_and!; reflexivity. }
  assert (observed_port o = fw_port s) as Hpo.
  { subst o. unfold observed_port, shown_rule. cbn [obs_spec rule_observation]. destruct (fw_port s) as [p|] eqn:Ep.
    - specialize (Hport p eq_refl). change (json_get _ "port") with (Some (JNum p)). cbn [mbind option_bind]. unfold unsigned_of, JNum.
      unfold u16_max in Hport. rewrite parse_unsigned_pretty by (unfold u64_max; lia). cbn [mbind option_bind]. f_equal. apply Z.mod_small. lia.
    - destruct (fw_source s), (fw_destination s); reflexivity. }
  unfold rule_changes. rewrite Hc, Hp, Ha, Hs, Hd, Hpo, decide_True, app_nil_r by done.
  rewrite !app_nil, !cmp_str_nil. tauto.
Qed.

Lemma contains_app pat s t : str_contains pat (s +:+ pat +:+ t) = true.
Proof.
  unfold str_contains. induction s as [|a s IH].
  - change ("" +:+ pat +:+ t) with (pat +:+ t). destruct pat as [|a pat]; [by destruct t|].
    change (String a pat +:+ t) with (String a (pat +:+ t)). cbn [split_once]. 
    destruct (strip_prefix (String a pat) (String a (pat +:+ t))) as [r|] eqn:E; [done|].
    assert (strip_prefix (String a pat) (String a (pat +:+ t)) = Some t) as E' by by apply strip_prefix_spec. congruence.
  - change (String a s +:+ pat +:+ t) with (String a (s +:+ pat +:+ t)). cbn [split_once].
    destruct (strip_prefix pat _); [done|]. by destruct (split_once pat (s +:+ pat +:+ t)) as [[? ?]|].
Qed.

Lemma join_suffix xs ys : ys ≠ [] → ∃ before, str_join " " (xs ++ ys) = before +:+ str_join " " ys.
Proof.
  intros Hys. induction xs as [|x xs [before IH]]; [by exists ""|]. exists (x +:+ " " +:+ before).
  assert (∃ z zs, xs ++ ys = z :: zs) as (z & zs & E) by (destruct xs; [destruct ys; [done|]|]; by do 2 eexists).
  cbn [app]. rewrite E in *. change (str_join " " (x :: z :: zs)) with (x +:+ " " +:+ str_join " " (z :: zs)). by rewrite IH, !str_app_assoc.
Qed.

Lemma line_tagged s : tagged (fw_name s) (str_join " " ("-A" :: build_match s)) = true.
Proof.
  unfold tagged. apply orb_true_iff. right. unfold build_match. rewrite !app_assoc, app_comm_cons, app_comm_cons.
  match goal with |- context [str_join " " (?xs ++ ["-m"; "comment"; ?f; ?n; "-j"; ?a])] =>
    change (xs ++ ["-m"; "comment"; f; n; "-j"; a]) with (xs ++ ["-m"; "comment"] ++ [f; n; "-j"; a]) end.
  rewrite app_assoc. match goal with |- context [str_join " " (?xs ++ ?ys)] => destruct (join_suffix xs ys) as [before ->]; [done|] end.
  change (str_join " " ["--comment"; "iac:" +:+ fw_name s; "-j"; fw_action s])
    with ("--comment iac:" +:+ fw_name s +:+ " " +:+ "-j" +:+ " " +:+ fw_action s).
  rewrite <- (str_app_assoc "--comment iac:" (fw_name s)). apply contains_app.
Qed.

Lemma rule_fields_port v s p : rule_fields v = Some s → fw_port s = Some p → (0 ≤ p ≤ u16_max)%Z.
Proof.
  unfold rule_fields. destruct (strict_fields _ v) as [fields|]; [|done].
  do 10 (destruct fields as [|? fields]; [done|]). destruct fields; [|done]. intros H Hp. revert H.
  intros (? & _ & (? & _ & (? & _ & (? & _ & (port & Hport & (? & _ & (? & _ & (? & _ & (? & _ & (? & _ & [= <-])%bind_Some)%bind_Some)%bind_Some)%bind_Some)%bind_Some)%bind_Some)%bind_Some)%bind_Some)%bind_Some)%bind_Some.
  cbn in Hp. subst port. unfold optional_unsigned in Hport.
  match type of Hport with match ?x with _ => _ end = _ => destruct x as [[]|] end; try done;
    apply bind_Some in Hport as (z & Hz & [= ->]); try done. unfold unsigned_of in Hz. by apply parse_unsigned_range in Hz.
Qed.

Lemma option_map_fixed {A} (f : A → A) o : option_map f o = o ↔ ∀ a, o = Some a → f a = a.
Proof.
  destruct o as [x|]; [|done]. cbn. split; [by intros [= E] a [= <-]|]. intros Hf. f_equal. by apply Hf.
Qed.

(** C28: A firewall rule reads back from the line that wrote it. For an
    accepted spec, the rule whose text is the arguments given to [iptables -A]
    is found by its comment, and the comparison of what is read from it with
    the spec finds nothing to do exactly when no address of the spec ends in
    the prefix length of a single host, which the reader strips. The texts
    are UTF-8. *)
Theorem rule_reads_back `{DebugText} serde_error v s now :
  rule_from_value serde_error v = Ok s → fw_state s = FirewallPresent → is_utf8 (fw_name s) →
  (∀ a, fw_source s = Some a ∨ fw_destination s = Some a → is_utf8 a) →
  let line := str_join " " ("-A" :: build_match s) in
  tagged (fw_name s) line = true ∧
  (diff_rule s (rule_observation (Some (parse_save_line line (fw_name s) (fw_family s))) now) = no_change ↔
   ∀ a, fw_source s = Some a ∨ fw_destination s = Some a → strip_default_prefix a = a).
Proof.
  unfold rule_from_value. destruct (rule_fields v) as [s'|] eqn:Hf; [|done]. cbn [ok_or mbind result_bind].
  destruct (validate_rule s') as [[]|e] eqn:Hv; [|done]. cbn [mbind result_bind]. intros [= ->] Hst Hun Hua. cbv zeta. split; [apply line_tagged|].
  assert (∀ p, fw_port s = Some p → (0 ≤ p ≤ u16_max)%Z) as Hport by (intros p; by eapply rule_fields_port).
  unfold parse_save_line. rewrite tokens_joined, save_tokens_match by (done || by apply match_bare).
  pose proof (shown_rule_changes s now Hport) as Hch. unfold diff_rule. rewrite Hst.
  change (default false (v ← assoc_get "present" (obs_facts (rule_observation (Some (shown_rule s)) now)); as_bool v)) with true. cbv iota.
  transitivity (rule_changes s (rule_observation (Some (shown_rule s)) now) = []).
  { destruct (rule_changes s _) as [|c cs]; [done|]. split; [|done]. by intros [=]. }
  rewrite Hch, !option_map_fixed. split; [intros [H1 H2] a [Ha|Ha]; auto|]. intros Hall. split; intros a Ha; apply Hall; auto.
Qed.
