(* ===== verification/Docker.v ===== *)
(** * The docker provider (crates/iac-providers/src/docker/)

    What a container's spec may hold (spec.rs), what [docker inspect] says of
    a container and the commands behind the backend (backend.rs), and the
    operations on it (ops.rs, mod.rs). *)

From stdpp Require Import pretty.
From S2P Require Import Prelude Text Json ApiError Routing Db AuditLog Ids Diff Executor Chars PluginSpec Plugin SpecReader Posix FileProvider.

#[local] Open Scope string_scope.
#[local] Open Scope list_scope.
#[local] Open Scope nat_scope.

Inductive DockerState := DockerPresent | DockerAbsent.
Inductive RestartPolicy := RestartNo | RestartAlways | RestartUnlessStopped | RestartOnFailure.

#[export] Instance DockerState_eq_dec : EqDecision DockerState.
Proof. solve_decision. Defined.

Definition restart_policies : list (string * RestartPolicy) :=
  [("no", RestartNo); ("always", RestartAlways); ("unless-stopped", RestartUnlessStopped); ("on-failure", RestartOnFailure)].
Definition as_docker (p : RestartPolicy) : string :=
  match p with RestartNo => "no" | RestartAlways => "always" | RestartUnlessStopped => "unless-stopped" | RestartOnFailure => "on-failure" end.
Definition restart_parse (s : string) : option RestartPolicy := if decide (s = "") then Some RestartNo else assoc_get s restart_policies.

Record DockerMount := mkMount { mt_type : string; mt_source : option string; mt_target : string; mt_readonly : bool }.
Record DockerHealthcheck := mkHealth { hc_command : string; hc_interval : option string; hc_timeout : option string; hc_retries : option Z }.

Record DockerContainerSpec := mkContainer {
  dk_name : string;
  dk_image : option string;
  dk_state : DockerState;
  dk_env : list (string * string);
  dk_ports : list string;
  dk_restart_policy : RestartPolicy;
  dk_labels : list (string * string);
  dk_command : option (list string);
  dk_healthcheck : option DockerHealthcheck;
  dk_volumes : list string;
  dk_network : option string;
  dk_extra_networks : list string;
  dk_mounts : list DockerMount
}.

(** ** Reading it *)

Definition mount_of (v : Json) : option DockerMount :=
  match strict_fields ["type"; "source"; "target"; "readonly"] v with
  | Some [type; source; target; readonly] =>
      ty ← required_string type; s ← optional_string source; t ← required_string target; r ← bool_or false readonly; Some (mkMount ty s t r)
  | _ => None
  end.

Definition health_of (v : Json) : option DockerHealthcheck :=
  match strict_fields ["command"; "interval"; "timeout"; "retries"] v with
  | Some [command; interval; timeout; retries] =>
      c ← required_string command; i ← optional_string interval; t ← optional_string timeout; r ← optional_unsigned u32_max retries;
      Some (mkHealth c i t r)
  | _ => None
  end.

Definition container_fields (v : Json) : option DockerContainerSpec :=
  match strict_fields ["name"; "image"; "state"; "env"; "ports"; "restart_policy"; "labels"; "command"; "healthcheck"; "volumes"; "network";
                       "extra_networks"; "mounts"] v with
  | Some [name; image; state; env; ports; restart; labels; command; health; volumes; network; extra; mounts] =>
      n ← required_string name; im ← optional_string image;
      st ← enum_or [("present", DockerPresent); ("absent", DockerAbsent)] DockerPresent state;
      e ← texts_or_empty env; p ← strings_or_empty ports; rp ← enum_or restart_policies RestartUnlessStopped restart;
      l ← texts_or_empty labels; c ← optional_of strings_of command; h ← optional_of health_of health; vs ← strings_or_empty volumes;
      nw ← optional_string network; ex ← strings_or_empty extra; ms ← list_or [] mount_of mounts;
      Some (mkContainer n im st e p rp l c h vs nw ex ms)
  | _ => None
  end.

(** ** Checking it *)

Definition nul : string := String (Ascii.ascii_of_N 0) "".
Definition has_nul (s : string) : bool := str_contains nul s.

Definition container_name_char (c : N) : bool := is_ascii_alphanumeric c || bool_decide (c ∈ [95; 46; 45]%N).

Definition validate_container_name (name : string) : result message () :=
  match chars name with
  | [] => Err [Txt "must not be empty"]
  | first :: _ =>
      if negb (is_ascii_alphanumeric first) then Err [Txt "must start with [a-zA-Z0-9]"]
      else match List.find (λ c, negb (container_name_char c)) (chars name) with
           | Some c => Err [Txt "character '"; Txt (utf8 c); Txt "' is not allowed"]
           | None => Ok ()
           end
  end.

(** Blank, tab, newline, semicolon, bar, ampersand, dollar, backquote, the quotes and backslash. *)
Definition image_metacharacters : list N := [32; 9; 10; 59; 124; 38; 36; 96; 34; 39; 92]%N.

Definition validate_image_ref (image : string) : result message () :=
  if decide (image = "") then Err [Txt "must not be empty"]
  else if existsb is_whitespace (chars image) then Err [Txt "must not contain whitespace"]
  else if contains_any image_metacharacters image then Err [Txt "contains a shell metacharacter"]
  else Ok ().

Definition colon : Ascii.ascii := Ascii.ascii_of_N 58.

Definition check_u16 (what : string) (s : string) : result message () :=
  match parse_unsigned 65535 s with Some _ => Ok () | None => Err [Txt what; Txt " port "; Dbg s; Txt " not a valid u16"] end.

(** The binding before a slash, and the protocol after it. *)
Definition split_proto (p : string) : string * option string :=
  match split_once "/" p with Some (b, proto) => (b, Some proto) | None => (p, None) end.

Definition validate_port_spec (p : string) : result message () :=
  let '(binding, proto) := split_proto p in
  '(host, container) ← match split_on colon binding with
                       | [h; c] | [_; h; c] => Ok (h, c)
                       | _ => Err [Txt "expected host:container[/proto] or ip:host:container[/proto]"]
                       end;
  _ ← check_u16 "host" host;
  _ ← check_u16 "container" container;
  match proto with
  | Some proto => if negb (bool_decide (proto ∈ ["tcp"; "udp"; "sctp"])) then Err [Txt "protocol "; Dbg proto; Txt " not in (tcp,udp,sctp)"] else Ok ()
  | None => Ok ()
  end.

Definition env_kv (env : list (string * string)) : list string := map (λ kv, kv.1 +:+ "=" +:+ kv.2) env.

(** *** Volumes and mounts *)

Definition parse_volume_spec (s : string) : result message (string * string * bool) :=
  match split_once ":" s with
  | None => Err [Txt "expected host:container[:ro|rw]"]
  | Some (source, rest) =>
      match split_once ":" rest with
      | None => Ok (source, rest, false)
      | Some (dest, mode) =>
          if decide (mode = "rw") then Ok (source, dest, false)
          else if decide (mode = "ro") then Ok (source, dest, true)
          else Err [Txt "mode "; Dbg mode; Txt " must be 'ro' or 'rw'"]
      end
  end.

(** Blank, tab, newline, semicolon, the quotes and backquote. *)
Definition volume_metacharacters : list N := [32; 9; 10; 59; 34; 39; 96]%N.

Definition validate_volume_spec (s : string) : result message () :=
  if decide (s = "") then Err [Txt "must not be empty"]
  else if contains_any volume_metacharacters s then Err [Txt "must not contain whitespace or shell metacharacters"]
  else
  '(source, dest, _) ← parse_volume_spec s;
  if decide (source = "") then Err [Txt "source must not be empty"]
  else if decide (dest = "") then Err [Txt "destination must not be empty"]
  else if negb (starts_with "/" dest) then Err [Txt "destination must be absolute, got "; Dbg dest]
  else if str_contains ".." source || str_contains ".." dest then Err [Txt "must not contain '..'"]
  else if negb (starts_with "/" source) && str_contains "/" source
  then Err [Txt "source "; Dbg source; Txt " looks like a relative path; bind mounts must be absolute"]
  else Ok ().

Definition normalize_volume_spec (source dest : string) (read_only : bool) : string :=
  source +:+ ":" +:+ dest +:+ (if read_only then ":ro" else "").

Definition validate_mount (m : DockerMount) : result message () :=
  let bad s := contains_any volume_metacharacters s || str_contains ".." s in
  if negb (bool_decide (mt_type m ∈ ["bind"; "volume"; "tmpfs"])) then Err [Txt "type "; Dbg (mt_type m); Txt " must be 'bind', 'volume', or 'tmpfs'"]
  else if is_blank (mt_target m) then Err [Txt "target must not be empty"]
  else if negb (starts_with "/" (mt_target m)) then Err [Txt "target "; Dbg (mt_target m); Txt " must be absolute"]
  else if bad (mt_target m) then Err [Txt "target "; Dbg (mt_target m); Txt " contains a disallowed character or '..'"]
  else if decide (mt_type m = "tmpfs") then
    if bool_decide (is_Some (mt_source m)) then Err [Txt "type=tmpfs must not set source"] else Ok ()
  else if decide (mt_type m = "bind") then
    s ← ok_or (mt_source m) [Txt "type=bind requires source (absolute host path)"];
    if negb (starts_with "/" s) then Err [Txt "bind source "; Dbg s; Txt " must be absolute"]
    else if bad s then Err [Txt "bind source "; Dbg s; Txt " contains a disallowed character or '..'"] else Ok ()
  else
    s ← ok_or (mt_source m) [Txt "type=volume requires source (volume name)"];
    if is_blank s then Err [Txt "volume source must not be empty"]
    else if contains_any (volume_metacharacters ++ [47%N]) s
    then Err [Txt "volume source "; Dbg s; Txt " contains a disallowed character (whitespace, ';', quotes, '`', '/')"] else Ok ().

Definition mount_to_short_form (m : DockerMount) : option string :=
  if bool_decide (mt_type m ∈ ["bind"; "volume"]) then
    source ← mt_source m; Some (normalize_volume_spec source (mt_target m) (mt_readonly m))
  else None.

Definition mount_to_cli_arg (m : DockerMount) : string :=
  str_join "," (["type=" +:+ mt_type m] ++ (match mt_source m with Some s => ["source=" +:+ s] | None => [] end) ++
                ["target=" +:+ mt_target m] ++ (if mt_readonly m then ["readonly"] else [])).

(** The short forms in the volumes, normalised. *)
Definition canonical_volumes (volumes : list string) : list string :=
  omap (λ v, match parse_volume_spec v with Ok (s, d, ro) => Some (normalize_volume_spec s d ro) | Err _ => None end) volumes.

(** The loop over the mounts, with what was seen. *)
Fixpoint check_mounts (i : nat) (seen : list string) (ms : list DockerMount) : result message () :=
  match ms with
  | [] => Ok ()
  | m :: ms =>
      let at_ := [Txt "mounts["; Dec (Z.of_nat i); Txt "]"] in
      _ ← map_err (λ e, at_ ++ Txt ": " :: e) (validate_mount m);
      match mount_to_short_form m with
      | Some canon => if bool_decide (canon ∈ seen) then Err (at_ ++ [Txt " "; Dbg canon; Txt " duplicates an entry in volumes/mounts"])
                      else check_mounts (S i) (canon :: seen) ms
      | None => check_mounts (S i) seen ms
      end
  end.

(** *** Networks *)

Definition validate_network_name (n : string) : result message () :=
  if is_blank n then Err [Txt "must not be empty; omit the field for default bridge"]
  else if contains_any (volume_metacharacters ++ [47%N]) n then Err [Txt "contains a disallowed character (whitespace, ';', quotes, '`', '/')"]
  else Ok ().

Fixpoint check_extras (primary : option string) (seen : list string) (ns : list string) : result message () :=
  match ns with
  | [] => Ok ()
  | n :: ns =>
      if bool_decide (n ∈ seen) then Err [Txt "extra_networks contains duplicate "; Dbg n]
      else if bool_decide (primary = Some n) then Err [Txt "extra_networks "; Dbg n; Txt " duplicates primary network; remove from extra_networks"]
      else check_extras primary (n :: seen) ns
  end.

(** *** Health checks *)

Definition parse_health_duration_secs (s : string) : result message Z :=
  let t := trim s in
  match last (chars t) with
  | None => Err [Txt "must not be empty"]
  | Some suffix =>
      match parse_unsigned u64_max t with
      | Some n => Ok n
      | None =>
          match (if (suffix =? 115)%N then Some 1 else if (suffix =? 109)%N then Some 60 else if (suffix =? 104)%N then Some 3600 else None)%Z with
          | None => Err [Txt "suffix must be one of s/m/h or a bare integer; got "; Dbg t]
          | Some scale =>
              let digits := str_upto (String.length t - 1) t in
              match parse_unsigned u64_max digits with
              | None => Err [Txt "numeric part "; Dbg digits; Txt " is not a u64"]
              | Some n => if (n * scale <=? u64_max)%Z then Ok (n * scale)%Z else Err [Txt "duration overflow: "; Dbg t]
              end
          end
      end
  end.

Definition validate_health (hc : DockerHealthcheck) : result message () :=
  let duration what o := match o with
                         | Some s => map_err (λ e, Txt ("healthcheck." +:+ what +:+ ": ") :: e) (parse_health_duration_secs s)
                         | None => Ok 0%Z
                         end in
  if is_blank (hc_command hc) then Err [Txt "healthcheck.command must not be empty"]
  else if has_nul (hc_command hc) then Err [Txt "healthcheck.command contains NUL"]
  else
  _ ← duration "interval" (hc_interval hc);
  _ ← duration "timeout" (hc_timeout hc);
  if bool_decide (hc_retries hc = Some 0%Z) then Err [Txt "healthcheck.retries must be > 0"] else Ok ().

(** *** The whole spec *)

Definition bad_key (k : string) : bool := bool_decide (k = "") || str_contains "=" k || has_nul k.

Definition validate_env_key_ (kv : string * string) : result message () :=
  if bad_key kv.1 then Err [Txt "env key "; Dbg kv.1; Txt " must be non-empty and contain no '=' or NUL"] else Ok ().
Definition validate_label (kv : string * string) : result message () :=
  if bad_key kv.1 then Err [Txt "label key "; Dbg kv.1; Txt " must be non-empty and contain no '=' or NUL"]
  else if has_nul kv.2 then Err [Txt "label value for "; Dbg kv.1; Txt " contains NUL"] else Ok ().

(** [map_err(|e| format!("what {x:?}: {e}"))]. *)
Definition named (what x : string) (r : result message ()) : result message () := map_err (λ e, [Txt what; Txt " "; Dbg x; Txt ": "] ++ e) r.

Definition validate_command (command : option (list string)) : result message () :=
  match command with
  | None => Ok ()
  | Some [] => Err [Txt "command must not be empty; omit the field or set it to null"]
  | Some cmd =>
      match List.find (λ ia, has_nul ia.2) (enumerate cmd) with
      | Some (i, _) => Err [Txt "command["; Dec (Z.of_nat i); Txt "] contains NUL"]
      | None => Ok ()
      end
  end.

Definition is_empty {A} (l : list A) : bool := match l with [] => true | _ => false end.

Definition validate_container (s : DockerContainerSpec) : result message () :=
  _ ← map_err (λ e, Txt "name: " :: e) (validate_container_name (dk_name s));
  _ ← match dk_state s with
      | DockerPresent =>
          if is_blank (default "" (dk_image s)) then Err [Txt "image is required when state=present"]
          else match dk_image s with Some img => map_err (λ e, Txt "image: " :: e) (validate_image_ref img) | None => Ok () end
      | DockerAbsent =>
          if bool_decide (is_Some (dk_image s)) || negb (is_empty (dk_env s)) || negb (is_empty (dk_ports s)) || negb (is_empty (dk_labels s))
             || bool_decide (is_Some (dk_command s)) || match dk_healthcheck s with Some _ => true | None => false end
             || negb (is_empty (dk_volumes s)) || bool_decide (is_Some (dk_network s)) || negb (is_empty (dk_extra_networks s))
             || negb (is_empty (dk_mounts s))
          then Err [Txt "state=absent forbids image/env/ports/labels/command/healthcheck/volumes/network/extra_networks/mounts"]
          else Ok ()
      end;
  _ ← try_map validate_env_key_ (dk_env s);
  _ ← try_map (λ p, named "port" p (validate_port_spec p)) (dk_ports s);
  _ ← try_map validate_label (dk_labels s);
  _ ← validate_command (dk_command s);
  _ ← try_map (λ v, named "volume" v (validate_volume_spec v)) (dk_volumes s);
  _ ← check_mounts 0 (canonical_volumes (dk_volumes s)) (dk_mounts s);
  _ ← match dk_network s with Some n => named "network" n (validate_network_name n) | None => Ok () end;
  _ ← try_map (λ n, named "extra_networks" n (validate_network_name n)) (dk_extra_networks s);
  _ ← check_extras (dk_network s) [] (dk_extra_networks s);
  match dk_healthcheck s with Some hc => validate_health hc | None => Ok () end.

(** ** The docker command (crates/iac-providers/src/docker/backend.rs)

    What [docker inspect] says of a container, the commands behind the
    backend's operations, and the backend that keeps its containers in
    memory. *)

From stdpp Require Import pretty strings gmap.
From S2P Require Import Command.

#[local] Open Scope io_scope.

Definition sorted (l : list string) : list string := order_by str_le l.

(** ** What [docker inspect] says *)

Record ContainerHealthcheck := mkHealthcheck {
  ch_command : option string;
  ch_interval_secs : option Z;
  ch_timeout_secs : option Z;
  ch_retries : option Z
}.

Record ContainerInfo := mkContainerInfo {
  ci_running : bool;
  ci_status : string;
  ci_image_ref : string;
  ci_image_id : string;
  ci_env : list string;
  ci_ports : list string;
  ci_restart_policy : string;
  ci_labels : list string;
  ci_command : option (list string);
  ci_healthcheck : option ContainerHealthcheck;
  ci_volumes : list string;
  ci_networks : list string;
  ci_tmpfs_mounts : list string
}.

(** [v.pointer("/a/b/…")], for keys that are not array indices. *)
Definition pointer (keys : list string) (v : Json) : option Json := foldl (λ v k, x ← v; json_get x k) (Some v) keys.

(** [and_then(as_array)], the strings of it, and nothing otherwise. *)
Definition strings_in (a : list Json) : list string := omap as_str a.
Definition texts_of (v : option Json) : list string := default [] (x ← v; a ← as_array x; Some (strings_in a)).
(** [and_then(as_str).unwrap_or(d)]. *)
Definition text_or (d : string) (v : option Json) : string := default d (x ← v; as_str x).
Definition as_u64 (v : Json) : option Z := unsigned_of u64_max v.
(** [u32::try_from(n).ok()]. *)
Definition try_u32 (n : Z) : option Z := if (n <=? u32_max)%Z then Some n else None.
Definition some_nonempty (l : list string) : option (list string) := if is_empty l then None else Some l.

Definition parse_mount_entry (m : Json) : option string :=
  let kind := text_or "" (json_get m "Type") in
  let source := text_or "" (json_get m (if decide (kind = "volume") then "Name" else "Source")) in
  let dest := text_or "" (json_get m "Destination") in
  let rw := default true (v ← json_get m "RW"; as_bool v) in
  if bool_decide (source = "") || bool_decide (dest = "") then None else Some (normalize_volume_spec source dest (negb rw)).
Definition parse_mounts (v : option Json) : list string :=
  match x ← v; as_array x with Some ms => sorted (omap parse_mount_entry ms) | None => [] end.

Definition positive (v : option Json) : option Z := x ← v; n ← as_u64 x; if (0 <? n)%Z then Some n else None.
Definition NANOS_PER_SEC : Z := 1000000000.

Definition parse_healthcheck (v : option Json) : option ContainerHealthcheck :=
  v ← v;
  test ← (x ← json_get v "Test"; as_array x);
  kind ← (x ← head test; as_str x);
  let command := if decide (kind = "CMD-SHELL") then x ← test !! 1; as_str x else None in
  let secs k := option_map (λ ns, ns / NANOS_PER_SEC)%Z (positive (json_get v k)) in
  Some (mkHealthcheck command (secs "Interval") (secs "Timeout") (n ← positive (json_get v "Retries"); try_u32 n)).

Definition port_binding (container proto : string) (b : Json) : option string :=
  let host_ip := text_or "" (json_get b "HostIp") in
  let host_port := text_or "" (json_get b "HostPort") in
  if decide (host_port = "") then None
  else if bool_decide (host_ip = "") || bool_decide (host_ip = "0.0.0.0") then Some (host_port +:+ ":" +:+ container +:+ "/" +:+ proto)
  else Some (host_ip +:+ ":" +:+ host_port +:+ ":" +:+ container +:+ "/" +:+ proto).
Definition parse_port_bindings (v : option Json) : list string :=
  match x ← v; as_object x with
  | None => []
  | Some m =>
      sorted (concat (map (λ kv,
        let '(container, proto) := default (kv.1, "tcp") (split_once "/" kv.1) in
        match as_array kv.2 with Some bs => omap (port_binding container proto) bs | None => [] end) m))
  end.

Definition labels_in (m : list (string * Json)) : list string := omap (λ kv, s ← as_str kv.2; Some (kv.1 +:+ "=" +:+ s)) m.
Definition keys_of (v : option Json) : list string := default [] (x ← v; m ← as_object x; Some (map fst m)).

Definition parse_inspect_json (v : Json) : ContainerInfo :=
  let at_ p := pointer p v in
  mkContainerInfo (default false (x ← at_ ["State"; "Running"]; as_bool x)) (text_or "unknown" (at_ ["State"; "Status"]))
    (text_or "" (at_ ["Config"; "Image"])) (text_or "" (json_get v "Image")) (texts_of (at_ ["Config"; "Env"]))
    (parse_port_bindings (at_ ["HostConfig"; "PortBindings"])) (text_or "no" (at_ ["HostConfig"; "RestartPolicy"; "Name"]))
    (sorted (default [] (x ← at_ ["Config"; "Labels"]; m ← as_object x; Some (labels_in m))))
    (a ← (x ← at_ ["Config"; "Cmd"]; as_array x); some_nonempty (strings_in a))
    (parse_healthcheck (at_ ["Config"; "Healthcheck"])) (parse_mounts (json_get v "Mounts"))
    (sorted (keys_of (at_ ["NetworkSettings"; "Networks"]))) (sorted (keys_of (at_ ["HostConfig"; "Tmpfs"]))).

Definition normalize_port_spec (p : string) : string := if str_contains "/" p then p else p +:+ "/tcp".

(** ** The backend *)

(** [trait DockerBackend]. *)
Record DockerBackend (M : Type) := mkDockerBackend {
  db_inspect_container : string → io M (option ContainerInfo);
  db_image_id : string → io M (option string);
  db_pull : string → io M ();
  db_run : DockerContainerSpec → io M ();
  db_stop : string → io M ();
  db_remove : string → bool → io M ();
  db_connect_network : string → string → io M ()
}.
Arguments db_inspect_container {M} _ _.
Arguments db_image_id {M} _ _.
Arguments db_pull {M} _ _.
Arguments db_run {M} _ _.
Arguments db_stop {M} _ _.
Arguments db_remove {M} _ _ _.
Arguments db_connect_network {M} _ _ _.

Definition DOCKER_FAST_TIMEOUT : Z := 60000.
Definition DOCKER_PULL_TIMEOUT : Z := 600000.

(** The arguments of [docker run]. *)
Definition flag_each (flag : string) (values : list string) : list string := concat (map (λ v, [flag; v]) values).
Definition flag_opt (flag : string) (value : option string) : list string := match value with Some v => [flag; v] | None => [] end.

Definition health_args (h : option DockerHealthcheck) : list string :=
  match h with
  | Some hc => ["--health-cmd"; hc_command hc] ++ flag_opt "--health-interval" (hc_interval hc) ++
               flag_opt "--health-timeout" (hc_timeout hc) ++ flag_opt "--health-retries" (option_map pretty (hc_retries hc))
  | None => []
  end.
Definition run_args (s : DockerContainerSpec) (image : string) : list string :=
  ["run"; "--detach"; "--name"; dk_name s; "--restart"; as_docker (dk_restart_policy s)] ++
  flag_each "--env" (env_kv (dk_env s)) ++ flag_each "--publish" (dk_ports s) ++ flag_each "--volume" (dk_volumes s) ++
  flag_each "--mount" (map mount_to_cli_arg (dk_mounts s)) ++ flag_opt "--network" (dk_network s) ++
  flag_each "--label" (env_kv (dk_labels s)) ++ health_args (dk_healthcheck s) ++ [image] ++ default [] (dk_command s).

Section DockerCommands.
Context {H : Type} `{!Programs H, JsonCodec}.

Definition docker_capture_with_timeout (args : list string) (timeout : Z) : io (Machine * H) (bool * string * string) :=
  run_with_status (mkCommand "docker" args "" timeout) "docker" (Txt "docker " :: debug_list args).
Definition docker_capture (args : list string) : io (Machine * H) (bool * string * string) :=
  docker_capture_with_timeout args DOCKER_FAST_TIMEOUT.

Definition docker_failed {A} (what : message) (stderr : string) : CoreResult A :=
  Err (EProvider "docker" (what ++ [Txt " failed: "; Txt (trim stderr)])).
Definition absent_or {A} (what : message) (absent : A) (stderr : string) : CoreResult A :=
  if str_contains "No such" stderr then Ok absent else docker_failed what stderr.

Definition cli_inspect (name : string) : io (Machine * H) (option ContainerInfo) :=
  let* out := docker_capture ["inspect"; "--type"; "container"; "--format"; "{{json .}}"; name] in
  let '(ok, stdout, stderr) := out in
  io_lift (
    if negb ok then absent_or [Txt "inspect "; Txt name] None stderr
    else match json_from_str (default "" (head (str_lines stdout))) with
         | Ok v => Ok (Some (parse_inspect_json v))
         | Err e => Err (EProvider "docker" [Txt "parsing inspect json: "; Ext e])
         end).

Definition cli_image_id (image : string) : io (Machine * H) (option string) :=
  let* out := docker_capture ["inspect"; "--type"; "image"; "--format"; "{{.Id}}"; image] in
  let '(ok, stdout, stderr) := out in
  io_lift (
    if negb ok then absent_or [Txt "image inspect "; Txt image] None stderr
    else Ok (if decide (trim stdout = "") then None else Some (trim stdout))).

Definition cli_pull (image : string) : io (Machine * H) () :=
  let* out := docker_capture_with_timeout ["pull"; image] DOCKER_PULL_TIMEOUT in
  let '(ok, _, stderr) := out in io_lift (if ok : bool then Ok () else docker_failed [Txt "pull "; Txt image] stderr).

Definition cli_run (s : DockerContainerSpec) : io (Machine * H) () :=
  match dk_image s with
  | None => io_throw (EProvider "docker" [Txt "run requires image"])
  | Some image =>
      let* out := docker_capture (run_args s image) in
      let '(ok, _, stderr) := out in io_lift (if ok : bool then Ok () else docker_failed [Txt "run "; Txt (dk_name s)] stderr)
  end.

Definition cli_stop (name : string) : io (Machine * H) () :=
  let* out := docker_capture ["stop"; "-t"; "10"; name] in
  let '(ok, _, stderr) := out in io_lift (if ok : bool then Ok () else absent_or [Txt "stop "; Txt name] () stderr).

Definition cli_remove (name : string) (force : bool) : io (Machine * H) () :=
  let* out := docker_capture (["rm"] ++ (if force then ["-f"] else []) ++ [name]) in
  let '(ok, _, stderr) := out in io_lift (if ok : bool then Ok () else absent_or [Txt "rm "; Txt name] () stderr).

(** No character outside ASCII has "already" in its lower case. *)
Definition cli_connect_network (container network : string) : io (Machine * H) () :=
  let* out := docker_capture ["network"; "connect"; network; container] in
  let '(ok, _, stderr) := out in
  io_lift (if ok : bool then Ok ()
           else if str_contains "already" (to_ascii_lowercase stderr) then Ok ()
           else docker_failed [Txt "network connect "; Txt network; Txt " "; Txt container] stderr).

Definition DockerCli : DockerBackend (Machine * H) := {|
  db_inspect_container := cli_inspect;
  db_image_id := cli_image_id;
  db_pull := cli_pull;
  db_run := cli_run;
  db_stop := cli_stop;
  db_remove := cli_remove;
  db_connect_network := cli_connect_network
|}.
End DockerCommands.

(** ** In memory

    [MockDocker]: the containers by name, the digests of the images, and the
    calls made. *)
Record MockDocker := mkMock {
  md_containers : gmap string ContainerInfo;
  md_images : gmap string string;
  md_calls : list string
}.

Definition mock_record (action target : string) (m : MockDocker) : MockDocker :=
  mkMock (md_containers m) (md_images m) (md_calls m ++ [action +:+ " " +:+ target]).
Definition mock_set (name : string) (c : ContainerInfo) (m : MockDocker) : MockDocker :=
  mkMock (<[name := c]> (md_containers m)) (md_images m) (md_calls m).

(** [image.replace([':', '/'], "_")]. *)
Fixpoint underscored (s : string) : string :=
  match s with
  | "" => ""
  | String a s => String (if bool_decide (byte_of a ∈ [58; 47]%N) then Ascii.ascii_of_N 95 else a) (underscored s)
  end.
Definition ensure_image (image : string) (m : MockDocker) : string * MockDocker :=
  match md_images m !! image with
  | Some digest => (digest, m)
  | None => let digest := "sha256:mock-" +:+ underscored image in (digest, mkMock (md_containers m) (<[image := digest]> (md_images m)) (md_calls m))
  end.

(** [hc.interval.as_deref().and_then(|s| parse_health_duration_secs(s).ok())]. *)
Definition health_secs (o : option string) : option Z := s ← o; match parse_health_duration_secs s with Ok n => Some n | Err _ => None end.

Definition desired_volumes (s : DockerContainerSpec) : list string :=
  sorted (canonical_volumes (dk_volumes s) ++ omap mount_to_short_form (dk_mounts s)).
Definition desired_tmpfs (s : DockerContainerSpec) : list string :=
  sorted (map mt_target (List.filter (λ m, bool_decide (mt_type m = "tmpfs")) (dk_mounts s))).

(** What [run] keeps of a spec. *)
Definition mock_container (s : DockerContainerSpec) (image digest : string) : ContainerInfo :=
  mkContainerInfo true "running" image digest (env_kv (dk_env s)) (map normalize_port_spec (dk_ports s)) (as_docker (dk_restart_policy s))
    (sorted (env_kv (dk_labels s))) (dk_command s)
    (option_map (λ hc, mkHealthcheck (Some (hc_command hc)) (health_secs (hc_interval hc)) (health_secs (hc_timeout hc)) (hc_retries hc)) (dk_healthcheck s))
    (desired_volumes s) [default "bridge" (dk_network s)] (desired_tmpfs s).

Definition mock_stopped (c : ContainerInfo) : ContainerInfo :=
  mkContainerInfo false "exited" (ci_image_ref c) (ci_image_id c) (ci_env c) (ci_ports c) (ci_restart_policy c) (ci_labels c) (ci_command c)
    (ci_healthcheck c) (ci_volumes c) (ci_networks c) (ci_tmpfs_mounts c).
Definition mock_connected (network : string) (c : ContainerInfo) : ContainerInfo :=
  if bool_decide (network ∈ ci_networks c) then c
  else mkContainerInfo (ci_running c) (ci_status c) (ci_image_ref c) (ci_image_id c) (ci_env c) (ci_ports c) (ci_restart_policy c) (ci_labels c)
         (ci_command c) (ci_healthcheck c) (ci_volumes c) (sorted (ci_networks c ++ [network])) (ci_tmpfs_mounts c).
Definition mock_alter (name : string) (f : ContainerInfo → ContainerInfo) (m : MockDocker) : MockDocker :=
  match md_containers m !! name with Some c => mock_set name (f c) m | None => m end.

Definition MockBackend : DockerBackend MockDocker := {|
  db_inspect_container name m := (Ok (md_containers m !! name), mock_record "inspect" name m);
  db_image_id image m := (Ok (md_images m !! image), mock_record "image_id" image m);
  db_pull image m := (Ok (), (ensure_image image (mock_record "pull" image m)).2);
  db_run s m :=
    let image := default "" (dk_image s) in
    let '(digest, m) := ensure_image image (mock_record "run" (dk_name s) m) in
    (Ok (), mock_set (dk_name s) (mock_container s image digest) m);
  db_stop name m := (Ok (), mock_alter name mock_stopped (mock_record "stop" name m));
  db_remove name _ m :=
    let m := mock_record "remove" name m in (Ok (), mkMock (delete name (md_containers m)) (md_images m) (md_calls m));
  db_connect_network container network m :=
    (Ok (), mock_alter container (mock_connected network) (mock_record "connect_network" (container +:+ " " +:+ network) m))
|}.

(** ** The docker provider (crates/iac-providers/src/docker/ops.rs)

    How a container differs from its spec, the steps that make it anew, and
    the way back. The comparison asks the daemon for the digest of an image,
    so the operations are not a [Provider] of [Executor.v], whose comparison
    has no machine at hand; they are given one by one. *)

Inductive DockerAction := DockerPull | DockerRecreate | DockerRemove.
Definition docker_actions : list (string * DockerAction) :=
  [("docker.pull", DockerPull); ("docker.recreate", DockerRecreate); ("docker.remove", DockerRemove)].

Definition string_list (items : list string) : Json := JArray (map JString items).
Definition list_json (o : option (list string)) : Json := match o with Some l => string_list l | None => JNull end.

(** A member, when there is a value for it. *)
Definition member_opt (k : string) (v : option Json) : list (string * Json) := match v with Some v => [(k, v)] | None => [] end.
Definition healthcheck_to_yaml (hc : option ContainerHealthcheck) : Json :=
  match hc with
  | None => JNull
  | Some hc => JObject (member_opt "command" (option_map JString (ch_command hc)) ++ member_opt "interval_secs" (option_map JNum (ch_interval_secs hc)) ++
                        member_opt "timeout_secs" (option_map JNum (ch_timeout_secs hc)) ++ member_opt "retries" (option_map JNum (ch_retries hc)))
  end.

(** [desired ⊆ observed]. *)
Definition env_subset (desired observed : list string) : bool := forallb (λ d, bool_decide (d ∈ observed)) desired.

(** serde's text of a health check: every field, the absent ones null. *)
Definition healthcheck_value (hc : DockerHealthcheck) : Json :=
  let opt {A} (f : A → Json) o := match o with Some x => f x | None => JNull end in
  JObject [("command", JString (hc_command hc)); ("interval", opt JString (hc_interval hc)); ("timeout", opt JString (hc_timeout hc));
           ("retries", opt JNum (hc_retries hc))].

(** [{:?}] of a list of texts, and of an optional number. *)
Definition debug_texts `{DebugText} (l : list string) : string := "[" +:+ str_join ", " (map debug_text l) +:+ "]".
Definition debug_number (o : option Z) : string := match o with Some n => "Some(" +:+ pretty n +:+ ")" | None => "None" end.

(** ** Observing *)

Section Operations.
Context {M : Type} `{ExecEnv, DebugText} (backend : DockerBackend M).
Context (serde_error : Json → string) (stamp : M → string).

Definition container_from_value (v : Json) : result message DockerContainerSpec :=
  spec ← ok_or (container_fields v) [Ext (serde_error v)]; _ ← validate_container spec; Ok spec.
Definition container_spec_of (r : Resource) : CoreResult DockerContainerSpec := parse_spec "docker.container" container_from_value r.

Definition container_value (name : string) (i : ContainerInfo) : Json :=
  JObject [("name", JString name); ("image", JString (ci_image_ref i)); ("running", JBool (ci_running i));
           ("restart_policy", JString (ci_restart_policy i)); ("ports", string_list (ci_ports i)); ("env", string_list (ci_env i));
           ("labels", string_list (ci_labels i)); ("command", list_json (ci_command i));
           ("healthcheck", healthcheck_to_yaml (ci_healthcheck i)); ("volumes", string_list (ci_volumes i));
           ("networks", string_list (ci_networks i)); ("tmpfs_mounts", string_list (ci_tmpfs_mounts i))].
Definition container_facts (i : ContainerInfo) : list (string * Json) :=
  [("exists", JBool true); ("running", JBool (ci_running i)); ("status", JString (ci_status i)); ("image_ref", JString (ci_image_ref i));
   ("image_id", JString (ci_image_id i)); ("restart_policy", JString (ci_restart_policy i))].

Definition container_observation (name : string) (info : option ContainerInfo) (now : string) : ObservedState :=
  match info with
  | None => mkObserved false JNull [("exists", JBool false)] now
  | Some i => mkObserved true (container_value name i) (container_facts i) now
  end.

Definition observe_container (s : DockerContainerSpec) : io M ObservedState :=
  let* info := db_inspect_container backend (dk_name s) in λ m, (Ok (container_observation (dk_name s) info (stamp m)), m).

(** ** Comparing

    Each part of the comparison gives its change and the reason for it. *)

Definition fact_text (o : ObservedState) (k : string) : string := default "" (v ← assoc_get k (obs_facts o); as_str v).
Definition observed_texts (o : ObservedState) (k : string) : list string := texts_of (json_get (obs_spec o) k).

Definition differs (field : string) (from to : Json) (reason : string) : list (FieldChange * string) :=
  [(mkChange field (Some from) (Some to) false, reason)].
Definition lists_differ (field : string) (have want : list string) (reason : string) : list (FieldChange * string) :=
  differs field (string_list have) (string_list want) reason.

(** With the digest the desired image has here, if it has one. *)
Definition image_diff (desired : string) (desired_id : option string) (o : ObservedState) : list (FieldChange * string) :=
  let observed_id := fact_text o "image_id" in
  let observed_ref := fact_text o "image_ref" in
  match desired_id with
  | Some id => if decide (id = observed_id) then []
               else differs "image_id" (JString observed_id) (JString id) ("image digest " +:+ observed_id +:+ " -> " +:+ id)
  | None => if decide (desired = observed_ref) then []
            else differs "image" (JString observed_ref) (JString desired) ("image " +:+ debug_text observed_ref +:+ " -> " +:+ debug_text desired)
  end.
Definition image_part (s : DockerContainerSpec) (o : ObservedState) : io M (list (FieldChange * string)) :=
  match dk_image s with
  | None => io_ret []
  | Some desired => let* desired_id := db_image_id backend desired in io_ret (image_diff desired desired_id o)
  end.

Definition restart_part (s : DockerContainerSpec) (o : ObservedState) : list (FieldChange * string) :=
  let have := fact_text o "restart_policy" in
  let want := as_docker (dk_restart_policy s) in
  if decide (have = want) then []
  else differs "restart_policy" (JString have) (JString want) ("restart_policy " +:+ debug_text have +:+ " -> " +:+ debug_text want).

Definition ports_part (s : DockerContainerSpec) (o : ObservedState) : list (FieldChange * string) :=
  let want := sorted (map normalize_port_spec (dk_ports s)) in
  let have := sorted (observed_texts o "ports") in
  if decide (have = want) then [] else lists_differ "ports" have want "port bindings differ".

Definition subset_part (field reason : string) (want : list string) (o : ObservedState) : list (FieldChange * string) :=
  let have := observed_texts o field in
  if env_subset want have then [] else lists_differ field have want reason.

Definition volumes_part (s : DockerContainerSpec) (o : ObservedState) : list (FieldChange * string) :=
  let have := sorted (observed_texts o "volumes") in
  if decide (have = desired_volumes s) then [] else lists_differ "volumes" have (desired_volumes s) "volumes differ".

Definition tmpfs_part (s : DockerContainerSpec) (o : ObservedState) : list (FieldChange * string) :=
  let have := sorted (observed_texts o "tmpfs_mounts") in
  let want := desired_tmpfs s in
  if negb (bool_decide (want = have)) && negb (is_empty want && is_empty have)
  then lists_differ "tmpfs_mounts" have want ("tmpfs targets " +:+ debug_texts have +:+ " -> " +:+ debug_texts want) else [].

Definition wanted_networks (s : DockerContainerSpec) : list string := option_list (dk_network s) ++ dk_extra_networks s.
Definition network_part (s : DockerContainerSpec) (o : ObservedState) : list (FieldChange * string) :=
  if bool_decide (is_Some (dk_network s)) || negb (is_empty (dk_extra_networks s)) then
    let have := sorted (observed_texts o "networks") in
    let want := sorted (wanted_networks s) in
    if decide (have = want) then []
    else lists_differ "network" have want ("network attachment " +:+ debug_texts have +:+ " -> " +:+ debug_texts want)
  else [].

Definition health_part (s : DockerContainerSpec) (o : ObservedState) : list (FieldChange * string) :=
  match dk_healthcheck s with
  | None => []
  | Some hc =>
      let observed := json_get (obs_spec o) "healthcheck" in
      let have_number k := x ← observed; v ← json_get x k; as_u64 v in
      let have_command := x ← observed; v ← json_get x "command"; as_str v in
      let number (what unit : string) (have want : option Z) :=
        if decide (want = have) then [] else [what +:+ " " +:+ debug_number have +:+ unit +:+ " -> " +:+ debug_number want +:+ unit] in
      let diffs :=
        (if decide (have_command = Some (hc_command hc)) then []
         else ["command " +:+ debug_text (default "" have_command) +:+ " -> " +:+ debug_text (hc_command hc)]) ++
        number "interval" "s" (have_number "interval_secs") (health_secs (hc_interval hc)) ++
        number "timeout" "s" (have_number "timeout_secs") (health_secs (hc_timeout hc)) ++
        number "retries" "" (have_number "retries") (hc_retries hc) in
      if is_empty diffs then []
      else differs "healthcheck" (default JNull observed) (healthcheck_value hc) ("healthcheck differs: " +:+ str_join ", " diffs)
  end.

Definition command_part (s : DockerContainerSpec) (o : ObservedState) : list (FieldChange * string) :=
  match dk_command s with
  | None => []
  | Some want =>
      let have := observed_texts o "command" in
      if decide (have = want) then [] else lists_differ "command" have want "command differs"
  end.

Definition running_part (o : ObservedState) : list (FieldChange * string) :=
  if default false (v ← assoc_get "running" (obs_facts o); as_bool v) then []
  else differs "running" (JBool false) (JBool true) "container is not running".

(** The parts after the image's, in the order of the code. *)
Definition other_parts (s : DockerContainerSpec) (o : ObservedState) : list (FieldChange * string) :=
  restart_part s o ++ ports_part s o ++ subset_part "env" "env vars differ" (env_kv (dk_env s)) o ++
  subset_part "labels" "labels differ" (env_kv (dk_labels s)) o ++ volumes_part s o ++ tmpfs_part s o ++ network_part s o ++
  health_part s o ++ command_part s o ++ running_part o.
Definition parts_diff (parts : list (FieldChange * string)) : Diff :=
  if is_empty parts then no_change else mkDiff Update (map fst parts) (map snd parts) true.

Definition exists_change (from to : bool) : FieldChange := mkChange "exists" (Some (JBool from)) (Some (JBool to)) false.

Definition diff_container (s : DockerContainerSpec) (o : ObservedState) : io M Diff :=
  let exists_ := default false (v ← assoc_get "exists" (obs_facts o); as_bool v) in
  match dk_state s, exists_ with
  | DockerAbsent, false => io_ret no_change
  | DockerAbsent, true => io_ret (mkDiff Update [exists_change true false] ["remove container " +:+ dk_name s] true)
  | DockerPresent, false => io_ret (mkDiff Create [exists_change false true] ["create container " +:+ dk_name s] true)
  | DockerPresent, true => let* image := image_part s o in io_ret (parts_diff (image ++ other_parts s o))
  end.

(** ** The steps *)

Definition opt_text (o : option string) : Json := match o with Some s => JString s | None => JNull end.

Definition plan_container (s : DockerContainerSpec) (d : Diff) (n : nat) : list Step * nat :=
  if negb (is_change d) then ([], n)
  else
    match dk_state s with
    | DockerPresent =>
        ([step_new (ulid_at n) "docker.pull" ("pull " +:+ default "" (dk_image s)) (JObject [("image", opt_text (dk_image s))]);
          step_new (ulid_at (S n)) "docker.recreate" ("recreate container " +:+ dk_name s) (JObject [("name", JString (dk_name s))])], S (S n))
    | DockerAbsent => ([step_new (ulid_at n) "docker.remove" ("remove container " +:+ dk_name s) (JObject [("name", JString (dk_name s))])], S n)
    end.

Definition healthcheck_json (hc : ContainerHealthcheck) : Json :=
  let opt {A} (f : A → Json) o := match o with Some x => f x | None => JNull end in
  JObject [("command", opt_text (ch_command hc)); ("interval_secs", opt JNum (ch_interval_secs hc)); ("retries", opt JNum (ch_retries hc));
           ("timeout_secs", opt JNum (ch_timeout_secs hc))].

Definition pre_apply_container (s : DockerContainerSpec) : io M Json :=
  let* info := db_inspect_container backend (dk_name s) in
  io_ret (match info with
          | Some c => JObject [("name", JString (dk_name s)); ("previous_command", list_json (ci_command c)); ("previous_env", string_list (ci_env c));
                               ("previous_existed", JBool true);
                               ("previous_healthcheck", match ci_healthcheck c with Some hc => healthcheck_json hc | None => JNull end);
                               ("previous_image_id", JString (ci_image_id c)); ("previous_image_ref", JString (ci_image_ref c));
                               ("previous_labels", string_list (ci_labels c)); ("previous_networks", string_list (ci_networks c));
                               ("previous_ports", string_list (ci_ports c)); ("previous_restart_policy", JString (ci_restart_policy c));
                               ("previous_volumes", string_list (ci_volumes c))]
          | None => JObject [("name", JString (dk_name s)); ("previous_existed", JBool false)]
          end).

(** [backend.stop(name)?; backend.remove(name, true)?]. *)
Definition stop_and_remove (name : string) : io M () := db_stop backend name ;* db_remove backend name true.

Fixpoint connect_all (name : string) (networks : list string) : io M () :=
  match networks with
  | [] => io_ret ()
  | n :: networks => db_connect_network backend name n ;* connect_all name networks
  end.

Definition apply_container (s : DockerContainerSpec) (step : Step) : io M StepResult :=
  let name := default (dk_name s) (v ← json_get (st_payload step) "name"; as_str v) in
  let* action := io_lift (parse_action "DockerAction" docker_actions (st_action step)) in
  match action with
  | DockerPull =>
      match union (v ← json_get (st_payload step) "image"; as_str v) (dk_image s) with
      | None => io_throw (EProvider "docker" [Txt "pull requires image"])
      | Some image => db_pull backend image ;* io_ret (step_result_ok [Txt "pulled "; Txt image])
      end
  | DockerRecreate =>
      stop_and_remove name ;* (db_run backend s ;* (connect_all name (dk_extra_networks s) ;* io_ret (step_result_ok [Txt "recreated "; Txt name])))
  | DockerRemove => stop_and_remove name ;* io_ret (step_result_ok [Txt "removed "; Txt name])
  end.

(** ** The way back *)

(** [IndexMap::insert] of the pairs that have an [=]. *)
Fixpoint index_insert (k v : string) (m : list (string * string)) : list (string * string) :=
  match m with
  | [] => [(k, v)]
  | (k', v') :: m => if decide (k = k') then (k, v) :: m else (k', v') :: index_insert k v m
  end.
Definition pairs_of (lines : list string) : list (string * string) :=
  foldl (λ m line, match split_once "=" line with Some (k, v) => index_insert k v m | None => m end) [] lines.

Definition previous_health (v : option Json) : option DockerHealthcheck :=
  x ← v; _ ← as_object x;
  command ← (c ← json_get x "command"; as_str c);
  let seconds k := option_map (λ n : Z, pretty n +:+ "s") (c ← json_get x k; as_u64 c) in
  Some (mkHealth command (seconds "interval_secs") (seconds "timeout_secs") (c ← json_get x "retries"; n ← as_u64 c; try_u32 n)).

(** The container to bring back, from the checkpoint. *)
Definition previous_spec (name image : string) (checkpoint : Json) : DockerContainerSpec :=
  let texts k := texts_of (json_get checkpoint k) in
  let networks := List.filter (λ n, negb (bool_decide (n = "bridge"))) (texts "previous_networks") in
  mkContainer name (Some image) DockerPresent (pairs_of (texts "previous_env")) (texts "previous_ports")
    (default RestartUnlessStopped (restart_parse (text_or "unless-stopped" (json_get checkpoint "previous_restart_policy"))))
    (pairs_of (texts "previous_labels")) (a ← (x ← json_get checkpoint "previous_command"; as_array x); some_nonempty (strings_in a))
    (previous_health (json_get checkpoint "previous_healthcheck")) (texts "previous_volumes") (head networks) (tail networks) [].

Definition rollback_container (s : DockerContainerSpec) (checkpoint : Json) : io M () :=
  let existed := default false (v ← json_get checkpoint "previous_existed"; as_bool v) in
  let name := default (dk_name s) (v ← json_get checkpoint "name"; as_str v) in
  if negb existed then stop_and_remove name
  else
    match v ← json_get checkpoint "previous_image_ref"; as_str v with
    | None => io_throw (EProvider "docker" [Txt "rollback missing previous_image_ref"])
    | Some image =>
        let prev := previous_spec name image checkpoint in
        stop_and_remove name ;* (db_pull backend image ;* (db_run backend prev ;* connect_all name (dk_extra_networks prev)))
    end.

(** ** The provider's methods *)

Definition docker_observe (r : Resource) : io M ObservedState := let* s := io_lift (container_spec_of r) in observe_container s.
Definition docker_diff (r : Resource) (o : ObservedState) : io M Diff := let* s := io_lift (container_spec_of r) in diff_container s o.
Definition docker_plan (r : Resource) (d : Diff) (n : nat) : CoreResult (list Step) * nat :=
  match container_spec_of r with Ok s => let '(steps, n) := plan_container s d n in (Ok steps, n) | Err e => (Err e, n) end.
Definition docker_pre_apply (r : Resource) : io M Json := let* s := io_lift (container_spec_of r) in pre_apply_container s.
Definition docker_apply (r : Resource) (step : Step) : io M StepResult := let* s := io_lift (container_spec_of r) in apply_container s step.
Definition docker_verify (r : Resource) : io M VerifyOutcome :=
  let* s := io_lift (container_spec_of r) in
  let* o := observe_container s in
  let* d := diff_container s o in
  io_ret (if is_change d then VMismatch (diff_changes d) else VMatch).
Definition docker_rollback (r : Resource) (cp : Checkpoint) : io M () :=
  let* s := io_lift (container_spec_of r) in rollback_container s (cp_data cp).
Definition docker_capability_keys (r : Resource) : CoreResult (list string) := s ← container_spec_of r; Ok [dk_name s].

End Operations.
