(* ===== verification/DockerProps.v ===== *)
(** * What the docker provider guarantees

    The steps planned for a container bring it to what its spec asks for, with
    a daemon that reports what it was told to run. *)

From stdpp Require Import pretty strings gmap sorting.
From S2P Require Import Prelude Text Json ApiError Routing Db AuditLog Ids Diff Executor Chars PluginSpec Plugin SpecReader Posix FileProvider Command Docker.

#[local] Open Scope string_scope.
#[local] Open Scope list_scope.
#[local] Open Scope nat_scope.
#[local] Open Scope io_scope.

(** ** What a daemon promises *)

(** The container that runs a spec, of the image with this digest, on these
    networks. *)
Record reports (s : DockerContainerSpec) (id : string) (networks : list string) (i : ContainerInfo) : Prop := mkReports {
  rep_running : ci_running i = true;
  rep_image : ci_image_id i = id;
  rep_restart : ci_restart_policy i = as_docker (dk_restart_policy s);
  rep_ports : ci_ports i ≡ₚ map normalize_port_spec (dk_ports s);
  rep_env e : e ∈ env_kv (dk_env s) → e ∈ ci_env i;
  rep_labels l : l ∈ env_kv (dk_labels s) → l ∈ ci_labels i;
  rep_command c : dk_command s = Some c → ci_command i = Some c;
  rep_health hc : dk_healthcheck s = Some hc →
    ci_healthcheck i = Some (mkHealthcheck (Some (hc_command hc)) (health_secs (hc_interval hc)) (health_secs (hc_timeout hc)) (hc_retries hc));
  rep_volumes : ci_volumes i ≡ₚ desired_volumes s;
  rep_tmpfs : ci_tmpfs_mounts i ≡ₚ desired_tmpfs s;
  rep_networks : dk_network s = None ∨ ci_networks i ≡ₚ networks
}.

(** Of a backend, with the containers by name and the digests of the images:
    inspecting tells them and changes nothing; a pulled image has a digest; a
    spec that is plain, and run, is reported as it was written, and a network
    connected is reported besides. Docker does not report every spec as
    written: an address of 0.0.0.0 is dropped from a port, and the volumes an
    image declares are added to the mounts. *)
Class DockerLaws {M : Type} (backend : DockerBackend M) (plain : DockerContainerSpec → Prop)
    (view : M → string → option ContainerInfo) (image : M → string → option string) : Prop := {
  inspect_tells name m i m' : db_inspect_container backend name m = (Ok i, m') → i = view m name ∧ view m' = view m ∧ image m' = image m;
  image_tells name m id m' : db_image_id backend name m = (Ok id, m') → id = image m name ∧ view m' = view m ∧ image m' = image m;
  pull_gets name m m' : db_pull backend name m = (Ok (), m') → is_Some (image m' name);
  stop_keeps name m m' : db_stop backend name m = (Ok (), m') → image m' = image m;
  remove_removes name force m m' : db_remove backend name force m = (Ok (), m') → view m' name = None ∧ image m' = image m;
  run_starts s img id m m' : plain s → dk_image s = Some img → image m img = Some id → db_run backend s m = (Ok (), m') →
    image m' = image m ∧ ∃ i, view m' (dk_name s) = Some i ∧ reports s id (option_list (dk_network s)) i;
  connect_adds network s id networks i m m' : db_connect_network backend (dk_name s) network m = (Ok (), m') →
    view m (dk_name s) = Some i → reports s id networks i → network ∉ networks →
    image m' = image m ∧ ∃ i', view m' (dk_name s) = Some i' ∧ reports s id (networks ++ [network]) i'
}.

(** ** Sorted texts *)

Lemma str_le_antisym a b : str_le a b = true → str_le b a = true → a = b.
Proof.
  unfold str_le, String.ltb. rewrite (String.compare_antisym b a). destruct (String.compare a b) eqn:E; cbn; [|done|done].
  intros _ _. by apply compare_Eq.
Qed.

(** Sorting forgets the order. *)
Lemma sorted_perm l k : l ≡ₚ k → sorted l = sorted k.
Proof.
  intros Hp. apply (StronglySorted_unique_strong (λ a b, str_le a b = true)).
  - intros a b _ _. apply str_le_antisym.
  - apply order_by_sorted; [apply str_le_total|apply str_le_trans].
  - apply order_by_sorted; [apply str_le_total|apply str_le_trans].
  - unfold sorted. by rewrite !order_by_perm.
Qed.

Lemma sorted_idem l : sorted (sorted l) = sorted l.
Proof. apply sorted_perm, order_by_perm. Qed.

Lemma strings_in_list l : strings_in (map JString l) = l.
Proof. induction l as [|x l IH]; [done|]. cbn. by f_equal. Qed.

Lemma env_subset_spec l k : (∀ e, e ∈ l → e ∈ k) → env_subset l k = true.
Proof. intros H. apply forallb_forall. intros e He. apply bool_decide_eq_true, H. by apply list_elem_of_In. Qed.

(** ** Numbers of a checked spec *)

Lemma health_duration_range t n : parse_health_duration_secs t = Ok n → (0 ≤ n ≤ u64_max)%Z.
Proof.
  unfold parse_health_duration_secs. destruct (last _) as [suffix|]; [|done].
  destruct (parse_unsigned u64_max (trim t)) eqn:E; [intros [= <-]; by apply parse_unsigned_range in E|].
  match goal with |- match ?x with _ => _ end = _ → _ => destruct x as [scale|] eqn:Es end; [|done].
  destruct (parse_unsigned u64_max (str_upto _ _)) as [z|] eqn:E'; [|done]. apply parse_unsigned_range in E'.
  destruct (Z.leb_spec (z * scale) u64_max); [|done]. intros [= <-]. split; [|done].
  assert (0 ≤ scale)%Z; [|nia]. clear -Es. destruct (suffix =? 115)%N, (suffix =? 109)%N, (suffix =? 104)%N; (discriminate || injection Es; lia).
Qed.

Lemma health_secs_range o n : health_secs o = Some n → (0 ≤ n ≤ u64_max)%Z.
Proof.
  unfold health_secs. destruct o as [t|]; [|done]. cbn. destruct (parse_health_duration_secs t) eqn:E; [|done]. intros [= <-].
  by apply health_duration_range in E.
Qed.

Lemma as_u64_JNum n : (0 ≤ n ≤ u64_max)%Z → as_u64 (JNum n) = Some n.
Proof. intros Hn. by apply parse_unsigned_pretty. Qed.

(** The retries of a spec are below 2^32. *)
Definition sane_retries (s : DockerContainerSpec) : Prop :=
  ∀ hc n, dk_healthcheck s = Some hc → hc_retries hc = Some n → (0 ≤ n ≤ u64_max)%Z.

Lemma health_of_retries v hc n : health_of v = Some hc → hc_retries hc = Some n → (0 ≤ n ≤ u64_max)%Z.
Proof.
  unfold health_of. destruct (strict_fields _ v) as [[|c [|i [|t [|r [|]]]]]|]; try done.
  intros (? & _ & (? & _ & (? & _ & (r' & Hr & [= <-])%bind_Some)%bind_Some)%bind_Some)%bind_Some. cbn. intros ->.
  unfold optional_unsigned in Hr. destruct r as [[| |repr|s|xs|kvs]|]; try done; apply bind_Some in Hr as (z & Hz & [= <-]); try done.
  unfold unsigned_of in Hz. apply parse_unsigned_range in Hz. unfold u32_max, u64_max in *. lia.
Qed.

Lemma container_fields_retries v s : container_fields v = Some s → sane_retries s.
Proof.
  unfold container_fields. destruct (strict_fields _ v) as [fields|]; [|done].
  do 13 (destruct fields as [|? fields]; [done|]). destruct fields; [|done].
  intros H hc k Hhc. revert H. intros (? & _ & (? & _ & (? & _ & (? & _ & (? & _ & (? & _ & (? & _ & (? & _ & (h & Hh & H)%bind_Some)%bind_Some)%bind_Some)%bind_Some)%bind_Some)%bind_Some)%bind_Some)%bind_Some)%bind_Some.
  apply bind_Some in H as (? & _ & (? & _ & (? & _ & (? & _ & [= <-])%bind_Some)%bind_Some)%bind_Some). cbn in Hhc. subst h.
  unfold optional_of in Hh. match type of Hh with match ?x with _ => _ end = _ => destruct x as [[]|] end; try done;
    apply bind_Some in Hh as (a & Ha & [= ->]); by eapply health_of_retries.
Qed.

(** The further networks of a spec are distinct, and not the first one. *)
Lemma check_extras_spec primary seen ns : check_extras primary seen ns = Ok () →
  NoDup ns ∧ (∀ n, n ∈ ns → n ∉ seen ∧ primary ≠ Some n).
Proof.
  revert seen. induction ns as [|n ns IH]; intros seen; cbn [check_extras]; [split; [constructor|set_solver]|].
  case_bool_decide as Hs; [done|]. case_bool_decide as Hp; [done|]. intros (Hnd & Hin)%IH. split.
  - constructor; [|done]. intros Hn. apply Hin in Hn as [Hn _]. set_solver.
  - intros n' [->|Hn']%elem_of_cons; [done|]. apply Hin in Hn' as [Hn' ?]. set_solver.
Qed.

(** ** Nothing left to do *)

Section Converges.
Context {M : Type} `{ExecEnv, DebugText} (backend : DockerBackend M).
Context (plain : DockerContainerSpec → Prop) (view : M → string → option ContainerInfo) (image : M → string → option string).
Context `{!DockerLaws backend plain view image}.
Context (serde_error : Json → string) (stamp : M → string).

(** The networks are those that are compared. *)
Definition networked (s : DockerContainerSpec) (networks : list string) : Prop :=
  (dk_network s = None ∧ dk_extra_networks s = []) ∨ (is_Some (dk_network s) ∧ networks = wanted_networks s).

Lemma health_members c i t r : let v := healthcheck_to_yaml (Some (mkHealthcheck (Some c) i t r)) in
  json_get v "command" = Some (JString c) ∧ json_get v "interval_secs" = option_map JNum i ∧
  json_get v "timeout_secs" = option_map JNum t ∧ json_get v "retries" = option_map JNum r.
Proof. by destruct i, t, r. Qed.

Lemma number_member (o : option Z) : (∀ n, o = Some n → (0 ≤ n ≤ u64_max)%Z) → (v ← option_map JNum o; as_u64 v) = o.
Proof. destruct o as [n|]; [|done]. intros Hb. by apply as_u64_JNum, Hb. Qed.

Lemma health_part_settled s id networks i name now : reports s id networks i → sane_retries s →
  health_part s (container_observation name (Some i) now) = [].
Proof.
  intros Hr Hs. unfold health_part. destruct (dk_healthcheck s) as [hc|] eqn:Hhc; [|done].
  change (json_get (obs_spec (container_observation name (Some i) now)) "healthcheck") with (Some (healthcheck_to_yaml (ci_healthcheck i))).
  rewrite (rep_health _ _ _ _ Hr hc Hhc). cbn [mbind option_bind].
  destruct (health_members (hc_command hc) (health_secs (hc_interval hc)) (health_secs (hc_timeout hc)) (hc_retries hc)) as (-> & -> & -> & ->).
  pose proof (number_member _ (health_secs_range (hc_interval hc))) as H1. pose proof (number_member _ (health_secs_range (hc_timeout hc))) as H2.
  pose proof (number_member _ (λ n, Hs hc n Hhc)) as H3. cbn [mbind option_bind as_str] in *. rewrite H1, H2, H3. by rewrite !decide_True.
Qed.

Lemma other_parts_settled s id networks i name now : reports s id networks i → sane_retries s → networked s networks →
  other_parts s (container_observation name (Some i) now) = [].
Proof.
  intros Hr Hs Hnet. unfold other_parts. rewrite (health_part_settled s id networks i name now Hr Hs).
  assert (restart_part s (container_observation name (Some i) now) = []) as ->.
  { unfold restart_part. change (fact_text _ "restart_policy") with (ci_restart_policy i). by rewrite (rep_restart _ _ _ _ Hr), decide_True. }
  assert (∀ k l, json_get (container_value name i) k = Some (string_list l) →
            observed_texts (container_observation name (Some i) now) k = l) as Htexts.
  { intros k l Hk. unfold observed_texts. cbn [obs_spec container_observation]. rewrite Hk. cbn. apply strings_in_list. }
  unfold ports_part, subset_part, volumes_part, tmpfs_part, network_part, command_part, running_part.
  rewrite (Htexts "ports" (ci_ports i)), (Htexts "env" (ci_env i)), (Htexts "labels" (ci_labels i)), (Htexts "volumes" (ci_volumes i)),
    (Htexts "tmpfs_mounts" (ci_tmpfs_mounts i)), (Htexts "networks" (ci_networks i)) by done.
  rewrite (sorted_perm _ _ (rep_ports _ _ _ _ Hr)), decide_True by done.
  rewrite (sorted_perm _ _ (rep_volumes _ _ _ _ Hr)), (sorted_perm _ _ (rep_tmpfs _ _ _ _ Hr)).
  rewrite !env_subset_spec by (apply Hr).
  unfold desired_volumes, desired_tmpfs. rewrite !sorted_idem, decide_True by done. rewrite bool_decide_eq_true_2 by done. cbn [negb andb app].
  change (default false _) with (ci_running i). rewrite (rep_running _ _ _ _ Hr), app_nil_r.
  assert (match dk_command s with
          | Some want => if decide (observed_texts (container_observation name (Some i) now) "command" = want) then [] else
              lists_differ "command" (observed_texts (container_observation name (Some i) now) "command") want "command differs"
          | None => [] end = []) as ->.
  { destruct (dk_command s) as [c|] eqn:Hc; [|done]. rewrite (Htexts "command" c), decide_True; [done..|]. cbn. by rewrite (rep_command _ _ _ _ Hr c Hc). }
  rewrite app_nil_r. destruct Hnet as [[-> ->]|[[n Hn] ->]]; [done|]. rewrite Hn. cbn [is_Some_dec].
  destruct (rep_networks _ _ _ _ Hr) as [Hnone|Hp]; [congruence|]. rewrite (sorted_perm _ _ Hp), decide_True by done. by destruct (_ || _).
Qed.

(** *** Reading and comparing *)

Definition same (m m' : M) : Prop := view m' = view m ∧ image m' = image m.

Lemma observe_spec s m o m' : observe_container backend stamp s m = (Ok o, m') →
  same m m' ∧ ∃ now, o = container_observation (dk_name s) (view m (dk_name s)) now.
Proof.
  unfold observe_container, io_bind. destruct (db_inspect_container backend (dk_name s) m) as [[i|e] m1] eqn:Hi; [|done].
  apply inspect_tells in Hi as (-> & Hv & Hm). intros [= <- <-]. split; [done|]. by eexists.
Qed.

(** The comparison, with the digests at hand. *)
Definition diff_of (s : DockerContainerSpec) (o : ObservedState) (digest : string → option string) : Diff :=
  match dk_state s, default false (v ← assoc_get "exists" (obs_facts o); as_bool v) with
  | DockerAbsent, false => no_change
  | DockerAbsent, true => mkDiff Update [exists_change true false] ["remove container " +:+ dk_name s] true
  | DockerPresent, false => mkDiff Create [exists_change false true] ["create container " +:+ dk_name s] true
  | DockerPresent, true =>
      parts_diff (match dk_image s with Some img => image_diff img (digest img) o | None => [] end ++ other_parts s o)
  end.

Lemma diff_spec s o m d m' : diff_container backend s o m = (Ok d, m') → same m m' ∧ d = diff_of s o (image m).
Proof.
  unfold diff_container, diff_of, image_part, io_bind, io_ret.
  destruct (dk_state s), (default false _); try by intros [= <- <-]. destruct (dk_image s) as [img|]; [|by intros [= <- <-]].
  destruct (db_image_id backend img m) as [[id|e] m1] eqn:Hi; [|done]. apply image_tells in Hi as (-> & Hv & Hm). by intros [= <- <-].
Qed.

Lemma diff_of_time s name i now now' digest : diff_of s (container_observation name i now) digest = diff_of s (container_observation name i now') digest.
Proof. by destruct i. Qed.

Lemma diff_of_settled s id networks i name now digest img : dk_state s = DockerPresent → dk_image s = Some img → digest img = Some id →
  reports s id networks i → sane_retries s → networked s networks →
  diff_of s (container_observation name (Some i) now) digest = no_change.
Proof.
  intros Hst Himg Hid Hr Hs Hn. unfold diff_of. rewrite Hst, Himg, Hid.
  change (default false (v ← assoc_get "exists" (obs_facts (container_observation name (Some i) now)); as_bool v)) with true. cbv iota.
  rewrite (other_parts_settled s id networks i name now) by done. rewrite app_nil_r. unfold image_diff.
  change (fact_text (container_observation name (Some i) now) "image_id") with (ci_image_id i).
  by rewrite (rep_image _ _ _ _ Hr), decide_True.
Qed.

(** *** The steps *)

Lemma connect_all_reports s id networks i ns m m' : view m (dk_name s) = Some i → reports s id networks i →
  NoDup ns → (∀ n, n ∈ ns → n ∉ networks) → connect_all backend (dk_name s) ns m = (Ok (), m') →
  image m' = image m ∧ ∃ i', view m' (dk_name s) = Some i' ∧ reports s id (networks ++ ns) i'.
Proof.
  revert networks i m. induction ns as [|n ns IH]; intros networks i m Hi Hr Hnd Hfresh; cbn [connect_all]; unfold io_ret, io_bind.
  { intros [= <-]. split; [done|]. exists i. by rewrite app_nil_r. }
  destruct (db_connect_network backend (dk_name s) n m) as [[[]|e] m1] eqn:Hc; [|done]. intros Hrest.
  apply NoDup_cons in Hnd as [Hn Hnd].
  destruct (connect_adds n s id networks i m m1 Hc Hi Hr) as (Him & i1 & Hi1 & Hr1); [apply Hfresh; left|].
  destruct (IH _ _ _ Hi1 Hr1 Hnd) with (2 := Hrest) as (Him' & i' & Hi' & Hr').
  { intros x Hx. specialize (Hfresh x). rewrite elem_of_app, list_elem_of_singleton. intros [?| ->]; [apply Hfresh; [by right|done]|done]. }
  split; [congruence|]. exists i'. split; [done|]. by rewrite <- app_assoc in Hr'.
Qed.

Lemma stop_and_remove_spec name m m' : stop_and_remove backend name m = (Ok (), m') → view m' name = None ∧ image m' = image m.
Proof.
  unfold stop_and_remove, io_bind. destruct (db_stop backend name m) as [[[]|e] m1] eqn:Hs; [|done]. intros Hr.
  apply remove_removes in Hr as [-> Hr]. apply stop_keeps in Hs. split; [done|congruence].
Qed.

(** The steps of a plan, one after the other, while they succeed. *)
Fixpoint run_docker_steps (r : Resource) (steps : list Step) : io M () :=
  match steps with
  | [] => io_ret ()
  | step :: steps => let* _ := docker_apply backend serde_error r step in run_docker_steps r steps
  end.

Lemma checked_spec r s : container_spec_of serde_error r = Ok s → sane_retries s ∧ validate_container s = Ok ().
Proof.
  unfold container_spec_of, parse_spec, container_from_value. destruct (container_fields (r_spec r)) as [s'|] eqn:Hf; [|done].
  cbn [ok_or mbind result_bind]. destruct (validate_container s') as [[]|e] eqn:Hv; [|done]. intros [= ->]. split; [|done].
  by eapply container_fields_retries.
Qed.

Lemma checked_networks s : validate_container s = Ok () → is_Some (dk_network s) ∨ dk_extra_networks s = [] →
  NoDup (dk_extra_networks s) ∧ (∀ n, n ∈ dk_extra_networks s → n ∉ option_list (dk_network s)) ∧ networked s (wanted_networks s).
Proof.
  unfold validate_container. intros (? & _ & (? & _ & (? & _ & (? & _ & (? & _ & (? & _ & (? & _ & (? & _ & (? & _ & (? & _ & ([] & He & _)%bind_Ok_inv)%bind_Ok_inv)%bind_Ok_inv)%bind_Ok_inv)%bind_Ok_inv)%bind_Ok_inv)%bind_Ok_inv)%bind_Ok_inv)%bind_Ok_inv)%bind_Ok_inv)%bind_Ok_inv Hn.
  apply check_extras_spec in He as [Hnd Hin]. split_and!; [done| |].
  - intros n [_ Hp]%Hin. destruct (dk_network s) as [p|]; cbn; [|set_solver]. intros ->%list_elem_of_singleton. done.
  - unfold networked, wanted_networks. destruct Hn as [Hn|Hn]; [by right|]. rewrite Hn. destruct (dk_network s); [right|left]; done.
Qed.

(** The planned steps, run. *)
Lemma run_recreate r s m m' n d img : container_spec_of serde_error r = Ok s → plain s → dk_state s = DockerPresent → dk_image s = Some img →
  is_Some (dk_network s) ∨ dk_extra_networks s = [] → is_change d = true →
  run_docker_steps r (plan_container s d n).1 m = (Ok (), m') →
  ∃ i id, view m' (dk_name s) = Some i ∧ image m' img = Some id ∧ reports s id (wanted_networks s) i.
Proof.
  intros Hspec Hplain Hst Himg Hn Hd. unfold plan_container. rewrite Hd, Hst. cbn [negb fst run_docker_steps].
  unfold docker_apply, io_bind, io_lift, io_ret. rewrite Hspec.
  unfold apply_container at 1. unfold io_bind, io_lift, io_ret.
  change (parse_action "DockerAction" docker_actions (st_action _)) with (@Ok CoreError _ DockerPull) at 1. cbn [st_payload step_new].
  assert (union (v ← json_get (JObject [("image", opt_text (dk_image s))]) "image"; as_str v) (dk_image s) = Some img) as -> by (by rewrite Himg).
  destruct (db_pull backend img m) as [[[]|e] m1] eqn:Hp; [|done]. apply pull_gets in Hp as [id Hid].
  unfold apply_container, io_bind, io_lift, io_ret.
  change (parse_action "DockerAction" docker_actions (st_action _)) with (@Ok CoreError _ DockerRecreate) at 1. cbn [st_payload step_new].
  change (default (dk_name s) (v ← json_get _ "name"; as_str v)) with (dk_name s).
  destruct (stop_and_remove backend (dk_name s) m1) as [[[]|e] m2] eqn:Hsr; [|done]. apply stop_and_remove_spec in Hsr as [_ Him].
  destruct (db_run backend s m2) as [[[]|e] m3] eqn:Hrun; [|done].
  apply (run_starts s img id) in Hrun as (Him3 & i & Hi & Hr); [|done..|congruence].
  destruct (connect_all _ _ _ m3) as [[[]|e] m4] eqn:Hc; [|done]. intros [= <-].
  destruct (checked_networks s) as (Hnd & Hfresh & _); [by eapply checked_spec|done|].
  destruct (connect_all_reports _ _ _ _ _ _ _ Hi Hr Hnd Hfresh Hc) as (Him4 & i' & Hi' & Hr').
  exists i', id. split_and!; [done|congruence|done].
Qed.

Lemma run_remove r s m m' n d : container_spec_of serde_error r = Ok s → dk_state s = DockerAbsent → is_change d = true →
  run_docker_steps r (plan_container s d n).1 m = (Ok (), m') → view m' (dk_name s) = None.
Proof.
  intros Hspec Hst Hd. unfold plan_container. rewrite Hd, Hst. cbn [negb fst run_docker_steps].
  unfold docker_apply, io_bind, io_lift, io_ret. rewrite Hspec. unfold apply_container, io_bind, io_lift, io_ret.
  change (parse_action "DockerAction" docker_actions (st_action _)) with (@Ok CoreError _ DockerRemove) at 1. cbn [st_payload step_new].
  change (default (dk_name s) (v ← json_get _ "name"; as_str v)) with (dk_name s).
  destruct (stop_and_remove backend (dk_name s) m) as [[[]|e] m2] eqn:Hsr; [|done]. intros [= <-]. by apply stop_and_remove_spec in Hsr as [? _].
Qed.

Lemma checked_image s : validate_container s = Ok () → dk_state s = DockerPresent → is_Some (dk_image s).
Proof.
  unfold validate_container. intros (? & _ & ([] & Hp & _)%bind_Ok_inv)%bind_Ok_inv Hst. rewrite Hst in Hp.
  destruct (dk_image s) as [img|]; [by eexists|]. exfalso. by vm_compute in Hp.
Qed.

(** Applying a container's plan converges, for a backend with the laws above
    and a spec that it reports as written: when the container has been observed
    and compared with its spec, and the steps planned from the comparison have
    all succeeded, a verification that the backend answers finds nothing left
    to do. (A spec with further networks must name its first one.) The laws are
    those of the memory backend, below; the command line one loses an address
    of 0.0.0.0, so a daemon that reports it makes a spec that is not plain. *)
Theorem docker_apply_converges r s m o m1 d m2 n planned n' m3 v m4 :
  container_spec_of serde_error r = Ok s → plain s →
  is_Some (dk_network s) ∨ dk_extra_networks s = [] →
  docker_observe backend serde_error stamp r m = (Ok o, m1) →
  docker_diff backend serde_error r o m1 = (Ok d, m2) →
  docker_plan serde_error r d n = (Ok planned, n') →
  run_docker_steps r planned m2 = (Ok (), m3) →
  docker_verify backend serde_error stamp r m3 = (Ok v, m4) → v = VMatch.
Proof.
  intros Hspec Hplain Hnet Hobs Hdiff Hsteps Hrun Hver. destruct (checked_spec r s Hspec) as [Hret Hval].
  unfold docker_observe, docker_diff, docker_plan, docker_verify, io_bind, io_lift, io_ret in *. rewrite Hspec in *.
  destruct (plan_container s d n) as [steps n2] eqn:Hplan. injection Hsteps as -> ->.
  apply observe_spec in Hobs as ([Hv1 Hi1] & now & ->). apply diff_spec in Hdiff as ([Hv2 Hi2] & Hd).
  destruct (observe_container _ _ s m3) as [[o'|e] m3'] eqn:Ho; [|done]. apply observe_spec in Ho as ([Hv3 Hi3] & now' & ->).
  destruct (diff_container _ s _ m3') as [[d'|e] m3''] eqn:Hd'; [|done]. apply diff_spec in Hd' as (_ & ->).
  injection Hver as <- _. rewrite Hi3.
  assert (diff_of s (container_observation (dk_name s) (view m3 (dk_name s)) now') (image m3) = no_change) as ->; [|done].
  destruct (is_change d) eqn:Hc.
  - assert (run_docker_steps r (plan_container s d n).1 m2 = (Ok (), m3)) as Hrun' by (by rewrite Hplan).
    destruct (dk_state s) eqn:Hst.
    + destruct (checked_image s Hval Hst) as [img Himg].
      destruct (run_recreate r s m2 m3 n d img) as (i & id & Hi & Hid & Hrep); [done..|]. rewrite Hi.
      eapply diff_of_settled; [done..|]. by eapply checked_networks.
    + rewrite (run_remove r s m2 m3 n d) by done. unfold diff_of. by rewrite Hst.
  - unfold plan_container in Hplan. rewrite Hc in Hplan. injection Hplan as <- <-. injection Hrun as <-.
    rewrite Hv2, Hv1, Hi2, (diff_of_time _ _ _ now' now), <- Hd. clear -Hd Hc.
    unfold diff_of, parts_diff in Hd. rewrite Hd in Hc |- *. destruct (dk_state s), (default false _); try done. by destruct (is_empty _).
Qed.
End Converges.

(** ** In memory

    The backend that keeps its containers in memory keeps the promises, for
    every spec. *)
Section Mock.
Definition mock_view (m : MockDocker) (name : string) : option ContainerInfo := md_containers m !! name.
Definition mock_image (m : MockDocker) (image : string) : option string := md_images m !! image.

Lemma ensure_image_has img m : mock_image (ensure_image img m).2 img = Some (ensure_image img m).1 ∧
  (is_Some (mock_image m img) → (ensure_image img m).2 = m).
Proof.
  unfold ensure_image, mock_image. destruct (md_images m !! img) as [d|] eqn:E; cbn; [by rewrite E|].
  split; [apply lookup_insert_eq|by intros [? ?]].
Qed.

#[export] Instance mock_laws : DockerLaws MockBackend (λ _, True) mock_view mock_image.
Proof.
  constructor; unfold MockBackend; cbn [db_inspect_container db_image_id db_pull db_run db_stop db_remove db_connect_network].
  - by intros name m i m' [= <- <-].
  - by intros name m i m' [= <- <-].
  - intros name m m' [= <-]. rewrite (proj1 (ensure_image_has _ _)). by eexists.
  - intros name m m' [= <-]. unfold mock_alter, mock_view, mock_image. by destruct (md_containers _ !! name).
  - intros name force m m' [= <-]. split; [apply lookup_delete_eq|done].
  - intros s img id m m' _ Himg Hid. rewrite Himg. change (default "" (Some img)) with img. cbv zeta.
    destruct (ensure_image_has img (mock_record "run" (dk_name s) m)) as [Hhas Hsame].
    destruct (ensure_image img _) as [digest m1]. cbn [fst snd] in *.
    assert (m1 = mock_record "run" (dk_name s) m) as -> by (apply Hsame; by exists id). intros [= <-]. split; [done|]. exists (mock_container s img digest). split; [apply lookup_insert_eq|].
    change (mock_image m img = Some digest) in Hhas. assert (digest = id) as -> by congruence.
    constructor; try done.
    + intros l Hl. cbn. unfold sorted. by rewrite order_by_perm.
    + cbn. by intros hc ->.
    + cbn [mock_container ci_networks]. destruct (dk_network s); [by right|by left].
  - intros network s id networks i m m' [= <-] Hi Hr Hfresh. unfold mock_alter, mock_view in *. cbn [mock_record md_containers] in *. rewrite Hi.
    split; [done|]. exists (mock_connected network i). split; [apply lookup_insert_eq|].
    destruct Hr. unfold mock_connected. case_bool_decide as Hin.
    { constructor; try done. destruct rep_networks0 as [?|Hp]; [by left|]. by rewrite Hp in Hin. }
    constructor; try done. cbn. destruct rep_networks0 as [?|Hp]; [by left|right]. unfold sorted. by rewrite order_by_perm, Hp.
Qed.
End Mock.
