(* ===== verification/Dns.v ===== *)
(** * The DNS provider (crates/iac-providers/src/dns/)

    One record of a zone, found by its name and type: the spec (spec.rs), the
    Cloudflare backend that runs curl and the one kept in memory (backend.rs),
    the operations (ops.rs, mod.rs); and that an apply converges and a
    rollback brings the record back. *)

From stdpp Require Import pretty strings gmap.
From S2P Require Import Prelude Text Json ApiError Routing Db AuditLog Ids Net Diff Executor Chars PluginSpec Plugin SpecReader Posix FileProvider Command.

#[local] Open Scope string_scope.
#[local] Open Scope list_scope.
#[local] Open Scope nat_scope.
#[local] Open Scope io_scope.

(** ** The spec *)

Inductive RecordType := TypeA | TypeAAAA | TypeCNAME | TypeTXT | TypeMX.
Inductive RecordState := RecordPresent | RecordAbsent.
Inductive DnsBackendKind := Cloudflare.

#[export] Instance RecordType_eq_dec : EqDecision RecordType.
Proof. solve_decision. Defined.
#[export] Instance RecordState_eq_dec : EqDecision RecordState.
Proof. solve_decision. Defined.

(** The API token. *)
Record CloudflareCreds := mkCreds { cc_api_token : string }.

Record DnsRecordSpec := mkDns {
  dn_zone : string;
  dn_name : string;
  dn_type : RecordType;
  dn_value : option string;
  dn_ttl : Z;
  dn_state : RecordState;
  dn_provider : DnsBackendKind;
  dn_cloudflare : option CloudflareCreds
}.

Definition type_str (t : RecordType) : string :=
  match t with TypeA => "A" | TypeAAAA => "AAAA" | TypeCNAME => "CNAME" | TypeTXT => "TXT" | TypeMX => "MX" end.

(** An enum without a default. *)
Definition enum_required {A} (variants : list (string * A)) (v : option Json) : option A :=
  x ← v; name ← as_str x; assoc_get name variants.

Definition creds_of (v : Json) : option CloudflareCreds :=
  match strict_fields ["api_token"] v with Some [token] => t ← required_string token; Some (mkCreds t) | _ => None end.

Definition default_ttl : Z := 300.

Definition record_types : list (string * RecordType) := map (λ t, (type_str t, t)) [TypeA; TypeAAAA; TypeCNAME; TypeTXT; TypeMX].

Definition record_fields (v : Json) : option DnsRecordSpec :=
  match strict_fields ["zone"; "name"; "type"; "value"; "ttl"; "state"; "provider"; "cloudflare"] v with
  | Some [zone; name; type; value; ttl; state; provider; cloudflare] =>
      z ← required_string zone; n ← required_string name; t ← enum_required record_types type;
      x ← optional_string value; ttl ← unsigned_or u32_max default_ttl ttl;
      st ← enum_or [("present", RecordPresent); ("absent", RecordAbsent)] RecordPresent state;
      p ← enum_required [("cloudflare", Cloudflare)] provider; c ← optional_of creds_of cloudflare;
      Some (mkDns z n t x ttl st p c)
  | _ => None
  end.

(** What a value of the type may be. *)
Definition validate_record_value (t : RecordType) (v : string) : result message () :=
  match t with
  | TypeA => if bool_decide (parse_ipv4 v = None) then Err [Txt "A record value "; Dbg v; Txt " is not a valid IPv4 address"] else Ok ()
  | TypeAAAA => if bool_decide (parse_ipv6 v = None) then Err [Txt "AAAA record value "; Dbg v; Txt " is not a valid IPv6 address"] else Ok ()
  | TypeCNAME => if str_contains " " v || negb (str_contains "." v) then Err [Txt "CNAME record value "; Dbg v; Txt " should be a hostname"] else Ok ()
  | TypeTXT | TypeMX => Ok ()
  end.

Definition validate_creds (s : DnsRecordSpec) : result message () :=
  match dn_provider s with
  | Cloudflare =>
      cf ← ok_or (dn_cloudflare s) [Txt "cloudflare provider requires `cloudflare:` block"];
      if decide (cc_api_token cf = "")
      then Err [Txt "cloudflare.api_token must not be empty (use ${secret://env/CF_API_TOKEN})"] else Ok ()
  end.

Definition validate_record (s : DnsRecordSpec) : result message () :=
  if decide (dn_zone s = "") then Err [Txt "zone must not be empty"]
  else if decide (dn_name s = "") then Err [Txt "name must not be empty"]
  else if (dn_ttl s <? 30)%Z then Err [Txt "ttl "; Dec (dn_ttl s); Txt " too low; most providers reject values below 30"]
  else if bool_decide (dn_state s = RecordPresent) && bool_decide (default "" (dn_value s) = "")
  then Err [Txt "value must be set when state=present"]
  else
    _ ← validate_creds s;
    match dn_state s, dn_value s with
    | RecordPresent, Some v => validate_record_value (dn_type s) v
    | _, _ => Ok ()
    end.

Definition no_final_dots (s : string) : string := trim_end_matches (λ c, (c =? 46)%N) s.

(** The name sent over the wire. *)
Definition fqdn (s : DnsRecordSpec) : string :=
  let zone := no_final_dots (dn_zone s) in
  let name := no_final_dots (dn_name s) in
  if decide (name = zone) then zone
  else if bool_decide (is_Some (strip_suffix ("." +:+ zone) name)) then name
  else if decide (name = "@") then zone
  else name +:+ "." +:+ zone.

(** ** The backends *)

Record DnsRecord := mkDnsRecord {
  rec_id : string;
  rec_fqdn : string;
  rec_type : string;
  rec_value : string;
  rec_ttl : Z
}.

(** [trait DnsBackend]. *)
Record DnsBackend (M : Type) := mkDnsBackend {
  dns_find_record : string → string → RecordType → io M (option DnsRecord);
  dns_create_record : string → string → RecordType → string → Z → io M string;
  dns_update_record : string → string → string → RecordType → string → Z → io M ();
  dns_delete_record : string → string → io M ()
}.
Arguments dns_find_record {M} _ _ _ _.
Arguments dns_create_record {M} _ _ _ _ _ _.
Arguments dns_update_record {M} _ _ _ _ _ _ _.
Arguments dns_delete_record {M} _ _ _.

Definition dns_error (m : message) : CoreError := EProvider "dns.record" m.

(** *** Cloudflare *)

Definition DNS_API_TIMEOUT : Z := 30000.
Definition QUOTE : string := String (Ascii.ascii_of_N 34) "".

Definition unreserved (c : N) : bool := is_ascii_alphanumeric c || bool_decide (c ∈ [45; 95; 46; 126]%N).
Definition upper_hex (d : N) : string := String (Ascii.ascii_of_N (if (d <? 10)%N then 48 + d else 55 + d)%N) "".
Definition percent (a : Ascii.ascii) : string := "%" +:+ upper_hex (byte_of a / 16) +:+ upper_hex (byte_of a mod 16).
Definition encode_char (c : N) : string :=
  if unreserved c then utf8 c else str_join "" (map percent (String.list_ascii_of_string (utf8 c))).
Definition url_encode (s : string) : string := str_join "" (map encode_char (chars s)).

(** The header as curl reads it, in quotes. *)
Definition config_char (c : N) : bool := negb (bool_decide (c ∈ [34; 10; 13]%N)).
Definition curl_auth_config (auth : string) : string :=
  line ("header = " +:+ QUOTE +:+ of_chars (List.filter config_char (chars auth)) +:+ QUOTE).

Definition JSON_HEADER : list string := ["-H"; "Content-Type: application/json"].

Definition wire_url (path : string) : string := "https://api.cloudflare.com/client/v4/zones" +:+ path.

Section Backends.
Context {H : Type} `{!Programs H} `{!JsonCodec}.

Definition curl (args : list string) (method url auth : string) : io (Machine * H) string :=
  run_capture_stdout (mkCommand "curl" args (curl_auth_config auth) DNS_API_TIMEOUT) "dns.record" [Txt ("curl " +:+ method +:+ " "); Txt url].
Definition curl_get (url auth : string) : io (Machine * H) string :=
  curl (["-sS"; "--max-time"; "20"; "--fail-with-body"; "-K"; "-"] ++ JSON_HEADER ++ [url]) "GET" url auth.
Definition curl_request (method url auth : string) (body : option string) : io (Machine * H) string :=
  curl (["-sS"; "--max-time"; "20"; "--fail-with-body"; "-X"; method; "-K"; "-"] ++ JSON_HEADER ++
        match body with Some b => ["--data"; b] | None => [] end ++ [url]) method url auth.

Definition auth_header (creds : CloudflareCreds) : string := "Authorization: Bearer " +:+ cc_api_token creds.

(** The body of an answer. *)
Definition answer (what resp : string) : CoreResult Json :=
  map_err (λ e, dns_error [Txt (what +:+ " parse: "); Ext e; Txt ": "; Txt resp]) (json_from_str resp).

Definition zone_id (creds : CloudflareCreds) (zone : string) : io (Machine * H) string :=
  let* resp := curl_get (wire_url ("?name=" +:+ url_encode zone)) (auth_header creds) in
  let* body := io_lift (answer "zone lookup" resp) in
  io_lift (ok_or (r ← json_get body "result"; a ← as_array r; z ← head a; x ← json_get z "id"; as_str x)
                 (dns_error [Txt "zone "; Dbg zone; Txt " not found in Cloudflare account"])).

Definition text_in (v : Json) (k : string) : string := default "" (x ← json_get v k; as_str x).
Definition eq_ignore_ascii_case (a b : string) : bool := bool_decide (to_ascii_lowercase a = to_ascii_lowercase b).

(** The answer's records are looked at again: only one of the name and the type will do. *)
Definition wanted_record (name : string) (t : RecordType) (v : Json) : bool :=
  eq_ignore_ascii_case (text_in v "name") name && eq_ignore_ascii_case (text_in v "type") (type_str t).
Definition dns_record_of (v : Json) : DnsRecord :=
  mkDnsRecord (text_in v "id") (text_in v "name") (text_in v "type") (text_in v "content")
    (match x ← json_get v "ttl"; unsigned_of u64_max x with Some n => u32_try_from n | None => 0%Z end).

Definition records_url (zid : string) : string := wire_url ("/" +:+ zid +:+ "/dns_records").

Definition cloudflare_find (creds : CloudflareCreds) (zone name : string) (t : RecordType) : io (Machine * H) (option DnsRecord) :=
  let* zid := zone_id creds zone in
  let* resp := curl_get (records_url zid +:+ "?type=" +:+ type_str t +:+ "&name=" +:+ url_encode name) (auth_header creds) in
  let* body := io_lift (answer "list" resp) in
  let* records := io_lift (ok_or (r ← json_get body "result"; as_array r) (dns_error [Txt "Cloudflare list response missing `result`: "; Txt resp])) in
  io_ret (option_map dns_record_of (List.find (wanted_record name t) records)).

(** serde_json's objects are sorted by their keys. *)
Definition record_payload (name : string) (t : RecordType) (value : string) (ttl : Z) : Json :=
  JObject [("content", JString value); ("name", JString name); ("ttl", JNum ttl); ("type", JString (type_str t))].

Definition cloudflare_create (creds : CloudflareCreds) (zone name : string) (t : RecordType) (value : string) (ttl : Z) : io (Machine * H) string :=
  let* zid := zone_id creds zone in
  let* resp := curl_request "POST" (records_url zid) (auth_header creds) (Some (json_to_string (record_payload name t value ttl))) in
  let* body := io_lift (answer "create" resp) in
  io_lift (ok_or (r ← json_get body "result"; x ← json_get r "id"; as_str x) (dns_error [Txt "Cloudflare create response missing id: "; Txt resp])).

Definition api_succeeded (what resp : string) (body : Json) : CoreResult () :=
  if decide ((x ← json_get body "success"; as_bool x) = Some true) then Ok ()
  else Err (dns_error [Txt ("Cloudflare " +:+ what +:+ " returned success=false: "); Txt resp]).

Definition cloudflare_update (creds : CloudflareCreds) (zone id name : string) (t : RecordType) (value : string) (ttl : Z) : io (Machine * H) () :=
  let* zid := zone_id creds zone in
  let* resp := curl_request "PUT" (records_url zid +:+ "/" +:+ id) (auth_header creds) (Some (json_to_string (record_payload name t value ttl))) in
  let* body := io_lift (answer "update" resp) in
  io_lift (api_succeeded "update" resp body).

Definition cloudflare_delete (creds : CloudflareCreds) (zone id : string) : io (Machine * H) () :=
  let* zid := zone_id creds zone in
  let* resp := curl_request "DELETE" (records_url zid +:+ "/" +:+ id) (auth_header creds) None in
  let* body := io_lift (answer "delete" resp) in
  io_lift (api_succeeded "delete" resp body).

Definition CloudflareCli (creds : CloudflareCreds) : DnsBackend (Machine * H) := {|
  dns_find_record := cloudflare_find creds;
  dns_create_record := cloudflare_create creds;
  dns_update_record := cloudflare_update creds;
  dns_delete_record := cloudflare_delete creds
|}.

(** The backend of a spec. *)
Definition pick_backend (s : DnsRecordSpec) : CoreResult (DnsBackend (Machine * H)) :=
  match dn_provider s with
  | Cloudflare =>
      cf ← ok_or (dn_cloudflare s) (dns_error [Txt "cloudflare backend requested but `cloudflare:` block missing"]);
      Ok (CloudflareCli cf)
  end.
End Backends.

(** *** In memory

    The records by their zone, name and type. *)

Record DnsMockState := mkDnsState { ms_records : gmap (string * string * string) DnsRecord; ms_next_id : Z }.

Definition set_record_value (value : string) (ttl : Z) (r : DnsRecord) : DnsRecord :=
  mkDnsRecord (rec_id r) (rec_fqdn r) (rec_type r) value ttl.

Definition pre_insert (zone : string) (r : DnsRecord) : MockJournal DnsMockState → MockJournal DnsMockState :=
  mj_with_state_mut (λ s, mkDnsState (<[(zone, rec_fqdn r, rec_type r) := r]> (ms_records s)) (ms_next_id s)).

(** The error of an armed failure. *)
Definition mocked {R} (r : result string R * MockJournal DnsMockState) : CoreResult R * MockJournal DnsMockState :=
  (map_err (λ m, dns_error [Ext m]) r.1, r.2).

Definition mock_create (zone name : string) (t : RecordType) (value : string) (ttl : Z) (s : DnsMockState) : string * DnsMockState :=
  let next := (ms_next_id s + 1)%Z in
  let id := "rec-" +:+ hex_text_fuel 16 next in
  (id, mkDnsState (<[(zone, name, type_str t) := mkDnsRecord id name (type_str t) value ttl]> (ms_records s)) next).

Definition described (what name : string) (t : RecordType) (value : string) (ttl : Z) : string :=
  what +:+ " fqdn=" +:+ name +:+ " type=" +:+ type_str t +:+ " value=" +:+ value +:+ " ttl=" +:+ pretty ttl.

Definition MockDns : DnsBackend (MockJournal DnsMockState) := {|
  dns_find_record zone name t m := (Ok (ms_records (mj_state m) !! (zone, name, type_str t)), m);
  dns_create_record zone name t value ttl m :=
    mocked (mj_record "create" (described ("create zone=" +:+ zone) name t value ttl) (mock_create zone name t value ttl) m);
  dns_update_record zone id name t value ttl m :=
    mocked (mj_record "update" (described ("update zone=" +:+ zone +:+ " id=" +:+ id) name t value ttl)
      (λ s, ((), mkDnsState (alter (set_record_value value ttl) (zone, name, type_str t) (ms_records s)) (ms_next_id s))) m);
  dns_delete_record zone id m :=
    mocked (mj_record "delete" ("delete zone=" +:+ zone +:+ " id=" +:+ id)
      (λ s, ((), mkDnsState (filter (λ kv, rec_id kv.2 ≠ id) (ms_records s)) (ms_next_id s))) m)
|}.

(** ** The operations *)

Inductive DnsAction := DnsCreate | DnsUpdate | DnsDelete.
Definition dns_actions : list (string * DnsAction) := [("dns-create", DnsCreate); ("dns-update", DnsUpdate); ("dns-delete", DnsDelete)].
Definition dns_action_name (a : DnsAction) : string := match a with DnsCreate => "dns-create" | DnsUpdate => "dns-update" | DnsDelete => "dns-delete" end.

(** The action a kind of difference asks for. *)
Definition dns_action_for (k : DiffKind) : option DnsAction :=
  match k with Create => Some DnsCreate | Update => Some DnsUpdate | Delete => Some DnsDelete | NoChange => None end.

(** The type and the name, for messages. *)
Definition record_title (s : DnsRecordSpec) : string := type_str (dn_type s) +:+ " record " +:+ fqdn s.

Definition dns_observation (s : DnsRecordSpec) (r : option DnsRecord) (now : string) : ObservedState :=
  mkObserved (bool_decide (is_Some r))
    (match r with
     | Some r => JObject [("id", JString (rec_id r)); ("value", JString (rec_value r)); ("ttl", JNum (rec_ttl r))]
     | None => JNull
     end)
    [("fqdn", JString (fqdn s)); ("type", JString (type_str (dn_type s))); ("present", JBool (bool_decide (is_Some r)))] now.

(** [as_u64 … as u32]. *)
Definition observed_ttl (o : ObservedState) : option Z := n ← (v ← json_get (obs_spec o) "ttl"; unsigned_of u64_max v); Some (wrap_unsigned 32 n).
Definition observed_value (o : ObservedState) : option string := v ← json_get (obs_spec o) "value"; as_str v.

Definition record_changes (s : DnsRecordSpec) (o : ObservedState) : list FieldChange :=
  let desired := default "" (dn_value s) in
  (if decide (observed_value o = Some desired) then [] else [mkChange "value" (option_map JString (observed_value o)) (Some (JString desired)) false]) ++
  (if decide (observed_ttl o = Some (dn_ttl s)) then [] else [mkChange "ttl" (option_map JNum (observed_ttl o)) (Some (JNum (dn_ttl s))) false]).

Definition diff_record (s : DnsRecordSpec) (o : ObservedState) : Diff :=
  match dn_state s, obs_present o with
  | RecordAbsent, false => no_change
  | RecordAbsent, true => mkDiff Delete [state_change "present" "absent"] ["delete " +:+ record_title s] true
  | RecordPresent, false =>
      let desired := default "" (dn_value s) in
      mkDiff Create [mkChange "value" None (Some (JString desired)) false] ["create " +:+ record_title s +:+ " -> " +:+ desired] true
  | RecordPresent, true =>
      match record_changes s o with
      | [] => no_change
      | changes => mkDiff Update changes ["update " +:+ record_title s] true
      end
  end.

Definition prior_of (r : option DnsRecord) : Json :=
  match r with
  | Some r => JObject [("prior_id", JString (rec_id r)); ("prior_present", JBool true); ("prior_ttl", JNum (rec_ttl r)); ("prior_value", JString (rec_value r))]
  | None => JObject [("prior_present", JBool false)]
  end.

Section DnsProvider.
Context {M W : Type} `{ExecEnv} (backend_for : DnsRecordSpec → CoreResult (DnsBackend M)).
Context (serde_error : Json → string) (stamp : M → string).

Definition record_from_value (v : Json) : result message DnsRecordSpec :=
  spec ← ok_or (record_fields v) [Txt "parse: "; Ext (serde_error v)]; _ ← validate_record spec; Ok spec.
Definition record_spec_of (r : Resource) : CoreResult DnsRecordSpec := parse_spec "dns.record" record_from_value r.

Definition plan_record (s : DnsRecordSpec) (d : Diff) (n : nat) : list Step * nat :=
  match dns_action_for (diff_kind d) with
  | None => ([], n)
  | Some a => ([step_new (ulid_at n) (dns_action_name a) (dns_action_name a +:+ " " +:+ record_title s) JNull], S n)
  end.

Section Operations.
Context (backend : DnsBackend M).

Definition find_for (s : DnsRecordSpec) : io M (option DnsRecord) := dns_find_record backend (dn_zone s) (fqdn s) (dn_type s).

Definition observe_record (s : DnsRecordSpec) : io M ObservedState :=
  let* r := find_for s in λ m, (Ok (dns_observation s r (stamp m)), m).

Definition pre_apply_record (s : DnsRecordSpec) : io M Json := let* r := find_for s in io_ret (prior_of r).

Definition apply_record (s : DnsRecordSpec) (step : Step) : io M StepResult :=
  let* action := io_lift (parse_action "DnsAction" dns_actions (st_action step)) in
  let name := fqdn s in
  match action with
  | DnsCreate =>
      let* value := io_lift (ok_or (dn_value s) (dns_error [Txt "dns-create requires value"])) in
      let* id := dns_create_record backend (dn_zone s) name (dn_type s) value (dn_ttl s) in
      io_ret (step_result_ok [Txt "created "; Txt (record_title s); Txt " (id="; Txt id; Txt ")"])
  | DnsUpdate =>
      let* value := io_lift (ok_or (dn_value s) (dns_error [Txt "dns-update requires value"])) in
      let* found := find_for s in
      let* existing := io_lift (ok_or found (dns_error [Txt "dns-update: record "; Txt name; Txt " unexpectedly missing"])) in
      dns_update_record backend (dn_zone s) (rec_id existing) name (dn_type s) value (dn_ttl s) ;*
      io_ret (step_result_ok [Txt "updated "; Txt (record_title s)])
  | DnsDelete =>
      let* found := find_for s in
      let* existing := io_lift (ok_or found (dns_error [Txt "dns-delete: record "; Txt name; Txt " already gone"])) in
      dns_delete_record backend (dn_zone s) (rec_id existing) ;*
      io_ret (step_result_ok [Txt "deleted "; Txt (record_title s)])
  end.

Definition rollback_record (s : DnsRecordSpec) (data : Json) : io M () :=
  let name := fqdn s in
  let* existing := find_for s in
  if default false (v ← json_get data "prior_present"; as_bool v) then
    let value := text_in data "prior_value" in
    let ttl := wrap_unsigned 32 (default 300%Z (v ← json_get data "prior_ttl"; unsigned_of u64_max v)) in
    match existing with
    | Some r => dns_update_record backend (dn_zone s) (rec_id r) name (dn_type s) value ttl
    | None => let* _ := dns_create_record backend (dn_zone s) name (dn_type s) value ttl in io_ret ()
    end
  else
    match existing with
    | Some r => dns_delete_record backend (dn_zone s) (rec_id r)
    | None => io_ret ()
    end.
End Operations.

(** A call with the resource's spec and the backend for it. *)
Definition with_backend {A} (r : Resource) (f : DnsRecordSpec → DnsBackend M → io M A) : io M A :=
  let* s := io_lift (record_spec_of r) in let* b := io_lift (backend_for s) in f s b.

Definition dns_provider : Provider M W := {|
  p_observe r m := (with_backend r (λ s b, observe_record b s) m).1;
  p_diff r o := s ← record_spec_of r; Ok (diff_record s o);
  p_plan r d n := match record_spec_of r with Ok s => let '(steps, n) := plan_record s d n in (Ok steps, n) | Err e => (Err e, n) end;
  p_pre_apply r _ _ := on_machine (with_backend r (λ s b, pre_apply_record b s));
  p_apply r step _ := on_machine (with_backend r (λ s b, apply_record b s step));
  p_verify r m := (with_backend r (λ s b, let* o := observe_record b s in
                                          let d := diff_record s o in
                                          io_ret (if is_change d then VMismatch (diff_changes d) else VMatch)) m).1;
  p_rollback r cp := on_machine (with_backend r (λ s b, rollback_record b s (cp_data cp)));
  p_capability_keys r := s ← record_spec_of r; Ok [fqdn s +:+ ":" +:+ type_str (dn_type s)]
|}.
End DnsProvider.

(** ** What the provider guarantees *)

(** A store with at most one record of a name and type in a zone. *)
Class DnsLaws {M : Type} (backend : DnsBackend M) (view : M → string → string → RecordType → option DnsRecord) : Prop := {
  find_tells zone name t m r m' : dns_find_record backend zone name t m = (Ok r, m') → r = view m zone name t ∧ view m' = view m;
  create_makes zone name t value ttl m id m' : dns_create_record backend zone name t value ttl m = (Ok id, m') → view m zone name t = None →
    ∃ r, view m' zone name t = Some r ∧ rec_value r = value ∧ rec_ttl r = ttl;
  update_sets zone name t value ttl m r m' : view m zone name t = Some r → dns_update_record backend zone (rec_id r) name t value ttl m = (Ok (), m') →
    ∃ r', view m' zone name t = Some r' ∧ rec_value r' = value ∧ rec_ttl r' = ttl;
  delete_drops zone name t m r m' : view m zone name t = Some r → dns_delete_record backend zone (rec_id r) m = (Ok (), m') → view m' zone name t = None
}.

(** What of a record the spec settles. *)
Definition settled (r : DnsRecord) : string * Z := (rec_value r, rec_ttl r).

Lemma unsigned_of_JNum max n : (0 ≤ n ≤ max)%Z → unsigned_of max (JNum n) = Some n.
Proof. intros Hn. by apply parse_unsigned_pretty. Qed.

Lemma wrap_u32_small n : (0 ≤ n ≤ u32_max)%Z → wrap_unsigned 32 n = n.
Proof. intros Hn. apply Z.mod_small. unfold u32_max in Hn. lia. Qed.

Section Guarantees.
Context {M : Type} `{ExecEnv} (backend : DnsBackend M) (view : M → string → string → RecordType → option DnsRecord).
Context `{!DnsLaws backend view} (backend_for : DnsRecordSpec → CoreResult (DnsBackend M)).
Context (serde_error : Json → string) (stamp : M → string).

Definition at_spec (s : DnsRecordSpec) (m : M) : option DnsRecord := view m (dn_zone s) (fqdn s) (dn_type s).

Lemma find_for_spec s m r m' : find_for backend s m = (Ok r, m') → r = at_spec s m ∧ view m' = view m.
Proof. apply find_tells. Qed.

Lemma pre_apply_spec s m data m' : pre_apply_record backend s m = (Ok data, m') → data = prior_of (at_spec s m).
Proof.
  unfold pre_apply_record, io_bind, io_ret. destruct (find_for backend s m) as [[r|e] m1] eqn:Hf; [|done].
  apply find_for_spec in Hf as [-> _]. by intros [= <- _].
Qed.

(** The rollback, from wherever the record is. *)
Lemma rollback_spec s prior m m' : (∀ r, prior = Some r → (0 ≤ rec_ttl r ≤ u32_max)%Z) →
  rollback_record backend s (prior_of prior) m = (Ok (), m') → option_map settled (at_spec s m') = option_map settled prior.
Proof.
  intros Httl. unfold rollback_record, io_bind, io_ret. destruct (find_for backend s m) as [[r|e] m1] eqn:Hf; [|done].
  apply find_for_spec in Hf as [-> Hv]. assert (at_spec s m1 = at_spec s m) as <- by (unfold at_spec; by rewrite Hv). clear Hv. destruct prior as [p|].
  - change (default false _) with true. change (text_in _ _) with (rec_value p).
    assert (wrap_unsigned 32 (default 300%Z (v ← json_get (prior_of (Some p)) "prior_ttl"; unsigned_of u64_max v)) = rec_ttl p) as ->.
    { specialize (Httl _ eq_refl). change (v ← json_get (prior_of (Some p)) "prior_ttl"; unsigned_of u64_max v) with (unsigned_of u64_max (JNum (rec_ttl p))).
      rewrite unsigned_of_JNum by (unfold u32_max, u64_max in *; lia). by apply wrap_u32_small. }
    cbv iota. destruct (at_spec s m1) as [r|] eqn:Hr.
    + intros (r' & Hr' & Hval & Ht)%(update_sets _ _ _ _ _ _ _ _ Hr). unfold at_spec. rewrite Hr'. cbn. unfold settled. by rewrite Hval, Ht.
    + destruct (dns_create_record _ _ _ _ _ _ m1) as [[id|e] m2] eqn:Hc; [|done]. intros [= <-].
      apply create_makes in Hc as (r' & Hr' & Hval & Ht); [|done]. unfold at_spec. rewrite Hr'. cbn. unfold settled. by rewrite Hval, Ht.
  - change (default false _) with false. cbv iota. destruct (at_spec s m1) as [r|] eqn:Hr.
    + intros Hd%(delete_drops _ _ _ _ _ _ Hr). unfold at_spec. by rewrite Hd.
    + intros [= <-]. by rewrite Hr.
Qed.

(** C30: A rollback that succeeds brings back the value and the time to live the
    record had when its checkpoint was taken, or its absence, whatever became
    of the record in between. *)
Theorem dns_rollback_restores {W} r s step ctx (m0 : M) (w : W) data m1 w1 cp m w2 m' w' :
  record_spec_of serde_error r = Ok s → backend_for s = Ok backend →
  (∀ prior, at_spec s m0 = Some prior → (0 ≤ rec_ttl prior ≤ u32_max)%Z) →
  p_pre_apply (dns_provider (W:=W) backend_for serde_error stamp) r step ctx (m0, w) = (Ok data, (m1, w1)) → cp_data cp = data →
  p_rollback (dns_provider (W:=W) backend_for serde_error stamp) r cp (m, w2) = (Ok (), (m', w')) →
  option_map settled (at_spec s m') = option_map settled (at_spec s m0).
Proof.
  intros Hspec Hb Httl. unfold dns_provider, on_machine, with_backend, io_bind, io_lift. cbn [p_pre_apply p_rollback]. rewrite Hspec, Hb.
  destruct (pre_apply_record backend s m0) as [res m1'] eqn:Hp. intros [= -> -> ->]. apply pre_apply_spec in Hp as ->. intros ->.
  destruct (rollback_record backend s _ m) as [res m1'] eqn:Hr. intros [= -> -> ->]. by apply rollback_spec in Hr.
Qed.

(** *** Convergence *)

Definition observed_at (s : DnsRecordSpec) (m : M) (now : string) : ObservedState := dns_observation s (at_spec s m) now.

Lemma observe_record_spec s m o m' : observe_record stamp backend s m = (Ok o, m') → view m' = view m ∧ ∃ now, o = observed_at s m now.
Proof.
  unfold observe_record, io_bind. destruct (find_for backend s m) as [[r|e] m1] eqn:Hf; [|done].
  apply find_for_spec in Hf as [-> Hv]. intros [= <- <-]. split; [done|]. by eexists.
Qed.

Lemma record_settled s r now : (0 ≤ dn_ttl s ≤ u32_max)%Z → dn_state s = RecordPresent →
  rec_value r = default "" (dn_value s) → rec_ttl r = dn_ttl s → diff_record s (dns_observation s (Some r) now) = no_change.
Proof.
  intros Hb Hst Hv Ht. unfold diff_record, record_changes. rewrite Hst.
  change (obs_present _) with true. change (observed_value _) with (Some (rec_value r)).
  assert (observed_ttl (dns_observation s (Some r) now) = Some (dn_ttl s)) as ->.
  { unfold observed_ttl. change (v ← json_get _ "ttl"; unsigned_of u64_max v) with (unsigned_of u64_max (JNum (rec_ttl r))).
    rewrite Ht, unsigned_of_JNum by (unfold u32_max, u64_max in *; lia). cbn. by rewrite wrap_u32_small. }
  cbv iota. rewrite Hv. by rewrite !decide_True.
Qed.

Lemma apply_record_settles s d n m o now res m' : observed_at s m now = o → diff_record s o = d → is_change d = true →
  validate_record s = Ok () → ∀ step, (plan_record s d n).1 = [step] → apply_record backend s step m = (Ok res, m') →
  match dn_state s with
  | RecordPresent => ∃ r, at_spec s m' = Some r ∧ rec_value r = default "" (dn_value s) ∧ rec_ttl r = dn_ttl s
  | RecordAbsent => at_spec s m' = None
  end.
Proof.
  intros <- Hd Hc Hval step. unfold plan_record.
  assert (∃ a, dns_action_for (diff_kind d) = Some a) as [a Ha].
  { unfold is_change in Hc. destruct (diff_kind d); [by rewrite bool_decide_eq_true_2 in Hc|by eexists..]. }
  rewrite Ha. cbn [fst]. intros [= <-]. unfold apply_record, io_bind, io_lift, io_ret. cbn [st_action step_new].
  assert (parse_action "DnsAction" dns_actions (dns_action_name a) = Ok a) as -> by (by destruct a).
  assert (Hkind : match dn_state s, at_spec s m with
          | RecordAbsent, Some _ => a = DnsDelete | RecordAbsent, None => False
          | RecordPresent, None => a = DnsCreate | RecordPresent, Some _ => a = DnsUpdate end).
  { subst d. unfold diff_record, observed_at, dns_observation in *. cbn [obs_present] in *. revert Ha Hc.
    destruct (dn_state s), (at_spec s m); cbn; try (by intros [= <-]); try done.
    destruct (record_changes _ _); [done|]. by intros [= <-]. }
  assert (dn_state s = RecordPresent → ∃ v, dn_value s = Some v) as Hsome.
  { intros Hst. destruct (dn_value s) as [v|] eqn:Hv; [by eexists|]. exfalso. revert Hval. unfold validate_record. rewrite Hst, Hv.
    repeat case_decide; try done. by destruct (dn_ttl s <? 30)%Z. }
  destruct (dn_state s) eqn:Hst.
  - destruct (Hsome eq_refl) as [v Hv]. rewrite Hv. cbn [ok_or default from_option id].
    destruct (at_spec s m) as [r|] eqn:Hr; subst a.
    + destruct (find_for backend s m) as [[found|e] m1] eqn:Hf; [|done]. apply find_for_spec in Hf as [-> Hv1]. rewrite Hr. cbn [ok_or].
      destruct (dns_update_record _ _ _ _ _ _ _ m1) as [[[]|e] m2] eqn:Hu; [|done]. intros [= _ <-].
      assert (view m1 (dn_zone s) (fqdn s) (dn_type s) = Some r) as Hr1 by (by rewrite Hv1).
      apply (update_sets _ _ _ _ _ _ _ _ Hr1) in Hu as (r' & Hr' & ? & ?). by exists r'.
    + destruct (dns_create_record _ _ _ _ _ _ m) as [[id|e] m2] eqn:Hu; [|done]. intros [= _ <-].
      apply create_makes in Hu as (r' & Hr' & ? & ?); [by exists r'|done].
  - destruct (at_spec s m) as [r|] eqn:Hr; [|done]. subst a.
    destruct (find_for backend s m) as [[found|e] m1] eqn:Hf; [|done]. apply find_for_spec in Hf as [-> Hv1]. rewrite Hr. cbn [ok_or].
    destruct (dns_delete_record _ _ _ m1) as [[[]|e] m2] eqn:Hu; [|done]. intros [= _ <-].
    assert (view m1 (dn_zone s) (fqdn s) (dn_type s) = Some r) as Hr1 by (by rewrite Hv1).
    by apply (delete_drops _ _ _ _ _ _ Hr1) in Hu.
Qed.

Lemma record_spec_checked r s : record_spec_of serde_error r = Ok s → validate_record s = Ok () ∧ (0 ≤ dn_ttl s ≤ u32_max)%Z.
Proof.
  unfold record_spec_of, parse_spec, record_from_value. destruct (spec ← _; _) as [s'|e] eqn:E; [|done]. intros [= ->].
  apply bind_Ok_inv in E as (s' & Hf & ([] & Hv & [= ->])%bind_Ok_inv). split; [done|].
  destruct (record_fields (r_spec r)) as [s'|] eqn:Hs; [|done]. injection Hf as ->. revert Hs. unfold record_fields.
  destruct (strict_fields _ _) as [fields|]; [|done]. do 8 (destruct fields as [|? fields]; [done|]). destruct fields; [|done].
  intros (? & _ & (? & _ & (? & _ & (? & _ & (ttl & Ht & (? & _ & (? & _ & (? & _ & [= <-])%bind_Some)%bind_Some)%bind_Some)%bind_Some)%bind_Some)%bind_Some)%bind_Some)%bind_Some.
  cbn. unfold unsigned_or in Ht. destruct o3 as [v|]; [|injection Ht as <-; unfold default_ttl, u32_max; lia].
  unfold unsigned_of in Ht. destruct v; try done. by apply parse_unsigned_range in Ht.
Qed.

(** Applying a record's plan converges: when the steps planned from a
    comparison have all succeeded, a verification finds nothing to do. *)
Theorem dns_apply_converges {W} r s ctx (m : M) o d n planned n' (w : W) m' w' v :
  let p := dns_provider (W:=W) backend_for serde_error stamp in
  record_spec_of serde_error r = Ok s → backend_for s = Ok backend →
  p_observe p r m = Ok o → p_diff p r o = Ok d → p_plan p r d n = (Ok planned, n') →
  apply_all p r ctx planned (m, w) = (Ok (), (m', w')) → p_verify p r m' = Ok v → v = VMatch.
Proof.
  intros p Hspec Hb. unfold p, dns_provider, with_backend, io_bind, io_lift, io_ret.
  cbn [p_observe p_diff p_plan p_verify]. rewrite Hspec, Hb. cbn [fst mbind result_bind].
  destruct (observe_record stamp backend s m) as [[o'|e] m1] eqn:Ho; [|done]. intros [= <-]. apply observe_record_spec in Ho as [_ [now ->]].
  intros [= <-]. destruct (plan_record s _ n) as [steps n2] eqn:Hplan. intros [= -> ->] Hrun.
  destruct (observe_record stamp backend s m') as [[o'|e] m2] eqn:Ho'; [|done]. apply observe_record_spec in Ho' as [_ [now' ->]].
  cbn [fst]. intros [= <-]. assert (diff_record s (observed_at s m' now') = no_change) as ->; [|done].
  destruct (record_spec_checked r s Hspec) as [Hval Hb'].
  destruct (is_change (diff_record s (observed_at s m now))) eqn:Hc.
  - assert (∃ step, planned = [step]) as [step ->].
    { unfold plan_record in Hplan. unfold is_change in Hc. destruct (diff_kind _); [by rewrite bool_decide_eq_true_2 in Hc|injection Hplan as <- _; by eexists..]. }
    cbn [apply_all] in Hrun. unfold io_bind, io_ret, dns_provider, on_machine, with_backend, io_lift in Hrun. cbn [p_apply] in Hrun.
    unfold io_bind in Hrun. rewrite Hspec, Hb in Hrun. destruct (apply_record backend s step m) as [[res|e] m1'] eqn:Ha; [|done]. injection Hrun as -> ->.
    pose proof (apply_record_settles s _ n m _ now res m' eq_refl eq_refl Hc Hval step ltac:(by rewrite Hplan) Ha) as Hset. unfold observed_at.
    destruct (dn_state s) eqn:Hst; [destruct Hset as (r' & -> & Hv & Ht); by apply record_settled|]. rewrite Hset. unfold diff_record. by rewrite Hst.
  - assert (planned = []) as ->.
    { unfold plan_record in Hplan. unfold is_change in Hc. destruct (diff_kind _); cbn in *; [by injection Hplan as <- _|by rewrite bool_decide_eq_false_2 in Hc..]. }
    cbn in Hrun. injection Hrun as <- _. revert Hc. unfold diff_record, observed_at.
    replace (record_changes s (dns_observation s (at_spec s m) now)) with (record_changes s (dns_observation s (at_spec s m) now')) by done.
    change (obs_present (dns_observation s (at_spec s m) now)) with (obs_present (dns_observation s (at_spec s m) now')).
    destruct (dn_state s), (obs_present _); try done. by destruct (record_changes _ _).
Qed.
End Guarantees.

(** *** In memory *)

Definition mock_records (m : MockJournal DnsMockState) (zone name : string) (t : RecordType) : option DnsRecord :=
  ms_records (mj_state m) !! (zone, name, type_str t).

#[export] Instance mock_dns_laws : DnsLaws MockDns mock_records.
Proof.
  constructor; unfold MockDns, mocked, mj_record, mock_records; cbn [dns_find_record dns_create_record dns_update_record dns_delete_record].
  - by intros zone name t m r m' [= <- <-].
  - intros zone name t value ttl m id m'. destruct (assoc_get _ _); [done|]. intros [= _ <-] _. cbn. eexists. by rewrite lookup_insert_eq.
  - intros zone name t value ttl m r m' Hr. destruct (assoc_get _ _); [done|]. intros [= <-]. cbn. rewrite lookup_alter_eq, Hr. by eexists.
  - intros zone name t m r m' Hr. destruct (assoc_get _ _); [done|]. intros [= <-]. cbn.
    apply map_lookup_filter_None. right. intros r' Hr' Hne. rewrite Hr in Hr'. by injection Hr' as <-.
Qed.

(** *** The record that is changed *)

(** What Cloudflare's answers are searched for: the record found, which an
    update or a delete then names, has the name and the type asked for. *)
Lemma cloudflare_finds_wanted {H} `{!Programs H} `{!JsonCodec} creds zone name t (h h' : Machine * H) r :
  cloudflare_find creds zone name t h = (Ok (Some r), h') →
  to_ascii_lowercase (rec_fqdn r) = to_ascii_lowercase name ∧ to_ascii_lowercase (rec_type r) = to_ascii_lowercase (type_str t).
Proof.
  unfold cloudflare_find, io_bind, io_lift, io_ret. destruct (zone_id creds zone h) as [[zid|e] h1]; [|done].
  destruct (curl_get _ _ h1) as [[resp|e] h2]; [|done]. destruct (answer "list" resp) as [body|e]; [|done].
  destruct (ok_or _ _) as [records|e]; [|done]. intros [= Hf _]. destruct (List.find _ records) as [v|] eqn:E; [|done]. injection Hf as <-.
  apply List.find_some in E as [_ Hw]. unfold wanted_record, eq_ignore_ascii_case in Hw. by apply andb_true_iff in Hw as [?%bool_decide_eq_true ?%bool_decide_eq_true].
Qed.

(** The name sent is the zone's own or one within it. *)
Lemma fqdn_in_zone s : fqdn s = no_final_dots (dn_zone s) ∨ ∃ host, fqdn s = host +:+ "." +:+ no_final_dots (dn_zone s).
Proof.
  unfold fqdn. case_decide; [by left|]. case_bool_decide as Hs; [|case_decide; [by left|right; by eexists]].
  destruct Hs as [host Hh%strip_suffix_sound]. right. by exists host.
Qed.

(** *** Texts for curl *)

(** Percent-decoding of RFC 3986. *)
Definition hex_of (a : Ascii.ascii) : option N := option_map Z.to_N (hex_value a).
Fixpoint url_decode (s : string) : option string :=
  match s with
  | "" => Some ""
  | String a s =>
      if (byte_of a =? 37)%N then
        match s with
        | String h (String l s) => x ← hex_of h; y ← hex_of l; t ← url_decode s; Some (String (Ascii.ascii_of_N (16 * x + y)) t)
        | _ => None
        end
      else t ← url_decode s; Some (String a t)
  end.

Lemma below_16 d : (d < 16)%N → d ∈ [0;1;2;3;4;5;6;7;8;9;10;11;12;13;14;15]%N.
Proof.
  intros Hd. apply list_elem_of_In. destruct d as [|p]; [by left|]. do 4 (destruct p as [p|p|]; try lia; try (cbn; tauto)).
Qed.

Lemma hex_of_upper d : (d < 16)%N → ∃ a, upper_hex d = String a "" ∧ hex_of a = Some d ∧ byte_of a ≠ 37%N.
Proof.
  intros Hin%below_16.
  repeat (apply elem_of_cons in Hin as [->|Hin]; [by eexists|]). by apply elem_of_nil in Hin.
Qed.

Lemma byte_of_256 a : (byte_of a < 256)%N.
Proof. apply Ascii.N_ascii_bounded. Qed.

Lemma decode_percent a t : url_decode (percent a +:+ t) = option_map (String a) (url_decode t).
Proof.
  pose proof (byte_of_256 a) as Hb. unfold percent.
  destruct (hex_of_upper (byte_of a / 16)) as (h & -> & Hh & _); [by apply N.Div0.div_lt_upper_bound|].
  destruct (hex_of_upper (byte_of a mod 16)) as (l & -> & Hl & _); [by apply N.mod_upper_bound|].
  change (("%" +:+ String h "" +:+ String l "") +:+ t) with (String (Ascii.ascii_of_N 37) (String h (String l t))). cbn [url_decode].
  change (byte_of (Ascii.ascii_of_N 37) =? 37)%N with true. cbv iota. rewrite Hh, Hl. cbn [mbind option_bind]. rewrite <- N.Div0.div_mod.
  unfold byte_of. rewrite Ascii.ascii_N_embedding. by destruct (url_decode t).
Qed.

Lemma decode_percents bytes t : url_decode (str_join "" (map percent bytes) +:+ t) = option_map (String.app (String.string_of_list_ascii bytes)) (url_decode t).
Proof.
  revert t. induction bytes as [|a bytes IH]; intros t; [change (url_decode t = option_map (String.app "") (url_decode t)); by destruct (url_decode t)|]. cbn [map String.string_of_list_ascii].
  assert (str_join "" (percent a :: map percent bytes) = percent a +:+ str_join "" (map percent bytes)) as ->.
  { destruct bytes; [by rewrite str_app_nil_r|done]. }
  rewrite str_app_assoc, decode_percent, IH. by destruct (url_decode t).
Qed.

Lemma unreserved_spec c : unreserved c = true → (c < 127)%N ∧ c ≠ 37%N.
Proof.
  unfold unreserved, is_ascii_alphanumeric, is_ascii_digit, is_ascii_alphabetic.
  rewrite !orb_true_iff, !andb_true_iff, bool_decide_eq_true, !N.leb_le, !elem_of_cons, elem_of_nil. lia.
Qed.

Lemma decode_encoded c t : url_decode (encode_char c +:+ t) = option_map (String.app (utf8 c)) (url_decode t).
Proof.
  unfold encode_char. destruct (unreserved c) eqn:Hu.
  - apply unreserved_spec in Hu as [Hc Hp]. unfold utf8. rewrite (proj2 (N.ltb_lt c 128)) by lia.
    change (String (Ascii.ascii_of_N c) "" +:+ t) with (String (Ascii.ascii_of_N c) t). cbn [url_decode]. unfold byte_of. rewrite Ascii.N_ascii_embedding by lia. rewrite (proj2 (N.eqb_neq _ _)) by done. by destruct (url_decode t).
  - rewrite decode_percents. by rewrite String.string_of_list_ascii_of_string.
Qed.

Lemma str_join_nil_cons (x : string) xs : str_join "" (x :: xs) = x +:+ str_join "" xs.
Proof. destruct xs; [symmetry; apply str_app_nil_r|done]. Qed.

(** A name survives the query string: decoding what [url_encode] makes gives
    the text back, whatever its characters are. *)
Theorem url_encode_decodes s : url_decode (url_encode s) = Some (of_chars (chars s)).
Proof.
  unfold url_encode. induction (chars s) as [|c cs IH]; [done|]. cbn [map]. by rewrite str_join_nil_cons, decode_encoded, IH.
Qed.

(** And has no byte with a meaning in a URL. *)
Definition plain_byte (a : Ascii.ascii) : bool := unreserved (byte_of a) || (byte_of a =? 37)%N.

Lemma percent_plain a : str_all plain_byte (percent a) = true.
Proof.
  pose proof (byte_of_256 a) as Hb. unfold percent.
  assert (∀ d, (d < 16)%N → str_all plain_byte (upper_hex d) = true) as Hd.
  { intros d Hin%below_16.
    repeat (apply elem_of_cons in Hin as [->|Hin]; [done|]). by apply elem_of_nil in Hin. }
  rewrite !str_all_app, !Hd; [done|by apply N.mod_lt|by apply N.Div0.div_lt_upper_bound].
Qed.

Lemma url_encode_plain s : str_all plain_byte (url_encode s) = true.
Proof.
  assert (∀ xs, Forall (λ x, str_all plain_byte x = true) xs →
            str_all plain_byte (str_join "" xs) = true) as Hjoin.
  { induction 1 as [|x xs Hx _ IH]; [done|]. by rewrite str_join_nil_cons, str_all_app, Hx. }
  apply Hjoin, Forall_map, Forall_forall. intros c _. unfold encode_char. destruct (unreserved c) eqn:Hu.
  - pose proof (unreserved_spec c Hu) as [Hc _]. unfold utf8. rewrite (proj2 (N.ltb_lt c 128)) by lia. unfold str_all, plain_byte, byte_of. cbn.
    by rewrite Ascii.N_ascii_embedding, Hu by lia.
  - apply Hjoin, Forall_map, Forall_forall. intros a _. apply percent_plain.
Qed.
