(* ===== verification/Monitoring.v ===== *)
(** * The health-check provider (crates/iac-providers/src/monitoring/)

    A check that must pass: the spec (spec.rs), the probes over std::net and
    the backend of scripted answers (backend.rs), the retries and the other
    operations (ops.rs, mod.rs); and that no probe reaches the address it is
    to refuse. *)

From stdpp Require Import pretty strings.
From S2P Require Import Prelude Text Json ApiError Routing Db AuditLog Ids Net Diff Executor Chars PluginSpec Plugin SpecReader Posix FileProvider.

#[local] Open Scope string_scope.
#[local] Open Scope list_scope.
#[local] Open Scope nat_scope.
#[local] Open Scope io_scope.

(** ** The spec *)

Inductive CheckState := CheckPresent | CheckAbsent.
Inductive CheckType := Http | Tcp.

Record MonitoringCheckSpec := mkCheck {
  ck_name : string;
  ck_type : CheckType;
  ck_target : string;
  ck_expected_status : option Z;
  ck_timeout_secs : Z;
  ck_state : CheckState;
  ck_retries : Z;
  ck_retry_interval_secs : Z
}.

Definition u16_max : Z := 65535.
Definition default_timeout_secs : Z := 5.
Definition default_retry_interval_secs : Z := 1.

Definition check_fields (v : Json) : option MonitoringCheckSpec :=
  match strict_fields ["name"; "type"; "target"; "expected_status"; "timeout_secs"; "state"; "retries"; "retry_interval_secs"] v with
  | Some [name; type; target; status; timeout; state; retries; interval] =>
      n ← required_string name; t ← (x ← type; k ← as_str x; assoc_get k [("http", Http); ("tcp", Tcp)]); g ← required_string target;
      e ← optional_unsigned u16_max status; timeout ← unsigned_or u64_max default_timeout_secs timeout;
      st ← enum_or [("present", CheckPresent); ("absent", CheckAbsent)] CheckPresent state;
      r ← unsigned_or u32_max 0 retries; i ← unsigned_or u64_max default_retry_interval_secs interval;
      Some (mkCheck n t g e timeout st r i)
  | _ => None
  end.

Definition check_name_char (c : N) : bool := is_ascii_alphanumeric c || bool_decide (c ∈ [45; 95; 46]%N).
Definition validate_check_name (name : string) : result message () :=
  if decide (name = "") then Err [Txt "name must not be empty"]
  else if negb (all_chars check_name_char name) then Err [Txt "name "; Dbg name; Txt " must be alphanumeric with optional '-', '_', '.'"]
  else Ok ().

Definition validate_http (s : MonitoringCheckSpec) : result message () :=
  let url := ck_target s in
  match strip_prefix "http://" url with
  | None => Err [Txt "http target "; Dbg url; Txt " must start with http:// (https is not supported in v1)"]
  | Some after =>
      if decide (default "" (head (split_on solidus after)) = "") then Err [Txt "http target "; Dbg url; Txt " has no host"]
      else match ck_expected_status s with
           | Some code => if (100 <=? code)%Z && (code <=? 599)%Z then Ok ()
                          else Err [Txt "expected_status "; Dec code; Txt " not a valid HTTP status (100..=599)"]
           | None => Ok ()
           end
  end.

Definition validate_tcp (s : MonitoringCheckSpec) : result message () :=
  let target := ck_target s in
  if bool_decide (is_Some (ck_expected_status s)) then Err [Txt "expected_status forbidden for tcp checks (no HTTP-style status)"]
  else
    '(host, port) ← ok_or (rsplit_once colon target) [Txt "tcp target "; Dbg target; Txt " must be host:port"];
    if decide (host = "") then Err [Txt "tcp target "; Dbg target; Txt " has no host"]
    else
      n ← ok_or (parse_unsigned u16_max port) [Txt "tcp target "; Dbg target; Txt " port "; Dbg port; Txt " not a number"];
      if (n =? 0)%Z then Err [Txt "tcp target "; Dbg target; Txt " port must be 1..=65535"]
      else if str_contains " " host then Err [Txt "tcp target "; Dbg target; Txt " host contains whitespace"]
      else Ok ().

Definition validate_check (s : MonitoringCheckSpec) : result message () :=
  _ ← validate_check_name (ck_name s);
  if negb ((1 <=? ck_timeout_secs s) && (ck_timeout_secs s <=? 60))%Z
  then Err [Txt "timeout_secs "; Dec (ck_timeout_secs s); Txt " out of range 1..=60"]
  else if (30 <? ck_retries s)%Z then Err [Txt "retries "; Dec (ck_retries s); Txt " exceeds cap (30)"]
  else if (60 <? ck_retry_interval_secs s)%Z
  then Err [Txt "retry_interval_secs "; Dec (ck_retry_interval_secs s); Txt " out of range 0..=60"]
  else if decide (ck_target s = "") then Err [Txt "target must not be empty"]
  else if contains_any [10; 13; 0; 9]%N (ck_target s) then Err [Txt "target must not contain control characters"]
  else match ck_type s with Http => validate_http s | Tcp => validate_tcp s end.

(** ** The backends *)

Inductive CheckOutcome := Healthy | Unhealthy (reason : message).
Definition is_healthy (o : CheckOutcome) : bool := match o with Healthy => true | Unhealthy _ => false end.
Definition outcome_message (o : CheckOutcome) : message := match o with Healthy => [Txt "healthy"] | Unhealthy m => m end.

(** [trait CheckBackend]. *)
Definition CheckBackend (M : Type) : Type := MonitoringCheckSpec → io M CheckOutcome.

(** *** Over the network *)

Abbreviation SocketAddr := (IpAddr * Z)%type.

(** The calls of std::net; timeouts are in seconds, a stream is a number. *)
Class Sockets (M : Type) := {
  to_socket_addrs : string → M → result string (list SocketAddr) * M;
  connect_timeout : SocketAddr → Z → M → result string nat * M;
  set_read_timeout : nat → Z → M → result string () * M;
  set_write_timeout : nat → Z → M → result string () * M;
  write_all_to : nat → string → M → result string () * M;
  read_to_end : nat → Z → M → result string string * M
}.

(** [SocketAddr]'s text. *)
Definition show_addr (a : SocketAddr) : string :=
  match a.1 with V4 _ => show_ip a.1 +:+ ":" +:+ pretty a.2 | V6 _ => "[" +:+ show_ip a.1 +:+ "]:" +:+ pretty a.2 end.

Definition is_metadata_addr (ip : IpAddr) : bool :=
  bool_decide (ip = V4 [169; 254; 169; 254]%Z) || bool_decide (ip = V6 [64768; 3778; 0; 0; 0; 0; 0; 596]%Z).

Record ParsedUrl := mkUrl { pu_host : string; pu_port : Z; pu_path : string }.

Definition parse_http_url (url : string) : result message ParsedUrl :=
  after ← ok_or (strip_prefix "http://" url) [Txt "not an http:// URL: "; Dbg url];
  let '(authority, path) := match split_once "/" after with Some (a, p) => (a, "/" +:+ p) | None => (after, "/") end in
  '(host, port) ← match rsplit_once colon authority with
                  | Some (h, p) => n ← ok_or (parse_unsigned u16_max p) [Txt "invalid port "; Dbg p; Txt " in URL "; Dbg url]; Ok (h, n)
                  | None => Ok (authority, 80%Z)
                  end;
  if decide (host = "") then Err [Txt "empty host in URL "; Dbg url] else Ok (mkUrl host port path).

Definition crlf : string := carriage_return +:+ newline_text.
Definition http_request (u : ParsedUrl) : string :=
  "GET " +:+ pu_path u +:+ " HTTP/1.0" +:+ crlf +:+ "Host: " +:+ pu_host u +:+ crlf +:+
  "User-Agent: iac-monitoring-check/1.0" +:+ crlf +:+ "Connection: close" +:+ crlf +:+ crlf.

Definition RESPONSE_CAP : Z := 65536.

(** What the answer says. *)
Definition status_line (buf : string) : string :=
  let first := default "" (head (split_on newline buf)) in
  trim_end_matches (λ c, (c =? 13)%N) (if decide (from_utf8_lossy first = first) then first else "").
Definition judge_response (expected : Z) (buf : string) : CheckOutcome :=
  let l := status_line buf in
  if decide (l = "") then Unhealthy [Txt "empty response"]
  else match t ← split_whitespace l !! 1; parse_unsigned u16_max t with
       | Some c => if (c =? expected)%Z then Healthy else Unhealthy [Txt "status "; Dec c; Txt " (expected "; Dec expected; Txt ")"]
       | None => Unhealthy [Txt "malformed status line: "; Dbg l]
       end.

Section Probes.
Context {M : Type} `{!Sockets M}.

(** A call whose error is the outcome. *)
Definition probe (A : Type) : Type := M → result CheckOutcome A * M.
Definition bind_probe {A B} (c : probe A) (f : A → probe B) : probe B := λ m,
  match c m with (Ok a, m') => f a m' | (Err o, m') => (Err o, m') end.
Definition or_unhealthy {A} (what : message) (c : M → result string A * M) : probe A := λ m,
  let '(r, m') := c m in (map_err (λ e, Unhealthy (what ++ [Txt ": "; Ext e])) r, m').
Definition outcome_of (c : probe CheckOutcome) : M → CheckOutcome * M := λ m,
  match c m with (Ok o, m') => (o, m') | (Err o, m') => (o, m') end.

(** The addresses of a target, none of which may be refused. *)
Definition allowed_addrs (what : message) (target : string) : probe (list SocketAddr) :=
  bind_probe (or_unhealthy what (to_socket_addrs target)) (λ addrs m,
    (if decide (addrs = []) then Err (Unhealthy (what ++ [Txt ": no addresses"]))
     else if existsb (λ a, is_metadata_addr a.1) addrs
     then Err (Unhealthy [Txt "refusing to probe cloud-metadata endpoint via "; Txt target; Txt " (SSRF guard)"])
     else Ok addrs, m)).

(** Each address in turn, up to the first that accepts. *)
Fixpoint try_addrs (timeout : Z) (last : message) (addrs : list SocketAddr) (m : M) : CheckOutcome * M :=
  match addrs with
  | [] => (Unhealthy last, m)
  | a :: addrs =>
      match connect_timeout a timeout m with
      | (Ok _, m') => (Healthy, m')
      | (Err e, m') => try_addrs timeout [Txt "connect "; Txt (show_addr a); Txt ": "; Ext e] addrs m'
      end
  end.

Definition check_tcp (target : string) (timeout : Z) : M → CheckOutcome * M :=
  outcome_of (bind_probe (allowed_addrs [Txt "DNS resolve "; Txt target] target) (λ addrs m,
    let '(o, m') := try_addrs timeout [] addrs m in (Ok o, m'))).

Definition http_fetch (u : ParsedUrl) (addr : SocketAddr) (timeout : Z) : probe string :=
  bind_probe (or_unhealthy [Txt "connect "; Txt (show_addr addr)] (connect_timeout addr timeout)) (λ stream,
  bind_probe (or_unhealthy [Txt "set_read_timeout"] (set_read_timeout stream timeout)) (λ _,
  bind_probe (or_unhealthy [Txt "set_write_timeout"] (set_write_timeout stream timeout)) (λ _,
  bind_probe (or_unhealthy [Txt "write"] (write_all_to stream (http_request u))) (λ _,
  or_unhealthy [Txt "read"] (read_to_end stream RESPONSE_CAP))))).

Definition check_http (url : string) (expected timeout : Z) : M → CheckOutcome * M :=
  match parse_http_url url with
  | Err e => λ m, (Unhealthy e, m)
  | Ok u =>
      let target := pu_host u +:+ ":" +:+ pretty (pu_port u) in
      outcome_of (bind_probe (allowed_addrs [Txt "DNS "; Txt target] target) (λ addrs,
        match addrs with
        | addr :: _ => bind_probe (http_fetch u addr timeout) (λ buf m, (Ok (judge_response expected buf), m))
        | [] => λ m, (Err (Unhealthy []), m)
        end))
  end.

Definition StdNetBackend : CheckBackend M := λ s m,
  let '(o, m') :=
    match ck_type s with
    | Tcp => check_tcp (ck_target s) (ck_timeout_secs s) m
    | Http => check_http (ck_target s) (default 200%Z (ck_expected_status s)) (ck_timeout_secs s) m
    end in
  (Ok o, m').
End Probes.

(** *** Scripted

    [MockCheck]: outcomes are queued at the front and taken from the back. *)
Record CheckScript := mkScript { cs_queue : list CheckOutcome; cs_calls : Z; cs_default : CheckOutcome }.
Definition queue_outcome (o : CheckOutcome) (c : CheckScript) : CheckScript := mkScript (o :: cs_queue c) (cs_calls c) (cs_default c).
Definition MockCheck : CheckBackend CheckScript := λ _ c,
  (Ok (default (cs_default c) (last (cs_queue c))), mkScript (removelast (cs_queue c)) (cs_calls c + 1) (cs_default c)).

(** ** The operations *)

Inductive MonitoringAction := MonitoringVerify.
Definition monitoring_actions : list (string * MonitoringAction) := [("monitoring.verify", MonitoringVerify)].

Section MonitoringProvider.
Context {M W : Type} `{ExecEnv, DebugText} (backend : CheckBackend M) (sleep : Z → M → M).
Context (serde_error : Json → string) (stamp : M → string).

Definition check_from_value (v : Json) : result message MonitoringCheckSpec :=
  spec ← ok_or (check_fields v) [Ext (serde_error v)]; _ ← validate_check spec; Ok spec.
Definition check_spec_of (r : Resource) : CoreResult MonitoringCheckSpec := parse_spec "monitoring.check" check_from_value r.

Definition check_value (s : MonitoringCheckSpec) : Json := JObject [("name", JString (ck_name s)); ("target", JString (ck_target s))].

Definition observe_check (s : MonitoringCheckSpec) : io M ObservedState :=
  match ck_state s with
  | CheckAbsent => λ m, (Ok (mkObserved true (check_value s) [("active", JBool false); ("healthy", JBool true)] (stamp m)), m)
  | CheckPresent =>
      let* o := backend s in
      λ m, (Ok (mkObserved (is_healthy o) (check_value s)
                  [("active", JBool true); ("healthy", JBool (is_healthy o)); ("message", JString (msg_text (outcome_message o)))] (stamp m)), m)
  end.

Definition diff_check (s : MonitoringCheckSpec) (o : ObservedState) : Diff :=
  match ck_state s, default false (v ← assoc_get "healthy" (obs_facts o); as_bool v) with
  | CheckAbsent, _ | CheckPresent, true => no_change
  | CheckPresent, false =>
      mkDiff Update [mkChange "healthy" (Some (JBool false)) (Some (JBool true)) false]
        ["check " +:+ ck_name s +:+ " unhealthy: " +:+ default "unhealthy" (v ← assoc_get "message" (obs_facts o); as_str v)] true
  end.

Definition plan_check (s : MonitoringCheckSpec) (d : Diff) (n : nat) : list Step * nat :=
  if negb (is_change d) then ([], n)
  else ([step_new (ulid_at n) "monitoring.verify" ("monitoring.check/" +:+ ck_name s) (JObject [("name", JString (ck_name s))])], S n).

(** [1u32.saturating_add(retries)]. *)
Definition total_attempts (s : MonitoringCheckSpec) : Z := Z.min u32_max (1 + ck_retries s).

Definition check_passed (s : MonitoringCheckSpec) (attempt : Z) : StepResult :=
  if (attempt =? 0)%Z then step_result_ok [Txt "check "; Txt (ck_name s); Txt " passed"]
  else step_result_ok [Txt "check "; Txt (ck_name s); Txt " passed on attempt "; Dec (attempt + 1); Txt "/"; Dec (total_attempts s)].

(** The attempts from one on; [remaining] is the total less the attempts made. *)
Fixpoint attempts (s : MonitoringCheckSpec) (remaining : nat) (attempt : Z) (last_reason : option message) : io M StepResult :=
  match remaining with
  | O => io_throw (EProvider "monitoring.check" ([Txt "check "; Txt (ck_name s); Txt " failed after "; Dec (total_attempts s); Txt " attempt(s): "] ++
                                                 default [Txt "unknown"] last_reason))
  | S remaining =>
      let* outcome := backend s in
      match outcome with
      | Healthy => io_ret (check_passed s attempt)
      | Unhealthy reason => λ m,
          attempts s remaining (attempt + 1) (Some reason) (if (0 <? total_attempts s - attempt - 1)%Z then sleep (ck_retry_interval_secs s) m else m)
      end
  end.

Definition apply_check (s : MonitoringCheckSpec) (step : Step) : io M StepResult :=
  let* _ := io_lift (parse_action "MonitoringAction" monitoring_actions (st_action step)) in
  attempts s (Z.to_nat (total_attempts s)) 0 None.

Definition monitoring_provider : Provider M W := {|
  p_observe r m := s ← check_spec_of r; (observe_check s m).1;
  p_diff r o := s ← check_spec_of r; Ok (diff_check s o);
  p_plan r d n := match check_spec_of r with Ok s => let '(steps, n) := plan_check s d n in (Ok steps, n) | Err e => (Err e, n) end;
  p_pre_apply r _ _ := on_machine (let* _ := io_lift (check_spec_of r) in io_ret (JObject []));
  p_apply r step _ := on_machine (let* s := io_lift (check_spec_of r) in apply_check s step);
  p_verify r m := s ← check_spec_of r; o ← (observe_check s m).1;
                  let d := diff_check s o in Ok (if is_change d then VMismatch (diff_changes d) else VMatch);
  p_rollback r _ := on_machine (let* _ := io_lift (check_spec_of r) in io_ret ());
  p_capability_keys r := s ← check_spec_of r; Ok [ck_name s]
|}.
End MonitoringProvider.

(** ** The address no probe reaches *)

(** The addresses at which clouds serve their metadata, as they are written. *)
Definition metadata_texts : list string := ["169.254.169.254"; "fd00:ec2::254"].
Definition metadata_ip (ip : IpAddr) : bool := bool_decide (Some ip ∈ map parse_ip metadata_texts).

(** The code's test recognises exactly these two. *)
Lemma metadata_addr_decides ip : is_metadata_addr ip = metadata_ip ip.
Proof.
  assert (map parse_ip metadata_texts = [Some (V4 [169; 254; 169; 254]%Z); Some (V6 [64768; 3778; 0; 0; 0; 0; 0; 596]%Z)]) as Ht
    by (vm_compute; reflexivity).
  unfold is_metadata_addr, metadata_ip. rewrite Ht, <- bool_decide_or. apply bool_decide_ext.
  rewrite !elem_of_cons, elem_of_nil. naive_solver.
Qed.

(** The network, but for what answers at the metadata addresses. *)
Definition rewired {M} (net : Sockets M) (answer : SocketAddr → Z → M → result string nat * M) : Sockets M := {|
  to_socket_addrs := to_socket_addrs;
  connect_timeout a t m := if metadata_ip a.1 then answer a t m else connect_timeout a t m;
  set_read_timeout := set_read_timeout;
  set_write_timeout := set_write_timeout;
  write_all_to := write_all_to;
  read_to_end := read_to_end
|}.

Section Refused.
Context {M : Type} (net : Sockets M) (answer : SocketAddr → Z → M → result string nat * M).
#[local] Existing Instance rewired.

Lemma allowed_addrs_spec what target m addrs m' : @allowed_addrs M net what target m = (Ok addrs, m') →
  Forall (λ a, metadata_ip a.1 = false) addrs.
Proof.
  unfold allowed_addrs, bind_probe, or_unhealthy. destruct (to_socket_addrs target m) as [[as_|e] m1]; [|done]. cbn.
  case_decide; [done|]. destruct (existsb _ as_) eqn:E; [done|]. intros [= <- _]. apply Forall_forall. intros a Ha.
  rewrite <- metadata_addr_decides. destruct (is_metadata_addr a.1) eqn:Hm; [|done]. rewrite <- E. symmetry. apply existsb_exists. exists a. split; [by apply list_elem_of_In|done].
Qed.

Lemma try_addrs_rewired timeout last addrs m : Forall (λ a, metadata_ip a.1 = false) addrs →
  @try_addrs M (rewired net answer) timeout last addrs m = @try_addrs M net timeout last addrs m.
Proof.
  intros Ha. revert last m. induction Ha as [|a addrs Ha _ IH]; intros last m; [done|]. cbn [try_addrs].
  change (@connect_timeout M (rewired net answer) a timeout m) with (if metadata_ip a.1 then answer a timeout m else @connect_timeout M net a timeout m).
  rewrite Ha. destruct (connect_timeout a timeout m) as [[?|e] m1]; [done|apply IH].
Qed.

Lemma http_fetch_rewired u a timeout m : metadata_ip a.1 = false →
  @http_fetch M (rewired net answer) u a timeout m = @http_fetch M net u a timeout m.
Proof. intros Ha. unfold http_fetch, bind_probe, or_unhealthy. cbn. by rewrite Ha. Qed.

Lemma check_tcp_rewired target timeout m : @check_tcp M (rewired net answer) target timeout m = @check_tcp M net target timeout m.
Proof.
  unfold check_tcp, outcome_of, bind_probe. change (@allowed_addrs M (rewired net answer)) with (@allowed_addrs M net).
  destruct (allowed_addrs _ target m) as [[addrs|o] m1] eqn:E; [|done]. by rewrite try_addrs_rewired by (by eapply allowed_addrs_spec).
Qed.

Lemma check_http_rewired url expected timeout m :
  @check_http M (rewired net answer) url expected timeout m = @check_http M net url expected timeout m.
Proof.
  unfold check_http. destruct (parse_http_url url) as [u|e]; [|done]. unfold outcome_of, bind_probe.
  change (@allowed_addrs M (rewired net answer)) with (@allowed_addrs M net).
  destruct (allowed_addrs _ _ m) as [[[|a addrs]|o] m1] eqn:E; [done| |done].
  apply allowed_addrs_spec in E. inversion_clear E. by rewrite http_fetch_rewired.
Qed.

(** What a probe says of a target that resolves to a metadata address. *)
Lemma allowed_addrs_refuses what target m addrs m1 a :
  to_socket_addrs target m = (Ok addrs, m1) → a ∈ addrs → metadata_ip a.1 = true →
  @allowed_addrs M net what target m =
    (Err (Unhealthy [Txt "refusing to probe cloud-metadata endpoint via "; Txt target; Txt " (SSRF guard)"]), m1).
Proof.
  intros Hr Ha Hm. unfold allowed_addrs, bind_probe, or_unhealthy. rewrite Hr. cbn.
  rewrite decide_False by (intros ->; by apply elem_of_nil in Ha).
  assert (existsb (λ a, is_metadata_addr a.1) addrs = true) as ->; [|done].
  apply existsb_exists. exists a. split; [by apply list_elem_of_In|by rewrite metadata_addr_decides].
Qed.

(** The host and port a check asks the resolver for. *)
Definition probed_target (s : MonitoringCheckSpec) : option string :=
  match ck_type s with
  | Tcp => Some (ck_target s)
  | Http => match parse_http_url (ck_target s) with
            | Ok u => Some (pu_host u +:+ ":" +:+ pretty (pu_port u))
            | Err _ => None
            end
  end.

(** C32: No probe opens a connection to 169.254.169.254 or fd00:ec2::254, the
    addresses the guard is for. Whatever would answer there, and whatever a
    name resolves to, the outcome of a check and what it does to the network
    are the same; and a check whose target resolves to one of the two, among
    others or not, is unhealthy with the guard's refusal, nothing being
    connected. The guard is for these two addresses as they stand: the first
    one mapped into IPv6 (::ffff:169.254.169.254) is not among them. *)
Theorem metadata_never_probed s m :
  @StdNetBackend M (rewired net answer) s m = @StdNetBackend M net s m ∧
  ∀ target addrs m1 a,
    probed_target s = Some target → to_socket_addrs target m = (Ok addrs, m1) → a ∈ addrs →
    (parse_ip "169.254.169.254" = Some a.1 ∨ parse_ip "fd00:ec2::254" = Some a.1) →
    @StdNetBackend M net s m =
      (Ok (Unhealthy [Txt "refusing to probe cloud-metadata endpoint via "; Txt target; Txt " (SSRF guard)"]), m1).
Proof.
  split; [unfold StdNetBackend; destruct (ck_type s); by rewrite ?check_http_rewired, ?check_tcp_rewired|].
  intros target addrs m1 a Ht Hr Ha Hip. assert (metadata_ip a.1 = true) as Hm.
  { apply bool_decide_eq_true. unfold metadata_texts. cbn [map]. destruct Hip as [<-|<-]; [left|right; left]. }
  unfold StdNetBackend, probed_target in *. destruct (ck_type s).
  - unfold check_http. destruct (parse_http_url (ck_target s)) as [u|]; [|done]. injection Ht as <-.
    unfold outcome_of, bind_probe at 1. by erewrite allowed_addrs_refuses.
  - injection Ht as <-. unfold check_tcp, outcome_of, bind_probe at 1. by erewrite allowed_addrs_refuses.
Qed.
End Refused.

(** ** Retries *)

Section Retries.
Context {M : Type} `{ExecEnv, DebugText} (backend : CheckBackend M) (sleep : Z → M → M).

(** The state after [k] probes that failed, each with the wait after it. *)
Fixpoint after_failures (s : MonitoringCheckSpec) (k : nat) (m : M) : option M :=
  match k with
  | O => Some m
  | S k => match backend s m with
           | (Ok (Unhealthy _), m1) => after_failures s k (sleep (ck_retry_interval_secs s) m1)
           | _ => None
           end
  end.

(** A check in which the last failure is not waited after. *)
Definition all_failed (s : MonitoringCheckSpec) (m m' : M) : Prop :=
  ∃ mk reason, after_failures s (Z.to_nat (ck_retries s)) m = Some mk ∧ backend s mk = (Ok (Unhealthy reason), m').

Lemma attempts_answer s remaining : ∀ attempt last m r m',
  (0 ≤ ck_retries s < u32_max)%Z → (Z.of_nat remaining = total_attempts s - attempt)%Z → 1 ≤ remaining →
  attempts backend sleep s remaining attempt last m = (r, m') →
  match r with
  | Ok res => ∃ k mk, k < remaining ∧ after_failures s k m = Some mk ∧ backend s mk = (Ok Healthy, m') ∧ res = check_passed s (attempt + Z.of_nat k)
  | Err e => (∃ mk reason, after_failures s (remaining - 1) m = Some mk ∧ backend s mk = (Ok (Unhealthy reason), m')) ∨
             ∃ k mk, k < remaining ∧ after_failures s k m = Some mk ∧ backend s mk = (Err e, m')
  end.
Proof.
  induction remaining as [|n IH]; intros attempt last m r m' Hs Hn Hpos; [lia|]. cbn [attempts]. unfold io_bind, io_ret.
  destruct (backend s m) as [[[|reason]|e] m1] eqn:Hb.
  - intros [= <- <-]. exists 0, m. split_and!; [lia|done|done|]. by rewrite Z.add_0_r.
  - destruct n as [|n].
    { rewrite (proj2 (Z.ltb_nlt _ _)) by lia. cbn. intros [= <- <-]. left. exists m, reason. by rewrite Hb. }
    rewrite (proj2 (Z.ltb_lt _ _)) by lia. intros Hrest. apply IH in Hrest; [|done|lia|lia].
    assert (∀ k, after_failures s (S k) m = after_failures s k (sleep (ck_retry_interval_secs s) m1)) as Hstep by (intros k; cbn; by rewrite Hb).
    destruct r as [res|e].
    + destruct Hrest as (k & mk & Hk & Hf & Hh & ->). exists (S k), mk. rewrite Hstep. split_and!; [lia|done|done|]. f_equal. lia.
    + destruct Hrest as [(mk & reason' & Hf & Hh)|(k & mk & Hk & Hf & Hh)].
      * left. exists mk, reason'. replace (S (S n) - 1) with (S (S n - 1)) by lia. by rewrite Hstep.
      * right. exists (S k), mk. rewrite Hstep. split_and!; [lia|done|done].
  - intros [= <- <-]. right. exists 0, m. split_and!; [lia|done|done].
Qed.

Context {W : Type} (serde_error : Json → string) (stamp : M → string).

Lemma check_spec_checked r s : check_spec_of serde_error r = Ok s → (0 ≤ ck_retries s ≤ 30)%Z.
Proof.
  unfold check_spec_of, parse_spec, check_from_value. destruct (spec ← _; _) as [s'|e] eqn:E; [|done]. intros [= ->].
  apply bind_Ok_inv in E as (s' & Hf & ([] & Hv & [= ->])%bind_Ok_inv). split.
  - destruct (check_fields (r_spec r)) as [s'|] eqn:Hs; [|done]. injection Hf as ->. revert Hs. unfold check_fields.
    destruct (strict_fields _ _) as [fields|]; [|done]. do 8 (destruct fields as [|? fields]; [done|]). destruct fields; [|done].
    intros (? & _ & (? & _ & (? & _ & (? & _ & (? & _ & (? & _ & (n & Hn & (? & _ & [= <-])%bind_Some)%bind_Some)%bind_Some)%bind_Some)%bind_Some)%bind_Some)%bind_Some)%bind_Some.
    cbn. unfold unsigned_or, unsigned_of in Hn. match type of Hn with match ?x with _ => _ end = _ => destruct x as [[]|]; try done end;
      [by apply parse_unsigned_range in Hn as [? _]|by injection Hn as <-].
  - revert Hv. unfold validate_check. intros ([] & _ & Hv)%bind_Ok_inv. revert Hv. destruct (negb _); [done|]. by destruct (Z.ltb_spec 30 (ck_retries s)).
Qed.

(** A check is probed until one probe passes, at most [retries + 1] times and
    never more than 31: an apply succeeds exactly at the first probe that
    passes, with a wait after each one before it, and otherwise fails after
    the last, or where the backend itself fails. *)
Theorem check_applies_at_first_pass r s step ctx (m : M) (w : W) res m' w' :
  check_spec_of serde_error r = Ok s → st_action step = "monitoring.verify" →
  p_apply (monitoring_provider (W:=W) backend sleep serde_error stamp) r step ctx (m, w) = (res, (m', w')) →
  (ck_retries s ≤ 30)%Z ∧
  match res with
  | Ok _ => ∃ k mk, (Z.of_nat k ≤ ck_retries s)%Z ∧ after_failures s k m = Some mk ∧ backend s mk = (Ok Healthy, m')
  | Err e => all_failed s m m' ∨ ∃ k mk, (Z.of_nat k ≤ ck_retries s)%Z ∧ after_failures s k m = Some mk ∧ backend s mk = (Err e, m')
  end.
Proof.
  intros Hspec Hact. destruct (check_spec_checked r s Hspec) as [Hmin H30]. unfold monitoring_provider, on_machine, io_bind, io_lift. cbn [p_apply].
  rewrite Hspec. unfold apply_check, io_bind, io_lift. rewrite Hact. change (parse_action _ _ "monitoring.verify") with (@Ok CoreError _ MonitoringVerify).
  destruct (attempts _ _ _ _ _ _ m) as [r' m1] eqn:Ha. intros [= -> -> _]. split; [done|].
  assert (total_attempts s = 1 + ck_retries s)%Z as Ht by (unfold total_attempts, u32_max; lia).
  apply attempts_answer in Ha; [|unfold u32_max; lia|rewrite Ht; lia..].
  rewrite Ht in Ha. replace (Z.to_nat (1 + ck_retries s) - 1) with (Z.to_nat (ck_retries s)) in Ha by lia. destruct res as [a|e].
  - destruct Ha as (k & mk & Hk & Hf & Hb & _). exists k, mk. split_and!; [lia|done|done].
  - destruct Ha as [Ha|(k & mk & Hk & Hf & Hb)]; [by left|right]. exists k, mk. split_and!; [lia|done|done].
Qed.
End Retries.
