(* ===== verification/Compose.v ===== *)
(** * The compose provider (crates/iac-providers/src/compose/)

    A compose stack as one resource: the spec (spec.rs), the backend that runs
    docker compose and the one kept in memory (backend.rs), the operations on
    the file it is written to (ops.rs, mod.rs); and that an apply converges
    and a rollback brings the file back. *)

From stdpp Require Import pretty strings gmap.
From S2P Require Import Prelude Text Json ApiError Routing Db AuditLog Ids Diff Executor Chars PluginSpec Plugin SpecReader Posix FileProvider Command FileProps.

#[local] Open Scope string_scope.
#[local] Open Scope list_scope.
#[local] Open Scope nat_scope.
#[local] Open Scope io_scope.

(** ** The spec *)

Inductive ComposeState := ComposePresent | ComposeAbsent.

#[export] Instance ComposeState_eq_dec : EqDecision ComposeState.
Proof. solve_decision. Defined.

Record DockerComposeSpec := mkCompose {
  co_project : string;
  co_state : ComposeState;
  co_source : option string;
  co_env_file : option string;
  co_workdir : option string
}.

Definition compose_fields (v : Json) : option DockerComposeSpec :=
  match strict_fields ["project"; "state"; "source"; "env_file"; "workdir"] v with
  | Some [project; state; source; env_file; workdir] =>
      p ← required_string project; st ← enum_or [("present", ComposePresent); ("absent", ComposeAbsent)] ComposePresent state;
      s ← optional_string source; e ← optional_string env_file; w ← optional_string workdir; Some (mkCompose p st s e w)
  | _ => None
  end.

(** Lowercase letters, digits, [_] and [-]. *)
Definition valid_project_char (c : N) : bool := ((97 <=? c) && (c <=? 122))%N || is_ascii_digit c || (c =? 95)%N || (c =? 45)%N.

Definition must_be_absolute (what : string) (path : option string) : result message () :=
  match path with
  | Some p => if negb (is_absolute p) then Err [Txt (what +:+ " "); Txt p; Txt " must be absolute"] else Ok ()
  | None => Ok ()
  end.

Definition validate_compose (s : DockerComposeSpec) : result message () :=
  if decide (co_project s = "") then Err [Txt "project must not be empty"]
  else if negb (all_chars valid_project_char (co_project s))
  then Err [Txt "project "; Dbg (co_project s); Txt ": only lowercase ASCII letters, digits, '_' and '-' allowed"]
  else if bool_decide (co_state s = ComposePresent) && is_blank (default "" (co_source s))
  then Err [Txt "source must be a non-empty compose YAML when state=present"]
  else _ ← must_be_absolute "env_file" (co_env_file s); must_be_absolute "workdir" (co_workdir s).

(** [Path::join] with a relative name. *)
Definition dir_join (dir name : string) : string :=
  match strip_suffix "/" dir with Some _ => dir +:+ name | None => dir +:+ "/" +:+ name end.

Definition project_dir (s : DockerComposeSpec) : string := dir_join (default "/var/lib/iac/compose" (co_workdir s)) (co_project s).
Definition compose_file (s : DockerComposeSpec) : string := dir_join (project_dir s) "docker-compose.yml".
Definition source_sha256 `{Sha256} (s : DockerComposeSpec) : string := sha256_hex (default "" (co_source s)).

(** ** The backends *)

Record ComposeService := mkService { cs_name : string; cs_state : string; cs_status : string; cs_image : string }.

(** [trait ComposeBackend]. *)
Record ComposeBackend (M : Type) := mkComposeBackend {
  cb_list_services : string → io M (list ComposeService);
  cb_up : string → string → option string → io M ();
  cb_down : string → option string → io M ()
}.
Arguments cb_list_services {M} _ _.
Arguments cb_up {M} _ _ _ _.
Arguments cb_down {M} _ _ _.

Definition compose_error (m : message) : CoreError := EProvider "docker.compose" m.

(** *** docker compose *)

Definition COMPOSE_PS_TIMEOUT : Z := 30000.
Definition COMPOSE_UP_TIMEOUT : Z := 600000.
Definition COMPOSE_DOWN_TIMEOUT : Z := 120000.

Section Cli.
Context {H : Type} `{!Programs H} `{!JsonCodec}.

Definition service_text (v : Json) (k : string) : string := default "" (x ← json_get v k; as_str x).
Definition service_of (v : Json) : ComposeService :=
  mkService (service_text v "Service") (service_text v "State") (service_text v "Status") (service_text v "Image").

(** One JSON object per line. *)
Definition parse_services (stdout : string) : CoreResult (list ComposeService) :=
  services ← try_map (λ l, v ← map_err (λ e, compose_error [Txt "docker compose ps json: "; Ext e]) (json_from_str l); Ok (service_of v))
    (List.filter (λ l, negb (bool_decide (l = ""))) (map trim (str_lines stdout)));
  Ok (order_by (λ a b, str_le (cs_name a) (cs_name b)) services).

Definition compose_label (what project : string) : message := [Txt ("docker compose " +:+ what +:+ " -p "); Txt project].

Definition cli_list_services (project : string) : io (Machine * H) (list ComposeService) :=
  let* stdout := run_capture_stdout (mkCommand "docker" ["compose"; "-p"; project; "ps"; "--format"; "json"; "--all"] "" COMPOSE_PS_TIMEOUT)
                   "docker.compose" (compose_label "ps" project) in
  io_lift (parse_services stdout).

Definition cli_up (project file : string) (env_file : option string) : io (Machine * H) () :=
  run_check_status (mkCommand "docker" (["compose"; "-p"; project; "-f"; file] ++ match env_file with Some e => ["--env-file"; e] | None => [] end ++
                                        ["up"; "-d"; "--remove-orphans"]) "" COMPOSE_UP_TIMEOUT)
    "docker.compose" (compose_label "up" project).

Definition cli_down (project : string) (file : option string) : io (Machine * H) () :=
  run_check_status (mkCommand "docker" (["compose"; "-p"; project] ++ match file with Some f => ["-f"; f] | None => [] end ++ ["down"; "--remove-orphans"])
                      "" COMPOSE_DOWN_TIMEOUT)
    "docker.compose" (compose_label "down" project).

Definition ComposeCli : ComposeBackend (Machine * H) :=
  {| cb_list_services := cli_list_services; cb_up := cli_up; cb_down := cli_down |}.
End Cli.

(** *** In memory

    The services of the projects. *)
Abbreviation ComposeMockState := (gmap string (list ComposeService)).

Section Mock.
Context `{Kernel} `{!Links (MockJournal ComposeMockState)}.

(** serde_yaml's reading of a document. *)
Context (yaml_from_str : string → option Json).

Definition parse_service_names_from_yaml (text : string) : list string :=
  order_by str_le (default [] (doc ← yaml_from_str text; services ← json_get doc "services"; m ← as_object services; Some (map fst m))).

Definition mock_set_state (project : string) (services : list ComposeService) : MockJournal ComposeMockState → MockJournal ComposeMockState :=
  mj_with_state_mut (insert project services).

(** A change of the journal; an armed failure is an error. *)
Definition journaled (op text : string) (f : ComposeMockState → ComposeMockState) : io (Machine * MockJournal ComposeMockState) () := λ '(m, j),
  let '(r, j') := mj_record op text (λ s, ((), f s)) j in (map_err (λ e, compose_error [Ext e]) r, (m, j')).

(** The file is read before the journal is written. *)
Definition mock_up (project file : string) (env_file : option string) : io (Machine * MockJournal ComposeMockState) () := λ s,
  let '(text, s) := read_string (components file) s in
  let prepared := match text with
                  | Ok text => map (λ name, mkService name "running" "Up" "mock") (parse_service_names_from_yaml text)
                  | Err _ => []
                  end in
  journaled "up" ("up project=" +:+ project +:+ " file=" +:+ file +:+ " env=" +:+ default "-" env_file)
    (λ services, match services !! project with Some _ => services | None => <[project := prepared]> services end) s.

Definition MockCompose : ComposeBackend (Machine * MockJournal ComposeMockState) := {|
  cb_list_services project s := (Ok (default [] (mj_state s.2 !! project)), s);
  cb_up := mock_up;
  cb_down project _ := journaled "down" ("down project=" +:+ project) (delete project)
|}.
End Mock.

(** ** The operations *)

Inductive ComposeAction := ComposeUp | ComposeDown.
Definition compose_actions : list (string * ComposeAction) := [("compose-up", ComposeUp); ("compose-down", ComposeDown)].
Definition compose_action_name (a : ComposeAction) : string := match a with ComposeUp => "compose-up" | ComposeDown => "compose-down" end.

Definition running_count (services : list ComposeService) : nat := count_if (λ s, bool_decide (cs_state s = "running")) services.
Definition sha_json (sha : option string) : Json := match sha with Some s => JString s | None => JNull end.
Definition count_json (n : nat) : Json := JNum (Z.of_nat n).

Definition services_to_yaml (services : list ComposeService) : Json :=
  JArray (map (λ s, JObject [("name", JString (cs_name s)); ("state", JString (cs_state s)); ("image", JString (cs_image s))]) services).

Definition compose_observation (services : list ComposeService) (sha : option string) (now : string) : ObservedState :=
  mkObserved (match services with [] => false | _ => true end) (services_to_yaml services)
    [("service_count", count_json (length services)); ("on_disk_sha256", sha_json sha); ("running_count", count_json (running_count services))] now.

Definition diff_compose `{Sha256} (s : DockerComposeSpec) (o : ObservedState) : Diff :=
  let observed_sha := v ← assoc_get "on_disk_sha256" (obs_facts o); as_str v in
  match co_state s, obs_present o with
  | ComposeAbsent, false => no_change
  | ComposeAbsent, true => mkDiff Update [state_change "present" "absent"] ["tear down compose project " +:+ co_project s] false
  | ComposePresent, false => mkDiff Create [state_change "absent" "present"] ["bring up compose project " +:+ co_project s] true
  | ComposePresent, true =>
      if decide (observed_sha = Some (source_sha256 s)) then no_change
      else mkDiff Update [mkChange "source_sha256" (option_map JString observed_sha) (Some (JString (source_sha256 s))) false]
             ["compose source changed for project " +:+ co_project s +:+ "; recreating"] true
  end.

Section ComposeProvider.
Context {H W : Type} `{Kernel, !Links H, ExecEnv, Sha256} (backend : ComposeBackend (Machine * H)).
Context (serde_error : Json → string) (stamp : Machine * H → string).

Definition compose_from_value (v : Json) : result message DockerComposeSpec :=
  spec ← ok_or (compose_fields v) [Txt "parse: "; Ext (serde_error v)]; _ ← validate_compose spec; Ok spec.
Definition compose_spec_of (r : Resource) : CoreResult DockerComposeSpec := parse_spec "docker.compose" compose_from_value r.

(** [.ok()] of a call, and [.map_err]. *)
Definition call_ok {A} (c : Machine * H → result string A * (Machine * H)) : io (Machine * H) (option A) := λ s,
  let '(r, s') := c s in (Ok (match r with Ok a => Some a | Err _ => None end), s').
Definition call_err {A} (what path : string) (c : Machine * H → result string A * (Machine * H)) : io (Machine * H) A := λ s,
  let '(r, s') := c s in (map_err (λ e, compose_error [Txt (what +:+ " "); Txt path; Txt ": "; Ext e]) r, s').

Definition read_sha256_of_file (path : string) : io (Machine * H) (option string) :=
  let* bytes := call_ok (read_bytes (components path)) in io_ret (option_map sha256_hex bytes).

Definition observe_compose (s : DockerComposeSpec) : io (Machine * H) ObservedState :=
  let* services := cb_list_services backend (co_project s) in
  let* sha := read_sha256_of_file (compose_file s) in
  λ st, (Ok (compose_observation services sha (stamp st)), st).

Definition plan_compose (s : DockerComposeSpec) (d : Diff) (n : nat) : list Step * nat :=
  if negb (is_change d) then ([], n)
  else let a := match co_state s with ComposePresent => ComposeUp | ComposeAbsent => ComposeDown end in
       ([step_new (ulid_at n) (compose_action_name a) (compose_action_name a +:+ " project=" +:+ co_project s) JNull], S n).

Definition pre_apply_compose (s : DockerComposeSpec) : io (Machine * H) Json :=
  let* services := cb_list_services backend (co_project s) in
  let* sha := read_sha256_of_file (compose_file s) in
  let* source := call_ok (read_string (components (compose_file s))) in
  io_ret (JObject [("on_disk_sha256", sha_json sha); ("prior_source", sha_json source);
                   ("running_count", count_json (running_count services)); ("service_count", count_json (length services))]).

(** The file in its directory; [what] starts the messages. *)
Definition make_dir (what : string) (s : DockerComposeSpec) : io (Machine * H) () :=
  call_err (what +:+ "create_dir_all") (project_dir s) (beside (create_dir_all (components (project_dir s)))).
Definition put_source (what : string) (s : DockerComposeSpec) (source : string) : io (Machine * H) () :=
  call_err (what +:+ "write") (compose_file s) (write_bytes (components (compose_file s)) source).
Definition remove_project (s : DockerComposeSpec) : io (Machine * H) () :=
  io_ignore (call_err "" "" (beside (remove_dir_all (components (project_dir s))))).

Definition apply_compose (s : DockerComposeSpec) (step : Step) : io (Machine * H) StepResult :=
  let* action := io_lift (parse_action "ComposeAction" compose_actions (st_action step)) in
  match action with
  | ComposeUp =>
      make_dir "" s ;*
      let* source := io_lift (ok_or (co_source s) (compose_error [Txt "compose-up requires source"])) in
      put_source "" s source ;*
      cb_up backend (co_project s) (compose_file s) (co_env_file s) ;*
      io_ret (step_result_ok [Txt "compose-up project="; Txt (co_project s)])
  | ComposeDown =>
      let* there := (λ st, let '(m, h) := st in let '(r, m') := path_exists (components (compose_file s)) m in (r, (m', h))) in
      cb_down backend (co_project s) (if there : bool then Some (compose_file s) else None) ;*
      remove_project s ;*
      io_ret (step_result_ok [Txt "compose-down project="; Txt (co_project s)])
  end.

Definition rollback_compose (s : DockerComposeSpec) (data : Json) : io (Machine * H) () :=
  let tear_down := cb_down backend (co_project s) None ;* remove_project s in
  match v ← json_get data "prior_source"; as_str v with
  | Some source =>
      if decide (source = "") then tear_down
      else
        make_dir "rollback " s ;*
        put_source "rollback " s source ;*
        cb_up backend (co_project s) (compose_file s) (co_env_file s)
  | None => tear_down
  end.

Definition compose_provider : Provider (Machine * H) W := {|
  p_observe r m := s ← compose_spec_of r; (observe_compose s m).1;
  p_diff r o := s ← compose_spec_of r; Ok (diff_compose s o);
  p_plan r d n := match compose_spec_of r with Ok s => let '(steps, n) := plan_compose s d n in (Ok steps, n) | Err e => (Err e, n) end;
  p_pre_apply r _ _ := on_machine (let* s := io_lift (compose_spec_of r) in pre_apply_compose s);
  p_apply r step _ := on_machine (let* s := io_lift (compose_spec_of r) in apply_compose s step);
  p_verify r m := s ← compose_spec_of r; o ← (observe_compose s m).1;
                  let d := diff_compose s o in Ok (if is_change d then VMismatch (diff_changes d) else VMatch);
  p_rollback r cp := on_machine (let* s := io_lift (compose_spec_of r) in rollback_compose s (cp_data cp));
  p_capability_keys r := s ← compose_spec_of r; Ok [co_project s]
|}.
End ComposeProvider.

(** ** What the provider guarantees *)

(** No file is changed. *)
Definition keeps_files {H A : Type} (c : io (Machine * H) A) : Prop :=
  ∀ st r st', c st = (r, st') → mc_files st'.1 = mc_files st.1 ∧ mc_calls st.1 ≤ mc_calls st'.1.

(** A backend that knows the services of each project: bringing one up starts
    some, taking it down leaves none, and none of it changes a file. *)
Class ComposeLaws {H : Type} (backend : ComposeBackend (Machine * H)) (view : H → string → list ComposeService) : Prop := {
  list_tells p st l st' : cb_list_services backend p st = (Ok l, st') → l = view st.2 p ∧ view st'.2 = view st.2;
  up_starts p f e st st' : cb_up backend p f e st = (Ok (), st') → view st'.2 p ≠ [];
  down_stops p f st st' : cb_down backend p f st = (Ok (), st') → view st'.2 p = [];
  list_keeps p : keeps_files (cb_list_services backend p);
  up_keeps p f e : keeps_files (cb_up backend p f e);
  down_keeps p f : keeps_files (cb_down backend p f)
}.

Section Files.
Context {H : Type} `{Kernel, !Links H}.

Lemma make_dir_spec what s (m : Machine) (h : H) r st' : make_dir what s (m, h) = (r, st') →
  st'.2 = h ∧ grown (components (project_dir s)) (mc_files m) (mc_files st'.1).
Proof.
  unfold make_dir, call_err, beside. pose proof (create_dir_all_grown (components (project_dir s)) (mc_files m) (rev (components (project_dir s))) m) as Hg.
  unfold create_dir_all. destruct (create_dir_all_rev _ m) as [r' m']. intros [= _ <-]. split; [done|].
  apply Hg; [by rewrite rev_involutive|apply grown_refl].
Qed.

Lemma grown_no_link dir f0 f p : grown dir f0 f → is_link (f0 !! p) = false → is_link (f !! p) = false.
Proof. intros Hg Hl. destruct (Hg p) as [->|(_ & -> & _)]; done. Qed.

Lemma put_source_spec what s source (m : Machine) (h : H) st' : is_link (mc_files m !! components (compose_file s)) = false →
  put_source what s source (m, h) = (Ok (), st') →
  st'.2 = h ∧ ∃ md u g, mc_files st'.1 !! components (compose_file s) = Some (Regular source md u g).
Proof.
  intros Hl. unfold put_source, call_err, write_bytes, beside. rewrite Hl. unfold write_path, call_or.
  destruct (call_fails (mc_calls m)); [done|]. destruct (mc_files m !! _) as [[c md u g| | |]|] eqn:Hn; try done; intros [= <-]; (split; [done|]).
  - cbn. unfold map_regular. rewrite Hn. exists md, u, g. apply lookup_insert_eq.
  - cbn. eexists _, _, _. apply lookup_insert_eq.
Qed.

(** A file that is read is the one there. *)
Lemma read_sha_spec `{Sha256} path (m : Machine) (h : H) sha st' : is_link (mc_files m !! components path) = false →
  read_sha256_of_file path (m, h) = (Ok sha, st') →
  st'.2 = h ∧ mc_files st'.1 = mc_files m ∧ mc_calls m ≤ mc_calls st'.1 ∧
  ∀ x, sha = Some x → ∃ c md u g, mc_files m !! components path = Some (Regular c md u g) ∧ x = sha256_hex c.
Proof.
  intros Hl. unfold read_sha256_of_file, call_ok, io_bind, io_ret, read_bytes, beside. rewrite Hl. unfold read_file, syscall, call_or.
  destruct (call_fails (mc_calls m)); [intros [= <- <-]; split_and!; [done|done|cbn; lia|done]|].
  destruct (mc_files m !! _) as [[c md u g| | |]|] eqn:Hn; try (intros [= <- <-]; split_and!; [done|done|cbn; lia|done]).
  intros [= <- <-]. split_and!; [done|done|cbn; lia|]. intros x [= <-]. by exists c, md, u, g.
Qed.

Lemma read_sha_quiet `{Sha256} path (m : Machine) (h : H) c md u g : call_fails (mc_calls m) = None →
  mc_files m !! components path = Some (Regular c md u g) →
  ∃ m', read_sha256_of_file path (m, h) = (Ok (Some (sha256_hex c)), (m', h)).
Proof.
  intros Hq Hn. unfold read_sha256_of_file, call_ok, io_bind, io_ret, read_bytes, beside. rewrite Hn. cbn. unfold read_file, syscall, call_or.
  rewrite Hq, Hn. by eexists.
Qed.

(** The text of a file that is one and is UTF-8. *)
Definition source_in (n : option Node) : option string :=
  match n with Some (Regular c _ _ _) => if decide (from_utf8_lossy c = c) then Some c else None | _ => None end.

Lemma read_source_spec p (m : Machine) (h : H) prior st' : call_fails (mc_calls m) = None → is_link (mc_files m !! p) = false →
  call_ok (read_string p) (m, h) = (Ok prior, st') → prior = source_in (mc_files m !! p).
Proof.
  intros Hq Hl. unfold call_ok, read_string, read_bytes, beside. rewrite Hl. unfold read_file, syscall, call_or. rewrite Hq.
  destruct (mc_files m !! p) as [[c md u g| | |]|]; try by intros [= <- _]. cbn. case_decide; by intros [= <- _].
Qed.
End Files.

Section Guarantees.
Context {H W : Type} `{Kernel, !Links H, ExecEnv, Sha256} (backend : ComposeBackend (Machine * H)) (view : H → string → list ComposeService).
Context `{!ComposeLaws backend view} (serde_error : Json → string) (stamp : Machine * H → string).

(** The file of the stack is not a link. *)
Definition own_file (s : DockerComposeSpec) (st : Machine * H) : Prop := is_link (mc_files st.1 !! components (compose_file s)) = false.

Lemma observe_compose_spec s st o st' : own_file s st → observe_compose backend stamp s st = (Ok o, st') →
  ∃ sha now, o = compose_observation (view st.2 (co_project s)) sha now ∧
    ∀ x, sha = Some x → ∃ c md u g, mc_files st.1 !! components (compose_file s) = Some (Regular c md u g) ∧ x = sha256_hex c.
Proof.
  unfold observe_compose, io_bind, own_file. intros Hown. destruct (cb_list_services backend (co_project s) st) as [[l|e] [m1 h1]] eqn:Hl; [|done].
  pose proof (list_keeps _ _ _ _ Hl) as [Hf _]. cbn in Hf. rewrite <- Hf in Hown |- *. apply list_tells in Hl as [-> Hv].
  destruct (read_sha256_of_file (compose_file s) (m1, h1)) as [[sha|e] st2] eqn:Hr; [|done]. apply read_sha_spec in Hr as (_ & _ & _ & Hsha); [|done].
  intros [= <- _]. by eexists sha, _.
Qed.

Lemma observe_compose_quiet s st o st' c md u g : (∀ i, mc_calls st.1 ≤ i → call_fails i = None) →
  mc_files st.1 !! components (compose_file s) = Some (Regular c md u g) → observe_compose backend stamp s st = (Ok o, st') →
  ∃ now, o = compose_observation (view st.2 (co_project s)) (Some (sha256_hex c)) now.
Proof.
  unfold observe_compose, io_bind. intros Hq Hn. destruct (cb_list_services backend (co_project s) st) as [[l|e] [m1 h1]] eqn:Hl; [|done].
  pose proof (list_keeps _ _ _ _ Hl) as [Hf Hc]. cbn in Hf, Hc. rewrite <- Hf in Hn. apply list_tells in Hl as [-> Hv].
  destruct (read_sha_quiet (compose_file s) m1 h1 c md u g) as [m2 ->]; [by apply Hq|done|]. intros [= <- _]. by eexists.
Qed.

Lemma up_applied s step st res st' : own_file s st → st_action step = "compose-up" → apply_compose backend s step st = (Ok res, st') →
  view st'.2 (co_project s) ≠ [] ∧ ∃ md u g, mc_files st'.1 !! components (compose_file s) = Some (Regular (default "" (co_source s)) md u g).
Proof.
  destruct st as [m h]. intros Hown Hact. unfold apply_compose, io_bind, io_lift, io_ret. rewrite Hact.
  change (parse_action _ _ "compose-up") with (@Ok CoreError _ ComposeUp). cbv beta iota.
  destruct (make_dir "" s (m, h)) as [[[]|e] [m1 h1]] eqn:Hd; [|done]. apply make_dir_spec in Hd as [_ Hg]. apply (grown_no_link _ _ _ _ Hg) in Hown.
  destruct (co_source s) as [source|]; [|done]. cbn [ok_or default from_option id].
  destruct (put_source "" s source (m1, h1)) as [[[]|e] st2] eqn:Hp; [|done]. apply put_source_spec in Hp as (_ & md & u & g & Hn); [|done].
  destruct (cb_up backend _ _ _ st2) as [[[]|e] st3] eqn:Hu; [|done]. pose proof (up_keeps _ _ _ _ _ _ Hu) as [Hf _]. intros [= _ <-].
  split; [by eapply up_starts|]. exists md, u, g. by rewrite Hf.
Qed.

Lemma remove_project_frame s (m : Machine) (h : H) r st' : remove_project s (m, h) = (r, st') → st'.2 = h.
Proof. unfold remove_project, io_ignore, call_err, beside. destruct (remove_dir_all _ m) as [r' m']. by intros [= _ <-]. Qed.

Lemma down_applied s step st res st' : st_action step = "compose-down" → apply_compose backend s step st = (Ok res, st') →
  view st'.2 (co_project s) = [].
Proof.
  destruct st as [m h]. intros Hact. unfold apply_compose, io_bind, io_lift, io_ret. rewrite Hact.
  change (parse_action _ _ "compose-down") with (@Ok CoreError _ ComposeDown). cbv beta iota.
  destruct (path_exists _ m) as [[there|e] m1]; [|done]. destruct (cb_down backend _ _ _) as [[[]|e] [m2 h2]] eqn:Hd; [|done].
  apply down_stops in Hd. destruct (remove_project s (m2, h2)) as [[[]|e] st3] eqn:Hr; [|done]. apply remove_project_frame in Hr.
  intros [= _ <-]. by rewrite Hr.
Qed.

Lemma settled_present s services sha now : co_state s = ComposePresent → services ≠ [] → sha = Some (source_sha256 s) →
  diff_compose s (compose_observation services sha now) = no_change.
Proof. intros Hst Hne ->. unfold diff_compose. rewrite Hst. destruct services; [done|]. cbn. by rewrite decide_True. Qed.

(** Applying a stack's plan converges: when the steps planned from a
    comparison have all succeeded and the file can be read, a verification
    finds nothing to do. *)
Theorem compose_apply_converges r s ctx (st : Machine * H) o d n planned n' (w : W) st' w' v :
  let p := compose_provider (W:=W) backend serde_error stamp in
  compose_spec_of serde_error r = Ok s → own_file s st → (∀ i, mc_calls st'.1 ≤ i → call_fails i = None) →
  p_observe p r st = Ok o → p_diff p r o = Ok d → p_plan p r d n = (Ok planned, n') →
  apply_all p r ctx planned (st, w) = (Ok (), (st', w')) → p_verify p r st' = Ok v → v = VMatch.
Proof.
  intros p Hspec Hown Hq. unfold p, compose_provider. cbn [p_observe p_diff p_plan p_verify]. rewrite Hspec. cbn [mbind result_bind].
  destruct (observe_compose backend stamp s st) as [ro st1] eqn:Ho. intros Hro. cbn in Hro. subst ro.
  apply observe_compose_spec in Ho as (sha & now & -> & Hsha); [|done]. intros [= <-].
  destruct (plan_compose s _ n) as [steps n2] eqn:Hplan. intros [= -> ->] Hrun.
  destruct (observe_compose backend stamp s st') as [[o'|e] st2] eqn:Ho'; [|done]. cbn [fst mbind result_bind]. intros [= <-].
  assert (diff_compose s o' = no_change) as ->; [|done]. unfold plan_compose in Hplan.
  destruct (is_change (diff_compose s (compose_observation (view st.2 (co_project s)) sha now))) eqn:Hc; cbn [negb] in Hplan; injection Hplan as <- _.
  - cbn [apply_all] in Hrun. unfold on_machine, io_bind, io_lift in Hrun. cbn [p_apply] in Hrun. rewrite Hspec in Hrun.
    destruct (apply_compose backend s _ st) as [[res|e] st3] eqn:Ha; [|done]. injection Hrun as -> _. destruct (co_state s) eqn:Hst.
    + apply up_applied in Ha as (Hne & md & u & g & Hn); [|done..]. apply (observe_compose_quiet _ _ _ _ _ _ _ _ Hq Hn) in Ho' as [now' ->].
      by apply settled_present.
    + apply down_applied in Ha; [|done]. unfold observe_compose, io_bind in Ho'.
      destruct (cb_list_services _ _ _) as [[l|e] st4] eqn:Hl; [|done]. apply list_tells in Hl as [-> _].
      destruct (read_sha256_of_file _ _) as [[sha'|e] st5]; [|done]. injection Ho' as <- _. unfold diff_compose. rewrite Hst, Ha. done.
  - cbn in Hrun. injection Hrun as <- _. destruct (co_state s) eqn:Hst.
    + revert Hc. unfold diff_compose at 1. rewrite Hst. destruct (view st.2 (co_project s)) eqn:Hv; [done|]. cbn.
      destruct (decide _) as [He|]; [|done]. intros _. destruct sha as [x|]; [|done]. injection He as ->.
      destruct (Hsha _ eq_refl) as (content & md & u & g & Hn & Hx). apply (observe_compose_quiet _ _ _ _ _ _ _ _ Hq Hn) in Ho' as [now' ->].
      apply settled_present; [done|by rewrite Hv|by rewrite Hx].
    + apply observe_compose_spec in Ho' as (sha' & now' & -> & _); [|done]. revert Hc. unfold diff_compose. rewrite Hst.
      by destruct (view st.2 (co_project s)).
Qed.

(** *** The way back *)

Lemma pre_apply_compose_spec s st data st' : own_file s st → (∀ i, mc_calls st.1 ≤ i → call_fails i = None) →
  pre_apply_compose backend s st = (Ok data, st') →
  json_get data "prior_source" = Some (sha_json (source_in (mc_files st.1 !! components (compose_file s)))).
Proof.
  unfold pre_apply_compose, io_bind, io_ret, own_file. intros Hown Hq. destruct (cb_list_services _ _ st) as [[l|e] [m1 h1]] eqn:Hl; [|done].
  pose proof (list_keeps _ _ _ _ Hl) as [Hf Hc]. cbn in Hf, Hc. rewrite <- Hf in Hown |- *.
  destruct (read_sha256_of_file _ (m1, h1)) as [[sha|e] [m2 h2]] eqn:Hr; [|done]. apply read_sha_spec in Hr as (_ & Hf2 & Hc2 & _); [|done].
  cbn in Hf2, Hc2. rewrite <- Hf2 in Hown |- *. destruct (call_ok _ (m2, h2)) as [[prior|e] st3] eqn:Hs; [|done].
  apply read_source_spec in Hs as ->; [|apply Hq; lia|done]. by intros [= <- _].
Qed.

Lemma rollback_compose_up s data source st st' : own_file s st → json_get data "prior_source" = Some (JString source) → source ≠ "" →
  rollback_compose backend s data st = (Ok (), st') →
  view st'.2 (co_project s) ≠ [] ∧ ∃ md u g, mc_files st'.1 !! components (compose_file s) = Some (Regular source md u g).
Proof.
  destruct st as [m h]. intros Hown Hd Hne. unfold rollback_compose, io_bind. rewrite Hd. cbn [mbind option_bind as_str]. rewrite decide_False by done.
  destruct (make_dir _ s (m, h)) as [[[]|e] [m1 h1]] eqn:Hm; [|done]. apply make_dir_spec in Hm as [_ Hg]. apply (grown_no_link _ _ _ _ Hg) in Hown.
  destruct (put_source _ s source (m1, h1)) as [[[]|e] st2] eqn:Hp; [|done]. apply put_source_spec in Hp as (_ & md & u & g & Hn); [|done].
  intros Hu. pose proof (up_keeps _ _ _ _ _ _ Hu) as [Hf _]. split; [by eapply up_starts|]. exists md, u, g. by rewrite Hf.
Qed.

Lemma rollback_compose_down s data st st' : (v ← json_get data "prior_source"; as_str v) = None ∨ (v ← json_get data "prior_source"; as_str v) = Some "" →
  rollback_compose backend s data st = (Ok (), st') → view st'.2 (co_project s) = [].
Proof.
  intros Hd. assert (rollback_compose backend s data = (io_bind (cb_down backend (co_project s) None) (λ _, remove_project s))) as ->.
  { unfold rollback_compose. by destruct Hd as [-> | ->]. }
  unfold io_bind. destruct (cb_down backend _ _ st) as [[[]|e] [m1 h1]] eqn:Hc; [|done]. apply down_stops in Hc.
  intros Hr. apply remove_project_frame in Hr. by rewrite Hr.
Qed.

(** A rollback that succeeds after the checkpoint of a stack whose file held
    a text puts that text back and has the stack up; after one that saw no
    file it leaves the stack down, whatever was there before the apply. *)
Theorem compose_rollback_restores r s step ctx (st : Machine * H) (w : W) data st1 w1 cp st2 w2 st' w' :
  let p := compose_provider (W:=W) backend serde_error stamp in
  compose_spec_of serde_error r = Ok s → own_file s st → own_file s st2 → (∀ i, mc_calls st.1 ≤ i → call_fails i = None) →
  p_pre_apply p r step ctx (st, w) = (Ok data, (st1, w1)) → cp_data cp = data →
  p_rollback p r cp (st2, w2) = (Ok (), (st', w')) →
  match mc_files st.1 !! components (compose_file s) with
  | Some (Regular c _ _ _) =>
      is_utf8 c → c ≠ "" → view st'.2 (co_project s) ≠ [] ∧ ∃ md u g, mc_files st'.1 !! components (compose_file s) = Some (Regular c md u g)
  | _ => view st'.2 (co_project s) = []
  end.
Proof.
  intros p Hspec Hown Hown2 Hq. unfold p, compose_provider. cbn [p_pre_apply p_rollback]. unfold on_machine, io_bind, io_lift. rewrite Hspec.
  destruct (pre_apply_compose backend s st) as [res st1'] eqn:Hp. intros [= -> -> ->] ->. apply pre_apply_compose_spec in Hp; [|done..].
  destruct (rollback_compose backend s data st2) as [res st3] eqn:Hr. intros [= -> -> ->].
  destruct (mc_files st.1 !! components (compose_file s)) as [[c md u g| | |]|] eqn:Hn;
    [|by eapply rollback_compose_down in Hr; [|rewrite Hp; by left]..].
  intros Hutf Hne. eapply rollback_compose_up; [exact Hown2| |exact Hne|exact Hr]. rewrite Hp. cbn. by rewrite decide_True.
Qed.
End Guarantees.
