(* ===== verification/Acme.v ===== *)
(** * The certificate provider (crates/iac-providers/src/acme/)

    A certificate of an ACME authority as two files: the spec (spec.rs), the
    backend that runs lego and the one kept in memory (backend.rs), expiry and
    the operations (ops.rs, mod.rs); and that a rollback brings both files
    back. *)

From stdpp Require Import pretty strings gmap.
From S2P Require Import Prelude Text Json ApiError Routing Db AuditLog Ids Diff Executor Chars Net Signing PluginSpec Plugin SpecReader Posix FileProvider Command FileProps Compose.

#[local] Open Scope string_scope.
#[local] Open Scope list_scope.
#[local] Open Scope nat_scope.
#[local] Open Scope io_scope.

(** ** The spec *)

Inductive AcmeState := AcmePresent | AcmeAbsent.
Inductive ChallengeKind := Http01 | Dns01Cloudflare.

#[export] Instance AcmeState_eq_dec : EqDecision AcmeState.
Proof. solve_decision. Defined.

Record AcmeCertSpec := mkAcme {
  ac_domains : list string;
  ac_email : string;
  ac_cert_dir : string;
  ac_state : AcmeState;
  ac_renew_window_days : Z;
  ac_staging : bool;
  ac_challenge : ChallengeKind;
  ac_webroot : option string;
  ac_cloudflare_api_token : option string;
  ac_server_url : option string
}.

Definition default_renew_window : Z := 30.

Definition acme_fields (v : Json) : option AcmeCertSpec :=
  match strict_fields ["domains"; "email"; "cert_dir"; "state"; "renew_window_days"; "staging"; "challenge"; "webroot"; "cloudflare_api_token"; "server_url"] v with
  | Some [domains; email; dir; state; window; staging; challenge; webroot; token; url] =>
      d ← (x ← domains; strings_of x); e ← required_string email; c ← required_string dir;
      st ← enum_or [("present", AcmePresent); ("absent", AcmeAbsent)] AcmePresent state;
      w ← unsigned_or u32_max default_renew_window window; sg ← bool_or false staging;
      k ← (x ← challenge; name ← as_str x; assoc_get name [("http-01", Http01); ("dns-01-cloudflare", Dns01Cloudflare)]);
      r ← optional_string webroot; t ← optional_string token; u ← optional_string url; Some (mkAcme d e c st w sg k r t u)
  | _ => None
  end.

Definition is_loopback_host (host : string) : bool := bool_decide (host ∈ ["localhost"; "::1"; "[::1]"]) || starts_with "127." host.

Definition validate_domain (d : string) : result message () :=
  if decide (d = "") then Err [Txt "domain entries must not be empty"]
  else if str_contains " " d then Err [Txt "domain "; Dbg d; Txt " contains whitespace"] else Ok ().
Definition no_wildcard (d : string) : result message () :=
  if starts_with "*" d then Err [Txt "wildcard domain "; Dbg d; Txt " requires challenge=dns-01-*"] else Ok ().

Definition validate_challenge (s : AcmeCertSpec) : result message () :=
  match ac_challenge s with
  | Http01 =>
      webroot ← ok_or (ac_webroot s) [Txt "challenge=http-01 requires webroot"];
      if negb (is_absolute webroot) then Err [Txt "webroot "; Txt webroot; Txt " must be absolute"]
      else _ ← try_map no_wildcard (ac_domains s); Ok ()
  | Dns01Cloudflare =>
      if decide (default "" (ac_cloudflare_api_token s) = "") then Err [Txt "challenge=dns-01-cloudflare requires cloudflare_api_token"] else Ok ()
  end.

(** [rest.split(['/', ':']).next()]. *)
Definition host_of (rest : string) : string := default "" (head (split_on colon (default "" (head (split_on solidus rest))))).

Definition validate_server_url (s : AcmeCertSpec) : result message () :=
  match ac_server_url s with
  | None => Ok ()
  | Some url =>
      if ac_staging s then Err [Txt "server_url and staging=true are mutually exclusive"]
      else match strip_prefix "https://" url with
           | Some rest => if decide (rest = "") then Err [Txt "server_url "; Dbg url; Txt " has no host"] else Ok ()
           | None =>
               match strip_prefix "http://" url with
               | Some rest => if is_loopback_host (host_of rest) then Ok ()
                              else Err [Txt "server_url "; Dbg url; Txt " uses plain http on non-loopback host; refuse"]
               | None => Err [Txt "server_url "; Dbg url; Txt " must start with https:// or http://localhost"]
               end
           end
  end.

Definition validate_acme (s : AcmeCertSpec) : result message () :=
  if decide (ac_domains s = []) then Err [Txt "domains must not be empty"]
  else
    _ ← try_map validate_domain (ac_domains s);
    if decide (ac_email s = "") then Err [Txt "email "; Dbg (ac_email s); Txt " is not a valid address"]
    else if negb (str_contains "@" (ac_email s)) then Err [Txt "email "; Dbg (ac_email s); Txt " is not a valid address"]
    else if negb (is_absolute (ac_cert_dir s)) then Err [Txt "cert_dir "; Txt (ac_cert_dir s); Txt " must be absolute"]
    else if (ac_renew_window_days s =? 0)%Z || (89 <? ac_renew_window_days s)%Z
    then Err [Txt "renew_window_days "; Dec (ac_renew_window_days s); Txt " out of sane range (1..=89; Let's Encrypt certs last 90d)"]
    else _ ← validate_challenge s; validate_server_url s.

(** The first domain, without a wildcard's star. *)
Definition primary_domain (s : AcmeCertSpec) : string :=
  trim_start_matches (λ c, (c =? 46)%N) (trim_start_matches (λ c, (c =? 42)%N) (default "" (head (ac_domains s)))).

(** [Path::join]: an absolute name replaces the directory. *)
Definition path_join (dir name : string) : string := if is_absolute name then name else dir_join dir name.
Definition cert_file (s : AcmeCertSpec) : string := path_join (ac_cert_dir s) (primary_domain s +:+ ".crt").
Definition key_file (s : AcmeCertSpec) : string := path_join (ac_cert_dir s) (primary_domain s +:+ ".key").
Definition expiry_file (s : AcmeCertSpec) : string := path_join (ac_cert_dir s) (primary_domain s +:+ ".expiry").

Definition acme_error (m : message) : CoreError := EProvider "acme.certificate" m.

(** ** The backends *)

(** [trait AcmeBackend]. *)
Record AcmeBackend (M : Type) := mkAcmeBackend {
  ab_issue : AcmeCertSpec → io M ();
  ab_renew : AcmeCertSpec → io M ();
  ab_revoke : AcmeCertSpec → io M ()
}.
Arguments ab_issue {M} _ _.
Arguments ab_renew {M} _ _.
Arguments ab_revoke {M} _ _.

(** Programs with variables added to their environment. *)
Class EnvPrograms (H : Type) := run_in_env : list (string * string) → Programs H.

(** *** Files of a machine and what is beside it *)

Section Files.
Context {H : Type} `{Kernel} `{!Links H}.

Definition exists_at (path : string) : io (Machine * H) bool := λ '(m, h), let '(r, m') := path_exists (components path) m in (r, (m', h)).
(** [let _ = fs::remove_file(path);]. *)
Definition remove_quietly (path : string) : io (Machine * H) () := io_ignore (call_ok (beside (remove_file (components path)))).
Definition or_acme {A} (what : message) (c : Machine * H → result string A * (Machine * H)) : io (Machine * H) A := λ s,
  let '(r, s') := c s in (map_err (λ e, acme_error (what ++ [Txt ": "; Ext e])) r, s').
End Files.

(** *** lego *)

Definition LEGO_TIMEOUT : Z := 300000.
Definition OPENSSL_TIMEOUT : Z := 10000.

Section Lego.
Context {H : Type} `{Kernel} `{!Links H} `{!EnvPrograms H}.

(** The crate tempfile's new directory. *)
Context (tempdir : Machine → result string (list string) * Machine).

Definition lego_args (s : AcmeCertSpec) (action : string) : list string :=
  ["--accept-tos"; "--email"; ac_email s; "--path"; ac_cert_dir s] ++ concat (map (λ d, ["--domains"; d]) (ac_domains s)) ++
  match ac_server_url s with
  | Some url => ["--server"; url]
  | None => if ac_staging s then ["--server"; "https://acme-staging-v02.api.letsencrypt.org/directory"] else []
  end ++
  match ac_challenge s with
  | Http01 => ["--http"; "--http.webroot"; default "" (ac_webroot s)]
  | Dns01Cloudflare => ["--dns"; "cloudflare"]
  end ++ [action].

(** A secret in a file of its own, for as long as the command runs: the
    directory goes whatever happens. *)
Definition with_secret_file {A} (secret : string) (f : string → io (Machine * H) A) : io (Machine * H) A :=
  let* dir := or_acme [Txt "temp dir for secret"] (beside tempdir) in
  let path := dir ++ ["token"] in
  λ st,
    let '(r, st') := (or_acme [Txt "write secret"] (write_bytes path secret) ;*
                      or_acme [Txt "chmod 0600"] (beside (chmod path 384)) ;*
                      f (path_text path)) st in
    (r, (beside (remove_dir_all dir) st').2).

(** The command, in the environment the challenge asks for. *)
Definition with_command {A} (s : AcmeCertSpec) (run : Programs H → io (Machine * H) A) : io (Machine * H) A :=
  match ac_challenge s with
  | Http01 => run (run_in_env [])
  | Dns01Cloudflare =>
      with_secret_file (default "" (ac_cloudflare_api_token s)) (λ path, run (run_in_env [("CLOUDFLARE_DNS_API_TOKEN_FILE", path)]))
  end.

Definition lego_check (s : AcmeCertSpec) (action : string) (more : list string) : io (Machine * H) () :=
  with_command s (λ P, @run_check_status H P (mkCommand "lego" (lego_args s action ++ more) "" LEGO_TIMEOUT) "acme.certificate" [Txt ("lego " +:+ action)]).

Definition lego_issue (s : AcmeCertSpec) := lego_check s "run" [].
Definition lego_renew (s : AcmeCertSpec) := lego_check s "renew" ["--days"; pretty (ac_renew_window_days s)].

(** What lego says of the revocation is only logged. *)
Definition lego_revoke (s : AcmeCertSpec) : io (Machine * H) () :=
  with_command s (λ P st,
    let '(_, st') := @run_program H P (mkCommand "lego" (lego_args s "revoke") "" LEGO_TIMEOUT) st in
    (remove_quietly (cert_file s) ;* remove_quietly (key_file s)) st').

Definition LegoCli : AcmeBackend (Machine * H) := {| ab_issue := lego_issue; ab_renew := lego_renew; ab_revoke := lego_revoke |}.
End Lego.

(** *** In memory

    The certificate is two files that are none, and their expiry beside them. *)

Definition SECONDS_PER_DAY : Z := 86400.
Definition i64_min : Z := - 2 ^ 63.
(** Ninety days from now. *)
Definition default_not_after_secs (now : Z) : Z := Z.min i64_max (now + 90 * SECONDS_PER_DAY).

Definition pem (what : string) : string := line ("-----BEGIN " +:+ what +:+ "-----") +:+ line "MOCK" +:+ line ("-----END " +:+ what +:+ "-----").

Section Mock.
Context `{Kernel} `{!Links (MockJournal (option Z))} (now : Machine * MockJournal (option Z) → Z).

Definition write_synthetic_cert (s : AcmeCertSpec) (not_after : Z) : io (Machine * MockJournal (option Z)) () :=
  or_acme [Txt "mock create_dir_all "; Txt (ac_cert_dir s)] (beside (create_dir_all (components (ac_cert_dir s)))) ;*
  or_acme [Txt "write cert"] (write_bytes (components (cert_file s)) (pem "CERTIFICATE")) ;*
  or_acme [Txt "write key"] (write_bytes (components (key_file s)) (pem "PRIVATE KEY")) ;*
  or_acme [Txt "write sidecar"] (write_bytes (components (expiry_file s)) (pretty not_after)).

Definition noted {R} (op text : string) (f : option Z → R * option Z) : io (Machine * MockJournal (option Z)) R := λ '(m, j),
  let '(r, j') := mj_record op text f j in (map_err (λ e, acme_error [Ext e]) r, (m, j')).

Definition set_next_not_after (unix : Z) : MockJournal (option Z) → MockJournal (option Z) := mj_with_state_mut (λ _, Some unix).

(** A renewal takes the date that was set, an issue leaves it. *)
Definition mock_issue (s : AcmeCertSpec) : io (Machine * MockJournal (option Z)) () := λ st,
  (let* not_after := noted "issue" ("issue domains=" +:+ str_join "," (ac_domains s) +:+ " cert_dir=" +:+ ac_cert_dir s)
                       (λ n, (default (default_not_after_secs (now st)) n, n)) in
   write_synthetic_cert s not_after) st.
Definition mock_renew (s : AcmeCertSpec) : io (Machine * MockJournal (option Z)) () := λ st,
  (let* not_after := noted "renew" ("renew domains=" +:+ str_join "," (ac_domains s))
                       (λ n, (default (default_not_after_secs (now st)) n, None)) in
   write_synthetic_cert s not_after) st.
Definition mock_revoke (s : AcmeCertSpec) : io (Machine * MockJournal (option Z)) () :=
  io_ignore (noted "revoke" ("revoke domains=" +:+ str_join "," (ac_domains s)) (λ n, ((), n))) ;*
  remove_quietly (cert_file s) ;* remove_quietly (key_file s) ;* remove_quietly (expiry_file s).

Definition MockAcme : AcmeBackend (Machine * MockJournal (option Z)) := {| ab_issue := mock_issue; ab_renew := mock_renew; ab_revoke := mock_revoke |}.
End Mock.

(** ** Expiry *)

(** [s.parse::<i64>()]. *)
Definition i64_from_str (s : string) : option Z :=
  match strip_prefix "-" s with
  | Some digits => if decide (digits = "") then None else n ← parse_digits 0 digits; if (n <=? 2 ^ 63)%Z then Some (- n)%Z else None
  | None => parse_unsigned i64_max s
  end.

Section Expiry.
Context {H : Type} `{Kernel} `{!Links H} `{!EnvPrograms H}.

(** jiff's reading of openssl's dates, in UTC seconds. *)
Context (strptime : string → string → option Z).

Definition parse_openssl_date_to_unix (s : string) : option Z := strptime "%b %e %H:%M:%S %Y GMT" s.

(** What openssl printed. *)
Definition expiry_in (out : Output) : option Z :=
  if negb (success out) || negb (bool_decide (from_utf8_lossy (out_stdout out) = out_stdout out)) then None
  else date ← strip_prefix "notAfter=" (trim (out_stdout out)); parse_openssl_date_to_unix (trim date).

Definition read_cert_expiry_unix (path : string) : io (Machine * H) (option Z) :=
  let* there := exists_at path in
  if negb there then io_ret None
  else λ st,
    let '(r, st') := @run_program H (run_in_env []) (mkCommand "openssl" ["x509"; "-in"; path; "-enddate"; "-noout"] "" OPENSSL_TIMEOUT) st in
    (Ok (match r with Ok out => expiry_in out | Err _ => None end), st').

(** The file beside the certificate comes first, and is not only of tests. *)
Definition read_expiry_with_fallback (s : AcmeCertSpec) : io (Machine * H) (option Z) :=
  let* text := call_ok (read_string (components (expiry_file s))) in
  match t ← text; i64_from_str (trim t) with
  | Some n => io_ret (Some n)
  | None => read_cert_expiry_unix (cert_file s)
  end.
End Expiry.

(** ** The operations *)

Inductive AcmeAction := AcmeIssue | AcmeRenew | AcmeRevoke.
Definition acme_actions : list (string * AcmeAction) := [("acme-issue", AcmeIssue); ("acme-renew", AcmeRenew); ("acme-revoke", AcmeRevoke)].
Definition acme_action_name (a : AcmeAction) : string := match a with AcmeIssue => "acme-issue" | AcmeRenew => "acme-renew" | AcmeRevoke => "acme-revoke" end.
Definition acme_action_for (k : DiffKind) : option AcmeAction :=
  match k with Create => Some AcmeIssue | Update => Some AcmeRenew | Delete => Some AcmeRevoke | NoChange => None end.

Definition number_json (n : option Z) : Json := match n with Some n => JNum n | None => JNull end.
Definition as_i64 (v : Json) : option Z := match v with JNumber repr => i64_from_str repr | _ => None end.

(** Whole days, towards zero; a difference that does not fit wraps. *)
Definition days_until (expiry now : Z) : Z := Z.quot (wrap_signed 64 (expiry - now)) SECONDS_PER_DAY.

Definition cert_observation (s : AcmeCertSpec) (cert key : bool) (expiry : option Z) (now : Z) (stamp : string) : ObservedState :=
  mkObserved (cert && key) (JObject [("primary_domain", JString (primary_domain s)); ("cert_path", JString (cert_file s))])
    [("cert_present", JBool cert); ("key_present", JBool key); ("expiry_unix", number_json expiry);
     ("days_left", number_json (option_map (λ e, days_until e now) expiry))] stamp.

Definition diff_cert (s : AcmeCertSpec) (o : ObservedState) : Diff :=
  let cert := default false (v ← assoc_get "cert_present" (obs_facts o); as_bool v) in
  let days := v ← assoc_get "days_left" (obs_facts o); as_i64 v in
  let domain := primary_domain s in
  match ac_state s, cert with
  | AcmeAbsent, false => no_change
  | AcmeAbsent, true => mkDiff Delete [state_change "present" "absent"] ["revoke + delete certificate for " +:+ domain] false
  | AcmePresent, false =>
      mkDiff Create [mkChange "cert" None (Some (JString ("issue " +:+ pretty (length (ac_domains s)) +:+ " domains"))) false]
        ["issue certificate for " +:+ domain] true
  | AcmePresent, true =>
      match days with
      | Some d =>
          if (d <? ac_renew_window_days s)%Z
          then mkDiff Update [mkChange "expiry" (Some (JNum d)) (Some (JNum (ac_renew_window_days s + 60))) false]
                 ["renew " +:+ domain +:+ " (expires in " +:+ pretty d +:+ " days; window=" +:+ pretty (ac_renew_window_days s) +:+ ")"] true
          else no_change
      | None =>
          mkDiff Update [mkChange "expiry" (Some (JString "unreadable")) (Some (JString "re-issued")) false]
            ["cert for " +:+ domain +:+ " exists but expiry unreadable; re-issuing"] true
      end
  end.

Section AcmeProvider.
Context {H W : Type} `{Kernel, !Links H, !EnvPrograms H, ExecEnv, Base64} (backend : AcmeBackend (Machine * H)).
Context (strptime : string → string → option Z) (now : Machine * H → Z).
Context (serde_error : Json → string) (stamp : Machine * H → string).

Definition cert_from_value (v : Json) : result message AcmeCertSpec :=
  spec ← ok_or (acme_fields v) [Txt "parse: "; Ext (serde_error v)]; _ ← validate_acme spec; Ok spec.
Definition acme_spec_of (r : Resource) : CoreResult AcmeCertSpec := parse_spec "acme.certificate" cert_from_value r.

Definition observe_cert (s : AcmeCertSpec) : io (Machine * H) ObservedState :=
  let* cert := exists_at (cert_file s) in
  let* key := exists_at (key_file s) in
  let* expiry := read_expiry_with_fallback strptime s in
  λ st, (Ok (cert_observation s cert key expiry (now st) (stamp st)), st).

Definition plan_cert (s : AcmeCertSpec) (d : Diff) (n : nat) : list Step * nat :=
  match acme_action_for (diff_kind d) with
  | None => ([], n)
  | Some a => ([step_new (ulid_at n) (acme_action_name a) (acme_action_name a +:+ " " +:+ primary_domain s) JNull], S n)
  end.

Definition b64_json (bytes : option string) : Json := match bytes with Some b => JString (b64_encode b) | None => JNull end.
Definition pre_apply_cert (s : AcmeCertSpec) : io (Machine * H) Json :=
  let* cert := call_ok (read_bytes (components (cert_file s))) in
  let* key := call_ok (read_bytes (components (key_file s))) in
  io_ret (JObject [("prior_cert_b64", b64_json cert); ("prior_cert_present", JBool (bool_decide (is_Some cert))); ("prior_key_b64", b64_json key)]).

Definition apply_cert (s : AcmeCertSpec) (step : Step) : io (Machine * H) StepResult :=
  let* action := io_lift (parse_action "AcmeAction" acme_actions (st_action step)) in
  let '(run, verb) := match action with
                      | AcmeIssue => (ab_issue backend s, "issued")
                      | AcmeRenew => (ab_renew backend s, "renewed")
                      | AcmeRevoke => (ab_revoke backend s, "revoked")
                      end in
  run ;* io_ret (step_result_ok [Txt verb; Txt " certificate for "; Txt (primary_domain s)]).

(** A file from the checkpoint, when it has one. *)
Definition restore_b64 (data : Json) (key what path : string) : io (Machine * H) () :=
  match v ← json_get data key; as_str v with
  | Some b64 =>
      let* bytes := io_lift (map_err (λ e, acme_error [Txt "base64 decode: "; Ext e]) (b64_decode b64)) in
      or_acme [Txt ("rollback write " +:+ what)] (write_bytes (components path) bytes)
  | None => io_ret ()
  end.

Definition rollback_cert (s : AcmeCertSpec) (data : Json) : io (Machine * H) () :=
  if default false (v ← json_get data "prior_cert_present"; as_bool v) then
    or_acme [Txt "rollback create_dir_all"] (beside (create_dir_all (components (ac_cert_dir s)))) ;*
    restore_b64 data "prior_cert_b64" "cert" (cert_file s) ;*
    restore_b64 data "prior_key_b64" "key" (key_file s)
  else remove_quietly (cert_file s) ;* remove_quietly (key_file s).

Definition acme_provider : Provider (Machine * H) W := {|
  p_observe r m := s ← acme_spec_of r; (observe_cert s m).1;
  p_diff r o := s ← acme_spec_of r; Ok (diff_cert s o);
  p_plan r d n := match acme_spec_of r with Ok s => let '(steps, n) := plan_cert s d n in (Ok steps, n) | Err e => (Err e, n) end;
  p_pre_apply r _ _ := on_machine (let* s := io_lift (acme_spec_of r) in pre_apply_cert s);
  p_apply r step _ := on_machine (let* s := io_lift (acme_spec_of r) in apply_cert s step);
  p_verify r m := s ← acme_spec_of r; o ← (observe_cert s m).1;
                  let d := diff_cert s o in Ok (if is_change d then VMismatch (diff_changes d) else VMatch);
  p_rollback r cp := on_machine (let* s := io_lift (acme_spec_of r) in rollback_cert s (cp_data cp));
  p_capability_keys r := s ← acme_spec_of r; Ok [primary_domain s]
|}.
End AcmeProvider.

(** ** What a rollback brings back *)

Section WayBack.
Context {H W : Type} `{Kernel, !Links H, !EnvPrograms H, ExecEnv} `{B64 : Base64, !Base64Laws} (backend : AcmeBackend (Machine * H)).
Context (strptime : string → string → option Z) (now : Machine * H → Z).
Context (serde_error : Json → string) (stamp : Machine * H → string).

(** *** The two files are two *)

Lemma split_on_app_last c s t : lacks c t = true → ∃ xs y, split_on c (s +:+ t) = xs ++ [y +:+ t].
Proof.
  intros Ht. assert (split_on c t = [t]) as Hone.
  { clear s. induction t as [|a t IH]; [done|]. cbn in Ht |- *. apply andb_true_iff in Ht as [Ha Ht].
    apply negb_true_iff in Ha. by rewrite Ha, IH. }
  induction s as [|a s IH]; [exists [], ""; exact Hone|]. destruct IH as (xs & y & IH).
  change (String a s +:+ t) with (String a (s +:+ t)). cbn [split_on]. rewrite IH. destruct (Ascii.eqb a c).
  - by exists ("" :: xs), y.
  - destruct xs as [|x xs]; [by exists [], (String a y)|]. by exists (String a x :: xs), y.
Qed.

Lemma join_app dir s t : path_join dir (s +:+ t) = (if is_absolute (s +:+ t) then s else dir_join dir s) +:+ t.
Proof.
  unfold path_join, dir_join. destruct (is_absolute _); [done|]. destruct (strip_suffix "/" dir); by rewrite !str_app_assoc.
Qed.

Lemma components_last s t : lacks solidus t = true → (∀ y, y +:+ t ≠ "" ∧ y +:+ t ≠ ".") → ∃ xs y, components (s +:+ t) = xs ++ [y +:+ t].
Proof.
  intros Ht Hne. unfold components. destruct (split_on_app_last solidus s t Ht) as (xs & y & ->). rewrite List.filter_app. cbn.
  destruct (Hne y) as [Hy1 Hy2]. rewrite !bool_decide_eq_false_2 by done. cbn. by eexists _, y.
Qed.

Lemma not_dots y t : 2 ≤ String.length t → y +:+ t ≠ "" ∧ y +:+ t ≠ ".".
Proof. intros Ht. split; intros Hy; apply (f_equal String.length) in Hy; rewrite str_length_app in Hy; cbn in Hy; lia. Qed.

Lemma files_differ s : components (cert_file s) ≠ components (key_file s).
Proof.
  unfold cert_file, key_file. rewrite !join_app. set (a := if is_absolute _ then _ else _). set (b := if is_absolute (_ +:+ ".key") then _ else _).
  destruct (components_last a ".crt") as (xs & y & ->); [done|intros z; apply not_dots; cbn; lia|].
  destruct (components_last b ".key") as (xs' & y' & ->); [done|intros z; apply not_dots; cbn; lia|].
  intros He. apply app_inj_tail in He as [_ He]. by apply str_app_inj_r in He as [_ ?].
Qed.

(** *** Reading and writing them *)

Definition regular_at (path content : string) (st : Machine * H) : Prop :=
  ∃ md u g, mc_files st.1 !! components path = Some (Regular content md u g).
Definition unlinked (path : string) (st : Machine * H) : Prop := is_link (mc_files st.1 !! components path) = false.

Lemma read_bytes_regular path c st : (∀ i, mc_calls st.1 ≤ i → call_fails i = None) → regular_at path c st →
  ∃ st', call_ok (read_bytes (components path)) st = (Ok (Some c), st') ∧ mc_files st'.1 = mc_files st.1 ∧ mc_calls st.1 ≤ mc_calls st'.1.
Proof.
  destruct st as [m h]. intros Hq (md & u & g & Hn). cbn in Hn, Hq. unfold call_ok, read_bytes, beside. rewrite Hn. cbn [is_link].
  unfold read_file, syscall, call_or. rewrite Hq by done. rewrite Hn. eexists. split; [done|]. cbn. split; [done|lia].
Qed.

Lemma write_bytes_spec {e} path c st st' : unlinked path st → or_acme e (write_bytes (components path) c) st = (Ok (), st') →
  regular_at path c st' ∧ ∀ q, q ≠ components path → mc_files st'.1 !! q = mc_files st.1 !! q.
Proof.
  destruct st as [m h]. unfold unlinked, or_acme, write_bytes, beside, regular_at. cbn [fst]. intros Hl. rewrite Hl. unfold write_path, call_or.
  destruct (call_fails (mc_calls m)); [done|]. destruct (mc_files m !! components path) as [[c0 md u g| | |]|] eqn:Hn; try done; intros [= <-]; cbn.
  - unfold map_regular. rewrite Hn. split; [exists md, u, g; apply lookup_insert_eq|]. intros q Hq. by rewrite lookup_insert_ne.
  - split; [eexists _, _, _; apply lookup_insert_eq|]. intros q Hq. by rewrite lookup_insert_ne.
Qed.

Lemma restore_b64_spec data key what path bytes st st' : unlinked path st →
  json_get data key = Some (JString (b64_encode bytes)) → restore_b64 data key what path st = (Ok (), st') →
  regular_at path bytes st' ∧ ∀ q, q ≠ components path → mc_files st'.1 !! q = mc_files st.1 !! q.
Proof.
  intros Hl Hd. unfold restore_b64. rewrite Hd. cbn [mbind option_bind as_str]. unfold io_bind, io_lift. rewrite b64_round. cbn [map_err].
  by apply write_bytes_spec.
Qed.

(** A rollback that succeeds brings back the certificate, and the key where
    there was one, byte for byte, whatever was issued, renewed or revoked since
    the checkpoint was taken. *)
Theorem acme_rollback_restores r s step ctx (st : Machine * H) (w : W) data st1 w1 cp st2 w2 st' w' c :
  let p := acme_provider (W:=W) backend strptime now serde_error stamp in
  acme_spec_of serde_error r = Ok s → (∀ i, mc_calls st.1 ≤ i → call_fails i = None) →
  unlinked (cert_file s) st2 → unlinked (key_file s) st2 → regular_at (cert_file s) c st →
  p_pre_apply p r step ctx (st, w) = (Ok data, (st1, w1)) → cp_data cp = data →
  p_rollback p r cp (st2, w2) = (Ok (), (st', w')) →
  regular_at (cert_file s) c st' ∧ ∀ k, regular_at (key_file s) k st → regular_at (key_file s) k st'.
Proof.
  intros p Hspec Hq Hl Hlk Hcert. unfold p, acme_provider. cbn [p_pre_apply p_rollback]. unfold on_machine, io_bind, io_lift. rewrite Hspec.
  destruct (pre_apply_cert s st) as [res st1'] eqn:Hp. intros [= -> -> ->] ->. revert Hp. unfold pre_apply_cert, io_bind, io_ret.
  destruct (read_bytes_regular _ _ _ Hq Hcert) as (sta & -> & Hfa & Hca).
  destruct (call_ok _ sta) as [[key|e] stb] eqn:Hk; [|done]. intros [= <- ->].
  destruct (rollback_cert s _ st2) as [res st3] eqn:Hr. intros [= -> -> ->]. revert Hr. unfold rollback_cert, io_bind.
  change (default false _) with true. cbv beta iota.
  match goal with |- context [or_acme ?e ?c st2] => destruct (or_acme e c st2) as [[[]|err] stc] eqn:Hd end; [|done].
  assert (∀ q, is_link (mc_files st2.1 !! q) = false → is_link (mc_files stc.1 !! q) = false) as Hgrow.
  { revert Hd. unfold or_acme, beside. destruct st2 as [m2 h2].
    pose proof (create_dir_all_grown (components (ac_cert_dir s)) (mc_files m2) (rev (components (ac_cert_dir s))) m2) as Hg.
    unfold create_dir_all. destruct (create_dir_all_rev _ m2) as [r' m'] eqn:Hcd. intros [= _ <-] q. eapply grown_no_link, Hg; [by rewrite rev_involutive|apply grown_refl]. }
  destruct (restore_b64 _ "prior_cert_b64" _ _ stc) as [[[]|e] std] eqn:Hc1; [|done].
  apply (restore_b64_spec _ _ _ _ c) in Hc1 as [Hc1 Hf1]; [|by apply Hgrow|done].
  destruct (restore_b64 _ "prior_key_b64" _ _ std) as [[[]|e] ste] eqn:Hk1; [|done]. intros [= ->].
  assert (unlinked (key_file s) std) as Hlkd.
  { unfold unlinked. rewrite Hf1 by (symmetry; apply files_differ). by apply Hgrow. }
  destruct key as [kb|].
  - apply (restore_b64_spec _ _ _ _ kb) in Hk1 as [Hk1 Hf2]; [|done..]. split.
    + destruct Hc1 as (md & u & g & Hn). exists md, u, g. rewrite Hf2; [done|apply files_differ].
    + intros k Hkey. destruct (read_bytes_regular (key_file s) k sta) as (st4 & Hk' & _ & _).
      { intros i Hi. apply Hq. lia. }
      { destruct Hkey as (md & u & g & Hn). exists md, u, g. by rewrite Hfa. }
      rewrite Hk' in Hk. by injection Hk as <- _.
  - unfold restore_b64 in Hk1. cbn in Hk1. injection Hk1 as <-. split; [done|]. intros k Hkey.
    destruct (read_bytes_regular (key_file s) k sta) as (st4 & Hk' & _ & _).
    { intros i Hi. apply Hq. lia. }
    { destruct Hkey as (md & u & g & Hn). exists md, u, g. by rewrite Hfa. }
    by rewrite Hk' in Hk.
Qed.
End WayBack.
