(* ===== verification/ProviderDemo.v ===== *)
(** * The providers on concrete machines

    A machine on which calls fail where they are told to, programs that answer
    as they are told to, and what the providers do there: the runs that show
    the theorems at work, and those that show where the code does something
    else than it says. *)

From stdpp Require Import pretty.
From S2P Require Import Prelude Text Json ApiError Routing Db AuditLog Ids Diff Executor ExecutorProps Chars PluginSpec Plugin SpecReader Posix FileProvider FileProps.

#[local] Open Scope string_scope.
#[local] Open Scope list_scope.
#[local] Open Scope nat_scope.

(** A change of owner clears the set-id bits, as on Linux; the eighth call
    fails where [faulty]. *)
Definition kernel (faulty : bool) : Kernel := {|
  call_fails i := if faulty && (i =? 7) then Some "ENOSPC" else None;
  part_written _ := Some 3;
  new_owner := (0, 0)%Z;
  new_mode := 420%Z;
  behind_link _ := Err "ENOENT";
  ulid_name n := "ULID" +:+ pretty n;
  chown_mode m := Z.land m 1023
|}.
#[local] Instance demo_exec : ExecEnv := {| ulid_text _ := "op"; ulid_at := Z.of_nat; now_at _ := "now"; io_at _ := Ok () |}.
#[local] Instance plain_digest : Sha256 := λ s, s.
#[local] Instance plain_text : DebugText := λ s, s.

Definition passwd_text (m : Machine) : result string string := Ok "root:x:0:0::/root:/bin/sh
www-data:x:33:33::/var/www:/bin/sh".
Definition group_text (m : Machine) : result string string := Ok "root:x:0:
www-data:x:33:".

Definition start_files : Files :=
  <[["etc"] := Directory]> (<[["etc"; "app.conf"] := Regular "old contents" 416 0 0]> ∅).
Definition start_machine : Machine := mkMachine start_files 0 0.

Definition file_resource (fields : list (string * Json)) : Resource :=
  mkResource API_VERSION "file" (mkMetadata "conf" "prod" None [] []) (JObject fields) JNull.
Definition app_conf : Resource :=
  file_resource [("path", JString "/etc/app.conf"); ("mode", JString "0644"); ("owner", JString "www-data"); ("content", JString "new")].
Definition app_spec : FileSpec := mkFileSpec "/etc/app.conf" FilePresent (Some "0644") (Some "www-data") None (Some "new").

Definition write_step : Step := step_new 1 "file.write" "write /etc/app.conf" JNull.
Definition context : ApplyContext := mkContext 1 (1, "file", 1)%Z.

Section Runs.
Context (faulty : bool).
#[local] Existing Instance kernel.
#[local] Instance the_kernel : Kernel := kernel faulty.

Definition demo_provider : Provider Machine Workspace := file_provider (λ _, "") passwd_text group_text (λ _, "now") start_machine.

Definition backed_up : CoreResult Json * (Machine * Workspace) := p_pre_apply demo_provider app_conf write_step context (start_machine, ∅).
Definition applied : CoreResult StepResult * (Machine * Workspace) := p_apply demo_provider app_conf write_step context backed_up.2.
End Runs.

Lemma kernel_honest faulty i : @call_fails (kernel faulty) i ≠ Some "ENOENT".
Proof. cbn. by destruct (faulty && (i =? 7)). Qed.

Lemma app_spec_read : file_spec_of (λ _, "") app_conf = Ok app_spec.
Proof. vm_compute. reflexivity. Qed.

(** *** The theorems at work *)

(** The write to the temporary file fails: the target is what it was. *)
Lemma file_changes_confined_witness :
  (applied true).1 = Err (EIo "/etc/.app.conf.iac.ULID0.tmp" "ENOSPC") ∧
  confined ["etc"] "app.conf" start_files (mc_files (applied true).2.1) ∧
  mc_files (applied true).2.1 !! ["etc"; "app.conf"] = Some (Regular "old contents" 416 0 0).
Proof.
  assert ((applied true).1 = Err (EIo "/etc/.app.conf.iac.ULID0.tmp" "ENOSPC")) as Hr by (vm_compute; reflexivity).
  assert (mc_files (backed_up true).2.1 = start_files) as Hb by (vm_compute; reflexivity).
  split; [exact Hr|].
  destruct (proj1 (@file_changes_confined (kernel true) (kernel_honest true) demo_exec plain_digest plain_text passwd_text group_text
    (λ _, "") (λ _, "now") start_machine app_conf app_spec "app.conf" app_spec_read eq_refl)
    write_step context (backed_up true).2.1 (backed_up true).2.2 (applied true).1 (applied true).2.1 (applied true).2.2)
    as (_ & Hc & _).
  - unfold applied, demo_provider. destruct (backed_up true) as [d [m w]]. cbn [fst snd]. by destruct (p_apply _ _ _ _ _) as [? [? ?]].
  - rewrite Hb in Hc. split; [exact Hc|]. vm_compute. reflexivity.
Defined.

(** The same apply, cut short, is rolled back from its backup. *)
Definition checkpoint_of (data : Json) : Checkpoint :=
  mkCheckpoint 1 (rid_of app_conf) 1 "now" data (Some (r_spec app_conf)).

Lemma file_rollback_restores_witness :
  ∃ data m3, (backed_up true).1 = Ok data ∧
    p_rollback (demo_provider true) (synthesize_resource (checkpoint_of data)) (checkpoint_of data) (applied true).2 = (Ok (), (m3, (applied true).2.2)) ∧
    mc_files m3 !! ["etc"; "app.conf"] = Some (Regular "old contents" 416 0 0).
Proof.
  assert (∃ data, (backed_up true).1 = Ok data) as [data Hd] by (eexists; vm_compute; reflexivity).
  destruct (@file_rollback_restores (kernel true) (kernel_honest true) demo_exec plain_digest plain_text passwd_text group_text
    (λ _, "") (λ _, "now") start_machine app_conf app_spec "app.conf" write_step context start_machine ∅ data
    (backed_up true).2.1 (backed_up true).2.2 (applied true).1 (applied true).2.1 (applied true).2.2 (checkpoint_of data))
    as (m3 & Hr & Ht & _).
  - exact app_spec_read.
  - reflexivity.
  - intros n Hn. vm_compute in Hn. injection Hn as <-. split; [|left; vm_compute; reflexivity].
    eexists "old contents", 416%Z, 0%Z, 0%Z. split_and!; [reflexivity|lia|lia|vm_compute; reflexivity|lia|vm_compute; congruence|lia|vm_compute; congruence].
  - reflexivity.
  - rewrite <- Hd. unfold backed_up, demo_provider. by destruct (p_pre_apply _ _ _ _ _) as [? [? ?]].
  - unfold applied, demo_provider. destruct (backed_up true) as [d [m w]]. cbn [fst snd]. by destruct (p_apply _ _ _ _ _) as [? [? ?]].
  - assert (mc_calls (applied true).2.1 = 8) as -> by (vm_compute; reflexivity). intros i Hi. cbn.
    destruct (Nat.eqb_spec i 7); [lia|done].
  - vm_compute. reflexivity.
  - reflexivity.
  - reflexivity.
  - exists data, m3. split; [exact Hd|]. split; [|exact Ht]. rewrite <- Hr. unfold demo_provider. by destruct (applied true).2.
Defined.

(** Without a fault, what was applied is what is observed. *)
Definition observed_after : CoreResult ObservedState := p_observe (demo_provider false) app_conf (applied false).2.1.

Lemma file_apply_converges_witness :
  ∃ res o, (applied false).1 = Ok res ∧ observed_after = Ok o ∧
    p_diff (demo_provider false) app_conf o = Ok no_change ∧
    p_verify (demo_provider false) app_conf (applied false).2.1 = Ok VMatch.
Proof.
  assert (∃ res, (applied false).1 = Ok res) as [res Hr] by (eexists; vm_compute; reflexivity).
  assert (∃ o, observed_after = Ok o) as [o Ho] by (eexists; vm_compute; reflexivity).
  exists res, o. split; [exact Hr|]. split; [exact Ho|].
  refine (@file_apply_converges (kernel false) (kernel_honest false) demo_exec plain_digest plain_text passwd_text group_text
    (λ _, "") (λ _, "now") start_machine app_conf app_spec "app.conf" write_step context
    (backed_up false).2.1 (backed_up false).2.2 res (applied false).2.1 (applied false).2.2 o app_spec_read eq_refl _ _ _ eq_refl _ Ho).
  - done.
  - done.
  - intros md Hmd. vm_compute in Hmd. injection Hmd as <-. split; [lia|]. intros _. vm_compute. reflexivity.
  - rewrite <- Hr. unfold applied, demo_provider. destruct (backed_up false) as [d [m w]]. cbn [fst snd]. by destruct (p_apply _ _ _ _ _) as [? [? ?]].
Defined.

(** *** An operation on two files, undone

    The first is replaced, the second does not exist; the disk fills up while
    the second is written. ULIDs are drawn a millisecond apart. *)

Section Undone.
#[local] Instance spaced_exec : ExecEnv :=
  {| ulid_text _ := "op"; ulid_at n := (Z.of_nat n * 2 ^ 80)%Z; now_at _ := "now"; io_at _ := Ok () |}.
#[local] Instance full_disk : Kernel := {|
  call_fails i := if i =? 18 then Some "ENOSPC" else None;
  part_written _ := Some 3; new_owner := (0, 0)%Z; new_mode := 420%Z; behind_link _ := Err "ENOENT";
  ulid_name n := "ULID" +:+ pretty n; chown_mode m := Z.land m 1023 |}.

Lemma full_honest i : call_fails i ≠ Some "ENOENT".
Proof. cbn. by destruct (i =? 18). Qed.

Definition new_conf : Resource :=
  mkResource API_VERSION "file" (mkMetadata "new" "prod" None [] [])
    (JObject [("path", JString "/etc/new.conf"); ("content", JString "contents")]) JNull.
Definition two_files : list Resource := [app_conf; new_conf].

Definition two_start : World Machine Workspace := mkWorld start_machine ∅ ∅ 0 0 0.
Definition two_provider : Provider Machine Workspace := file_provider (λ _, "") passwd_text group_text (λ _, "now") start_machine.
Definition two_applied := apply (∅ : Workspace) [("file", two_provider)] "alice" two_files two_start.
Lemma spaced_unique i j : ulid_at i = ulid_at j → i = j.
Proof. cbn. intros He%Z.mul_reg_r; lia. Qed.

Lemma spaced_ms i : ulid_ms (ulid_at i) = Z.of_nat i.
Proof. apply Z.div_mul. lia. Qed.

Abbreviation two_targets := (file_targets (λ _, "") two_files).

Lemma two_paths : two_targets = [["etc"; "app.conf"]; ["etc"; "new.conf"]].
Proof. vm_compute. reflexivity. Qed.

Lemma two_cases t : t ∈ two_targets → t = ["etc"; "app.conf"] ∨ t = ["etc"; "new.conf"].
Proof. rewrite two_paths. intros [->|[->|[]%elem_of_nil]%elem_of_cons]%elem_of_cons; auto. Qed.

Lemma two_sane r : r ∈ two_files → sane (λ _, "") r.
Proof.
  unfold two_files. intros [->|[->|[]%elem_of_nil]%elem_of_cons]%elem_of_cons spec Hs; vm_compute in Hs; injection Hs as <-.
  - split; [by eexists|]. intros md Hm. vm_compute in Hm. injection Hm as <-. split; [lia|reflexivity].
  - split; [by eexists|]. intros md Hm. by vm_compute in Hm.
Qed.

Lemma two_separate : separate (λ _, "") two_files.
Proof.
  assert (∀ b b' u, String.get 0 b' ≠ Some (Ascii.ascii_of_N 46) → ¬ (["etc"; temp_name b u] `prefix_of` ["etc"; b'])) as Ht.
  { intros b b' u Hb [l Hl]. injection Hl as -> _. by apply Hb. }
  intros t t' [->| ->]%two_cases [->| ->]%two_cases; (split; [intros [l Hl]; discriminate Hl|intros u; by apply Ht]).
Qed.

Lemma two_fit : files_fit (λ _, "") two_files start_machine.
Proof.
  assert (∀ q, q `prefix_of` ["etc"] → dir_there q start_files) as Hd.
  { intros [|x [|y q]] [l Hl]; [right; by split|injection Hl as <- _; by left|discriminate Hl]. }
  intros t [->| ->]%two_cases; (split; [exact Hd|]); intros n Hn; vm_compute in Hn; [|discriminate Hn]. injection Hn as <-.
  do 4 eexists. split; [reflexivity|]. vm_compute. repeat split; discriminate.
Qed.

(** What the failed run left: the new contents, and a part of the second file. *)
Lemma two_left : mc_files (w_host two_applied.2) =
  <[["etc"; ".new.conf.iac.ULID1.tmp"] := Regular "con" 384 0 0]> (<[["etc"; "app.conf"] := Regular "new" 420 33 0]> start_files).
Proof. vm_compute. reflexivity. Qed.

Lemma two_calm : files_calm (λ _, "") two_files (w_host two_applied.2).
Proof.
  split.
  - assert (mc_calls (w_host two_applied.2) = 19) as -> by (vm_compute; reflexivity). intros i Hi. cbn.
    destruct (Nat.eqb_spec i 18); [lia|done].
  - assert (mc_ulids (w_host two_applied.2) = 2) as -> by (vm_compute; reflexivity). rewrite two_left.
    intros t j [->| ->]%two_cases Hj.
    + unfold start_files. repeat (rewrite lookup_insert_ne by discriminate). apply lookup_empty.
    + rewrite lookup_insert_ne; [unfold start_files; repeat (rewrite lookup_insert_ne by discriminate); apply lookup_empty|].
      intros He. injection He as He. change "1.tmp" with (pretty 1 +:+ ".tmp") in He. apply str_app_inj_r in He as [He _]; [|done].
      assert (1 = j) by exact (inj pretty 1 j He). lia.
Qed.

(** Checkpoints by key, told apart by a listing. *)
Lemma apart_listed {V : Type} op (w : World V Workspace) :
  forallb (λ x, forallb (λ y,
    bool_decide (x.1 = y.1) ||
    match sl_checkpoint x.2, sl_checkpoint y.2 with
    | Some a, Some b => negb (ulid_ms (cp_id a) =? ulid_ms (cp_id b))%Z
    | _, _ => true
    end) (map_to_list (od_slots (opdir_of op w)))) (map_to_list (od_slots (opdir_of op w))) = true →
  apart op w.
Proof.
  intros Hall k1 k2 c1 c2 w1 w2 Hs1 Hs2 Hne. apply elem_of_map_to_list, list_elem_of_In in Hs1, Hs2.
  rewrite forallb_forall in Hall. specialize (Hall _ Hs1). rewrite forallb_forall in Hall. specialize (Hall _ Hs2). cbn in Hall.
  rewrite bool_decide_false in Hall by done. cbn in Hall. apply negb_true_iff, Z.eqb_neq in Hall. exact Hall.
Qed.

Lemma rollback_restores_files_witness :
  ∃ w'', rollback (∅ : Workspace) [("file", two_provider)] 0 two_applied.2 = (Ok (), w'') ∧
    mc_files (w_host w'') !! ["etc"; "app.conf"] = Some (Regular "old contents" 416 0 0) ∧
    mc_files (w_host w'') !! ["etc"; "new.conf"] = None.
Proof.
  pose proof (rollback_restores_files full_honest passwd_text group_text (λ _, "") (λ _, "now") start_machine "alice" two_files two_start) as Ht.
  cbv zeta in Ht. change (apply _ _ "alice" two_files two_start) with two_applied in Ht. destruct two_applied as [res w'] eqn:Hrun.
  assert (is_ok two_applied.1 = true) as Hok by (vm_compute; reflexivity).
  pose proof two_calm as Hcalm. assert (apart 0 two_applied.2) as Hapart by (apply apart_listed; vm_compute; reflexivity).
  rewrite Hrun in Hok, Hcalm, Hapart. destruct res as [result|e]; [|discriminate Hok].
  destruct Ht as [Hdone Hback].
  - exact spaced_unique.
  - intros i j Hij. rewrite !spaced_ms. lia.
  - exact two_sane.
  - exact two_separate.
  - vm_compute. repeat split; discriminate.
  - intros k [d Hd]. cbn in Hd. rewrite lookup_empty in Hd. discriminate.
  - exact two_fit.
  - destruct (Hback (proj2 (Hdone result eq_refl)) Hapart Hcalm (λ _ _, eq_refl)) as (w'' & Hroll & Hfiles).
    exists w''. split; [exact Hroll|].
    assert (∀ b, String.get 0 b ≠ Some (Ascii.ascii_of_N 46) → mc_files (w_host w'') !! ["etc"; b] = start_files !! ["etc"; b]) as Hf.
    { intros b Hb. apply Hfiles; [discriminate|]. intros t u [->| ->]%two_cases He; injection He as ->; by apply Hb. }
    split; [rewrite (Hf "app.conf") by discriminate|rewrite (Hf "new.conf") by discriminate]; vm_compute; reflexivity.
Defined.
End Undone.

(** *** What the code does not mean to do *)

(** Planned from the comparison, then applied, on the demo machine. *)
Definition compared (r : Resource) : CoreResult Diff :=
  o ← p_observe (demo_provider false) r start_machine; p_diff (demo_provider false) r o.
Definition applied_to (r : Resource) : Files :=
  mc_files (p_apply (demo_provider false) r write_step context (start_machine, ∅)).2.1.
Definition compared_again (r : Resource) : CoreResult Diff :=
  let m := (p_apply (demo_provider false) r write_step context (start_machine, ∅)).2.1 in
  o ← p_observe (demo_provider false) r m; p_diff (demo_provider false) r o.

(** Contents that are not managed are lost when the mode is corrected: the
    file is written anew, empty. *)
Definition mode_only : Resource := file_resource [("path", JString "/etc/app.conf"); ("mode", JString "0600")].
Example mode_change_empties_file :
  (map fc_field ∘ diff_changes <$> (match compared mode_only with Ok d => Some d | Err _ => None end)) = Some ["mode"] ∧
  applied_to mode_only !! ["etc"; "app.conf"] = Some (Regular "" 384 0 0).
Proof. split; vm_compute; reflexivity. Qed.

(** A mode that is not managed does not stay: new contents come with 0600. *)
Definition content_only : Resource := file_resource [("path", JString "/etc/app.conf"); ("content", JString "new")].
Example unmanaged_mode_replaced : applied_to content_only !! ["etc"; "app.conf"] = Some (Regular "new" 384 0 0).
Proof. vm_compute. reflexivity. Qed.

(** A directory passes for a present file. *)
Definition a_directory : Resource := file_resource [("path", JString "/etc")].
Example directory_passes : compared a_directory = Ok no_change.
Proof. vm_compute. reflexivity. Qed.

(** The set-id bits are set before the owner is changed, which clears them:
    the resource never converges. *)
Definition set_id : Resource :=
  file_resource [("path", JString "/etc/app.conf"); ("mode", JString "4755"); ("owner", JString "www-data"); ("content", JString "new")].
Example set_id_never_converges :
  applied_to set_id !! ["etc"; "app.conf"] = Some (Regular "new" 493 33 0) ∧
  (is_change <$> (match compared_again set_id with Ok d => Some d | Err _ => None end)) = Some true.
Proof. split; vm_compute; reflexivity. Qed.

(** A mode of more than twelve bits is accepted and never reached. *)
Definition wide_mode : Resource := file_resource [("path", JString "/etc/app.conf"); ("mode", JString "100644"); ("content", JString "new")].
Example wide_mode_never_converges :
  (is_change <$> (match compared_again wide_mode with Ok d => Some d | Err _ => None end)) = Some true.
Proof. vm_compute. reflexivity. Qed.

(** An owner that does not exist is no difference. *)
Definition unknown_owner : Resource := file_resource [("path", JString "/etc/app.conf"); ("owner", JString "nobody2")].
Example unknown_owner_passes : compared unknown_owner = Ok no_change.
Proof. vm_compute. reflexivity. Qed.

(** ** The rendered-file, service and package providers at work

    Concrete machines for the theorems on cron, nginx, systemd, package and
    the commands they run, and the runs that show where the code does
    something else than it says. *)

From stdpp Require Import pretty strings gmap.
From S2P Require Import ConfigFile Cron Command Nginx Systemd Package Firewall Docker DockerProps.

#[local] Existing Instance demo_exec.
#[local] Existing Instance plain_digest.
#[local] Existing Instance plain_text.
#[local] Instance sound_kernel : Kernel := kernel false.

Lemma sound_honest i : call_fails i ≠ Some "ENOENT".
Proof. exact (kernel_honest false i). Qed.

Definition resource (kind : string) (fields : list (string * Json)) : Resource :=
  mkResource API_VERSION kind (mkMetadata "demo" "prod" None [] []) (JObject fields) JNull.

(** ** cron *)

Definition cron_demo_resource (schedule : string) : Resource :=
  resource "cron.job" [("name", JString "backup"); ("schedule", JString schedule); ("command", JString "/bin/backup");
                       ("env", JObject [("MAILTO", JString "ops@example.com")]); ("cron_dir", JString "/etc")].
Definition cron_spec (schedule : string) : CronJobSpec :=
  mkCron "backup" CronPresent (Some schedule) (Some "/bin/backup") "root" [("MAILTO", "ops@example.com")] (Some "/etc").

Lemma cron_file_lines_witness :
  stream_lines (split_on newline (render_cron (cron_spec "0 3 * * *"))) =
    ["# Managed by iac. Do not edit by hand."; "MAILTO=ops@example.com"; ""; job_line (cron_spec "0 3 * * *")].
Proof.
  refine (cron_file_lines (λ _, "") (cron_demo_resource "0 3 * * *") (cron_spec "0 3 * * *") _ eq_refl _ _ _).
  - vm_compute. reflexivity.
  - vm_compute. reflexivity.
  - repeat constructor.
  - intros schedule [= <-]. vm_compute. reflexivity.
Defined.

(** A schedule of five fields may hold a newline: the file then has a line
    that the checks did not see as one. *)
Definition two_lines : string := "0 3 * *" +:+ newline_text +:+ "*".
Example schedule_adds_a_line :
  cron_spec_of (λ _, "") (cron_demo_resource two_lines) = Ok (cron_spec two_lines) ∧
  length (stream_lines (split_on newline (render_cron (cron_spec two_lines)))) = 5.
Proof. split; vm_compute; reflexivity. Qed.

(** The capability of a job is its name, wherever its file goes. *)
Example cron_capability_ignores_directory :
  p_capability_keys (cron_provider (λ _, "") (λ _, "now")) (cron_demo_resource "@daily") = Ok ["backup"] ∧
  config_path (cron_spec "@daily") = "/etc/backup".
Proof. split; vm_compute; reflexivity. Qed.

(** ** nginx *)

(** [nginx -t] refuses a snippet that proxies to "http://refuse", and the
    reload fails for one that proxies to "http://stuck"; both write a log. *)
Definition snippet (f : Files) : string := match f !! ["etc"; "app.conf"] with Some (Regular c _ _ _) => c | _ => "" end.
#[local] Instance demo_programs : Programs () := λ cmd h,
  let text := snippet (mc_files h.1) in
  let bad := (bool_decide (cmd_program cmd = "nginx") && str_contains "http://refuse" text)
             || (bool_decide (cmd_program cmd = "systemctl") && str_contains "http://stuck" text) in
  (Ok (mkOutput (Some (if bad then 1 else 0)%Z) "" (if bad then "no" else "")),
   (set_files (<[["var"; "nginx.log"] := Regular "tested" 420 0 0]> (mc_files h.1)) h.1, h.2)).

Definition vhost_resource (fields : list (string * Json)) : Resource :=
  resource "nginx.vhost" ([("config_path", JString "/etc/app.conf"); ("server_names", JArray [JString "app.example.com"])] ++ fields).
Definition vhost_to (upstream : string) : Resource := vhost_resource [("upstream", JString upstream)].
Definition vhost_spec (upstream : string) : NginxVhostSpec :=
  mkVhost "/etc/app.conf" NginxPresent ["app.example.com"] [80%Z] (Some upstream) None None None [].

(** The workspace holds the checkpoint the executor wrote. *)
Definition nginx_demo : Provider (Machine * ()) Json :=
  nginx_provider NginxCli (λ _, "") (λ _, "now") (λ data, Some (Ok (mkCheckpoint 1 (rid_of (vhost_to "")) 1 "now" data None))).
Definition nginx_step : Step := step_new 1 "nginx.write" "write" JNull.
Definition before_nginx : Machine * () := (start_machine, ()).
Definition nginx_saved (upstream : string) : CoreResult Json * ((Machine * ()) * Json) :=
  p_pre_apply nginx_demo (vhost_to upstream) nginx_step context (before_nginx, JNull).
Definition nginx_data (upstream : string) : Json := match (nginx_saved upstream).1 with Ok data => data | Err _ => JNull end.
Definition nginx_run_apply (upstream : string) : CoreResult StepResult * ((Machine * ()) * Json) :=
  p_apply nginx_demo (vhost_to upstream) nginx_step context ((nginx_saved upstream).2.1, nginx_data upstream).

Lemma eta3 {A B C : Type} (x : A * (B * C)) : x = (x.1, (x.2.1, x.2.2)).
Proof. by destruct x as [? [? ?]]. Qed.

(** The log is not the snippet. *)
Lemma snippet_spared cmd kind label : spares "/etc/app.conf" (run_check_status cmd kind label).
Proof.
  intros [m x]. unfold run_check_status, run_capture_stdout, io_bind, run_program, demo_programs, files. cbn -[components str_contains].
  assert (text_at "/etc/app.conf" (<[["var"; "nginx.log"] := Regular "tested" 420 0 0]> (mc_files m)) = text_at "/etc/app.conf" (mc_files m)) as Ht
    by (unfold text_at; by rewrite lookup_insert_ne).
  destruct (_ || _); exact Ht.
Qed.

(** A snippet nginx refuses: the old text is back. *)
Lemma nginx_apply_old_or_valid_witness :
  is_ok (nginx_run_apply "http://refuse").1 = false ∧
  text_at "/etc/app.conf" (files (nginx_run_apply "http://refuse").2.1) = Some "old contents".
Proof.
  pose proof (nginx_apply_old_or_valid (S := ()) (W := Json) (λ _, "") (λ _, "now")
    (λ data, Some (Ok (mkCheckpoint 1 (rid_of (vhost_to "")) 1 "now" data None))) sound_honest
    (vhost_to "http://refuse") (vhost_spec "http://refuse") nginx_step context before_nginx JNull
    (nginx_saved "http://refuse").2.1 (nginx_saved "http://refuse").2.2 (nginx_data "http://refuse") (nginx_data "http://refuse")
    (mkCheckpoint 1 (rid_of (vhost_to "")) 1 "now" (nginx_data "http://refuse") None)
    (nginx_run_apply "http://refuse").1 (nginx_run_apply "http://refuse").2.1 (nginx_run_apply "http://refuse").2.2) as Hn.
  cbv zeta in Hn.
  assert (∃ e, (nginx_run_apply "http://refuse").1 = Err e) as [e He] by (eexists; vm_compute; reflexivity).
  assert (nginx_spec_of (λ _, "") (vhost_to "http://refuse") = Ok (vhost_spec "http://refuse")) as Hs by (vm_compute; reflexivity).
  assert (file_name (components (ng_config_path (vhost_spec "http://refuse"))) ≠ None) as Hf by (vm_compute; congruence).
  specialize (Hn (snippet_spared _ _ _) (snippet_spared _ _ _) Hs Hf eq_refl). rewrite He in Hn |- *. split; [reflexivity|].
  assert (text_at (ng_config_path (vhost_spec "http://refuse")) (files before_nginx) = Some "old contents") as Hold by (vm_compute; reflexivity).
  assert (text_at (ng_config_path (vhost_spec "http://refuse")) (files (nginx_run_apply "http://refuse").2.1) ≠ wanted (vhost_spec "http://refuse")) as Hnew
    by (vm_compute; congruence).
  rewrite Hold in Hn. destruct Hn as [Hn|[Hn _]].
  - assert ((nginx_saved "http://refuse").1 = Ok (nginx_data "http://refuse")) as Hd by (vm_compute; reflexivity).
    rewrite <- Hd. exact (eta3 (nginx_saved "http://refuse")).
  - reflexivity.
  - reflexivity.
  - rewrite <- He. exact (eta3 (nginx_run_apply "http://refuse")).
  - exact Hn.
  - destruct (Hnew Hn).
Defined.

(** A reload that fails leaves the new snippet, which the next observation
    takes for converged although nginx runs with the old one. *)
Example failed_reload_passes :
  is_ok (nginx_run_apply "http://stuck").1 = false ∧
  (o ← p_observe nginx_demo (vhost_to "http://stuck") (nginx_run_apply "http://stuck").2.1; p_diff nginx_demo (vhost_to "http://stuck") o) = Ok no_change.
Proof. split; vm_compute; reflexivity. Qed.

(** With TLS, a port such as 8443 is rendered as plain HTTP. *)
Definition vhost_8443 : NginxVhostSpec :=
  mkVhost "/etc/app.conf" NginxPresent ["app.example.com"] [8443%Z] (Some "http://127.0.0.1") None None (Some (mkTls "/c.pem" "/k.pem" true)) [].
Example tls_port_rendered_plain :
  validate_vhost vhost_8443 = Ok () ∧ str_contains "    listen 8443;" (render_vhost vhost_8443) = true.
Proof. split; vm_compute; reflexivity. Qed.

(** A location path may close its block and open a server of its own. *)
Definition vhost_braces : NginxVhostSpec :=
  mkVhost "/etc/app.conf" NginxPresent ["app.example.com"] [80%Z] (Some "http://127.0.0.1") None None None
    [mkLocation "/a { } } server { location /" (Some "http://10.0.0.1") None].
Example location_opens_a_server :
  validate_vhost vhost_braces = Ok () ∧ str_contains "    location /a { } } server { location / {" (render_vhost vhost_braces) = true.
Proof. split; vm_compute; reflexivity. Qed.

(** ** systemd *)

(** A machine that is one unit. *)
Definition demo_systemctl : Systemctl UnitInfo :=
  let set f := λ i, (Ok (), f i) in
  let file s := set (λ i, mkUnitInfo (ui_load_state i) (ui_active_state i) (ui_sub_state i) s) in
  let act s := set (λ i, mkUnitInfo (ui_load_state i) s (ui_sub_state i) (ui_unit_file_state i)) in
  mkSystemctl _ (λ _ i, (Ok i, i)) (λ _, file "enabled") (λ _, file "disabled") (λ _, act "active") (λ _, act "inactive")
    (λ _, act "active") (λ _, set (λ i, i)).
#[local] Instance demo_laws unit : SystemctlLaws demo_systemctl unit (λ i, i).
Proof. split; cbn; intros; by simplify_eq. Defined.

Definition unit_resource : Resource := resource "systemd.unit" [("name", JString "nginx"); ("enabled", JBool false)].
Definition unit_spec : SystemdUnitSpec := mkUnit "nginx" UService false true.
Definition a_unit : UnitInfo := mkUnitInfo "loaded" "inactive" "dead" "enabled".
Definition settled_unit : UnitInfo := mkUnitInfo "loaded" "active" "dead" "disabled".

Lemma systemd_apply_converges_witness :
  settled unit_spec settled_unit ∧
  p_diff (systemd_provider (W := ()) demo_systemctl (λ _, "") (λ _, "now")) unit_resource
    (observation_from_info (unit_name unit_spec) settled_unit "later") = Ok no_change.
Proof.
  refine (systemd_apply_converges demo_systemctl unit_spec (λ i, i) (λ _, "") (λ _, "now") unit_resource 0 a_unit "now" settled_unit "later" _ _ _ _).
  - vm_compute. reflexivity.
  - vm_compute. reflexivity.
  - vm_compute. reflexivity.
  - vm_compute. reflexivity.
Defined.

(** ** package *)

Definition demo_packages : PackageBackend InstallStatus :=
  mkPackageBackend _ (λ _ i, (Ok i, i)) (λ _ v _, (Ok (), Installed "install ok installed" (default "2.0" v))) (λ _ _, (Ok (), NotInstalled)).
#[local] Instance demo_package_laws name : PackageLaws demo_packages name (λ i, i).
Proof.
  split; cbn; [|intros version m m' [= <-]; split; [vm_compute; reflexivity|by intros v ->]|intros m m' [= <-]; vm_compute; reflexivity].
  intros m r m' [= <- <-]. split; [reflexivity|by intros i [= ->]].
Defined.

Definition package_resource : Resource := resource "package" [("name", JString "nginx"); ("version", JString "1.1")].
Definition package_spec : PackageSpec := mkPackage "nginx" PackagePresent (Some "1.1") "apt".
Definition package_demo : Provider InstallStatus () := package_provider demo_packages (λ _, "") (λ _, "now").
Definition package_step : Step := step_new 1 "package.install" "install" (JObject [("name", JString "nginx"); ("version", JString "1.1")]).
Definition package_checkpoint (was : InstallStatus) : Checkpoint :=
  mkCheckpoint 1 (rid_of package_resource) 1 "now"
    (match (p_pre_apply package_demo package_resource package_step context (was, ())).1 with Ok data => data | Err _ => JNull end) None.
Definition package_after (was : InstallStatus) : InstallStatus * () := (p_apply package_demo package_resource package_step context (was, ())).2.

Lemma package_rollback_restores_witness :
  have (p_rollback package_demo package_resource (package_checkpoint (Installed "install ok installed" "1.0"))
          (package_after (Installed "install ok installed" "1.0"))).2.1 = Some "1.0".
Proof.
  change (Some "1.0") with (have (Installed "install ok installed" "1.0")).
  refine (package_rollback_restores demo_packages (λ _, "") (λ _, "now") package_spec (λ i, i) package_resource package_step context
    (Installed "install ok installed" "1.0") (cp_data (package_checkpoint (Installed "install ok installed" "1.0")))
    (Installed "install ok installed" "1.0") (package_after (Installed "install ok installed" "1.0")).1 _
    (package_checkpoint (Installed "install ok installed" "1.0")) () () package_resource _ _ _ _ _ _).
  - vm_compute. reflexivity.
  - left. vm_compute. reflexivity.
  - vm_compute. reflexivity.
  - reflexivity.
  - vm_compute. reflexivity.
Defined.

(** A package that was removed and left its configuration counts as one that
    was installed: the rollback installs it. *)
Example rollback_installs_what_was_removed :
  let was := Installed "deinstall ok config-files" "1.0" in
  have was = None ∧
  have (p_rollback package_demo package_resource (package_checkpoint was) (NotInstalled, ())).2.1 = Some "1.0".
Proof. split; vm_compute; reflexivity. Qed.

(** A name that ends in a minus sign is accepted; apt-get removes such a package. *)
Example minus_suffix_accepted : validate_package (mkPackage "nginx-" PackagePresent None "apt") = Ok ().
Proof. vm_compute. reflexivity. Qed.

(** ** Commands *)

(** A child that is still there at every poll, and that leaves another process
    with its outputs. *)
Definition hung : Child :=
  mkChild (λ _, Ok None) (λ i, (25 * Z.of_nat i)%Z) (λ _, true) (λ j, (25 * Z.of_nat j)%Z)
    (Some (λ killed, mkPipe "part" killed)) (Some (λ _, mkPipe "" None)).
Lemma run_with_timeout_returns_witness :
  ∃ i, last_poll hung 1000 i ∧ (1000 ≤ ch_elapsed hung i)%Z ∧
    ∃ elapsed out err, run_with_timeout (Ok hung) 1000 = Some (Returned (Err (Timeout_ elapsed out err)) elapsed).
Proof.
  destruct (run_with_timeout_returns (Ok hung) 1000) as (i & Hi & Ht & elapsed & out & err & last & Hr & _).
  - lia.
  - intros c [= <-]. split; intros i; unfold POLL_INTERVAL, hung, ch_elapsed, ch_reap_after; lia.
  - exists i. split; [exact Hi|]. split; [exact Ht|]. exists elapsed, out, err. exact Hr.
Defined.

(** One that exits at once and leaves a process that keeps its output open:
    the deadline does not help, the call never comes back. *)
Definition daemonised : Child :=
  mkChild (λ _, Ok (Some (Some 0%Z))) (λ i, (25 * Z.of_nat i)%Z) (λ _, true) (λ j, (25 * Z.of_nat j)%Z)
    (Some (λ _, mkPipe "started" None)) (Some (λ _, mkPipe "" (Some 1%Z))).
Example grandchild_blocks : run_with_timeout (Ok daemonised) 1000 = Some Blocked.
Proof. vm_compute. reflexivity. Qed.

(** ** docker *)

Definition container_resource (fields : list (string * Json)) : Resource :=
  resource "docker.container" ([("name", JString "web"); ("image", JString "nginx:1.27")] ++ fields).
Definition web_resource : Resource :=
  container_resource [("env", JObject [("PORT", JString "8080")]); ("ports", JArray [JString "8080:80"]);
    ("healthcheck", JObject [("command", JString "true"); ("interval", JString "2m"); ("retries", JNumber "3")]);
    ("network", JString "front"); ("extra_networks", JArray [JString "back"])].
Definition container_spec_in (r : Resource) : DockerContainerSpec :=
  match container_spec_of (λ _, "") r with Ok s => s | Err _ => mkContainer "" None DockerAbsent [] [] RestartNo [] None None [] None [] [] end.
Definition no_containers : MockDocker := mkMock ∅ ∅ [].

Definition docker_observed (r : Resource) (m : MockDocker) : ObservedState * MockDocker :=
  match docker_observe MockBackend (λ _, "") (λ _, "now") r m with (Ok o, m) => (o, m) | (Err _, m) => (mkObserved false JNull [] "", m) end.
Definition docker_compared (r : Resource) (m : MockDocker) : Diff * MockDocker :=
  let '(o, m) := docker_observed r m in
  match docker_diff MockBackend (λ _, "") r o m with (Ok d, m) => (d, m) | (Err _, m) => (no_change, m) end.
Definition docker_steps (r : Resource) (m : MockDocker) : list Step := (plan_container (container_spec_in r) (docker_compared r m).1 1).1.
Definition docker_applied (r : Resource) (m : MockDocker) : MockDocker :=
  (run_docker_steps MockBackend (λ _, "") r (docker_steps r m) (docker_compared r m).2).2.

Definition docker_verified (r : Resource) (m : MockDocker) : CoreResult VerifyOutcome * MockDocker :=
  docker_verify MockBackend (λ _, "") (λ _, "now") r m.

(** A container on two networks, made from nothing. *)
Lemma docker_apply_converges_witness :
  is_change (docker_compared web_resource no_containers).1 = true ∧
  ∃ v, (docker_verified web_resource (docker_applied web_resource no_containers)).1 = Ok v ∧ v = VMatch.
Proof.
  split; [vm_compute; reflexivity|].
  assert (∃ v, (docker_verified web_resource (docker_applied web_resource no_containers)).1 = Ok v) as [v Hv] by (eexists; vm_compute; reflexivity).
  exists v. split; [exact Hv|].
  refine (docker_apply_converges MockBackend (λ _, True) mock_view mock_image (λ _, "") (λ _, "now")
    web_resource (container_spec_in web_resource) no_containers (docker_observed web_resource no_containers).1 (docker_observed web_resource no_containers).2
    (docker_compared web_resource no_containers).1 (docker_compared web_resource no_containers).2 1 (docker_steps web_resource no_containers) 3 (docker_applied web_resource no_containers)
    v (docker_verified web_resource (docker_applied web_resource no_containers)).2 _ I _ _ _ _ _ _).
  - vm_compute. reflexivity.
  - left. vm_compute. eexists. reflexivity.
  - vm_compute. reflexivity.
  - vm_compute. reflexivity.
  - vm_compute. reflexivity.
  - vm_compute. reflexivity.
  - rewrite <- Hv. apply surjective_pairing.
Defined.

(** Further networks without a first one: docker puts the container on its
    bridge, which the comparison does not expect. *)
Example bridge_never_converges :
  let r := container_resource [("extra_networks", JArray [JString "back"])] in
  (docker_verified r (docker_applied r no_containers)).1 ≠ Ok VMatch.
Proof. vm_compute. discriminate. Qed.

(** The rollback of an update starts a container that was stopped, and forgets
    its tmpfs mounts. *)
Definition tmpfs_resource : Resource :=
  container_resource [("mounts", JArray [JObject [("type", JString "tmpfs"); ("target", JString "/run")]])].
Definition stopped_web : MockDocker := (db_stop MockBackend "web" (docker_applied tmpfs_resource no_containers)).2.
Definition rolled_back : MockDocker :=
  match docker_pre_apply MockBackend (λ _, "") tmpfs_resource stopped_web with
  | (Ok data, m) => (docker_rollback MockBackend (λ _, "") tmpfs_resource (mkCheckpoint 1 (rid_of tmpfs_resource) 1 "now" data None) m).2
  | (Err _, m) => m
  end.
Definition state_of (m : MockDocker) : option (bool * list string) := c ← mock_view m "web"; Some (ci_running c, ci_tmpfs_mounts c).
Example rollback_forgets : state_of stopped_web = Some (false, ["/run"]) ∧ state_of rolled_back = Some (true, []).
Proof. split; vm_compute; reflexivity. Qed.

(** A port bound to 0.0.0.0, as docker reports it and as the spec is docker_compared. *)
Example any_address_dropped :
  parse_port_bindings (Some (JObject [("80/tcp", JArray [JObject [("HostIp", JString "0.0.0.0"); ("HostPort", JString "8080")]])])) = ["8080:80/tcp"] ∧
  normalize_port_spec "0.0.0.0:8080:80" = "0.0.0.0:8080:80/tcp".
Proof. split; vm_compute; reflexivity. Qed.

(** A duration without a unit is accepted, and handed to docker as it is. *)
Example bare_duration : parse_health_duration_secs "30" = Ok 30%Z ∧
  health_args (Some (mkHealth "true" (Some "30") None None)) = ["--health-cmd"; "true"; "--health-interval"; "30"].
Proof. split; vm_compute; reflexivity. Qed.

(** An image may start with a dash, which docker takes for an option. *)
Example image_option : validate_image_ref "--privileged" = Ok ().
Proof. vm_compute. reflexivity. Qed.

(** ** firewall *)

Definition rule_value_in (fields : list (string * Json)) : Json :=
  JObject ([("name", JString "allow-ssh"); ("chain", JString "INPUT"); ("action", JString "ACCEPT")] ++ fields).
Definition ssh_rule (source : string) : FirewallRuleSpec :=
  mkRuleSpec "allow-ssh" "filter" "INPUT" "tcp" (Some 22%Z) (Some source) None "ACCEPT" Ipv4 FirewallPresent.
Definition ssh_value (source : string) : Json :=
  rule_value_in [("protocol", JString "tcp"); ("port", JNumber "22"); ("source", JString source)].
Definition ssh_line (source : string) : string := str_join " " ("-A" :: build_match (ssh_rule source)).

Lemma rule_reads_back_witness :
  ssh_line "10.0.0.0/8" = "-A INPUT -p tcp --dport 22 -s 10.0.0.0/8 -m comment --comment iac:allow-ssh -j ACCEPT" ∧
  diff_rule (ssh_rule "10.0.0.0/8") (rule_observation (Some (parse_save_line (ssh_line "10.0.0.0/8") "allow-ssh" Ipv4)) "now") = no_change.
Proof.
  split; [vm_compute; reflexivity|].
  refine (proj2 (proj2 (rule_reads_back (λ _, "") (ssh_value "10.0.0.0/8") (ssh_rule "10.0.0.0/8") "now" _ eq_refl _ _)) _).
  - vm_compute. reflexivity.
  - vm_compute. reflexivity.
  - intros a [[= <-]|[=]]. vm_compute. reflexivity.
  - intros a [[= <-]|[=]]. vm_compute. reflexivity.
Defined.

(** A single host written with its prefix length differs for ever. *)
Example single_host_never_converges :
  rule_from_value (λ _, "") (ssh_value "10.0.0.1/32") = Ok (ssh_rule "10.0.0.1/32") ∧
  is_change (diff_rule (ssh_rule "10.0.0.1/32") (rule_observation (Some (parse_save_line (ssh_line "10.0.0.1/32") "allow-ssh" Ipv4)) "now")) = true.
Proof. split; vm_compute; reflexivity. Qed.

(** The comment of one rule starts that of another: the rule found, and
    deleted, for [allow] is that of [allow-ssh]. *)
Example prefix_of_another :
  tagged "allow" (ssh_line "10.0.0.0/8") = true ∧ rule_index "allow" 0 [ssh_line "10.0.0.0/8"] = Some 1.
Proof. split; vm_compute; reflexivity. Qed.

(** A rule of the table nat is put back into filter, where its chain may not be. *)
Definition nat_rule : FirewallRuleSpec := mkRuleSpec "pre" "nat" "PREROUTING" "all" None None None "ACCEPT" Ipv4 FirewallPresent.
Example rollback_changes_table :
  let p := rule_json (parse_save_line (str_join " " ("-A" :: build_match nat_rule)) "pre" Ipv4) in
  fw_table (previous_rule nat_rule p) = "filter" ∧ fw_chain (previous_rule nat_rule p) = "PREROUTING".
Proof. split; vm_compute; reflexivity. Qed.

(** A rule in another table counts as the one that is wanted. *)
Example table_not_compared :
  diff_rule (ssh_rule "10.0.0.0/8") (rule_observation (Some (mkRule "allow-ssh" "mangle" "INPUT" "tcp" (Some 22%Z) (Some "10.0.0.0/8") None "ACCEPT" Ipv4)) "now") = no_change.
Proof. vm_compute. reflexivity. Qed.

(** Under nft a rule of the other family is taken for the one asked for; and an
    ICMP rule of IPv6 is written as one of IPv4. *)
Example nft_family_ignored :
  option_map ob_family (nft_find "web" Ipv4 "" "" ["table ip6 filter {"; "chain INPUT {"; "drop comment " +:+ QUOTE +:+ "iac:web" +:+ QUOTE +:+ " # handle 4"]) = Some Ipv4 ∧
  build_match_body (mkRuleSpec "ping" "filter" "INPUT" "icmp" None None None "ACCEPT" Ipv6 FirewallPresent) = "ip protocol icmp".
Proof. split; vm_compute; reflexivity. Qed.

(** ** dns *)

From S2P Require Import Net Dns.

Definition dns_resource (fields : list (string * Json)) : Resource :=
  resource "dns.record" ([("zone", JString "example.com"); ("name", JString "app"); ("type", JString "A"); ("value", JString "10.0.0.2");
    ("provider", JString "cloudflare"); ("cloudflare", JObject [("api_token", JString "t")])] ++ fields).
Definition dns_spec_in (r : Resource) : DnsRecordSpec :=
  match record_spec_of (λ _, "") r with Ok s => s | Err _ => mkDns "" "" TypeA None 0 RecordAbsent Cloudflare None end.
Definition dns_demo : Provider (MockJournal DnsMockState) () := dns_provider (λ _, Ok MockDns) (λ _, "") (λ _, "now").
Definition old_record : DnsRecord := mkDnsRecord "rec-0" "app.example.com" "A" "10.0.0.1" 60.
Definition one_record : MockJournal DnsMockState := pre_insert "example.com" old_record (mkJournal (mkDnsState ∅ 0) [] []).

Definition dns_step (a : DnsAction) : Step := step_new 1 (dns_action_name a) "" JNull.
Definition dns_checkpoint : Checkpoint :=
  mkCheckpoint 1 (rid_of (dns_resource [])) 1 "now"
    (match (p_pre_apply dns_demo (dns_resource []) (dns_step DnsUpdate) context (one_record, ())).1 with Ok data => data | Err _ => JNull end) None.
(** Updated, and then deleted by someone else. *)
Definition record_gone : MockJournal DnsMockState :=
  (dns_delete_record MockDns "example.com" "rec-0" (p_apply dns_demo (dns_resource []) (dns_step DnsUpdate) context (one_record, ())).2.1).2.
Definition dns_rolled_back : MockJournal DnsMockState := (p_rollback dns_demo (dns_resource []) dns_checkpoint (record_gone, ())).2.1.

Lemma dns_rollback_restores_witness :
  mj_calls dns_rolled_back = ["update zone=example.com id=rec-0 fqdn=app.example.com type=A value=10.0.0.2 ttl=300";
                              "delete zone=example.com id=rec-0"; "create zone=example.com fqdn=app.example.com type=A value=10.0.0.1 ttl=60"] ∧
  option_map settled (mock_records dns_rolled_back "example.com" "app.example.com" TypeA) = Some ("10.0.0.1", 60%Z).
Proof.
  split; [vm_compute; reflexivity|].
  refine (@dns_rollback_restores (MockJournal DnsMockState) demo_exec MockDns mock_records mock_dns_laws (λ _, Ok MockDns) (λ _, "") (λ _, "now") ()
    (dns_resource []) (dns_spec_in (dns_resource [])) (dns_step DnsUpdate) context one_record () (cp_data dns_checkpoint) one_record ()
    dns_checkpoint record_gone () dns_rolled_back () _ eq_refl _ _ eq_refl _).
  - vm_compute. reflexivity.
  - intros prior Hp. vm_compute in Hp. injection Hp as <-. split; vm_compute; congruence.
  - vm_compute. reflexivity.
  - vm_compute. reflexivity.
Defined.

(** A name within the zone but in capitals has the zone put after it again;
    and a name of dots alone is no name. *)
Definition name_of (name : string) : string := fqdn (mkDns "example.com" name TypeA None 300 RecordAbsent Cloudflare None).
Example zone_twice : name_of "App.Example.com" = "App.Example.com.example.com" ∧ name_of "." = ".example.com".
Proof. split; vm_compute; reflexivity. Qed.

(** A token that ends in a backslash takes the closing quote with it. *)
Example backslash_kept : curl_auth_config "t\" = line ("header = " +:+ Dns.QUOTE +:+ "t\" +:+ Dns.QUOTE).
Proof. vm_compute. reflexivity. Qed.

(** ** monitoring *)

From S2P Require Import Monitoring.

Definition check (fields : list (string * Json)) : Resource :=
  resource "monitoring.check" ([("name", JString "web")] ++ fields).
Definition http_check (target : string) : MonitoringCheckSpec := mkCheck "web" Http target None 5 CheckPresent 2 1.
Definition waited (n : Z) (c : CheckScript * list Z) : CheckScript * list Z := (c.1, c.2 ++ [n]).
Definition scripted : CheckBackend (CheckScript * list Z) := λ s c, let '(r, c') := MockCheck s c.1 in (r, (c', c.2)).

(** Two failures, two waits, and a pass. *)
Example passes_on_the_third :
  let script := queue_outcome Healthy (queue_outcome (Unhealthy []) (queue_outcome (Unhealthy []) (mkScript [] 0 (Unhealthy [])))) in
  let '(r, (c, waits)) := apply_check scripted waited (http_check "http://web/") (step_new 1 "monitoring.verify" "" JNull) (script, []) in
  cs_calls c = 3%Z ∧ waits = [1; 1]%Z ∧ is_ok r = true.
Proof. vm_compute. by split_and!. Qed.

(** The IPv4 metadata address, written as an IPv6 address, is not refused. *)
Example mapped_address_allowed :
  option_map is_metadata_addr (parse_ip "169.254.169.254") = Some true ∧ option_map is_metadata_addr (parse_ip "::ffff:169.254.169.254") = Some false.
Proof. split; vm_compute; reflexivity. Qed.

(** A network whose resolver answers with two addresses, and where everything
    accepts; it keeps the addresses connected to. *)
Definition rebinding : Sockets (list SocketAddr) := {|
  to_socket_addrs _ m := (Ok [(V4 [10; 0; 0; 1], 80); (V4 [169; 254; 169; 254], 80)]%Z, m);
  connect_timeout a _ m := (Ok 0, m ++ [a]);
  set_read_timeout _ _ m := (Ok (), m);
  set_write_timeout _ _ m := (Ok (), m);
  write_all_to _ _ m := (Ok (), m);
  read_to_end _ _ m := (Ok "HTTP/1.0 200 OK", m)
|}.

Lemma metadata_never_probed_witness :
  @StdNetBackend _ rebinding (http_check "http://web/") [] =
    (Ok (Unhealthy [Txt "refusing to probe cloud-metadata endpoint via "; Txt "web:80"; Txt " (SSRF guard)"]), []).
Proof.
  refine (proj2 (metadata_never_probed rebinding (λ _ _ m, (Ok 0, m)) (http_check "http://web/") [])
    "web:80" [(V4 [10; 0; 0; 1], 80); (V4 [169; 254; 169; 254], 80)]%Z [] (V4 [169; 254; 169; 254], 80)%Z _ eq_refl _ _).
  - vm_compute. reflexivity.
  - right. left.
  - left. vm_compute. reflexivity.
Defined.

(** A target is accepted whose port, or whose host, the probe then refuses. *)
Example port_not_checked :
  validate_check (http_check "http://web:http/") = Ok () ∧ is_ok (parse_http_url "http://web:http/") = false ∧
  validate_check (http_check "http://:80/") = Ok () ∧ is_ok (parse_http_url "http://:80/") = false.
Proof. split_and!; vm_compute; reflexivity. Qed.

(** ** compose *)

From S2P Require Import Compose.

Definition stack : DockerComposeSpec := mkCompose "web" ComposePresent (Some "services: {}") None None.
Definition stopped_service : ComposeService := mkService "app" "exited" "Exited (1)" "nginx".

(** Services that have stopped, or that are missing while another is there, are
    no difference. *)
Example stopped_unnoticed : diff_compose stack (compose_observation [stopped_service] (Some (source_sha256 stack)) "now") = no_change.
Proof. vm_compute. reflexivity. Qed.

(** Nor is the environment file. *)
Example env_file_unnoticed (env : option string) o :
  diff_compose (mkCompose "web" ComposePresent (Some "services: {}") env None) o = diff_compose stack o.
Proof. reflexivity. Qed.

(** ** acme *)

From S2P Require Import Acme.

Definition cert_spec (domains : list string) (url : option string) : AcmeCertSpec :=
  mkAcme domains "ops@example.com" "/etc/iac/certs" AcmePresent 30 false Http01 (Some "/var/www") None url.

(** Plain HTTP to a host that is not this one is accepted; to ::1 it is not. *)
Example loopback_by_text :
  validate_acme (cert_spec ["example.com"] (Some "http://127.0.0.1.example.net/directory")) = Ok () ∧
  validate_acme (cert_spec ["example.com"] (Some "http://localhost:x@example.net/directory")) = Ok () ∧
  is_ok (validate_acme (cert_spec ["example.com"] (Some "http://[::1]:14000/dir"))) = false.
Proof. split_and!; vm_compute; reflexivity. Qed.

(** A domain is a file name: it may lead out of the directory. *)
Example domain_leaves_directory :
  validate_acme (cert_spec ["a/../../../ssh/host"] None) = Ok () ∧ key_file (cert_spec ["a/../../../ssh/host"] None) = "/etc/iac/certs/a/../../../ssh/host.key" ∧
  validate_acme (cert_spec ["/etc/ssl/own"] None) = Ok () ∧ key_file (cert_spec ["/etc/ssl/own"] None) = "/etc/ssl/own.key".
Proof. split_and!; vm_compute; reflexivity. Qed.

(** A certificate without its key is no difference. *)
Example key_missing_unnoticed :
  let s := cert_spec ["example.com"] None in
  obs_present (cert_observation s true false (Some 8640000%Z) 0 "now") = false ∧ diff_cert s (cert_observation s true false (Some 8640000%Z) 0 "now") = no_change.
Proof. split; vm_compute; reflexivity. Qed.

(** An expiry that cannot be read is planned as a renewal, not an issue. *)
Example unreadable_is_renewed :
  let s := cert_spec ["example.com"] None in
  acme_action_for (diff_kind (diff_cert s (cert_observation s true true None 0 "now"))) = Some AcmeRenew.
Proof. vm_compute. reflexivity. Qed.
