(* ===== verification/AgentConfig.v ===== *)
(** * The agent's configuration (crates/iac-agent/src/config.rs)

    The settings from the file, the command line and the defaults, and the
    checks on the dynamic providers. The environment, the file system and the
    TOML parser are parameters. *)

From S2P Require Import Prelude Text AuditLog PluginSpec.

#[local] Open Scope string_scope.
#[local] Open Scope list_scope.
#[local] Open Scope nat_scope.

Record AgentTlsConfig := mkAgentTls {
  at_ca_file : option string;
  at_client_cert_file : option string;
  at_client_key_file : option string
}.
Definition has_client_cert (t : AgentTlsConfig) : bool :=
  bool_decide (is_Some (at_client_cert_file t)) && bool_decide (is_Some (at_client_key_file t)).

Record Config := mkConfig {
  ac_state_dir : string;
  ac_manifests_dir : string;
  ac_status_file : string;
  ac_db_path : string;
  ac_observe_interval : Z;
  ac_environment : string;
  ac_actor : string;
  ac_server_url : option string;
  ac_identity_file : string;
  ac_agent_name : string;
  ac_capabilities_file : string;
  ac_tls : AgentTlsConfig;
  ac_shellout_providers : list ShellOutSpec;
  ac_external_providers : list ExternalProviderSpec;
  ac_wasm_providers : list WasmProviderSpec
}.

Record RawConfig := mkRaw {
  rc_state_dir : option string;
  rc_manifests_dir : option string;
  rc_status_file : option string;
  rc_db_path : option string;
  rc_identity_file : option string;
  rc_capabilities_file : option string;
  rc_observe_interval_secs : option Z;
  rc_environment : option string;
  rc_actor : option string;
  rc_server_url : option string;
  rc_agent_name : option string;
  rc_tls : AgentTlsConfig;
  rc_shellout_providers : list ShellOutSpec;
  rc_external_providers : list ExternalProviderSpec;
  rc_wasm_providers : list WasmProviderSpec
}.

Definition raw_default : RawConfig :=
  mkRaw None None None None None None None None None None None (mkAgentTls None None None) [] [] [].

Record ConfigOverrides := mkOverrides {
  co_state_dir : option string;
  co_manifests_dir : option string;
  co_observe_interval_secs : option Z;
  co_environment : option string;
  co_actor : option string;
  co_server_url : option string;
  co_agent_name : option string;
  co_capabilities_file : option string
}.
Definition overrides_default : ConfigOverrides := mkOverrides None None None None None None None None.

(** What loading draws from outside; [toml_parse] is the reading of the
    file's text into [RawConfig]. *)
Class AgentHost := {
  file_exists : string → bool;
  file_text : string → result string string;
  env_var : string → option string;
  toml_parse : string → result string RawConfig
}.

(** [p.join(name)] for a relative name. *)
Definition path_join (p name : string) : string :=
  if decide (p = "") then name
  else if is_ok (ok_or (strip_suffix "/" p) ()) then p +:+ name else p +:+ "/" +:+ name.

(** [a.or(b)]. *)
Definition first_of {A} (a b : option A) : option A := match a with Some _ => a | None => b end.

(** The first kind that occurs again, in the order of the loop over the kinds. *)
Fixpoint duplicate_kind (seen : list string) (kinds : list string) : option string :=
  match kinds with
  | [] => None
  | k :: kinds => if decide (k ∈ seen) then Some k else duplicate_kind (k :: seen) kinds
  end.

Section Load.
Context `{AgentHost}.

Definition is_root : bool := bool_decide (env_var "USER" = Some "root").

Definition default_state_dir : string :=
  if is_root then "/var/lib/iac-agent"
  else match env_var "HOME" with
       | Some home => path_join (path_join home ".iac-agent") "state"
       | None => "/tmp/iac-agent"
       end.

Definition default_manifests_dir : string :=
  if is_root then "/etc/iac-agent/manifests.d"
  else match env_var "HOME" with
       | Some home => path_join (path_join home ".iac-agent") "manifests.d"
       | None => "/etc/iac-agent/manifests.d"
       end.

Definition default_hostname : string :=
  let name := first_of (env_var "HOSTNAME") (match file_text "/etc/hostname" with Ok s => Some s | Err _ => None end) in
  match name with
  | Some s => if decide (trim s = "") then "iac-agent" else trim s
  | None => "iac-agent"
  end.

Definition read_raw (path : option string) : result Anyhow RawConfig :=
  match path with
  | Some p =>
      if file_exists p then
        text ← map_err (λ e, [[Txt "reading config "; Txt p]; [Ext e]]) (file_text p);
        map_err (λ e, [[Txt "parsing config "; Txt p]; [Ext e]]) (toml_parse text)
      else Ok raw_default
  | None => Ok raw_default
  end.

(** [p.validate().map_err(..)?] for every entry of a section. *)
Definition validate_all {A} (section : string) (kind : A → string) (validate : A → result message ()) (ps : list A)
    : result Anyhow () :=
  _ ← try_map (λ p, map_err (λ e, [[Txt section; Txt "["; Txt (kind p); Txt "]: "] ++ e]) (validate p)) ps; Ok ().

Definition load (path : option string) (o : ConfigOverrides) : result Anyhow Config :=
  raw ← read_raw path;
  let state_dir := default default_state_dir (first_of (co_state_dir o) (rc_state_dir raw)) in
  _ ← validate_all "shellout_providers" so_kind validate_shellout (rc_shellout_providers raw);
  _ ← validate_all "external_providers" xp_kind validate_external (rc_external_providers raw);
  _ ← validate_all "wasm_providers" ws_kind validate_wasm (rc_wasm_providers raw);
  match duplicate_kind [] (map so_kind (rc_shellout_providers raw) ++ map xp_kind (rc_external_providers raw)
                           ++ map ws_kind (rc_wasm_providers raw)) with
  | Some k =>
      Err [[Txt "duplicate provider kind "; Dbg k;
            Txt " declared more than once across shellout_providers / external_providers / wasm_providers"]]
  | None =>
      Ok (mkConfig state_dir
        (default default_manifests_dir (first_of (co_manifests_dir o) (rc_manifests_dir raw)))
        (default (path_join state_dir "status.json") (rc_status_file raw))
        (default (path_join state_dir "agent.db") (rc_db_path raw))
        (default 60%Z (first_of (co_observe_interval_secs o) (rc_observe_interval_secs raw)))
        (default "default" (first_of (co_environment o) (rc_environment raw)))
        (default "iac-agent" (first_of (co_actor o) (rc_actor raw)))
        (first_of (co_server_url o) (rc_server_url raw))
        (default (path_join state_dir "identity.json") (rc_identity_file raw))
        (default default_hostname (first_of (co_agent_name o) (rc_agent_name raw)))
        (default (path_join state_dir "capabilities.yaml") (first_of (co_capabilities_file o) (rc_capabilities_file raw)))
        (rc_tls raw) (rc_shellout_providers raw) (rc_external_providers raw) (rc_wasm_providers raw))
  end.

End Load.

(** ** Properties *)

Lemma duplicate_kind_None seen kinds :
  duplicate_kind seen kinds = None ↔ NoDup kinds ∧ ∀ k, k ∈ kinds → k ∉ seen.
Proof.
  revert seen. induction kinds as [|k kinds IH]; intros seen; cbn.
  - split; [intros _|done]. split; [constructor|]. by intros k Hk%elem_of_nil.
  - case_decide as Hk.
    + split; [done|]. intros [_ Hn]. by destruct (Hn k); [left|].
    + rewrite IH, NoDup_cons. setoid_rewrite elem_of_cons. naive_solver.
Qed.

Section Props.
Context `{AgentHost}.

(** A configuration that loads names every dynamic kind once, and each entry
    passed its validation. *)
Lemma load_sound path o c :
  load path o = Ok c →
  NoDup (map so_kind (ac_shellout_providers c) ++ map xp_kind (ac_external_providers c) ++ map ws_kind (ac_wasm_providers c)) ∧
  Forall (λ p, validate_shellout p = Ok ()) (ac_shellout_providers c) ∧
  Forall (λ p, validate_external p = Ok ()) (ac_external_providers c) ∧
  Forall (λ p, validate_wasm p = Ok ()) (ac_wasm_providers c).
Proof.
  unfold load. intros Hl. inv_result. destruct (duplicate_kind [] _) eqn:Hd; [done|]. injection Hl as <-. cbn.
  apply duplicate_kind_None in Hd as [Hd _]. split; [done|].
  assert (∀ A s (k : A → string) v ps u, validate_all s k v ps = Ok u → Forall (λ p, v p = Ok ()) ps) as Hall.
  { clear. unfold validate_all. intros A s k v ps u Hv. inv_result. apply try_map_Forall2 in E.
    induction E as [|p [] ps us Hp _ IH]; constructor; [|done]. by destruct (v p) as [[]|]. }
  split_and!; eapply Hall; eassumption.
Qed.

End Props.
