(* ===== verification/Drift.v ===== *)
(** * Drift events (store.rs, api/drift.rs)

    Recording of the drift agents report, its triage (accept, ignore, in
    bulk or one by one), the automatic close, and the query of open events. *)

From stdpp Require Import pretty.
From S2P Require Import Prelude Text Json ApiError Routing Db AuditLog Canary Operations Ids Clock Diff.

#[local] Open Scope string_scope.
#[local] Open Scope list_scope.
#[local] Open Scope nat_scope.
#[local] Open Scope tx_scope.

Record DriftItem := mkDriftItem {
  di_id : ResourceId;
  di_severity : string;
  di_diff : Diff;
  di_detected_at : string
}.

(** The columns an item's identity fills. *)
Definition di_resource_id (i : DriftItem) : string := rid_display (di_id i).
Definition di_kind (i : DriftItem) : string := rid_kind (di_id i).
Definition di_environment (i : DriftItem) : string := rid_environment (di_id i).

Record DriftSummary := mkSummary {
  sm_id : Z;
  sm_agent_id : string;
  sm_resource_id : string;
  sm_kind : string;
  sm_severity : string;
  sm_detected_at : string;
  sm_diff : Diff;
  sm_ignored_until : option string;
  sm_resolved_at : option string;
  sm_resolution : option string
}.

Record DriftBulkFilter := mkBulkFilter {
  bf_agent_id : option string;
  bf_kind : option string;
  bf_severity : option string
}.

Definition bulk_filter_is_empty (f : DriftBulkFilter) : bool :=
  bool_decide (bf_agent_id f = None) && bool_decide (bf_kind f = None) && bool_decide (bf_severity f = None).

(** *** Column updates *)

Definition refresh_drift (kind severity diff_json detected now : string) (r : DbDrift) : DbDrift :=
  mkDrift (dr_id r) (dr_agent_id r) (dr_resource_id r) kind severity diff_json detected now
    (dr_resolved_at r) (dr_resolution r) (dr_ignored_until r).
Definition resolve_drift (now resolution : string) (r : DbDrift) : DbDrift :=
  mkDrift (dr_id r) (dr_agent_id r) (dr_resource_id r) (dr_kind r) (dr_severity r) (dr_diff_json r)
    (dr_detected_at r) (dr_received_at r) (Some now) (Some resolution) None.
Definition close_drift (now : string) (r : DbDrift) : DbDrift :=
  mkDrift (dr_id r) (dr_agent_id r) (dr_resource_id r) (dr_kind r) (dr_severity r) (dr_diff_json r)
    (dr_detected_at r) (dr_received_at r) (Some now) (Some "agent stopped reporting") (dr_ignored_until r).
Definition silence_drift (until : string) (r : DbDrift) : DbDrift :=
  mkDrift (dr_id r) (dr_agent_id r) (dr_resource_id r) (dr_kind r) (dr_severity r) (dr_diff_json r)
    (dr_detected_at r) (dr_received_at r) (dr_resolved_at r) (dr_resolution r) (Some until).

Definition is_open (r : DbDrift) : bool := bool_decide (dr_resolved_at r = None).

(** UNIQUE (agent_id, resource_id, detected_at). *)
Definition drift_key (r : DbDrift) : string * string * string :=
  (dr_agent_id r, dr_resource_id r, dr_detected_at r).

Definition open_of (agent rid : string) (r : DbDrift) : bool :=
  seqb (dr_agent_id r) agent && seqb (dr_resource_id r) rid && is_open r.

Definition bulk_matches (f : DriftBulkFilter) (r : DbDrift) : bool :=
  is_open r
  && match bf_agent_id f with Some a => seqb (dr_agent_id r) a | None => true end
  && match bf_kind f with Some k => seqb (dr_kind r) k | None => true end
  && match bf_severity f with Some s => seqb (dr_severity r) s | None => true end.

Definition update_drift (p : DbDrift → bool) (f : DbDrift → DbDrift) (d : Db) : Db :=
  set_drift (update_where p f (drift_events d)) (next_drift d) d.

Definition json_filter (f : DriftBulkFilter) : Json :=
  json_object [("agent_id", json_opt (bf_agent_id f)); ("kind", json_opt (bf_kind f));
               ("severity", json_opt (bf_severity f))].

Section Definitions.
Context `{JsonCodec, Sha256, SqlErrors, DiffCodec, Jiff}.

Definition row_to_drift_summary (r : DbDrift) : ApiResult DriftSummary :=
  diff ← map_err JsonErr (diff_from_str (dr_diff_json r));
  Ok (mkSummary (dr_id r) (dr_agent_id r) (dr_resource_id r) (dr_kind r) (dr_severity r)
        (dr_detected_at r) diff (dr_ignored_until r) (dr_resolved_at r) (dr_resolution r)).

(** *** Recording *)

Definition store_drift_row (agent : string) (item : DriftItem) (now : string) : tx () := λ d,
  let diff_json := diff_to_string (di_diff item) in
  let p := open_of agent (di_resource_id item) in
  if decide (count_if p (drift_events d) = 0) then
    let row := mkDrift (next_drift d) agent (di_resource_id item) (di_kind item) (di_severity item)
                 diff_json (di_detected_at item) now None None None in
    if decide (drift_key row ∈ map drift_key (drift_events d)) then Some (Err (Sqlx unique_violation))
    else Some (Ok ((), set_drift (drift_events d ++ [row]) (next_drift d + 1)%Z d))
  else
    let rows := update_where p (refresh_drift (di_kind item) (di_severity item) diff_json
                                  (di_detected_at item) now) (drift_events d) in
    if decide (NoDup (map drift_key rows)) then Some (Ok ((), set_drift rows (next_drift d) d))
    else Some (Err (Sqlx unique_violation)).

Definition record_drift (agent_id : string) (items : list DriftItem) (now : string) : tx nat :=
  match items with
  | [] => tx_ret 0
  | _ => tx_for (λ count item, store_drift_row agent_id item now ;; tx_ret (S count)) 0 items
  end.

Definition close_drift_not_in (agent_id : string) (current : list string) (now : string) : tx nat :=
  let! d := tx_get in
  let p := λ r, seqb (dr_agent_id r) agent_id && is_open r
                && negb (bool_decide (dr_resource_id r ∈ current)) in
  tx_modify (update_drift p (close_drift now)) ;;
  tx_ret (count_if p (drift_events d)).

(** The agent's push: the report is its complete current state, so open
    events outside it are closed. Both calls are transactions of their own;
    the second has no failing branch. *)
Definition push_drift (agent_id env : string) (items : list DriftItem) (now now' : string) : tx nat :=
  match List.find (λ i, negb (seqb (di_environment i) env)) items with
  | Some i => tx_throw (BadRequest [Txt "drift resource_id env "; Dbg (di_environment i);
                 Txt " does not match agent env "; Dbg env; Txt "; refusing cross-env drift report"])
  | None =>
      let! n := record_drift agent_id items now in
      let! _ := close_drift_not_in agent_id (map di_resource_id items) now' in
      tx_ret n
  end.

(** *** Triage *)

Definition accept_drift (drift_id : Z) (actor reason now audit_now : string) : tx () :=
  let! d := tx_get in
  let p := λ r, Z.eqb (dr_id r) drift_id && is_open r in
  if decide (count_if p (drift_events d) = 0) then tx_throw NotFound
  else
  tx_modify (update_drift p (resolve_drift now ("accepted: " +:+ reason))) ;;
  record_audit_on audit_now
    (with_payload (json_object [("reason", JString reason)])
    (with_drift drift_id (record_new actor "drift.accepted"))).

Definition accept_drift_bulk (f : DriftBulkFilter) (actor reason now audit_now : string) : tx nat :=
  let! d := tx_get in
  let affected := count_if (bulk_matches f) (drift_events d) in
  tx_modify (update_drift (bulk_matches f) (resolve_drift now ("accepted (bulk): " +:+ reason))) ;;
  (if decide (0 < affected) then
     record_audit_on audit_now
       (with_payload (json_object [("reason", JString reason); ("matched", json_nat affected);
                                   ("filter", json_filter f)])
       (record_new actor "drift.accepted_bulk"))
   else tx_ret ()) ;;
  tx_ret affected.

Definition parse_until (until : string) : ApiResult Z :=
  map_err (λ e, BadRequest [Txt "invalid `until`: "; Ext e]) (ts_parse until).

Definition ignore_drift_bulk (f : DriftBulkFilter) (actor until audit_now : string) : tx nat :=
  let! ts := tx_lift (parse_until until) in
  let! d := tx_get in
  let affected := count_if (bulk_matches f) (drift_events d) in
  tx_modify (update_drift (bulk_matches f) (silence_drift (ts_print ts))) ;;
  (if decide (0 < affected) then
     record_audit_on audit_now
       (with_payload (json_object [("until", JString until); ("matched", json_nat affected);
                                   ("filter", json_filter f)])
       (record_new actor "drift.ignored_bulk"))
   else tx_ret ()) ;;
  tx_ret affected.

Definition ignore_drift (drift_id : Z) (actor until audit_now : string) : tx () :=
  let! ts := tx_lift (parse_until until) in
  let! d := tx_get in
  let p := λ r, Z.eqb (dr_id r) drift_id && is_open r in
  if decide (count_if p (drift_events d) = 0) then tx_throw NotFound
  else
  tx_modify (update_drift p (silence_drift (ts_print ts))) ;;
  record_audit_on audit_now
    (with_payload (json_object [("until", JString (ts_print ts))])
    (with_drift drift_id (record_new actor "drift.ignored"))).

(** *** Queries *)

Definition visible_at (now : string) (r : DbDrift) : bool :=
  is_open r && match dr_ignored_until r with Some u => str_le u now | None => true end.

Definition list_open_drift (agent_id : option string) (now : string) (d : Db)
    : ApiResult (list DriftSummary) :=
  try_map row_to_drift_summary
    (order_by (λ a b, str_le (dr_detected_at b) (dr_detected_at a))
       (select_where (λ r, visible_at now r
          && match agent_id with Some a => seqb (dr_agent_id r) a | None => true end) (drift_events d))).

Definition find_latest_resource_for_revert (resource_id : string) (d : Db) : option (string * string) :=
  (λ r, (ds_environment r, ds_spec_json r)) <$>
    head (order_by (λ a b, Z.leb (ds_id b) (ds_id a))
            (select_where (λ r, seqb (ds_resource_id r) resource_id) (desired_states d))).

Definition get_drift (drift_id : Z) (d : Db) : ApiResult DriftSummary :=
  r ← ok_or (List.find (λ r, Z.eqb (dr_id r) drift_id) (drift_events d)) NotFound;
  row_to_drift_summary r.

(** *** Handlers (after the role check) *)

Definition handle_accept_drift (drift_id : Z) (actor reason now audit_now : string) : tx () :=
  if is_blank reason then tx_throw (BadRequest [Txt "reason must not be empty"])
  else accept_drift drift_id actor reason now audit_now.

Definition handle_accept_bulk (f : DriftBulkFilter) (actor reason now audit_now : string) : tx nat :=
  if is_blank reason then tx_throw (BadRequest [Txt "reason must not be empty"])
  else if bulk_filter_is_empty f then
    tx_throw (BadRequest [Txt "filter must specify at least one of agent_id, kind, or severity (refusing to wipe entire drift history)"])
  else accept_drift_bulk f actor reason now audit_now.

(** The last character of a trimmed text, with the text before it. *)
Definition split_last (cs : list N) : option (list N * N) :=
  match reverse cs with [] => None | c :: r => Some (reverse r, c) end.

Definition parse_ttl_to_until (now : Z) (s : string) : result message string :=
  let s := trim s in
  match ts_parse s with
  | Ok ts => Ok (ts_print ts)
  | Err _ =>
      match split_last (chars s) with
      | None => Err [Txt "empty ttl"]
      | Some (prefix, last) =>
          scale_secs ←
            (if decide (last = 115%N) then Ok 1%Z
             else if decide (last = 109%N) then Ok 60%Z
             else if decide (last = 104%N) then Ok 3600%Z
             else if decide (last = 100%N) then Ok 86400%Z
             else Err [Txt "unknown unit suffix "; Dbg (utf8 last); Txt "; expected s/m/h/d"]);
          n ← ok_or (parse_unsigned u64_max (of_chars prefix)) [Txt "non-numeric prefix in "; Dbg s];
          until ← map_err (λ e, [Ext e]) (ts_add_secs now (u64_as_i64 (u64_sat_mul n scale_secs)));
          Ok (ts_print until)
      end
  end.

Definition handle_ignore_bulk (f : DriftBulkFilter) (actor ttl : string) (clock : Z) (audit_now : string)
    : tx nat :=
  if bulk_filter_is_empty f then
    tx_throw (BadRequest [Txt "filter must specify at least one of agent_id, kind, or severity"])
  else
  let! until := tx_lift (map_err (λ e, BadRequest ([Txt "invalid ttl "; Dbg ttl; Txt ": "] ++ e))
                           (parse_ttl_to_until clock ttl)) in
  ignore_drift_bulk f actor until audit_now.

Definition handle_revert_drift (drift_id : Z) (actor : string) (source_commit : option string) (f : Fresh)
    : tx (string * string) :=
  let! d := tx_get in
  let! drift := tx_lift (get_drift drift_id d) in
  match sm_resolved_at drift with
  | Some t => tx_throw (BadRequest [Txt "drift "; Dec drift_id; Txt " already resolved at "; Dbg t])
  | None =>
      let! '(environment, resource_json) := tx_lift
        (ok_or (find_latest_resource_for_revert (sm_resource_id drift) d)
           (BadRequest [Txt "no desired-state row for resource "; Dbg (sm_resource_id drift);
                        Txt "; cannot revert without a known good spec"])) in
      let! raw := tx_lift (map_err (λ e, Internal [Txt "decoding stored resource_json: "; Ext e])
                             (json_from_str resource_json)) in
      let! routed := tx_lift (extract_routing raw environment) in
      let! outcome := create_operation environment actor actor source_commit
        (Some ("revert drift " +:+ pretty drift_id +:+ " for " +:+ sm_resource_id drift))
        [routed] [] false None f in
      tx_ret (out_operation_id outcome, sm_resource_id drift)
  end.

End Definitions.

(** ** Drift: invariant, history, and the effect of each operation

    The well-formedness of the drift table, that no operation loses or
    rewrites history, what a push and a triage do to the table, and the
    bound at which an ignore window wraps around. *)

From S2P Require Import AuditChain.

#[export] Instance DbDrift_eq_dec : EqDecision DbDrift.
Proof. solve_decision. Defined.

(** ** The invariant *)

Definition drift_subject (r : DbDrift) : string * string := (dr_agent_id r, dr_resource_id r).

(** Row ids come from the counter, the UNIQUE key holds, and an agent has at
    most one open event per resource. *)
Record DriftInv (rows : list DbDrift) (next : Z) : Prop := {
  di_ids_nodup : NoDup (map dr_id rows);
  di_ids_lt : Forall (λ r, (dr_id r < next)%Z) rows;
  di_keys_nodup : NoDup (map drift_key rows);
  di_open_unique : NoDup (map drift_subject (List.filter is_open rows))
}.

(** What may become of a row: its identity stays, and a resolved row stays as it is. *)
Definition evolves (r r' : DbDrift) : Prop :=
  dr_id r' = dr_id r ∧ drift_subject r' = drift_subject r ∧ (is_open r = false → r' = r).

(** The rows of one table are those of another, evolved, with new rows after them. *)
Definition history_kept (rows rows' : list DbDrift) : Prop :=
  ∃ heads tail, rows' = heads ++ tail ∧ Forall2 evolves rows heads.

Lemma evolves_refl r : evolves r r.
Proof. by split_and!. Qed.

Lemma evolves_trans r1 r2 r3 : evolves r1 r2 → evolves r2 r3 → evolves r1 r3.
Proof.
  intros (H1 & H2 & H3) (H4 & H5 & H6). split_and!; [congruence..|].
  intros Ho. rewrite H6; rewrite H3 by done; done.
Qed.

#[export] Instance history_kept_preorder : PreOrder history_kept.
Proof.
  split.
  - intros rows. exists rows, []. rewrite app_nil_r. split; [done|].
    apply Forall2_same_length_lookup. split; [done|]. intros i x y Hx Hy. simplify_eq. apply evolves_refl.
  - intros r1 r2 r3 (h1 & t1 & -> & H1) (h2 & t2 & -> & H2).
    apply Forall2_app_inv_l in H2 as (h21 & h22 & H21 & H22 & ->).
    exists h21, (h22 ++ t2). split; [by rewrite app_assoc|].
    eapply Forall2_trans; [|exact H1|exact H21]. intros ???. apply evolves_trans.
Qed.

Lemma history_kept_update p f rows :
  (∀ r, p r = true → evolves r (f r)) → history_kept rows (update_where p f rows).
Proof.
  intros Hf. exists (update_where p f rows), []. rewrite app_nil_r. split; [done|].
  induction rows as [|r rows IH]; cbn; constructor; [|done].
  destruct (p r) eqn:E; [by apply Hf|apply evolves_refl].
Qed.

Lemma history_kept_snoc rows r : history_kept rows (rows ++ [r]).
Proof.
  exists rows, [r]. split; [done|].
  apply Forall2_same_length_lookup. split; [done|]. intros i x y Hx Hy. simplify_eq. apply evolves_refl.
Qed.

(** ** Updates keep the invariant *)

Lemma filter_update_open p f rows :
  (∀ r, is_open (f r) = true → is_open r = true) → (∀ r, drift_subject (f r) = drift_subject r) →
  sublist (map drift_subject (List.filter is_open (update_where p f rows)))
          (map drift_subject (List.filter is_open rows)).
Proof.
  intros Ho Hs. induction rows as [|r rows IH]; cbn; [constructor|].
  destruct (p r).
  - destruct (is_open (f r)) eqn:E; cbn.
    + rewrite (Ho _ E). cbn. rewrite Hs. by constructor.
    + destruct (is_open r); [by constructor|done].
  - destruct (is_open r); cbn; [by constructor|done].
Qed.

Lemma update_ids_lt (p : DbDrift → bool) f rows next :
  (∀ r, dr_id (f r) = dr_id r) →
  Forall (λ r, (dr_id r < next)%Z) rows → Forall (λ r, (dr_id r < next)%Z) (update_where p f rows).
Proof.
  intros Hid. rewrite !Forall_forall. intros H r (r0 & Hr & ->)%elem_of_update_where.
  destruct (p r0); rewrite ?Hid; auto.
Qed.

Lemma inv_update p f rows next :
  (∀ r, dr_id (f r) = dr_id r) → (∀ r, drift_key (f r) = drift_key r) →
  (∀ r, is_open (f r) = true → is_open r = true) →
  DriftInv rows next → DriftInv (update_where p f rows) next.
Proof.
  intros Hid Hk Ho [H1 H2 H3 H4].
  assert (∀ r, drift_subject (f r) = drift_subject r) as Hs.
  { intros r. specialize (Hk r). unfold drift_key in Hk. unfold drift_subject. congruence. }
  split.
  - by rewrite update_where_column.
  - by apply update_ids_lt.
  - by rewrite update_where_column.
  - eapply sublist_NoDup; [exact H4|]. by apply filter_update_open.
Qed.

(** The open rows selected by a triage. *)
Lemma bulk_matches_open f r : bulk_matches f r = true → is_open r = true.
Proof. unfold bulk_matches. intros H. by destruct (is_open r). Qed.

(** ** Recording one item *)

(** A resolved event with the item's UNIQUE key. *)
Definition clashes (agent : string) (item : DriftItem) (rows : list DbDrift) : bool :=
  existsb (λ r, negb (is_open r)
             && bool_decide (drift_key r = (agent, di_resource_id item, di_detected_at item))) rows.

(** [r] is the open event that carries a report. *)
Definition reported (diff_json : string) (agent : string) (item : DriftItem) (r : DbDrift) : Prop :=
  drift_subject r = (agent, di_resource_id item) ∧ is_open r = true ∧ dr_kind r = di_kind item ∧
  dr_severity r = di_severity item ∧ dr_detected_at r = di_detected_at item ∧ dr_diff_json r = diff_json.

(** What recording reports about [subjects] leaves alone. *)
Record untouched (subjects : list (string * string)) (rows rows' : list DbDrift) : Prop := {
  ut_others : ∀ r, drift_subject r ∉ subjects → (r ∈ rows' ↔ r ∈ rows);
  ut_resolved : ∀ r, is_open r = false → (r ∈ rows' ↔ r ∈ rows)
}.

Lemma open_of_true agent rid r :
  open_of agent rid r = true ↔ drift_subject r = (agent, rid) ∧ is_open r = true.
Proof.
  unfold open_of, drift_subject. rewrite !andb_true_iff, !seqb_true. split; [by intros [[-> ->] ?]|].
  by intros [[= -> ->] ?].
Qed.

Lemma clashes_true agent item rows :
  clashes agent item rows = true ↔
  ∃ r, r ∈ rows ∧ is_open r = false ∧ drift_key r = (agent, di_resource_id item, di_detected_at item).
Proof.
  unfold clashes. rewrite existsb_exists. setoid_rewrite <- list_elem_of_In.
  setoid_rewrite andb_true_iff. setoid_rewrite negb_true_iff. by setoid_rewrite bool_decide_eq_true.
Qed.

Lemma clashes_resolved agent item rows rows' :
  (∀ r, is_open r = false → (r ∈ rows' ↔ r ∈ rows)) → clashes agent item rows' = clashes agent item rows.
Proof.
  intros H. apply eq_true_iff_eq. rewrite !clashes_true. split; intros (r & Hr & Ho & Hk); exists r;
    split_and!; try done; by apply H.
Qed.

Lemma open_subject_inj rows next r1 r2 :
  DriftInv rows next → r1 ∈ rows → r2 ∈ rows → is_open r1 = true → is_open r2 = true →
  drift_subject r1 = drift_subject r2 → r1 = r2.
Proof.
  intros Hi H1 H2 Ho1 Ho2. apply (NoDup_map_inj drift_subject (List.filter is_open rows));
    [by destruct Hi|by apply elem_of_List_filter..].
Qed.

(** Moving the only selected row to a fresh key keeps keys distinct. *)
Lemma NoDup_update_where {A K} (g : A → K) p f rows k :
  NoDup (map g rows) → (∀ r, p r = true → g (f r) = k) →
  (∀ r, r ∈ rows → p r = false → g r ≠ k) →
  (∀ r1 r2, r1 ∈ rows → r2 ∈ rows → p r1 = true → p r2 = true → r1 = r2) →
  NoDup (map g (update_where p f rows)).
Proof.
  intros Hnd Hg Hk Hu. induction rows as [|r rows IH]; cbn; [constructor|].
  inversion Hnd as [|? ? Hin Hnd']; subst. constructor.
  - intros (x & (r0 & Hr0 & ->)%elem_of_update_where & He)%elem_of_map.
    destruct (p r) eqn:E, (p r0) eqn:E0.
    + assert (r = r0) as -> by (apply Hu; [left|by right|done..]). apply Hin, elem_of_map. eauto.
    + apply (Hk r0); [by right|done|]. rewrite <- He. by apply Hg.
    + apply (Hk r); [left|done|]. rewrite He. by apply Hg.
    + apply Hin, elem_of_map. eauto.
  - apply IH; [done|intros; apply Hk; [by right|done]|intros; apply Hu; [by right|by right|done..]].
Qed.

Lemma insert_drift_inv rows next r :
  DriftInv rows next → dr_id r = next → drift_key r ∉ map drift_key rows → is_open r = true →
  (∀ x, x ∈ rows → is_open x = true → drift_subject x ≠ drift_subject r) →
  DriftInv (rows ++ [r]) (next + 1).
Proof.
  intros [H1 H2 H3 H4] Hid Hk Ho Hs. split.
  - rewrite map_app. apply NoDup_app. split_and!; [done| |repeat constructor; set_solver].
    intros i (x & Hx & ->)%elem_of_map Hn. rewrite Forall_forall in H2. specialize (H2 x Hx).
    cbn in Hn. apply list_elem_of_singleton in Hn. lia.
  - apply Forall_app. split; [|constructor; [lia|constructor]]. eapply Forall_impl; [exact H2|]. cbn. lia.
  - rewrite map_app. apply NoDup_app. split_and!; [done| |repeat constructor; set_solver].
    intros k Hk' ->%list_elem_of_singleton. done.
  - rewrite List.filter_app, map_app. cbn. rewrite Ho. apply NoDup_app. split_and!; [done| |repeat constructor; set_solver].
    intros s (x & [Hx Hox]%elem_of_List_filter & ->)%elem_of_map Hn%list_elem_of_singleton.
    by apply (Hs x).
Qed.

Section Record.
Context `{JsonCodec, Sha256, SqlErrors, DiffCodec, Jiff}.

Lemma store_drift_row_fails agent item now d :
  DriftInv (drift_events d) (next_drift d) → clashes agent item (drift_events d) = true →
  store_drift_row agent item now d = Some (Err (Sqlx unique_violation)).
Proof.
  intros Hi (r & Hr & Ho & Hk)%clashes_true. unfold store_drift_row. case_decide as Hc.
  - rewrite decide_True; [done|]. apply elem_of_map. exists r. split; [done|]. by rewrite Hk.
  - destruct (decide (NoDup _)) as [Hn|]; [exfalso|done].
    assert (0 < count_if (open_of agent (di_resource_id item)) (drift_events d)) as (r0 & Hr0 & Hp)%count_if_pos by lia.
    set (f := refresh_drift _ _ _ _ _) in Hn.
    assert (f r0 = r) as He.
    { eapply (NoDup_map_inj drift_key); [exact Hn| | |].
      - apply elem_of_update_where. exists r0. by rewrite Hp.
      - apply elem_of_update_where. exists r. split; [done|].
        destruct (open_of _ _ r) eqn:E; [|done]. apply open_of_true in E as [_ E]. congruence.
      - apply open_of_true in Hp as [[= Ha Hrid] _]. rewrite Hk. unfold f, drift_key. cbn. by rewrite Ha, Hrid. }
    apply open_of_true in Hp as [_ Hp]. rewrite <- He in Ho. change (is_open r0 = false) in Ho. congruence.
Qed.

(** What recording an accepted item does. *)
Record recorded (agent : string) (item : DriftItem) (rows rows' : list DbDrift) (next' : Z) : Prop := {
  rc_inv : DriftInv rows' next';
  rc_history : history_kept rows rows';
  rc_untouched : untouched [(agent, di_resource_id item)] rows rows';
  rc_reported : ∃ r, r ∈ rows' ∧ reported (diff_to_string (di_diff item)) agent item r
}.

Lemma recorded_insert agent item now rows next :
  let row := mkDrift next agent (di_resource_id item) (di_kind item) (di_severity item)
               (diff_to_string (di_diff item)) (di_detected_at item) now None None None in
  DriftInv rows next → drift_key row ∉ map drift_key rows →
  (∀ x, x ∈ rows → is_open x = true → drift_subject x ≠ drift_subject row) →
  recorded agent item rows (rows ++ [row]) (next + 1).
Proof.
  intros row Hi Hk Hfree. split.
  - by apply insert_drift_inv.
  - apply history_kept_snoc.
  - split; intros r Hr; rewrite elem_of_app, list_elem_of_singleton; split; try tauto;
      intros [|Hr0]; try done.
    + destruct Hr. subst r. left.
    + by subst r.
  - exists row. split; [set_solver|]. by split_and!.
Qed.

Lemma recorded_refresh agent item now rows next r0 :
  let p := open_of agent (di_resource_id item) in
  let f := refresh_drift (di_kind item) (di_severity item) (diff_to_string (di_diff item))
             (di_detected_at item) now in
  DriftInv rows next → NoDup (map drift_key (update_where p f rows)) → r0 ∈ rows → p r0 = true →
  recorded agent item rows (update_where p f rows) next.
Proof.
  intros p f [I1 I2 I3 I4] Hnd Hr0 Hp. split.
  - split; [by rewrite update_where_column|by apply update_ids_lt|done|].
    eapply sublist_NoDup; [exact I4|]. apply filter_update_open; [|done]. by intros r.
  - apply history_kept_update. intros r [_ Ho]%open_of_true. split_and!; [done..|congruence].
  - split; intros r Hr; rewrite elem_of_update_where;
      (split; [intros (x & Hx & ->)|intros Hin; exists r; split; [done|]]);
      case_match_goal; try done; apply open_of_true in Heqb as [Es Eo].
    + destruct Hr. change (drift_subject (f x)) with (drift_subject x). rewrite Es. left.
    + destruct Hr. rewrite Es. left.
    + change (is_open x = false) in Hr. congruence.
    + congruence.
  - exists (f r0). split; [apply elem_of_update_where; exists r0; by rewrite Hp|].
    apply open_of_true in Hp as [Hs Ho]. by split_and!.
Qed.

(** The refreshed open event is the only row with the item's key. *)
Lemma refresh_keys_nodup agent item now rows next :
  let p := open_of agent (di_resource_id item) in
  let f := refresh_drift (di_kind item) (di_severity item) (diff_to_string (di_diff item))
             (di_detected_at item) now in
  DriftInv rows next → clashes agent item rows = false → NoDup (map drift_key (update_where p f rows)).
Proof.
  intros p f Hi Hc. apply NoDup_update_where with (k := (agent, di_resource_id item, di_detected_at item)).
  - by destruct Hi.
  - intros r [[= Ha Hrid] _]%open_of_true. unfold f, drift_key. cbn. by rewrite Ha, Hrid.
  - intros r Hr Hpr Hk. apply not_true_iff_false in Hpr. destruct (is_open r) eqn:Ho.
    + apply Hpr, open_of_true. split; [|done]. unfold drift_key in Hk. unfold drift_subject. congruence.
    + enough (clashes agent item rows = true) by congruence. apply clashes_true. eauto.
  - intros r1 r2 Hr1 Hr2 [Hs1 Ho1]%open_of_true [Hs2 Ho2]%open_of_true.
    eapply open_subject_inj; eauto. congruence.
Qed.

Lemma store_drift_row_ok agent item now d :
  DriftInv (drift_events d) (next_drift d) → clashes agent item (drift_events d) = false →
  ∃ rows next, store_drift_row agent item now d = Some (Ok ((), set_drift rows next d)) ∧
    recorded agent item (drift_events d) rows next.
Proof.
  intros Hi Hc. unfold store_drift_row. case_decide as Hn.
  - rewrite count_if_0 in Hn.
    assert (∀ x, x ∈ drift_events d → is_open x = true → drift_subject x ≠ (agent, di_resource_id item)) as Hfree.
    { intros x Hx Hox Hs. specialize (Hn x Hx). apply not_true_iff_false in Hn. apply Hn. by apply open_of_true. }
    assert ((agent, di_resource_id item, di_detected_at item) ∉ map drift_key (drift_events d)) as Hk.
    { intros (x & Hx & Hk)%elem_of_map. destruct (is_open x) eqn:Hox.
      - apply (Hfree x); [done..|]. unfold drift_key in Hk. unfold drift_subject. congruence.
      - enough (clashes agent item (drift_events d) = true) by congruence. apply clashes_true. eauto. }
    rewrite decide_False by done. eexists _, _. split; [done|]. by apply recorded_insert.
  - rewrite decide_True by (by eapply refresh_keys_nodup).
    assert (0 < count_if (open_of agent (di_resource_id item)) (drift_events d)) as (r0 & Hr0 & Hp)%count_if_pos by lia.
    eexists _, _. split; [done|]. eapply recorded_refresh; [done| |done..]. by eapply refresh_keys_nodup.
Qed.
End Record.

(** ** Recording a batch *)

(** The last item of a batch about a resource. *)
Fixpoint last_report (rid : string) (items : list DriftItem) : option DriftItem :=
  match items with
  | [] => None
  | i :: items =>
      match last_report rid items with
      | Some j => Some j
      | None => if decide (di_resource_id i = rid) then Some i else None
      end
  end.

Lemma last_report_None rid items : last_report rid items = None ↔ rid ∉ map di_resource_id items.
Proof.
  induction items as [|i items IH]; cbn; [set_solver|]. destruct (last_report rid items); [set_solver|].
  case_decide; set_solver.
Qed.

Lemma last_report_Some rid items i : last_report rid items = Some i → di_resource_id i = rid ∧ i ∈ items.
Proof.
  induction items as [|j items IH]; cbn; [done|]. destruct (last_report rid items) as [k|].
  - intros [= ->]. destruct IH as [-> Hin]; [done|]. split; [done|by right].
  - case_decide as Hd; [|done]. intros [= ->]. split; [done|left].
Qed.

Lemma untouched_trans xs ys rows1 rows2 rows3 :
  untouched xs rows1 rows2 → untouched ys rows2 rows3 → untouched (xs ++ ys) rows1 rows3.
Proof.
  intros [H1 H2] [H3 H4]. split.
  - intros r [Hx Hy]%not_elem_of_app. by rewrite H3, H1.
  - intros r Ho. by rewrite H4, H2.
Qed.

Section Batch.
Context `{JsonCodec, Sha256, SqlErrors, DiffCodec, Jiff}.

(** What recording an accepted batch does. *)
Record batch_recorded (agent : string) (items : list DriftItem) (rows rows' : list DbDrift)
    (next' : Z) : Prop := {
  br_inv : DriftInv rows' next';
  br_history : history_kept rows rows';
  br_untouched : untouched (map (λ i, (agent, di_resource_id i)) items) rows rows';
  br_reported : ∀ rid item, last_report rid items = Some item →
    ∃ r, r ∈ rows' ∧ reported (diff_to_string (di_diff item)) agent item r
}.

Definition record_loop (agent now : string) : nat → list DriftItem → tx nat :=
  tx_for (λ count item, store_drift_row agent item now ;; tx_ret (S count)).

Lemma set_drift_set_drift r1 n1 r2 n2 d : set_drift r2 n2 (set_drift r1 n1 d) = set_drift r2 n2 d.
Proof. done. Qed.

Lemma set_drift_id d : set_drift (drift_events d) (next_drift d) d = d.
Proof. by destruct d. Qed.

Lemma batch_recorded_cons agent item items rows1 rows2 rows3 next2 next3 :
  recorded agent item rows1 rows2 next2 → batch_recorded agent items rows2 rows3 next3 →
  batch_recorded agent (item :: items) rows1 rows3 next3.
Proof.
  intros [R1 R2 R3 R4] [B1 B2 B3 B4]. split; [done|by etrans|by eapply (untouched_trans [_])|].
  intros rid i. cbn. destruct (last_report rid items) as [j|] eqn:E; [intros [= <-]; eauto|].
  case_decide as Hd; [|done]. intros [= <-]. destruct R4 as (r & Hr & Hrep). exists r. split; [|done].
  apply B3; [|done]. destruct Hrep as [-> _]. rewrite last_report_None in E. rewrite <- Hd in E.
  intros (j & Hj & [= He])%elem_of_map. apply E, elem_of_map. exists j. by rewrite He.
Qed.

Lemma record_loop_ok agent items now : ∀ n d,
  DriftInv (drift_events d) (next_drift d) →
  (∀ i, i ∈ items → clashes agent i (drift_events d) = false) →
  ∃ rows next, record_loop agent now n items d = Some (Ok (n + length items, set_drift rows next d)) ∧
    batch_recorded agent items (drift_events d) rows next.
Proof.
  induction items as [|item items IH]; intros n d Hi Hc.
  - exists (drift_events d), (next_drift d). split.
    + unfold record_loop. cbn. unfold tx_ret. by rewrite Nat.add_0_r, set_drift_id.
    + split; [done|done|split; tauto|done].
  - destruct (store_drift_row_ok agent item now d Hi) as (rows2 & next2 & Hrun & Hrec); [apply Hc; left|].
    destruct (IH (S n) (set_drift rows2 next2 d)) as (rows3 & next3 & Hrun' & Hrec'); [by destruct Hrec| |].
    { intros i Hin. change (clashes agent i rows2 = false). rewrite (clashes_resolved agent i (drift_events d)); [apply Hc; by right|].
      apply Hrec. }
    exists rows3, next3. split; [|by eapply batch_recorded_cons].
    unfold record_loop in *. cbn [tx_for]. unfold tx_bind at 1 2. rewrite Hrun. unfold tx_ret at 1.
    rewrite Hrun'. cbn [length]. by rewrite set_drift_set_drift, Nat.add_succ_r.
Qed.

Lemma record_loop_fails agent items now : ∀ n d,
  DriftInv (drift_events d) (next_drift d) →
  existsb (λ i, clashes agent i (drift_events d)) items = true →
  record_loop agent now n items d = Some (Err (Sqlx unique_violation)).
Proof.
  induction items as [|item items IH]; intros n d Hi Hc; [done|]. cbn in Hc.
  unfold record_loop in *. cbn [tx_for]. unfold tx_bind at 1 2.
  destruct (clashes agent item (drift_events d)) eqn:E; [by rewrite store_drift_row_fails|].
  destruct (store_drift_row_ok agent item now d Hi E) as (rows2 & next2 & -> & Hrec).
  unfold tx_ret at 1. apply IH; [apply Hrec|]. apply existsb_exists in Hc as (i & Hin & Hc).
  apply existsb_exists. exists i. split; [done|]. change (clashes agent i rows2 = true).
  rewrite <- Hc. apply clashes_resolved, Hrec.
Qed.

(** ** Closing what the agent no longer reports *)

Definition stale (agent : string) (current : list string) (r : DbDrift) : bool :=
  seqb (dr_agent_id r) agent && is_open r && negb (bool_decide (dr_resource_id r ∈ current)).

Lemma close_drift_not_in_run agent current now d :
  close_drift_not_in agent current now d =
  Some (Ok (count_if (stale agent current) (drift_events d),
            update_drift (stale agent current) (close_drift now) d)).
Proof. done. Qed.

Lemma stale_true agent current r :
  stale agent current r = true ↔
  dr_agent_id r = agent ∧ is_open r = true ∧ dr_resource_id r ∉ current.
Proof.
  unfold stale. rewrite !andb_true_iff, seqb_true, negb_true_iff, bool_decide_eq_false. tauto.
Qed.

(** ** The push *)

(** What a push leaves behind: the agent's open events are the last reports
    of its batch, one per resource; every other row is kept, and events that
    close do so because the batch leaves their resource out. *)
Record pushed (agent : string) (items : list DriftItem) (d d' : Db) : Prop := {
  pu_inv : DriftInv (drift_events d') (next_drift d');
  pu_history : history_kept (drift_events d) (drift_events d');
  pu_open : ∀ rid, (∃ r, r ∈ drift_events d' ∧ drift_subject r = (agent, rid) ∧ is_open r = true)
              ↔ rid ∈ map di_resource_id items;
  pu_last : ∀ r item, r ∈ drift_events d' → dr_agent_id r = agent → is_open r = true →
    last_report (dr_resource_id r) items = Some item →
    reported (diff_to_string (di_diff item)) agent item r;
  pu_others : ∀ r, dr_agent_id r ≠ agent → (r ∈ drift_events d' ↔ r ∈ drift_events d)
}.

Lemma record_drift_loop agent items now d :
  record_drift agent items now d = record_loop agent now 0 items d.
Proof. by destruct items. Qed.

Lemma pushed_intro agent items now' d rows next :
  batch_recorded agent items (drift_events d) rows next →
  pushed agent items d
    (update_drift (stale agent (map di_resource_id items)) (close_drift now') (set_drift rows next d)).
Proof.
  intros [B1 B2 B3 B4]. set (cur := map di_resource_id items).
  split; cbn [update_drift set_drift drift_events next_drift].
  - apply inv_update; done.
  - etrans; [exact B2|]. apply history_kept_update. intros r (_ & Ho & _)%stale_true.
    split_and!; [done..|congruence].
  - intros rid. setoid_rewrite elem_of_update_where. split.
    + intros (r & (r0 & Hr0 & ->) & Hs & Ho). case_match; [done|].
      destruct (decide (rid ∈ cur)) as [|Hn]; [done|]. injection Hs as Ha Hrid.
      apply not_true_iff_false in H4. destruct H4. apply stale_true. by rewrite Hrid.
    + intros Hin. destruct (last_report rid items) as [i|] eqn:E; [|by apply last_report_None in E].
      destruct (B4 rid i E) as (r & Hr & Hrep). apply last_report_Some in E as [<- _].
      exists r. destruct Hrep as (Hs & Ho & _). split_and!; [|done|done].
      exists r. split; [done|]. destruct (stale agent cur r) eqn:Es; [|done].
      apply stale_true in Es as (_ & _ & Hn). injection Hs as Ha Hrid. by rewrite Hrid in Hn.
  - intros r item (r0 & Hr0 & ->)%elem_of_update_where. case_match; [done|]. intros Ha Ho E.
    destruct (B4 _ item E) as (r & Hr & Hrep). apply last_report_Some in E as [E _].
    enough (r0 = r) as -> by done. destruct Hrep as (Hs & Hor & _).
    eapply open_subject_inj; [exact B1|done..|]. rewrite Hs. unfold drift_subject. congruence.
  - intros r Ha. rewrite elem_of_update_where.
    assert (r ∈ rows ↔ r ∈ drift_events d) as Hut.
    { apply B3. intros (i & _ & [= He _])%elem_of_map. done. }
    rewrite <- Hut. split.
    + intros (r0 & Hr0 & ->). case_match_goal; [|done]. apply stale_true in Heqb as (He & _). by destruct Ha.
    + intros Hr. exists r. split; [done|]. destruct (stale agent cur r) eqn:Es; [|done].
      apply stale_true in Es as (He & _). done.
Qed.
End Batch.

Section Push.
Context `{JsonCodec, Sha256, SqlErrors, DiffCodec, Jiff}.

Lemma push_drift_run agent env items now now' d :
  DriftInv (drift_events d) (next_drift d) →
  match List.find (λ i, negb (seqb (di_environment i) env)) items with
  | Some _ => ∃ e, push_drift agent env items now now' d = Some (Err (BadRequest e))
  | None =>
      if existsb (λ i, clashes agent i (drift_events d)) items
      then push_drift agent env items now now' d = Some (Err (Sqlx unique_violation))
      else ∃ d', push_drift agent env items now now' d = Some (Ok (length items, d')) ∧
                 pushed agent items d d' ∧ d' = set_drift (drift_events d') (next_drift d') d
  end.
Proof.
  intros Hi. unfold push_drift. destruct (List.find _ items); [by eexists|].
  destruct (existsb _ items) eqn:E.
  - unfold tx_bind. by rewrite record_drift_loop, record_loop_fails.
  - destruct (record_loop_ok agent items now 0 d Hi) as (rows & next & Hrun & Hrec).
    { intros i Hin. apply not_true_iff_false. intros Hc. apply not_true_iff_false in E. apply E.
      apply existsb_exists. exists i. split; [by apply list_elem_of_In|done]. }
    unfold tx_bind. rewrite record_drift_loop, Hrun, close_drift_not_in_run.
    eexists. split; [done|]. split; [by apply pushed_intro|done].
Qed.

(** C25: An agent's drift push decides exactly as follows. An item from
    another environment fails the request; an item whose (agent, resource,
    detected_at) key belongs to an event already resolved fails the whole
    batch with the database's unique violation; otherwise the push succeeds,
    counts its items, and leaves the drift table mirroring the batch: the
    agent's open events are exactly the reported resources, each carrying the
    last report about it, other agents' rows are untouched, nothing is lost
    or rewritten, and no other table changes. *)
Theorem drift_push_mirror agent env items now now' d :
  DriftInv (drift_events d) (next_drift d) →
  match List.find (λ i, negb (seqb (di_environment i) env)) items with
  | Some _ => ∃ e, push_drift agent env items now now' d = Some (Err (BadRequest e))
  | None =>
      if existsb (λ i, clashes agent i (drift_events d)) items
      then push_drift agent env items now now' d = Some (Err (Sqlx unique_violation))
      else ∃ d', push_drift agent env items now now' d = Some (Ok (length items, d')) ∧
                 pushed agent items d d' ∧ d' = set_drift (drift_events d') (next_drift d') d
  end.
Proof. apply push_drift_run. Qed.

(** ** Sequences of operations *)

Inductive DriftOp :=
| OpPush (agent env : string) (items : list DriftItem) (now now' : string)
| OpAccept (id : Z) (actor reason now audit_now : string)
| OpAcceptBulk (f : DriftBulkFilter) (actor reason now audit_now : string)
| OpIgnore (id : Z) (actor until audit_now : string)
| OpIgnoreBulk (f : DriftBulkFilter) (actor ttl : string) (clock : Z) (audit_now : string).

Definition drift_step (op : DriftOp) (d : Db) : Db :=
  match op with
  | OpPush agent env items now now' => committed (push_drift agent env items now now') d
  | OpAccept id actor reason now anow => committed (handle_accept_drift id actor reason now anow) d
  | OpAcceptBulk f actor reason now anow => committed (handle_accept_bulk f actor reason now anow) d
  | OpIgnore id actor until anow => committed (ignore_drift id actor until anow) d
  | OpIgnoreBulk f actor ttl clock anow => committed (handle_ignore_bulk f actor ttl clock anow) d
  end.

Definition drift_run (ops : list DriftOp) (d : Db) : Db := foldl (λ d op, drift_step op d) d ops.

Definition drift_ok (d : Db) : Prop := DriftInv (drift_events d) (next_drift d).

Lemma drift_record_audit_frame now rec d a d' :
  record_audit_on now rec d = Some (Ok (a, d')) →
  drift_events d' = drift_events d ∧ next_drift d' = next_drift d.
Proof. unfold record_audit_on. by intros [= _ <-]. Qed.

(** A triage: an update of open rows, then at most one audit row. *)
Definition triaged (p : DbDrift → bool) (f : DbDrift → DbDrift) (d d' : Db) : Prop :=
  drift_events d' = update_where p f (drift_events d) ∧ next_drift d' = next_drift d.

Lemma triaged_ok p f d d' :
  (∀ r, dr_id (f r) = dr_id r) → (∀ r, drift_key (f r) = drift_key r) →
  (∀ r, is_open (f r) = true → is_open r = true) → (∀ r, p r = true → is_open r = true) →
  triaged p f d d' → drift_ok d → drift_ok d' ∧ history_kept (drift_events d) (drift_events d').
Proof.
  intros Hid Hk Ho Hp [He Hn] Hi. unfold drift_ok. rewrite He, Hn. split; [by apply inv_update|].
  apply history_kept_update. intros r Hr. split_and!; [done| |by rewrite Hp].
  specialize (Hk r). unfold drift_key in Hk. unfold drift_subject. congruence.
Qed.

Definition id_open (id : Z) (r : DbDrift) : bool := Z.eqb (dr_id r) id && is_open r.

(** A bulk sweep writes its audit row only when it touched something. *)
Lemma bulk_audit_frame (n : nat) now rec d a d' :
  (if decide (0 < n) then record_audit_on now rec else tx_ret ()) d = Some (Ok (a, d')) →
  drift_events d' = drift_events d ∧ next_drift d' = next_drift d.
Proof. case_decide; [apply drift_record_audit_frame|by intros [= _ <-]]. Qed.

Lemma accept_drift_triaged id actor reason now anow d u d' :
  accept_drift id actor reason now anow d = Some (Ok (u, d')) →
  triaged (id_open id) (resolve_drift now ("accepted: " +:+ reason)) d d'.
Proof.
  intros H4. tx_step H4. injection Ha as <- <-. cbv beta zeta in H4. case_decide; [done|]. tx_step H4. injection Ha as _ <-.
  by apply drift_record_audit_frame in H4.
Qed.

Lemma ignore_drift_triaged id actor until anow d u d' :
  ignore_drift id actor until anow d = Some (Ok (u, d')) →
  ∃ ts, ts_parse until = Ok ts ∧ triaged (id_open id) (silence_drift (ts_print ts)) d d'.
Proof.
  intros H4. tx_step H4. apply tx_lift_Ok in Ha as [Hp ->]. exists a.
  unfold parse_until in Hp. destruct (ts_parse until); [injection Hp as ->|done]. split; [done|].
  tx_step H4. injection Ha as <- <-. cbv beta zeta in H4. case_decide; [done|]. tx_step H4. injection Ha as _ <-.
  by apply drift_record_audit_frame in H4.
Qed.

Lemma accept_bulk_triaged f actor reason now anow d n d' :
  accept_drift_bulk f actor reason now anow d = Some (Ok (n, d')) →
  n = count_if (bulk_matches f) (drift_events d) ∧
  triaged (bulk_matches f) (resolve_drift now ("accepted (bulk): " +:+ reason)) d d'.
Proof.
  intros H4. tx_step H4. injection Ha as <- <-. tx_step H4. injection Ha as _ <-. tx_step H4.
  injection H4 as <- <-. split; [done|]. by apply bulk_audit_frame in Ha.
Qed.

Lemma ignore_bulk_triaged f actor until anow d n d' :
  ignore_drift_bulk f actor until anow d = Some (Ok (n, d')) →
  n = count_if (bulk_matches f) (drift_events d) ∧
  ∃ ts, ts_parse until = Ok ts ∧ triaged (bulk_matches f) (silence_drift (ts_print ts)) d d'.
Proof.
  intros H4. tx_step H4. apply tx_lift_Ok in Ha as [Hp ->].
  unfold parse_until in Hp. destruct (ts_parse until) as [ts|]; [injection Hp as <-|done].
  tx_step H4. injection Ha as <- <-. tx_step H4. injection Ha as _ <-. tx_step H4.
  injection H4 as <- <-. split; [done|]. exists ts. split; [done|]. by apply bulk_audit_frame in Ha.
Qed.
End Push.

Section Histories.
Context `{JsonCodec, Sha256, SqlErrors, DiffCodec, Jiff}.

Lemma committed_cases {A} (m : tx A) d :
  committed m d = d ∨ ∃ a, m d = Some (Ok (a, committed m d)).
Proof. unfold committed. destruct (m d) as [[[a d']|]|]; eauto. Qed.

Lemma drift_step_ok op d :
  drift_ok d → drift_ok (drift_step op d) ∧ history_kept (drift_events d) (drift_events (drift_step op d)).
Proof.
  intros Hi. destruct op as [agent env items now now'|id actor reason now anow|f actor reason now anow
    |id actor until anow|f actor ttl clock anow]; cbn [drift_step];
    match goal with |- context [committed ?m d] => destruct (committed_cases m d) as [->|[a Hrun]]; [done|];
      set (d2 := committed m d) in *; clearbody d2 end.
  - pose proof (push_drift_run agent env items now now' d Hi) as Hpush.
    destruct (List.find _ items); [destruct Hpush; congruence|].
    destruct (existsb _ items); [congruence|].
    destruct Hpush as (d' & Heq & Hp & _). rewrite Heq in Hrun. injection Hrun as _ <-.
    split; apply Hp.
  - unfold handle_accept_drift in Hrun. destruct (is_blank reason); [done|].
    apply accept_drift_triaged in Hrun. eapply triaged_ok; [..|exact Hrun|done]; try done.
    by intros r [_ ?]%andb_true_iff.
  - unfold handle_accept_bulk in Hrun. destruct (is_blank reason); [done|]. destruct (bulk_filter_is_empty f); [done|].
    apply accept_bulk_triaged in Hrun as [_ Hrun].
    eapply triaged_ok; [..|exact Hrun|done]; try done. apply bulk_matches_open.
  - apply ignore_drift_triaged in Hrun as (ts & _ & Hrun).
    eapply triaged_ok; [..|exact Hrun|done]; try done. by intros r [_ ?]%andb_true_iff.
  - unfold handle_ignore_bulk in Hrun. case_match; [done|]. tx_step Hrun. apply tx_lift_Ok in Ha as [_ ->].
    apply ignore_bulk_triaged in Hrun as (_ & ts & _ & Hrun).
    eapply triaged_ok; [..|exact Hrun|done]; try done. apply bulk_matches_open.
Qed.

Lemma drift_run_ok ops : ∀ d, drift_ok d →
  drift_ok (drift_run ops d) ∧ history_kept (drift_events d) (drift_events (drift_run ops d)).
Proof.
  induction ops as [|op ops IH]; intros d Hi; [done|]. cbn.
  destruct (drift_step_ok op d Hi) as [Hi' Hh]. destruct (IH _ Hi') as [Hi'' Hh'].
  split; [done|]. by etrans.
Qed.

(** Through any sequence of pushes and triage requests, starting from a
    well-formed drift table, the table stays well formed (ids below the
    counter and unique, the UNIQUE key, at most one open event per agent and
    resource), and history is append-only: every row keeps its id, agent and
    resource, and a resolved event is never changed or deleted. *)
Theorem drift_history ops d :
  drift_ok d →
  drift_ok (drift_run ops d) ∧ history_kept (drift_events d) (drift_events (drift_run ops d)).
Proof. apply drift_run_ok. Qed.

(** Accepting one event: with an empty reason the request is rejected;
    when no open event has the id, the answer is NotFound (also for an event
    already resolved); otherwise exactly that event becomes resolved with the
    reason, every other row and every other table but the audit log is
    untouched, and exactly one audit row naming the actor and the event is
    appended. *)
Theorem accept_drift_outcome id actor reason now anow d :
  drift_ok d →
  handle_accept_drift id actor reason now anow d =
    if is_blank reason then Some (Err (BadRequest [Txt "reason must not be empty"]))
    else match List.find (id_open id) (drift_events d) with
         | None => Some (Err NotFound)
         | Some r =>
             let d1 := set_drift (update_where (λ r', bool_decide (r' = r))
                          (λ _, resolve_drift now ("accepted: " +:+ reason) r) (drift_events d)) (next_drift d) d in
             record_audit_on anow
               (with_payload (json_object [("reason", JString reason)])
                  (with_drift id (record_new actor "drift.accepted"))) d1
         end.
Proof.
  intros Hi. unfold handle_accept_drift. destruct (is_blank reason); [done|].
  unfold accept_drift. unfold tx_bind at 1, tx_get.
  change (λ r, Z.eqb (dr_id r) id && is_open r) with (id_open id).
  destruct (List.find (id_open id) (drift_events d)) as [r|] eqn:E.
  - apply find_some in E as [Hin%list_elem_of_In Hp].
    rewrite decide_False by (intros Hz; rewrite count_if_0 in Hz; by rewrite (Hz r) in Hp).
    unfold tx_bind, tx_modify, update_drift. do 2 f_equal. apply map_ext_in.
    intros r' Hr'%list_elem_of_In. destruct (id_open id r') eqn:Hp'.
    + assert (r' = r) as ->; [|by rewrite bool_decide_true].
      apply (NoDup_map_inj dr_id (drift_events d)); [by destruct Hi|done..|].
      apply andb_true_iff in Hp as [Hp%Z.eqb_eq _], Hp' as [Hp'%Z.eqb_eq _]. congruence.
    + rewrite bool_decide_false; [done|]. intros ->. congruence.
  - rewrite decide_True; [done|]. apply count_if_0. intros r Hr%list_elem_of_In.
    by eapply find_none.
Qed.
End Histories.

(** ** Listing and ignoring *)

Section Listing.
Context `{JsonCodec, Sha256, SqlErrors, DiffCodec, Jiff}.

Lemma row_to_drift_summary_id r s : row_to_drift_summary r = Ok s → sm_id s = dr_id r.
Proof. unfold row_to_drift_summary. intros ?. by inv_result. Qed.

(** The ids a listing shows. *)
Lemma listed_ids agent now d out i :
  list_open_drift agent now d = Ok out →
  i ∈ map sm_id out ↔
  ∃ r, r ∈ drift_events d ∧ dr_id r = i ∧ visible_at now r = true ∧
       match agent with Some a => dr_agent_id r = a | None => True end.
Proof.
  unfold list_open_drift. intros Hl%try_map_Forall2.
  assert (map sm_id out = map dr_id (order_by (λ a b, str_le (dr_detected_at b) (dr_detected_at a))
            (select_where (λ r, visible_at now r
              && match agent with Some a => seqb (dr_agent_id r) a | None => true end) (drift_events d)))) as ->.
  { induction Hl as [|r s rs ss Hr _ IH]; cbn; [done|]. by rewrite IH, (row_to_drift_summary_id r s). }
  rewrite elem_of_map. split.
  - intros (r & Hr & ->). rewrite order_by_perm in Hr.
    apply elem_of_List_filter in Hr as [Hr [Hv Ha]%andb_true_iff]. exists r. refine (conj Hr (conj eq_refl (conj Hv _))).
    destruct agent; [by apply seqb_true|done].
  - intros (r & Hr & <- & Hv & Ha). exists r. split; [|done]. rewrite order_by_perm.
    apply elem_of_List_filter. rewrite Hv. split; [done|]. destruct agent; [by apply seqb_true|done].
Qed.

(** Ignoring an open event hides it from the listing of open drift at
    every moment before the given timestamp and shows it again from that
    moment on; what the listing shows of all other events does not change. *)
Theorem ignore_drift_hides id actor until anow d u d' now out out' :
  drift_ok d →
  ignore_drift id actor until anow d = Some (Ok (u, d')) →
  list_open_drift None now d = Ok out → list_open_drift None now d' = Ok out' →
  ∃ ts, ts_parse until = Ok ts ∧
    (id ∈ map sm_id out' ↔ str_le (ts_print ts) now = true) ∧
    ∀ i, i ≠ id → (i ∈ map sm_id out' ↔ i ∈ map sm_id out).
Proof.
  intros Hi Hrun Hl Hl'.
  assert (∃ r, r ∈ drift_events d ∧ id_open id r = true) as (r & Hr & Hp).
  { unfold ignore_drift in Hrun. tx_step Hrun. apply tx_lift_Ok in Ha as [_ ->]. tx_step Hrun.
    injection Ha as <- <-. cbv beta zeta in Hrun. case_decide as Hc; [done|].
    apply count_if_pos. unfold id_open. lia. }
  apply ignore_drift_triaged in Hrun as (ts & Hts & Hev & _). exists ts. split; [done|].
  setoid_rewrite (listed_ids _ _ _ _ _ Hl'). setoid_rewrite (listed_ids _ _ _ _ _ Hl). rewrite Hev.
  setoid_rewrite elem_of_update_where. split.
  - split.
    + intros (r' & (r0 & Hr0 & ->) & Hid & Hv & _).
      assert (id_open id r0 = true) as Hp0.
      { destruct (id_open id r0) eqn:E; [done|]. unfold id_open in E. rewrite Hid, Z.eqb_refl in E.
        unfold visible_at in Hv. cbn in E. by rewrite E in Hv. }
      rewrite Hp0 in Hv. by apply andb_true_iff in Hv as [_ Hv].
    + intros Hle. exists (silence_drift (ts_print ts) r). apply andb_true_iff in Hp as [Hid Ho].
      refine (conj _ (conj _ (conj _ I))); [|by apply Z.eqb_eq|by apply andb_true_iff].
      exists r. split; [done|]. unfold id_open. by rewrite Hid, Ho.
  - intros i Hne. split.
    + intros (r' & (r0 & Hr0 & ->) & Hid & Hv & _). exists r0.
      destruct (id_open id r0) eqn:E; [|done]. apply andb_true_iff in E as [E%Z.eqb_eq _].
      change (dr_id r0 = i) in Hid. congruence.
    + intros (r0 & Hr0 & Hid & Hv & _). exists r0. refine (conj _ (conj Hid (conj Hv I))). exists r0. split; [done|].
      destruct (id_open id r0) eqn:E; [|done]. apply andb_true_iff in E as [E%Z.eqb_eq _]. congruence.
Qed.

(** ** The window of a bulk ignore *)

Definition unit_scale (unit : N) : option Z :=
  if decide (unit = 115%N) then Some 1%Z
  else if decide (unit = 109%N) then Some 60%Z
  else if decide (unit = 104%N) then Some 3600%Z
  else if decide (unit = 100%N) then Some 86400%Z
  else None.

(** A relative ignore window [<n><unit>] silences until now plus n units
    as long as that is below 2^63 seconds; from there on the cast to i64 wraps
    and the code subtracts time instead, and once the multiplication saturates
    it silences until one second ago, that is, not at all. *)
Theorem ttl_window_wraps now s e prefix unit scale n :
  ts_parse (trim s) = Err e →
  split_last (chars (trim s)) = Some (prefix, unit) →
  unit_scale unit = Some scale →
  parse_unsigned u64_max (of_chars prefix) = Some n → (0 ≤ n ≤ u64_max)%Z →
  ∃ secs, parse_ttl_to_until now s = (ts_print <$> map_err (λ e, [Ext e]) (ts_add_secs now secs)) ∧
    ((n * scale < 2 ^ 63)%Z → secs = (n * scale)%Z) ∧
    ((2 ^ 63 ≤ n * scale)%Z → (secs < 0)%Z) ∧
    ((u64_max ≤ n * scale)%Z → secs = (-1)%Z).
Proof.
  intros Hts Hsp Hsc Hn Hr. exists (u64_as_i64 (u64_sat_mul n scale)).
  assert (0 < scale)%Z as Hpos.
  { unfold unit_scale in Hsc. repeat case_decide; simplify_eq; lia. }
  split; [|unfold u64_as_i64, u64_sat_mul, wrap_signed, u64_max in *; split_and!].
  - unfold parse_ttl_to_until. rewrite Hts, Hsp, Hn. unfold unit_scale in Hsc.
    repeat case_decide; try done; injection Hsc as <-; cbn [mbind result_bind ok_or];
      by destruct (ts_add_secs _ _).
  - intros Hlt. rewrite Z.min_r by lia. rewrite Z.mod_small; lia.
  - intros Hge.
    assert (Z.min (2 ^ 64 - 1) (n * scale) + 2 ^ (64 - 1) =
            (Z.min (2 ^ 64 - 1) (n * scale) - 2 ^ 63) + 1 * 2 ^ 64)%Z as -> by lia.
    rewrite Z.mod_add by lia. rewrite Z.mod_small; lia.
  - intros Hge. rewrite Z.min_l by lia. done.
Qed.
End Listing.

(** ** Concrete runs *)

#[local] Existing Instances demo_sha demo_json.
#[local] Instance demo_unique : SqlErrors := {| unique_violation := SqlxOther "unique" |}.

Definition demo_diff_codec : DiffCodec :=
  {| diff_from_str s := Ok (mkDiff Update [] [s] true); diff_to_string d := String.concat "," (diff_reasons d) |}.

#[local] Existing Instances demo_diff_codec demo_jiff.

Definition demo_item (name detected : string) : DriftItem :=
  mkDriftItem (mkRid "file" "prod" name) "warning" (mkDiff Update [] ["mode"] true) detected.

Lemma empty_drift_ok : drift_ok empty_db.
Proof. split; constructor. Qed.

Lemma drift_push_mirror_witness :
  ∃ d', push_drift "a1" "prod" [demo_item "x" "@1"; demo_item "x" "@2"] "@3" "@4" empty_db = Some (Ok (2, d')) ∧
    pushed "a1" [demo_item "x" "@1"; demo_item "x" "@2"] empty_db d' ∧
    d' = set_drift (drift_events d') (next_drift d') empty_db.
Proof.
  exact (drift_push_mirror "a1" "prod" [demo_item "x" "@1"; demo_item "x" "@2"] "@3" "@4" empty_db empty_drift_ok).
Defined.

Definition demo_ops : list DriftOp :=
  [OpPush "a1" "prod" [demo_item "x" "@1"; demo_item "y" "@1"] "@2" "@2";
   OpAccept 1 "alice" "known" "@3" "@3";
   OpIgnore 2 "alice" "@9" "@4"].

Lemma drift_history_witness :
  drift_ok (drift_run demo_ops empty_db) ∧
  history_kept (drift_events empty_db) (drift_events (drift_run demo_ops empty_db)).
Proof. apply (drift_history demo_ops empty_db). exact empty_drift_ok. Defined.

Definition demo_triaged : Db := drift_run demo_ops empty_db.

Example demo_triage_view :
  map (λ r, (dr_id r, dr_resource_id r, dr_resolution r, dr_ignored_until r)) (drift_events demo_triaged) =
  [(1%Z, "file/prod/x", Some "accepted: known", None); (2%Z, "file/prod/y", None, Some "@9")].
Proof. vm_compute. reflexivity. Qed.

(** After "x" is accepted, the agent's next report of an unchanged local event
    fails for the whole batch. *)
Example demo_push_after_accept :
  push_drift "a1" "prod" [demo_item "x" "@1"; demo_item "z" "@5"] "@6" "@6" demo_triaged =
  Some (Err (Sqlx unique_violation)).
Proof. vm_compute. reflexivity. Qed.

Lemma demo_triaged_ok : drift_ok demo_triaged.
Proof. apply (drift_run_ok demo_ops), empty_drift_ok. Qed.

Lemma accept_drift_outcome_witness :
  handle_accept_drift 1 "alice" "again" "@6" "@6" demo_triaged = Some (Err NotFound).
Proof. exact (accept_drift_outcome 1 "alice" "again" "@6" "@6" demo_triaged demo_triaged_ok). Defined.

Definition demo_listed (d : Db) (now : string) : list DriftSummary :=
  match list_open_drift None now d with Ok out => out | Err _ => [] end.

Lemma ignore_drift_hides_witness :
  ∃ ts, ts_parse "@8" = Ok ts ∧
    (2%Z ∈ map sm_id (demo_listed (committed (ignore_drift 2 "bob" "@8" "@5") demo_triaged) "@7") ↔
     str_le (ts_print ts) "@7" = true) ∧
    ∀ i, i ≠ 2%Z →
      (i ∈ map sm_id (demo_listed (committed (ignore_drift 2 "bob" "@8" "@5") demo_triaged) "@7") ↔
       i ∈ map sm_id (demo_listed demo_triaged "@7")).
Proof.
  apply (ignore_drift_hides 2 "bob" "@8" "@5" demo_triaged ()
           (committed (ignore_drift 2 "bob" "@8" "@5") demo_triaged) "@7").
  - exact demo_triaged_ok.
  - vm_compute. reflexivity.
  - vm_compute. reflexivity.
  - vm_compute. reflexivity.
Defined.

Lemma ttl_window_wraps_witness :
  ∃ secs, parse_ttl_to_until 1000 "18446744073709551615d" =
      (ts_print <$> map_err (λ e, [Ext e]) (ts_add_secs 1000 secs)) ∧
    ((u64_max * 86400 < 2 ^ 63)%Z → secs = (u64_max * 86400)%Z) ∧
    ((2 ^ 63 ≤ u64_max * 86400)%Z → (secs < 0)%Z) ∧
    ((u64_max ≤ u64_max * 86400)%Z → secs = (-1)%Z).
Proof.
  apply (ttl_window_wraps 1000 "18446744073709551615d" "not a timestamp"
           (chars "18446744073709551615") 100%N 86400 u64_max).
  - vm_compute. reflexivity.
  - vm_compute. reflexivity.
  - vm_compute. reflexivity.
  - vm_compute. reflexivity.
  - unfold u64_max. lia.
Defined.

Example ttl_overflow_silences_nothing :
  parse_ttl_to_until 1000 "18446744073709551615d" = Ok "@999".
Proof. vm_compute. reflexivity. Qed.
