(* ===== verification/Retention.v ===== *)
(** * Retention (crates/iac-controlplane/src/retention.rs)

    One pass of the pruning loop: rows older than the configured windows, the
    per-resource caps on observations and desired states with their batched
    DELETE, and the expired user tokens. *)

From S2P Require Import Prelude Text Json ApiError Routing Db Clock Users.

#[local] Open Scope string_scope.
#[local] Open Scope list_scope.
#[local] Open Scope nat_scope.

Record RetentionConfig := mkRetention {
  rc_audit_days : Z;
  rc_observation_days : Z;
  rc_observation_max_per_resource : Z;
  rc_drift_resolved_days : Z;
  rc_assignment_terminal_days : Z;
  rc_desired_state_max_per_resource : Z;
  rc_interval_secs : Z
}.

Definition default_retention : RetentionConfig := mkRetention 90 30 10 30 30 10 300.

Record PruneStats := mkPruneStats {
  ps_audit : nat;
  ps_observations : nat;
  ps_drift_resolved : nat;
  ps_assignments_terminal : nat;
  ps_user_tokens_expired : nat;
  ps_observations_per_resource : nat;
  ps_desired_states_per_resource : nat
}.

Definition stats_total (s : PruneStats) : nat :=
  ps_audit s + ps_observations s + ps_drift_resolved s + ps_assignments_terminal s +
  ps_user_tokens_expired s + ps_observations_per_resource s + ps_desired_states_per_resource s.

(** The clock readings of one pass. *)
Record PruneClocks := mkPruneClocks {
  pk_audit : Z;
  pk_observations : Z;
  pk_drift : Z;
  pk_assignments : Z;
  pk_tokens : Z
}.

Definition i64_sat_mul (a b : Z) : Z := Z.max (- 2 ^ 63) (Z.min i64_max (a * b)).

(** ** The per-resource caps *)

Section Cap.
Context {A K : Type} `{EqDecision K} (key : A → K) (before : A → A → bool).

(** [ROW_NUMBER() OVER (PARTITION BY key ORDER BY before)] is more than the
    number of rows of the partition that come first. *)
Definition rows_before (rows : list A) (r : A) : nat :=
  count_if (λ x, bool_decide (key x = key r) && before x r) rows.

Definition over_cap (max : nat) (rows : list A) (r : A) : bool := max <=? rows_before rows r.

(** The loop of batched DELETEs, with the number of rows it deleted; [pick]
    is the choice the database makes under LIMIT. *)
Fixpoint cap_loop (fuel : nat) (pick : nat → list A → list A) (id : A → Z) (max chunk : nat) (rows : list A)
    : option (nat * list A) :=
  match fuel with
  | O => None
  | S fuel =>
      let gone := pick chunk (select_where (over_cap max rows) rows) in
      let rows' := delete_where (λ r, bool_decide (id r ∈ map id gone)) rows in
      let n := length rows - length rows' in
      if n <? chunk then Some (n, rows')
      else match cap_loop fuel pick id max chunk rows' with
           | Some (total, rows'') => Some (n + total, rows'')
           | None => None
           end
  end.

End Cap.

Definition CHUNK_SIZE : nat := Z.to_nat 5000.

Definition observation_before (a b : DbObservation) : bool :=
  str_lt (ob_observed_at b) (ob_observed_at a) ||
  seqb (ob_observed_at a) (ob_observed_at b) && (ob_id b <? ob_id a)%Z.
Definition desired_before (a b : DbDesired) : bool := (ds_id b <? ds_id a)%Z.

Definition prune_observations_per_resource (pick : nat → list DbObservation → list DbObservation) (max : Z)
    (rows : list DbObservation) : option (nat * list DbObservation) :=
  cap_loop (λ o, (ob_agent_id o, ob_resource_id o)) observation_before (S (length rows)) pick ob_id
    (Z.to_nat max) CHUNK_SIZE rows.

Definition prune_desired_states_per_resource (pick : nat → list DbDesired → list DbDesired) (max : Z)
    (rows : list DbDesired) : option (nat * list DbDesired) :=
  cap_loop ds_resource_id desired_before (S (length rows)) pick ds_id (Z.to_nat max) CHUNK_SIZE rows.

(** ** One pass *)

Section Prune.
Context `{Jiff, JiffHours}.

(** An age that does not fit a span counts as none, and one that leaves the
    range of timestamps ends at the clock itself. *)
Definition cutoff_string (clock days : Z) : string :=
  let span := match ts_span_hours (i64_sat_mul days 24) with Ok s => s | Err _ => span_zero end in
  ts_print (match ts_sub clock span with Ok t => t | Err _ => clock end).

(** [DELETE FROM table WHERE column < cutoff], with [res.rows_affected()]. *)
Definition delete_older_than {A} (column : A → option string) (cutoff : string) (rows : list A) : nat * list A :=
  let p r := match column r with Some t => str_lt t cutoff | None => false end in
  (count_if p rows, delete_where p rows).

Definition delete_older_than_with_filter {A} (filter : A → bool) (column : A → option string) (cutoff : string)
    (rows : list A) : nat * list A :=
  let p r := filter r && match column r with Some t => str_lt t cutoff | None => false end in
  (count_if p rows, delete_where p rows).

Definition terminal (a : DbAssignment) : bool :=
  bool_decide (is_Some (asg_completed_at a)) &&
  (steqb (asg_status a) ASucceeded || steqb (asg_status a) AFailed || steqb (asg_status a) APartiallyApplied).

Definition resolved (r : DbDrift) : bool := bool_decide (is_Some (dr_resolved_at r)).

(** A statement of the pass when its setting is not zero. *)
Definition when_set {A} (setting : Z) (f : list A → option (nat * list A)) (rows : list A) : option (nat * list A) :=
  if (0 <? setting)%Z then f rows else Some (0, rows).

Definition prune_once (cfg : RetentionConfig) (clocks : PruneClocks)
    (pick_observations : nat → list DbObservation → list DbObservation)
    (pick_desired : nat → list DbDesired → list DbDesired) (d : Db) : option (PruneStats * Db) :=
  '(audit, audit_rows) ← when_set (rc_audit_days cfg)
    (λ rows, Some (delete_older_than (λ r, Some (au_timestamp r)) (cutoff_string (pk_audit clocks) (rc_audit_days cfg)) rows))
    (audit_events d);
  '(obs, obs_rows) ← when_set (rc_observation_days cfg)
    (λ rows, Some (delete_older_than (λ r, Some (ob_received_at r))
                     (cutoff_string (pk_observations clocks) (rc_observation_days cfg)) rows))
    (observations d);
  '(obs_cap, obs_rows) ← when_set (rc_observation_max_per_resource cfg)
    (prune_observations_per_resource pick_observations (rc_observation_max_per_resource cfg)) obs_rows;
  '(ds_cap, ds_rows) ← when_set (rc_desired_state_max_per_resource cfg)
    (prune_desired_states_per_resource pick_desired (rc_desired_state_max_per_resource cfg)) (desired_states d);
  '(drift, drift_rows) ← when_set (rc_drift_resolved_days cfg)
    (λ rows, Some (delete_older_than_with_filter resolved dr_resolved_at
                     (cutoff_string (pk_drift clocks) (rc_drift_resolved_days cfg)) rows))
    (drift_events d);
  '(asg, asg_rows) ← when_set (rc_assignment_terminal_days cfg)
    (λ rows, Some (delete_older_than_with_filter terminal asg_completed_at
                     (cutoff_string (pk_assignments clocks) (rc_assignment_terminal_days cfg)) rows))
    (assignments d);
  let expired := λ t, str_le (ut_expires_at t) (ts_print (pk_tokens clocks)) in
  let stats := mkPruneStats audit obs drift asg (count_if expired (user_tokens d)) obs_cap ds_cap in
  let d := set_audit audit_rows (next_audit d) (audit_tip d) d in
  let d := set_observations obs_rows (next_observation d) d in
  let d := set_desired ds_rows (next_desired d) d in
  let d := set_drift drift_rows (next_drift d) d in
  let d := set_assignments asg_rows d in
  Some (stats, delete_tokens expired d).

End Prune.

(** ** Retention: what a pass keeps, and what forgetting breaks

    The exact outcome of the batched caps and of a whole pass, and what the
    rest of the control plane loses with the deleted rows: the verifiability
    of the audit chain, the watch list of an agent, the content of an
    operation that waits for its approval. *)

From stdpp Require Import pretty.
From S2P Require Import Depsort DepOrder AuditLog AuditChain Canary Operations Dispatch Rollout Views Drift.

(** ** The cap loop *)

Lemma sublist_length_eq {A} (xs ys : list A) : xs `sublist_of` ys → length ys ≤ length xs → xs = ys.
Proof.
  induction 1 as [|x xs ys Hs IH|x xs ys Hs IH]; cbn; intros Hl; [done| |].
  - by rewrite IH by lia.
  - apply sublist_length in Hs. lia.
Qed.

Section Cap.
Context {A K : Type} `{EqDecision K} (key : A → K) (before : A → A → bool) (id : A → Z).

(** What SQL's LIMIT promises of the rows it picks. *)
Definition limits (pick : nat → list A → list A) : Prop :=
  ∀ k rows, pick k rows `sublist_of` rows ∧ length (pick k rows) = k `min` length rows.

Record ranked : Prop := {
  rk_irrefl : ∀ a, before a a = false;
  rk_trans : ∀ a b c, before a b = true → before b c = true → before a c = true;
  rk_total : ∀ a b, key a = key b → id a ≠ id b → before a b = true ∨ before b a = true
}.

Context (Hr : ranked).

(** In a list sorted by [before] the rank of a row is its position. *)
Lemma rank_sorted max xs :
  StronglySorted (λ a b, before a b = true) xs →
  count_if (λ x, count_if (λ y, before y x) xs <? max) xs = max `min` length xs.
Proof.
  intros Hs. revert max. induction Hs as [|x xs Hs IH Hx]; intros max; [cbn; lia|]. rewrite Forall_forall in Hx.
  assert (∀ y, y ∈ xs → before y x = false) as Hnx.
  { intros y Hy. apply not_true_iff_false. intros Hyx. pose proof (rk_trans Hr _ _ _ (Hx y Hy) Hyx) as Hc.
    by rewrite (rk_irrefl Hr) in Hc. }
  assert (count_if (λ y, before y x) (x :: xs) = 0) as Hrank0.
  { apply count_if_0. intros y [->|Hy]%elem_of_cons; [apply (rk_irrefl Hr)|by apply Hnx]. }
  assert (∀ z, z ∈ xs → count_if (λ y, before y z) (x :: xs) = S (count_if (λ y, before y z) xs)) as HrankS.
  { intros z Hz. unfold count_if. cbn. by rewrite (Hx z Hz). }
  rewrite count_if_cons, Hrank0. destruct max as [|max].
  - cbn [Nat.ltb Nat.leb]. rewrite Nat.min_0_l, (proj2 (count_if_0 _ _)); [done|]. by intros z _.
  - change (0 <? S max) with true.
    rewrite (count_if_ext _ (λ z, count_if (λ y, before y z) xs <? max)); [rewrite IH; cbn; lia|].
    intros z Hz. by rewrite (HrankS z Hz).
Qed.

Lemma NoDup_id_inj rows a b : NoDup (map id rows) → a ∈ rows → b ∈ rows → id a = id b → a = b.
Proof. intros. eapply NoDup_map_inj; eauto. Qed.

(** Any list of one partition can be sorted that way. *)
Lemma partition_sorts xs :
  NoDup (map id xs) → (∀ a b, a ∈ xs → b ∈ xs → key a = key b) →
  ∃ ys, xs ≡ₚ ys ∧ StronglySorted (λ a b, before a b = true) ys.
Proof.
  intros Hnd Hk. exists (order_by (λ a b, negb (before b a)) xs). split; [by rewrite order_by_perm|].
  set (ys := order_by _ xs). assert (xs ≡ₚ ys) as Hp by (symmetry; apply order_by_perm).
  enough (StronglySorted (λ a b, negb (before b a) = true) ys) as Hs.
  { rewrite Hp in Hnd. assert (∀ a b, a ∈ ys → b ∈ ys → key a = key b) as Hk' by (intros a b; rewrite <- Hp; apply Hk).
    clear -Hr Hs Hnd Hk'. induction Hs as [|x ys Hs IH Hx]; [constructor|]. cbn in Hnd. apply NoDup_cons in Hnd as [Hin Hnd].
    rewrite Forall_forall in Hx. constructor; [apply IH; [done|intros; apply Hk'; by right]|].
    apply Forall_forall. intros y Hy. specialize (Hx y Hy). apply negb_true_iff in Hx.
    destruct (rk_total Hr x y) as [H|H]; [apply Hk'; [left|by right]| |done|congruence].
    intros He. apply Hin. rewrite He. apply elem_of_map. by exists y. }
  clear -Hr Hk Hnd. subst ys. induction xs as [|x xs IH]; [constructor|]. cbn [order_by foldr].
  cbn in Hnd. apply NoDup_cons in Hnd as [Hin Hnd].
  specialize (IH Hnd (λ a b Ha Hb, Hk a b (list_elem_of_further _ _ _ Ha) (list_elem_of_further _ _ _ Hb))).
  assert (∀ y, y ∈ order_by (λ a b, negb (before b a)) xs → y ∈ xs) as Hsub by (intros y; by rewrite order_by_perm).
  change (foldr _ [] xs) with (order_by (λ a b, negb (before b a)) xs).
  revert IH Hsub. generalize (order_by (λ a b, negb (before b a)) xs) as ys. intros ys Hs.
  induction Hs as [|y ys Hs IH Hy]; intros Hsub; [repeat constructor|]. rewrite Forall_forall in Hy. cbn [insert_by].
  assert (∀ z, z ∈ ys → z ∈ xs) as Hsub' by (intros z Hz; apply Hsub; by right).
  destruct (negb (before y x)) eqn:E; constructor; try (by constructor; [|by apply Forall_forall]); try by apply IH.
  - apply Forall_forall. intros z [->|Hz]%elem_of_cons; [done|]. apply negb_true_iff, not_true_iff_false. intros Hzx.
    apply negb_true_iff in E. specialize (Hy z Hz). apply negb_true_iff in Hy.
    destruct (rk_total Hr x y) as [Hxy|Hyx]; [apply Hk; [left|right; apply Hsub; left]| | |congruence].
    + intros He. apply Hin. rewrite He. apply elem_of_map. exists y. split; [apply Hsub; left|done].
    + pose proof (rk_trans Hr _ _ _ Hzx Hxy). congruence.
  - apply Forall_forall. intros z Hz. apply elem_of_insert_by in Hz as [->|Hz]; [|by apply Hy].
    apply negb_false_iff in E. apply negb_true_iff, not_true_iff_false. intros Hxy.
    pose proof (rk_trans Hr _ _ _ E Hxy) as Hc. by rewrite (rk_irrefl Hr) in Hc.
Qed.

(** In a partition the rows a cap keeps are the first [max], whatever the size. *)
Lemma kept_in_list max xs :
  NoDup (map id xs) → (∀ a b, a ∈ xs → b ∈ xs → key a = key b) →
  count_if (λ x, count_if (λ y, before y x) xs <? max) xs = max `min` length xs.
Proof.
  intros Hnd Hk. destruct (partition_sorts xs Hnd Hk) as (ys & Hp & Hs).
  rewrite (count_if_perm _ _ _ Hp), Hp. rewrite <- (rank_sorted max ys Hs).
  apply count_if_ext. intros x _. by rewrite (count_if_perm _ _ _ Hp).
Qed.

(** The rows before [r] in its partition. *)
Definition ahead (rows : list A) (r : A) : list A := List.filter (λ x, bool_decide (key x = key r) && before x r) rows.

Lemma elem_of_ahead rows r x : x ∈ ahead rows r ↔ x ∈ rows ∧ key x = key r ∧ before x r = true.
Proof. unfold ahead. rewrite elem_of_List_filter, andb_true_iff, bool_decide_eq_true. done. Qed.

Lemma ahead_ahead rows r x : x ∈ ahead rows r → ahead rows x = List.filter (λ y, before y x) (ahead rows r).
Proof.
  intros (_ & Hk & Hb)%elem_of_ahead. unfold ahead. rewrite List_filter_filter. apply List_filter_ext_in.
  intros y _. rewrite Hk. destruct (bool_decide (key y = key r)); cbn; [|done].
  destruct (before y x) eqn:E; [|by rewrite andb_false_r]. by rewrite (rk_trans Hr _ _ _ E Hb).
Qed.

(** Deleting rows over the cap leaves the verdict on the others. *)
Lemma over_cap_stable max rows rows' r :
  NoDup (map id rows) → rows' `sublist_of` rows → (∀ x, x ∈ rows → over_cap key before max rows x = false → x ∈ rows') →
  over_cap key before max rows' r = over_cap key before max rows r.
Proof.
  intros Hnd Hsub Hgone. unfold over_cap, rows_before. fold (ahead rows' r). fold (ahead rows r).
  change (length (List.filter _ rows')) with (length (ahead rows' r)).
  change (count_if _ rows') with (length (ahead rows' r)). change (count_if _ rows) with (length (ahead rows r)).
  assert (length (ahead rows' r) ≤ length (ahead rows r)) as Hle by (apply count_if_sublist; done).
  destruct (Nat.leb_spec max (length (ahead rows r))) as [Hge|Hlt]; [|apply Nat.leb_gt; lia].
  apply Nat.leb_le.
  pose proof (kept_in_list max (ahead rows r)) as Hkept. rewrite Nat.min_l in Hkept by done.
  rewrite <- Hkept; [|by apply NoDup_map_filter|].
  2:{ intros a b (_ & -> & _)%elem_of_ahead (_ & -> & _)%elem_of_ahead. done. }
  apply submseteq_length, NoDup_submseteq.
  { apply (NoDup_fmap_1 id). by apply NoDup_map_filter, NoDup_map_filter. }
  intros x [Hx Hrank]%elem_of_List_filter. pose proof Hx as (Hin & Hk & Hb)%elem_of_ahead.
  apply elem_of_ahead. split; [|done]. apply Hgone; [done|]. unfold over_cap, rows_before.
  change (count_if _ rows) with (length (ahead rows x)). rewrite (ahead_ahead rows r x Hx).
  apply Nat.leb_gt, Nat.ltb_lt, Hrank.
Qed.

(** Deleting picked rows by id deletes just those. *)
Lemma delete_picked rows gone :
  NoDup (map id rows) → gone `sublist_of` rows →
  (∀ r, r ∈ rows → bool_decide (id r ∈ map id gone) = true ↔ r ∈ gone) ∧
  length (delete_where (λ r, bool_decide (id r ∈ map id gone)) rows) + length gone = length rows.
Proof.
  intros Hnd Hsub.
  assert (∀ r, r ∈ rows → bool_decide (id r ∈ map id gone) = true ↔ r ∈ gone) as Hin.
  { intros r Hrow. rewrite bool_decide_eq_true, elem_of_map. split; [|by exists r].
    intros (x & Hx & He). rewrite (NoDup_id_inj rows r x); [done|done|done| |done]. by eapply elem_of_sublist. }
  split; [done|]. set (p := λ r, bool_decide (id r ∈ map id gone)) in *. unfold delete_where.
  enough (length (List.filter p rows) = length gone) as <-.
  { clear. induction rows as [|x rows IH]; [done|]. cbn. destruct (p x); cbn; lia. }
  apply Permutation_length, NoDup_Permutation.
  - apply (NoDup_fmap_1 id). by apply NoDup_map_filter.
  - apply (sublist_NoDup _ rows); [|done]. by apply (NoDup_fmap_1 id).
  - intros x. rewrite elem_of_List_filter. split.
    + intros [Hr' Hx]. by apply Hin.
    + intros Hx. assert (x ∈ rows) as Hr' by (by eapply elem_of_sublist). split; [done|]. by apply Hin.
Qed.

(** The batches together delete the rows over the cap, for any choice of the database. *)
Lemma cap_loop_spec pick max chunk fuel : ∀ rows,
  limits pick → NoDup (map id rows) → 0 < chunk → length rows < fuel →
  ∃ n, cap_loop key before fuel pick id max chunk rows = Some (n, delete_where (over_cap key before max rows) rows) ∧
    n + length (delete_where (over_cap key before max rows) rows) = length rows.
Proof.
  induction fuel as [|fuel IH]; intros rows Hpick Hnd Hc Hf; [lia|]. cbn [cap_loop].
  set (over := over_cap key before max rows). set (gone := pick chunk (select_where over rows)).
  destruct (Hpick chunk (select_where over rows)) as [Hsub Hlen]. fold gone in Hsub, Hlen.
  assert (gone `sublist_of` rows) as Hgr by (etrans; [exact Hsub|apply List_filter_sublist]).
  destruct (delete_picked rows gone Hnd Hgr) as [Hin Hl]. set (p := λ r, bool_decide (id r ∈ map id gone)) in *.
  set (rows' := delete_where p rows) in *.
  assert (∀ x, x ∈ gone → over x = true) as Hover.
  { intros x Hx. pose proof (elem_of_sublist _ _ _ Hx Hsub) as Hs. by apply elem_of_List_filter in Hs as [_ ?]. }
  destruct (Nat.ltb_spec (length rows - length rows') chunk) as [Hlt|Hge].
  - assert (gone = select_where over rows) as Hall by (apply sublist_length_eq; [done|lia]).
    exists (length rows - length rows'). enough (delete_where over rows = rows') as -> by (split; [done|lia]).
    apply List_filter_ext_in. intros x Hx. f_equal. apply eq_bool_prop_intro. rewrite !Is_true_true.
    etrans; [|symmetry; exact (Hin x Hx)]. rewrite Hall. unfold select_where. rewrite elem_of_List_filter. naive_solver.
  - assert (∀ r, over_cap key before max rows' r = over r) as Hstable.
    { intros r. apply over_cap_stable; [done|apply List_filter_sublist|]. intros x Hx Ho.
      apply elem_of_delete_where. split; [done|]. apply not_true_iff_false. intros Hg%Hin; [|done].
      apply Hover in Hg. unfold over in Hg. congruence. }
    destruct (IH rows') as (n & -> & Hn); [done|by apply NoDup_map_filter|done|lia|].
    assert (delete_where (over_cap key before max rows') rows' = delete_where over rows) as Heq.
    { unfold rows', delete_where. rewrite List_filter_filter. apply List_filter_ext_in. intros x Hx.
      fold (delete_where p rows). fold rows'. rewrite Hstable. destruct (p x) eqn:Hp; [|done].
      apply Hin in Hp; [|done]. by rewrite (Hover x Hp). }
    rewrite Heq in *. exists (length rows - length rows' + n). split; [done|lia].
Qed.

End Cap.

Lemma str_lt_irrefl' a b : str_lt a b = true → a ≠ b.
Proof. intros H ->. by rewrite str_lt_irrefl in H. Qed.

Lemma observation_ranked :
  ranked (λ o, (ob_agent_id o, ob_resource_id o)) observation_before ob_id.
Proof.
  assert (∀ a b, observation_before a b = true ↔ str_lt (ob_observed_at b) (ob_observed_at a) = true ∨
            ob_observed_at a = ob_observed_at b ∧ (ob_id b < ob_id a)%Z) as Hs.
  { intros a b. unfold observation_before. rewrite orb_true_iff, andb_true_iff, seqb_true, Z.ltb_lt. done. }
  split.
  - intros a. apply not_true_iff_false. rewrite Hs. intros [H%str_lt_irrefl'|[_ H]]; [done|lia].
  - intros a b c. rewrite !Hs. intros [H1|[E1 H1]] [H2|[E2 H2]].
    + left. by eapply str_lt_trans.
    + left. by rewrite <- E2.
    + left. by rewrite E1.
    + right. split; [congruence|lia].
  - intros a b _ Hne. rewrite !Hs. destruct (str_lt_total (ob_observed_at a) (ob_observed_at b)) as [?|[->|?]]; [auto| |auto].
    destruct (Z.lt_total (ob_id a) (ob_id b)) as [?|[?|?]]; [right; auto|done|left; auto].
Qed.

Lemma desired_ranked : ranked ds_resource_id desired_before ds_id.
Proof.
  unfold desired_before. split.
  - intros a. apply Z.ltb_irrefl.
  - intros a b c. rewrite !Z.ltb_lt. lia.
  - intros a b _ Hne. rewrite !Z.ltb_lt. lia.
Qed.

(** The rows a cap keeps. *)
Definition under_cap {A K} `{EqDecision K} (key : A → K) (before : A → A → bool) (cap : Z) (rows : list A) : list A :=
  if (0 <? cap)%Z then delete_where (over_cap key before (Z.to_nat cap) rows) rows else rows.

Lemma under_cap_count {A K} `{EqDecision K} (key : A → K) before id cap (rows : list A) k :
  ranked key before id → NoDup (map id rows) → (0 < cap)%Z →
  count_if (λ r, bool_decide (key r = k)) (under_cap key before cap rows) =
  Z.to_nat cap `min` count_if (λ r, bool_decide (key r = k)) rows.
Proof.
  intros Hr Hnd Hc. unfold under_cap. rewrite (proj2 (Z.ltb_lt 0 cap) Hc). set (max := Z.to_nat cap).
  set (part := List.filter (λ r, bool_decide (key r = k)) rows).
  transitivity (max `min` length part); [|done]. rewrite <- (kept_in_list key before id Hr max part).
  - unfold count_if, part, delete_where. rewrite !List_filter_filter. f_equal. apply List_filter_ext_in. intros x Hx.
    destruct (bool_decide (key x = k)) eqn:Hk; [|by rewrite andb_false_r].
    apply bool_decide_eq_true in Hk. rewrite andb_true_r, andb_true_l. unfold over_cap, rows_before.
    rewrite List_filter_filter, Hk, Nat.leb_antisym, negb_involutive. done.
  - by apply NoDup_map_filter.
  - intros a b [_ ->%bool_decide_eq_true]%elem_of_List_filter [_ ->%bool_decide_eq_true]%elem_of_List_filter. done.
Qed.

(** A row that comes before a kept one is kept. *)
Lemma under_cap_up {A K} `{EqDecision K} (key : A → K) before id cap (rows : list A) r r' :
  ranked key before id → r ∈ under_cap key before cap rows → r' ∈ rows → key r' = key r → before r' r = true →
  r' ∈ under_cap key before cap rows.
Proof.
  intros Hr. unfold under_cap. destruct (0 <? cap)%Z; [|done]. rewrite !elem_of_delete_where.
  intros [_ Ho] Hr' Hk Hb. split; [done|]. unfold over_cap in *. apply Nat.leb_gt in Ho. apply Nat.leb_gt.
  enough (rows_before key before rows r' ≤ rows_before key before rows r) by lia. clear Ho Hr'.
  unfold rows_before, count_if. rewrite Hk. induction rows as [|x rows IH]; [done|]. cbn.
  destruct (bool_decide (key x = key r)); cbn; [|done]. destruct (before x r') eqn:E; cbn.
  - rewrite (rk_trans _ _ _ Hr _ _ _ E Hb). cbn. lia.
  - destruct (before x r); cbn; lia.
Qed.

Lemma under_cap_run {A K} `{EqDecision K} (key : A → K) before id pick cap (rows : list A) :
  ranked key before id → limits pick → NoDup (map id rows) →
  ∃ n, when_set cap (λ rows, cap_loop key before (S (length rows)) pick id (Z.to_nat cap) CHUNK_SIZE rows) rows =
       Some (n, under_cap key before cap rows) ∧ n + length (under_cap key before cap rows) = length rows.
Proof.
  intros Hr Hp Hnd. unfold when_set, under_cap. destruct (0 <? cap)%Z; [|by exists 0].
  apply cap_loop_spec; [done|done|done| |lia]. vm_compute. lia.
Qed.

Section Pass.
Context `{Jiff, JiffHours}.

(** The rows an age limit keeps. *)
Definition within {A} (days clock : Z) (column : A → option string) (rows : list A) : list A :=
  if (0 <? days)%Z then
    delete_where (λ r, match column r with Some t => str_lt t (cutoff_string clock days) | None => false end) rows
  else rows.

Lemma delete_where_count {A} (p : A → bool) rows : count_if p rows + length (delete_where p rows) = length rows.
Proof. unfold count_if, delete_where. induction rows as [|x rows IH]; [done|]. cbn. destruct (p x); cbn; lia. Qed.

Lemma within_run {A} days clock (column : A → option string) rows :
  ∃ n, when_set days (λ rows, Some (delete_older_than column (cutoff_string clock days) rows)) rows =
       Some (n, within days clock column rows) ∧ n + length (within days clock column rows) = length rows.
Proof.
  unfold when_set, within. destruct (0 <? days)%Z; [|by exists 0]. unfold delete_older_than.
  eexists. split; [done|]. apply delete_where_count.
Qed.

Lemma within_filter_run {A} days clock (f : A → bool) column rows :
  ∃ n, when_set days (λ rows, Some (delete_older_than_with_filter f column (cutoff_string clock days) rows)) rows =
       Some (n, within days clock (λ r, if f r then column r else None) rows) ∧
       n + length (within days clock (λ r, if f r then column r else None) rows) = length rows.
Proof.
  unfold when_set, within. destruct (0 <? days)%Z; [|by exists 0]. unfold delete_older_than_with_filter.
  assert (∀ r, f r && match column r with Some t => str_lt t (cutoff_string clock days) | None => false end =
    match (if f r then column r else None) with Some t => str_lt t (cutoff_string clock days) | None => false end) as He
    by (intros r; by destruct (f r)).
  eexists. split; [|apply delete_where_count]. do 2 f_equal; [by apply count_if_ext|].
  apply List_filter_ext_in. intros x _. by rewrite He.
Qed.

Lemma elem_of_within {A} days clock (column : A → option string) rows r :
  r ∈ within days clock column rows ↔
  r ∈ rows ∧ ((0 < days)%Z → ∀ t, column r = Some t → str_lt t (cutoff_string clock days) = false).
Proof.
  unfold within. destruct (Z.ltb_spec 0 days).
  - rewrite elem_of_delete_where. destruct (column r); naive_solver.
  - split; [|naive_solver]. intros Hr. split; [done|]. lia.
Qed.

(** What a pass leaves in each table. *)
Record pass_result (cfg : RetentionConfig) (clocks : PruneClocks) (d d' : Db) : Prop := {
  pr_audit : audit_events d' = within (rc_audit_days cfg) (pk_audit clocks) (λ r, Some (au_timestamp r)) (audit_events d);
  pr_observations :
    observations d' = under_cap (λ o, (ob_agent_id o, ob_resource_id o)) observation_before
      (rc_observation_max_per_resource cfg)
      (within (rc_observation_days cfg) (pk_observations clocks) (λ r, Some (ob_received_at r)) (observations d));
  pr_desired :
    desired_states d' = under_cap ds_resource_id desired_before (rc_desired_state_max_per_resource cfg) (desired_states d);
  pr_drift :
    drift_events d' = within (rc_drift_resolved_days cfg) (pk_drift clocks)
      (λ r, if resolved r then dr_resolved_at r else None) (drift_events d);
  pr_assignments :
    assignments d' = within (rc_assignment_terminal_days cfg) (pk_assignments clocks)
      (λ a, if terminal a then asg_completed_at a else None) (assignments d);
  pr_tokens : user_tokens d' = delete_where (λ t, str_le (ut_expires_at t) (ts_print (pk_tokens clocks))) (user_tokens d);
  pr_agents : agents d' = agents d;
  pr_operations : operations d' = operations d;
  pr_users : users d' = users d;
  pr_tip : audit_tip d' = audit_tip d
}.

Definition prunable_rows (d : Db) : nat :=
  length (audit_events d) + length (observations d) + length (desired_states d) + length (drift_events d) +
  length (assignments d) + length (user_tokens d).

Lemma prune_once_run cfg clocks pick_o pick_d d :
  limits pick_o → limits pick_d → NoDup (map ob_id (observations d)) → NoDup (map ds_id (desired_states d)) →
  ∃ stats d', prune_once cfg clocks pick_o pick_d d = Some (stats, d') ∧ pass_result cfg clocks d d' ∧
    stats_total stats + prunable_rows d' = prunable_rows d.
Proof.
  intros Ho Hd Hno Hnd. unfold prune_once.
  destruct (within_run (rc_audit_days cfg) (pk_audit clocks) (λ r, Some (au_timestamp r)) (audit_events d)) as (n1 & -> & L1).
  cbn [mbind option_bind].
  destruct (within_run (rc_observation_days cfg) (pk_observations clocks) (λ r, Some (ob_received_at r)) (observations d))
    as (n2 & -> & L2). cbn [mbind option_bind].
  set (aged := within (rc_observation_days cfg) _ _ _) in *.
  assert (NoDup (map ob_id aged)) as Hna.
  { unfold aged, within. case_match; [|done]. by apply NoDup_map_filter. }
  destruct (under_cap_run _ _ _ pick_o (rc_observation_max_per_resource cfg) aged observation_ranked Ho Hna) as (n3 & E3 & L3).
  unfold prune_observations_per_resource. rewrite E3. cbn [mbind option_bind].
  destruct (under_cap_run _ _ _ pick_d (rc_desired_state_max_per_resource cfg) _ desired_ranked Hd Hnd) as (n4 & E4 & L4).
  unfold prune_desired_states_per_resource. rewrite E4. cbn [mbind option_bind].
  destruct (within_filter_run (rc_drift_resolved_days cfg) (pk_drift clocks) resolved dr_resolved_at (drift_events d))
    as (n5 & -> & L5). cbn [mbind option_bind].
  destruct (within_filter_run (rc_assignment_terminal_days cfg) (pk_assignments clocks) terminal asg_completed_at
    (assignments d)) as (n6 & -> & L6). cbn [mbind option_bind].
  eexists _, _. split; [done|]. split; [by split|].
  pose proof (delete_where_count (λ t, str_le (ut_expires_at t) (ts_print (pk_tokens clocks))) (user_tokens d)) as L7.
  unfold stats_total, prunable_rows, delete_tokens. cbn -[count_if delete_where within under_cap]. lia.
Qed.

(** A retention pass always finishes, whatever rows the database picks
    for its batches, and its count is the number of rows it deleted. It keeps
    every open drift event, every assignment that is not settled and every
    session that has not expired; per agent and resource it keeps, of the
    observations young enough, exactly the newest up to the cap, and per
    resource exactly the newest desired states up to theirs; agents,
    operations and users it leaves alone. *)
Theorem retention_pass cfg clocks pick_o pick_d d :
  limits pick_o → limits pick_d → NoDup (map ob_id (observations d)) → NoDup (map ds_id (desired_states d)) →
  ∃ stats d', prune_once cfg clocks pick_o pick_d d = Some (stats, d') ∧
    stats_total stats + prunable_rows d' = prunable_rows d ∧
    (∀ r, r ∈ drift_events d → dr_resolved_at r = None → r ∈ drift_events d') ∧
    (∀ a, a ∈ assignments d → unsettled (asg_status a) = true → a ∈ assignments d') ∧
    (∀ t, t ∈ user_tokens d' ↔ t ∈ user_tokens d ∧ str_lt (ts_print (pk_tokens clocks)) (ut_expires_at t) = true) ∧
    (∀ agent rid, (0 < rc_observation_max_per_resource cfg)%Z →
       let of_resource o := bool_decide ((ob_agent_id o, ob_resource_id o) = (agent, rid)) in
       let young := within (rc_observation_days cfg) (pk_observations clocks) (λ r, Some (ob_received_at r)) (observations d) in
       count_if of_resource (observations d') =
         Z.to_nat (rc_observation_max_per_resource cfg) `min` count_if of_resource young ∧
       ∀ o o', o ∈ observations d' → o' ∈ young → of_resource o = true → of_resource o' = true →
         observation_before o' o = true → o' ∈ observations d') ∧
    (∀ rid, (0 < rc_desired_state_max_per_resource cfg)%Z →
       let of_resource s := bool_decide (ds_resource_id s = rid) in
       count_if of_resource (desired_states d') =
         Z.to_nat (rc_desired_state_max_per_resource cfg) `min` count_if of_resource (desired_states d)) ∧
    agents d' = agents d ∧ operations d' = operations d ∧ users d' = users d.
Proof.
  intros Ho Hd Hno Hnd. destruct (prune_once_run cfg clocks pick_o pick_d d Ho Hd Hno Hnd) as (stats & d' & Hrun & Hp & Htot).
  exists stats, d'. destruct Hp as [_ Po Pd Pdr Pa Pt Pag Pop Pu _]. split_and!; try done.
  - intros r Hr Hopen. rewrite Pdr. apply elem_of_within. split; [done|]. intros _ t. unfold resolved. by rewrite Hopen.
  - intros a Ha Hun. rewrite Pa. apply elem_of_within. split; [done|]. intros _ t. unfold terminal.
    destruct (bool_decide _); [|done]. by destruct (asg_status a).
  - intros t. rewrite Pt, elem_of_delete_where. change (str_le (ut_expires_at t) (ts_print (pk_tokens clocks)))
      with (negb (str_lt (ts_print (pk_tokens clocks)) (ut_expires_at t))). by rewrite negb_false_iff.
  - intros agent rid Hc of_resource young. rewrite Po. split.
    + apply (under_cap_count (λ o, (ob_agent_id o, ob_resource_id o)) _ ob_id); [apply observation_ranked| |done].
      unfold young, within. destruct (0 <? _)%Z; [by apply NoDup_map_filter|done].
    + intros o o' Ho1 Ho' H1%bool_decide_eq_true H2%bool_decide_eq_true Hb.
      apply (under_cap_up _ _ ob_id _ _ o o' observation_ranked); [done|done|congruence|done].
  - intros rid Hc of_resource. rewrite Pd. apply (under_cap_count _ _ ds_id); [apply desired_ranked|done|done].
Qed.

(** ** What forgetting breaks *)

Context `{JsonCodec, Sha256, SqlErrors}.

Lemma filter_head {A} (p : A → bool) xs s rest :
  List.filter p xs = s :: rest → ∃ a b, xs = a ++ s :: b ∧ List.filter p a = [].
Proof.
  induction xs as [|x xs IH]; cbn; [done|]. destruct (p x) eqn:E.
  - intros [= -> _]. by exists [], xs.
  - intros (a & b & -> & Ha)%IH. exists (x :: a), b. cbn. by rewrite E.
Qed.

Lemma sorted_sublist (xs ys : list Z) : xs `sublist_of` ys → StronglySorted Z.lt ys → StronglySorted Z.lt xs.
Proof.
  induction 1 as [|x xs ys Hs IH|x xs ys Hs IH]; intros Hsort; [done| |].
  - apply StronglySorted_inv in Hsort as [Hsort Hall]. constructor; [by apply IH|].
    rewrite Forall_forall in *. intros y Hy. apply Hall. by eapply elem_of_sublist.
  - apply IH. by apply StronglySorted_inv in Hsort as [? _].
Qed.

Lemma verify_deleted p d :
  chain_ok d → digest_shaped sha256_hex →
  ∀ r s rest, r ∈ audit_events d → p r = true → delete_where p (audit_events d) = s :: rest → (au_id r < au_id s)%Z →
  ∀ d', audit_events d' = delete_where p (audit_events d) → audit_verify_chain d' = Some (Some (au_id s)).
Proof.
  intros [(t & _ & Hw) Hs Hrange _ Hh] Hsha r s rest Hr Hp Hdel Hlt d' Hd'.
  assert (audit_events d' `sublist_of` audit_events d) as Hsub by (rewrite Hd'; apply List_filter_sublist).
  assert (StronglySorted Z.lt (au_id <$> audit_events d')) as Hs' by (eapply sorted_sublist; [by apply fmap_sublist|done]).
  assert (hashed_rows_after 0 (audit_events d') = audit_events d') as Hall.
  { unfold hashed_rows_after, select_where. rewrite List_filter_all; [by apply order_by_id_sorted|].
    intros x Hx. rewrite Forall_forall in Hrange, Hh. pose proof (elem_of_sublist _ _ _ Hx Hsub) as Hx'.
    apply andb_true_iff. rewrite bool_decide_eq_true, Z.ltb_lt. split; [by apply Hh|by apply Hrange]. }
  unfold audit_verify_chain, audit_verify_chain_from.
  rewrite verify_loop_walk; [|by apply StronglySorted_lt_NoDup|unfold CHUNK; lia|rewrite Hall; lia].
  rewrite Hall, Hd', Hdel. unfold walk_result, seed_hash. rewrite decide_True by lia. cbn [try_fold].
  destruct (filter_head _ _ _ _ Hdel) as (a & b & Heq & Ha). rewrite Heq in *.
  destruct a as [|q a _] using rev_ind.
  { exfalso. cbn in Hr. apply elem_of_cons in Hr as [->|Hr]; [lia|]. cbn in Hs. apply StronglySorted_inv in Hs as [_ Hgt].
    rewrite Forall_forall in Hgt. specialize (Hgt (au_id r)). rewrite list_elem_of_fmap in Hgt.
    specialize (Hgt ltac:(by exists r)). lia. }
  rewrite <- app_assoc, try_fold_app in Hw. destruct (try_fold verify_row ("", 0%Z) a) as [[h1 i1]|]; [|done].
  cbn [mbind result_bind try_fold app] in Hw. destruct (verify_row (h1, i1) q) as [[h2 i2]|] eqn:Hq; [|done].
  cbn [mbind result_bind] in Hw. apply verify_row_Ok in Hq as (_ & _ & _ & ->).
  destruct (verify_row _ s) as [x|] eqn:Hv in Hw; [|done]. destruct x as [h3 i3]. apply verify_row_Ok in Hv as (Hprev & _).
  unfold verify_row. rewrite decide_True; [done|]. rewrite Hprev. intros He.
  destruct (Hsha (audit_row_bytes h1 0 (row_to_audit_inputs q))) as [Hl _].
  unfold compute_audit_row_hash in He. by rewrite He in Hl.
Qed.

(** Age-based pruning of the audit log breaks its own verification: when
    a pass deletes a row of a log in good order and a later row survives, the
    verification afterwards reports the oldest surviving row as tampered
    with, though no one touched the log. *)
Theorem pruned_audit_unverifiable cfg clocks pick_o pick_d d stats d' r s rest :
  limits pick_o → limits pick_d → NoDup (map ob_id (observations d)) → NoDup (map ds_id (desired_states d)) →
  chain_ok d → digest_shaped sha256_hex →
  prune_once cfg clocks pick_o pick_d d = Some (stats, d') →
  r ∈ audit_events d → r ∉ audit_events d' → audit_events d' = s :: rest → (au_id r < au_id s)%Z →
  audit_verify_chain d = Some None ∧ audit_verify_chain d' = Some (Some (au_id s)).
Proof.
  intros Ho Hd Hno Hnd Hck Hsha Hrun Hr Hgone Hsurv Hlt. split.
  - pose proof Hck as [(t & _ & Hw) Hs Hrange Hn Hh].
    unfold audit_verify_chain, audit_verify_chain_from.
    rewrite verify_loop_walk; [|by apply StronglySorted_lt_NoDup|unfold CHUNK; lia|rewrite hashed_rows_all by done; lia].
    unfold walk_result, seed_hash. rewrite decide_True by lia. by rewrite hashed_rows_all, Hw by done.
  - destruct (prune_once_run cfg clocks pick_o pick_d d Ho Hd Hno Hnd) as (st & d1 & Hrun' & [Pau _ _ _ _ _ _ _ _ _] & _).
    rewrite Hrun in Hrun'. injection Hrun' as <- <-. unfold within in Pau. destruct (0 <? _)%Z; [|by rewrite Pau in Hgone].
    eapply (verify_deleted _ d Hck Hsha r s rest Hr); [|by rewrite <- Pau|done|done].
    destruct (str_lt (au_timestamp r) (cutoff_string (pk_audit clocks) (rc_audit_days cfg))) eqn:Hp; [done|]. exfalso. apply Hgone. rewrite Pau, elem_of_delete_where.
    done.
Qed.

(** An age too large for the calendar is no age at all: when the audit
    retention in hours does not fit a span, or reaches back before the first
    timestamp, the cut-off is the clock itself and the pass deletes every
    audit row written before it, instead of none. *)
Theorem oversized_age_wipes cfg clocks pick_o pick_d d stats d' e :
  limits pick_o → limits pick_d → NoDup (map ob_id (observations d)) → NoDup (map ds_id (desired_states d)) →
  prune_once cfg clocks pick_o pick_d d = Some (stats, d') →
  (0 < rc_audit_days cfg ≤ u32_max)%Z →
  (ts_span_hours (rc_audit_days cfg * 24) = Err e ∧ ts_sub (pk_audit clocks) span_zero = Ok (pk_audit clocks)) ∨
  (∃ span, ts_span_hours (rc_audit_days cfg * 24) = Ok span ∧ ts_sub (pk_audit clocks) span = Err e) →
  ∀ r, r ∈ audit_events d' ↔ r ∈ audit_events d ∧ str_lt (au_timestamp r) (ts_print (pk_audit clocks)) = false.
Proof.
  intros Ho Hd Hno Hnd Hrun Hdays Hover r.
  destruct (prune_once_run cfg clocks pick_o pick_d d Ho Hd Hno Hnd) as (st & d1 & Hrun' & [Pau _ _ _ _ _ _ _ _ _] & _).
  rewrite Hrun in Hrun'. injection Hrun' as <- <-.
  assert (cutoff_string (pk_audit clocks) (rc_audit_days cfg) = ts_print (pk_audit clocks)) as Hcut.
  { unfold cutoff_string, i64_sat_mul. unfold u32_max in Hdays. unfold i64_max. rewrite Z.min_r, Z.max_r by lia.
    destruct Hover as [[-> ->]|(span & -> & ->)]; done. }
  rewrite Pau, elem_of_within, Hcut. split.
  - intros [Hr Hkeep]. split; [done|]. apply Hkeep; [lia|done].
  - intros [Hr Hlt]. split; [done|]. by intros _ t [= <-].
Qed.

(** An agent forgets what it manages: once its last applications are
    older than the retention of settled assignments, a pass leaves it an empty
    watch list, whatever desired states are still stored, so the drift of
    those resources is no longer looked for. *)
Theorem pruned_watch_list_empty cfg clocks pick_o pick_d d stats d' agent :
  limits pick_o → limits pick_d → NoDup (map ob_id (observations d)) → NoDup (map ds_id (desired_states d)) →
  prune_once cfg clocks pick_o pick_d d = Some (stats, d') →
  (0 < rc_assignment_terminal_days cfg)%Z →
  (∀ a, a ∈ assignments d → watches agent a = true →
     terminal a = true ∧ ∃ t, asg_completed_at a = Some t ∧
       str_lt t (cutoff_string (pk_assignments clocks) (rc_assignment_terminal_days cfg)) = true) →
  list_desired_state_for_agent agent d' = Ok [].
Proof.
  intros Ho Hd Hno Hnd Hrun Hdays Hold.
  destruct (prune_once_run cfg clocks pick_o pick_d d Ho Hd Hno Hnd) as (st & d1 & Hrun' & [_ _ _ _ Pas _ _ _ _ _] & _).
  rewrite Hrun in Hrun'. injection Hrun' as <- <-. unfold list_desired_state_for_agent.
  rewrite decide_True; [done|]. apply set_eq. intros [op rid]. rewrite elem_of_owned_pairs, elem_of_empty.
  split; [|done]. intros (a & res & Ha & Hw & _). rewrite Pas in Ha. apply elem_of_within in Ha as [Ha Hkeep].
  destruct (Hold a Ha Hw) as (Ht & t & Hc & Hlt). specialize (Hkeep Hdays t). rewrite Ht in Hkeep.
  specialize (Hkeep Hc). congruence.
Qed.

(** An operation that waits for its approval can be emptied: the cap on
    desired states counts the rows of every operation of a resource, so newer
    submissions push the rows of a waiting one out. When all of them are gone
    the approval succeeds, dispatches nothing and marks the operation
    succeeded. *)
Theorem pruned_approval_succeeds cfg clocks pick_o pick_d d stats d' op o approver actor reason f :
  limits pick_o → limits pick_d → NoDup (map ob_id (observations d)) → NoDup (map ds_id (desired_states d)) →
  NoDup (map op_id (operations d)) →
  prune_once cfg clocks pick_o pick_d d = Some (stats, d') →
  o ∈ operations d → op_id o = op → op_status o = OpPendingApproval →
  (0 < rc_desired_state_max_per_resource cfg)%Z →
  (∀ s, s ∈ desired_states d → ds_operation_id s = op →
     over_cap ds_resource_id desired_before (Z.to_nat (rc_desired_state_max_per_resource cfg)) (desired_states d) s = true) →
  ∃ d'' o'', approve_operation op approver actor reason f d' = Some (Ok (0, d'')) ∧
    assignments d'' = assignments d' ∧ find_operation op d'' = Some o'' ∧ op_status o'' = OpSucceeded.
Proof.
  intros Ho Hd Hno Hnd Hops Hrun Hin Hid Hst Hcap Hover.
  destruct (prune_once_run cfg clocks pick_o pick_d d Ho Hd Hno Hnd) as (st & d1 & Hrun' & [_ _ Pd _ _ _ _ Pop _ _] & _).
  rewrite Hrun in Hrun'. injection Hrun' as <- <-.
  assert (select_where (λ r, seqb (ds_operation_id r) op) (desired_states d') = []) as Hrows.
  { apply length_zero_iff_nil, count_if_0. intros s Hs. rewrite Pd in Hs. unfold under_cap in Hs.
    rewrite (proj2 (Z.ltb_lt 0 _) Hcap) in Hs. apply elem_of_delete_where in Hs as [Hs Hkeep].
    apply not_true_iff_false. intros Hop%seqb_true. specialize (Hover s Hs Hop). congruence. }
  rewrite <- Pop in Hops, Hin.
  assert (find_operation op d' = Some o) as Hfind.
  { apply (find_unique op_id); [done|done|by apply seqb_true|]. intros y _ Hy%seqb_true. congruence. }
  assert (count_if (awaiting_approval op) (operations d') = 1) as Hone.
  { apply (count_if_unique op_id _ _ o); [done|done|by apply awaiting_true|]. intros y _ [Hy _]%awaiting_true. congruence. }
  unfold approve_operation, tx_bind, tx_get, tx_lift, tx_panics, tx_modify.
  rewrite Hfind. cbn [ok_or]. rewrite decide_False by (intros Hx; by apply Hx). rewrite Hrows.
  cbn -[count_if]. rewrite Hone. cbn. eexists _, _. split_and!; [reflexivity|done| |].
  - unfold find_operation. cbn. apply (find_unique op_id (λ o, seqb (op_id o) op) _
      (set_op_approved OpSucceeded approver (now f) reason (Some (now f)) o)).
    + change (NoDup (map op_id (update_where (awaiting_approval op)
        (set_op_approved OpSucceeded approver (now f) reason (Some (now f))) (operations d')))).
      by rewrite update_where_column.
    + apply elem_of_update_where. exists o. by rewrite (proj2 (awaiting_true op o)).
    + by apply seqb_true.
    + intros y _ Hy%seqb_true. cbn. congruence.
  - done.
Qed.

End Pass.

(** ** A concrete pass *)

#[local] Existing Instances demo_jiff demo_sha watch_codec.
#[local] Instance demo_hours : JiffHours := {|
  ts_span_hours n := if decide (Z.abs n ≤ 175307616)%Z then Ok (n * 3600)%Z else Err "span out of range";
  span_zero := 0;
  ts_sub t s := if decide (0 ≤ t - s)%Z then Ok (t - s)%Z else Err "out of range"
|}.
#[local] Instance demo_unique : SqlErrors := {| unique_violation := SqlxOther "unique" |}.

Lemma limits_take {A} : limits (@take A).
Proof. intros k rows. split; [apply sublist_take|apply length_take]. Qed.

(** One day of audit and assignments, one desired state per resource. *)
Definition demo_retention : RetentionConfig := mkRetention 1 0 1 0 1 1 300.
Definition demo_clocks : PruneClocks := mkPruneClocks 300000 300000 300000 300000 300000.

(** [op1] waits for its approval, [op2] is newer, was applied by [a1] two
    days ago and changes the same resource. *)
Definition demo_forgetting : Db :=
  committed (record_audit_on "@250000" (record_new "alice" "operation.submitted"))
    (committed (record_audit_on "@100000" (record_new "alice" "operation.submitted"))
      (set_observations [mkObservation 1 "a1" "F/prod/n" "F" "@1" 1 "{}" "{}" "@1";
                         mkObservation 2 "a1" "F/prod/n" "F" "@2" 1 "{}" "{}" "@2"] 3
        (set_assignments [mkAssignment "as1" "a1" "op2" "P" "@90000" (Some "@90000") (Some "@100000") ASucceeded "apply" None None 0 None]
          (set_desired [mkDesired 1 "op1" "F/prod/n" "F" "prod" "P" "{}"; mkDesired 2 "op2" "F/prod/n" "F" "prod" "P" "{}"] 3
            (set_operations [new_operation "op1" "prod" "bob" None None "@80000" "[]" true; watch_op "op2" "@90000"]
              (set_agents [mkAgent "a1" "web-1" "prod" "" "@1" None None "healthy" 0 0 "{}" None "pull"] empty_db)))))).

Definition demo_pass : option (PruneStats * Db) := prune_once demo_retention demo_clocks take take demo_forgetting.
Definition demo_forgotten : Db := from_option snd empty_db demo_pass.
Definition demo_stats : PruneStats := from_option fst (mkPruneStats 0 0 0 0 0 0 0) demo_pass.

Lemma demo_pass_run : demo_pass = Some (demo_stats, demo_forgotten).
Proof. vm_compute. reflexivity. Qed.
Lemma demo_observations_ok : NoDup (map ob_id (observations demo_forgetting)).
Proof. apply (bool_decide_unpack _). vm_compute. exact I. Qed.
Lemma demo_desired_ok : NoDup (map ds_id (desired_states demo_forgetting)).
Proof. apply (bool_decide_unpack _). vm_compute. exact I. Qed.

Lemma demo_chain_ok : chain_ok demo_forgetting.
Proof.
  unfold demo_forgetting. unfold committed.
  eapply chain_ok_record; [reflexivity|]. eapply chain_ok_record; [reflexivity|].
  split; [by eexists|constructor|constructor|done|constructor].
Qed.

Lemma retention_pass_witness :
  ∃ stats d', prune_once demo_retention demo_clocks take take demo_forgetting = Some (stats, d') ∧
    stats_total stats + prunable_rows d' = 7.
Proof.
  destruct (retention_pass demo_retention demo_clocks take take demo_forgetting) as (stats & d' & Hrun & Htot & _).
  - exact limits_take.
  - exact limits_take.
  - exact demo_observations_ok.
  - exact demo_desired_ok.
  - exists stats, d'. split; [exact Hrun|exact Htot].
Defined.

Lemma pruned_audit_unverifiable_witness :
  audit_verify_chain demo_forgetting = Some None ∧ audit_verify_chain demo_forgotten = Some (Some 2%Z).
Proof.
  destruct (audit_events demo_forgetting) as [|r rs] eqn:E; [vm_compute in E; discriminate E|].
  destruct (audit_events demo_forgotten) as [|s ss] eqn:E'; [vm_compute in E'; discriminate E'|].
  assert (au_id r = 1%Z) as Hr by (vm_compute in E; injection E as <- _; reflexivity).
  assert (au_id s = 2%Z) as Hs by (vm_compute in E'; injection E' as <- _; reflexivity).
  assert (ss = []) as -> by (vm_compute in E'; injection E' as _ <-; reflexivity).
  rewrite <- Hs. apply (pruned_audit_unverifiable demo_retention demo_clocks take take demo_forgetting demo_stats
    demo_forgotten r s []).
  - exact limits_take.
  - exact limits_take.
  - exact demo_observations_ok.
  - exact demo_desired_ok.
  - exact demo_chain_ok.
  - exact demo_sha_shaped.
  - exact demo_pass_run.
  - rewrite E. left.
  - rewrite E'. intros Hin. apply list_elem_of_singleton in Hin. rewrite Hin, Hs in Hr. discriminate Hr.
  - exact E'.
  - rewrite Hr, Hs. reflexivity.
Defined.

Lemma pruned_watch_list_empty_witness :
  list_desired_state_for_agent "a1" demo_forgetting ≠ Ok [] ∧ list_desired_state_for_agent "a1" demo_forgotten = Ok [].
Proof.
  split; [vm_compute; discriminate|].
  apply (pruned_watch_list_empty demo_retention demo_clocks take take demo_forgetting demo_stats demo_forgotten "a1").
  - exact limits_take.
  - exact limits_take.
  - exact demo_observations_ok.
  - exact demo_desired_ok.
  - exact demo_pass_run.
  - reflexivity.
  - intros a Ha%list_elem_of_singleton _. subst a. split; [reflexivity|]. exists "@100000". split; vm_compute; reflexivity.
Defined.

Definition demo_fresh : Fresh := mkFresh "op3" (λ n, "as9") "@300001" "@300001".

Lemma pruned_approval_succeeds_witness :
  match approve_operation "op1" "carol" "user:carol" None demo_fresh demo_forgetting with
  | Some (Ok (n, _)) => n | _ => 0 end = 1 ∧
  ∃ d'' o'', approve_operation "op1" "carol" "user:carol" None demo_fresh demo_forgotten = Some (Ok (0, d'')) ∧
    assignments d'' = assignments demo_forgotten ∧ find_operation "op1" d'' = Some o'' ∧ op_status o'' = OpSucceeded.
Proof.
  split; [vm_compute; reflexivity|].
  apply (pruned_approval_succeeds demo_retention demo_clocks take take demo_forgetting demo_stats demo_forgotten "op1"
    (new_operation "op1" "prod" "bob" None None "@80000" "[]" true)).
  - exact limits_take.
  - exact limits_take.
  - exact demo_observations_ok.
  - exact demo_desired_ok.
  - apply (bool_decide_unpack _). vm_compute. exact I.
  - exact demo_pass_run.
  - left.
  - reflexivity.
  - reflexivity.
  - reflexivity.
  - intros s Hs Hop. apply elem_of_cons in Hs as [->|Hs]; [vm_compute; reflexivity|].
    apply list_elem_of_singleton in Hs. subst s. discriminate Hop.
Defined.

(** Ten million days, to keep the log for ever. *)
Lemma oversized_age_wipes_witness :
  let d' := from_option snd empty_db (prune_once (mkRetention 10000000 0 0 0 0 0 300) demo_clocks take take demo_forgetting) in
  ¬ (∃ r, r ∈ audit_events d').
Proof.
  intros d' [r Hr].
  apply (oversized_age_wipes (mkRetention 10000000 0 0 0 0 0 300) demo_clocks take take demo_forgetting
    (from_option fst demo_stats (prune_once (mkRetention 10000000 0 0 0 0 0 300) demo_clocks take take demo_forgetting)) d'
    "span out of range") in Hr as [Hr Hlt].
  - apply elem_of_cons in Hr as [->|Hr]; [vm_compute in Hlt; discriminate Hlt|].
    apply list_elem_of_singleton in Hr. subst r. vm_compute in Hlt. discriminate Hlt.
  - exact limits_take.
  - exact limits_take.
  - exact demo_observations_ok.
  - exact demo_desired_ok.
  - vm_compute. reflexivity.
  - vm_compute. split; [reflexivity|discriminate].
  - left. split; vm_compute; reflexivity.
Defined.
