(* ===== verification/RolloutProps.v ===== *)
(** * Properties of the rollout

    The calls of the store and the retention passes as steps of a transition
    system; safety, progress and exclusivity of the dispatch of every reachable
    database, and two behaviours of layers without rows. *)

From stdpp Require Import pretty.
From S2P Require Import Prelude Text Json ApiError Routing Depsort DepOrder Db AuditLog AuditChain Canary.
From S2P Require Import Operations Dispatch Rollout Clock Users Retention.

#[local] Open Scope string_scope.
#[local] Open Scope list_scope.
#[local] Open Scope nat_scope.

Section Steps.
Context `{JsonCodec, Sha256, SqlErrors} {kept : Prop}.

Lemma Inv_create env rb actor sc sm rs mp ra canary f d out d' :
  Inv kept d → create_operation env rb actor sc sm rs mp ra canary f d = Some (Ok (out, d')) → Inv kept d'.
Proof.
  intros Hi Hrun. apply create_run in Hrun
    as (o & news & Hid & Hfresh & Hops & Has & Hnd & Hfr & _ & Hst & _).
  apply (Inv_dispatch (fresh_op f) news d); [done|by eapply no_rows|done|done| | | | |].
  - by apply Hnd, Hi.
  - rewrite Hops, map_app. cbn. rewrite Hid. apply NoDup_app.
    split_and!; [by apply Hi|set_solver|apply NoDup_singleton].
  - rewrite Hops, map_app. cbn. rewrite Hid. set_solver.
  - intros i. rewrite Hops, map_app. set_solver.
  - intros o'. rewrite Hops, elem_of_app, list_elem_of_singleton. intros [Ho'| ->].
    + right. split; [|by exists o']. intros He. apply Hfresh, elem_of_map. eauto.
    + left. split; [done|]. eapply op_inv_fresh; [exact Hfr| |exact Hst].
      intros a. by apply in_op_news.
Qed.

Lemma Inv_approve op approver actor reason f d n d' :
  Inv kept d → approve_operation op approver actor reason f d = Some (Ok (n, d')) → Inv kept d'.
Proof.
  intros Hi Hrun. apply approve_run in Hrun
    as (o & news & st & reason' & fin & Hin & <- & Hst & Hops & Has & Hnd & Hfr & _ & Hcase).
  assert (map op_id (operations d') = map op_id (operations d)) as Hids
    by (rewrite Hops; by apply update_where_column).
  apply (Inv_dispatch (op_id o) news d); [done|eapply no_rows_awaiting; eauto|done|done| | | | |].
  - by apply Hnd, Hi.
  - rewrite Hids. by apply Hi.
  - rewrite Hids. apply elem_of_map. eauto.
  - by rewrite Hids.
  - intros o'. rewrite Hops. intros (o1 & Ho1 & ->)%elem_of_update_where.
    destruct (awaiting_approval (op_id o) o1) eqn:E.
    + apply awaiting_true in E as [E _]. left. cbn. split; [done|].
      eapply op_inv_fresh; [exact Hfr|intros a; by apply in_op_news|].
      destruct Hcase as [[? ->]|[? ->]]; [left; auto|right; auto].
    + right. split; [|by exists o1]. intros He.
      assert (o1 = o) as -> by (eapply (NoDup_map_inj op_id); [apply Hi|done..]).
      by rewrite (proj2 (awaiting_true _ _) (conj eq_refl Hst)) in E.
Qed.

Lemma Inv_reject op rejector actor reason t ta d u d' :
  Inv kept d → reject_operation op rejector actor reason t ta d = Some (Ok (u, d')) → Inv kept d'.
Proof.
  intros Hi Hrun. apply reject_run in Hrun as (Hops & Has & o & Hin & Haw).
  apply awaiting_true in Haw as [<- Hst].
  assert (map op_id (operations d') = map op_id (operations d)) as Hids
    by (rewrite Hops; by apply update_where_column).
  apply (Inv_dispatch (op_id o) [] d);
    [done|eapply no_rows_awaiting; eauto|apply fresh_rows_nil|by rewrite app_nil_r| | | | |].
  - rewrite Has. by apply Hi.
  - rewrite Hids. by apply Hi.
  - rewrite Hids. apply elem_of_map. eauto.
  - by rewrite Hids.
  - intros o'. rewrite Hops. intros (o1 & Ho1 & ->)%elem_of_update_where.
    destruct (awaiting_approval (op_id o) o1) eqn:E.
    + apply awaiting_true in E as [E _]. left. cbn. split; [done|].
      eapply op_inv_fresh; [apply fresh_rows_nil| |left; auto].
      intros a. split; [by intros [? _]|]. by intros ?%elem_of_nil.
    + right. split; [|by exists o1]. intros He.
      assert (o1 = o) as -> by (eapply (NoDup_map_inj op_id); [apply Hi|done..]).
      by rewrite (proj2 (awaiting_true _ _) (conj eq_refl Hst)) in E.
Qed.

Lemma Inv_complete agent asg result extra now audit_now extra_now d u d' :
  Inv kept d →
  complete_assignment_with_extra_audit agent asg result extra now audit_now extra_now d = Some (Ok (u, d')) →
  Inv kept d'.
Proof.
  intros Hi Hrun. apply complete_run in Hrun as (row & json & Hin & _ & _ & Hf & Ho & Ha).
  eapply Inv_same; [exact Ho|exact Ha|]. by apply Inv_completed; [..|destruct (res_status result)|destruct (res_status result)].
Qed.

Lemma Inv_claim_ssh targets now cutoff d r d' :
  Inv kept d → claim_ssh_pending targets now cutoff d = Some (Ok (r, d')) → Inv kept d'.
Proof.
  intros Hi Hrun. destruct (claim_ssh_claims _ _ _ _ _ _ Hi Hrun) as [->|(row & _ & Hc)]; [done|].
  by eapply Inv_claims.
Qed.

End Steps.

(** ** The transition system *)

Section System.
Context `{JsonCodec, Sha256, SqlErrors, Jiff, JiffHours}.

(** One committed call of the store. [call_other] stands for the calls that
    touch neither operations nor assignments. *)
Inductive call : Db → Db → Prop :=
| call_create env rb actor sc sm rs mp ra canary f d out d' :
    create_operation env rb actor sc sm rs mp ra canary f d = Some (Ok (out, d')) → call d d'
| call_approve op approver actor reason f d n d' :
    approve_operation op approver actor reason f d = Some (Ok (n, d')) → call d d'
| call_reject op rejector actor reason t ta d u d' :
    reject_operation op rejector actor reason t ta d = Some (Ok (u, d')) → call d d'
| call_fetch agent t cutoff d out d' :
    fetch_pending_assignments agent t cutoff d = Some (Ok (out, d')) → call d d'
| call_claim_ssh targets t cutoff d r d' :
    claim_ssh_pending targets t cutoff d = Some (Ok (r, d')) → call d d'
| call_revert ids d u d' :
    revert_assignment_claims ids d = Some (Ok (u, d')) → call d d'
| call_complete agent asg result extra t ta te d u d' :
    complete_assignment_with_extra_audit agent asg result extra t ta te d = Some (Ok (u, d')) → call d d'
| call_other d d' :
    operations d' = operations d → assignments d' = assignments d → call d d'.

(** A step of the control plane: a call of the store, or a pass of the
    retention loop, which deletes settled assignments by their age. *)
Inductive step : Db → Db → Prop :=
| step_call d d' : call d d' → step d d'
| step_prune cfg clocks pick_observations pick_desired d stats d' :
    prune_once cfg clocks pick_observations pick_desired d = Some (stats, d') → step d d'.

Definition reachable (d : Db) : Prop := rtc step empty_db d.

(** What a pass deletes: a settled row that is older than the setting. *)
Definition expired (cfg : RetentionConfig) (clocks : PruneClocks) (a : DbAssignment) : bool :=
  (0 <? rc_assignment_terminal_days cfg)%Z && terminal a &&
  match asg_completed_at a with
  | Some t => str_lt t (cutoff_string (pk_assignments clocks) (rc_assignment_terminal_days cfg))
  | None => false
  end.

Lemma prune_rows cfg clocks pick_o pick_d d stats d' :
  prune_once cfg clocks pick_o pick_d d = Some (stats, d') →
  operations d' = operations d ∧ assignments d' = delete_where (expired cfg clocks) (assignments d).
Proof.
  unfold prune_once. intros (x1 & _ & Hrun)%bind_Some. destruct x1 as [? ?]. revert Hrun.
  do 4 (intros (x & _ & Hrun)%bind_Some; destruct x as [? ?]; revert Hrun).
  intros ([gone rows] & Hasg & [= _ <-])%bind_Some. split; [done|]. cbn [assignments delete_tokens set_assignments].
  unfold when_set, delete_older_than_with_filter in Hasg. unfold expired.
  destruct (0 <? rc_assignment_terminal_days cfg)%Z; injection Hasg as _ <-; [done|].
  symmetry. by apply List_filter_all.
Qed.

Lemma expired_terminal cfg clocks a : expired cfg clocks a = true → terminal a = true.
Proof. unfold expired. by destruct (0 <? _)%Z, (terminal a). Qed.

Lemma expired_spec cfg clocks a :
  expired cfg clocks a = true →
  (0 < rc_assignment_terminal_days cfg)%Z ∧ asg_status a ≠ ACancelled ∧
  ∃ t, asg_completed_at a = Some t ∧
    str_lt t (cutoff_string (pk_assignments clocks) (rc_assignment_terminal_days cfg)) = true.
Proof.
  unfold expired. rewrite !andb_true_iff, Z.ltb_lt. intros [[Hd Ht] Hc]. split; [done|]. split.
  - unfold terminal in Ht. intros E. by rewrite E, andb_false_r in Ht.
  - destruct (asg_completed_at a) as [t|]; [by exists t|done].
Qed.

Lemma terminal_settled a : terminal a = true → unsettled (asg_status a) = false.
Proof.
  unfold terminal. rewrite andb_true_iff, !orb_true_iff, !steqb_true. by intros [_ [[-> | ->]| ->]].
Qed.

Lemma prune_keeps cfg clocks a rows :
  a ∈ rows → terminal a = false → a ∈ delete_where (expired cfg clocks) rows.
Proof.
  intros Ha Ht. apply elem_of_delete_where. split; [done|].
  apply not_true_iff_false. intros He%expired_terminal. congruence.
Qed.

Lemma has_unsettled_prune cfg clocks op L :
  has_unsettled op (delete_where (expired cfg clocks) L) ↔ has_unsettled op L.
Proof.
  split; intros (a & [Ha Hop] & Hu); exists a; (split; [split; [|done]|done]).
  - by apply elem_of_delete_where in Ha as [Ha _].
  - apply prune_keeps; [done|]. apply not_true_iff_false. intros Ht%terminal_settled. congruence.
Qed.

Lemma op_inv_prune (kept : Prop) cfg clocks op st L :
  (kept → False) → op_inv kept op st L → op_inv kept op st (delete_where (expired cfg clocks) L).
Proof.
  intros Hk [[G1 G2 G3 G4 G5] Ht Hp].
  assert (∀ a, in_op op (delete_where (expired cfg clocks) L) a → in_op op L a) as Hsub
    by (intros a [[Ha _]%elem_of_delete_where Hop]; done).
  split.
  - split; eauto.
  - destruct st; cbn in Ht |- *; rewrite ?has_unsettled_prune; try done; try (intros a Ha; by apply (Ht a), Hsub).
    + destruct Ht as [Hn _]. split_and!; [done|by intros k; destruct (Hk k)..].
    + destruct Ht as [_ Hall]. split; [by intros k; destruct (Hk k)|]. intros a Ha. by apply Hall, Hsub.
  - intros Hu%has_unsettled_prune. destruct (Hp Hu) as [(a & [Ha Hop] & Hf)|Hall].
    + left. exists a. split; [split; [|done]|done]. apply prune_keeps; [done|].
      apply not_true_iff_false. intros Ht'%terminal_settled. by destruct (asg_status a).
    + right. intros a Ha. by apply Hall, Hsub.
Qed.

Lemma Inv_prune (kept : Prop) cfg clocks pick_o pick_d d stats d' :
  (kept → False) → Inv kept d → prune_once cfg clocks pick_o pick_d d = Some (stats, d') → Inv kept d'.
Proof.
  intros Hk Hi [Ho Ha]%prune_rows. split; rewrite ?Ho, ?Ha; [by apply Hi| | |].
  - by apply NoDup_map_filter, Hi.
  - intros a [Hin _]%elem_of_delete_where. by apply (inv_owner _ Hi).
  - intros o Hin. by apply op_inv_prune, (inv_ops _ Hi).
Qed.

Lemma Inv_empty kept : Inv kept empty_db.
Proof.
  split; cbn; [constructor|constructor| |]; intros x Hx; by apply elem_of_nil in Hx.
Qed.

Lemma Inv_call kept d d' : call d d' → Inv kept d → Inv kept d'.
Proof.
  intros Hs Hi. destruct Hs; [by eapply Inv_create|by eapply Inv_approve|by eapply Inv_reject| |
    by eapply Inv_claim_ssh|by eapply Inv_revert|by eapply Inv_complete|by eapply Inv_same].
  eapply Inv_claims; [by eapply fetch_claims|done].
Qed.

Lemma Inv_step d d' : step d d' → Inv False d → Inv False d'.
Proof. intros []; [by apply Inv_call|]. intros Hi. by eapply Inv_prune. Qed.

Lemma Inv_reachable d : reachable d → Inv False d.
Proof.
  intros Hr. refine (rtc_ind_r (R := step) (Inv False) empty_db (Inv_empty _) _ d Hr).
  intros y z _ Hs. by apply Inv_step.
Qed.

(** Without retention passes the rows that bear a status out are all there. *)
Lemma Inv_called d : rtc call empty_db d → Inv True d.
Proof.
  intros Hr. refine (rtc_ind_r (R := call) (Inv True) empty_db (Inv_empty _) _ d Hr).
  intros y z _ Hs. by apply Inv_call.
Qed.

End System.

Section Lemmas.
Context `{JsonCodec, Sha256, SqlErrors, Jiff, JiffHours} {kept : Prop}.

Lemma claims_settled p f d d' a :
  claims p f d d' → a ∈ assignments d → in_flight (asg_status a) = false → a ∈ assignments d'.
Proof.
  intros Hc Ha Hs. rewrite (cl_rows _ _ _ _ Hc). apply elem_of_update_where. exists a. split; [done|].
  destruct (p a) eqn:E; [|done]. rewrite (cl_before _ _ _ _ Hc a Ha E) in Hs. done.
Qed.

Lemma revert_keeps ids d u d' a :
  revert_assignment_claims ids d = Some (Ok (u, d')) →
  a ∈ assignments d → in_flight (asg_status a) = false → a ∈ assignments d'.
Proof.
  unfold revert_assignment_claims. destruct ids as [|i0 ids]; [by intros [= _ <-]|].
  intros Hrun Ha Hs. refine (tx_for_inv _ (λ _ d, a ∈ assignments d) _ _ _ _ _ _ _ Hrun); [|done].
  intros _ id d1 [] d2 _ Ha1 [= <-]. apply elem_of_update_where. exists a. split; [done|].
  destruct (_ && _) eqn:E; [|done]. apply andb_true_iff in E as [_ E%steqb_true]. by rewrite E in Hs.
Qed.

Lemma roll_up_assignments op t d : assignments (roll_up_operation op t d) = assignments d.
Proof. unfold roll_up_operation. by case_decide. Qed.

(** The rows a completion leaves alone. *)
Lemma complete_confined agent asg result extra t ta te d u d' :
  Inv kept d →
  complete_assignment_with_extra_audit agent asg result extra t ta te d = Some (Ok (u, d')) →
  ∃ row, row ∈ assignments d ∧ asg_id row = asg ∧ asg_agent_id row = agent ∧
    in_flight (asg_status row) = true ∧
    map op_id (operations d') = map op_id (operations d) ∧
    (∀ op', op' ≠ asg_operation_id row → ∀ a, in_op op' (assignments d) a ↔ in_op op' (assignments d') a) ∧
    (∀ a, a ∈ assignments d → unsettled (asg_status a) = false → a ∈ assignments d').
Proof.
  intros Hi Hr. apply complete_run in Hr as (row & json & Hin & Hid & Hag & Hfl & Ho' & Has).
  exists row. split_and!; [done..| |rewrite Has|rewrite Has].
  all: set (st := assignment_status_of_result _) in *; set (op := asg_operation_id row) in *.
  all: assert (∃ o, o ∈ operations d ∧ op_id o = op) as (o & Ho & Hoid)
    by (pose proof (inv_owner _ Hi row Hin) as (o & Ho & He)%elem_of_map; eauto).
  all: pose proof (inv_ops _ Hi o Ho) as Hinv; rewrite Hoid in Hinv.
  all: pose proof (safe_settle row st t json d Hi Hin Hfl ltac:(by destruct (res_status result))
      ltac:(by destruct (res_status result)) (oi_safe _ _ _ Hinv)) as Hs1.
  all: destruct (advance_spec op t _ Hs1) as (Hc2 & _ & _).
  all: pose proof (confined_trans _ _ _ _ (confined_settle row st t json d Hi Hin Hfl) Hc2) as Hc.
  - rewrite Ho'. unfold completed_db. fold op.
    destruct (roll_up_cases op t (advance_phased_apply op t (update_assignments
      (λ a, seqb (asg_id a) (asg_id row)) (set_asg_result st t json) d))) as [[_ ->]|[_ ->]].
    + by rewrite (cf_ops _ _ _ Hc).
    + rewrite update_operations_ids by done. by rewrite (cf_ops _ _ _ Hc).
  - unfold completed_db. fold op. rewrite roll_up_assignments. apply Hc.
  - unfold completed_db. fold op. rewrite roll_up_assignments. apply Hc.
Qed.

(** Rows that no agent is working on, of an operation that is not the one
    being completed, survive every call. *)
Lemma call_keeps d d' a :
  call d d' → Inv kept d → a ∈ assignments d → in_flight (asg_status a) = false →
  unsettled (asg_status a) = false ∨
    (∀ b, in_op (asg_operation_id a) (assignments d) b → in_flight (asg_status b) = false) →
  a ∈ assignments d'.
Proof.
  intros Hs Hi Ha Hf Hor. destruct Hs as [? ? ? ? ? ? ? ? ? ? d out d' Hr|? ? ? ? ? d n d' Hr|? ? ? ? ? ? d u d' Hr
    |agent t cutoff d out d' Hr|? ? ? d r d' Hr|? d u d' Hr|? ? result ? ? ? ? d u d' Hr|d d' _ ->]; [..|done].
  - apply create_run in Hr as (o & news & _ & _ & _ & -> & _). set_solver.
  - apply approve_run in Hr as (o & news & st & ? & ? & _ & _ & _ & _ & -> & _). set_solver.
  - by apply reject_run in Hr as (_ & -> & _).
  - apply fetch_claims in Hr. by eapply claims_settled.
  - apply (claim_ssh_claims (kept := kept)) in Hr as [->|(row & _ & Hc)]; [done| |done]. by eapply claims_settled.
  - by eapply revert_keeps.
  - destruct (complete_confined _ _ _ _ _ _ _ _ _ _ Hi Hr) as (row & Hin & _ & _ & Hfl & _ & Hframe & Hset).
    destruct Hor as [Hu|Hno]; [by apply Hset|].
    apply (Hframe (asg_operation_id a)); [|done]. intros He.
    rewrite (Hno row) in Hfl; [done|]. by rewrite He.
Qed.

(** New rows only appear for operations that had none. *)
Lemma call_rows_back d d' op a :
  call d d' → Inv kept d → in_op op (assignments d') a → (∃ b, in_op op (assignments d) b) →
  op ∈ map op_id (operations d) →
  (∀ b, in_op op (assignments d) b → in_flight (asg_status b) = false) →
  in_op op (assignments d) a.
Proof.
  intros Hs Hi Ha Hex Hop Hno.
  destruct Hs as [? ? ? ? ? ? ? ? ? f d out d' Hr|? ? ? ? ? d n d' Hr|? ? ? ? ? ? d u d' Hr
    |agent t cutoff d out d' Hr|? ? ? d r d' Hr|? d u d' Hr|? ? result ? ? ? ? d u d' Hr|d d' _ Heq];
    [..|by rewrite <- Heq].
  - apply create_run in Hr as (o & news & _ & Hfresh & _ & Has & _ & Hfr & _).
    rewrite Has in Ha. apply in_op_app in Ha as [Ha|[Ha Hao]]; [done|].
    exfalso. apply Hfresh. rewrite <- (fr_op _ _ Hfr a Ha), Hao. done.
  - apply approve_run in Hr as (o & news & st & ? & ? & Ho & Hid & Hst & _ & Has & _ & Hfr & _).
    rewrite Has in Ha. apply in_op_app in Ha as [Ha|[Ha Hao]]; [done|]. exfalso.
    destruct Hex as [b Hb]. apply (no_rows_awaiting (kept := kept) o d Hi Ho (or_introl Hst) b).
    by rewrite Hid, <- (fr_op _ _ Hfr a Ha), Hao.
  - apply reject_run in Hr as (_ & Has & _). by rewrite Has in Ha.
  - apply fetch_claims in Hr. rewrite (cl_rows _ _ _ _ Hr) in Ha. apply in_op_update in Ha as (b & Hb & ->); [|done].
    destruct (fetch_filter agent cutoff b) eqn:E; [|done]. exfalso.
    pose proof (cl_before _ _ _ _ Hr b (proj1 Hb) E) as Hf. by rewrite Hno in Hf.
  - apply (claim_ssh_claims (kept := kept)) in Hr as [->|(row & _ & Hc)]; [done| |done].
    rewrite (cl_rows _ _ _ _ Hc) in Ha. apply in_op_update in Ha as (b & Hb & ->); [|done].
    destruct (seqb _ _) eqn:E; [|done]. exfalso.
    pose proof (cl_before _ _ _ _ Hc b (proj1 Hb) E) as Hf. by rewrite Hno in Hf.
  - assert (∀ x, in_op op (assignments d') x → in_op op (assignments d) x) as Hsub; [|by apply Hsub].
    clear a Ha. unfold revert_assignment_claims in Hr. destruct ids as [|i0 ids]; [by injection Hr as _ <-|].
    refine (tx_for_inv _ (λ _ d', ∀ x, in_op op (assignments d') x → in_op op (assignments d) x) _ _ _ _ _ _ _ Hr); [|done].
    intros _ id d1 [] d2 _ H1' [= <-] x (b & Hb & ->)%in_op_update; [|done].
    destruct (_ && _) eqn:E; [|by apply H1']. exfalso.
    apply andb_true_iff in E as [_ E%steqb_true]. specialize (Hno b (H1' b Hb)). by rewrite E in Hno.
  - destruct (complete_confined _ _ _ _ _ _ _ _ _ _ Hi Hr) as (row & Hin & _ & _ & Hfl & _ & Hframe & _).
    apply (Hframe op); [|done]. intros ->. by rewrite (Hno row) in Hfl.
Qed.

Lemma call_op_ids d d' i :
  call d d' → Inv kept d → i ∈ map op_id (operations d) → i ∈ map op_id (operations d').
Proof.
  intros Hs Hi Hin.
  destruct Hs as [? ? ? ? ? ? ? ? ? f d out d' Hr|? ? ? ? ? d n d' Hr|? ? ? ? ? ? d u d' Hr
    |agent t cutoff d out d' Hr|? ? ? d r d' Hr|? d u d' Hr|? ? result ? ? ? ? d u d' Hr|d d' Heq _];
    [..|by rewrite Heq].
  - apply create_run in Hr as (o & news & _ & _ & -> & _). rewrite map_app. set_solver.
  - apply approve_run in Hr as (o & news & st & ? & ? & _ & _ & _ & -> & _). by rewrite update_where_column.
  - apply reject_run in Hr as (-> & _). by rewrite update_where_column.
  - apply fetch_claims in Hr. by rewrite (ops_running_ids _ _ (cl_ops _ _ _ _ Hr)).
  - apply (claim_ssh_claims (kept := kept)) in Hr as [->|(row & _ & Hc)]; [done| |done].
    by rewrite (ops_running_ids _ _ (cl_ops _ _ _ _ Hc)).
  - unfold revert_assignment_claims in Hr. destruct ids as [|i0 ids]; [by injection Hr as _ <-|].
    refine (tx_for_inv _ (λ _ d', i ∈ map op_id (operations d')) _ _ _ _ _ _ _ Hr); [|done].
    by intros _ id d1 [] d2 _ H1' [= <-].
  - destruct (complete_confined _ _ _ _ _ _ _ _ _ _ Hi Hr) as (row & _ & _ & _ & _ & -> & _). done.
Qed.

(** A step keeps them too, but for the rows a retention pass deletes. *)
Lemma step_keeps d d' a :
  step d d' → Inv kept d → a ∈ assignments d → in_flight (asg_status a) = false →
  unsettled (asg_status a) = false ∨
    (∀ b, in_op (asg_operation_id a) (assignments d) b → in_flight (asg_status b) = false) →
  a ∈ assignments d' ∨
  ∃ cfg clocks pick_o pick_d stats,
    prune_once cfg clocks pick_o pick_d d = Some (stats, d') ∧ expired cfg clocks a = true.
Proof.
  intros [? ? Hc|cfg clocks pick_o pick_d ? stats ? Hp] Hi Ha Hf Hor; [left; by eapply call_keeps|].
  pose proof (prune_rows _ _ _ _ _ _ _ Hp) as [_ Hrows].
  destruct (expired cfg clocks a) eqn:E; [right; by exists cfg, clocks, pick_o, pick_d, stats|].
  left. rewrite Hrows. by apply elem_of_delete_where.
Qed.

Lemma step_rows_back d d' op a :
  step d d' → Inv kept d → in_op op (assignments d') a → (∃ b, in_op op (assignments d) b) →
  op ∈ map op_id (operations d) →
  (∀ b, in_op op (assignments d) b → in_flight (asg_status b) = false) →
  in_op op (assignments d) a.
Proof.
  intros [? ? Hc|? ? ? ? ? ? ? Hp] Hi Ha; [by eapply call_rows_back|]. intros _ _ _.
  apply prune_rows in Hp as [_ Hrows]. destruct Ha as [Ha Hop]. rewrite Hrows in Ha.
  by apply elem_of_delete_where in Ha as [Ha _].
Qed.

Lemma step_op_ids d d' i :
  step d d' → Inv kept d → i ∈ map op_id (operations d) → i ∈ map op_id (operations d').
Proof.
  intros [? ? Hc|? ? ? ? ? ? ? Hp] Hi; [by eapply call_op_ids|]. by apply prune_rows in Hp as [-> _].
Qed.

(** *** Operations that were never dispatched *)

(** All rows of [op] wait for an earlier layer. *)
Definition never_dispatched (op : string) (d : Db) : Prop :=
  op ∈ map op_id (operations d) ∧ (∃ a, in_op op (assignments d) a) ∧
  ∀ a, in_op op (assignments d) a → asg_status a = APendingLayer.

Lemma never_dispatched_step op d d' :
  step d d' → Inv kept d → never_dispatched op d →
  never_dispatched op d' ∧ ∀ a, in_op op (assignments d') a ↔ in_op op (assignments d) a.
Proof.
  intros Hs Hi (Hop & [a0 Ha0] & Hall).
  assert (∀ b, in_op op (assignments d) b → in_flight (asg_status b) = false) as Hno
    by (intros b Hb; by rewrite (Hall b Hb)).
  assert (∀ a, in_op op (assignments d') a ↔ in_op op (assignments d) a) as Heq.
  { intros a. split; intros Ha.
    - eapply step_rows_back; eauto.
    - pose proof (Hall a Ha) as Hst. destruct Ha as [Ha Hao]. split; [|done].
      destruct (step_keeps d d' a Hs Hi Ha) as [?|(cfg & clocks & ? & ? & ? & _ & He)];
        [by rewrite Hst|right; rewrite Hao; apply Hno|done|].
      apply expired_terminal, terminal_settled in He. by rewrite Hst in He. }
  split; [|done]. split_and!.
  - by eapply step_op_ids.
  - exists a0. by apply Heq.
  - intros a Ha. by apply Hall, Heq.
Qed.

(** *** Claims *)

Lemma fetch_envelope_ids agent t cutoff d out d' :
  fetch_pending_assignments agent t cutoff d = Some (Ok (out, d')) →
  map env_assignment_id out ≡ₚ map asg_id (select_where (fetch_filter agent cutoff) (assignments d)).
Proof.
  unfold fetch_pending_assignments. intros Hrun. tx_step Hrun. injection Ha as <- <-.
  tx_step Hrun. injection Ha as <-. apply tx_bind_Ok in Hrun as ([env seen] & d2 & Hloop & Hrun).
  injection Hrun as <- _.
  assert (∀ xs : list AssignmentEnvelope, map env_assignment_id (order_by (λ a b, str_le (env_created_at a) (env_created_at b)) xs) ≡ₚ map env_assignment_id xs) as ->.
  { intros xs. apply Permutation_map, order_by_perm. }
  apply reflexive_eq.
  refine (tx_for_prefix (fetch_step t) (λ pre acc _, map env_assignment_id acc.1 = map asg_id pre)
    _ _ _ _ _ _ _ Hloop); [|done].
  intros pre row [out1 seen1] d3 [out2 seen2] d4 Hp Hstep. cbn in Hstep, Hp.
  tx_step Hstep. tx_step Hstep. injection Hstep as <- _ _. cbn. by rewrite !map_app, Hp.
Qed.

End Lemmas.

(** ** The properties *)

Section Properties.
Context `{JsonCodec, Sha256, SqlErrors, Jiff, JiffHours}.

(** C1: Layer gate. In every database that calls of the store and retention
    passes reach, once an assignment of a
    layer other than 0 left the state [pending_layer] (other than by being
    cancelled), every assignment of the same operation one layer below (that
    is still in the table) has succeeded or been cancelled: none is waiting, in flight, failed or
    partially applied. *)
Theorem rollout_layer_gate d op a b (Hr : reachable d)
    (Ha : in_op op (assignments d) a) (Hb : in_op op (assignments d) b)
    (Hlayer : asg_layer a ≠ 0%Z) (Hstarted : started (asg_status a) = true)
    (Hbelow : asg_layer b = (asg_layer a - 1)%Z) :
  asg_status b = ASucceeded ∨ asg_status b = ACancelled.
Proof.
  pose proof (Inv_reachable d Hr) as Hi.
  assert (∃ o, o ∈ operations d ∧ op_id o = op) as (o & Ho & <-).
  { destruct Ha as [Ha <-]. pose proof (inv_owner _ Hi a Ha) as (o & Ho & He)%elem_of_map. eauto. }
  pose proof (sf_gate _ _ (oi_safe _ _ _ (inv_ops _ Hi o Ho)) a b Ha Hb Hlayer Hstarted Hbelow) as Hp.
  destruct (asg_status b); try done; auto.
Qed.

(** C2: Canary gate. In every database that calls of the store and retention
    passes reach, once a baseline assignment
    (batch 1) of layer 0 left [pending_canary] (other than by being
    cancelled), every canary assignment (batch 0) of layer 0 of the operation
    (that is still in the table) has succeeded; so a failed, partial or unfinished canary keeps the whole
    baseline undispatched. *)
Theorem rollout_canary_gate d op a b (Hr : reachable d)
    (Ha : in_op op (assignments d) a) (Hb : in_op op (assignments d) b)
    (Hbase : asg_layer a = 0%Z ∧ asg_batch a = Some 1%Z)
    (Hrel : asg_status a ≠ APendingCanary ∧ asg_status a ≠ ACancelled)
    (Hcan : asg_layer b = 0%Z ∧ asg_batch b = Some 0%Z) :
  asg_status b = ASucceeded.
Proof.
  pose proof (Inv_reachable d Hr) as Hi.
  assert (∃ o, o ∈ operations d ∧ op_id o = op) as (o & Ho & <-).
  { destruct Ha as [Ha <-]. pose proof (inv_owner _ Hi a Ha) as (o & Ho & He)%elem_of_map. eauto. }
  apply (sf_canary _ _ (oi_safe _ _ _ (inv_ops _ Hi o Ho)) a b); [done..| |done].
  destruct Hrel as [Hr1 Hr2]. by destruct (asg_status a).
Qed.

(** C5: Truthful status. In every database the store's calls and the
    retention passes reach, the status column of an operation agrees with the
    assignments that are left of it: gated or rejected operations have none;
    pending and running ones have an unsettled one; a succeeded one has only
    successes; a failed one only failed or cancelled ones; a partially applied
    one no unsettled one. As long as no retention pass ran, the outcome is
    also borne out by a row: a failed operation has one, a partially applied
    one has one that did not succeed and one that changed something. *)
Theorem operation_status_truthful d o (Hr : reachable d) (Ho : o ∈ operations d) :
  match op_status o with
  | OpPendingApproval | OpRejected => ∀ a, ¬ in_op (op_id o) (assignments d) a
  | OpPending | OpRunning => ∃ a, in_op (op_id o) (assignments d) a ∧ unsettled (asg_status a) = true
  | OpSucceeded => ∀ a, in_op (op_id o) (assignments d) a → asg_status a = ASucceeded
  | OpFailed => ∀ a, in_op (op_id o) (assignments d) a → asg_status a = AFailed ∨ asg_status a = ACancelled
  | OpPartiallyApplied => ∀ a, in_op (op_id o) (assignments d) a → unsettled (asg_status a) = false
  end ∧
  (rtc call empty_db d →
   match op_status o with
   | OpFailed => ∃ a, in_op (op_id o) (assignments d) a
   | OpPartiallyApplied =>
       (∃ a, in_op (op_id o) (assignments d) a ∧ asg_status a ≠ ASucceeded) ∧
       (∃ a, in_op (op_id o) (assignments d) a ∧
             (asg_status a = ASucceeded ∨ asg_status a = APartiallyApplied))
   | _ => True
   end).
Proof.
  split.
  - pose proof (oi_status _ _ _ (inv_ops _ (Inv_reachable d Hr) o Ho)) as Hs.
    destruct (op_status o); try exact Hs; [|apply Hs]. destruct Hs as [Hn _].
    intros a Ha. destruct (unsettled _) eqn:E; [|done]. exfalso. apply Hn. by exists a.
  - intros Hc. pose proof (oi_status _ _ _ (inv_ops _ (Inv_called d Hc) o Ho)) as Hs.
    destruct (op_status o); try done; cbn in Hs; naive_solver.
Qed.

(** C23: No deadlock. In every database that calls of the store and retention
    passes reach, an operation that still
    has an unsettled assignment and has an assignment at layer 0 has one that
    an agent can fetch or is working on. *)
Theorem rollout_no_deadlock d op a a0 (Hr : reachable d)
    (Ha : in_op op (assignments d) a) (Hu : unsettled (asg_status a) = true)
    (Hz0 : in_op op (assignments d) a0) (Hl0 : asg_layer a0 = 0%Z) :
  ∃ b, in_op op (assignments d) b ∧ (asg_status b = APending ∨ asg_status b = AFetched).
Proof.
  pose proof (Inv_reachable d Hr) as Hi.
  assert (∃ o, o ∈ operations d ∧ op_id o = op) as (o & Ho & <-).
  { destruct Ha as [Ha <-]. pose proof (inv_owner _ Hi a Ha) as (o & Ho & He)%elem_of_map. eauto. }
  destruct (oi_progress _ _ _ (inv_ops _ Hi o Ho)) as [(b & Hb & Hf)|Hall]; [by exists a| |].
  - exists b. split; [done|]. destruct (asg_status b); try done; auto.
  - by destruct (Hall a0 Hz0) as [_ Hl].
Qed.

(** C26: A settled assignment (succeeded, partially applied, failed or
    cancelled) is never changed: whatever calls of the store and retention
    passes follow, its row stays as it is, all columns included, unless a
    retention pass deletes it; that pass has the deletion of settled
    assignments switched on, the row is not a cancelled one, and its completion
    is older than the configured age. *)
Theorem settled_rows_final d d' a (Hr : reachable d) (Hs : rtc step d d')
    (Ha : a ∈ assignments d)
    (Hset : asg_status a = ASucceeded ∨ asg_status a = APartiallyApplied ∨
            asg_status a = AFailed ∨ asg_status a = ACancelled) :
  a ∈ assignments d' ∨
  ∃ d1 cfg clocks pick_o pick_d stats d2,
    rtc step d d1 ∧ a ∈ assignments d1 ∧
    prune_once cfg clocks pick_o pick_d d1 = Some (stats, d2) ∧ rtc step d2 d' ∧
    (0 < rc_assignment_terminal_days cfg)%Z ∧ asg_status a ≠ ACancelled ∧
    ∃ t, asg_completed_at a = Some t ∧
      str_lt t (cutoff_string (pk_assignments clocks) (rc_assignment_terminal_days cfg)) = true.
Proof.
  assert (unsettled (asg_status a) = false ∧ in_flight (asg_status a) = false) as [Hu Hf]
    by (destruct Hset as [-> |[-> |[-> | ->]]]; done).
  clear Hset. induction Hs as [d|d d1 d2 Hstep Hs IH]; [by left|].
  destruct (step_keeps d d1 a Hstep (Inv_reachable d Hr) Ha Hf (or_introl Hu))
    as [Ha1|(cfg & clocks & pick_o & pick_d & stats & Hp & He)].
  - destruct IH as [?|(e1 & cfg & clocks & pick_o & pick_d & stats & e2 & H1' & H2')];
      [by eapply rtc_r|done|by left|].
    right. exists e1, cfg, clocks, pick_o, pick_d, stats, e2. split; [by eapply rtc_l|done].
  - right. exists d, cfg, clocks, pick_o, pick_d, stats, d1.
    apply expired_spec in He as (Hd & Hns & Ht). by split_and!.
Qed.

(** A claim is exclusive for the length of the lease: two fetches, by
    whichever agents, return no common assignment when the second one's lease
    cutoff is not later than the time of the first. *)
Theorem fetch_exclusive d agent1 t1 cutoff1 out1 d1 agent2 t2 cutoff2 out2 d2
    (Hr : reachable d)
    (Hx1 : fetch_pending_assignments agent1 t1 cutoff1 d = Some (Ok (out1, d1)))
    (Hx2 : fetch_pending_assignments agent2 t2 cutoff2 d1 = Some (Ok (out2, d2)))
    (Hlease : str_lt t1 cutoff2 = false) :
  ∀ e1 e2, e1 ∈ out1 → e2 ∈ out2 → env_assignment_id e1 ≠ env_assignment_id e2.
Proof.
  pose proof (Inv_reachable d Hr) as Hi. intros e1 e2 He1 He2 Heq.
  assert (∀ agent t cutoff d out d' e,
    fetch_pending_assignments agent t cutoff d = Some (Ok (out, d')) → e ∈ out →
    ∃ a, a ∈ assignments d ∧ fetch_filter agent cutoff a = true ∧ asg_id a = env_assignment_id e) as Hids.
  { intros agent t cutoff x out x' e Hf He. pose proof (fetch_envelope_ids _ _ _ _ _ _ Hf) as Hp.
    assert (env_assignment_id e ∈ map env_assignment_id out) as Hin by (apply elem_of_map; eauto).
    rewrite Hp in Hin. apply elem_of_map in Hin as (a & Ha & ->).
    apply elem_of_List_filter in Ha as [Ha Hm]. eauto. }
  destruct (Hids _ _ _ _ _ _ _ Hx1 He1) as (a1 & Ha1 & Hm1 & Hid1).
  destruct (Hids _ _ _ _ _ _ _ Hx2 He2) as (a2 & Ha2 & Hm2 & Hid2).
  pose proof (fetch_claims _ _ _ _ _ _ Hx1) as Hc.
  rewrite (cl_rows _ _ _ _ Hc) in Ha2. apply elem_of_update_where in Ha2 as (a & Ha & ->).
  assert (a = a1) as ->.
  { apply (asg_id_inj (kept := False) d); [done..|]. rewrite Hid1, Heq, <- Hid2. by destruct (fetch_filter _ _ a). }
  rewrite Hm1 in Hm2. apply andb_true_iff in Hm2 as [_ Hm2]. unfold claimable in Hm2. cbn in Hm2.
  by rewrite Hlease in Hm2.
Qed.

(** An operation none of whose assignments is at layer 0 is never
    dispatched: as long as all its rows are [pending_layer], no sequence of
    calls of the store, however long, changes any of them, and the operation
    stays pending or running for ever. *)
Theorem missing_first_layer_stalls d d' op (Hr : reachable d) (Hs : rtc step d d')
    (Hop : op ∈ map op_id (operations d)) (Hex : ∃ a, in_op op (assignments d) a)
    (Hall : ∀ a, in_op op (assignments d) a → asg_status a = APendingLayer) :
  (∀ a, in_op op (assignments d') a ↔ in_op op (assignments d) a) ∧
  ∀ o, o ∈ operations d' → op_id o = op → op_status o = OpPending ∨ op_status o = OpRunning.
Proof.
  assert (never_dispatched op d) as Hnd by done. clear Hop Hex Hall.
  induction Hs as [d|d d1 d2 Hstep Hs IH].
  - split; [done|]. intros o Ho <-. destruct Hnd as (_ & [a Ha] & Hall).
    pose proof (oi_status _ _ _ (inv_ops _ (Inv_reachable d Hr) o Ho)) as Hst.
    destruct (op_status o); auto; exfalso; cbn in Hst.
    + by apply (Hst a).
    + destruct Hst as [Hst _]. apply Hst. exists a. by rewrite Hall.
    + destruct Hst as [_ Hst]. destruct (Hst a Ha) as [E|E]; by rewrite Hall in E.
    + specialize (Hst a Ha). by rewrite Hall in Hst.
    + by apply (Hst a).
  - destruct (never_dispatched_step op d d1 Hstep (Inv_reachable d Hr) Hnd) as [Hnd' Heq].
    destruct IH as [Hx1 Hx2]; [by eapply rtc_r|done|]. split; [|done].
    intros a. by rewrite Hx1, Heq.
Qed.

End Properties.

(** ** Concrete rollouts *)

(** A codec for the examples: ["leaf"] has no dependencies, ["payload"] is an
    assignment payload, any other text depends on the id it spells. *)
#[local] Instance rollout_codec : JsonCodec := {|
  json_from_str s :=
    if decide (s = "leaf") then Ok (JObject [])
    else if decide (s = "payload") then Ok (JObject [("resources", JArray [])])
    else Ok (JObject [("metadata", JObject [("dependsOn", JArray [JString s])])]);
  json_to_string v := match json_get v "resources" with Some _ => "payload" | None => "leaf" end
|}.
#[local] Existing Instance demo_sha.
(** Hours, written as [tn]. *)
#[local] Instance rollout_jiff : Jiff := {|
  ts_parse s := ok_or (d ← strip_prefix "t" s; parse_unsigned u64_max d) "not a timestamp";
  ts_print t := "t" +:+ pretty t; ts_span s := Ok s; ts_add t s := Ok (t + s)%Z
|}.
#[local] Instance rollout_hours : JiffHours := {|
  ts_span_hours n := Ok n; span_zero := 0%Z; ts_sub t s := Ok (t - s)%Z
|}.
#[local] Instance demo_sql : SqlErrors := {| unique_violation := SqlxOther "unique" |}.

Definition demo_agent (id : string) : DbAgent :=
  mkAgent id id "prod" "" "t0" None None "healthy" 0 0 "{}" None "pull".

Definition demo_db : Db := set_agents [demo_agent "a1"; demo_agent "a2"] empty_db.

Definition demo_fresh (op : string) : Fresh := mkFresh op (λ n, op +:+ pretty n) "t1" "t1".

Definition on_host (id json host : string) : ResourceForRouting :=
  mkRouting id "FileResource" "prod" json id (Some host).

Definition demo_create (op : string) (rs : list ResourceForRouting) (canary : option CanarySpec) :=
  create_operation "prod" "alice" "user:alice" None None rs [] false canary (demo_fresh op).

Definition demo_complete (agent asg : string) (st : AssignmentResultStatus) :=
  complete_assignment_with_extra_audit agent asg (mkResult st None []) None "t2" "t2" "t2".

(** [x] on a1 and [z] on a2 at layer 0, [y] on a1 above [x]; half of each
    layer is the canary. *)
Definition demo_d1 : Db := committed (demo_create "op"
  [on_host "x" "leaf" "a1"; on_host "z" "leaf" "a2"; on_host "y" "x" "a1"] (Some (mkCanary 50 None))) demo_db.
Definition demo_d2 : Db := committed (demo_complete "a1" "op0" RSucceeded) demo_d1.
Definition demo_d3 : Db := committed (demo_complete "a2" "op2" RSucceeded) demo_d2.

(** What the examples look at. *)
Definition rollout_view (d : Db) : list (string * Z * option Z * AssignmentStatus) :=
  map (λ a, (asg_agent_id a, asg_layer a, asg_batch a, asg_status a)) (assignments d).

Example demo_view1 : rollout_view demo_d1 =
  [("a1", 0%Z, Some 0%Z, APending); ("a1", 1%Z, None, APendingLayer); ("a2", 0%Z, Some 1%Z, APendingCanary)].
Proof. vm_compute. reflexivity. Qed.
Example demo_view2 : rollout_view demo_d2 =
  [("a1", 0%Z, Some 0%Z, ASucceeded); ("a1", 1%Z, None, APendingLayer); ("a2", 0%Z, Some 1%Z, APending)].
Proof. vm_compute. reflexivity. Qed.
Example demo_view3 : rollout_view demo_d3 =
  [("a1", 0%Z, Some 0%Z, ASucceeded); ("a1", 1%Z, None, APending); ("a2", 0%Z, Some 1%Z, ASucceeded)].
Proof. vm_compute. reflexivity. Qed.

Lemma reach_db : reachable demo_db.
Proof. eapply rtc_l; [|apply rtc_refl]. by apply step_call, call_other. Qed.

Lemma reach_create d op rs canary :
  reachable d → succeeds (demo_create op rs canary) d = true →
  reachable (committed (demo_create op rs canary) d).
Proof.
  intros Hr [a Ha]%succeeds_committed. eapply rtc_r; [exact Hr|]. eapply step_call, call_create. exact Ha.
Qed.

Lemma demo_complete_step d agent asg st :
  succeeds (demo_complete agent asg st) d = true →
  step d (committed (demo_complete agent asg st) d).
Proof. intros [a Ha]%succeeds_committed. unfold demo_complete in Ha. eapply step_call, call_complete. exact Ha. Qed.

Lemma reach_complete d agent asg st :
  reachable d → succeeds (demo_complete agent asg st) d = true →
  reachable (committed (demo_complete agent asg st) d).
Proof. intros Hr Hs%demo_complete_step. by eapply rtc_r. Qed.

Lemma reach_d1 : reachable demo_d1.
Proof. apply reach_create; [exact reach_db|vm_compute; reflexivity]. Qed.
Lemma reach_d2 : reachable demo_d2.
Proof. apply reach_complete; [exact reach_d1|vm_compute; reflexivity]. Qed.
Lemma reach_d3 : reachable demo_d3.
Proof. apply reach_complete; [exact reach_d2|vm_compute; reflexivity]. Qed.

(** The [i]-th assignment of a database. *)
Definition row (i : nat) (d : Db) : DbAssignment :=
  List.nth i (assignments d) (new_assignment "" "" "" "" "" APending 0 None).

Lemma in_op_row op i d :
  i < length (assignments d) → asg_operation_id (row i d) = op → in_op op (assignments d) (row i d).
Proof.
  intros Hi Hop. split; [|done]. apply list_elem_of_In. by apply nth_In.
Qed.

Ltac demo_row := apply in_op_row; [vm_compute; lia|vm_compute; reflexivity].

Lemma rollout_layer_gate_witness :
  asg_status (row 1 demo_d3) = APending ∧
  (asg_status (row 0 demo_d3) = ASucceeded ∨ asg_status (row 0 demo_d3) = ACancelled).
Proof.
  split; [vm_compute; reflexivity|].
  apply (rollout_layer_gate demo_d3 "op" (row 1 demo_d3) (row 0 demo_d3) reach_d3);
    [demo_row|demo_row|vm_compute; discriminate|vm_compute; reflexivity|vm_compute; reflexivity].
Defined.

Lemma rollout_canary_gate_witness : asg_status (row 0 demo_d2) = ASucceeded.
Proof.
  apply (rollout_canary_gate demo_d2 "op" (row 2 demo_d2) (row 0 demo_d2) reach_d2);
    [demo_row|demo_row|vm_compute; done|vm_compute; done|vm_compute; done].
Defined.

Definition demo_op (d : Db) : DbOperation :=
  List.nth 0 (operations d) (new_operation "" "" "" None None "" "" false).

Lemma operation_status_truthful_witness :
  op_status (demo_op demo_d2) = OpPending ∧
  ∃ a, in_op "op" (assignments demo_d2) a ∧ unsettled (asg_status a) = true.
Proof.
  split; [vm_compute; reflexivity|].
  exact (proj1 (operation_status_truthful demo_d2 (demo_op demo_d2) reach_d2 ltac:(vm_compute; left))).
Defined.

Lemma rollout_no_deadlock_witness :
  ∃ b, in_op "op" (assignments demo_d2) b ∧ (asg_status b = APending ∨ asg_status b = AFetched).
Proof.
  apply (rollout_no_deadlock demo_d2 "op" (row 1 demo_d2) (row 0 demo_d2) reach_d2);
    [demo_row|vm_compute; reflexivity|demo_row|vm_compute; reflexivity].
Defined.

Lemma step_d2_d3 : rtc step demo_d2 demo_d3.
Proof.
  apply rtc_once, demo_complete_step. vm_compute. reflexivity.
Qed.

(** A pass at hour 27 with an age of one day. *)
Definition demo_prune (d : Db) : option (PruneStats * Db) :=
  prune_once (mkRetention 0 0 0 0 1 0 300) (mkPruneClocks 27 27 27 27 27) take take d.
Definition pruned (d : Db) : Db := from_option snd empty_db (demo_prune d).

Lemma pruned_step d : is_Some (demo_prune d) → step d (pruned d).
Proof.
  unfold pruned. intros [[stats d'] E]. rewrite E. unfold demo_prune in E. eapply step_prune. exact E.
Qed.

Lemma step_d2_pruned : rtc step demo_d2 (pruned demo_d3).
Proof. eapply rtc_r; [exact step_d2_d3|]. apply pruned_step. vm_compute. eauto. Qed.

Lemma settled_rows_final_witness :
  rollout_view (pruned demo_d3) = [("a1", 1%Z, None, APending)] ∧
  ∃ t, asg_completed_at (row 0 demo_d2) = Some t.
Proof.
  split; [vm_compute; reflexivity|].
  destruct (settled_rows_final demo_d2 (pruned demo_d3) (row 0 demo_d2) reach_d2 step_d2_pruned)
    as [Hin|(d1 & cfg & clocks & p1 & p2 & stats & d2 & _ & _ & _ & _ & _ & _ & t & Ht & _)].
  - apply in_op_row with (op := "op"); [vm_compute; lia|vm_compute; reflexivity].
  - left. vm_compute. reflexivity.
  - exfalso. vm_compute in Hin. apply list_elem_of_singleton in Hin. discriminate Hin.
  - exists t. exact Ht.
Defined.

(** [x] on a1 and [z] on a2 at layer 0, [y] on a1 above [x]: [x] fails, its
    row is deleted by age while [z] is still in flight, and then [z]
    succeeds. *)
Definition forgotten_db : Db := committed (demo_complete "a2" "op2" RSucceeded)
  (pruned (committed (demo_complete "a1" "op0" RFailed)
    (committed (demo_create "op"
      [on_host "x" "leaf" "a1"; on_host "z" "leaf" "a2"; on_host "y" "x" "a1"] None) demo_db))).

(** A failure that was pruned no longer holds the rollout back: the layer
    above it is dispatched, and the operation ends as if nothing had failed. *)
Example pruned_failure_forgotten :
  reachable forgotten_db ∧
  rollout_view forgotten_db = [("a1", 1%Z, None, APending); ("a2", 0%Z, None, ASucceeded)] ∧
  op_status (demo_op (committed (demo_complete "a1" "op1" RSucceeded) forgotten_db)) = OpSucceeded.
Proof.
  split; [|split; vm_compute; reflexivity].
  apply reach_complete; [|vm_compute; reflexivity].
  eapply rtc_r; [|apply pruned_step; vm_compute; eauto].
  apply reach_complete; [|vm_compute; reflexivity].
  apply reach_create; [exact reach_db|vm_compute; reflexivity].
Qed.

Definition demo_fetch (agent t cutoff : string) := fetch_pending_assignments agent t cutoff.

Lemma fetch_exclusive_witness :
  ∃ out1 d1 out2 d2,
    fetch_pending_assignments "a1" "t5" "t4" demo_d3 = Some (Ok (out1, d1)) ∧ length out1 = 1 ∧
    fetch_pending_assignments "a1" "t6" "t5" d1 = Some (Ok (out2, d2)) ∧
    ∀ e1 e2, e1 ∈ out1 → e2 ∈ out2 → env_assignment_id e1 ≠ env_assignment_id e2.
Proof.
  destruct (succeeds_committed (fetch_pending_assignments "a1" "t5" "t4") demo_d3) as [out1 Ho1];
    [vm_compute; reflexivity|].
  destruct (succeeds_committed (fetch_pending_assignments "a1" "t6" "t5")
    (committed (fetch_pending_assignments "a1" "t5" "t4") demo_d3)) as [out2 Ho2];
    [vm_compute; reflexivity|].
  exists out1, (committed (fetch_pending_assignments "a1" "t5" "t4") demo_d3), out2,
    (committed (fetch_pending_assignments "a1" "t6" "t5")
       (committed (fetch_pending_assignments "a1" "t5" "t4") demo_d3)).
  split; [exact Ho1|]. split; [|split; [exact Ho2|]].
  - apply (f_equal (λ r, match r with Some (Ok (o, _)) => length o | _ => 0 end)) in Ho1.
    rewrite <- Ho1. vm_compute. reflexivity.
  - exact (fetch_exclusive demo_d3 _ _ _ out1 _ _ _ _ out2 _ reach_d3 Ho1 Ho2 eq_refl).
Defined.

(** [x] names a host nobody registered and is unrouted; [y] above it is
    routed, at layer 1. *)
Definition stalled_db : Db := committed (demo_create "op"
  [on_host "x" "leaf" "ghost"; on_host "y" "x" "a1"] None) demo_db.

Lemma reach_stalled : reachable stalled_db.
Proof. apply reach_create; [exact reach_db|vm_compute; reflexivity]. Qed.

Lemma missing_first_layer_stalls_witness :
  (∀ a, in_op "op" (assignments stalled_db) a ↔ in_op "op" (assignments stalled_db) a) ∧
  ∀ o, o ∈ operations stalled_db → op_id o = "op" → op_status o = OpPending ∨ op_status o = OpRunning.
Proof.
  apply (missing_first_layer_stalls stalled_db stalled_db "op" reach_stalled (rtc_refl _ _)).
  - vm_compute. left.
  - exists (row 0 stalled_db). demo_row.
  - intros a [Ha _]. vm_compute in Ha. apply list_elem_of_singleton in Ha as ->. reflexivity.
Defined.

(** [x] on a1 and [z] on a2 at layer 0; [m] above [x] is unrouted, so layer 1
    has no assignment; [y] above [m] is on a1, at layer 2. *)
Definition gap_db : Db := committed (demo_complete "a1" "op0" RFailed)
  (committed (demo_create "op"
    [on_host "x" "leaf" "a1"; on_host "z" "leaf" "a2"; on_host "m" "x" "ghost"; on_host "y" "m" "a1"] None)
    demo_db).

(** A layer without assignments breaks the gate: there is a reachable
    database in which layer 0 of an operation has a failed assignment and one
    that is still pending, and an assignment of layer 2 of the same operation
    is dispatched. *)
Theorem empty_layer_breaks_gate :
  ∃ d a b c, reachable d ∧
    in_op "op" (assignments d) a ∧ in_op "op" (assignments d) b ∧ in_op "op" (assignments d) c ∧
    asg_layer a = 0%Z ∧ asg_status a = AFailed ∧
    asg_layer b = 0%Z ∧ asg_status b = APending ∧
    asg_layer c = 2%Z ∧ asg_status c = APending.
Proof.
  exists gap_db, (row 0 gap_db), (row 2 gap_db), (row 1 gap_db). split.
  - apply reach_complete; [|vm_compute; reflexivity].
    apply reach_create; [exact reach_db|vm_compute; reflexivity].
  - split_and!; try demo_row; vm_compute; reflexivity.
Qed.
