(* ===== verification/Policy.v ===== *)
(** * The policy engine (crates/iac-controlplane/src/policy.rs)

    Which of the configured policies an operation matches. *)

From S2P Require Import Prelude Text.

#[local] Open Scope string_scope.
#[local] Open Scope list_scope.
#[local] Open Scope nat_scope.

Record PolicyMatch := mkPolicyMatch {
  pm_environment : option string;
  pm_kind : option string;
  pm_resource_count_min : option nat
}.

Record Policy := mkPolicy {
  pol_name : string;
  pol_match : PolicyMatch;
  pol_requires_approval : bool;
  pol_approvers : list string;
  pol_rate_limit_per_minute : option Z
}.

(** [PolicyMatch::default()] and [Policy::default()], the derived ones. *)
Definition policy_match_default : PolicyMatch := mkPolicyMatch None None None.
Definition policy_default : Policy := mkPolicy "" policy_match_default false [] None.

Record OperationFacts := mkFacts { facts_environment : string; facts_resources : list string }.

Definition matches (p : Policy) (facts : OperationFacts) : bool :=
  let m := pol_match p in
  let env_off := match pm_environment m with
                 | Some env => negb (bool_decide (env = "*")) && negb (bool_decide (env = facts_environment facts))
                 | None => false
                 end in
  if env_off then false
  else
  let too_few := match pm_resource_count_min m with
                 | Some n => length (facts_resources facts) <? n
                 | None => false
                 end in
  if too_few then false
  else
  let kind_off := match pm_kind m with
                  | Some kind => negb (existsb (λ k, bool_decide (k = kind)) (facts_resources facts))
                  | None => false
                  end in
  if kind_off then false
  else
  if bool_decide (pm_environment m = None) && bool_decide (pm_resource_count_min m = None)
     && bool_decide (pm_kind m = None) then false
  else true.

Definition evaluate (policies : list Policy) (facts : OperationFacts) : list Policy :=
  List.filter (λ p, matches p facts) policies.

(** ** What a match block means *)

(** Every clause that is set holds, and at least one is set. *)
Definition holds (m : PolicyMatch) (facts : OperationFacts) : Prop :=
  (∀ env, pm_environment m = Some env → env = "*" ∨ env = facts_environment facts) ∧
  (∀ n, pm_resource_count_min m = Some n → n ≤ length (facts_resources facts)) ∧
  (∀ k, pm_kind m = Some k → k ∈ facts_resources facts) ∧
  (is_Some (pm_environment m) ∨ is_Some (pm_resource_count_min m) ∨ is_Some (pm_kind m)).

Lemma existsb_kind (kind : string) ks : existsb (λ k, bool_decide (k = kind)) ks = true ↔ kind ∈ ks.
Proof.
  rewrite existsb_exists. setoid_rewrite bool_decide_eq_true. setoid_rewrite <- list_elem_of_In. naive_solver.
Qed.

(** One clause: switched off, it holds; set, it decides. *)
Lemma clause_off {A} (o : option A) (p : A → bool) (P : A → Prop) :
  (∀ a, p a = false ↔ P a) →
  (match o with Some a => p a | None => false end = false ↔ ∀ a, o = Some a → P a).
Proof. intros Hp. destruct o as [a|]; [rewrite Hp; naive_solver|naive_solver]. Qed.

Lemma matches_spec p facts : matches p facts = true ↔ holds (pol_match p) facts.
Proof.
  unfold matches, holds. cbv zeta. generalize (pol_match p) as m. intros m.
  rewrite <- (clause_off (pm_environment m)
    (λ env, negb (bool_decide (env = "*")) && negb (bool_decide (env = facts_environment facts))))
    by (intros env; repeat case_bool_decide; cbn; naive_solver).
  rewrite <- (clause_off (pm_resource_count_min m) (λ n, length (facts_resources facts) <? n))
    by (intros n; destruct (Nat.ltb_spec (length (facts_resources facts)) n); split; (done || lia)).
  rewrite <- (clause_off (pm_kind m) (λ kind, negb (existsb (λ k, bool_decide (k = kind)) (facts_resources facts))))
    by (intros k; rewrite negb_false_iff; apply existsb_kind).
  assert (bool_decide (pm_environment m = None) && bool_decide (pm_resource_count_min m = None)
          && bool_decide (pm_kind m = None) = false ↔
          (is_Some (pm_environment m) ∨ is_Some (pm_resource_count_min m) ∨ is_Some (pm_kind m))) as <-.
  { destruct m as [[?|] [?|] [?|]]; cbn; unfold is_Some; naive_solver. }
  repeat match goal with |- (if ?b then _ else _) = true ↔ _ => destruct b end; naive_solver.
Qed.

(** The matching policies, in configuration order. *)
Lemma elem_of_evaluate p policies facts :
  p ∈ evaluate policies facts ↔ p ∈ policies ∧ holds (pol_match p) facts.
Proof. unfold evaluate. rewrite elem_of_List_filter, matches_spec. done. Qed.
