(* ===== verification/Maintenance.v ===== *)
(** * Maintenance windows (crates/iac-controlplane/src/maintenance.rs)

    Absolute and weekly windows, their parsing, the gate on submissions, the
    counters and the list of misconfigured entries. The time zone database is
    code outside the repository. *)

From S2P Require Import Prelude Text ApiError Db Clock.

#[local] Open Scope string_scope.
#[local] Open Scope list_scope.
#[local] Open Scope Z_scope.

Inductive Weekday := Monday | Tuesday | Wednesday | Thursday | Friday | Saturday | Sunday.
#[export] Instance Weekday_eq_dec : EqDecision Weekday.
Proof. solve_decision. Defined.

(** What the code reads off a zoned timestamp. *)
Record Zoned := mkZoned { z_hour : Z; z_minute : Z; z_second : Z; z_weekday : Weekday }.

(** jiff's time zones: [TimeZone::UTC], [TimeZone::get] and [to_zoned]. *)
Class TimeZones := {
  TimeZone : Type;
  tz_utc : TimeZone;
  tz_get : string → result string TimeZone;
  to_zoned : Z → TimeZone → Zoned
}.

(** The ranges jiff documents for the fields of a civil time. *)
Definition civil (z : Zoned) : Prop :=
  0 ≤ z_hour z < 24 ∧ 0 ≤ z_minute z < 60 ∧ 0 ≤ z_second z < 60.

(** ** Counters *)

Inductive WindowKind := Absolute | Recurring.
#[export] Instance WindowKind_eq_dec : EqDecision WindowKind.
Proof. solve_decision. Defined.
#[export] Instance WindowKind_countable : Countable WindowKind.
Proof.
  refine (inj_countable' (λ k, match k with Absolute => true | Recurring => false end)
                         (λ b : bool, if b then Absolute else Recurring) _). by intros [].
Defined.

Definition as_label (k : WindowKind) : string :=
  match k with Absolute => "absolute" | Recurring => "recurring" end.

Record MaintenanceMetrics := mkMaintMetrics {
  mm_checks_total : Z;
  mm_blocked_by_absolute_total : Z;
  mm_blocked_by_recurring_total : Z;
  mm_bypassed_total : Z;
  mm_misconfigured_windows : Z;
  mm_per_window_blocked : gmap (WindowKind * string) Z
}.

Definition maint_metrics_default : MaintenanceMetrics := mkMaintMetrics 0 0 0 0 0 ∅.

(** [fetch_add(1)] on one of the counters. *)
Definition u64_succ (n : Z) : Z := wrap_unsigned 64 (n + 1).
Definition tick_checks (m : MaintenanceMetrics) : MaintenanceMetrics :=
  mkMaintMetrics (u64_succ (mm_checks_total m)) (mm_blocked_by_absolute_total m)
    (mm_blocked_by_recurring_total m) (mm_bypassed_total m) (mm_misconfigured_windows m) (mm_per_window_blocked m).
Definition tick_absolute (m : MaintenanceMetrics) : MaintenanceMetrics :=
  mkMaintMetrics (mm_checks_total m) (u64_succ (mm_blocked_by_absolute_total m))
    (mm_blocked_by_recurring_total m) (mm_bypassed_total m) (mm_misconfigured_windows m) (mm_per_window_blocked m).
Definition tick_recurring (m : MaintenanceMetrics) : MaintenanceMetrics :=
  mkMaintMetrics (mm_checks_total m) (mm_blocked_by_absolute_total m)
    (u64_succ (mm_blocked_by_recurring_total m)) (mm_bypassed_total m) (mm_misconfigured_windows m)
    (mm_per_window_blocked m).
Definition tick_bypassed (m : MaintenanceMetrics) : MaintenanceMetrics :=
  mkMaintMetrics (mm_checks_total m) (mm_blocked_by_absolute_total m)
    (mm_blocked_by_recurring_total m) (u64_succ (mm_bypassed_total m)) (mm_misconfigured_windows m)
    (mm_per_window_blocked m).
Definition set_misconfigured (n : Z) (m : MaintenanceMetrics) : MaintenanceMetrics :=
  mkMaintMetrics (mm_checks_total m) (mm_blocked_by_absolute_total m)
    (mm_blocked_by_recurring_total m) (mm_bypassed_total m) n (mm_per_window_blocked m).
Definition set_per_window (w : gmap (WindowKind * string) Z) (m : MaintenanceMetrics) : MaintenanceMetrics :=
  mkMaintMetrics (mm_checks_total m) (mm_blocked_by_absolute_total m)
    (mm_blocked_by_recurring_total m) (mm_bypassed_total m) (mm_misconfigured_windows m) w.

Record MaintenanceMetricsSnapshot := mkMaintSnapshot {
  sn_checks_total : Z;
  sn_blocked_total : Z;
  sn_blocked_by_absolute_total : Z;
  sn_blocked_by_recurring_total : Z;
  sn_bypassed_total : Z;
  sn_misconfigured_windows : Z;
  sn_per_window_blocked : list (WindowKind * string * Z)
}.

Definition window_le (a b : WindowKind * string * Z) : bool :=
  match String.compare (as_label a.1.1) (as_label b.1.1) with
  | Lt => true | Gt => false | Eq => str_le a.1.2 b.1.2
  end.

Definition snapshot (m : MaintenanceMetrics) : MaintenanceMetricsSnapshot :=
  mkMaintSnapshot (mm_checks_total m)
    (wrap_unsigned 64 (mm_blocked_by_absolute_total m + mm_blocked_by_recurring_total m))
    (mm_blocked_by_absolute_total m) (mm_blocked_by_recurring_total m) (mm_bypassed_total m)
    (mm_misconfigured_windows m) (order_by window_le (map_to_list (mm_per_window_blocked m))).

(** Counts a block of a registered window; others are not counted. *)
Definition record_window_block (k : WindowKind) (name : string) (m : MaintenanceMetrics) : MaintenanceMetrics :=
  match mm_per_window_blocked m !! (k, name) with
  | Some n => set_per_window (<[(k, name) := u64_succ n]> (mm_per_window_blocked m)) m
  | None => m
  end.

(** ** Windows *)

Record MaintenanceWindow := mkWindow { w_name : string; w_environment : string; w_start : string; w_end : string }.

Record RecurringMaintenanceWindow := mkRecurring {
  rw_name : string;
  rw_environment : string;
  rw_weekdays : list string;
  rw_start_hhmm : string;
  rw_end_hhmm : string;
  rw_timezone : option string
}.

Definition default_env : string := "*".

Definition parse_window `{Jiff} (w : MaintenanceWindow) : ApiResult (Z * Z) :=
  start ← map_err (λ e, Internal [Txt "maintenance_window "; Txt (w_name w); Txt ": bad start: "; Ext e]) (ts_parse (w_start w));
  end_ ← map_err (λ e, Internal [Txt "maintenance_window "; Txt (w_name w); Txt ": bad end: "; Ext e]) (ts_parse (w_end w));
  if end_ <=? start then Err (Internal [Txt "maintenance_window "; Txt (w_name w); Txt ": end must be > start"])
  else Ok (start, end_).

Definition parse_hhmm (s : string) : result message Z :=
  '(h, m) ← ok_or (split_once ":" s) [Txt "expected HH:MM, got "; Dbg s];
  hour ← ok_or (parse_unsigned u32_max h) [Txt "bad hour "; Dbg h];
  minute ← ok_or (parse_unsigned u32_max m) [Txt "bad minute "; Dbg m];
  if (24 <=? hour) || (60 <=? minute) then Err [Txt "HH:MM out of range: "; Dbg s]
  else Ok (hour * 60 + minute).

(** The only character outside ASCII that [to_lowercase] maps into ASCII is
    the Kelvin sign, to [k], which no weekday has. *)
Definition parse_weekday (s : string) : option Weekday :=
  let l := to_ascii_lowercase s in
  if decide (l = "mon") then Some Monday
  else if decide (l = "tue") then Some Tuesday
  else if decide (l = "wed") then Some Wednesday
  else if decide (l = "thu") then Some Thursday
  else if decide (l = "fri") then Some Friday
  else if decide (l = "sat") then Some Saturday
  else if decide (l = "sun") then Some Sunday
  else None.

Section Windows.
Context `{Jiff, TimeZones}.

Record RecurringWindowParsed := mkRecurringParsed {
  rp_start_min : Z;
  rp_end_min : Z;
  rp_days : list Weekday;
  rp_tz : TimeZone
}.

Definition parse_recurring (w : RecurringMaintenanceWindow) : ApiResult RecurringWindowParsed :=
  let bad (m : message) := Internal ([Txt "recurring_maintenance_window "; Txt (rw_name w)] ++ m) in
  start_min ← map_err (λ e, bad ([Txt ": bad start_hhmm: "] ++ e)) (parse_hhmm (rw_start_hhmm w));
  end_min ← map_err (λ e, bad ([Txt ": bad end_hhmm: "] ++ e)) (parse_hhmm (rw_end_hhmm w));
  if end_min <=? start_min then
    Err (bad [Txt ": end_hhmm must be > start_hhmm (split overnight windows into two entries)"])
  else
  days ← try_map (λ d, ok_or (parse_weekday d) (bad [Txt ": unknown weekday "; Dbg d])) (rw_weekdays w);
  tz ← match rw_timezone w with
       | None | Some "" => Ok tz_utc
       | Some name => map_err (λ e, bad [Txt ": unknown timezone "; Dbg name; Txt ": "; Ext e]) (tz_get name)
       end;
  Ok (mkRecurringParsed start_min end_min days tz).

(** The window is skipped for other environments. *)
Definition fences (window_env environment : string) : bool :=
  bool_decide (window_env = "*") || bool_decide (window_env = environment).

(** [end.duration_since(now).as_secs().clamp(1, 24 * 60 * 60)]. *)
Definition absolute_retry (end_ now : Z) : Z := clamp 1 (24 * 60 * 60) (Z.quot (end_ - now) 1000000000).

Fixpoint check (windows : list MaintenanceWindow) (environment : string) (now : Z) (m : MaintenanceMetrics)
    : ApiResult () * MaintenanceMetrics :=
  match windows with
  | [] => (Ok (), m)
  | w :: windows =>
      if negb (fences (w_environment w) environment) then check windows environment now m
      else
      match parse_window w with
      | Err _ => check windows environment now m
      | Ok (start, end_) =>
          if (start <=? now) && (now <? end_) then
            (Err (ServiceUnavailable [Txt "maintenance window "; Dbg (w_name w); Txt " is active until "; Txt (w_end w)]
                    (absolute_retry end_ now)),
             record_window_block Absolute (w_name w) m)
          else check windows environment now m
      end
  end.

(** [retry_minutes as u64 * 60 + (60 - now_zoned.second() as u64)], at least 1. *)
Definition recurring_retry (end_min now_minute second : Z) : Z :=
  Z.max 1 ((end_min - now_minute) * 60 + (60 - second)).

Fixpoint check_recurring (windows : list RecurringMaintenanceWindow) (environment : string) (now : Z)
    (m : MaintenanceMetrics) : ApiResult () * MaintenanceMetrics :=
  match windows with
  | [] => (Ok (), m)
  | w :: windows =>
      if negb (fences (rw_environment w) environment) then check_recurring windows environment now m
      else
      match parse_recurring w with
      | Err _ => check_recurring windows environment now m
      | Ok p =>
          let z := to_zoned now (rp_tz p) in
          let now_minute := z_hour z * 60 + z_minute z in
          if negb (bool_decide (rp_days p = [])) && negb (bool_decide (z_weekday z ∈ rp_days p))
          then check_recurring windows environment now m
          else if (rp_start_min p <=? now_minute) && (now_minute <? rp_end_min p) then
            (Err (ServiceUnavailable
                    [Txt "recurring maintenance window "; Dbg (rw_name w); Txt " is active until ";
                     Txt (rw_end_hhmm w); Txt " "; Txt (default "UTC" (rw_timezone w))]
                    (recurring_retry (rp_end_min p) now_minute (z_second z))),
             record_window_block Recurring (rw_name w) m)
          else check_recurring windows environment now m
      end
  end.

(** ** Configuration *)

Record ConfigIssue := mkIssue { ci_kind : string; ci_name : string; ci_error : message }.

(** The parse functions only produce [Internal]; the other arm is the error's
    [Display]. *)
Definition error_message (display : ApiErr → message) (e : ApiErr) : message :=
  match e with Internal msg => msg | other => display other end.

Definition collect_config_issues (display : ApiErr → message) (absolute : list MaintenanceWindow)
    (recurring : list RecurringMaintenanceWindow) : list ConfigIssue :=
  foldl (λ out w, match parse_window w with
                  | Err e => out ++ [mkIssue "maintenance_window" (w_name w) (error_message display e)]
                  | Ok _ => out
                  end) [] absolute ++
  foldl (λ out w, match parse_recurring w with
                  | Err e => out ++ [mkIssue "recurring_maintenance_window" (rw_name w) (error_message display e)]
                  | Ok _ => out
                  end) [] recurring.

Definition record_misconfigured_count (absolute : list MaintenanceWindow)
    (recurring : list RecurringMaintenanceWindow) (m : MaintenanceMetrics) : MaintenanceMetrics :=
  let count := (count_if (λ w, negb (is_ok (parse_window w))) absolute +
                count_if (λ w, negb (is_ok (parse_recurring w))) recurring)%nat in
  set_misconfigured (Z.of_nat count) m.

(** [entry(k).or_default()]. *)
Definition or_default (k : WindowKind * string) (t : gmap (WindowKind * string) Z) : gmap (WindowKind * string) Z :=
  match t !! k with Some _ => t | None => <[k := 0]> t end.

Definition maint_from_config (absolute : list MaintenanceWindow) (recurring : list RecurringMaintenanceWindow)
    : MaintenanceMetrics :=
  let per_window := foldl (λ t w, if is_ok (parse_window w) then or_default (Absolute, w_name w) t else t) ∅ absolute in
  let per_window := foldl (λ t w, if is_ok (parse_recurring w) then or_default (Recurring, rw_name w) t else t)
                      per_window recurring in
  record_misconfigured_count absolute recurring (set_per_window per_window maint_metrics_default).

End Windows.

(** ** Maintenance windows: what the gate decides

    That the gate closes exactly inside a well-formed window of the
    environment and reports the first such window, how far its advice to
    retry is from the end of the window, and which minute no weekly window
    covers. *)

Section Gate.
Context `{Jiff, TimeZones}.

(** The window is well formed, applies to the environment and contains [now]. *)
Definition active (environment : string) (now : Z) (w : MaintenanceWindow) : bool :=
  fences (w_environment w) environment &&
  match parse_window w with Ok (start, end_) => (start <=? now) && (now <? end_) | Err _ => false end.

Definition on_day (days : list Weekday) (z : Zoned) : bool :=
  bool_decide (days = []) || bool_decide (z_weekday z ∈ days).
Definition minute_of (z : Zoned) : Z := z_hour z * 60 + z_minute z.

Definition active_recurring (environment : string) (now : Z) (w : RecurringMaintenanceWindow) : bool :=
  fences (rw_environment w) environment &&
  match parse_recurring w with
  | Ok p => let z := to_zoned now (rp_tz p) in
            on_day (rp_days p) z && (rp_start_min p <=? minute_of z) && (minute_of z <? rp_end_min p)
  | Err _ => false
  end.

(** Seconds the response of an active window advises to wait. *)
Definition advice (now : Z) (w : MaintenanceWindow) : Z :=
  match parse_window w with Ok (_, end_) => absolute_retry end_ now | Err _ => 0 end.
Definition advice_recurring (now : Z) (w : RecurringMaintenanceWindow) : Z :=
  match parse_recurring w with
  | Ok p => let z := to_zoned now (rp_tz p) in recurring_retry (rp_end_min p) (minute_of z) (z_second z)
  | Err _ => 0
  end.

Definition closed_by (w : MaintenanceWindow) : message :=
  [Txt "maintenance window "; Dbg (w_name w); Txt " is active until "; Txt (w_end w)].
Definition closed_by_recurring (w : RecurringMaintenanceWindow) : message :=
  [Txt "recurring maintenance window "; Dbg (rw_name w); Txt " is active until ";
   Txt (rw_end_hhmm w); Txt " "; Txt (default "UTC" (rw_timezone w))].

Lemma check_find ws env now m :
  check ws env now m =
  match List.find (active env now) ws with
  | Some w => (Err (ServiceUnavailable (closed_by w) (advice now w)), record_window_block Absolute (w_name w) m)
  | None => (Ok (), m)
  end.
Proof.
  induction ws as [|w ws IH]; [done|]. cbn [check List.find].
  destruct (active env now w) eqn:Ha; unfold active, advice in *; destruct (fences (w_environment w) env); cbn [negb andb] in *; try done.
  - destruct (parse_window w) as [[start end_]|]; [|done]. by rewrite Ha.
  - destruct (parse_window w) as [[start end_]|]; [|done]. by rewrite Ha.
Qed.

Lemma check_recurring_find ws env now m :
  check_recurring ws env now m =
  match List.find (active_recurring env now) ws with
  | Some w => (Err (ServiceUnavailable (closed_by_recurring w) (advice_recurring now w)),
               record_window_block Recurring (rw_name w) m)
  | None => (Ok (), m)
  end.
Proof.
  induction ws as [|w ws IH]; [done|]. cbn [check_recurring List.find].
  destruct (active_recurring env now w) eqn:Ha; unfold active_recurring, advice_recurring, on_day, minute_of in *;
    destruct (fences (rw_environment w) env); cbn [negb andb] in *; try done;
    destruct (parse_recurring w) as [p|]; try done; cbv zeta in *;
    destruct (bool_decide (rp_days p = [])), (bool_decide (z_weekday (to_zoned now (rp_tz p)) ∈ rp_days p));
    cbn [negb andb orb] in *; rewrite ?Ha; done.
Qed.

(** ** The counters *)

Lemma record_window_block_lookup k name m key :
  mm_per_window_blocked (record_window_block k name m) !! key =
  if decide (key = (k, name)) then u64_succ <$> mm_per_window_blocked m !! key else mm_per_window_blocked m !! key.
Proof.
  unfold record_window_block. destruct (mm_per_window_blocked m !! (k, name)) eqn:E.
  - cbn. case_decide as Hk; [subst; by rewrite lookup_insert_eq, E|by rewrite lookup_insert_ne by congruence].
  - case_decide as Hk; [subst; by rewrite E|done].
Qed.

Lemma find_none_iff {A} (p : A → bool) xs : List.find p xs = None ↔ ∀ x, x ∈ xs → p x = false.
Proof.
  split.
  - intros Hf x Hx. by apply (find_none p xs Hf), list_elem_of_In.
  - intros Hp. destruct (List.find p xs) as [x|] eqn:E; [|done].
    apply find_some in E as [Hx%list_elem_of_In Ht]. by rewrite (Hp x Hx) in Ht.
Qed.

(** The gate on absolute windows opens exactly when no well-formed
    window of the environment contains the instant; a closed gate answers 503
    for the first window that does, with an advice to retry between one
    second and a day, and counts the block under that window only. *)
Theorem maintenance_gate ws env now m :
  let '(r, m') := check ws env now m in
  (is_ok r = true ↔ ∀ w, w ∈ ws → active env now w = false) ∧
  match r with
  | Ok _ => m' = m
  | Err e => ∃ w, w ∈ ws ∧ active env now w = true ∧ e = ServiceUnavailable (closed_by w) (advice now w) ∧
               1 ≤ advice now w ≤ 24 * 60 * 60 ∧
               ∀ key, mm_per_window_blocked m' !! key =
                 if decide (key = (Absolute, w_name w)) then u64_succ <$> mm_per_window_blocked m !! key
                 else mm_per_window_blocked m !! key
  end.
Proof.
  rewrite check_find. destruct (List.find (active env now) ws) as [w|] eqn:Ef; cbn [is_ok].
  - apply find_some in Ef as [Hw%list_elem_of_In Ha]. split; [split; [done|]|].
    { intros Hall. by rewrite (Hall w Hw) in Ha. }
    exists w. split_and!; [done|done|done|..|intros key; apply record_window_block_lookup].
    all: unfold active, advice in *; destruct (parse_window w) as [[s e]|]; [|by rewrite andb_false_r in Ha].
    all: unfold absolute_retry; pose proof (clamp_range 1 (24 * 60 * 60) (Z.quot (e - now) 1000000000)); lia.
  - split; [|done]. split; [|done]. intros _. by apply find_none_iff.
Qed.

(** ** Retry advice *)

(** Seconds from the zoned time to the end of the window, on a day without a
    change of offset. *)
Definition remaining (end_min : Z) (z : Zoned) : Z := end_min * 60 - (minute_of z * 60 + z_second z).

(** The advice of a weekly window is sixty seconds too long. *)
Lemma recurring_retry_overshoots end_min z :
  civil z → minute_of z < end_min → recurring_retry end_min (minute_of z) (z_second z) = remaining end_min z + 60.
Proof. unfold civil, recurring_retry, remaining. lia. Qed.

(** ** The last minute of the day *)

Lemma parse_hhmm_range s n : parse_hhmm s = Ok n → n ≤ 23 * 60 + 59.
Proof.
  unfold parse_hhmm. destruct (split_once ":" s) as [[h mm]|]; [|done]. cbn.
  destruct (parse_unsigned u32_max h) as [a|], (parse_unsigned u32_max mm) as [b|]; try done. cbn.
  destruct (Z.leb_spec 24 a), (Z.leb_spec 60 b); cbn; try done. intros [= <-]. lia.
Qed.

Lemma parse_recurring_end w p : parse_recurring w = Ok p → rp_end_min p ≤ 23 * 60 + 59.
Proof.
  unfold parse_recurring. intros Hp. destruct (parse_hhmm (rw_start_hhmm w)) as [s|]; [|done]. cbn in Hp.
  destruct (parse_hhmm (rw_end_hhmm w)) as [e|] eqn:Ee; [|done]. cbn in Hp.
  destruct (e <=? s); [done|]. inv_result. cbn. by eapply parse_hhmm_range.
Qed.

(** No weekly window covers the last minute of its day: whatever windows
    are configured, the gate on weekly windows is open while their zones read
    23:59, so an overnight freeze split into two windows leaks. *)
Theorem last_minute_open ws env now m :
  (∀ w p, w ∈ ws → parse_recurring w = Ok p →
     z_hour (to_zoned now (rp_tz p)) = 23 ∧ z_minute (to_zoned now (rp_tz p)) = 59) →
  check_recurring ws env now m = (Ok (), m).
Proof.
  intros Hz. rewrite check_recurring_find. rewrite (proj2 (find_none_iff _ ws)); [done|]. intros w Hw.
  unfold active_recurring, minute_of. destruct (parse_recurring w) as [p|] eqn:Ep; [|by rewrite andb_false_r].
  destruct (Hz w p Hw Ep) as [-> ->]. apply parse_recurring_end in Ep.
  rewrite (proj2 (Z.ltb_ge _ (rp_end_min p))) by lia. by rewrite !andb_false_r.
Qed.

(** ** The list of issues *)

Lemma issues_fold {A B} (bad : A → option B) ws :
  foldl (λ out w, match bad w with Some i => out ++ [i] | None => out end) [] ws = omap bad ws.
Proof.
  assert (∀ out, foldl (λ out w, match bad w with Some i => out ++ [i] | None => out end) out ws = out ++ omap bad ws) as ->;
    [|done].
  induction ws as [|w ws IH]; intros out; cbn; [by rewrite app_nil_r|].
  rewrite IH. destruct (bad w); [by rewrite <- app_assoc|done].
Qed.

Lemma length_omap_count {A B} (f : A → option B) (p : A → bool) ws :
  (∀ w, p w = bool_decide (is_Some (f w))) → length (omap f ws) = count_if p ws.
Proof.
  intros Hp. induction ws as [|w ws IH]; [done|]. rewrite count_if_cons, Hp. cbn.
  destruct (f w); cbn; by rewrite IH.
Qed.

Lemma foldl_pointwise {A B} (f g : B → A → B) b xs : (∀ b a, f b a = g b a) → foldl f b xs = foldl g b xs.
Proof. intros Hfg. revert b. induction xs as [|x xs IH]; intros b; [done|]. cbn. by rewrite Hfg. Qed.

(** The gauge of misconfigured windows is the number of listed issues. *)
Lemma issues_counted display absolute recurring :
  mm_misconfigured_windows (maint_from_config absolute recurring) =
  Z.of_nat (length (collect_config_issues display absolute recurring)).
Proof.
  unfold maint_from_config, record_misconfigured_count, collect_config_issues. cbn. f_equal.
  rewrite length_app.
  pose (bad w := match parse_window w with
                 | Err e => Some (mkIssue "maintenance_window" (w_name w) (error_message display e)) | Ok _ => None end).
  pose (badr w := match parse_recurring w with
                  | Err e => Some (mkIssue "recurring_maintenance_window" (rw_name w) (error_message display e)) | Ok _ => None end).
  rewrite <- (length_omap_count bad (λ w, negb (is_ok (parse_window w))) absolute)
    by (intros w; unfold bad; by destruct (parse_window w)).
  rewrite <- (length_omap_count badr (λ w, negb (is_ok (parse_recurring w))) recurring)
    by (intros w; unfold badr; by destruct (parse_recurring w)).
  rewrite <- !issues_fold. f_equal; f_equal; apply foldl_pointwise; intros out w;
    unfold bad, badr; [by destruct (parse_window w)|by destruct (parse_recurring w)].
Qed.

End Gate.

(** ** At concrete inputs *)

(** UTC only, a day of 86400 seconds, and time stamps that are the numbers of
    seconds since a Monday. *)
Definition demo_zoned (t : Z) : Zoned :=
  let s := t `mod` 86400 in
  mkZoned (s / 3600) ((s / 60) `mod` 60) (s `mod` 60)
    (default Monday ([Monday; Tuesday; Wednesday; Thursday; Friday; Saturday; Sunday] !! Z.to_nat ((t / 86400) `mod` 7))).
Definition demo_zones : TimeZones := {|
  TimeZone := ();
  tz_utc := ();
  tz_get _ := Err "unknown";
  to_zoned t _ := demo_zoned t
|}.

Definition overnight : list RecurringMaintenanceWindow :=
  [mkRecurring "late" "prod" [] "22:00" "23:59" None; mkRecurring "early" "prod" [] "00:00" "02:00" None].

Lemma last_minute_open_witness :
  (@check_recurring demo_zones overnight "prod" (23 * 3600 + 58 * 60) maint_metrics_default).1 =
    Err (ServiceUnavailable (closed_by_recurring (mkRecurring "late" "prod" [] "22:00" "23:59" None)) 120) ∧
  @check_recurring demo_zones overnight "prod" (23 * 3600 + 59 * 60 + 30) maint_metrics_default = (Ok (), maint_metrics_default).
Proof.
  split; [vm_compute; reflexivity|].
  apply (@last_minute_open demo_zones overnight "prod" (23 * 3600 + 59 * 60 + 30)). intros w p _ _. destruct (rp_tz p). vm_compute. split; reflexivity.
Defined.

Lemma demo_absolute_gate :
  check (H := demo_jiff) [mkWindow "freeze" "prod" "@10" "@2000000000010" ] "prod" 10
    (maint_from_config (H := demo_jiff) (H0 := demo_zones) [mkWindow "freeze" "prod" "@10" "@2000000000010"] [])
  = (Err (ServiceUnavailable (closed_by (mkWindow "freeze" "prod" "@10" "@2000000000010")) 2000),
     mkMaintMetrics 0 0 0 0 0 {[(Absolute, "freeze") := 1]}).
Proof. vm_compute. reflexivity. Qed.
