(* ===== verification/Secrets.v ===== *)
(** * Secret references (crates/iac-controlplane/src/secrets.rs)

    The [${secret://resolver/path#field}] tokens: their parsing, the scan of a
    string, the backends, and the substitution over a JSON document by way of
    JSON pointers. What the backends ask of the outside (environment, HTTP,
    file system, the sops process) is a parameter, and so is serde_json's
    pointer access. *)

From stdpp Require Import pretty.
From S2P Require Import Prelude Text Json ApiError.

#[local] Open Scope string_scope.
#[local] Open Scope list_scope.
#[local] Open Scope nat_scope.

Record SecretRef := mkSecretRef { sr_resolver : string; sr_path : string; sr_field : option string }.

#[export] Instance SecretRef_eq_dec : EqDecision SecretRef.
Proof. solve_decision. Defined.

Definition SECRET_OPEN : string := "${secret://".

Definition parse_secret_ref (token : string) : option SecretRef :=
  inner ← strip_prefix SECRET_OPEN token;
  inner ← strip_suffix "}" inner;
  if bool_decide (inner = "") then None
  else
  let '(path_part, field) :=
    match split_once "#" inner with
    | Some (a, b) => if bool_decide (b = "") then (inner, None) else (a, Some b)
    | None => (inner, None)
    end in
  '(resolver, path) ← split_once "/" path_part;
  if bool_decide (resolver = "") || bool_decide (path = "") then None
  else Some (mkSecretRef resolver path field).

(** The scan from byte [i] on; every round moves on by a byte at least. *)
Fixpoint find_refs_loop (fuel i : nat) (s : string) : list (nat * nat * SecretRef) :=
  match fuel with
  | O => []
  | S fuel =>
      if i + 11 <=? String.length s then
        if bool_decide (String.substring i 11 s = SECRET_OPEN) then
          match split_once "}" (str_from (i + 11) s) with
          | Some (before, _) =>
              let end_ := i + 11 + String.length before + 1 in
              match parse_secret_ref (String.substring i (end_ - i) s) with
              | Some sref => (i, end_, sref) :: find_refs_loop fuel end_ s
              | None => find_refs_loop fuel (i + 1) s
              end
          | None => find_refs_loop fuel (i + 1) s
          end
        else find_refs_loop fuel (i + 1) s
      else []
  end.

Definition find_refs_in_string (s : string) : list (nat * nat * SecretRef) :=
  find_refs_loop (S (String.length s)) 0 s.

(** ** Backends *)

(** What the backends draw from the outside: an environment variable, the
    response of a GET with its status and body, the JSON of a body, the
    canonical form of a path as its components, and a run of sops (exit code,
    whether it succeeded, and its two streams). *)
Inductive SopsRun := SopsTimeout | SopsSpawn (e : string) | SopsExit (ok : bool) (code out err : string).

Class Outside := {
  env_var : string → option string;
  http_get : string → string → result string (Z * string);
  body_json : string → result string Json;
  canonicalize : string → result string (list string);
  run_sops : string → list string → SopsRun;
  from_utf8 : string → option string
}.

Record VaultResolver := mkVault { va_addr : string; va_token : string }.
Record SopsResolver := mkSops { so_base_dir : list string; so_binary : string }.
Inductive Resolver := REnv | RVault (v : VaultResolver) | RSops (s : SopsResolver).

Definition resolver_name (r : Resolver) : string :=
  match r with REnv => "env" | RVault _ => "vault" | RSops _ => "sops" end.

(** [s.trim_end_matches('/')]. *)
Definition trim_end_slash (s : string) : string :=
  of_chars (reverse (drop_while (λ c, (c =? 47)%N) (reverse (chars s)))).

Definition vault_new (addr token : string) (allow_insecure : bool) : ApiResult VaultResolver :=
  let addr := trim_end_slash addr in
  if negb allow_insecure && negb (starts_with "https://" addr) then
    Err (BadRequest [Txt "vault addr "; Dbg addr; Txt " must use https:// — Vault tokens travel plaintext over HTTP. Use VaultResolver::new_allow_insecure for test/dev only."])
  else Ok (mkVault addr token).

Definition short_kind (v : Json) : string :=
  match v with
  | JNull => "null" | JBool _ => "bool" | JNumber _ => "number"
  | JString _ => "string" | JArray _ => "array" | JObject _ => "object"
  end.

Section Backends.
Context `{Outside}.

Definition env_resolve (path : string) (field : option string) : ApiResult string :=
  match field with
  | Some _ => Err (BadRequest [Txt "env resolver does not support `#field`; env vars are flat strings"])
  | None => ok_or (env_var path) (BadRequest [Txt "env var "; Dbg path; Txt " not set"])
  end.

Definition vault_resolve (r : VaultResolver) (path : string) (field : option string) : ApiResult string :=
  field ← ok_or field (BadRequest [Txt "vault resolver requires `#field`; KV v2 returns a JSON object"]);
  let url := va_addr r +:+ "/v1/" +:+ path in
  '(status, text) ← map_err (λ e, Internal [Txt "vault GET "; Txt url; Txt " failed: "; Ext e]) (http_get url (va_token r));
  if negb ((200 <=? status) && (status <? 300))%Z then
    Err (BadRequest [Txt "vault GET "; Txt path; Txt ": HTTP "; Dec status; Txt ": "; Txt text])
  else
  body ← map_err (λ e, Internal [Txt "vault parse JSON: "; Ext e]) (body_json text);
  val ← ok_or (d ← json_get body "data"; d ← json_get d "data"; json_get d field)
          (BadRequest [Txt "vault "; Txt path; Txt ": field "; Dbg field; Txt " not present at .data.data"]);
  match val with
  | JString s => Ok s
  | other => Err (BadRequest [Txt "vault "; Txt path; Txt "#"; Txt field; Txt ": expected string, got "; Txt (short_kind other)])
  end.

Definition sops_new (base_dir binary : string) : ApiResult SopsResolver :=
  canonical ← map_err (λ e, BadRequest [Txt "sops base_dir "; Dbg base_dir; Txt " not found / not readable: "; Ext e])
                (canonicalize base_dir);
  Ok (mkSops canonical binary).

(** The text of a path of components. *)
Definition path_text (p : list string) : string := "/" +:+ str_join "/" p.

(** [base.join(path)] of a relative path. *)
Definition path_join (base : list string) (path : string) : string :=
  path_text base +:+ (if bool_decide (base = []) then "" else "/") +:+ path.

Definition resolve_sandboxed_path (r : SopsResolver) (path : string) : ApiResult (list string) :=
  if existsb (N.eqb 0) (chars path) then Err (BadRequest [Txt "sops path contains NUL byte"])
  else if starts_with "/" path then
    Err (BadRequest [Txt "sops path "; Dbg path; Txt " must be relative to base_dir, not absolute"])
  else
  let joined := path_join (so_base_dir r) path in
  canonical ← map_err (λ e, BadRequest [Txt "sops file "; Dbg path; Txt ": cannot resolve "; Txt joined; Txt " ("; Ext e; Txt ")"])
                (canonicalize joined);
  if negb (bool_decide (so_base_dir r `prefix_of` canonical)) then
    Err (BadRequest [Txt "sops path "; Dbg path; Txt " escapes base_dir "; Txt (path_text (so_base_dir r));
                     Txt " (resolved to "; Txt (path_text canonical); Txt ")"])
  else Ok canonical.

(** [field.replace('"', "\\\"")]: character 34 becomes 92, 34. *)
Fixpoint escape_quotes (s : string) : string :=
  match s with
  | "" => ""
  | String c s =>
      if (byte_of c =? 34)%N then String (Ascii.ascii_of_N 92) (String c (escape_quotes s))
      else String c (escape_quotes s)
  end.

(** A string of one quote. *)
Definition quote : string := String (Ascii.ascii_of_N 34) "".

Definition sops_args (abs : list string) (field : option string) : list string :=
  ["--decrypt"] ++
  match field with Some f => ["--extract"; "[" +:+ quote +:+ escape_quotes f +:+ quote +:+ "]"] | None => [] end ++
  [path_text abs].

Definition newline : string := String (Ascii.ascii_of_N 10) "".

Definition sops_resolve (r : SopsResolver) (path : string) (field : option string) : ApiResult string :=
  abs ← resolve_sandboxed_path r path;
  match run_sops (so_binary r) (sops_args abs field) with
  | SopsTimeout => Err (Internal [Txt "sops "; Txt path; Txt ": timed out after 10s — keys missing / agent stuck?"])
  | SopsSpawn e => Err (Internal [Txt "sops "; Txt path; Txt ": failed to spawn "; Dbg (so_binary r); Txt ": "; Ext e])
  | SopsExit false code _ err => Err (BadRequest [Txt "sops "; Txt path; Txt ": exit "; Txt code; Txt ": "; Txt (trim err)])
  | SopsExit true _ out _ =>
      s ← ok_or (from_utf8 out) (BadRequest [Txt "sops "; Txt path; Txt ": decrypted output is not valid UTF-8"]);
      Ok (match strip_suffix newline s with Some s' => s' | None => s end)
  end.

Definition resolver_resolve (r : Resolver) (path : string) (field : option string) : ApiResult string :=
  match r with
  | REnv => env_resolve path field
  | RVault v => vault_resolve v path field
  | RSops s => sops_resolve s path field
  end.

(** ** The registry *)

Abbreviation SecretRegistry := (gmap string Resolver).

Definition register (r : Resolver) (reg : SecretRegistry) : SecretRegistry := <[resolver_name r := r]> reg.

(** [registered] renders the known schemes, in the order of the hash map. *)
Definition resolve_ref (registered : SecretRegistry → string) (reg : SecretRegistry) (sref : SecretRef) : ApiResult string :=
  backend ← ok_or (reg !! sr_resolver sref)
    (BadRequest [Txt "unknown secret resolver "; Dbg (sr_resolver sref); Txt " (registered: "; Ext (registered reg); Txt ")"]);
  resolver_resolve backend (sr_path sref) (sr_field sref).

End Backends.

(** ** Pointers *)

(** serde_json's [Value::pointer], and the value after
    [*value.pointer_mut(p).unwrap() = x]. *)
Class JsonPointer := {
  pointer : Json → string → option Json;
  pointer_set : Json → string → Json → Json
}.

(** [s.replace(c, rep)] for one character. *)
Fixpoint replace_char (c : Ascii.ascii) (rep s : string) : string :=
  match s with
  | "" => ""
  | String a s => if Ascii.eqb a c then rep +:+ replace_char c rep s else String a (replace_char c rep s)
  end.

Definition slash : Ascii.ascii := Ascii.ascii_of_N 47.
Definition tilde : Ascii.ascii := Ascii.ascii_of_N 126.

(** [k.replace('~', "~0").replace('/', "~1")]. *)
Definition escape_key (k : string) : string :=
  replace_char slash "~1" (replace_char tilde "~0" k).

Fixpoint walk (v : Json) (prefix : string) : list string :=
  match v with
  | JString _ => [prefix]
  | JObject m =>
      (fix members (m : list (string * Json)) : list string :=
         match m with
         | [] => []
         | (k, val) :: m => walk val (prefix +:+ "/" +:+ escape_key k) ++ members m
         end) m
  | JArray arr =>
      (fix elements (i : nat) (arr : list Json) : list string :=
         match arr with
         | [] => []
         | val :: arr => walk val (prefix +:+ "/" +:+ pretty i) ++ elements (S i) arr
         end) 0 arr
  | _ => []
  end.

Definition collect_string_pointers (v : Json) : list string := walk v "".

(** ** Substitution *)

Section Substitute.
Context `{JsonPointer} (resolve : SecretRef → ApiResult string).

(** The loop over the references of one string. *)
Definition fill_refs (original : string) (refs : list (nat * nat * SecretRef)) : ApiResult string :=
  '(out, cursor) ← try_fold (λ '(out, cursor) '(start, end_, sref),
       resolved ← resolve sref;
       Ok (out +:+ String.substring cursor (start - cursor) original +:+ resolved, end_)) ("", 0) refs;
  Ok (out +:+ str_from cursor original).

(** The body of the loop over the pointers; the [u32] count is kept unbounded. *)
Definition substitute_step (acc : Json * nat * list string) (ptr : string) : ApiResult (Json * nat * list string) :=
  let '(value, count, secret_pointers) := acc in
  match pointer value ptr with
  | Some (JString original) =>
      let refs := find_refs_in_string original in
      match refs with
      | [] => Ok (value, count, secret_pointers)
      | _ =>
          out ← fill_refs original refs;
          Ok (match pointer value ptr with Some _ => pointer_set value ptr (JString out) | None => value end,
              count + length refs, secret_pointers ++ [ptr])
      end
  | _ => Ok (value, count, secret_pointers)
  end.

Definition substitute_with_pointers (value : Json) : ApiResult (Json * nat * list string) :=
  try_fold substitute_step (value, 0, []) (collect_string_pointers value).

Definition substitute_in_value (value : Json) : ApiResult (Json * nat) :=
  '(value, count, _) ← substitute_with_pointers value; Ok (value, count).

End Substitute.
