(* ===== verification/SecretsProps.v ===== *)
(** * Secret references: what substitution does

    The substitution by pointers against the recursion over the document it
    stands for, the scan of a string, the round trip of a token, and the
    sandbox of the sops backend. *)

From stdpp Require Import pretty.
From S2P Require Import Prelude Text Json ApiError Secrets.

#[local] Open Scope string_scope.
#[local] Open Scope list_scope.
#[local] Open Scope nat_scope.

#[local] Arguments find_refs_in_string : simpl never.
#[local] Arguments fill_refs : simpl never.

(** ** Induction over documents *)

Section JsonInd.
Context (P : Json → Prop) (Hnull : P JNull) (Hbool : ∀ b, P (JBool b)) (Hnum : ∀ n, P (JNumber n))
  (Hstr : ∀ s, P (JString s)) (Harr : ∀ xs, Forall P xs → P (JArray xs))
  (Hobj : ∀ m, Forall (λ kv, P kv.2) m → P (JObject m)).

Fixpoint json_induction (v : Json) : P v :=
  match v with
  | JNull => Hnull
  | JBool b => Hbool b
  | JNumber n => Hnum n
  | JString s => Hstr s
  | JArray xs => Harr xs ((fix go (xs : list Json) : Forall P xs :=
      match xs with [] => Forall_nil_2 P | x :: xs => Forall_cons_2 P x xs (json_induction x) (go xs) end) xs)
  | JObject m => Hobj m ((fix go (m : list (string * Json)) : Forall (λ kv, P kv.2) m :=
      match m with [] => Forall_nil_2 _ | kv :: m => Forall_cons_2 (λ kv, P kv.2) kv m (json_induction kv.2) (go m) end) m)
  end.
End JsonInd.

(** Every object of a document has its keys once, as a [BTreeMap] has. *)
Fixpoint json_wf (v : Json) : Prop :=
  match v with
  | JArray xs => (fix go (xs : list Json) : Prop := match xs with [] => True | x :: xs => json_wf x ∧ go xs end) xs
  | JObject m => NoDup (map fst m) ∧
      (fix go (m : list (string * Json)) : Prop := match m with [] => True | kv :: m => json_wf kv.2 ∧ go m end) m
  | _ => True
  end.

Lemma json_wf_array xs : json_wf (JArray xs) ↔ Forall json_wf xs.
Proof. induction xs as [|x xs IH]; [by split|]. rewrite Forall_cons, <- IH. done. Qed.

Lemma json_wf_object m : json_wf (JObject m) ↔ NoDup (map fst m) ∧ Forall (λ kv, json_wf kv.2) m.
Proof.
  cbn. apply and_iff_compat_l. induction m as [|kv m IH]; [by split|]. rewrite Forall_cons, <- IH. done.
Qed.

(** ** The interface to serde_json's pointers *)

(** A pointer below a node: empty, or one more step. *)
Definition sub_pointer (p : string) : Prop := p = "" ∨ ∃ r, p = "/" +:+ r.

Definition member_pointer (k p : string) : string := "/" +:+ escape_key k +:+ p.
Definition element_pointer (i : nat) (p : string) : string := "/" +:+ pretty i +:+ p.

(** Replaces the member [k] in place. *)
Definition assoc_set {V} (k : string) (x : V) (m : list (string * V)) : list (string * V) :=
  map (λ kv, if decide (k = kv.1) then (kv.1, x) else kv) m.

(** The documented behaviour of [pointer] and [pointer_mut] (RFC 6901). *)
Class PointerLaws `{JsonPointer} : Prop := {
  ptr_root v : pointer v "" = Some v;
  ptr_set_root v x : pointer_set v "" x = x;
  ptr_member m k p : sub_pointer p → pointer (JObject m) (member_pointer k p) = assoc_get k m ≫= λ v, pointer v p;
  ptr_set_member m k v p x : sub_pointer p → assoc_get k m = Some v → is_Some (pointer v p) →
    pointer_set (JObject m) (member_pointer k p) x = JObject (assoc_set k (pointer_set v p x) m);
  ptr_element xs i p : sub_pointer p → pointer (JArray xs) (element_pointer i p) = xs !! i ≫= λ v, pointer v p;
  ptr_set_element xs i v p x : sub_pointer p → xs !! i = Some v → is_Some (pointer v p) →
    pointer_set (JArray xs) (element_pointer i p) x = JArray (<[i := pointer_set v p x]> xs)
}.

(** ** The reference *)

Section Reference.
Context (resolve : SecretRef → ApiResult string).

(** One pass over the document: every string is replaced by its filling,
    everything else stays; with the count and the places, in document order. *)
Fixpoint subst_tree (v : Json) (place : string) : ApiResult (Json * nat * list string) :=
  match v with
  | JString s =>
      match find_refs_in_string s with
      | [] => Ok (v, 0, [])
      | refs => out ← fill_refs resolve s refs; Ok (JString out, length refs, [place])
      end
  | JObject m =>
      '(m', n, ps) ← (fix members (m : list (string * Json)) : ApiResult (list (string * Json) * nat * list string) :=
         match m with
         | [] => Ok ([], 0, [])
         | (k, val) :: m =>
             '(val', n1, p1) ← subst_tree val (place +:+ "/" +:+ escape_key k);
             '(m', n2, p2) ← members m;
             Ok ((k, val') :: m', n1 + n2, p1 ++ p2)
         end) m;
      Ok (JObject m', n, ps)
  | JArray xs =>
      '(xs', n, ps) ← (fix elements (i : nat) (xs : list Json) : ApiResult (list Json * nat * list string) :=
         match xs with
         | [] => Ok ([], 0, [])
         | val :: xs =>
             '(val', n1, p1) ← subst_tree val (place +:+ "/" +:+ pretty i);
             '(xs', n2, p2) ← elements (S i) xs;
             Ok (val' :: xs', n1 + n2, p1 ++ p2)
         end) 0 xs;
      Ok (JArray xs', n, ps)
  | _ => Ok (v, 0, [])
  end.

(** The members and elements loops of [subst_tree]. *)
Fixpoint subst_members (place : string) (m : list (string * Json)) : ApiResult (list (string * Json) * nat * list string) :=
  match m with
  | [] => Ok ([], 0, [])
  | (k, val) :: m =>
      '(val', n1, p1) ← subst_tree val (place +:+ "/" +:+ escape_key k);
      '(m', n2, p2) ← subst_members place m;
      Ok ((k, val') :: m', n1 + n2, p1 ++ p2)
  end.
Fixpoint subst_elements (place : string) (i : nat) (xs : list Json) : ApiResult (list Json * nat * list string) :=
  match xs with
  | [] => Ok ([], 0, [])
  | val :: xs =>
      '(val', n1, p1) ← subst_tree val (place +:+ "/" +:+ pretty i);
      '(xs', n2, p2) ← subst_elements place (S i) xs;
      Ok (val' :: xs', n1 + n2, p1 ++ p2)
  end.

Lemma subst_tree_object place m :
  subst_tree (JObject m) place = '(m', n, ps) ← subst_members place m; Ok (JObject m', n, ps).
Proof. cbn [subst_tree]. f_equal. induction m as [|[k val] m IH]; [done|]. cbn [subst_members]. rewrite <- IH. reflexivity. Qed.

Lemma subst_tree_array place xs :
  subst_tree (JArray xs) place = '(xs', n, ps) ← subst_elements place 0 xs; Ok (JArray xs', n, ps).
Proof.
  cbn [subst_tree]. f_equal.
  match goal with |- ?f 0 xs = _ => cut (∀ i, f i xs = subst_elements place i xs); [intros Hi; apply Hi|] end.
  induction xs as [|val xs IH]; intros i; [done|].
  cbn [subst_elements]. rewrite <- IH. reflexivity.
Qed.

End Reference.

(** ** The walk *)

Lemma str_app_eq (s t : string) : (s +:+ t)%string = String.append s t.
Proof. done. Qed.

Fixpoint walk_members (prefix : string) (m : list (string * Json)) : list string :=
  match m with
  | [] => []
  | (k, val) :: m => walk val (prefix +:+ "/" +:+ escape_key k) ++ walk_members prefix m
  end.
Fixpoint walk_elements (prefix : string) (i : nat) (xs : list Json) : list string :=
  match xs with
  | [] => []
  | val :: xs => walk val (prefix +:+ "/" +:+ pretty i) ++ walk_elements prefix (S i) xs
  end.

Lemma walk_object m prefix : walk (JObject m) prefix = walk_members prefix m.
Proof. cbn [walk]. induction m as [|[k v] m IH]; [done|]. cbn [walk_members]. rewrite <- IH. reflexivity. Qed.
Lemma walk_array xs prefix : walk (JArray xs) prefix = walk_elements prefix 0 xs.
Proof.
  cbn [walk]. generalize 0. induction xs as [|v xs IH]; intros i; [done|]. cbn [walk_elements].
  rewrite <- IH. reflexivity.
Qed.

(** The prefix of a walk is in front of every pointer. *)
Lemma walk_prefix v : ∀ prefix, walk v prefix = map (λ q, prefix +:+ q) (walk v "").
Proof.
  induction v as [| | |s|xs IH|m IH] using json_induction; intros prefix; try done.
  - cbn. by rewrite str_app_nil_r.
  - rewrite !walk_array. generalize 0. induction IH as [|v xs Hv _ IHxs]; intros i; [done|]. cbn [walk_elements map].
    rewrite (Hv (prefix +:+ _)), (Hv ("" +:+ _)), map_app, map_map, IHxs. f_equal.
    apply map_ext. intros q. by rewrite !str_app_assoc.
  - rewrite !walk_object. induction IH as [|[k v] m Hv _ IHm]; [done|]. cbn [walk_members map snd] in *.
    rewrite (Hv (prefix +:+ _)), (Hv ("" +:+ _)), map_app, map_map, IHm. f_equal.
    apply map_ext. intros q. by rewrite !str_app_assoc.
Qed.

Lemma walk_sub v : Forall sub_pointer (walk v "").
Proof.
  destruct v as [| | |s|xs|m]; try constructor; try done; [by left|..].
  - rewrite walk_array. generalize 0. induction xs as [|v xs IH]; intros i; [constructor|]. cbn [walk_elements].
    apply Forall_app. split; [|apply IH]. rewrite walk_prefix. apply Forall_map, Forall_true. intros q.
    right. exists (pretty i +:+ q). by rewrite str_app_assoc.
  - rewrite walk_object. induction m as [|[k v] m IH]; [constructor|]. cbn [walk_members].
    apply Forall_app. split; [|apply IH]. rewrite walk_prefix. apply Forall_map, Forall_true. intros q.
    right. exists (escape_key k +:+ q). by rewrite str_app_assoc.
Qed.

Lemma walk_member k v : walk v ("" +:+ "/" +:+ escape_key k) = map (member_pointer k) (walk v "").
Proof. rewrite walk_prefix. apply map_ext. intros q. unfold member_pointer. by rewrite !str_app_assoc. Qed.
Lemma walk_element i v : walk v ("" +:+ "/" +:+ pretty i) = map (element_pointer i) (walk v "").
Proof. rewrite walk_prefix. apply map_ext. intros q. unfold element_pointer. by rewrite !str_app_assoc. Qed.

(** ** Substitution by pointers *)

Lemma assoc_get_set_eq {V} k (x : V) m : is_Some (assoc_get k m) → assoc_get k (assoc_set k x m) = Some x.
Proof.
  induction m as [|[k' v'] m IH]; cbn; [by intros [? ?]|]. destruct (decide (k = k')) as [->|]; cbn; intros Hk.
  - by rewrite decide_True.
  - rewrite decide_False by done. by apply IH.
Qed.

Lemma assoc_set_set {V} k (x y : V) m : assoc_set k y (assoc_set k x m) = assoc_set k y m.
Proof.
  unfold assoc_set. rewrite map_map. apply map_ext. intros [k' v']. cbn. destruct (decide (k = k')); cbn.
  - by rewrite decide_True.
  - by rewrite decide_False.
Qed.

Lemma assoc_set_same {V} k (x : V) m : NoDup (map fst m) → assoc_get k m = Some x → assoc_set k x m = m.
Proof.
  induction m as [|[k' v'] m IH]; [done|]. cbn. intros [Hk Hnd]%NoDup_cons. case_decide as Hkk; intros Hx; simplify_eq.
  - f_equal. unfold assoc_set. rewrite <- (map_id m) at 2. apply map_ext_in. intros [k v] Hin. cbn.
    case_decide; [|done]. subst. destruct Hk. apply elem_of_map. exists (k, v). split; [by apply list_elem_of_In|done].
  - f_equal. by apply IH.
Qed.

Section Substitution.
Context `{JsonPointer} `{!PointerLaws} (resolve : SecretRef → ApiResult string).

(** The step below a place: it looks up [q] and reports [place ++ q]. *)
Definition step_at (place : string) (acc : Json * nat * list string) (q : string) : ApiResult (Json * nat * list string) :=
  let '(value, count, ps) := acc in
  match pointer value q with
  | Some (JString original) =>
      match find_refs_in_string original with
      | [] => Ok (value, count, ps)
      | refs => out ← fill_refs resolve original refs;
                Ok (pointer_set value q (JString out), count + length refs, ps ++ [place +:+ q])
      end
  | _ => Ok (value, count, ps)
  end.

Lemma step_at_eq place value count ps q :
  step_at place (value, count, ps) q =
  match pointer value q with
  | Some (JString original) =>
      match find_refs_in_string original with
      | [] => Ok (value, count, ps)
      | refs => out ← fill_refs resolve original refs;
                Ok (pointer_set value q (JString out), count + length refs, ps ++ [place +:+ q])
      end
  | _ => Ok (value, count, ps)
  end.
Proof. done. Qed.

Lemma step_at_top acc q : substitute_step resolve acc q = step_at "" acc q.
Proof.
  destruct acc as [[value count] ps]. cbn. destruct (pointer value q) as [[| | |s| |]|]; try done.
  by destruct (find_refs_in_string s).
Qed.

(** A block of pointers below one member works on that member only. *)
Definition in_member (k : string) (m : list (string * Json)) (acc : Json * nat * list string) : Json * nat * list string :=
  (JObject (assoc_set k acc.1.1 m), acc.1.2, acc.2).
Definition in_element (i : nat) (xs : list Json) (acc : Json * nat * list string) : Json * nat * list string :=
  (JArray (<[i := acc.1.1]> xs), acc.1.2, acc.2).

Lemma block_member place k m : ∀ qs v c ps, Forall sub_pointer qs → NoDup (map fst m) → assoc_get k m = Some v →
  try_fold (step_at place) (JObject m, c, ps) (map (member_pointer k) qs) =
  in_member k m <$> try_fold (step_at (place +:+ "/" +:+ escape_key k)) (v, c, ps) qs.
Proof.
  intros qs. revert m. induction qs as [|q qs IH]; intros m v c ps Hqs Hnd Hk.
  { cbn. unfold in_member. cbn. by rewrite assoc_set_same. }
  apply Forall_cons in Hqs as [Hq Hqs]. cbn [map try_fold]. rewrite !step_at_eq. rewrite ptr_member, Hk by done. cbn [mbind option_bind].
  destruct (pointer v q) as [[| | |s| |]|] eqn:Ep; cbn [mbind result_bind]; try by apply IH.
  destruct (find_refs_in_string s) as [|r refs]; cbn [mbind result_bind]; [by apply IH|].
  destruct (fill_refs resolve s (r :: refs)) as [out|e]; cbn [mbind result_bind]; [|done].
  rewrite (ptr_set_member m k v q) by eauto.
  replace (place +:+ member_pointer k q) with ((place +:+ "/" +:+ escape_key k) +:+ q)
    by (unfold member_pointer; by rewrite !str_app_assoc).
  rewrite (IH (assoc_set k (pointer_set v q (JString out)) m) (pointer_set v q (JString out))); [|done|..].
  - destruct (try_fold _ _ qs) as [[[v' c'] ps']|]; [|done]. cbn. unfold in_member. cbn. by rewrite assoc_set_set.
  - unfold assoc_set. rewrite map_map. erewrite map_ext; [exact Hnd|]. intros [k' v']. cbn. by case_decide.
  - by apply assoc_get_set_eq.
Qed.

Lemma block_element place i : ∀ qs xs v c ps, Forall sub_pointer qs → xs !! i = Some v →
  try_fold (step_at place) (JArray xs, c, ps) (map (element_pointer i) qs) =
  in_element i xs <$> try_fold (step_at (place +:+ "/" +:+ pretty i)) (v, c, ps) qs.
Proof.
  induction qs as [|q qs IH]; intros xs v c ps Hqs Hi.
  { cbn. unfold in_element. cbn. by rewrite list_insert_id. }
  apply Forall_cons in Hqs as [Hq Hqs]. cbn [map try_fold]. rewrite !step_at_eq. rewrite ptr_element, Hi by done. cbn [mbind option_bind].
  destruct (pointer v q) as [[| | |s| |]|] eqn:Ep; cbn [mbind result_bind]; try by apply IH.
  destruct (find_refs_in_string s) as [|r refs]; cbn [mbind result_bind]; [by apply IH|].
  destruct (fill_refs resolve s (r :: refs)) as [out|e]; cbn [mbind result_bind]; [|done].
  rewrite (ptr_set_element xs i v q) by eauto.
  replace (place +:+ element_pointer i q) with ((place +:+ "/" +:+ pretty i) +:+ q)
    by (unfold element_pointer; by rewrite !str_app_assoc).
  rewrite (IH (<[i := pointer_set v q (JString out)]> xs) (pointer_set v q (JString out))); [|done|].
  - destruct (try_fold _ _ qs) as [[[v' c'] ps']|]; [|done]. cbn. unfold in_element. cbn. by rewrite list_insert_insert_eq.
  - apply list_lookup_insert_eq. by eapply lookup_lt_Some.
Qed.

(** The outcome of a subtree, added to a running count and list. *)
Definition added {A B} (f : A → B) (c : nat) (ps : list string) (r : ApiResult (A * nat * list string)) : ApiResult (B * nat * list string) :=
  '(v, n, p) ← r; Ok (f v, c + n, ps ++ p).

Definition folds_to_tree (v : Json) : Prop := ∀ place c ps, json_wf v →
  try_fold (step_at place) (v, c, ps) (walk v "") = added id c ps (subst_tree resolve v place).

Lemma added_nil {A B} (f : A → B) a c ps : added f c ps (Ok (a, 0, [])) = Ok (f a, c, ps).
Proof. unfold added. cbn. by rewrite Nat.add_0_r, app_nil_r. Qed.

Lemma fold_elements place rest : ∀ dn c ps, Forall json_wf rest → Forall folds_to_tree rest →
  try_fold (step_at place) (JArray (dn ++ rest), c, ps) (walk_elements "" (length dn) rest) =
  added (λ ys, JArray (dn ++ ys)) c ps (subst_elements resolve place (length dn) rest).
Proof.
  induction rest as [|v rest IHr]; intros dn c ps Hwf IH; cbn [walk_elements subst_elements]; [by rewrite added_nil|].
  apply Forall_cons in Hwf as [Hv Hwf]. apply Forall_cons in IH as [IHv IH].
  rewrite try_fold_app, walk_element, (block_element place (length dn) (walk v "") (dn ++ v :: rest) v);
    [|apply walk_sub|by rewrite lookup_app_r, Nat.sub_diag by lia].
  rewrite IHv by done. destruct (subst_tree resolve v (place +:+ "/" +:+ pretty (length dn))) as [[[v' n1] p1]|e]; [|done].
  cbn [added mbind result_bind fmap result_fmap]. unfold in_element. cbn [fst snd id].
  assert (<[length dn := v']> (dn ++ v :: rest) = (dn ++ [v']) ++ rest) as ->.
  { rewrite insert_app_r_alt, Nat.sub_diag by lia. cbn. by rewrite <- app_assoc. }
  replace (S (length dn)) with (length (dn ++ [v'])) by (rewrite length_app; cbn; lia).
  rewrite IHr by done. destruct (subst_elements resolve place (length (dn ++ [v'])) rest) as [[[ys n2] p2]|e]; [|done].
  unfold added. cbn. by rewrite <- !app_assoc, Nat.add_assoc.
Qed.

Lemma map_other_key {V} k (x : V) m : k ∉ map fst m → assoc_set k x m = m.
Proof.
  intros Hk. unfold assoc_set. rewrite <- (map_id m) at 2. apply map_ext_in. intros [k' v'] Hin. cbn. case_decide; [|done].
  subst. destruct Hk. apply elem_of_map. exists (k', v'). split; [by apply list_elem_of_In|done].
Qed.

Lemma assoc_get_app_ne {V} k (dn m : list (string * V)) : k ∉ map fst dn → assoc_get k (dn ++ m) = assoc_get k m.
Proof.
  induction dn as [|[k' v'] dn IH]; [done|]. cbn. intros [Hne Hk]%not_elem_of_cons. rewrite decide_False by done. by apply IH.
Qed.

Lemma fold_members place rest : ∀ dn c ps, NoDup (map fst (dn ++ rest)) → Forall (λ kv, json_wf kv.2) rest →
  Forall (λ kv, folds_to_tree kv.2) rest →
  try_fold (step_at place) (JObject (dn ++ rest), c, ps) (walk_members "" rest) =
  added (λ ys, JObject (dn ++ ys)) c ps (subst_members resolve place rest).
Proof.
  induction rest as [|[k v] rest IHr]; intros dn c ps Hnd Hwf IH; cbn [walk_members subst_members]; [by rewrite added_nil|].
  apply Forall_cons in Hwf as [Hv Hwf]. apply Forall_cons in IH as [IHv IH]. cbn [snd] in *.
  rewrite map_app in Hnd. cbn [map fst] in Hnd. pose proof Hnd as (Hd1 & Hd & Hd2)%NoDup_app. apply NoDup_cons in Hd2 as [Hk2 Hd2].
  assert (k ∉ map fst dn) as Hk by (intros Hin; apply (Hd k Hin); left).
  rewrite try_fold_app, walk_member, (block_member place k (dn ++ (k, v) :: rest) (walk v "") v);
    [|apply walk_sub|by rewrite map_app|rewrite assoc_get_app_ne by done; cbn; by rewrite decide_True].
  rewrite IHv by done. destruct (subst_tree resolve v (place +:+ "/" +:+ escape_key k)) as [[[v' n1] p1]|e]; [|done].
  cbn [added mbind result_bind fmap result_fmap]. unfold in_member. cbn [fst snd id].
  assert (assoc_set k v' (dn ++ (k, v) :: rest) = (dn ++ [(k, v')]) ++ rest) as ->.
  { unfold assoc_set. rewrite map_app. cbn [map fst]. rewrite decide_True by done.
    fold (assoc_set k v' dn). fold (assoc_set k v' rest). rewrite !map_other_key by done. by rewrite <- app_assoc. }
  rewrite IHr; [|by rewrite !map_app, <- app_assoc|done|done].
  destruct (subst_members resolve place rest) as [[[ys n2] p2]|e]; [|done].
  unfold added. cbn. by rewrite <- !app_assoc, Nat.add_assoc.
Qed.

Lemma fold_is_tree v : folds_to_tree v.
Proof.
  induction v as [| | |s|xs IH|m IH] using json_induction; intros place c ps Hwf.
  1-3: symmetry; exact (added_nil id _ c ps).
  - cbn [walk try_fold subst_tree]. rewrite step_at_eq, ptr_root. cbn [mbind].
    destruct (find_refs_in_string s) as [|r refs]; [by rewrite added_nil|].
    destruct (fill_refs resolve s (r :: refs)) as [out|e]; unfold added; cbn; [|done]. by rewrite ptr_set_root, str_app_nil_r.
  - rewrite walk_array, subst_tree_array. apply json_wf_array in Hwf.
    pose proof (fold_elements place xs [] c ps Hwf IH) as Hf. cbn [app length] in Hf. rewrite Hf. by destruct (subst_elements resolve place 0 xs) as [[[ys n] p]|].
  - rewrite walk_object, subst_tree_object. apply json_wf_object in Hwf as [Hnd Hwf].
    pose proof (fold_members place m [] c ps Hnd Hwf IH) as Hf. cbn [app] in Hf. rewrite Hf. by destruct (subst_members resolve place m) as [[[ys n] p]|].
Qed.

(** C39: Substitution by JSON pointers is one pass over the document: every
    string is replaced by its own filling, in document order, nothing else
    changes and no value that was filled in is scanned again; the count and
    the reported pointers are those of the strings that held references, and
    an error is that of the first reference that does not resolve. *)
Theorem substitution_one_pass v :
  json_wf v → substitute_with_pointers resolve v = subst_tree resolve v "".
Proof.
  intros Hwf. unfold substitute_with_pointers, collect_string_pointers.
  transitivity (try_fold (step_at "") (v, 0, []) (walk v "")).
  { generalize (v, 0, @nil string). generalize (walk v ""). induction l as [|q qs IH]; intros acc; [done|].
    cbn [try_fold]. rewrite step_at_top. destruct (step_at "" acc q); [apply IH|done]. }
  rewrite fold_is_tree by done. destruct (subst_tree resolve v "") as [[[v' n] p]|]; done.
Qed.

End Substitution.

(** ** An implementation of the interface

    RFC 6901 as a function, which meets the laws: the theorems above are not
    about an impossible library. *)

(** [s.replace("ab", rep)] for a pattern of two characters. *)
Fixpoint replace_pair (a b : Ascii.ascii) (rep s : string) : string :=
  match s with
  | "" => ""
  | String c s1 =>
      match s1 with
      | "" => String c ""
      | String d s2 =>
          if Ascii.eqb c a && Ascii.eqb d b then rep +:+ replace_pair a b rep s2
          else String c (replace_pair a b rep s1)
      end
  end.

Definition zero : Ascii.ascii := Ascii.ascii_of_N 48.
Definition one : Ascii.ascii := Ascii.ascii_of_N 49.

Definition unescape (t : string) : string := replace_pair tilde zero "~" (replace_pair tilde one "/" t).

(** The index whose decimal form is [t]. *)
Fixpoint nth_by_text (t : string) (i : nat) (xs : list Json) : option nat :=
  match xs with
  | [] => None
  | _ :: xs => if bool_decide (pretty i = t) then Some i else nth_by_text t (S i) xs
  end.

Fixpoint seek (v : Json) (tokens : list string) : option Json :=
  match tokens with
  | [] => Some v
  | t :: tokens =>
      match v with
      | JObject m => x ← assoc_get t m; seek x tokens
      | JArray xs => i ← nth_by_text t 0 xs; x ← xs !! i; seek x tokens
      | _ => None
      end
  end.

Fixpoint seek_set (v : Json) (tokens : list string) (x : Json) : Json :=
  match tokens with
  | [] => x
  | t :: tokens =>
      match v with
      | JObject m => match assoc_get t m with Some y => JObject (assoc_set t (seek_set y tokens x) m) | None => v end
      | JArray xs => match nth_by_text t 0 xs ≫= λ i, pair i <$> xs !! i with
                     | Some (i, y) => JArray (<[i := seek_set y tokens x]> xs) | None => v end
      | _ => v
      end
  end.

Definition tokens_of (p : string) : option (list string) :=
  match p with
  | "" => Some []
  | String c rest => if Ascii.eqb c slash then Some (map unescape (split_on slash rest)) else None
  end.

#[export] Instance rfc6901 : JsonPointer := {|
  pointer v p := tokens_of p ≫= seek v;
  pointer_set v p x := match tokens_of p with Some ts => seek_set v ts x | None => v end
|}.

(** *** Escaping *)

Lemma replace_pair_other a b rep c s : c ≠ a → replace_pair a b rep (String c s) = String c (replace_pair a b rep s).
Proof. intros Hc. cbn. destruct s as [|d s]; [done|]. by rewrite (proj2 (Ascii.eqb_neq c a)). Qed.

Lemma replace_pair_skip a b rep d s : d ≠ b → d ≠ a →
  replace_pair a b rep (String a (String d s)) = String a (String d (replace_pair a b rep s)).
Proof.
  intros Hb Ha. cbn [replace_pair]. rewrite (proj2 (Ascii.eqb_neq d b) Hb), andb_false_r. f_equal. by apply replace_pair_other.
Qed.

Lemma replace_pair_hit a b rep s : replace_pair a b rep (String a (String b s)) = rep +:+ replace_pair a b rep s.
Proof. cbn. by rewrite !Ascii.eqb_refl. Qed.

Lemma unescape_escape k : unescape (escape_key k) = k.
Proof.
  unfold unescape, escape_key.
  assert (replace_pair tilde one "/" (replace_char slash "~1" (replace_char tilde "~0" k)) = replace_char tilde "~0" k) as ->.
  { induction k as [|c k IH]; [done|]. cbn [replace_char]. destruct (Ascii.eqb_spec c tilde) as [->|Ht].
    - change ("~0" +:+ replace_char tilde "~0" k) with (String tilde (String zero (replace_char tilde "~0" k))).
      cbn [replace_char]. rewrite !(proj2 (Ascii.eqb_neq _ slash)) by done.
      rewrite replace_pair_skip by done. by rewrite IH.
    - cbn [replace_char]. destruct (Ascii.eqb_spec c slash) as [->|Hs].
      + change ("~1" +:+ replace_char slash "~1" (replace_char tilde "~0" k))
          with (String tilde (String one (replace_char slash "~1" (replace_char tilde "~0" k)))).
        rewrite replace_pair_hit, IH. done.
      + rewrite replace_pair_other by done. by rewrite IH. }
  induction k as [|c k IH]; [done|]. cbn [replace_char]. destruct (Ascii.eqb_spec c tilde) as [->|Ht].
  - change ("~0" +:+ replace_char tilde "~0" k) with (String tilde (String zero (replace_char tilde "~0" k))).
    rewrite replace_pair_hit, IH. done.
  - rewrite replace_pair_other by done. by rewrite IH.
Qed.

(** No slash in a token. *)
Fixpoint slashless (s : string) : bool :=
  match s with "" => true | String a s => negb (Ascii.eqb a slash) && slashless s end.

Lemma slashless_app s t : slashless (s +:+ t) = slashless s && slashless t.
Proof.
  induction s as [|a s IH]; [done|]. change (String a s +:+ t) with (String a (s +:+ t)). cbn [slashless].
  by rewrite IH, andb_assoc.
Qed.

Lemma slashless_escape k : slashless (escape_key k) = true.
Proof.
  unfold escape_key. generalize (replace_char tilde "~0" k). intros s. induction s as [|c s IH]; [done|].
  cbn [replace_char]. destruct (Ascii.eqb_spec c slash) as [->|Hs]; [by rewrite slashless_app, IH|].
  cbn [slashless]. by rewrite (proj2 (Ascii.eqb_neq c slash)), IH.
Qed.

Lemma split_on_slashless s p : slashless s = true → sub_pointer p →
  split_on slash (s +:+ p) = s :: match p with "" => [] | String _ rest => split_on slash rest end.
Proof.
  intros Hs Hp. induction s as [|a s IH].
  - destruct Hp as [->|[r ->]]; [done|]. change ("" +:+ ("/" +:+ r)) with (String slash r). cbn [split_on]. by rewrite Ascii.eqb_refl.
  - cbn [slashless] in Hs. apply andb_true_iff in Hs as [Ha Hs]. apply negb_true_iff in Ha.
    change (String a s +:+ p) with (String a (s +:+ p)). cbn [split_on]. by rewrite Ha, IH.
Qed.

Lemma tokens_step t p : slashless t = true → sub_pointer p →
  tokens_of ("/" +:+ t +:+ p) = (λ ts, unescape t :: ts) <$> tokens_of p.
Proof.
  intros Ht Hp. change ("/" +:+ t +:+ p) with (String slash (t +:+ p)). cbn [tokens_of]. rewrite Ascii.eqb_refl, split_on_slashless by done.
  destruct Hp as [->|[r ->]]; [done|]. change ("/" +:+ r) with (String slash r). cbn [tokens_of]. by rewrite Ascii.eqb_refl.
Qed.

(** *** Indices *)

Lemma pretty_nat_inj' (i j : nat) : pretty i = pretty j → i = j.
Proof. apply (inj pretty). Qed.

Lemma nth_by_text_spec j xs : ∀ i, nth_by_text (pretty (i + j)) i xs = if decide (j < length xs) then Some (i + j) else None.
Proof.
  revert j. induction xs as [|x xs IH]; intros j i; [done|]. cbn [nth_by_text length].
  case_bool_decide as Hi.
  - apply pretty_nat_inj' in Hi. assert (j = 0) as -> by lia. rewrite decide_True by lia. f_equal. lia.
  - destruct j as [|j]; [by rewrite Nat.add_0_r in Hi|]. replace (i + S j) with (S i + j) by lia. rewrite IH.
    destruct (decide (j < length xs)); [rewrite decide_True by lia|rewrite decide_False by lia]; done.
Qed.

(** Text without slash and tilde is its own escape. *)
Fixpoint plain (s : string) : bool :=
  match s with "" => true | String a s => negb (Ascii.eqb a slash) && negb (Ascii.eqb a tilde) && plain s end.

Lemma plain_slashless s : plain s = true → slashless s = true.
Proof. induction s as [|a s IH]; [done|]. cbn [plain slashless]. by intros [[-> _]%andb_true_iff ->%IH]%andb_true_iff. Qed.

Lemma plain_replace_pair b rep s : plain s = true → replace_pair tilde b rep s = s.
Proof.
  induction s as [|a s IH]; [done|]. cbn [plain]. intros [[_ Ht]%andb_true_iff Hs]%andb_true_iff.
  apply negb_true_iff, Ascii.eqb_neq in Ht. rewrite replace_pair_other by done. by rewrite IH.
Qed.

Lemma plain_unescape s : plain s = true → unescape s = s.
Proof. intros Hs. unfold unescape. rewrite (plain_replace_pair one "/" s Hs). by apply plain_replace_pair. Qed.

Lemma plain_pretty_go (x : N) : ∀ s, plain s = true → plain (pretty_N_go x s) = true.
Proof.
  induction (N.lt_wf_0 x) as [x _ IH]; intros s Hs.
  assert (x = 0 ∨ 0 < x)%N as [->|Hx] by lia; [by rewrite pretty_N_go_0|].
  rewrite pretty_N_go_step by done. apply IH; [by apply N.div_lt|].
  cbn [plain]. rewrite Hs, andb_true_r. unfold pretty_N_char. by repeat case_match.
Qed.

Lemma plain_pretty (i : nat) : plain (pretty i) = true.
Proof.
  change (pretty i) with (pretty (N.of_nat i)). unfold pretty, pretty_N. case_decide; [done|]. by apply plain_pretty_go.
Qed.

#[export] Instance rfc6901_laws : PointerLaws.
Proof.
  split.
  - done.
  - done.
  - intros m k p Hp. cbn [pointer rfc6901]. unfold member_pointer. rewrite tokens_step by (done || apply slashless_escape).
    rewrite unescape_escape. destruct (tokens_of p) as [ts|]; cbn; [done|]. by destruct (assoc_get k m).
  - intros m k v p x Hp Hk [y Hv]. cbn [pointer pointer_set rfc6901] in *. unfold member_pointer.
    rewrite tokens_step by (done || apply slashless_escape). rewrite unescape_escape.
    destruct (tokens_of p) as [ts|]; cbn in *; [|done]. by rewrite Hk.
  - intros xs i p Hp. cbn [pointer rfc6901]. unfold element_pointer.
    rewrite tokens_step by (done || apply plain_slashless, plain_pretty). rewrite plain_unescape by apply plain_pretty.
    destruct (tokens_of p) as [ts|]; cbn; [|by destruct (xs !! i)].
    pose proof (nth_by_text_spec i xs 0) as Hn. cbn [Nat.add] in Hn. rewrite Hn. clear Hn. cbn. case_decide; cbn; [done|]. by rewrite lookup_ge_None_2 by lia.
  - intros xs i v p x Hp Hi [y Hv]. cbn [pointer pointer_set rfc6901] in *. unfold element_pointer.
    rewrite tokens_step by (done || apply plain_slashless, plain_pretty). rewrite plain_unescape by apply plain_pretty.
    destruct (tokens_of p) as [ts|]; cbn in *; [|done].
    pose proof (nth_by_text_spec i xs 0) as Hn. cbn [Nat.add] in Hn. rewrite Hn. clear Hn. pose proof (lookup_lt_Some _ _ _ Hi). rewrite decide_True by done. cbn. by rewrite Hi.
Qed.

(** *** At a concrete document *)

Definition demo_resolve (r : SecretRef) : ApiResult string :=
  if decide (sr_resolver r = "env") then Ok ("${secret://env/" +:+ sr_path r +:+ "}") else Err NotFound.

Definition demo_document : Json :=
  JObject [("a/b", JArray [JNumber "1"; JString "x ${secret://env/P} y ${secret://env/Q}"]); ("k~", JString "plain")].

Lemma substitution_one_pass_witness :
  substitute_with_pointers demo_resolve demo_document =
    Ok (JObject [("a/b", JArray [JNumber "1"; JString "x ${secret://env/P} y ${secret://env/Q}"]); ("k~", JString "plain")],
        2, ["/a~1b/1"]) ∧
  substitute_with_pointers demo_resolve demo_document = subst_tree demo_resolve demo_document "".
Proof.
  split; [vm_compute; reflexivity|]. apply (substitution_one_pass demo_resolve demo_document).
  apply json_wf_object. split; [|repeat constructor].
  apply (bool_decide_unpack (NoDup (map fst [("a/b", JNull); ("k~", JNull)]))). vm_compute. exact I.
Defined.

(** ** Tokens *)

Lemma strip_prefix_app p r : strip_prefix p (p +:+ r) = Some r.
Proof. by apply strip_prefix_spec. Qed.

Definition hash : Ascii.ascii := Ascii.ascii_of_N 35.

Definition print_ref (r : SecretRef) : string :=
  SECRET_OPEN +:+ sr_resolver r +:+ "/" +:+ sr_path r +:+
  match sr_field r with Some f => "#" +:+ f | None => "" end +:+ "}".

(** The parts of a reference a token can carry. *)
Definition ref_wf (r : SecretRef) : Prop :=
  sr_resolver r ≠ "" ∧ sr_path r ≠ "" ∧ lacks slash (sr_resolver r) = true ∧ lacks hash (sr_resolver r) = true ∧
  lacks hash (sr_path r) = true ∧ sr_field r ≠ Some "".

Lemma app_nonempty (s t : string) : s ≠ "" → s +:+ t ≠ "".
Proof. by destruct s. Qed.

Lemma secret_token_text r token : parse_secret_ref token = Some r → token = print_ref r.
Proof.
  unfold parse_secret_ref, print_ref. intros (s1 & H1 & Hr)%bind_Some. apply strip_prefix_spec in H1 as ->.
  apply bind_Some in Hr as (inner & H2%strip_suffix_sound & Hr). subst s1. f_equal.
  destruct (bool_decide (inner = "")); [done|].
  destruct (split_once "#" inner) as [[a b]|] eqn:Eh; [apply split_once_sound in Eh; destruct (bool_decide (b = ""))|].
  1: clear Eh.
  all: apply bind_Some in Hr as ([res path] & Hs%split_once_sound & Hr).
  all: destruct (bool_decide (res = "") || bool_decide (path = "")); [done|injection Hr as <-]; subst; cbn [sr_resolver sr_path sr_field].
  all: by rewrite ?str_app_assoc.
Qed.

(** A token that parses is the text of its reference, nothing more and
    nothing less, and every reference whose parts do not hold the separators
    parses back from its text. *)
Theorem secret_token_roundtrip r :
  (∀ token, parse_secret_ref token = Some r → token = print_ref r) ∧
  (ref_wf r → parse_secret_ref (print_ref r) = Some r).
Proof.
  split.
  - intros token. apply secret_token_text.
  - destruct r as [res path field]. intros (Hr & Hp & Hrs & Hrh & Hph & Hf). cbn [sr_resolver sr_path sr_field] in *.
    unfold parse_secret_ref, print_ref. cbn [sr_resolver sr_path sr_field].
    rewrite strip_prefix_app. cbn [mbind option_bind].
    assert (res +:+ "/" +:+ path +:+ match field with Some f => "#" +:+ f | None => "" end +:+ "}" =
            (res +:+ "/" +:+ path +:+ match field with Some f => "#" +:+ f | None => "" end) +:+ "}") as ->
      by by rewrite !str_app_assoc.
    rewrite strip_suffix_app. cbn [mbind option_bind]. rewrite bool_decide_false by by apply app_nonempty.
    assert (lacks hash (res +:+ "/" +:+ path) = true) as Hl by by rewrite !lacks_app, Hrh, Hph.
    destruct field as [f|].
    + assert (res +:+ "/" +:+ path +:+ "#" +:+ f = (res +:+ "/" +:+ path) +:+ String hash f) as -> by by rewrite !str_app_assoc.
      change "#" with (String hash ""). rewrite split_once_char by done.
      rewrite (bool_decide_false (f = "")) by congruence.
      change ("/" +:+ path) with (String slash path). change "/" with (String slash "") at 1. rewrite split_once_char by done. cbn.
      by rewrite !bool_decide_false by done.
    + rewrite !str_app_nil_r. change "#" with (String hash ""). rewrite split_once_lacks by done.
      change ("/" +:+ path) with (String slash path). change "/" with (String slash "") at 1. rewrite split_once_char by done. cbn.
      by rewrite !bool_decide_false by done.
Qed.

(** A token with an empty fragment is not rejected: the path keeps the sign. *)
Lemma empty_fragment_kept : parse_secret_ref "${secret://vault/kv/data/db#}" = Some (mkSecretRef "vault" "kv/data/db#" None).
Proof. vm_compute. reflexivity. Qed.

(** ** The scan of a string *)

(** The fuel of the scan is enough: more of it changes nothing. *)
Lemma find_refs_fuel s : ∀ fuel i extra, String.length s < i + fuel →
  find_refs_loop (fuel + extra) i s = find_refs_loop fuel i s.
Proof.
  induction fuel as [|fuel IH]; intros i extra Hf.
  - destruct extra as [|extra]; [done|]. cbn [Nat.add find_refs_loop]. by rewrite (proj2 (Nat.leb_gt _ _)) by lia.
  - cbn [Nat.add find_refs_loop]. destruct (i + 11 <=? String.length s); [|done].
    destruct (bool_decide _); [|apply IH; lia]. destruct (split_once _ _) as [[before after]|]; [|apply IH; lia].
    destruct (parse_secret_ref _); [f_equal|]; apply IH; lia.
Qed.

Lemma substring_length n m s : n + m ≤ String.length s → String.length (String.substring n m s) = m.
Proof.
  revert n m. induction s as [|a s IH]; intros [|n] [|m] H; cbn in *; try rewrite IH by lia; lia.
Qed.

(** Every reported stretch is the text of its reference, and the stretches
    follow each other within the string. *)
Lemma find_refs_sound s : ∀ fuel i a b r, (a, b, r) ∈ find_refs_loop fuel i s →
  i ≤ a ∧ a < b ∧ b ≤ String.length s ∧ String.substring a (b - a) s = print_ref r.
Proof.
  induction fuel as [|fuel IH]; intros i a b r Hin; [by apply elem_of_nil in Hin|]. cbn [find_refs_loop] in Hin.
  destruct (Nat.leb_spec (i + 11) (String.length s)) as [Hi|]; [|by apply elem_of_nil in Hin].
  assert (∀ j, i ≤ j → (a, b, r) ∈ find_refs_loop fuel j s →
    i ≤ a ∧ a < b ∧ b ≤ String.length s ∧ String.substring a (b - a) s = print_ref r) as Hrec
    by (intros j Hj Hr; destruct (IH j a b r Hr); split_and!; try tauto; lia).
  destruct (bool_decide _); [|apply (Hrec (i + 1)); [lia|done]].
  destruct (split_once "}" (str_from (i + 11) s)) as [[before after]|] eqn:Es; [|apply (Hrec (i + 1)); [lia|done]].
  destruct (parse_secret_ref _) as [sref|] eqn:Ep; [|apply (Hrec (i + 1)); [lia|done]].
  apply elem_of_cons in Hin as [Heq|Hin]; [|eapply Hrec; [|exact Hin]; lia]. simplify_eq.
  apply split_once_length in Es. unfold str_from in Es. rewrite substring_length in Es by lia. cbn in Es.
  apply secret_token_text in Ep.
  split_and!; [lia|lia|lia|exact Ep].
Qed.
