(* ===== verification/Modules.v ===== *)
(** * Operator-defined modules (crates/iac-controlplane/src/modules.rs)

    A module's validation at configuration load and the expansion of one
    composite resource through its template. YAML, its conversion to JSON and
    the Unicode table behind [is_alphanumeric] are parameters. *)

From S2P Require Import Prelude Text Json ApiError Template.

#[local] Open Scope string_scope.
#[local] Open Scope list_scope.
#[local] Open Scope nat_scope.

Class Unicode := { is_alphanumeric : N → bool }.

Inductive Yaml :=
| YNull | YBool (b : bool) | YNumber (repr : string) | YString (s : string)
| YSequence (xs : list Yaml) | YMapping (m : list (Yaml * Yaml)) | YTagged (tag : string) (v : Yaml).

(** [serde_yaml_ng::from_str] and [serde_json::to_value] of its value. *)
Class YamlCodec := {
  yaml_from_str : string → result string Yaml;
  yaml_to_json : Yaml → result string Json
}.

Record ModuleParameter := mkParameter {
  mp_name : string;
  mp_type : string;
  mp_required : bool;
  mp_default : option Json;
  mp_description : string
}.

Record Module_ := mkModule {
  mod_name : string;
  mod_description : string;
  mod_emits : list string;
  mod_parameters : list ModuleParameter;
  mod_template : string
}.

Definition RESERVED_VARS : list string := ["name"; "environment"].

Definition char_is (c : N) (a : N) : bool := (c =? a)%N.

(** The scan for [{{ var }}]: [None] inside the braces ends it. *)
Fixpoint variables_loop (fuel : nat) (template : string) : list string :=
  match fuel with
  | O => []
  | S fuel =>
      match split_once "{{" template with
      | None => []
      | Some (_, rest) =>
          match split_once "}}" rest with
          | None => []
          | Some (inner, rest) =>
              let var := trim inner in
              (if bool_decide (var = "") then [] else [var]) ++ variables_loop fuel rest
          end
      end
  end.

Definition template_variables (template : string) : list string :=
  variables_loop (S (String.length template)) template.

Section Modules.
Context `{Unicode, YamlCodec}.

(** The body of the loop over the parameters. *)
Definition validate_parameter (seen : list string) (p : ModuleParameter) : result message (list string) :=
  if negb (forallb (λ c, is_alphanumeric c || char_is c 95) (chars (mp_name p))) then
    Err [Txt "parameter "; Dbg (mp_name p); Txt " name must be alphanumeric/underscore"]
  else if bool_decide (mp_name p ∈ RESERVED_VARS) then
    Err [Txt "parameter "; Dbg (mp_name p); Txt " collides with reserved metadata var"]
  else if bool_decide (mp_name p ∈ seen) then Err [Txt "parameter "; Dbg (mp_name p); Txt " declared twice"]
  else Ok (mp_name p :: seen).

(** The body of the loop over the template's variables. *)
Definition validate_variable (m : Module_) (_ : ()) (var : string) : result message () :=
  if bool_decide (var ∈ RESERVED_VARS) then Ok ()
  else if existsb (λ p, bool_decide (mp_name p = var)) (mod_parameters m) then Ok ()
  else Err [Txt "template references undeclared variable {{ "; Txt var; Txt " }} — declare it as a parameter or remove it"].

Definition validate_module (m : Module_) : result message () :=
  if is_blank (mod_name m) then Err [Txt "module name must not be empty"]
  else if negb (forallb (λ c, is_alphanumeric c || char_is c 45 || char_is c 95) (chars (mod_name m))) then
    Err [Txt "module name "; Dbg (mod_name m); Txt " must be alphanumeric with optional '-' or '_'"]
  else if bool_decide (mod_name m ∈ ["service"; "cron-job-bundle"; "web-with-monitoring"]) then
    Err [Txt "module name "; Dbg (mod_name m); Txt " collides with a built-in composite"]
  else
  _ ← try_fold validate_parameter [] (mod_parameters m);
  try_fold (validate_variable m) () (template_variables (mod_template m)).

(** [Display] of a template error. *)
Definition template_error (e : TemplateError) : message :=
  match e with
  | Unterminated => [Txt "unterminated `{{` in template"]
  | MissingKey k => [Txt "template variable {{ "; Txt k; Txt " }} not found"]
  | NotScalar k => [Txt "template variable {{ "; Txt k; Txt " }} is array/object; only scalar substitution is supported"]
  end.

(** The fuel of the renderer never runs out ([render_template_total]). *)
Definition render_template (template : string) (vars : list (string * Json)) : result message string :=
  match render_json_top_scalars template vars with
  | Some r => map_err template_error r
  | None => Err []
  end.

Definition yaml_kind (v : Yaml) : string :=
  match v with
  | YNull => "null" | YBool _ => "bool" | YNumber _ => "number" | YString _ => "string"
  | YSequence _ => "sequence" | YMapping _ => "mapping" | YTagged _ _ => "tagged"
  end.

(** [m.entry(k).or_insert_with(|| json!({}))], then the object under it updated by [f]. *)
Definition entry_object (k : string) (f : list (string * Json) → list (string * Json)) (m : list (string * Json))
    : list (string * Json) :=
  match assoc_get k m with
  | Some (JObject o) => assoc_insert k (JObject (f o)) m
  | Some _ => m
  | None => assoc_insert k (JObject (f [])) m
  end.

Definition COMPOSITE_OF : string := "iac.example/composite-of".

Definition annotate (composite : string) (item : Json) : Json :=
  match item with
  | JObject m => JObject (entry_object "metadata"
      (entry_object "annotations" (assoc_insert COMPOSITE_OF (JString composite))) m)
  | _ => item
  end.

Definition bad_request {A} (m : message) : ApiResult A := Err (BadRequest m).

(** The value of one parameter: from the spec, its default, or none. *)
Definition parameter_value (m : Module_) (spec : list (string * Json)) (p : ModuleParameter) : ApiResult Json :=
  match assoc_get (mp_name p) spec with
  | Some v => Ok v
  | None =>
      match mp_default p with
      | Some d => Ok d
      | None =>
          if mp_required p then
            bad_request [Txt (mod_name m); Txt ": spec."; Txt (mp_name p); Txt " is required ("; Txt (mp_description p); Txt ")"]
          else Ok JNull
      end
  end.

Definition expand_module (m : Module_) (raw : Json) : ApiResult (list Json) :=
  metadata ← ok_or (json_get raw "metadata" ≫= as_object) (BadRequest [Txt (mod_name m); Txt ": metadata required"]);
  name ← ok_or (assoc_get "name" metadata ≫= as_str) (BadRequest [Txt (mod_name m); Txt ": metadata.name required"]);
  let environment := default "default" (assoc_get "environment" metadata ≫= as_str) in
  let spec := default [] (json_get raw "spec" ≫= as_object) in
  let vars0 := assoc_insert "environment" (JString environment) (assoc_insert "name" (JString name) []) in
  vars ← try_fold (λ vars p, v ← parameter_value m spec p; Ok (assoc_insert (mp_name p) v vars)) vars0 (mod_parameters m);
  _ ← try_fold (λ _ got,
        if existsb (λ p, bool_decide (mp_name p = got)) (mod_parameters m) then Ok ()
        else bad_request [Txt (mod_name m); Txt ": spec."; Txt got; Txt " is not a known parameter for module "; Txt (mod_name m)])
      () (map fst spec);
  rendered ← map_err (λ e, BadRequest ([Txt (mod_name m); Txt ": template render: "] ++ e)) (render_template (mod_template m) vars);
  parsed ← map_err (λ e, BadRequest [Txt (mod_name m); Txt ": template YAML: "; Ext e]) (yaml_from_str rendered);
  seq ← match parsed with
        | YSequence xs => Ok xs
        | other => bad_request [Txt (mod_name m); Txt ": template must produce a YAML sequence (array of resources), got ";
                                Dbg (yaml_kind other)]
        end;
  try_map (λ '(i, item),
      json_item ← map_err (λ e, BadRequest [Txt (mod_name m); Txt ": template item "; Dec (Z.of_nat i);
                                             Txt " not JSON-compatible: "; Ext e]) (yaml_to_json item);
      Ok (annotate (mod_name m) json_item)) (enumerate seq).

End Modules.

Lemma render_template_total `{Unicode} template vars :
  ∃ r, render_json_top_scalars template vars = Some r ∧ render_template template vars = map_err template_error r.
Proof.
  unfold render_template, render_json_top_scalars, render.
  destruct (render_loop_total (json_scalar vars) (S (String.length template)) "" template) as [r Hr]; [lia|].
  exists r. by rewrite Hr.
Qed.
