(* ===== verification/Expansion.v ===== *)
(** * Composite resources (crates/iac-controlplane/src/expansion.rs)

    The built-in composites, serde's reading of their specs, and the bounded
    loop that expands composites until only primitives are left. *)

From stdpp Require Import pretty.
From S2P Require Import Prelude Text Json ApiError Routing Db AuditLog Canary Operations Modules.

#[local] Open Scope string_scope.
#[local] Open Scope list_scope.
#[local] Open Scope nat_scope.

(** The text of serde's error for a value that is not of the named type. *)
Class SerdeErrors := { serde_error : string → Json → string }.

(** ** serde's derived readers

    A struct is read from an object without unknown keys, or from an array of
    its fields in order; a field that is absent is left to its default. *)

Definition decode_struct (fields : list string) (v : Json) : option (list (string * Json)) :=
  match v with
  | JObject m => if forallb (λ kv, bool_decide (kv.1 ∈ fields)) m then Some m else None
  | JArray xs => if length xs <=? length fields then Some (zip fields xs) else None
  | _ => None
  end.

Definition dec_string : Json → option string := as_str.
Definition dec_unsigned (max : Z) (v : Json) : option Z :=
  match v with JNumber n => parse_unsigned max n | _ => None end.
Definition dec_string_map (v : Json) : option (list (string * string)) :=
  match v with JObject m => mapM (λ kv, pair kv.1 <$> as_str kv.2) m | _ => None end.
(** [Option<T>]: [null] is [None]. *)
Definition dec_option {A} (dec : Json → option A) (v : Json) : option (option A) :=
  match v with JNull => Some None | _ => Some <$> dec v end.

Definition field_req {A} (dec : Json → option A) (k : string) (m : list (string * Json)) : option A :=
  assoc_get k m ≫= dec.
Definition field_or {A} (dec : Json → option A) (d : A) (k : string) (m : list (string * Json)) : option A :=
  match assoc_get k m with Some v => dec v | None => Some d end.

Definition u16_max : Z := 65535.

(** [HostSelector], kept as its name. *)
Definition dec_host_selector (v : Json) : option string :=
  m ← decode_struct ["name"] v; field_req dec_string "name" m.

Definition default_internal_port : Z := 80.
Definition default_restart_policy : string := "unless-stopped".
Definition default_cron_user : string := "root".
Definition default_script_mode : string := "0755".
Definition default_health_path : string := "/healthz".
Definition default_check_minutes : Z := 5.

Record ServiceSpec := mkServiceSpec {
  sv_image : string; sv_port : Z; sv_domain : string; sv_internal_port : Z; sv_env : list (string * string);
  sv_restart_policy : string; sv_nginx_config_path : option string; sv_host_selector : option string }.

Definition decode_service (v : Json) : option ServiceSpec :=
  m ← decode_struct ["image"; "port"; "domain"; "internal_port"; "env"; "restart_policy"; "nginx_config_path"; "hostSelector"] v;
  image ← field_req dec_string "image" m;
  port ← field_req (dec_unsigned u16_max) "port" m;
  domain ← field_req dec_string "domain" m;
  internal_port ← field_or (dec_unsigned u16_max) default_internal_port "internal_port" m;
  env ← field_or dec_string_map [] "env" m;
  restart_policy ← field_or dec_string default_restart_policy "restart_policy" m;
  nginx_config_path ← field_or (dec_option dec_string) None "nginx_config_path" m;
  host_selector ← field_or (dec_option dec_host_selector) None "hostSelector" m;
  Some (mkServiceSpec image port domain internal_port env restart_policy nginx_config_path host_selector).

Record CronJobBundleSpec := mkCronSpec {
  cr_schedule : string; cr_script : string; cr_script_path : option string; cr_user : string; cr_mode : string;
  cr_env : list (string * string); cr_host_selector : option string }.

Definition decode_cron (v : Json) : option CronJobBundleSpec :=
  m ← decode_struct ["schedule"; "script"; "scriptPath"; "user"; "mode"; "env"; "hostSelector"] v;
  schedule ← field_req dec_string "schedule" m;
  script ← field_req dec_string "script" m;
  script_path ← field_or (dec_option dec_string) None "scriptPath" m;
  user ← field_or dec_string default_cron_user "user" m;
  mode ← field_or dec_string default_script_mode "mode" m;
  env ← field_or dec_string_map [] "env" m;
  host_selector ← field_or (dec_option dec_host_selector) None "hostSelector" m;
  Some (mkCronSpec schedule script script_path user mode env host_selector).

Record WebWithMonitoringSpec := mkWebSpec {
  ww_image : string; ww_port : Z; ww_domain : string; ww_health_path : string; ww_check_interval_minutes : Z;
  ww_internal_port : Z; ww_env : list (string * string); ww_restart_policy : string; ww_host_selector : option string }.

Definition decode_web (v : Json) : option WebWithMonitoringSpec :=
  m ← decode_struct ["image"; "port"; "domain"; "health_path"; "check_interval_minutes"; "internal_port"; "env";
                     "restart_policy"; "hostSelector"] v;
  image ← field_req dec_string "image" m;
  port ← field_req (dec_unsigned u16_max) "port" m;
  domain ← field_req dec_string "domain" m;
  health_path ← field_or dec_string default_health_path "health_path" m;
  check_interval_minutes ← field_or (dec_unsigned u32_max) default_check_minutes "check_interval_minutes" m;
  internal_port ← field_or (dec_unsigned u16_max) default_internal_port "internal_port" m;
  env ← field_or dec_string_map [] "env" m;
  restart_policy ← field_or dec_string default_restart_policy "restart_policy" m;
  host_selector ← field_or (dec_option dec_host_selector) None "hostSelector" m;
  Some (mkWebSpec image port domain health_path check_interval_minutes internal_port env restart_policy host_selector).

(** ** The pieces of the emitted resources *)

Definition with_host_selector (hs : option string) (spec : list (string * Json)) : list (string * Json) :=
  match hs with
  | Some name => assoc_insert "hostSelector" (json_object [("name", JString name)]) spec
  | None => spec
  end.

Definition with_env (env : list (string * string)) (spec : list (string * Json)) : list (string * Json) :=
  match env with
  | [] => spec
  | _ => assoc_insert "env" (json_object (map (λ kv, (kv.1, JString kv.2)) env)) spec
  end.

(** The map after the inserts, in order. *)
Definition inserts (kvs : list (string * Json)) : list (string * Json) :=
  foldl (λ m kv, assoc_insert kv.1 kv.2 m) [] kvs.

Definition emitted (composite kind name environment : string) (spec : list (string * Json)) : Json :=
  json_object
    [("apiVersion", JString "iac.example/v1");
     ("kind", JString kind);
     ("metadata", json_object
        [("name", JString name); ("environment", JString environment);
         ("annotations", json_object [(COMPOSITE_OF, JString composite)])]);
     ("spec", JObject spec)].

Definition docker_resource (composite name environment image restart_policy : string) (port internal_port : Z)
    (env : list (string * string)) (hs : option string) : Json :=
  emitted composite "docker.container" name environment
    (with_host_selector hs (with_env env (inserts
      [("name", JString name); ("image", JString image); ("state", JString "present");
       ("restart_policy", JString restart_policy);
       ("ports", JArray [JString (pretty port +:+ ":" +:+ pretty internal_port)])]))).

Definition nginx_resource (composite name environment path domain : string) (port : Z) (hs : option string) : Json :=
  emitted composite "nginx.vhost" name environment
    (with_host_selector hs (inserts
      [("config_path", JString path); ("server_names", JArray [JString domain]);
       ("upstream", JString ("http://127.0.0.1:" +:+ pretty port))])).

Definition file_resource (composite name environment path mode content : string) (hs : option string) : Json :=
  emitted composite "file" name environment
    (with_host_selector hs (inserts
      [("path", JString path); ("state", JString "present"); ("mode", JString mode); ("content", JString content)])).

Definition cron_resource (composite name environment cron_name schedule command user : string)
    (env : list (string * string)) (hs : option string) : Json :=
  emitted composite "cron.job" name environment
    (with_host_selector hs (with_env env (inserts
      [("name", JString cron_name); ("state", JString "present"); ("schedule", JString schedule);
       ("command", JString command); ("user", JString user)]))).

(** The name and the environment in a composite's metadata. *)
Definition composite_head (composite : string) (raw : Json) : ApiResult (string * string) :=
  metadata ← ok_or (json_get raw "metadata" ≫= as_object) (BadRequest [Txt composite; Txt ": metadata required"]);
  name ← ok_or (assoc_get "name" metadata ≫= as_str) (BadRequest [Txt composite; Txt ": metadata.name required"]);
  Ok (name, default "default" (assoc_get "environment" metadata ≫= as_str)).

Section Expansion.
Context `{SerdeErrors}.

(** [raw.get("spec")], read as the composite's spec. *)
Definition composite_spec {A} (composite type : string) (decode : Json → option A) (raw : Json) : ApiResult A :=
  spec_value ← ok_or (json_get raw "spec") (BadRequest [Txt composite; Txt ": spec required"]);
  ok_or (decode spec_value) (BadRequest [Txt composite; Txt " spec: "; Ext (serde_error type spec_value)]).

Definition expand_service (raw : Json) : ApiResult (list Json) :=
  '(name, environment) ← composite_head "service" raw;
  spec ← composite_spec "service" "ServiceSpec" decode_service raw;
  let nginx_path := default ("/etc/nginx/conf.d/" +:+ name +:+ ".conf") (sv_nginx_config_path spec) in
  Ok [docker_resource "service" name environment (sv_image spec) (sv_restart_policy spec) (sv_port spec)
        (sv_internal_port spec) (sv_env spec) (sv_host_selector spec);
      nginx_resource "service" name environment nginx_path (sv_domain spec) (sv_port spec) (sv_host_selector spec)].

Definition expand_cron_job_bundle (raw : Json) : ApiResult (list Json) :=
  '(name, environment) ← composite_head "cron-job-bundle" raw;
  spec ← composite_spec "cron-job-bundle" "CronJobBundleSpec" decode_cron raw;
  let script_path := default ("/usr/local/bin/" +:+ name) (cr_script_path spec) in
  Ok [file_resource "cron-job-bundle" (name +:+ "-script") environment script_path (cr_mode spec) (cr_script spec)
        (cr_host_selector spec);
      cron_resource "cron-job-bundle" name environment name (cr_schedule spec) script_path (cr_user spec)
        (cr_env spec) (cr_host_selector spec)].

Definition nl : string := String (Ascii.ascii_of_N 10) "".

Definition healthcheck_script (name url : string) : string :=
  "#!/bin/sh" +:+ nl +:+ "set -e" +:+ nl +:+ "curl --max-time 5 --silent --show-error --fail " +:+ url +:+
  " > /dev/null && logger -t " +:+ name +:+ "-healthcheck OK || logger -t " +:+ name +:+ "-healthcheck FAIL" +:+ nl.

Definition expand_web_with_monitoring (raw : Json) : ApiResult (list Json) :=
  '(name, environment) ← composite_head "web-with-monitoring" raw;
  spec ← composite_spec "web-with-monitoring" "WebWithMonitoringSpec" decode_web raw;
  let every := ww_check_interval_minutes spec in
  if negb ((1 <=? every) && (every <=? 60))%Z then
    Err (BadRequest [Txt "web-with-monitoring: check_interval_minutes must be 1..=60"])
  else
  let nginx_path := "/etc/nginx/conf.d/" +:+ name +:+ ".conf" in
  let script_path := "/usr/local/bin/" +:+ name +:+ "-healthcheck" in
  let url := "http://127.0.0.1:" +:+ pretty (ww_port spec) +:+ ww_health_path spec in
  let schedule := if (every =? 1)%Z then "* * * * *" else "*/" +:+ pretty every +:+ " * * * *" in
  let composite := "web-with-monitoring" in
  Ok [docker_resource composite name environment (ww_image spec) (ww_restart_policy spec) (ww_port spec)
        (ww_internal_port spec) (ww_env spec) (ww_host_selector spec);
      nginx_resource composite name environment nginx_path (ww_domain spec) (ww_port spec) (ww_host_selector spec);
      file_resource composite (name +:+ "-healthcheck-script") environment script_path "0755"
        (healthcheck_script name url) (ww_host_selector spec);
      cron_resource composite (name +:+ "-healthcheck") environment (name +:+ "-healthcheck") schedule script_path
        "root" [] (ww_host_selector spec)].

(** ** The loop *)

Context `{Unicode, YamlCodec}.

Definition MAX_EXPANSION_DEPTH : nat := 8.

Definition builtin_composites : list string := ["service"; "cron-job-bundle"; "web-with-monitoring"].

Definition is_composite_kind (kind : string) (modules : list Module_) : bool :=
  bool_decide (kind ∈ builtin_composites) || existsb (λ m, bool_decide (mod_name m = kind)) modules.

(** [raw.get("kind").as_str()]. *)
Definition kind_of (raw : Json) : option string := json_get raw "kind" ≫= as_str.

(** The body of the loop over the resources. *)
Definition expand_one (modules : list Module_) (acc : list Json * bool) (raw : Json) : ApiResult (list Json * bool) :=
  let '(out, changed) := acc in
  kind ← ok_or (kind_of raw) (BadRequest [Txt "resource missing 'kind'"]);
  if decide (kind = "service") then rs ← expand_service raw; Ok (out ++ rs, true)
  else if decide (kind = "cron-job-bundle") then rs ← expand_cron_job_bundle raw; Ok (out ++ rs, true)
  else if decide (kind = "web-with-monitoring") then rs ← expand_web_with_monitoring raw; Ok (out ++ rs, true)
  else
    match List.find (λ m, bool_decide (mod_name m = kind)) modules with
    | Some m => rs ← expand_module m raw; Ok (out ++ rs, true)
    | None => Ok (out ++ [raw], changed)
    end.

Definition expand_resources_one_pass (resources : list Json) (modules : list Module_) : ApiResult (list Json * bool) :=
  try_fold (expand_one modules) ([], false) resources.

(** The composite kinds left, as the [BTreeSet] the error shows. *)
Definition cyclic_kinds (modules : list Module_) (resources : list Json) : list string :=
  remove_dups (order_by str_le (List.filter (λ k, is_composite_kind k modules) (omap kind_of resources))).

(** [{set:?}]. *)
Definition debug_set (ks : list string) : message :=
  [Txt "{"] ++ match ks with [] => [] | k :: ks => Dbg k :: mjoin (map (λ k, [Txt ", "; Dbg k]) ks) end ++ [Txt "}"].

(** [for depth in 0..=MAX]: [more] passes may still follow this one. *)
Fixpoint expand_passes (more : nat) (modules : list Module_) (current : list Json) : ApiResult (list Json) :=
  '(next, changed) ← expand_resources_one_pass current modules;
  if negb changed then Ok next
  else
    match more with
    | O => Err (BadRequest
        ([Txt "expansion exceeded MAX_EXPANSION_DEPTH ("; Dec (Z.of_nat MAX_EXPANSION_DEPTH);
          Txt "); likely a recursive module cycle. Composite kinds remaining after final pass: "]
         ++ debug_set (cyclic_kinds modules next)))
    | S more => expand_passes more modules next
    end.

Definition expand_resources (resources : list Json) (modules : list Module_) : ApiResult (list Json) :=
  expand_passes MAX_EXPANSION_DEPTH modules resources.

End Expansion.

(** ** The catalogue *)

Record SpecField := mkSpecField { sf_name : string; sf_type : string; sf_required : bool; sf_description : string }.
Record ExpanderDescriptor := mkDescriptor {
  ed_kind : string; ed_description : string; ed_emits : list string; ed_spec_fields : list SpecField }.

Definition f_req (name type description : string) : SpecField := mkSpecField name type true description.
Definition f_opt (name type description : string) : SpecField := mkSpecField name type false description.

Definition module_descriptor (m : Module_) : ExpanderDescriptor :=
  mkDescriptor (mod_name m) (mod_description m) (mod_emits m)
    (map (λ p, mkSpecField (mp_name p) (mp_type p) (mp_required p) (mp_description p)) (mod_parameters m)).

(** A string of one quotation mark. *)
Definition dquote : string := String (Ascii.ascii_of_N 34) "".

Definition list_expanders : list ExpanderDescriptor :=
  [mkDescriptor "service"
     "docker.container + nginx.vhost — a web service behind a reverse proxy"
     ["docker.container"; "nginx.vhost"]
     [f_req "image" "string" "Container image reference (e.g. nginx:1.27-alpine)";
      f_req "port" "number" "Published host port (1..=65535)";
      f_req "domain" "string" "Public domain wired into the nginx vhost";
      f_opt "internal_port" "number" "Container's listen port; default 80";
      f_opt "env" "map<string,string>" "Container env vars (KEY=VALUE)";
      f_opt "restart_policy" "string" ("Docker restart policy; default " +:+ dquote +:+ "unless-stopped" +:+ dquote +:+ "");
      f_opt "nginx_config_path" "string" "Override the nginx config path; default /etc/nginx/conf.d/<name>.conf";
      f_opt "hostSelector" "object" "{ name: <agent-name> } pinning the resources to a specific agent"];
   mkDescriptor "cron-job-bundle"
     "file (script body) + cron.job (schedule) tied together so the cron command points at the script path"
     ["cron.job"; "file"]
     [f_req "schedule" "string" "5-field crontab schedule (min hour dom mon dow)";
      f_req "script" "string" "Verbatim script body written to scriptPath";
      f_opt "scriptPath" "string" "Override script location; default /usr/local/bin/<name>";
      f_opt "user" "string" "Cron user; default root";
      f_opt "mode" "string" "File mode (octal string); default 0755";
      f_opt "env" "map<string,string>" "Cron env-var lines emitted at the top of the cron file";
      f_opt "hostSelector" "object" "{ name: <agent-name> } pinning the resources to a specific agent"];
   mkDescriptor "web-with-monitoring"
     "service + healthcheck (file + cron.job that curls the upstream's health path and logs to syslog)"
     ["cron.job"; "docker.container"; "file"; "nginx.vhost"]
     [f_req "image" "string" "Container image reference";
      f_req "port" "number" "Published host port";
      f_req "domain" "string" "Public domain";
      f_opt "health_path" "string" "Path probed by the healthcheck; default /healthz";
      f_opt "check_interval_minutes" "number" "Probe cadence in minutes (1..=60); default 5";
      f_opt "internal_port" "number" "Container's listen port; default 80";
      f_opt "env" "map<string,string>" "Container env vars";
      f_opt "restart_policy" "string" ("Docker restart policy; default " +:+ dquote +:+ "unless-stopped" +:+ dquote +:+ "");
      f_opt "hostSelector" "object" "{ name: <agent-name> } pinning the resources to a specific agent"]].

Definition list_all_expanders (modules : list Module_) : list ExpanderDescriptor :=
  list_expanders ++ map module_descriptor modules.
