(* ===== verification/ExpansionProps.v ===== *)
(** * Composite resources: what expansion delivers

    That expansion ends in primitives only and leaves primitives alone, that
    the resources of a built-in composite are well formed, distinct and
    consistent with each other, and that the catalogue names the fields the
    readers accept. *)

From stdpp Require Import pretty.
From S2P Require Import Prelude Text Json ApiError Routing Db AuditLog Canary Operations Modules Expansion.

#[local] Open Scope string_scope.
#[local] Open Scope list_scope.
#[local] Open Scope nat_scope.

(** ** The loop *)

Section Loop.
Context `{SerdeErrors, Unicode, YamlCodec}.

(** A resource that no pass expands. *)
Definition primitive (modules : list Module_) (raw : Json) : Prop :=
  ∃ kind, kind_of raw = Some kind ∧ is_composite_kind kind modules = false.

Lemma not_composite kind modules :
  is_composite_kind kind modules = false ↔
  kind ∉ builtin_composites ∧ List.find (λ m, bool_decide (mod_name m = kind)) modules = None.
Proof.
  unfold is_composite_kind. rewrite orb_false_iff, bool_decide_eq_false. apply and_iff_compat_l.
  induction modules as [|m ms IH]; [done|]. cbn. case_bool_decide; cbn; [done|exact IH].
Qed.

Lemma expand_one_primitive modules out changed raw :
  primitive modules raw → expand_one modules (out, changed) raw = Ok (out ++ [raw], changed).
Proof.
  intros (kind & Hk & [Hb Hm]%not_composite). unfold expand_one. rewrite Hk. cbn [ok_or mbind result_bind].
  rewrite !decide_False by (intros ->; apply Hb; unfold builtin_composites; set_solver). by rewrite Hm.
Qed.

Lemma expand_one_unchanged modules out changed raw out' :
  expand_one modules (out, changed) raw = Ok (out', false) →
  changed = false ∧ primitive modules raw ∧ out' = out ++ [raw].
Proof.
  unfold expand_one. destruct (kind_of raw) as [kind|] eqn:Ek; [|done]. cbn [ok_or mbind result_bind].
  destruct (decide (kind = "service")); [by destruct (expand_service raw)|].
  destruct (decide (kind = "cron-job-bundle")); [by destruct (expand_cron_job_bundle raw)|].
  destruct (decide (kind = "web-with-monitoring")); [by destruct (expand_web_with_monitoring raw)|].
  destruct (List.find _ modules) as [m|] eqn:Ef; [by destruct (expand_module m raw)|].
  intros [= <- ->]. split_and!; [done| |done]. exists kind. split; [done|]. apply not_composite. split; [|done].
  unfold builtin_composites. set_solver.
Qed.

Lemma one_pass_primitive modules resources out changed :
  Forall (primitive modules) resources →
  try_fold (expand_one modules) (out, changed) resources = Ok (out ++ resources, changed).
Proof.
  intros Hp. revert out. induction Hp as [|raw rs Hr _ IH]; intros out; [by rewrite app_nil_r|].
  cbn [try_fold]. rewrite expand_one_primitive by done. cbn [mbind result_bind]. rewrite IH. by rewrite <- app_assoc.
Qed.

Lemma one_pass_unchanged modules resources : ∀ out changed out',
  try_fold (expand_one modules) (out, changed) resources = Ok (out', false) →
  Forall (primitive modules) resources ∧ changed = false ∧ out' = out ++ resources.
Proof.
  induction resources as [|raw rs IH]; intros out changed out'; cbn [try_fold].
  { intros [= -> ->]. by rewrite app_nil_r. }
  destruct (expand_one modules (out, changed) raw) as [[out1 changed1]|e] eqn:E1; [|done]. cbn [mbind result_bind].
  intros (Hp & -> & ->)%IH. apply expand_one_unchanged in E1 as (-> & Hr & ->).
  split_and!; [by constructor|done|by rewrite <- app_assoc].
Qed.

Lemma expand_passes_primitive modules : ∀ more current out,
  expand_passes more modules current = Ok out → Forall (primitive modules) out.
Proof.
  induction more as [|more IH]; intros current out; cbn [expand_passes];
    unfold expand_resources_one_pass; destruct (try_fold _ _ current) as [[next []]|e] eqn:E; cbn; try done.
  - intros [= <-]. apply one_pass_unchanged in E as (Hp & _ & ->). done.
  - apply IH.
  - intros [= <-]. apply one_pass_unchanged in E as (Hp & _ & ->). done.
Qed.

(** Resources that are primitive come out as they went in. *)
Lemma expand_resources_primitive modules resources :
  Forall (primitive modules) resources → expand_resources resources modules = Ok resources.
Proof.
  intros Hp. unfold expand_resources. cbn [expand_passes MAX_EXPANSION_DEPTH]. unfold expand_resources_one_pass.
  by rewrite one_pass_primitive.
Qed.

(** C37: Expansion ends with primitives only: no resource of its result has a
    composite kind, whatever the modules emit into each other, and expanding
    the result again changes nothing; a list that holds only primitives is
    returned as it is. *)
Theorem expansion_reaches_primitives modules resources :
  (∀ out, expand_resources resources modules = Ok out →
     Forall (primitive modules) out ∧ expand_resources out modules = Ok out) ∧
  (Forall (primitive modules) resources → expand_resources resources modules = Ok resources).
Proof.
  split; [|apply expand_resources_primitive]. intros out Hout.
  assert (Forall (primitive modules) out) as Hp by by eapply expand_passes_primitive.
  split; [done|by apply expand_resources_primitive].
Qed.

End Loop.

(** ** The shape of what a composite emits *)

(** A resource as the routing and the agent read it: the API version, the
    kind, a name, the environment, the mark of its composite, an object for a
    spec, with the host it is pinned to. *)
Definition well_formed (kind name environment composite : string) (hs : option string) (r : Json) : bool :=
  bool_decide (json_get r "apiVersion" ≫= as_str = Some "iac.example/v1") &&
  bool_decide (kind_of r = Some kind) &&
  bool_decide (json_get2 r "metadata" "name" ≫= as_str = Some name) &&
  bool_decide (json_get2 r "metadata" "environment" ≫= as_str = Some environment) &&
  bool_decide ((a ← json_get2 r "metadata" "annotations"; json_get a COMPOSITE_OF ≫= as_str) = Some composite) &&
  bool_decide (is_Some (json_get r "spec" ≫= as_object)) &&
  bool_decide (host_selector_of r = hs).

Lemma emitted_well_formed composite kind name environment spec hs :
  (h ← assoc_get "hostSelector" spec; v ← json_get h "name"; as_str v) = hs →
  well_formed kind name environment composite hs (emitted composite kind name environment spec) = true.
Proof.
  intros Hh. unfold well_formed, emitted, json_object, host_selector_of, kind_of. cbn.
  rewrite !bool_decide_true; try done; eauto.
Qed.

Lemma inserts_no_host (kvs : list (string * Json)) m :
  "hostSelector" ∉ map fst kvs → assoc_get "hostSelector" m = None →
  assoc_get "hostSelector" (foldl (λ m kv, assoc_insert kv.1 kv.2 m) m kvs) = None.
Proof.
  revert m. induction kvs as [|[k v] kvs IH]; intros m Hk Hm; [done|]. cbn in *.
  apply not_elem_of_cons in Hk as [Hne Hk]. apply IH; [done|]. by rewrite assoc_get_insert_ne by congruence.
Qed.

Lemma with_host_selector_get hs spec :
  assoc_get "hostSelector" spec = None →
  (h ← assoc_get "hostSelector" (with_host_selector hs spec); v ← json_get h "name"; as_str v) = hs.
Proof.
  intros Hs. destruct hs as [name|]; cbn [with_host_selector]; [|by rewrite Hs].
  by rewrite assoc_get_insert_eq.
Qed.

Lemma with_env_no_host env spec :
  assoc_get "hostSelector" spec = None → assoc_get "hostSelector" (with_env env spec) = None.
Proof. intros Hs. destruct env as [|kv env]; [done|]. cbn [with_env]. by rewrite assoc_get_insert_ne. Qed.

Lemma docker_well_formed composite name environment image restart port internal env hs :
  well_formed "docker.container" name environment composite hs
    (docker_resource composite name environment image restart port internal env hs) = true.
Proof. apply emitted_well_formed, with_host_selector_get, with_env_no_host. done. Qed.
Lemma nginx_well_formed composite name environment path domain port hs :
  well_formed "nginx.vhost" name environment composite hs
    (nginx_resource composite name environment path domain port hs) = true.
Proof. apply emitted_well_formed, with_host_selector_get. done. Qed.
Lemma file_well_formed composite name environment path mode content hs :
  well_formed "file" name environment composite hs
    (file_resource composite name environment path mode content hs) = true.
Proof. apply emitted_well_formed, with_host_selector_get. done. Qed.
Lemma cron_well_formed composite name environment cron_name schedule command user env hs :
  well_formed "cron.job" name environment composite hs
    (cron_resource composite name environment cron_name schedule command user env hs) = true.
Proof. apply emitted_well_formed, with_host_selector_get, with_env_no_host. done. Qed.

(** A well-formed resource routes under its environment. *)
Lemma well_formed_routes `{JsonCodec} kind name environment composite hs r :
  well_formed kind name environment composite hs r = true →
  ∃ routed, extract_routing r environment = Ok routed ∧
    resource_id routed = kind +:+ "/" +:+ environment +:+ "/" +:+ name ∧ host_selector routed = hs.
Proof.
  unfold well_formed. rewrite !andb_true_iff. intros [[[[[[_ Hk] Hn] He] _] _] Hh].
  apply bool_decide_eq_true in Hk, Hn, He, Hh. unfold extract_routing, kind_of in *. rewrite Hk. cbn [ok_or mbind result_bind].
  rewrite Hn. cbn [ok_or mbind result_bind]. rewrite He, decide_True by done. cbn [mbind result_bind].
  eexists. split; [reflexivity|]. by rewrite Hh.
Qed.

(** It is refused under any other. *)
Lemma well_formed_other_env `{JsonCodec} kind name environment composite hs r op_env :
  well_formed kind name environment composite hs r = true → environment ≠ op_env →
  ∃ msg, extract_routing r op_env = Err (BadRequest msg).
Proof.
  unfold well_formed. rewrite !andb_true_iff. intros [[[[[[_ Hk] Hn] He] _] _] Hh] Hne.
  apply bool_decide_eq_true in Hk, Hn, He, Hh. unfold extract_routing, kind_of in *. rewrite Hk. cbn [ok_or mbind result_bind].
  rewrite Hn. cbn [ok_or mbind result_bind]. rewrite He, decide_False by done. cbn. eauto.
Qed.

(** The kinds and names a built-in composite emits for [name]. *)
Definition emits_of (composite name : string) : list (string * string) :=
  if decide (composite = "service") then [("docker.container", name); ("nginx.vhost", name)]
  else if decide (composite = "cron-job-bundle") then [("file", name +:+ "-script"); ("cron.job", name)]
  else if decide (composite = "web-with-monitoring") then
    [("docker.container", name); ("nginx.vhost", name); ("file", name +:+ "-healthcheck-script");
     ("cron.job", name +:+ "-healthcheck")]
  else [].

Section Builtins.
Context `{SerdeErrors}.

Definition expand_builtin (composite : string) (raw : Json) : ApiResult (list Json) :=
  if decide (composite = "service") then expand_service raw
  else if decide (composite = "cron-job-bundle") then expand_cron_job_bundle raw
  else expand_web_with_monitoring raw.

(** The host a composite's manifest pins its resources to. The derived reader
    also takes a struct from an array, by position; this is for the rest. *)
Definition by_field (raw : Json) : Prop :=
  ∃ m, json_get raw "spec" = Some (JObject m) ∧ ∀ xs, assoc_get "hostSelector" m ≠ Some (JArray xs).
Definition pinned_to (raw : Json) (hs : option string) : Prop := by_field raw → hs = host_selector_of raw.

(** Reading the host selector of a spec is reading its name. *)
Lemma decoded_host raw fields m hs :
  json_get raw "spec" ≫= decode_struct fields = Some m →
  field_or (dec_option dec_host_selector) None "hostSelector" m = Some hs → pinned_to raw hs.
Proof.
  intros Hm Hf (m' & Hs & Harr). rewrite Hs in Hm. cbn [mbind option_bind decode_struct] in Hm.
  destruct (forallb _ m'); [|done]. injection Hm as ->. unfold host_selector_of. rewrite Hs.
  unfold field_or in Hf. cbn [mbind option_bind json_get]. destruct (assoc_get "hostSelector" m) as [v|]; [|by injection Hf].
  destruct v as [| | | |xs|h]; cbn [dec_option] in Hf; try done; [by injection Hf|by destruct (Harr xs)|].
  unfold dec_host_selector in Hf. cbn [decode_struct] in Hf. destruct (forallb _ h); [|done].
  cbn [mbind option_bind] in Hf |- *. unfold field_req in Hf. unfold dec_string in Hf. cbn [json_get].
  destruct (assoc_get "name" h) as [v|]; [|done]. cbn [mbind option_bind] in Hf |- *.
  destruct (as_str v); [|done]. by injection Hf.
Qed.

(** What a composite's reader takes from its spec. *)
Lemma spec_pinned {A} composite type fields (decode : Json → option A) (sel : A → option string) raw spec :
  (∀ v x, decode v = Some x → ∃ m, decode_struct fields v = Some m ∧
     field_or (dec_option dec_host_selector) None "hostSelector" m = Some (sel x)) →
  composite_spec composite type decode raw = Ok spec → pinned_to raw (sel spec).
Proof.
  unfold composite_spec. intros Hdec. destruct (json_get raw "spec") as [v|] eqn:Hs; [|done]. cbn [ok_or mbind result_bind].
  destruct (decode v) as [x|] eqn:Hx; [|done]. intros [= <-]. destruct (Hdec v x Hx) as (m & Hm & Hf).
  eapply decoded_host; [|exact Hf]. rewrite Hs. exact Hm.
Qed.

Ltac reads_host := intros v x Hx; apply bind_Some in Hx as (m & Hm & Hx); exists m; split; [exact Hm|];
  repeat (apply bind_Some in Hx as (? & ? & Hx)); injection Hx as <-; assumption.

(** The name and the environment are those of the manifest's metadata. *)
Lemma composite_head_Ok composite raw name environment :
  composite_head composite raw = Ok (name, environment) →
  json_get2 raw "metadata" "name" ≫= as_str = Some name ∧
  environment = default "default" (json_get2 raw "metadata" "environment" ≫= as_str).
Proof.
  unfold composite_head, json_get2. destruct (json_get raw "metadata") as [[| | | | |m]|]; try done. cbn.
  destruct (assoc_get "name" m) as [v|]; [|done]. cbn. destruct (as_str v); [|done]. by intros [= <- <-].
Qed.

(** The resources of [composite] have the shapes [emits_of] lists. *)
Definition shaped (composite : string) (raw : Json) (rs : list Json) : Prop :=
  ∃ name environment hs, composite_head composite raw = Ok (name, environment) ∧ pinned_to raw hs ∧
    Forall2 (λ kn r, well_formed kn.1 kn.2 environment composite hs r = true) (emits_of composite name) rs.

Lemma service_shaped raw rs : expand_service raw = Ok rs → shaped "service" raw rs.
Proof.
  unfold expand_service, shaped. destruct (composite_head "service" raw) as [[name env]|]; [|done]. cbn [mbind result_bind].
  destruct (composite_spec _ _ _ raw) as [spec|] eqn:Hspec; [|done]. cbn [mbind result_bind]. intros [= <-].
  exists name, env, (sv_host_selector spec). split; [done|]. split; [eapply spec_pinned; [|exact Hspec]; reads_host|].
  constructor; [apply docker_well_formed|constructor; [apply nginx_well_formed|constructor]].
Qed.

Lemma cron_job_bundle_shaped raw rs : expand_cron_job_bundle raw = Ok rs → shaped "cron-job-bundle" raw rs.
Proof.
  unfold expand_cron_job_bundle, shaped. destruct (composite_head "cron-job-bundle" raw) as [[name env]|]; [|done]. cbn [mbind result_bind].
  destruct (composite_spec _ _ _ raw) as [spec|] eqn:Hspec; [|done]. cbn [mbind result_bind]. intros [= <-].
  exists name, env, (cr_host_selector spec). split; [done|]. split; [eapply spec_pinned; [|exact Hspec]; reads_host|].
  constructor; [apply file_well_formed|constructor; [apply cron_well_formed|constructor]].
Qed.

Lemma web_with_monitoring_shaped raw rs : expand_web_with_monitoring raw = Ok rs → shaped "web-with-monitoring" raw rs.
Proof.
  unfold expand_web_with_monitoring, shaped. destruct (composite_head "web-with-monitoring" raw) as [[name env]|]; [|done]. cbn [mbind result_bind].
  destruct (composite_spec _ _ _ raw) as [spec|] eqn:Hspec; [|done]. cbn [mbind result_bind]. destruct (negb _); [done|]. intros [= <-].
  exists name, env, (ww_host_selector spec). split; [done|]. split; [eapply spec_pinned; [|exact Hspec]; reads_host|].
  constructor; [apply docker_well_formed|constructor; [apply nginx_well_formed|constructor; [apply file_well_formed|
    constructor; [apply cron_well_formed|constructor]]]].
Qed.

Lemma builtin_shaped composite raw rs :
  composite ∈ builtin_composites → expand_builtin composite raw = Ok rs → shaped composite raw rs.
Proof.
  unfold builtin_composites, expand_builtin. rewrite !elem_of_cons, elem_of_nil.
  intros [->|[->|[->|[]]]]; [apply service_shaped|apply cron_job_bundle_shaped|apply web_with_monitoring_shaped].
Qed.

(** Their resource ids differ. *)
Lemma emits_distinct composite name environment :
  NoDup (map (λ kn, kn.1 +:+ "/" +:+ environment +:+ "/" +:+ kn.2) (emits_of composite name)).
Proof.
  unfold emits_of. repeat case_decide; cbn [map fst snd].
  all: repeat (apply NoDup_cons; split; [rewrite ?not_elem_of_cons; repeat split; try discriminate; by intros ?%elem_of_nil|]).
  all: constructor.
Qed.

(** C38: Every resource a built-in composite emits is well typed: it has the
    API version, one of the composite's kinds with the name made from the
    composite's, the environment of the composite's metadata (the text
    "default" when they have none), the composite's mark, an object for its
    spec, and the host the composite's spec selects, in its hostSelector, or
    none when it selects none. Routed under that environment all of them are
    accepted, with that host, and with pairwise different resource ids. The
    host is stated of a spec that is an object and does not give the selector
    as an array. *)
Theorem builtin_expansion_typed `{JsonCodec} composite raw rs :
  composite ∈ builtin_composites → expand_builtin composite raw = Ok rs → by_field raw →
  ∃ name routed,
    let environment := default "default" (json_get2 raw "metadata" "environment" ≫= as_str) in
    json_get2 raw "metadata" "name" ≫= as_str = Some name ∧
    Forall2 (λ kn r, well_formed kn.1 kn.2 environment composite (host_selector_of raw) r = true)
      (emits_of composite name) rs ∧
    Forall2 (λ r q, extract_routing r environment = Ok q ∧ host_selector q = host_selector_of raw) rs routed ∧
    map resource_id routed =
      map (λ kn, kn.1 +:+ "/" +:+ environment +:+ "/" +:+ kn.2) (emits_of composite name) ∧
    NoDup (map resource_id routed).
Proof.
  intros Hc Hx Hby. destruct (builtin_shaped composite raw rs Hc Hx) as (name & env & hs & Hh & Hp & Hf).
  apply composite_head_Ok in Hh as [Hn ->]. rewrite (Hp Hby) in Hf. set (env := default _ _) in *.
  assert (∃ routed, Forall2 (λ r q, extract_routing r env = Ok q ∧ host_selector q = host_selector_of raw) rs routed ∧
            map resource_id routed = map (λ kn, kn.1 +:+ "/" +:+ env +:+ "/" +:+ kn.2) (emits_of composite name))
    as (routed & Hr & Hids).
  { clear -Hf. induction Hf as [|kn r ks rs Hw _ (routed & Hr & Hi)]; [by exists []|].
    destruct (well_formed_routes _ _ _ _ _ _ Hw) as (q & Hq & Hid & Hhost). exists (q :: routed).
    split; [by constructor|]. cbn [map]. by rewrite Hid, Hi. }
  exists name, routed. split_and!; [done..|]. rewrite Hids. apply emits_distinct.
Qed.

(** A composite whose metadata leave the environment out expands into
    resources of the environment "default", and these are refused under every
    other, though a primitive without one inherits the operation's. *)
Lemma composite_without_environment `{JsonCodec} composite raw rs op_env :
  composite ∈ builtin_composites → expand_builtin composite raw = Ok rs →
  json_get2 raw "metadata" "environment" = None → op_env ≠ "default" →
  Forall (λ r, ∃ msg, extract_routing r op_env = Err (BadRequest msg)) rs.
Proof.
  intros Hc Hx Hnone Hne. destruct (builtin_shaped composite raw rs Hc Hx) as (name & env & hs & Hh & _ & Hf).
  assert (env = "default") as ->.
  { unfold composite_head, json_get2 in *. destruct (json_get raw "metadata") as [[| | | | |m]|]; try done. cbn in *.
    destruct (assoc_get "name" m) as [[]|]; try done. cbn in Hh. rewrite Hnone in Hh. cbn in Hh. congruence. }
  clear -Hf Hne. induction Hf as [|kn r ks rs Hw _ IH]; constructor; [|done]. by eapply well_formed_other_env.
Qed.

End Builtins.

(** ** The catalogue *)

(** What a reader accepts, as the catalogue would list it: its fields, in
    order, with whether each must be present. *)
Definition accepts {A} (decode : Json → option A) (fields : list (string * bool)) : Prop :=
  (∀ m v, decode (JObject m) = Some v → ∀ k, is_Some (assoc_get k m) → k ∈ fields.*1) ∧
  (∀ m v, decode (JObject m) = Some v → ∀ k, (k, true) ∈ fields → is_Some (assoc_get k m)) ∧
  ∃ m v, decode (JObject m) = Some v ∧ ∀ k, is_Some (assoc_get k m) ↔ (k, true) ∈ fields.

Definition catalogue_fields (d : ExpanderDescriptor) : list (string * bool) :=
  map (λ f, (sf_name f, sf_required f)) (ed_spec_fields d).

Lemma decode_struct_known fields m m' :
  decode_struct fields (JObject m) = Some m' → m' = m ∧ ∀ k, is_Some (assoc_get k m) → k ∈ fields.
Proof.
  cbn. destruct (forallb _ m) eqn:Ef; [|done]. intros [= <-]. split; [done|]. intros k [v Hk].
  rewrite forallb_forall in Ef. induction m as [|[k' v'] m IH]; [done|]. cbn in Hk. case_decide; subst.
  - eapply bool_decide_eq_true_1. apply (Ef (k', v')). by left.
  - apply IH; [|done]. intros kv Hin. apply Ef. by right.
Qed.

Lemma field_req_present {A} (dec : Json → option A) k m v : field_req dec k m = Some v → is_Some (assoc_get k m).
Proof. unfold field_req. destruct (assoc_get k m); [eauto|done]. Qed.

(** Opens a reader's equation: the struct, then each field in turn. *)
Ltac decode_fields H :=
  let Hs := fresh "Hs" in let Hk := fresh "Hknown" in
  apply bind_Some in H as (? & Hs & H); apply decode_struct_known in Hs as [-> Hk];
  repeat (let Hf := fresh "Hf" in apply bind_Some in H as (? & Hf & H); try apply field_req_present in Hf).

(** The three parts of [accepts], with a smallest document. *)
Ltac accepts_reader doc :=
  split; [intros m v Hd k Hk; decode_fields Hd; match goal with Hx : ∀ k, is_Some _ → _ |- _ => by apply Hx end|split];
  [intros m v Hd k Hk; decode_fields Hd; rewrite !elem_of_cons, elem_of_nil in Hk; naive_solver
  |exists doc; eexists; split; [vm_compute; reflexivity|intros k; cbn; rewrite !elem_of_cons, elem_of_nil;
     repeat case_decide; subst; unfold is_Some; naive_solver]].

(** The catalogue is in step with the readers: the spec fields it lists
    for each built-in composite are exactly the fields the reader knows, the
    ones it marks required are exactly those the reader insists on, and the
    kinds it lists are those the composite emits. *)
Theorem catalogue_in_step :
  match list_expanders with
  | [service; cron; web] =>
      accepts decode_service (catalogue_fields service) ∧ accepts decode_cron (catalogue_fields cron) ∧
      accepts decode_web (catalogue_fields web) ∧
      Forall (λ d, ed_kind d ∈ builtin_composites ∧ ∀ name k, k ∈ ed_emits d ↔ k ∈ (emits_of (ed_kind d) name).*1)
        [service; cron; web]
  | _ => False
  end.
Proof.
  cbn [list_expanders]. unfold catalogue_fields. cbn [map ed_spec_fields sf_name sf_required f_req f_opt]. split_and!.
  - accepts_reader [("image", JString "i"); ("port", JNumber "80"); ("domain", JString "d")].
  - accepts_reader [("schedule", JString "s"); ("script", JString "b")].
  - accepts_reader [("image", JString "i"); ("port", JNumber "80"); ("domain", JString "d")].
  - rewrite !Forall_cons. split_and!; [..|by constructor].
    all: try (cbn; unfold builtin_composites; set_solver).
    all: intros name k; cbn; set_solver.
Qed.

(** The readers accept the port zero, which the catalogue's text excludes. *)
Lemma port_zero_accepted :
  decode_service (JObject [("domain", JString "d"); ("image", JString "i"); ("port", JNumber "0")]) =
  Some (mkServiceSpec "i" 0 "d" 80 [] "unless-stopped" None None).
Proof. vm_compute. reflexivity. Qed.

(** ** At concrete inputs *)

Definition demo_serde : SerdeErrors := {| serde_error t _ := "invalid " +:+ t |}.
Definition expansion_codec : JsonCodec := {| json_from_str _ := Err "unused"; json_to_string _ := "json" |}.
(** A YAML in which every text is one [kind] of resource. *)
Definition demo_yaml : YamlCodec := {|
  yaml_from_str t := Ok (YSequence [YString t]);
  yaml_to_json v := match v with YString k => Ok (JObject [("kind", JString k); ("metadata", JObject [("name", JString "x")])]) | _ => Err "unsupported" end |}.

Definition demo_service : Json :=
  JObject [("kind", JString "service");
           ("metadata", JObject [("environment", JString "prod"); ("name", JString "web")]);
           ("spec", JObject [("domain", JString "example.org"); ("hostSelector", JObject [("name", JString "h1")]);
                             ("image", JString "nginx"); ("port", JNumber "8080")])].

Definition demo_resources : list Json :=
  [docker_resource "service" "web" "prod" "nginx" "unless-stopped" 8080 80 [] (Some "h1");
   nginx_resource "service" "web" "prod" "/etc/nginx/conf.d/web.conf" "example.org" 8080 (Some "h1")].

Lemma builtin_expansion_typed_witness :
  @expand_builtin demo_serde "service" demo_service = Ok demo_resources ∧
  host_selector_of demo_service = Some "h1" ∧
  ∃ name routed,
    let environment := default "default" (json_get2 demo_service "metadata" "environment" ≫= as_str) in
    json_get2 demo_service "metadata" "name" ≫= as_str = Some name ∧
    Forall2 (λ kn r, well_formed kn.1 kn.2 environment "service" (host_selector_of demo_service) r = true)
      (emits_of "service" name) demo_resources ∧
    Forall2 (λ r q, @extract_routing expansion_codec r environment = Ok q ∧ host_selector q = host_selector_of demo_service)
      demo_resources routed ∧
    map resource_id routed =
      map (λ kn, kn.1 +:+ "/" +:+ environment +:+ "/" +:+ kn.2) (emits_of "service" name) ∧
    NoDup (map resource_id routed).
Proof.
  split; [vm_compute; reflexivity|]. split; [vm_compute; reflexivity|].
  apply (@builtin_expansion_typed demo_serde expansion_codec "service" demo_service demo_resources).
  - apply elem_of_cons. by left.
  - vm_compute. reflexivity.
  - eexists. split; [vm_compute; reflexivity|]. vm_compute. discriminate.
Defined.

(** A module that emits itself is stopped, and the error names it. *)
Definition looping : Module_ := mkModule "loop" "" [] [] "loop".
Lemma looping_module_stops :
  @expand_resources demo_serde demo_yaml
    [JObject [("kind", JString "loop"); ("metadata", JObject [("name", JString "x")])]] [looping]
  = Err (BadRequest
      ([Txt "expansion exceeded MAX_EXPANSION_DEPTH ("; Dec 8;
        Txt "); likely a recursive module cycle. Composite kinds remaining after final pass: "] ++ debug_set ["loop"])).
Proof. vm_compute. reflexivity. Qed.
