(* ===== verification/Webhook.v ===== *)
(** * Outbound webhooks (crates/iac-controlplane/src/webhook.rs)

    Receivers and their filters, the guard on their URLs, the signature
    header, and the dispatcher that polls the audit log: its cursors, its
    backoff and its counters. The HTTP exchange, name resolution and jiff's
    date parser are parameters; the database answers. *)

From stdpp Require Import pretty.
From S2P Require Import Prelude Text Net Json ApiError Routing Db AuditLog.

#[local] Open Scope string_scope.
#[local] Open Scope list_scope.
#[local] Open Scope nat_scope.

(** ** Configuration *)

Record WebhookConfig := mkWebhook {
  wh_name : string;
  wh_url : string;
  wh_min_severity : string;
  wh_kinds : list string;
  wh_hmac_secret : option string;
  wh_backfill : bool;
  wh_max_concurrent_requests : option Z;
  wh_signing_versions : list string
}.

Record WebhooksConfig := mkWebhooks {
  ws_webhooks : list WebhookConfig;
  ws_poll_interval_secs : Z;
  ws_max_concurrent_requests : Z;
  ws_backfill_batch_size : Z;
  ws_allow_private_urls : bool;
  ws_allow_insecure_urls : bool
}.

Definition default_backfill_batch_size : Z := 200.
Definition webhooks_default : WebhooksConfig := mkWebhooks [] 5 16 default_backfill_batch_size false false.
Definition default_signing_versions : list string := ["v1"].
Definition default_severity : string := "warning".

Definition severity_rank (s : string) : Z :=
  if decide (s = "info") then 0 else if decide (s = "warning") then 1 else if decide (s = "error") then 2 else 0.

Definition webhook_matches (w : WebhookConfig) (e : AuditEvent) : bool :=
  if (severity_rank (ev_severity e) <? severity_rank (wh_min_severity w))%Z then false
  else if negb (bool_decide (wh_kinds w = [])) && negb (bool_decide (ev_kind e ∈ wh_kinds w)) then false
  else true.

(** ** The egress guard *)

Definition at_sign : Ascii.ascii := Ascii.ascii_of_N 64.

Definition is_ipv6_private (s : list Z) : bool :=
  match s with a :: _ => (Z.land a 0xfe00 =? 0xfc00)%Z | [] => false end.

Definition ip_is_blocked (ip : IpAddr) : bool :=
  match ip with
  | V4 o => v4_loopback o || v4_link_local o || v4_private o || v4_unspecified o
            || bool_decide (o = [169; 254; 169; 254]%Z)
  | V6 s => v6_loopback s || v6_unspecified s || is_ipv6_private s
  end.

Definition metadata_hosts : list string :=
  ["metadata.google.internal"; "metadata"; "metadata.azure.com"; "metadata.aws"; "169.254.169.254"; "fd00:ec2::254"].
Definition local_hosts : list string := ["localhost"; "ip6-localhost"; "ip6-loopback"].

(** The text between the brackets of an IPv6 literal. *)
Definition unbracket (host : string) : option string := h ← strip_prefix "[" host; strip_suffix "]" h.

Definition is_private_or_metadata_host (host : string) : bool :=
  let lower := to_ascii_lowercase host in
  if bool_decide (lower ∈ metadata_hosts) then true
  else
  match parse_ipv4 host with
  | Some o => ip_is_blocked (V4 o)
  | None =>
      match unbracket host ≫= parse_ipv6 with
      | Some s => ip_is_blocked (V6 s)
      | None => bool_decide (lower ∈ local_hosts)
      end
  end.

(** ** URLs *)

(** The text before the first of the three delimiters. *)
Fixpoint before_delimiter (s : string) : string :=
  match s with
  | "" => ""
  | String a s =>
      let b := byte_of a in
      if ((b =? 47) || (b =? 63) || (b =? 35))%N then "" else String a (before_delimiter s)
  end.

(** Without the user part and a port of digits. *)
Definition bare_host (host_part : string) : string :=
  let host := before_delimiter host_part in
  let host := match rsplit_once at_sign host with Some (_, h) => h | None => host end in
  match rsplit_once colon host with
  | Some (h, p) => if forallb (λ a, is_ascii_digit (byte_of a)) (String.list_ascii_of_string p) then h else host
  | None => host
  end.

(** [url.strip_prefix("https://").or_else(|| url.strip_prefix("http://"))]. *)
Definition after_scheme (url : string) : option string :=
  match strip_prefix "https://" url with Some r => Some r | None => strip_prefix "http://" url end.

Definition validate_webhook_url (url : string) (allow_insecure allow_private : bool) : result message () :=
  let scheme_ok := starts_with "https://" url || (allow_insecure && starts_with "http://" url) in
  if negb scheme_ok then
    Err [Txt "url "; Dbg url; Txt " must use https:// (set allow_insecure_urls=true to permit http://)"]
  else
  host_part ← ok_or (after_scheme url) [Txt "url "; Dbg url; Txt " unparseable"];
  let host := bare_host host_part in
  if bool_decide (host = "") then Err [Txt "url "; Dbg url; Txt " has empty host"]
  else if negb allow_private && is_private_or_metadata_host host then
    Err [Txt "url "; Dbg url; Txt " resolves to a private / loopback / metadata target (set allow_private_urls=true to permit)"]
  else Ok ().

Definition validate_webhooks (c : WebhooksConfig) : result message () :=
  try_fold (λ _ w,
    if bool_decide (wh_name w = "") then Err [Txt "webhook name must not be empty"]
    else map_err (λ e, [Txt "webhook "; Dbg (wh_name w); Txt ": "] ++ e)
           (validate_webhook_url (wh_url w) (ws_allow_insecure_urls c) (ws_allow_private_urls c)))
    () (ws_webhooks c).

Definition url_host (url : string) : option string :=
  host_part ← after_scheme url;
  let host := bare_host host_part in
  if bool_decide (host = "") then None else Some host.

(** [tokio::net::lookup_host], and the text of an address. *)
Class NameService := {
  lookup_host : string → Z → result string (list IpAddr);
  ip_text : IpAddr → string
}.

Definition assert_egress_allowed `{NameService} (url : string) : result message () :=
  host ← ok_or (url_host url) [Txt "url "; Dbg url; Txt " has no host"];
  if is_private_or_metadata_host host then Err [Txt "host "; Dbg host; Txt " is a private/metadata target"]
  else
  let bare := default host (unbracket host) in
  match parse_ip bare with
  | Some ip => if ip_is_blocked ip then Err [Txt "host "; Dbg host; Txt " is a blocked IP"] else Ok ()
  | None =>
      let port := if starts_with "https://" url then 443%Z else 80%Z in
      addrs ← map_err (λ e, [Txt "dns resolve "; Dbg host; Txt ": "; Ext e]) (lookup_host host port);
      match List.find ip_is_blocked addrs with
      | Some a => Err [Txt "host "; Dbg host; Txt " resolves to blocked address "; Ext (ip_text a)]
      | None => Ok ()
      end
  end.

(** ** Signatures *)

(** The bytes a lowercase hexadecimal text encodes. *)
Fixpoint hex_decode (s : string) : string :=
  match s with
  | String a (String b s) =>
      String (Ascii.ascii_of_N (Z.to_N (default 0%Z (hex_value a) * 16 + default 0%Z (hex_value b)))) (hex_decode s)
  | _ => ""
  end.

Definition xor_byte (n : N) (a : Ascii.ascii) : Ascii.ascii := Ascii.ascii_of_N (N.lxor (byte_of a) n).

Fixpoint map_bytes (f : Ascii.ascii → Ascii.ascii) (s : string) : string :=
  match s with "" => "" | String a s => String (f a) (map_bytes f s) end.

Fixpoint zero_bytes (n : nat) : string := match n with O => "" | S n => String (Ascii.ascii_of_N 0) (zero_bytes n) end.

Definition BLOCK : nat := 64.

Section Signatures.
Context `{Sha256}.

(** [Sha256::digest(bytes)] in raw bytes. *)
Definition sha256_raw (bytes : string) : string := hex_decode (sha256_hex bytes).

Definition compute_hmac_sha256 (secret body : string) : string :=
  let key := if BLOCK <? String.length secret then sha256_raw secret else secret in
  let key := key +:+ zero_bytes (BLOCK - String.length key) in
  let inner_digest := sha256_raw (map_bytes (xor_byte 0x36) key +:+ body) in
  sha256_hex (map_bytes (xor_byte 0x5c) key +:+ inner_digest).

(** The text each version signs. *)
Definition signed_text (version : string) (timestamp : Z) (url body : string) : option string :=
  if decide (version = "v1") then Some (pretty timestamp +:+ "." +:+ body)
  else if decide (version = "v2") then Some (pretty timestamp +:+ "." +:+ url +:+ "." +:+ body)
  else None.

Definition build_signature_header (secret : string) (timestamp : Z) (url body : string) (versions : list string)
    : option string :=
  let parts := ("t=" +:+ pretty timestamp) ::
    omap (λ version, payload ← signed_text version timestamp url body;
                     Some (version +:+ "=" +:+ compute_hmac_sha256 secret payload)) versions in
  if length parts =? 1 then None else Some (str_join "," parts).

Record ParsedSignatureHeader := mkParsed { ps_timestamp : Z; ps_v1 : option string; ps_v2 : option string }.

(** [s.parse::<i64>()]: an optional sign, then digits, within range. *)
Definition parse_i64 (s : string) : option Z :=
  match strip_prefix "-" s with
  | Some d => match d with "" => None | _ => z ← parse_digits 0 d; if (z <=? 2 ^ 63)%Z then Some (- z)%Z else None end
  | None => parse_unsigned i64_max s
  end.

Definition comma : Ascii.ascii := Ascii.ascii_of_N 44.

(** The body of the loop over the parts; a part without "=" ends it. *)
Definition signature_part (acc : option Z * option string * option string) (part : string)
    : option (option Z * option string * option string) :=
  let '(t, v1, v2) := acc in
  '(k, v) ← split_once "=" part;
  let k := trim k in
  if decide (k = "t") then Some (parse_i64 (trim v), v1, v2)
  else if decide (k = "v1") then Some (t, Some (trim v), v2)
  else if decide (k = "v2") then Some (t, v1, Some (trim v))
  else Some acc.

Fixpoint signature_parts (acc : option Z * option string * option string) (parts : list string)
    : option (option Z * option string * option string) :=
  match parts with
  | [] => Some acc
  | part :: parts => acc ← signature_part acc part; signature_parts acc parts
  end.

Definition parse_signature_header_versioned (header : string) : option ParsedSignatureHeader :=
  '(t, v1, v2) ← signature_parts (None, None, None) (split_on comma header);
  t ← t; Some (mkParsed t v1 v2).

Definition parse_signature_header (header : string) : option (Z * string) :=
  parsed ← parse_signature_header_versioned header; v1 ← ps_v1 parsed; Some (ps_timestamp parsed, v1).

(** [(now - timestamp).abs() > tolerance]: with [checked] the arithmetic
    panics on overflow, else it wraps. *)
Definition outside_tolerance (checked : bool) (now timestamp tolerance : Z) : panics bool :=
  let d := (now - timestamp)%Z in
  let a := Z.abs (wrap_signed 64 d) in
  if checked && negb ((- 2 ^ 63 <=? d) && (d <? 2 ^ 63) && (a <? 2 ^ 63))%Z then None
  else Some (tolerance <? wrap_signed 64 a)%Z.

(** A Unicode scalar value; [std::str::from_utf8]. *)
Definition is_scalar (c : N) : bool := ((c <? 55296) || ((57344 <=? c) && (c <? 1114112)))%N.
Definition from_utf8 (s : string) : option string :=
  if bool_decide (of_chars (chars s) = s) && forallb is_scalar (chars s) then Some s else None.

(** The byte loop that accumulates the differences. *)
Fixpoint xor_diff (diff : N) (a b : string) : N :=
  match a, b with
  | String x a, String y b => xor_diff (N.lor diff (N.lxor (byte_of x) (byte_of y))) a b
  | _, _ => diff
  end.
Definition ct_eq (a b : string) : bool :=
  if String.length a =? String.length b then (xor_diff 0 a b =? 0)%N else false.

Definition verify_signed_payload (checked : bool) (secret body header : string) (now tolerance : Z)
    : panics (result string ()) :=
  match parse_signature_header header with
  | None => Some (Err "malformed signature header")
  | Some (timestamp, sig_hex) =>
      outside ← outside_tolerance checked now timestamp tolerance;
      Some (if (outside : bool) then Err "timestamp outside tolerance"
            else
            body_str ← ok_or (from_utf8 body) "non-utf8 body";
            let expected := compute_hmac_sha256 secret (pretty timestamp +:+ "." +:+ body_str) in
            if negb (ct_eq sig_hex expected) then Err "signature mismatch" else Ok ())
  end.

Definition verify_signed_payload_v2 (checked : bool) (secret body url header : string) (now tolerance : Z)
    : panics (result string ()) :=
  match parse_signature_header_versioned header with
  | None => Some (Err "malformed signature header")
  | Some parsed =>
      outside ← outside_tolerance checked now (ps_timestamp parsed) tolerance;
      Some (if (outside : bool) then Err "timestamp outside tolerance"
            else
            sig_hex ← ok_or (ps_v2 parsed) "v2 signature missing";
            body_str ← ok_or (from_utf8 body) "non-utf8 body";
            let expected := compute_hmac_sha256 secret
              (pretty (ps_timestamp parsed) +:+ "." +:+ url +:+ "." +:+ body_str) in
            if negb (ct_eq sig_hex expected) then Err "signature mismatch" else Ok ())
  end.

End Signatures.

(** ** Counters *)

Definition SEMAPHORE_WAIT_BUCKETS_MICROS : list Z := [100; 1000; 10000; 100000; 1000000; 10000000]%Z.

Record SemaphoreWaitHistogram := mkHist { hist_buckets : list Z; hist_count : Z }.
Definition hist_default : SemaphoreWaitHistogram :=
  mkHist (replicate (S (length SEMAPHORE_WAIT_BUCKETS_MICROS)) 0%Z) 0.

(** [a.fetch_add(n)] on an [AtomicU64]. *)
Definition fetch_add (a n : Z) : Z := wrap_unsigned 64 (a + n).

(** [xs.iter().position(p)]. *)
Fixpoint position {A} (p : A → bool) (xs : list A) : option nat :=
  match xs with [] => None | x :: xs => if p x then Some 0 else S <$> position p xs end.

Definition hist_record (h : SemaphoreWaitHistogram) (v : Z) : SemaphoreWaitHistogram :=
  let idx := default (length SEMAPHORE_WAIT_BUCKETS_MICROS) (position (λ b, v <=? b)%Z SEMAPHORE_WAIT_BUCKETS_MICROS) in
  mkHist (alter (λ b, fetch_add b 1) idx (hist_buckets h)) (fetch_add (hist_count h) 1).

(** The fields the whole dispatcher and each receiver both count. *)
Record PerWebhookCounters := mkCounters {
  dispatched_ok : Z;
  dispatched_non_success : Z;
  dispatched_ratelimited : Z;
  delivery_errors : Z;
  semaphore_wait_micros : Z;
  semaphore_wait_hist : SemaphoreWaitHistogram;
  dispatch_duration_micros : Z;
  dispatch_duration_hist : SemaphoreWaitHistogram
}.
Definition counters_default : PerWebhookCounters := mkCounters 0 0 0 0 0 hist_default 0 hist_default.

Record WebhookMetrics := mkWebhookMetrics {
  wm_all : PerWebhookCounters;
  wm_in_flight : Z;
  wm_in_flight_peak : Z;
  wm_per_webhook : gmap string PerWebhookCounters
}.

Inductive Delivery := Delivered | NonSuccess | RateLimited | DeliveryError.

Definition count_wait (micros : Z) (c : PerWebhookCounters) : PerWebhookCounters :=
  mkCounters (dispatched_ok c) (dispatched_non_success c) (dispatched_ratelimited c) (delivery_errors c)
    (fetch_add (semaphore_wait_micros c) micros) (hist_record (semaphore_wait_hist c) micros)
    (dispatch_duration_micros c) (dispatch_duration_hist c).

Definition count_duration (micros : Z) (c : PerWebhookCounters) : PerWebhookCounters :=
  mkCounters (dispatched_ok c) (dispatched_non_success c) (dispatched_ratelimited c) (delivery_errors c)
    (semaphore_wait_micros c) (semaphore_wait_hist c)
    (fetch_add (dispatch_duration_micros c) micros) (hist_record (dispatch_duration_hist c) micros).

Definition count_delivery (k : Delivery) (c : PerWebhookCounters) : PerWebhookCounters :=
  let up (k' : Delivery) n := match k, k' with
    | Delivered, Delivered | NonSuccess, NonSuccess | RateLimited, RateLimited | DeliveryError, DeliveryError => fetch_add n 1
    | _, _ => n
    end in
  mkCounters (up Delivered (dispatched_ok c)) (up NonSuccess (dispatched_non_success c))
    (up RateLimited (dispatched_ratelimited c)) (up DeliveryError (delivery_errors c))
    (semaphore_wait_micros c) (semaphore_wait_hist c) (dispatch_duration_micros c) (dispatch_duration_hist c).

(** On the dispatcher's counters and, when it is known, on the receiver's. *)
Definition count_both (name : string) (f : PerWebhookCounters → PerWebhookCounters) (m : WebhookMetrics) : WebhookMetrics :=
  mkWebhookMetrics (f (wm_all m)) (wm_in_flight m) (wm_in_flight_peak m) (alter f name (wm_per_webhook m)).

Record WebhookMetricsSnapshot := mkHookSnapshot {
  hs_all : PerWebhookCounters;
  hs_in_flight : Z;
  hs_in_flight_peak : Z;
  hs_per_webhook : list (string * PerWebhookCounters)
}.

(** ** The dispatcher

    Its two tables, the state it keeps in memory, and the requests it has
    sent. An [Instant] is a number of nanoseconds. *)

Record DbHookCursor := mkHookCursor { hc_key : string; hc_last_seen_id : Z; hc_updated_at : string }.
Record DbHookBackoff := mkHookBackoff { hb_webhook_name : string; hb_deadline_unix : Z; hb_updated_at : string }.
Record HookTables := mkHookTables { webhook_cursor : list DbHookCursor; webhook_backoff : list DbHookBackoff }.

Record HttpRequest := mkRequest {
  rq_webhook : string;
  rq_event : Z;
  rq_url : string;
  rq_body : string;
  rq_signature : option string
}.

Record WebhookDispatcher := mkDispatcher {
  wd_config : WebhooksConfig;
  wd_cursors : gmap string Z;
  wd_backoff_until : gmap string Z;
  wd_semaphore : Z;
  wd_per_webhook_semaphores : gmap string Z;
  wd_metrics : WebhookMetrics
}.

Definition set_cursors x (w : WebhookDispatcher) : WebhookDispatcher :=
  mkDispatcher (wd_config w) x (wd_backoff_until w) (wd_semaphore w) (wd_per_webhook_semaphores w) (wd_metrics w).
Definition set_backoff x (w : WebhookDispatcher) : WebhookDispatcher :=
  mkDispatcher (wd_config w) (wd_cursors w) x (wd_semaphore w) (wd_per_webhook_semaphores w) (wd_metrics w).
Definition set_metrics x (w : WebhookDispatcher) : WebhookDispatcher :=
  mkDispatcher (wd_config w) (wd_cursors w) (wd_backoff_until w) (wd_semaphore w) (wd_per_webhook_semaphores w) x.

(** *** Construction *)

(** The first occurrence of each entry that is a known version. *)
Fixpoint known_versions (seen : list string) (versions : list string) : list string :=
  match versions with
  | [] => []
  | v :: vs =>
      if negb (bool_decide (v = "v1")) && negb (bool_decide (v = "v2")) then known_versions seen vs
      else if bool_decide (v ∈ seen) then known_versions seen vs
      else v :: known_versions (v :: seen) vs
  end.

Definition sanitize_versions (w : WebhookConfig) : WebhookConfig :=
  let filtered := known_versions [] (wh_signing_versions w) in
  let filtered := match filtered with [] => default_signing_versions | _ => filtered end in
  mkWebhook (wh_name w) (wh_url w) (wh_min_severity w) (wh_kinds w) (wh_hmac_secret w) (wh_backfill w)
    (wh_max_concurrent_requests w) filtered.

Definition set_webhooks ws (c : WebhooksConfig) : WebhooksConfig :=
  mkWebhooks ws (ws_poll_interval_secs c) (ws_max_concurrent_requests c) (ws_backfill_batch_size c)
    (ws_allow_private_urls c) (ws_allow_insecure_urls c).

(** [iter.collect::<HashMap<_, _>>()]: the last entry of a key stays. *)
Definition collect_map {V} (kvs : list (string * V)) : gmap string V :=
  foldl (λ m kv, <[kv.1 := kv.2]> m) ∅ kvs.

Definition dispatcher_new (config : WebhooksConfig) : WebhookDispatcher :=
  let config := set_webhooks (map sanitize_versions (ws_webhooks config)) config in
  let caps := omap (λ w, cap ← wh_max_concurrent_requests w;
                         if (cap =? 0)%Z then None else Some (wh_name w, cap)) (ws_webhooks config) in
  mkDispatcher config ∅ ∅ (Z.max 1 (ws_max_concurrent_requests config)) (collect_map caps)
    (mkWebhookMetrics counters_default 0 0
       (collect_map (map (λ w, (wh_name w, counters_default)) (ws_webhooks config)))).

Definition dispatcher_metrics (w : WebhookDispatcher) : WebhookMetricsSnapshot :=
  let m := wd_metrics w in
  mkHookSnapshot (wm_all m) (wm_in_flight m) (wm_in_flight_peak m)
    (order_by (λ a b, str_le a.1 b.1) (map_to_list (wm_per_webhook m))).

Definition cursor_key (name : string) : string := "audit:" +:+ name.

(** *** Start *)

Definition max_audit_id (d : Db) : Z := foldr (λ r m, Z.max (au_id r) m) 0%Z (audit_events d).

Definition persisted_cursor (key : string) (t : HookTables) : option Z :=
  hc_last_seen_id <$> head (select_where (λ r, bool_decide (hc_key r = key)) (webhook_cursor t)).

Definition initial_cursor (d : Db) (t : HookTables) (legacy : option Z) (w : WebhookConfig) : Z :=
  match persisted_cursor (cursor_key (wh_name w)) t, legacy, wh_backfill w with
  | Some id, _, _ => id
  | None, Some id, _ => id
  | None, None, true => 0%Z
  | None, None, false => max_audit_id d
  end.

(** The candidates are the keys [LIKE 'audit:%'], which ignores ASCII case. *)
Definition prune_orphan_cursors (w : WebhookDispatcher) (t : HookTables) : HookTables :=
  let configured := map (λ h, cursor_key (wh_name h)) (ws_webhooks (wd_config w)) in
  let keys := map hc_key (select_where (λ r, starts_with "audit:" (to_ascii_lowercase (hc_key r))) (webhook_cursor t)) in
  foldl (λ t key,
    if bool_decide (key ∈ configured) then t
    else mkHookTables (delete_where (λ r, bool_decide (hc_key r = key)) (webhook_cursor t)) (webhook_backoff t)) t keys.

Definition MAX_BACKOFF_SECS : Z := 60 * 60.
Definition nanos_of_secs (n : Z) : Z := n * 1000000000.

(** [a.saturating_add(b)] and [a.saturating_sub(b)] on [i64]. *)
Definition i64_sat (z : Z) : Z := Z.max (- 2 ^ 63) (Z.min i64_max z).

(** [now_unix] is the wall clock in seconds, [now] the monotonic clock. *)
Definition load_persisted_backoffs (now_unix now : Z) (t : HookTables) (w : WebhookDispatcher) : WebhookDispatcher :=
  let rows := select_where (λ r, now_unix <? hb_deadline_unix r)%Z (webhook_backoff t) in
  set_backoff (foldl (λ m r,
    let secs_remaining := Z.max (i64_sat (hb_deadline_unix r - now_unix)) 1 in
    <[hb_webhook_name r := now + nanos_of_secs (Z.min secs_remaining MAX_BACKOFF_SECS)]>%Z m)
    (wd_backoff_until w) rows) w.

Definition initialize (now_unix now : Z) (d : Db) (st : WebhookDispatcher * HookTables) : WebhookDispatcher * HookTables :=
  let '(w, t) := st in
  let legacy := persisted_cursor "audit" t in
  let w := set_cursors (foldl (λ m h, <[cursor_key (wh_name h) := initial_cursor d t legacy h]> m)
    (wd_cursors w) (ws_webhooks (wd_config w))) w in
  let t := prune_orphan_cursors w t in
  (load_persisted_backoffs now_unix now t w, t).

(** *** One delivery *)

(** [strptime] of the IMF-fixdate format in UTC, as seconds. *)
Class HttpDates := strptime_imf : string → option Z.

(** [serde_json::to_vec(&event)]. *)
Class EventCodec := event_body : AuditEvent → string.

Definition parse_retry_after `{HttpDates} (value : string) (now : Z) : option Z :=
  let trimmed := trim value in
  match parse_unsigned u64_max trimmed with
  | Some secs => Some secs
  | None =>
      let body := default trimmed (strip_suffix " GMT" trimmed) in
      target ← strptime_imf body;
      let delta := i64_sat (target - now) in
      if (delta <=? 0)%Z then Some 0%Z else Some delta
  end.

(** What comes back: a status with its [Retry-After] text, or a network error. *)
Inductive HttpReply := Reply (status : Z) (retry_after : option string) | NetworkError.

(** What one delivery draws from outside: the resolver, the clocks, the reply. *)
Record Exchange := mkExchange {
  x_dns : NameService;
  x_signed_at : Z;
  x_reply : HttpReply;
  x_micros : Z;
  x_replied_at : Z;
  x_instant : Z;
  x_updated_at : string
}.

Definition persist_backoff (now : Z) (updated_at : string) (name : string) (retry_wait : Z) (t : HookTables) : HookTables :=
  let deadline_unix := i64_sat (now + retry_wait) in
  let row := mkHookBackoff name deadline_unix updated_at in
  let same r := bool_decide (hb_webhook_name r = name) in
  mkHookTables (webhook_cursor t)
    (if existsb same (webhook_backoff t) then update_where same (λ _, row) (webhook_backoff t)
     else webhook_backoff t ++ [row]).

(** The dispatcher, its tables and the requests sent so far. *)
Record HookWorld := mkHookWorld { w_disp : WebhookDispatcher; w_tables : HookTables; w_sent : list HttpRequest }.

Definition is_success (status : Z) : bool := ((200 <=? status) && (status <? 300))%Z.

Section Dispatch.
Context `{Sha256, HttpDates, EventCodec, JsonCodec}.

Definition delivery_of (r : HttpReply) : Delivery :=
  match r with
  | Reply status _ => if is_success status then Delivered else if (status =? 429)%Z then RateLimited else NonSuccess
  | NetworkError => DeliveryError
  end.

Definition signature_of (w : WebhookConfig) (timestamp : Z) (body : string) : option string :=
  secret ← wh_hmac_secret w;
  build_signature_header secret timestamp (wh_url w) body (wh_signing_versions w).

(** The wait a 429 asks for. *)
Definition retry_wait (x : Exchange) : Z :=
  match x_reply x with
  | Reply _ retry_after =>
      default 0%Z (s ← retry_after; secs ← parse_retry_after s (x_replied_at x); Some (Z.min secs MAX_BACKOFF_SECS))
  | NetworkError => 0%Z
  end.

Definition fire (x : Exchange) (h : WebhookConfig) (e : AuditEvent) (s : HookWorld) : HookWorld :=
  let w := w_disp s in
  let blocked := negb (ws_allow_private_urls (wd_config w))
                 && negb (is_ok (@assert_egress_allowed (x_dns x) (wh_url h))) in
  if blocked then s
  else
  let body := event_body e in
  let request := mkRequest (wh_name h) (ev_id e) (wh_url h) body (signature_of h (x_signed_at x) body) in
  let kind := delivery_of (x_reply x) in
  let w := set_metrics (count_both (wh_name h) (λ c, count_delivery kind (count_duration (x_micros x) c)) (wd_metrics w)) w in
  let sent := w_sent s ++ [request] in
  match kind with
  | RateLimited =>
      let secs := retry_wait x in
      if (0 <? secs)%Z then
        mkHookWorld (set_backoff (<[wh_name h := x_instant x + nanos_of_secs secs]>%Z (wd_backoff_until w)) w)
          (persist_backoff (x_replied_at x) (x_updated_at x) (wh_name h) secs (w_tables s)) sent
      else mkHookWorld w (w_tables s) sent
  | _ => mkHookWorld w (w_tables s) sent
  end.

(** *** One tick

    The futures of [join_all] run concurrently: a schedule says which of them
    acquires a permit, enters the request or finishes next. *)

Inductive Phase := Queued | HoldsGlobal | InFlight | Done.

#[export] Instance Phase_eq_dec : EqDecision Phase.
Proof. solve_decision. Defined.

Inductive FireStep :=
| AcquireGlobal (i : nat) (waited : Z)
| AcquireReceiver (i : nat) (waited : Z)
| Finish (i : nat) (x : Exchange).

Record TickRun := mkRun { run_world : HookWorld; run_phases : list Phase }.

Definition is_phase (p q : Phase) : bool := bool_decide (p = q).
Definition permits_held (phases : list Phase) : nat := count_if (λ p, is_phase HoldsGlobal p || is_phase InFlight p) phases.
Definition in_flight_now (phases : list Phase) : nat := count_if (is_phase InFlight) phases.

Definition enter_flight (m : WebhookMetrics) : WebhookMetrics :=
  let cur := fetch_add (wm_in_flight m) 1 in
  mkWebhookMetrics (wm_all m) cur (Z.max (wm_in_flight_peak m) cur) (wm_per_webhook m).
Definition leave_flight (m : WebhookMetrics) : WebhookMetrics :=
  mkWebhookMetrics (wm_all m) (fetch_add (wm_in_flight m) (-1)) (wm_in_flight_peak m) (wm_per_webhook m).

Definition on_metrics (f : WebhookMetrics → WebhookMetrics) (s : HookWorld) : HookWorld :=
  mkHookWorld (set_metrics (f (wd_metrics (w_disp s))) (w_disp s)) (w_tables s) (w_sent s).

(** The receiver's own semaphore, when it has one, has a permit left. *)
Definition receiver_free (h : WebhookConfig) (w : WebhookDispatcher) (phases : list Phase) : bool :=
  match wd_per_webhook_semaphores w !! wh_name h with
  | Some cap => (Z.of_nat (in_flight_now phases) <? cap)%Z
  | None => true
  end.

(** A step of [fire_with_permit]; [None] when it is not enabled. *)
Definition fire_with_permit (h : WebhookConfig) (events : list AuditEvent) (step : FireStep) (r : TickRun)
    : option TickRun :=
  let s := run_world r in
  let w := w_disp s in
  let phases := run_phases r in
  match step with
  | AcquireGlobal i waited =>
      guard (phases !! i = Some Queued ∧ (Z.of_nat (permits_held phases) < wd_semaphore w)%Z);;
      let count m := mkWebhookMetrics (count_wait waited (wm_all m)) (wm_in_flight m) (wm_in_flight_peak m) (wm_per_webhook m) in
      Some (mkRun (on_metrics count s) (<[i := HoldsGlobal]> phases))
  | AcquireReceiver i waited =>
      guard (phases !! i = Some HoldsGlobal ∧ receiver_free h w phases = true);;
      let count m := mkWebhookMetrics (wm_all m) (wm_in_flight m) (wm_in_flight_peak m)
                       (alter (count_wait waited) (wh_name h) (wm_per_webhook m)) in
      Some (mkRun (on_metrics (λ m, enter_flight (count m)) s) (<[i := InFlight]> phases))
  | Finish i x =>
      guard (phases !! i = Some InFlight);;
      e ← events !! i;
      Some (mkRun (on_metrics leave_flight (fire x h e s)) (<[i := Done]> phases))
  end.

Fixpoint run_schedule (h : WebhookConfig) (events : list AuditEvent) (steps : list FireStep) (r : TickRun) : option TickRun :=
  match steps with
  | [] => Some r
  | step :: steps => r ← fire_with_permit h events step r; run_schedule h events steps r
  end.

(** What one receiver's tick draws: the log it polls, the monotonic clock,
    the schedule of its deliveries, the clock text of the cursor. *)
Record TickDraws := mkTick {
  td_db : Db;
  td_instant : Z;
  td_steps : list FireStep;
  td_updated_at : string
}.

Definition batch_size (c : WebhooksConfig) : Z :=
  if (ws_backfill_batch_size c =? 0)%Z then default_backfill_batch_size else ws_backfill_batch_size c.

(** [WHERE id > cursor ORDER BY id LIMIT batch]. *)
Definition poll (cursor batch : Z) (d : Db) : list DbAudit :=
  take (Z.to_nat batch)
    (order_by (λ a b, Z.leb (au_id a) (au_id b)) (select_where (λ r, cursor <? au_id r)%Z (audit_events d))).

Definition materialize (r : DbAudit) : AuditEvent :=
  mkEvent (au_id r) (au_timestamp r) (au_actor r) (au_kind r) (au_severity r) (au_operation_id r) (au_agent_id r)
    (au_resource_id r) (au_drift_id r) (match json_from_str (au_payload_json r) with Ok v => v | Err _ => JNull end).

Definition save_cursor (key : string) (last : Z) (updated_at : string) (s : HookWorld) : HookWorld :=
  let row := mkHookCursor key last updated_at in
  let same r := bool_decide (hc_key r = key) in
  let cs := webhook_cursor (w_tables s) in
  mkHookWorld (set_cursors (<[key := last]> (wd_cursors (w_disp s))) (w_disp s))
    (mkHookTables (if existsb same cs then update_where same (λ _, row) cs else cs ++ [row]) (webhook_backoff (w_tables s)))
    (w_sent s).

(** The receiver's deadline has not passed. *)
Definition backed_off (h : WebhookConfig) (now : Z) (w : WebhookDispatcher) : bool :=
  match wd_backoff_until w !! wh_name h with Some deadline => (now <? deadline)%Z | None => false end.

(** [None]: the schedule is not a complete run of the deliveries. *)
Definition tick_one_webhook (t : TickDraws) (h : WebhookConfig) (s : HookWorld) : option (nat * HookWorld) :=
  if backed_off h (td_instant t) (w_disp s) then Some (0, s)
  else
  let key := cursor_key (wh_name h) in
  let cursor := default 0%Z (wd_cursors (w_disp s) !! key) in
  let events := map materialize (poll cursor (batch_size (wd_config (w_disp s))) (td_db t)) in
  let last_id := foldl (λ _ e, ev_id e) cursor events in
  let matching := List.filter (webhook_matches h) events in
  r ← run_schedule h matching (td_steps t) (mkRun s (replicate (length matching) Queued));
  guard (forallb (is_phase Done) (run_phases r) = true);;
  let s := run_world r in
  Some (length matching, if bool_decide (last_id = cursor) then s else save_cursor key last_id (td_updated_at t) s).

Fixpoint tick_hooks (ts : list TickDraws) (hooks : list WebhookConfig) (total : nat) (s : HookWorld) : option (nat * HookWorld) :=
  match ts, hooks with
  | t :: ts, h :: hooks => '(n, s) ← tick_one_webhook t h s; tick_hooks ts hooks (total + n) s
  | _, [] => Some (total, s)
  | [], _ => None
  end.

Definition tick_once (ts : list TickDraws) (s : HookWorld) : option (nat * HookWorld) :=
  tick_hooks ts (ws_webhooks (wd_config (w_disp s))) 0 s.

End Dispatch.
