(* ===== verification/WebhookProps.v ===== *)
(** * Properties of the webhook dispatcher

    Deliveries neither repeat nor skip an event, the permits bound what is in
    flight and never jam, a receiver's backoff survives a restart, and a
    signature it sends verifies. *)

From stdpp Require Import pretty.
From S2P Require Import Prelude Text Net Json ApiError Routing Db AuditLog AuditChain Webhook.

#[local] Open Scope string_scope.
#[local] Open Scope list_scope.
#[local] Open Scope nat_scope.

(** ** The log seen through a cursor *)

Definition log_sorted (d : Db) : Prop := StronglySorted Z.lt (map au_id (audit_events d)).

(** The logs read one after the other only gain rows at the end. *)
Fixpoint log_grows (d : Db) (ds : list Db) : Prop :=
  match ds with
  | [] => log_sorted d
  | d' :: ds => (∃ new, audit_events d' = audit_events d ++ new) ∧ log_grows d' ds
  end.

(** The events [h] subscribes to between two cursors, in log order. *)
Definition in_range (c0 c1 : Z) (r : DbAudit) : bool := ((c0 <? au_id r) && (au_id r <=? c1))%Z.
Definition due `{JsonCodec} (h : WebhookConfig) (d : Db) (c0 c1 : Z) : list Z :=
  map au_id (List.filter (λ r, in_range c0 c1 r && webhook_matches h (materialize r)) (audit_events d)).

(** The rows a cursor has not passed. *)
Definition behind (c : Z) (d : Db) : nat := count_if (λ r, c <? au_id r)%Z (audit_events d).

Definition cursor_of (h : WebhookConfig) (w : WebhookDispatcher) : Z :=
  default 0%Z (wd_cursors w !! cursor_key (wh_name h)).

(** The receiver's URL passes the egress guard whatever the resolver says. *)
Definition egress_open (c : WebhooksConfig) (h : WebhookConfig) : Prop :=
  ws_allow_private_urls c = true ∨ ∀ dns : NameService, is_ok (assert_egress_allowed (wh_url h)) = true.

Lemma log_grows_sorted d ds : log_grows d ds → log_sorted d.
Proof.
  revert d. induction ds as [|d' ds IH]; intros d; [done|]. intros [[new Hn] Hg]. apply IH in Hg.
  unfold log_sorted in *. rewrite Hn, map_app in Hg. by apply StronglySorted_app in Hg as (_ & ? & _).
Qed.

Lemma take_filter_le (c : Z) (k : nat) rows :
  StronglySorted Z.lt (map au_id rows) → Forall (λ r, (c < au_id r)%Z) rows →
  let l := take k rows in
  let last := foldl (λ _ r, au_id r) c l in
  l = List.filter (λ r, au_id r <=? last)%Z rows ∧ drop k rows = List.filter (λ r, last <? au_id r)%Z rows ∧
  (c ≤ last)%Z ∧ (last = c ∨ last ∈ map au_id l).
Proof.
  revert c k. induction rows as [|r rows IH]; intros c k Hs Hc; cbn zeta.
  - rewrite take_nil, drop_nil. cbn. split_and!; [done..|lia|by left].
  - cbn [map] in Hs. apply StronglySorted_inv in Hs as [Hs Hr]. apply Forall_cons in Hc as [Hcr Hc].
    assert (Hgt : Forall (λ r', (au_id r < au_id r')%Z) rows).
    { apply Forall_forall. intros x Hx. rewrite Forall_forall in Hr. apply Hr, elem_of_map. eauto. }
    destruct k as [|k].
    + cbn [take foldl drop]. split_and!; [|symmetry|lia|by left].
      * symmetry. cbn. rewrite (proj2 (Z.leb_gt _ _)) by lia. clear -Hc.
        induction Hc as [|x l Hx _ IHl]; cbn; [done|]. by rewrite (proj2 (Z.leb_gt _ _)) by lia.
      * apply List_filter_all. intros x [->|Hx]%elem_of_cons; apply Z.ltb_lt; [done|].
        rewrite Forall_forall in Hc. by apply Hc.
    + destruct (IH (au_id r) k Hs Hgt) as (H1 & H2 & H3 & H4). cbn [take foldl drop].
      set (last := foldl _ _ _) in *. split_and!.
      * cbn. rewrite (proj2 (Z.leb_le _ _)) by lia. by rewrite H1 at 1.
      * rewrite H2. cbn. by rewrite (proj2 (Z.ltb_ge _ _)) by lia.
      * lia.
      * right. destruct H4 as [->|H4]; cbn; [left|by right].
Qed.

Lemma sorted_filter (p : DbAudit → bool) rows :
  StronglySorted Z.lt (map au_id rows) → StronglySorted Z.lt (map au_id (List.filter p rows)).
Proof.
  induction rows as [|r rows IH]; cbn; [done|]. intros [Hs Hr]%StronglySorted_inv.
  destruct (p r); cbn; [|by apply IH]. constructor; [by apply IH|].
  rewrite Forall_forall in *. intros x (r' & Hin & ->)%elem_of_map. apply elem_of_List_filter in Hin as [Hin _].
  apply Hr, elem_of_map. eauto.
Qed.

(** What a poll returns: the rows up to the new cursor, and it leaves [k] fewer behind. *)
Lemma poll_spec c k d : log_sorted d →
  let rows := poll c k d in
  let last := foldl (λ _ r, au_id r) c rows in
  rows = List.filter (in_range c last) (audit_events d) ∧ behind last d = behind c d - Z.to_nat k ∧
  (c ≤ last)%Z ∧ (last = c ∨ last ∈ map au_id (audit_events d)).
Proof.
  intros Hs rows last. set (ahead := select_where (λ r, c <? au_id r)%Z (audit_events d)).
  assert (Hsa : StronglySorted Z.lt (map au_id ahead)) by by apply sorted_filter.
  assert (Hca : Forall (λ r, (c < au_id r)%Z) ahead).
  { apply Forall_forall. intros r [_ Hr%Z.ltb_lt]%elem_of_List_filter. done. }
  assert (Hrows : rows = take (Z.to_nat k) ahead).
  { unfold rows, poll. fold ahead. f_equal. by apply order_by_id_sorted. }
  destruct (take_filter_le c (Z.to_nat k) ahead Hsa Hca) as (H1 & H2 & H3 & H4).
  rewrite <- Hrows in H1, H2, H3, H4. fold last in H1, H2, H3, H4. split_and!.
  - rewrite H1. unfold ahead, select_where. by rewrite List_filter_filter.
  - unfold behind, count_if. transitivity (length (List.filter (λ r, last <? au_id r)%Z ahead)).
    + unfold ahead, select_where. rewrite List_filter_filter. f_equal. apply List_filter_ext_in. intros r _.
      destruct (Z.ltb_spec last (au_id r)), (Z.ltb_spec c (au_id r)); cbn; lia || done.
    + rewrite <- H2, length_drop. unfold ahead, select_where. lia.
  - done.
  - destruct H4 as [->|H4]; [by left|right]. rewrite H1 in H4. apply elem_of_map in H4 as (r & Hr & ->).
    apply elem_of_map. exists r. split; [|done]. apply elem_of_List_filter in Hr as [Hr _].
    unfold ahead in Hr. by apply elem_of_List_filter in Hr as [Hr _].
Qed.

(** Rows beyond the cursor do not change what was due before it. *)
Lemma due_grows `{JsonCodec} h d d' new c0 c1 :
  audit_events d' = audit_events d ++ new → log_sorted d' → c1 = c0 ∨ c1 ∈ map au_id (audit_events d) →
  due h d' c0 c1 = due h d c0 c1.
Proof.
  intros He Hs Hc. unfold due. rewrite He, List.filter_app, map_app.
  replace (List.filter _ new) with (@nil DbAudit); [by rewrite app_nil_r|]. symmetry.
  apply length_zero_iff_nil, count_if_0. intros r Hr. apply andb_false_iff. left. unfold in_range.
  destruct Hc as [->|(r1 & Hr1 & ->)%elem_of_map].
  - destruct (Z.ltb_spec c0 (au_id r)); [|done]. by rewrite (proj2 (Z.leb_gt _ _)) by lia.
  - apply andb_false_iff. right. apply Z.leb_gt. unfold log_sorted in Hs. rewrite He, map_app in Hs.
    apply StronglySorted_app in Hs as (Hlt & _ & _). apply Hlt; apply elem_of_map; eauto.
Qed.

(** Consecutive ranges add up. *)
Lemma due_app `{JsonCodec} h d c0 c1 c2 :
  (c0 ≤ c1 ≤ c2)%Z → due h d c0 c2 ≡ₚ due h d c0 c1 ++ due h d c1 c2.
Proof.
  intros Hc. unfold due. rewrite <- map_app. apply Permutation_map.
  induction (audit_events d) as [|r rows IH]; [done|]. cbn. unfold in_range in *.
  destruct (webhook_matches h (materialize r)); rewrite ?andb_true_r, ?andb_false_r; [|done].
  destruct (Z.ltb_spec c0 (au_id r)), (Z.leb_spec (au_id r) c2), (Z.leb_spec (au_id r) c1), (Z.ltb_spec c1 (au_id r));
    cbn; try lia; try done; rewrite IH; try done. apply Permutation_middle.
Qed.

(** ** Deliveries *)

Section Deliveries.
Context `{Sha256, HttpDates, EventCodec, JsonCodec}.

(** What a step leaves alone: everything a tick reads but the counters and the backoff. *)
Definition same_setup (w w' : WebhookDispatcher) : Prop :=
  wd_config w' = wd_config w ∧ wd_cursors w' = wd_cursors w ∧ wd_semaphore w' = wd_semaphore w ∧
  wd_per_webhook_semaphores w' = wd_per_webhook_semaphores w.

Lemma fire_open x h e s : egress_open (wd_config (w_disp s)) h →
  same_setup (w_disp s) (w_disp (fire x h e s)) ∧
  ∃ q, w_sent (fire x h e s) = w_sent s ++ [q] ∧ rq_webhook q = wh_name h ∧ rq_event q = ev_id e ∧
    rq_url q = wh_url h.
Proof.
  intros Ho. unfold fire.
  replace (negb _ && negb _) with false.
  2:{ destruct Ho as [->|Ho]; [done|]. rewrite Ho. by rewrite andb_false_r. }
  destruct (delivery_of (x_reply x)) eqn:E; try (destruct (0 <? retry_wait x)%Z eqn:?);
    (split; [repeat split|]); eexists; (split_and!; [reflexivity|done..]).
Qed.

(** The events whose delivery is over. *)
Definition finished (events : list AuditEvent) (phases : list Phase) : list Z :=
  map (λ ep, ev_id ep.1) (List.filter (λ ep, is_phase Done ep.2) (zip events phases)).

Lemma finished_step events phases i p :
  phases !! i = Some p → p ≠ Done → ∀ q, q ≠ Done → finished events (<[i := q]> phases) = finished events phases.
Proof.
  unfold finished, is_phase. intros Hp Hnp q Hnq. revert events i Hp. induction phases as [|p' phases IH]; intros [|e events] [|i]; cbn; try done.
  - intros [= ->]. rewrite !bool_decide_eq_false_2 by congruence. done.
  - intros Hp. destruct (bool_decide _); cbn; [f_equal|]; by apply IH.
Qed.

Lemma finished_done events phases i p e :
  phases !! i = Some p → p ≠ Done → events !! i = Some e →
  finished events (<[i := Done]> phases) ≡ₚ finished events phases ++ [ev_id e].
Proof.
  unfold finished, is_phase. intros Hp Hnp. revert events i Hp.
  induction phases as [|p' phases IH]; intros [|e' events] [|i]; cbn; try done.
  - intros [= ->] [= ->]. rewrite (bool_decide_eq_false_2 (Done = p)) by congruence.
    cbn. apply Permutation_cons_append.
  - intros Hp He. destruct (bool_decide _); cbn; [apply Permutation_skip|]; by apply IH.
Qed.

Lemma finished_none events n : finished events (replicate n Queued) = [].
Proof. unfold finished. revert n. induction events as [|e events IH]; intros [|n]; cbn; try done. apply IH. Qed.

Lemma finished_all events phases :
  length phases = length events → forallb (is_phase Done) phases = true → finished events phases = map ev_id events.
Proof.
  unfold finished. revert phases. induction events as [|e events IH]; intros [|p phases]; cbn; try done.
  intros [= Hl] [Hp Hall]%andb_true_iff. rewrite Hp. cbn. by rewrite IH.
Qed.

(** One step sends what it finishes, and nothing else. *)
Lemma step_sends h events step r r' :
  fire_with_permit h events step r = Some r' → egress_open (wd_config (w_disp (run_world r))) h →
  same_setup (w_disp (run_world r)) (w_disp (run_world r')) ∧
  length (run_phases r') = length (run_phases r) ∧
  ∃ new, w_sent (run_world r') = w_sent (run_world r) ++ new ∧ Forall (λ q, rq_webhook q = wh_name h) new ∧
    finished events (run_phases r') ≡ₚ finished events (run_phases r) ++ map rq_event new.
Proof.
  intros Hf Ho. destruct step as [i waited|i waited|i x]; cbn in Hf.
  1,2: case_guard as Hg; [|done]; cbn in Hf; injection Hf as <-; cbn; destruct Hg as [Hg _];
    (split; [repeat split|]); (split; [apply length_insert|]); exists []; rewrite !app_nil_r;
    (split_and!; [done|constructor|by erewrite finished_step]).
  case_guard as Hg; [|done]. cbn in Hf. destruct (events !! i) as [e|] eqn:He; [|done]. cbn in Hf. injection Hf as <-.
  destruct (fire_open x h e (run_world r) Ho) as (Hsame & q & Hq & Hn & Hid & _). cbn.
  split; [exact Hsame|]. split; [apply length_insert|]. exists [q]. split_and!; [done|by constructor|].
  cbn. rewrite Hid. by eapply finished_done.
Qed.

Lemma same_setup_trans w1 w2 w3 : same_setup w1 w2 → same_setup w2 w3 → same_setup w1 w3.
Proof. unfold same_setup. intuition congruence. Qed.

Lemma schedule_sends h events steps r r' :
  run_schedule h events steps r = Some r' → egress_open (wd_config (w_disp (run_world r))) h →
  same_setup (w_disp (run_world r)) (w_disp (run_world r')) ∧
  length (run_phases r') = length (run_phases r) ∧
  ∃ new, w_sent (run_world r') = w_sent (run_world r) ++ new ∧ Forall (λ q, rq_webhook q = wh_name h) new ∧
    finished events (run_phases r') ≡ₚ finished events (run_phases r) ++ map rq_event new.
Proof.
  revert r. induction steps as [|step steps IH]; intros r Hr Ho; cbn in Hr.
  - simplify_eq. split; [by repeat split|]. split; [done|]. exists []. by rewrite !app_nil_r.
  - destruct (fire_with_permit h events step r) as [r1|] eqn:E; [|done]. cbn in Hr.
    destruct (step_sends _ _ _ _ _ E Ho) as (Hs & Hl & new & Hw & Hf & Hp).
    assert (egress_open (wd_config (w_disp (run_world r1))) h) as Ho1 by (destruct Hs as [-> _]; done).
    destruct (IH r1 Hr Ho1) as (Hs' & Hl' & new' & Hw' & Hf' & Hp').
    split; [by eapply same_setup_trans|]. split; [congruence|]. exists (new ++ new').
    split_and!; [by rewrite Hw', Hw, app_assoc|by apply Forall_app|].
    by rewrite Hp', Hp, map_app, app_assoc.
Qed.

(** ** One receiver's tick *)

Lemma due_events h d c last rows :
  rows = List.filter (in_range c last) (audit_events d) →
  map ev_id (List.filter (webhook_matches h) (map materialize rows)) = due h d c last.
Proof.
  intros ->. unfold due. generalize (audit_events d) as l. induction l as [|r l IH]; [done|]. cbn.
  destruct (in_range c last r); cbn; [|done]. destruct (webhook_matches h (materialize r)); cbn; by rewrite IH.
Qed.

Lemma last_materialized c rows : foldl (λ _ e, ev_id e) c (map materialize rows) = foldl (λ _ r, au_id r) c rows.
Proof. revert c. induction rows as [|r rows IH]; intros c; [done|]. apply IH. Qed.

Lemma tick_sends t h s n s' :
  tick_one_webhook t h s = Some (n, s') → log_sorted (td_db t) → egress_open (wd_config (w_disp s)) h →
  let c := cursor_of h (w_disp s) in
  let c' := cursor_of h (w_disp s') in
  wd_config (w_disp s') = wd_config (w_disp s) ∧
  (∀ h', wh_name h' ≠ wh_name h → cursor_of h' (w_disp s') = cursor_of h' (w_disp s)) ∧
  (c ≤ c')%Z ∧ (c' = c ∨ c' ∈ map au_id (audit_events (td_db t))) ∧
  (backed_off h (td_instant t) (w_disp s) = false →
   behind c' (td_db t) = behind c (td_db t) - Z.to_nat (batch_size (wd_config (w_disp s)))) ∧
  ∃ new, w_sent s' = w_sent s ++ new ∧ Forall (λ q, rq_webhook q = wh_name h) new ∧
    map rq_event new ≡ₚ due h (td_db t) c c'.
Proof.
  intros Ht Hs Ho c c'. unfold tick_one_webhook in Ht.
  destruct (backed_off h (td_instant t) (w_disp s)).
  { simplify_eq. split_and!; [done..|lia|by left|done|]. exists []. rewrite app_nil_r. split_and!; [done|constructor|].
    unfold due, c, c'. replace (List.filter _ _) with (@nil DbAudit); [done|]. symmetry.
    apply length_zero_iff_nil, count_if_0. intros r _. unfold in_range.
    destruct (Z.ltb_spec (cursor_of h (w_disp s')) (au_id r)); [|done]. by rewrite (proj2 (Z.leb_gt _ _)) by lia. }
  fold (cursor_of h (w_disp s)) in Ht. fold c in Ht. set (rows := poll c _ _) in Ht.
  rewrite last_materialized in Ht. destruct (poll_spec c (batch_size (wd_config (w_disp s))) (td_db t) Hs) as (Hr & Hb & Hle & Hin).
  fold rows in Hr, Hb, Hle, Hin. set (last := foldl _ _ rows) in *.
  set (matching := List.filter _ _) in Ht.
  destruct (run_schedule _ _ _ _) as [r|] eqn:Hrun; [|done]. cbn in Ht.
  destruct (schedule_sends _ _ _ _ _ Hrun Ho) as ((Hcfg & Hcur & _ & _) & Hlen & new & Hw & Hf & Hp). cbn in *.
  case_guard as Hd; [|done]. cbn in Ht. injection Ht as _ Hs'. rewrite length_replicate in Hlen.
  rewrite (finished_all _ _ Hlen Hd), finished_none in Hp. cbn in Hp. unfold matching in Hp.
  rewrite (due_events h (td_db t) c last rows Hr) in Hp.
  assert (Hc' : c' = last ∧ wd_config (w_disp s') = wd_config (w_disp s) ∧ w_sent s' = w_sent (run_world r) ∧
    ∀ h', wh_name h' ≠ wh_name h → cursor_of h' (w_disp s') = cursor_of h' (w_disp s)).
  { subst s' c'. unfold cursor_of. case_bool_decide as El.
    - rewrite Hcur. fold c. split_and!; [|done..]. unfold c, cursor_of in *. congruence.
    - cbn. rewrite lookup_insert_eq. split_and!; [done..|]. intros h' Hh'. rewrite lookup_insert_ne, Hcur; [done|].
      intros Heq. apply Hh'. symmetry. unfold cursor_key in Heq. by simplify_eq. }
  destruct Hc' as (-> & Hcfg' & Hsent & Hoth). split_and!; [done..|]. exists new.
  split_and!; [by rewrite Hsent|done|]. by rewrite Hp.
Qed.

(** ** Rounds of every receiver *)

Definition hooks_of (s : HookWorld) : list WebhookConfig := ws_webhooks (wd_config (w_disp s)).

(** The requests of [h] among [qs], as event ids. *)
Definition sent_to (h : WebhookConfig) (qs : list HttpRequest) : list Z :=
  map rq_event (List.filter (λ q, bool_decide (rq_webhook q = wh_name h)) qs).

Fixpoint rounds (rs : list (list TickDraws)) (s : HookWorld) : option HookWorld :=
  match rs with [] => Some s | ts :: rs => '(_, s) ← tick_once ts s; rounds rs s end.

(** What holds of the world [s] reached from [s0] once the log is [d]. *)
Definition kept_up (s0 : HookWorld) (d : Db) (s : HookWorld) : Prop :=
  wd_config (w_disp s) = wd_config (w_disp s0) ∧
  ∃ new, w_sent s = w_sent s0 ++ new ∧ ∀ h, h ∈ hooks_of s0 →
    let c0 := cursor_of h (w_disp s0) in
    let c1 := cursor_of h (w_disp s) in
    (c0 ≤ c1)%Z ∧ (c1 = c0 ∨ c1 ∈ map au_id (audit_events d)) ∧ sent_to h new ≡ₚ due h d c0 c1.

Lemma sent_to_app h qs qs' : sent_to h (qs ++ qs') = sent_to h qs ++ sent_to h qs'.
Proof. unfold sent_to. by rewrite List.filter_app, map_app. Qed.

Lemma sent_to_self h h' qs : Forall (λ q, rq_webhook q = wh_name h) qs →
  sent_to h' qs = if bool_decide (wh_name h = wh_name h') then map rq_event qs else [].
Proof.
  unfold sent_to. induction 1 as [|q qs Hq _ IH]; cbn; [by case_bool_decide|]. rewrite Hq.
  destruct (bool_decide (wh_name h = wh_name h')); cbn; by rewrite IH.
Qed.

Lemma due_none h d c : due h d c c = [].
Proof.
  unfold due. replace (List.filter _ _) with (@nil DbAudit); [done|]. symmetry.
  apply length_zero_iff_nil, count_if_0. intros r _. unfold in_range.
  destruct (Z.ltb_spec c (au_id r)); [|done]. by rewrite (proj2 (Z.leb_gt _ _)) by lia.
Qed.

Lemma kept_up_start s d : kept_up s d s.
Proof.
  split; [done|]. exists []. rewrite app_nil_r. split; [done|]. intros h _. cbn zeta. rewrite due_none.
  split_and!; [lia|by left|done].
Qed.

Lemma kept_up_grows s0 s d d' new :
  audit_events d' = audit_events d ++ new → log_sorted d' → kept_up s0 d s → kept_up s0 d' s.
Proof.
  intros He Hs (Hc & qs & Hq & Hk). split; [done|]. exists qs. split; [done|]. intros h Hh.
  destruct (Hk h Hh) as (Hle & Hin & Hp). split_and!; [done| |].
  - destruct Hin as [|Hin]; [by left|right]. rewrite He, map_app. set_solver.
  - by rewrite (due_grows h d d' new _ _ He Hs Hin).
Qed.

Lemma kept_up_tick s0 s t h n s' :
  NoDup (map wh_name (hooks_of s0)) → (∀ h, h ∈ hooks_of s0 → egress_open (wd_config (w_disp s0)) h) →
  h ∈ hooks_of s0 → log_sorted (td_db t) → kept_up s0 (td_db t) s → tick_one_webhook t h s = Some (n, s') →
  kept_up s0 (td_db t) s'.
Proof.
  intros Hnd Ho Hh Hs (Hc & qs & Hq & Hk) Ht. pose proof (Ho h Hh) as Hoh. rewrite <- Hc in Hoh.
  destruct (tick_sends t h s n s' Ht Hs Hoh) as (Hc' & Hoth & Hle & Hin & _ & new & Hw & Hf & Hp).
  split; [congruence|]. exists (qs ++ new). split; [by rewrite Hw, Hq, app_assoc|]. intros h' Hh'.
  destruct (Hk h' Hh') as (Hle0 & Hin0 & Hp0). rewrite sent_to_app, (sent_to_self h h' new Hf).
  case_bool_decide as En.
  - assert (h = h') as <- by by eapply NoDup_map_inj. cbn zeta. split_and!; [lia| |].
    + destruct Hin as [->|]; [done|by right].
    + rewrite Hp0, Hp. symmetry. apply due_app. lia.
  - rewrite app_nil_r. cbn zeta. rewrite (Hoth h') by done. done.
Qed.

Lemma kept_up_hooks s0 ts hooks total s n s' d :
  NoDup (map wh_name (hooks_of s0)) → (∀ h, h ∈ hooks_of s0 → egress_open (wd_config (w_disp s0)) h) →
  (∀ h, h ∈ hooks → h ∈ hooks_of s0) → log_grows d (map td_db ts) → kept_up s0 d s →
  tick_hooks ts hooks total s = Some (n, s') → kept_up s0 (default d (last (map td_db ts))) s'.
Proof.
  intros Hnd Ho. revert hooks total s d. induction ts as [|t ts IH]; intros [|h hooks] total s d Hin Hg Hk Ht; cbn in Ht;
    try done.
  - by simplify_eq.
  - injection Ht as <- <-. clear IH. revert d Hg Hk. generalize (t :: ts) as ts'. clear t ts.
    induction ts' as [|t ts IH]; intros d Hg Hk; [done|]. destruct Hg as [[new Hn] Hg].
    cbn [map]. rewrite last_cons. specialize (IH (td_db t) Hg).
    destruct (last (map td_db ts)); cbn in *; (apply IH || idtac); by eapply kept_up_grows, Hk; [exact Hn|eapply log_grows_sorted].
  - destruct (tick_one_webhook t h s) as [[n1 s1]|] eqn:E; [|done]. cbn in Ht, Hg. destruct Hg as [[new Hn] Hg].
    cbn [map]. rewrite last_cons. pose proof (log_grows_sorted _ _ Hg) as Hs.
    assert (kept_up s0 (td_db t) s1) as Hk1.
    { eapply kept_up_tick; [done|done|apply Hin; left|done| |exact E]. by eapply kept_up_grows. }
    specialize (IH hooks _ s1 (td_db t) (λ h' Hh', Hin h' (list_elem_of_further _ _ _ Hh')) Hg Hk1 Ht).
    by destruct (last (map td_db ts)).
Qed.

Lemma log_grows_app d ds ds' :
  log_grows d (ds ++ ds') → log_grows d ds ∧ log_grows (default d (last ds)) ds'.
Proof.
  revert d. induction ds as [|d' ds IH]; intros d Hg; cbn in *.
  - split; [by eapply log_grows_sorted|done].
  - destruct Hg as [Hn Hg]. destruct (IH d' Hg) as [Ha Hb]. split; [done|]. rewrite last_cons.
    by destruct (last ds).
Qed.

Lemma last_app_default {A} (d : A) xs ys : default d (last (xs ++ ys)) = default (default d (last xs)) (last ys).
Proof. rewrite last_app. by destruct (last ys). Qed.

Lemma kept_up_rounds s0 rs s s' d :
  NoDup (map wh_name (hooks_of s0)) → (∀ h, h ∈ hooks_of s0 → egress_open (wd_config (w_disp s0)) h) →
  log_grows d (map td_db (concat rs)) → kept_up s0 d s → rounds rs s = Some s' →
  kept_up s0 (default d (last (map td_db (concat rs)))) s'.
Proof.
  intros Hnd Ho. revert s d. induction rs as [|ts rs IH]; intros s d Hg Hk Hr; cbn in Hr; [by simplify_eq|].
  destruct (tick_once ts s) as [[n s1]|] eqn:E; [|done]. cbn in Hr, Hg. rewrite map_app in Hg.
  apply log_grows_app in Hg as [Hg1 Hg2]. cbn [concat]. rewrite map_app, last_app_default.
  apply (IH s1); [done| |done]. eapply kept_up_hooks; [done|done| |done|exact Hk|exact E].
  intros h. unfold hooks_of. destruct Hk as [-> _]. done.
Qed.

(** C8: webhook deliveries neither repeat nor skip. Over any number of
    polling rounds, with the deliveries of each tick interleaved in any order,
    while the audit log only grows at its end, each receiver is sent exactly
    the events it subscribes to between its cursor before the first round and
    its cursor after the last, one request each. Receivers need distinct
    names, since the name is the cursor's key, and URLs the egress guard does
    not stop. *)
Theorem webhook_exactly_once rs s s' d :
  NoDup (map wh_name (hooks_of s)) → (∀ h, h ∈ hooks_of s → egress_open (wd_config (w_disp s)) h) →
  log_grows d (map td_db (concat rs)) → rounds rs s = Some s' →
  let log := default d (last (map td_db (concat rs))) in
  ∃ new, w_sent s' = w_sent s ++ new ∧ ∀ h, h ∈ hooks_of s →
    let c := cursor_of h (w_disp s) in
    let c' := cursor_of h (w_disp s') in
    (c ≤ c')%Z ∧ sent_to h new ≡ₚ due h log c c'.
Proof.
  intros Hnd Ho Hg Hr log.
  destruct (kept_up_rounds s rs s s' d Hnd Ho Hg (kept_up_start s d) Hr) as (_ & new & Hw & Hk).
  exists new. split; [done|]. intros h Hh. destruct (Hk h Hh) as (Hle & _ & Hp). done.
Qed.

(** a receiver catches up. A tick that is not in backoff leaves one batch
    fewer rows behind the cursor, rejected rows included, so a backlog of [n]
    rows is gone after [n] divided by the batch size ticks. *)
Theorem webhook_catches_up t h s n s' :
  tick_one_webhook t h s = Some (n, s') → log_sorted (td_db t) → egress_open (wd_config (w_disp s)) h →
  backed_off h (td_instant t) (w_disp s) = false →
  behind (cursor_of h (w_disp s')) (td_db t) =
    behind (cursor_of h (w_disp s)) (td_db t) - Z.to_nat (batch_size (wd_config (w_disp s))).
Proof. intros Ht Hs Ho Hb. destruct (tick_sends t h s n s' Ht Hs Ho) as (_ & _ & _ & _ & Hl & _). by apply Hl. Qed.

(** ** Permits *)

(** What the counters and the semaphores say while [h]'s deliveries run. *)
Record permits_ok (h : WebhookConfig) (r : TickRun) : Prop := {
  po_small : (wd_semaphore (w_disp (run_world r)) < 2 ^ 64)%Z;
  po_count : wm_in_flight (wd_metrics (w_disp (run_world r))) = Z.of_nat (in_flight_now (run_phases r));
  po_peak : (wm_in_flight_peak (wd_metrics (w_disp (run_world r))) ≤ wd_semaphore (w_disp (run_world r)))%Z;
  po_held : (Z.of_nat (permits_held (run_phases r)) ≤ wd_semaphore (w_disp (run_world r)))%Z;
  po_own : ∀ cap, wd_per_webhook_semaphores (w_disp (run_world r)) !! wh_name h = Some cap →
    (Z.of_nat (in_flight_now (run_phases r)) ≤ cap)%Z
}.

Lemma count_if_insert {A} (p : A → bool) xs i x y bx b_y :
  xs !! i = Some x → p x = bx → p y = b_y →
  count_if p (<[i := y]> xs) + Nat.b2n bx = count_if p xs + Nat.b2n b_y.
Proof.
  intros Hx <- <-. revert i Hx. induction xs as [|z xs IH]; intros [|i] Hx; cbn in Hx; try done.
  - simplify_eq. change (<[0 := y]> (x :: xs)) with (y :: xs). rewrite !count_if_cons. unfold Nat.b2n. lia.
  - change (<[S i := y]> (z :: xs)) with (z :: <[i := y]> xs). rewrite !count_if_cons. specialize (IH i Hx). lia.
Qed.

Lemma in_flight_le_held phases : in_flight_now phases ≤ permits_held phases.
Proof.
  unfold in_flight_now, permits_held. induction phases as [|p phases IH]; [done|]. rewrite !count_if_cons.
  destruct (is_phase HoldsGlobal p), (is_phase InFlight p); cbn; lia.
Qed.

(** A delivery touches neither the live count nor the semaphores. *)
Lemma fire_permits x h e s :
  wm_in_flight (wd_metrics (w_disp (fire x h e s))) = wm_in_flight (wd_metrics (w_disp s)) ∧
  wm_in_flight_peak (wd_metrics (w_disp (fire x h e s))) = wm_in_flight_peak (wd_metrics (w_disp s)) ∧
  wd_semaphore (w_disp (fire x h e s)) = wd_semaphore (w_disp s) ∧
  wd_per_webhook_semaphores (w_disp (fire x h e s)) = wd_per_webhook_semaphores (w_disp s).
Proof.
  unfold fire. destruct (negb _ && negb _); [done|].
  destruct (delivery_of (x_reply x)); try done. by destruct (0 <? retry_wait x)%Z.
Qed.

Lemma permits_step h events step r r' :
  fire_with_permit h events step r = Some r' → permits_ok h r → permits_ok h r'.
Proof.
  intros Hf [Hsm Hc Hp Hh Ho]. pose proof (in_flight_le_held (run_phases r)) as Hle.
  destruct step as [i waited|i waited|i x]; cbn in Hf; case_guard as Hg; try done; cbn in Hf.
  - injection Hf as <-. destruct Hg as [Hi Hg].
    pose proof (count_if_insert (is_phase InFlight) _ i _ HoldsGlobal false false Hi eq_refl eq_refl) as Hf1.
    pose proof (count_if_insert (λ p, is_phase HoldsGlobal p || is_phase InFlight p) _ i _ HoldsGlobal false true Hi eq_refl eq_refl) as Hf2.
    unfold in_flight_now, permits_held in *. cbn [Nat.b2n] in Hf1, Hf2.
    split; cbn -[count_if Z.pow fetch_add]; unfold in_flight_now, permits_held; [done|lia|done|lia|]. intros cap Hcap. specialize (Ho cap Hcap). lia.
  - injection Hf as <-. destruct Hg as [Hi Hg].
    pose proof (count_if_insert (is_phase InFlight) _ i _ InFlight false true Hi eq_refl eq_refl) as Hf1.
    pose proof (count_if_insert (λ p, is_phase HoldsGlobal p || is_phase InFlight p) _ i _ InFlight true true Hi eq_refl eq_refl) as Hf2.
    pose proof (in_flight_le_held (<[i := InFlight]> (run_phases r))) as Hle'.
    unfold in_flight_now, permits_held in *. cbn [Nat.b2n] in Hf1, Hf2.
    assert (Hcur : fetch_add (wm_in_flight (wd_metrics (w_disp (run_world r)))) 1 =
                   Z.of_nat (count_if (is_phase InFlight) (<[i := InFlight]> (run_phases r)))).
    { rewrite Hc. unfold fetch_add, wrap_unsigned. rewrite Z.mod_small by lia. lia. }
    split; cbn -[count_if Z.pow fetch_add]; unfold in_flight_now, permits_held; [done|exact Hcur|rewrite Hcur; lia|lia|].
    intros cap Hcap. unfold receiver_free in Hg. rewrite Hcap in Hg. apply Z.ltb_lt in Hg.
    unfold in_flight_now in Hg. lia.
  - destruct (events !! i) as [e|]; [|done]. cbn in Hf. injection Hf as <-.
    destruct (fire_permits x h e (run_world r)) as (E1 & E2 & E3 & E4).
    pose proof (count_if_insert (is_phase InFlight) _ i _ Done true false Hg eq_refl eq_refl) as Hf1.
    pose proof (count_if_insert (λ p, is_phase HoldsGlobal p || is_phase InFlight p) _ i _ Done true false Hg eq_refl eq_refl) as Hf2.
    unfold in_flight_now, permits_held in *. cbn [Nat.b2n] in Hf1, Hf2.
    split; cbn -[count_if Z.pow fetch_add]; unfold in_flight_now, permits_held; rewrite ?E1, ?E2, ?E3, ?E4; [done| |done|lia|].
    + rewrite Hc. unfold fetch_add, wrap_unsigned. rewrite Z.mod_small by lia. lia.
    + intros cap Hcap. specialize (Ho cap Hcap). lia.
Qed.

Lemma permits_schedule h events steps r r' :
  run_schedule h events steps r = Some r' → permits_ok h r → permits_ok h r'.
Proof.
  revert r. induction steps as [|step steps IH]; intros r Hr Hp; cbn in Hr; [by simplify_eq|].
  destruct (fire_with_permit h events step r) as [r1|] eqn:E; [|done]. eapply IH; [exact Hr|]. by eapply permits_step.
Qed.

(** Semaphores that hand out at least one permit. *)
Definition semaphores_ok (w : WebhookDispatcher) : Prop :=
  (1 ≤ wd_semaphore w)%Z ∧ ∀ name cap, wd_per_webhook_semaphores w !! name = Some cap → (1 ≤ cap)%Z.

Lemma collect_map_inv {V} (P : V → Prop) (kvs : list (string * V)) name v :
  Forall (λ kv, P kv.2) kvs → collect_map kvs !! name = Some v → P v.
Proof.
  unfold collect_map. intros Hk.
  revert v. assert (Hgen : ∀ m : gmap string V, (∀ n v, m !! n = Some v → P v) →
    ∀ v, foldl (λ m kv, <[kv.1 := kv.2]> m) m kvs !! name = Some v → P v).
  { induction Hk as [|[k x] kvs Hx _ IH]; intros m Hm v; cbn; [apply Hm|]. apply IH. intros n v' Hn.
    apply lookup_insert_Some in Hn as [[_ <-]|[_ Hn]]; [done|by eapply Hm]. }
  intros v. apply Hgen. intros n v' Hn. by rewrite lookup_empty in Hn.
Qed.

Lemma new_semaphores c :
  Forall (λ w, (0 ≤ default 0%Z (wh_max_concurrent_requests w))%Z) (ws_webhooks c) → semaphores_ok (dispatcher_new c).
Proof.
  intros Hc. split; [cbn; lia|]. intros name cap. cbn. apply (collect_map_inv (λ cap, (1 ≤ cap)%Z)).
  apply Forall_forall. intros [n cp] Hin. apply list_elem_of_omap in Hin as (w & Hw & Hcap).
  apply elem_of_map in Hw as (w0 & Hw0 & ->). rewrite Forall_forall in Hc. specialize (Hc w0 Hw0). cbn in *.
  destruct (wh_max_concurrent_requests w0) as [z|]; [|done]. cbn in *.
  destruct (Z.eqb_spec z 0); [done|]. simplify_eq. cbn. lia.
Qed.

(** The steps a delivery has left. *)
Definition steps_left (p : Phase) : nat := match p with Queued => 3 | HoldsGlobal => 2 | InFlight => 1 | Done => 0 end.
Definition total_left (phases : list Phase) : nat := list_sum (map steps_left phases).

Lemma total_left_insert phases i p q :
  phases !! i = Some p → total_left (<[i := q]> phases) + steps_left p = total_left phases + steps_left q.
Proof.
  unfold total_left. revert i. induction phases as [|z l IH]; intros [|i] Hi; cbn in Hi; try done.
  - simplify_eq. cbn. lia.
  - specialize (IH i Hi). change (<[S i := q]> (z :: l)) with (z :: <[i := q]> l). cbn [map list_sum foldr] in *.
    unfold list_sum in *. lia.
Qed.

Lemma total_left_0 phases : total_left phases = 0 → forallb (is_phase Done) phases = true.
Proof. unfold total_left. induction phases as [|[] phases IH]; cbn; try done; lia || auto. Qed.

Lemma step_left h events step r r' :
  fire_with_permit h events step r = Some r' → total_left (run_phases r) = S (total_left (run_phases r')).
Proof.
  intros Hf. destruct step as [i waited|i waited|i x]; cbn in Hf; case_guard as Hg; try done; cbn in Hf.
  1,2: injection Hf as <-; destruct Hg as [Hg _].
  3: destruct (events !! i); [|done]; cbn in Hf; injection Hf as <-.
  - pose proof (total_left_insert _ _ _ HoldsGlobal Hg) as Ht. cbn [steps_left run_phases] in *. lia.
  - pose proof (total_left_insert _ _ _ InFlight Hg) as Ht. cbn [steps_left run_phases] in *. lia.
  - pose proof (total_left_insert _ _ _ Done Hg) as Ht. cbn [steps_left run_phases] in *. lia.
Qed.

Lemma schedule_left h events steps r r' :
  run_schedule h events steps r = Some r' → total_left (run_phases r) = length steps + total_left (run_phases r').
Proof.
  revert r. induction steps as [|step steps IH]; intros r Hr; cbn in Hr; [by simplify_eq|].
  destruct (fire_with_permit h events step r) as [r1|] eqn:E; [|done]. rewrite (step_left _ _ _ _ _ E). cbn. by rewrite (IH r1 Hr).
Qed.

(** What a schedule leaves alone. *)
Definition runnable (events : list AuditEvent) (r : TickRun) : Prop :=
  semaphores_ok (w_disp (run_world r)) ∧ length (run_phases r) = length events.

Lemma step_runnable h events step r r' :
  fire_with_permit h events step r = Some r' → runnable events r → runnable events r'.
Proof.
  intros Hf [Hs Hl]. destruct step as [i waited|i waited|i x]; cbn in Hf; case_guard as Hg; try done; cbn in Hf.
  1,2: injection Hf as <-; split; [exact Hs|cbn; by rewrite length_insert].
  destruct (events !! i) as [e|]; [|done]. cbn in Hf. injection Hf as <-.
  destruct (fire_permits x h e (run_world r)) as (_ & _ & E3 & E4). split; [|cbn; by rewrite length_insert].
  unfold semaphores_ok. cbn. by rewrite E3, E4.
Qed.

(** While something is left to do, some step is enabled. *)
Lemma step_enabled h events r (x : Exchange) :
  runnable events r → total_left (run_phases r) ≠ 0 → ∃ step r', fire_with_permit h events step r = Some r'.
Proof.
  intros [[Hsem Hown] Hl] Hleft. destruct r as [s phases]. cbn in *.
  destruct (decide (InFlight ∈ phases)) as [Hi|Hni].
  { apply list_elem_of_lookup in Hi as [i Hi]. destruct (lookup_lt_is_Some_2 events i) as [e He].
    { rewrite <- Hl. by eapply lookup_lt_Some. }
    exists (Finish i x). eexists. cbn. rewrite option_guard_True by done. cbn. by rewrite He. }
  assert (Hnone : in_flight_now phases = 0).
  { apply count_if_0. intros p Hp. unfold is_phase. apply bool_decide_eq_false. by intros <-. }
  destruct (decide (HoldsGlobal ∈ phases)) as [Hg|Hng].
  { apply list_elem_of_lookup in Hg as [i Hi]. exists (AcquireReceiver i 0). eexists.
    cbn. rewrite option_guard_True; [done|]. split; [done|]. unfold receiver_free. rewrite Hnone.
    destruct (wd_per_webhook_semaphores _ !! _) as [cap|] eqn:E; [|done]. apply Z.ltb_lt.
    specialize (Hown _ _ E). lia. }
  assert (Hheld : permits_held phases = 0).
  { apply count_if_0. intros p Hp. unfold is_phase. apply orb_false_iff. split; apply bool_decide_eq_false; by intros <-. }
  destruct (decide (Queued ∈ phases)) as [Hq|Hnq].
  { apply list_elem_of_lookup in Hq as [i Hi]. exists (AcquireGlobal i 0). eexists.
    cbn -[permits_held]. rewrite option_guard_True; [done|]. split; [done|]. rewrite Hheld. lia. }
  destruct Hleft. clear -Hni Hng Hnq. unfold total_left. induction phases as [|p phases IH]; [done|].
  cbn. rewrite IH by set_solver. destruct p; set_solver.
Qed.

Lemma run_schedule_app h events steps steps' r :
  run_schedule h events (steps ++ steps') r = r' ← run_schedule h events steps r; run_schedule h events steps' r'.
Proof. revert r. induction steps as [|step steps IH]; intros r; cbn; [done|]. destruct (fire_with_permit h events step r); cbn; auto. Qed.

Lemma schedule_runnable h events steps r r' :
  run_schedule h events steps r = Some r' → runnable events r → runnable events r'.
Proof.
  revert r. induction steps as [|step steps IH]; intros r Hr Hp; cbn in Hr; [by simplify_eq|].
  destruct (fire_with_permit h events step r) as [r1|] eqn:E; [|done]. eapply IH; [exact Hr|]. by eapply step_runnable.
Qed.

Lemma completes h events (x : Exchange) n r :
  total_left (run_phases r) = n → runnable events r →
  ∃ steps r', run_schedule h events steps r = Some r' ∧ total_left (run_phases r') = 0.
Proof.
  revert r. induction n as [|n IH]; intros r Hn Hr; [by exists [], r|].
  destruct (step_enabled h events r x Hr) as (step & r1 & Hs); [lia|]. pose proof (step_left _ _ _ _ _ Hs) as Hl.
  destruct (IH r1) as (steps & r' & Hrun & Hd); [lia|by eapply step_runnable|].
  exists (step :: steps), r'. cbn. by rewrite Hs.
Qed.

(** the deliveries of a tick respect the permits. However they are
    interleaved, the live counter is the number of requests in flight, that
    number and the peak stay within the dispatcher's cap, and within the
    receiver's own cap when it has one. *)
Theorem permits_respected h events steps s r :
  (wd_semaphore (w_disp s) < 2 ^ 64)%Z → semaphores_ok (w_disp s) → wm_in_flight (wd_metrics (w_disp s)) = 0%Z →
  (wm_in_flight_peak (wd_metrics (w_disp s)) ≤ wd_semaphore (w_disp s))%Z →
  run_schedule h events steps (mkRun s (replicate (length events) Queued)) = Some r → permits_ok h r.
Proof.
  intros Hs [Hsem Hown] Hzero Hp Hr. eapply permits_schedule; [exact Hr|].
  assert (Hn : ∀ p : Phase → bool, p Queued = false → count_if p (replicate (length events) Queued) = 0).
  { intros p Hq. apply count_if_0. intros x [-> _]%elem_of_replicate. done. }
  split; cbn -[Z.pow count_if]; [done| |done| |]; unfold in_flight_now, permits_held; rewrite ?Hn by done; [done|lia|].
  intros cap Hcap. specialize (Hown _ _ Hcap). lia.
Qed.

(** the permits never jam. From any point of a tick some interleaving
    finishes every delivery, and each finishes after exactly three steps, so
    none is left waiting and no schedule runs on. *)
Theorem deliveries_complete h events steps s r (x : Exchange) :
  semaphores_ok (w_disp s) →
  run_schedule h events steps (mkRun s (replicate (length events) Queued)) = Some r →
  ∃ steps' r', run_schedule h events (steps ++ steps') (mkRun s (replicate (length events) Queued)) = Some r' ∧
    forallb (is_phase Done) (run_phases r') = true ∧ length (steps ++ steps') = 3 * length events.
Proof.
  intros Hs Hr. set (r0 := mkRun _ _) in *.
  assert (runnable events r0) as Hr0 by by (split; [|apply length_replicate]).
  destruct (completes h events x _ r eq_refl) as (steps' & r' & Hrun & Hd); [by eapply schedule_runnable|].
  assert (Hall : run_schedule h events (steps ++ steps') r0 = Some r') by by rewrite run_schedule_app, Hr.
  exists steps', r'. split_and!; [done|by apply total_left_0|].
  pose proof (schedule_left _ _ _ _ _ Hall) as Hl. rewrite Hd in Hl. unfold total_left, r0 in Hl. cbn in Hl.
  clear -Hl. revert Hl. generalize (length (steps ++ steps')) as k. induction (length events) as [|n IH]; intros k Hl; cbn in Hl; [lia|].
  specialize (IH (k - 3)). unfold list_sum in *. lia.
Qed.

(** ** Backoff *)

Lemma inserts_other {A} (key : A → string) (val : A → Z) (xs : list A) name m :
  name ∉ map key xs → foldl (λ (m : gmap string Z) x, <[key x := val x]> m) m xs !! name = m !! name.
Proof.
  revert m. induction xs as [|x xs IH]; intros m Hn; [done|]. cbn in *. apply not_elem_of_cons in Hn as [Hx Hn].
  rewrite IH by done. by rewrite lookup_insert_ne.
Qed.

Lemma inserts_unique {A} (key : A → string) (val : A → Z) (xs : list A) x m :
  NoDup (map key xs) → x ∈ xs → foldl (λ (m : gmap string Z) x, <[key x := val x]> m) m xs !! key x = Some (val x).
Proof.
  revert m. induction xs as [|y xs IH]; intros m Hnd Hx; [by apply elem_of_nil in Hx|].
  cbn in *. apply NoDup_cons in Hnd as [Hy Hnd]. apply elem_of_cons in Hx as [->|Hx]; [|by apply IH].
  rewrite inserts_other by done. apply lookup_insert_eq.
Qed.

(** The upsert leaves one row of the name, the new one. *)
Lemma persist_backoff_row now updated_at name secs t :
  NoDup (map hb_webhook_name (webhook_backoff t)) →
  let t' := persist_backoff now updated_at name secs t in
  NoDup (map hb_webhook_name (webhook_backoff t')) ∧
  mkHookBackoff name (i64_sat (now + secs)) updated_at ∈ webhook_backoff t' ∧ webhook_cursor t' = webhook_cursor t.
Proof.
  intros Hnd. cbn. set (same := λ r, bool_decide (hb_webhook_name r = name)).
  destruct (existsb same (webhook_backoff t)) eqn:E; split_and!; try done.
  - replace (map hb_webhook_name _) with (map hb_webhook_name (webhook_backoff t)); [done|].
    unfold update_where. rewrite map_map. apply map_ext. intros r. unfold same. by case_bool_decide.
  - apply existsb_exists in E as (r & Hr & Hs). unfold update_where. apply elem_of_map. exists r.
    split; [by apply list_elem_of_In|]. by rewrite Hs.
  - rewrite map_app. apply NoDup_app. split_and!; [done| |apply NoDup_singleton].
    intros n (r & Hr & ->)%elem_of_map Hn%list_elem_of_singleton. apply not_true_iff_false in E. apply E.
    apply existsb_exists. exists r. split; [by apply list_elem_of_In|]. by apply bool_decide_eq_true.
  - set_solver.
Qed.

Lemma prune_backoff w t : webhook_backoff (prune_orphan_cursors w t) = webhook_backoff t.
Proof.
  unfold prune_orphan_cursors. generalize (map hc_key (select_where (λ r, starts_with "audit:" (to_ascii_lowercase (hc_key r))) (webhook_cursor t))) as keys.
  intros keys. revert t. induction keys as [|k keys IH]; intros t; [done|]. cbn [foldl]. rewrite IH. by case_bool_decide.
Qed.

(** a receiver that answers 429 with a Retry-After it can read is left
    alone for that long, capped at one hour, and no longer. While the pause
    lasts a tick sends nothing and keeps the cursor; a restart during it loads
    what is left of it. *)
Theorem backoff_honoured x h e s secs text config now_unix now t d :
  egress_open (wd_config (w_disp s)) h → NoDup (map hb_webhook_name (webhook_backoff (w_tables s))) →
  x_reply x = Reply 429 (Some text) → parse_retry_after text (x_replied_at x) = Some secs → (0 < secs)%Z →
  (0 ≤ x_replied_at x < 2 ^ 62)%Z →
  let pause := Z.min secs MAX_BACKOFF_SECS in
  let s' := fire x h e s in
  (backed_off h (td_instant t) (w_disp s') = (td_instant t <? x_instant x + nanos_of_secs pause)%Z) ∧
  (backed_off h (td_instant t) (w_disp s') = true → tick_one_webhook t h s' = Some (0, s')) ∧
  let '(w, tables) := initialize now_unix now d (dispatcher_new config, w_tables s') in
  (x_replied_at x ≤ now_unix < x_replied_at x + pause)%Z →
  backed_off h (td_instant t) w = (td_instant t <? now + nanos_of_secs (x_replied_at x + pause - now_unix))%Z.
Proof.
  intros Ho Hnd Hreply Hparse Hsecs Hrange pause s'.
  assert (Hpause : (0 < pause ≤ 3600)%Z) by (unfold pause, MAX_BACKOFF_SECS; lia).
  assert (Hs' : wd_backoff_until (w_disp s') !! wh_name h = Some (x_instant x + nanos_of_secs pause)%Z ∧
    w_tables s' = persist_backoff (x_replied_at x) (x_updated_at x) (wh_name h) pause (w_tables s)).
  { unfold s', fire. replace (negb _ && negb _) with false.
    2:{ destruct Ho as [->|Ho]; [done|]. rewrite Ho. by rewrite andb_false_r. }
    unfold retry_wait. rewrite Hreply. cbn. rewrite Hparse. cbn. fold pause.
    rewrite (proj2 (Z.ltb_lt 0 pause)) by lia. cbn. by rewrite lookup_insert_eq. }
  destruct Hs' as [Hb Ht]. split; [unfold backed_off; by rewrite Hb|]. split.
  { intros Hbo. unfold tick_one_webhook. by rewrite Hbo. }
  cbn -[prune_orphan_cursors]. intros Hnow. unfold backed_off, load_persisted_backoffs. cbn -[prune_orphan_cursors].
  rewrite prune_backoff, Ht.
  destruct (persist_backoff_row (x_replied_at x) (x_updated_at x) (wh_name h) pause _ Hnd) as (Hnd' & Hin & _).
  set (t1 := persist_backoff _ _ _ _ _) in *.
  set (row := mkHookBackoff _ _ _) in Hin.
  assert (Hdl : hb_deadline_unix row = (x_replied_at x + pause)%Z).
  { unfold row, i64_sat, i64_max. cbn [hb_deadline_unix]. lia. }
  rewrite (inserts_unique hb_webhook_name _ _ row).
  - rewrite Hdl. f_equal. f_equal. f_equal. unfold i64_sat, i64_max, MAX_BACKOFF_SECS. lia.
  - by apply NoDup_map_filter.
  - apply elem_of_List_filter. split; [done|]. rewrite Hdl. apply Z.ltb_lt. lia.
Qed.

End Deliveries.

(** ** Examples *)

#[local] Instance hook_sha : Sha256 := λ s, pretty (poly_hash 7 s).
#[local] Instance hook_dates : HttpDates := λ _, None.
#[local] Instance hook_body : EventCodec := λ e, ev_kind e.
#[local] Instance hook_codec : JsonCodec := {| json_from_str _ := Err "unused"; json_to_string _ := "null" |}.
#[local] Instance hook_names : NameService := {| lookup_host _ _ := Ok []; ip_text _ := "" |}.

Definition demo_hook (name : string) (min_severity : string) (cap : option Z) : WebhookConfig :=
  mkWebhook name ("https://192.0.2.7/" +:+ name) min_severity [] (Some "k") true cap ["v1"].

Definition demo_hooks : WebhooksConfig :=
  mkWebhooks [demo_hook "ops" "warning" (Some 1); demo_hook "log" "info" None]%Z 5 2 3 false false.

Definition demo_row (id : Z) (kind severity : string) : DbAudit :=
  mkAudit id "@0" "admin" kind severity None None None None "null" None None.

Definition demo_log (rows : list DbAudit) : Db := set_audit rows 10 None empty_db.

Definition demo_rows : list DbAudit :=
  [demo_row 1 "op.submitted" "info"; demo_row 2 "op.failed" "error"; demo_row 4 "drift.detected" "warning"; demo_row 5 "op.rejected" "warning"].

Definition reply (r : HttpReply) : Exchange := mkExchange hook_names 100 r 50 100 0 "@100".
Definition ok_reply : Exchange := reply (Reply 200 None).

Definition deliver (i : nat) (x : Exchange) : list FireStep := [AcquireGlobal i 0; AcquireReceiver i 0; Finish i x].

Definition demo_start : HookWorld :=
  let '(w, t) := initialize 100 0 (demo_log []) (dispatcher_new demo_hooks, mkHookTables [] []) in mkHookWorld w t [].

(** Two rounds: the first poll stops at its batch of three rows, with the
    deliveries interleaved; by the second the log has grown. *)
Definition demo_rounds : list (list TickDraws) :=
  [[mkTick (demo_log demo_rows) 0 [AcquireGlobal 0 0; AcquireGlobal 1 0; AcquireReceiver 1 3; Finish 1 ok_reply; AcquireReceiver 0 9; Finish 0 ok_reply] "@100";
    mkTick (demo_log demo_rows) 0 (deliver 2 ok_reply ++ deliver 0 (reply NetworkError) ++ deliver 1 (reply (Reply 429 (Some "60")))) "@100"];
   [mkTick (demo_log (demo_rows ++ [demo_row 9 "op.failed" "error"])) 9 (deliver 0 ok_reply ++ deliver 1 ok_reply) "@101";
    mkTick (demo_log (demo_rows ++ [demo_row 9 "op.failed" "error"])) 9 [] "@101"]].

Lemma demo_egress h : h ∈ hooks_of demo_start → egress_open (wd_config (w_disp demo_start)) h.
Proof.
  intros Hh. right. intros dns. assert (h = demo_hook "ops" "warning" (Some 1%Z) ∨ h = demo_hook "log" "info" None) as Hc.
  { vm_compute in Hh. apply elem_of_cons in Hh as [->|[->|[]%elem_of_nil]%elem_of_cons]; [by left|by right]. }
  by destruct Hc as [->| ->].
Qed.

(** What each receiver got, and its cursor. *)
Definition demo_outcome : option (list (list Z * Z)) :=
  s ← rounds demo_rounds demo_start;
  Some (map (λ h, (sent_to h (w_sent s), cursor_of h (w_disp s))) (hooks_of demo_start)).

Example demo_outcome_is : demo_outcome = Some [([4; 2; 5; 9], 9); ([4; 1; 2], 4)]%Z.
Proof. vm_compute. reflexivity. Qed.

Lemma demo_grows : log_grows (demo_log []) (map td_db (concat demo_rounds)).
Proof.
  cbn [map concat demo_rounds app td_db log_grows].
  split; [exists demo_rows; reflexivity|]. split; [exists []; reflexivity|].
  split; [exists [demo_row 9 "op.failed" "error"]; reflexivity|]. split; [exists []; reflexivity|].
  unfold log_sorted. cbn. repeat (constructor; [|repeat constructor; lia]). constructor.
Qed.

Definition demo_end : HookWorld := default demo_start (rounds demo_rounds demo_start).
Lemma demo_end_eq : rounds demo_rounds demo_start = Some demo_end.
Proof. vm_compute. reflexivity. Qed.

Lemma demo_names : NoDup (map wh_name (hooks_of demo_start)).
Proof. change (NoDup ["ops"; "log"]). repeat constructor; set_solver. Qed.

Lemma webhook_exactly_once_witness :
  rounds demo_rounds demo_start = Some demo_end ∧
    ∀ h, h ∈ hooks_of demo_start →
      sent_to h (w_sent demo_end) ≡ₚ
        due h (demo_log (demo_rows ++ [demo_row 9 "op.failed" "error"])) 0 (cursor_of h (w_disp demo_end)).
Proof.
  split; [apply demo_end_eq|].
  pose proof (webhook_exactly_once demo_rounds demo_start demo_end (demo_log []) demo_names demo_egress demo_grows demo_end_eq) as Hall.
  cbn zeta in Hall. destruct Hall as (new & Hw & Hk).
  intros h Hh. destruct (Hk h Hh) as [_ Hp].
  replace (w_sent demo_end) with new by (rewrite Hw; reflexivity).
  replace (cursor_of h (w_disp demo_start)) with 0%Z in Hp; [exact Hp|].
  vm_compute in Hh. by apply elem_of_cons in Hh as [->|[->|[]%elem_of_nil]%elem_of_cons].
Defined.

Definition demo_events : list AuditEvent := map materialize demo_rows.

Lemma permits_respected_witness :
  let h := demo_hook "ops" "warning" (Some 1%Z) in
  ∃ r, run_schedule h demo_events [AcquireGlobal 0 0; AcquireGlobal 1 0; AcquireReceiver 1 3]
         (mkRun demo_start (replicate (length demo_events) Queued)) = Some r ∧ permits_ok h r ∧
    fire_with_permit h demo_events (AcquireReceiver 0 9) r = None ∧
    fire_with_permit h demo_events (AcquireGlobal 2 0) r = None.
Proof.
  intros h. destruct (run_schedule _ _ _ _) as [r|] eqn:E; [|by vm_compute in E]. exists r. split; [done|].
  split; [|by vm_compute in E; injection E as <-].
  eapply (permits_respected h); [..|exact E]; [vm_compute; done| |done|vm_compute; done].
  split; [vm_compute; done|]. apply (new_semaphores demo_hooks). repeat constructor; vm_compute; done.
Defined.

Lemma deliveries_complete_witness :
  let h := demo_hook "ops" "warning" (Some 1%Z) in
  ∃ steps r, run_schedule h demo_events ([AcquireGlobal 0 0; AcquireGlobal 1 0; AcquireReceiver 1 3] ++ steps)
         (mkRun demo_start (replicate (length demo_events) Queued)) = Some r ∧
    forallb (is_phase Done) (run_phases r) = true.
Proof.
  intros h. destruct (run_schedule h demo_events [AcquireGlobal 0 0; AcquireGlobal 1 0; AcquireReceiver 1 3] (mkRun demo_start (replicate (length demo_events) Queued))) as [r|] eqn:E; [|by vm_compute in E].
  destruct (deliveries_complete h demo_events [AcquireGlobal 0 0; AcquireGlobal 1 0; AcquireReceiver 1 3] demo_start r ok_reply) as (steps & r' & Hr & Hd & _).
  - split; [vm_compute; done|]. apply (new_semaphores demo_hooks). repeat constructor; vm_compute; done.
  - exact E.
  - by exists steps, r'.
Defined.

Lemma backoff_honoured_witness :
  let h := demo_hook "log" "info" None in
  let x := reply (Reply 429 (Some "9999")) in
  let s := fire x h (materialize (demo_row 1 "op.submitted" "info")) demo_start in
  backed_off h (nanos_of_secs 3599) (w_disp s) = true ∧ backed_off h (nanos_of_secs 3600) (w_disp s) = false ∧
  backed_off h (nanos_of_secs 10) (initialize 3600 0 (demo_log []) (dispatcher_new demo_hooks, w_tables s)).1 = true.
Proof.
  intros h x s.
  assert (egress_open (wd_config (w_disp demo_start)) h) as Ho by (apply demo_egress; right; left).
  pose (t n := mkTick (demo_log []) (nanos_of_secs n) [] "@0").
  destruct (backoff_honoured x h (materialize (demo_row 1 "op.submitted" "info")) demo_start 9999 "9999" demo_hooks 3600 0
    (t 3599%Z) (demo_log []) Ho) as (H1 & _); [constructor|done|done|done|cbn; lia|].
  destruct (backoff_honoured x h (materialize (demo_row 1 "op.submitted" "info")) demo_start 9999 "9999" demo_hooks 3600 0
    (t 3600%Z) (demo_log []) Ho) as (H2 & _); [constructor|done|done|done|cbn; lia|].
  destruct (backoff_honoured x h (materialize (demo_row 1 "op.submitted" "info")) demo_start 9999 "9999" demo_hooks 3600 0
    (t 10%Z) (demo_log []) Ho) as (_ & _ & H3); [constructor|done|done|done|cbn; lia|].
  split; [exact H1|]. split; [exact H2|]. apply H3. vm_compute. split; done.
Defined.

(** Two receivers of one name share a cursor: the first to poll takes the
    events, and the second never sees them. *)
Lemma shared_name_starves :
  let hooks := mkWebhooks [demo_hook "ops" "info" None; mkWebhook "ops" "https://192.0.2.8/other" "info" [] None true None []] 5 2 9 false false in
  let start := let '(w, t) := initialize 100 0 (demo_log []) (dispatcher_new hooks, mkHookTables [] []) in mkHookWorld w t [] in
  let tick steps := mkTick (demo_log (take 2 demo_rows)) 0 steps "@100" in
  is_ok (validate_webhooks hooks) = true ∧
  (s ← rounds [[tick (deliver 0 ok_reply ++ deliver 1 ok_reply); tick []]] start; Some (map rq_url (w_sent s)))
    = Some ["https://192.0.2.7/ops"; "https://192.0.2.7/ops"].
Proof. vm_compute. split; reflexivity. Qed.
