(* ===== verification/SignatureProps.v ===== *)
(** * Properties of the webhook signatures

    A header the dispatcher sends verifies at the receiver, under each of its
    versions; the second version holds for one URL only. *)

From stdpp Require Import pretty.
From S2P Require Import Prelude Text Net Json ApiError Routing Db AuditLog AuditChain Chars Webhook.

#[local] Open Scope string_scope.
#[local] Open Scope list_scope.
#[local] Open Scope nat_scope.

(** ** Words: letters, digits and the minus sign *)

Definition word_char (a : Ascii.ascii) : bool := is_ascii_alphanumeric (byte_of a) || (byte_of a =? 45)%N.

Fixpoint word (s : string) : bool :=
  match s with "" => true | String a s => word_char a && word s end.

Lemma word_app s t : word (s +:+ t) = word s && word t.
Proof. induction s as [|a s IH]; [done|]. change (word (String a (s +:+ t)) = word (String a s) && word t). cbn [word]. by rewrite IH, andb_assoc. Qed.

Lemma word_byte a : word_char a = true → (45 ≤ byte_of a < 128)%N.
Proof.
  unfold word_char, is_ascii_alphanumeric, is_ascii_digit, is_ascii_alphabetic.
  rewrite !orb_true_iff, !andb_true_iff, !N.leb_le, N.eqb_eq. lia.
Qed.

Lemma word_lacks c s : word_char c = false → word s = true → lacks c s = true.
Proof.
  intros Hc. induction s as [|a s IH]; [done|]. cbn [word lacks]. intros [Ha Hs]%andb_true_iff.
  rewrite IH, andb_true_r by done. apply negb_true_iff, Ascii.eqb_neq. intros ->. congruence.
Qed.

Lemma word_ascii s : word s = true → ascii_text s = true.
Proof.
  induction s as [|a s IH]; [done|]. cbn [word]. intros [Ha Hs]%andb_true_iff. apply word_byte in Ha.
  unfold ascii_text in *. cbn [String.list_ascii_of_string forallb]. rewrite (proj2 (N.ltb_lt _ 128)) by lia. by apply IH.
Qed.

Lemma word_visible s : word s = true →
  Forall (λ c, is_whitespace c = false) (map byte_of (String.list_ascii_of_string s)).
Proof.
  induction s as [|a s IH]; [constructor|]. cbn [word]. intros [Ha Hs]%andb_true_iff. constructor; [|by apply IH].
  apply word_byte in Ha. unfold is_whitespace. rewrite !orb_false_iff. split_and!.
  - apply andb_false_iff. right. apply N.leb_gt. lia.
  - apply bool_decide_eq_false. rewrite !elem_of_cons, elem_of_nil. lia.
  - apply andb_false_iff. left. apply N.leb_gt. lia.
Qed.

Lemma drop_while_none {A} (p : A → bool) xs : Forall (λ x, p x = false) xs → drop_while p xs = xs.
Proof. intros [|x xs' Hx _]; [done|]. cbn. by rewrite Hx. Qed.

Lemma word_trim s : word s = true → trim s = s.
Proof.
  intros Hs. unfold trim. rewrite (chars_ascii s) by by apply word_ascii. pose proof (word_visible s Hs) as Hv.
  rewrite (drop_while_none _ _ Hv), drop_while_none, reverse_involutive by by apply Forall_reverse.
  by apply of_chars_ascii, word_ascii.
Qed.

(** ** Decimal numbers *)

Lemma digit_word (x : N) : word_char (pretty_N_char x) = true.
Proof. unfold pretty_N_char. by repeat case_match. Qed.

Lemma word_pretty_go (x : N) : ∀ s, word s = true → word (pretty_N_go x s) = true.
Proof.
  induction (N.lt_wf_0 x) as [x _ IH]; intros s Hs.
  assert (x = 0 ∨ 0 < x)%N as [->|Hx] by lia; [by rewrite pretty_N_go_0|].
  rewrite pretty_N_go_step by done. apply IH; [by apply N.div_lt|]. cbn [word]. by rewrite digit_word, Hs.
Qed.

Lemma word_pretty (z : Z) : word (pretty z) = true.
Proof.
  assert (∀ x : N, word (pretty x) = true) as Hn.
  { intros x. unfold pretty, pretty_N. case_decide; [done|]. by apply word_pretty_go. }
  destruct z as [|p|p]; [done|apply (Hn (Npos p))|]. change (word ("-" +:+ pretty (Npos p)) = true).
  by rewrite word_app, Hn.
Qed.

(** [format!("{t}")] parses back. *)
Lemma parse_i64_pretty z : (- 2 ^ 63 < z < 2 ^ 63)%Z → parse_i64 (pretty z) = Some z.
Proof.
  intros Hz. unfold parse_i64. destruct z as [|p|p]; [done| |].
  - change (pretty (Z.pos p)) with (pretty (Npos p)).
    assert (∀ a : Ascii.ascii, ∀ r, (byte_of a =? 45)%N || (byte_of a =? 43)%N = true → pretty (Npos p) ≠ String a r) as Hd.
    { intros a r Ha He. pose proof (parse_pretty (Npos p)) as Hp. rewrite He in Hp. cbn [parse_digits] in Hp.
      unfold is_ascii_digit in Hp. apply orb_true_iff in Ha.
      rewrite !N.eqb_eq in Ha. replace (48 <=? byte_of a)%N with false in Hp; [done|]. symmetry. apply N.leb_gt. lia. }
    destruct (strip_prefix "-" (pretty (Npos p))) as [r|] eqn:E.
    { apply strip_prefix_spec in E. by destruct (Hd (Ascii.ascii_of_N 45) r). }
    unfold parse_unsigned. destruct (strip_prefix "+" (pretty (Npos p))) as [r|] eqn:E'.
    { apply strip_prefix_spec in E'. by destruct (Hd (Ascii.ascii_of_N 43) r). }
    pose proof (parse_pretty (Npos p)) as Hp. pose proof (pretty_N_nonempty (Npos p)) as Hne.
    destruct (pretty (Npos p)) as [|a s]; [done|]. rewrite Hp. cbn [mbind option_bind Z.of_N].
    by rewrite (proj2 (Z.leb_le _ _)) by (unfold i64_max; lia).
  - change (pretty (Z.neg p)) with ("-" +:+ pretty (Npos p)).
    replace (strip_prefix "-" ("-" +:+ pretty (Npos p))) with (Some (pretty (Npos p))) by (symmetry; by apply strip_prefix_spec).
    pose proof (parse_pretty (Npos p)) as Hp. pose proof (pretty_N_nonempty (Npos p)) as Hne.
    destruct (pretty (Npos p)) as [|a s]; [done|]. rewrite Hp. cbn [mbind option_bind Z.of_N].
    by rewrite (proj2 (Z.leb_le _ _)) by lia.
Qed.

(** ** The header *)

Lemma split_on_lacks c s : lacks c s = true → split_on c s = [s].
Proof.
  induction s as [|a s IH]; [done|]. cbn [lacks split_on]. intros [Ha Hs]%andb_true_iff.
  apply negb_true_iff in Ha. by rewrite Ha, IH.
Qed.

Lemma split_on_app c s t : lacks c s = true → split_on c (s +:+ String c t) = s :: split_on c t.
Proof.
  induction s as [|a s IH].
  - intros _. change ("" +:+ String c t) with (String c t). cbn [split_on]. by rewrite Ascii.eqb_refl.
  - change (String a s +:+ String c t) with (String a (s +:+ String c t)). cbn [lacks split_on].
    intros [Ha Hs]%andb_true_iff. apply negb_true_iff in Ha. by rewrite Ha, IH.
Qed.

Lemma split_join c parts : parts ≠ [] → Forall (λ s, lacks c s = true) parts →
  split_on c (str_join (String c "") parts) = parts.
Proof.
  unfold str_join. induction parts as [|p parts IH]; intros Hne Hl; [done|]. apply Forall_cons in Hl as [Hp Hl].
  destruct parts as [|q parts]; [by apply split_on_lacks|].
  change (String.concat (String c "") (p :: q :: parts)) with (p +:+ String c (String.concat (String c "") (q :: parts))).
  rewrite split_on_app by done.
  by rewrite IH.
Qed.

Section Header.
Context `{Sha256}.

(** Digests are hexadecimal text. *)
Hypothesis hex_text : ∀ s, word (sha256_hex s) = true.

Variables (secret url body : string) (timestamp : Z).
Hypothesis in_range : (- 2 ^ 63 < timestamp < 2 ^ 63)%Z.

Definition signature (version : string) : option string :=
  compute_hmac_sha256 secret <$> signed_text version timestamp url body.

(** The header's parts after the timestamp. *)
Definition signed_parts (versions : list string) : list string :=
  omap (λ version, payload ← signed_text version timestamp url body;
                   Some (version +:+ "=" +:+ compute_hmac_sha256 secret payload)) versions.

Definition known (version : string) : Prop := version = "v1" ∨ version = "v2".

Lemma known_signed v : known v → ∃ text, signed_text v timestamp url body = Some text.
Proof. intros [->| ->]; cbn; eauto. Qed.

Lemma hmac_word text : word (compute_hmac_sha256 secret text) = true.
Proof. apply hex_text. Qed.

Lemma part_split k v : word k = true → split_once "=" (k +:+ "=" +:+ v) = Some (k, v).
Proof. intros Hk. apply (split_once_char (Ascii.ascii_of_N 61) k v). by apply word_lacks. Qed.

Lemma part_lacks k v : word k = true → word v = true → lacks comma (k +:+ "=" +:+ v) = true.
Proof. intros Hk Hv. rewrite !lacks_app. by rewrite (word_lacks comma k), (word_lacks comma v) by done. Qed.

Lemma part_v1 t v1 v2 v : word v = true → signature_part (t, v1, v2) ("v1" +:+ "=" +:+ v) = Some (t, Some v, v2).
Proof. intros Hv. unfold signature_part. rewrite part_split by done. cbn [mbind option_bind]. by rewrite (word_trim v). Qed.
Lemma part_v2 t v1 v2 v : word v = true → signature_part (t, v1, v2) ("v2" +:+ "=" +:+ v) = Some (t, v1, Some v).
Proof. intros Hv. unfold signature_part. rewrite part_split by done. cbn [mbind option_bind]. by rewrite (word_trim v). Qed.
Lemma part_t v1 v2 t : signature_part (t, v1, v2) ("t" +:+ "=" +:+ pretty timestamp) = Some (Some timestamp, v1, v2).
Proof.
  unfold signature_part. rewrite part_split by done. cbn [mbind option_bind].
  rewrite (word_trim (pretty timestamp)) by apply word_pretty. by rewrite parse_i64_pretty.
Qed.

Lemma signed_parts_cons v versions text : signed_text v timestamp url body = Some text →
  signed_parts (v :: versions) = (v +:+ "=" +:+ compute_hmac_sha256 secret text) :: signed_parts versions.
Proof. intros Ht. unfold signed_parts. cbn [omap list_omap]. by rewrite Ht. Qed.

(** Each part sets its version's signature. *)
Lemma parts_parsed versions t v1 v2 : Forall known versions →
  signature_parts (t, v1, v2) (signed_parts versions) =
    Some (t, (if bool_decide ("v1" ∈ versions) then signature "v1" else v1),
             (if bool_decide ("v2" ∈ versions) then signature "v2" else v2)).
Proof.
  intros Hv. revert v1 v2. induction Hv as [|v versions Hv _ IH]; intros v1 v2; [done|].
  assert (∀ x : string, bool_decide (x ∈ v :: versions) = bool_decide (x = v) || bool_decide (x ∈ versions)) as Hd.
  { intros x. apply eq_bool_prop_intro. rewrite orb_True, !bool_decide_spec. set_solver. }
  rewrite !Hd. destruct Hv as [->| ->]; erewrite signed_parts_cons by reflexivity; cbn [signature_parts];
    [rewrite part_v1 by apply hmac_word|rewrite part_v2 by apply hmac_word]; cbn [mbind option_bind]; rewrite IH.
  - rewrite (bool_decide_true ("v1" = "v1")), (bool_decide_false ("v2" = "v1")) by done. cbn [orb].
    by case_bool_decide.
  - rewrite (bool_decide_false ("v1" = "v2")), (bool_decide_true ("v2" = "v2")) by done. cbn [orb].
    by destruct (bool_decide ("v2" ∈ versions)).
Qed.

Lemma header_parsed versions : Forall known versions → versions ≠ [] →
  ∃ header, build_signature_header secret timestamp url body versions = Some header ∧
    parse_signature_header_versioned header =
      Some (mkParsed timestamp (if bool_decide ("v1" ∈ versions) then signature "v1" else None)
                               (if bool_decide ("v2" ∈ versions) then signature "v2" else None)).
Proof.
  intros Hv Hne. unfold build_signature_header. fold (signed_parts versions).
  set (parts := _ :: signed_parts versions). exists (str_join "," parts). split.
  - destruct versions as [|v versions]; [done|]. apply Forall_cons in Hv as [Hv _].
    destruct (known_signed v Hv) as [text Ht]. unfold parts. by rewrite (signed_parts_cons v versions text Ht).
  - unfold parse_signature_header_versioned. rewrite (split_join comma).
    + unfold parts. cbn [signature_parts]. change ("t=" +:+ pretty timestamp) with ("t" +:+ "=" +:+ pretty timestamp).
      rewrite part_t. cbn [mbind option_bind]. by rewrite parts_parsed.
    + done.
    + constructor; [apply (part_lacks "t"); [done|apply word_pretty]|]. apply Forall_forall. intros s Hs.
      apply list_elem_of_omap in Hs as (v & Hin & Hs). destruct (signed_text v timestamp url body); [|done]. cbn in Hs.
      simplify_eq. rewrite Forall_forall in Hv. apply part_lacks; [|apply hmac_word]. by destruct (Hv v Hin) as [->| ->].
Qed.

End Header.

(** ** Verification *)

Lemma xor_diff_0 a b d : String.length a = String.length b → xor_diff d a b = 0%N ↔ d = 0%N ∧ a = b.
Proof.
  revert b d. induction a as [|x a IH]; intros [|y b] d Hl; try done.
  - cbn. naive_solver.
  - cbn [xor_diff]. injection Hl as Hl. rewrite IH by done. rewrite N.lor_eq_0_iff, N.lxor_eq_0_iff.
    split; [intros [[-> Hb] ->]|intros [-> [= -> ->]]; done]. split; [done|]. f_equal.
    rewrite <- (Ascii.ascii_N_embedding x), <- (Ascii.ascii_N_embedding y). unfold byte_of in Hb. by rewrite Hb.
Qed.

Lemma sig_ct_eq_spec a b : ct_eq a b = true ↔ a = b.
Proof.
  unfold ct_eq. destruct (Nat.eqb_spec (String.length a) (String.length b)) as [Hl|Hl].
  - rewrite N.eqb_eq, xor_diff_0 by done. naive_solver.
  - split; [done|]. by intros ->.
Qed.

Lemma tolerance_small checked now timestamp tolerance :
  (0 ≤ now < 2 ^ 62)%Z → (0 ≤ timestamp < 2 ^ 62)%Z →
  outside_tolerance checked now timestamp tolerance = Some (tolerance <? Z.abs (now - timestamp))%Z.
Proof.
  intros Hn Ht. unfold outside_tolerance.
  assert (∀ z, (- 2 ^ 63 <= z < 2 ^ 63)%Z → wrap_signed 64 z = z) as Hw.
  { intros z Hz. unfold wrap_signed. change (64 - 1)%Z with 63%Z. rewrite Z.mod_small; lia. }
  rewrite (Hw (now - timestamp)%Z) by lia. rewrite (Hw (Z.abs (now - timestamp))) by lia.
  rewrite (proj2 (Z.leb_le _ _)) by lia. rewrite !(proj2 (Z.ltb_lt _ (2 ^ 63))) by lia.
  by rewrite andb_false_r.
Qed.

(** What the checks after the header come to. *)
Lemma verified_iff (sha : Sha256) secret (timestamp now tolerance : Z) sig body (text : string → string) :
  (if (tolerance <? Z.abs (now - timestamp))%Z then Err "timestamp outside tolerance"
   else sig_hex ← ok_or sig "v2 signature missing";
        body_str ← ok_or (from_utf8 body) "non-utf8 body";
        if negb (ct_eq sig_hex (compute_hmac_sha256 secret (text body_str))) then Err "signature mismatch" else Ok ())
  = (Ok () : result string ()) ↔
  (Z.abs (now - timestamp) ≤ tolerance)%Z ∧ ∃ s, from_utf8 body = Some s ∧ sig = Some (compute_hmac_sha256 secret (text s)).
Proof.
  destruct (Z.ltb_spec tolerance (Z.abs (now - timestamp))) as [Ht|Ht]; [split; [done|lia]|].
  destruct sig as [sig|]; cbn; [|naive_solver]. destruct (from_utf8 body) as [s|]; cbn; [|naive_solver].
  destruct (ct_eq sig _) eqn:E; cbn.
  - apply sig_ct_eq_spec in E as ->. naive_solver.
  - split; [done|]. intros (_ & s' & [= <-] & [= ->]). apply not_true_iff_false in E. by destruct E; apply sig_ct_eq_spec.
Qed.

Lemma known_versions_known seen versions : Forall known (known_versions seen versions).
Proof.
  revert seen. induction versions as [|v versions IH]; intros seen; [constructor|]. cbn [known_versions].
  destruct (negb _ && negb _) eqn:E; [apply IH|]. destruct (bool_decide (v ∈ seen)); [apply IH|]. constructor; [|apply IH].
  apply andb_false_iff in E as [E|E]; apply negb_false_iff, bool_decide_eq_true in E; [by left|by right].
Qed.

Lemma sanitized_known w :
  Forall known (wh_signing_versions (sanitize_versions w)) ∧ wh_signing_versions (sanitize_versions w) ≠ [].
Proof.
  unfold sanitize_versions. pose proof (known_versions_known [] (wh_signing_versions w)) as Hk. cbn.
  destruct (known_versions [] (wh_signing_versions w)); [|done]. split; [|done]. constructor; [by left|constructor].
Qed.

(** The bytes versions v1 and v2 sign. *)
Definition v1_text (timestamp : Z) (body : string) : string := pretty timestamp +:+ "." +:+ body.
Definition v2_text (timestamp : Z) (url body : string) : string := pretty timestamp +:+ "." +:+ url +:+ "." +:+ body.

(** C36: a signed webhook verifies exactly when it should. Whatever the
    receiver's configured versions, a receiver with a secret sends a header;
    under it [verify_signed_payload] accepts a body just when the header
    carries v1, the clock is within tolerance, the body is UTF-8 and its HMAC
    is that of the body sent, and [verify_signed_payload_v2] a body and a URL
    under the same conditions on v2, so a copy of the request fails at another
    URL unless the HMACs collide. *)
Theorem signature_verifies (sha : Sha256) checked w secret body timestamp now tolerance :
  (∀ s, word (sha256_hex s) = true) → wh_hmac_secret w = Some secret →
  (0 ≤ now < 2 ^ 62)%Z → (0 ≤ timestamp < 2 ^ 62)%Z →
  let versions := wh_signing_versions (sanitize_versions w) in
  let fresh := (Z.abs (now - timestamp) ≤ tolerance)%Z in
  let hmac := compute_hmac_sha256 secret in
  ∃ header, signature_of (sanitize_versions w) timestamp body = Some header ∧
    (∀ body', verify_signed_payload checked secret body' header now tolerance = Some (Ok ()) ↔
       "v1" ∈ versions ∧ fresh ∧ from_utf8 body' = Some body' ∧ hmac (v1_text timestamp body) = hmac (v1_text timestamp body')) ∧
    (∀ body' url', verify_signed_payload_v2 checked secret body' url' header now tolerance = Some (Ok ()) ↔
       "v2" ∈ versions ∧ fresh ∧ from_utf8 body' = Some body' ∧
       hmac (v2_text timestamp (wh_url w) body) = hmac (v2_text timestamp url' body')).
Proof.
  intros Hhex Hsec Hnow Hts versions fresh hmac.
  destruct (sanitized_known w) as [Hk Hne]. fold versions in Hk, Hne.
  destruct (header_parsed Hhex secret (wh_url w) body timestamp ltac:(lia) versions Hk Hne) as (header & Hb & Hp).
  exists header. split; [unfold signature_of; cbn; rewrite Hsec; exact Hb|].
  assert (∀ b : string, ∀ P : string → Prop, (∃ s, from_utf8 b = Some s ∧ P s) ↔ from_utf8 b = Some b ∧ P b) as Hutf.
  { intros b P. unfold from_utf8. destruct (bool_decide _ && _); naive_solver. }
  split.
  - intros body'. unfold verify_signed_payload, parse_signature_header. rewrite Hp. cbn [mbind option_bind ps_v1 ps_timestamp].
    destruct (bool_decide ("v1" ∈ versions)) eqn:Ev; [apply bool_decide_eq_true in Ev|apply bool_decide_eq_false in Ev].
    + change (signature secret (wh_url w) body timestamp "v1") with (Some (hmac (v1_text timestamp body))).
      cbn [mbind option_bind]. rewrite tolerance_small by done. cbn [mbind option_bind].
      pose proof (verified_iff sha secret timestamp now tolerance (Some (hmac (v1_text timestamp body))) body' (v1_text timestamp)) as Hv.
      cbn [ok_or mbind result_bind] in Hv. unfold v1_text, hmac in *. rewrite Hutf in Hv. fold fresh in Hv.
      split; [intros [= Hx]; apply Hv in Hx; naive_solver|]. intros (_ & Hf & Hu & He). f_equal. apply Hv. by rewrite He.
    + cbn [mbind option_bind]. split; [done|]. by intros [? _].
  - intros body' url'. unfold verify_signed_payload_v2. rewrite Hp. cbn [ps_timestamp ps_v2].
    rewrite tolerance_small by done. cbn [mbind option_bind].
    pose proof (verified_iff sha secret timestamp now tolerance (if bool_decide ("v2" ∈ versions) then signature secret (wh_url w) body timestamp "v2" else None) body' (v2_text timestamp url')) as Hv.
    unfold v2_text in *. rewrite Hutf in Hv. fold fresh in Hv.
    destruct (bool_decide ("v2" ∈ versions)) eqn:Ev; [apply bool_decide_eq_true in Ev|apply bool_decide_eq_false in Ev];
      [change (signature secret (wh_url w) body timestamp "v2") with (Some (hmac (v2_text timestamp (wh_url w) body))) in Hv |- *|];
      unfold v2_text in *; fold hmac in Hv |- *; cbn [ok_or] in Hv |- *.
    + split; [intros [= Hx]; apply Hv in Hx; naive_solver|]. intros (_ & Hf & Hu & He). f_equal. apply Hv. by rewrite He.
    + split; [intros [= Hx]; apply Hv in Hx; naive_solver|]. by intros [? _].
Qed.

(** ** Examples *)

Definition word_sha : Sha256 := λ s, pretty (poly_hash 7 s).

Definition demo_signed : WebhookConfig :=
  mkWebhook "ops" "https://hooks.example.com/iac" "info" [] (Some "k") false None ["v2"; "v9"; "v1"; "v2"].

Lemma signature_verifies_witness :
  ∃ header, @signature_of word_sha (sanitize_versions demo_signed) 1700000000 "{}" = Some header ∧
    @verify_signed_payload word_sha true "k" "{}" header 1700000100 300 = Some (Ok ()) ∧
    @verify_signed_payload word_sha true "k" "{}" header 1700000400 300 ≠ Some (Ok ()) ∧
    @verify_signed_payload_v2 word_sha true "k" "{}" "https://hooks.example.com/iac" header 1700000100 300 = Some (Ok ()).
Proof.
  assert (∀ s, word (@sha256_hex word_sha s) = true) as Hw by (intros s; apply word_pretty).
  destruct (signature_verifies word_sha true demo_signed "k" "{}" 1700000000 1700000100 300 Hw eq_refl) as (header & Hh & H1 & H2); [lia..|].
  destruct (signature_verifies word_sha true demo_signed "k" "{}" 1700000000 1700000400 300 Hw eq_refl) as (header' & Hh' & H1' & _); [lia..|].
  rewrite Hh in Hh'. injection Hh' as <-. exists header. split; [exact Hh|]. split; [|split].
  - apply H1. split; [by right; left|]. split; [lia|]. by split.
  - intros Hv. apply H1' in Hv as (_ & Hv & _). lia.
  - apply H2. split; [by left|]. split; [lia|]. by split.
Defined.

(** A forged header makes the subtraction overflow before the signature is
    looked at: a panic where overflow is checked; where it wraps, one such
    timestamp counts as fresh. *)
Lemma forged_timestamp_overflows :
  @verify_signed_payload word_sha true "k" "{}" "t=-9223372036854775807,v1=0" 1700000000 300 = None ∧
  outside_tolerance false 1700000000 (1700000000 - 2 ^ 63) 300 = Some false.
Proof. by vm_compute. Qed.

(** The guard classifies an IPv4-mapped loopback and an IPv6 link-local address as public. *)
Lemma mapped_loopback_accepted :
  validate_webhook_url "https://[::ffff:127.0.0.1]/sink" false false = Ok () ∧
  ip_is_blocked (V6 [0; 0; 0; 0; 0; 65535; 32512; 1]%Z) = false ∧
  ip_is_blocked (V6 [65152; 0; 0; 0; 0; 0; 0; 1]%Z) = false ∧
  is_ok (validate_webhook_url "https://127.0.0.1/sink" false false) = false.
Proof. by vm_compute. Qed.
