(* ===== verification/SigningProps.v ===== *)
(** * Properties of the signing keys

    Crash safety of the key directory, by a Hoare logic whose triples also say
    what a fault leaves; the invariant of the signer over any run of
    rotations, retirements and restarts; the message a signature covers. *)

From S2P Require Import Prelude Text Json Routing Db AuditLog AuditChain Signing.

#[local] Open Scope string_scope.
#[local] Open Scope list_scope.
#[local] Open Scope nat_scope.
#[local] Open Scope fs_scope.

(** ** File names *)

Lemma key_file_inj a b : key_file a = key_file b → a = b.
Proof. intros H. by apply (str_app_inj_r a ".bin" b ".bin") in H as [-> _]. Qed.

Lemma key_file_not_active id : key_file id ≠ "active".
Proof. intros H. by apply (str_app_inj_r id ".bin" "ac" "tive") in H as [_ H]. Qed.

Lemma key_file_not_tmp id s : key_file id ≠ s +:+ ".tmp".
Proof. intros H. by apply (str_app_inj_r id ".bin" s ".tmp") in H as [_ H]. Qed.

Lemma key_tmp_alt id : key_tmp id = ("." +:+ key_file id) +:+ ".tmp".
Proof. unfold key_tmp. by rewrite str_app_assoc. Qed.

Lemma key_tmp_not_active id : key_tmp id ≠ "active".
Proof. rewrite key_tmp_alt. intros H. by apply (str_app_inj_r ("." +:+ key_file id) ".tmp" "ac" "tive") in H as [_ H]. Qed.

Lemma strip_bin name id : strip_suffix ".bin" name = Some id ↔ name = key_file id.
Proof. split; [apply strip_suffix_sound|intros ->; apply strip_suffix_app]. Qed.

(** A name that is neither a key file nor the pointer. *)
Definition scratch (name : string) : Prop := name ≠ "active" ∧ ∀ id, key_file id ≠ name.

Lemma scratch_key_tmp id : scratch (key_tmp id).
Proof. split; [apply key_tmp_not_active|]. intros id'. rewrite key_tmp_alt. apply key_file_not_tmp. Qed.

Lemma scratch_active_tmp : scratch ".active.tmp".
Proof. split; [done|]. intros id. apply (key_file_not_tmp id ".active"). Qed.

(** ** What the directory holds *)

(** The directory [m] holds exactly the keys [K], and the pointer reads [a]. *)
Definition holds (m : gmap string string) (K : gmap string string) (a : string) : Prop :=
  (∀ id, m !! key_file id = K !! id) ∧ m !! "active" = Some a.

Definition dir_holds (K : gmap string string) (a : string) (d : StateDir) : Prop :=
  sd_exists d = true ∧ ∃ m, sd_keys d = Some m ∧ holds m K a.

Lemma holds_scratch m K a name c : scratch name → holds m K a → holds (<[name := c]> m) K a.
Proof.
  intros [Ha Hk] [HK HA]. split; [intros id; rewrite lookup_insert_ne by (intros He; by apply (Hk id)); apply HK|].
  by rewrite lookup_insert_ne.
Qed.

Lemma holds_delete_scratch m K a name : scratch name → holds m K a → holds (delete name m) K a.
Proof.
  intros [Ha Hk] [HK HA]. split; [intros id; rewrite lookup_delete_ne by (intros He; by apply (Hk id)); apply HK|].
  by rewrite lookup_delete_ne.
Qed.

Lemma holds_key m K a id c : holds m K a → holds (<[key_file id := c]> m) (<[id := c]> K) a.
Proof.
  intros [HK HA]. split.
  - intros id'. destruct (decide (id = id')) as [->|Hne]; [by rewrite !lookup_insert_eq|].
    rewrite !lookup_insert_ne; [apply HK|done|]. by intros ?%key_file_inj.
  - rewrite lookup_insert_ne; [done|]. apply key_file_not_active.
Qed.

Lemma holds_pointer m K a a' : holds m K a → holds (<["active" := a']> m) K a'.
Proof.
  intros [HK HA]. split; [|by rewrite lookup_insert_eq].
  intros id. rewrite lookup_insert_ne; [apply HK|]. intros He. by apply (key_file_not_active id).
Qed.

Lemma holds_remove m K a id : holds m K a → holds (delete (key_file id) m) (delete id K) a.
Proof.
  intros [HK HA]. split.
  - intros id'. destruct (decide (id = id')) as [->|Hne]; [by rewrite !lookup_delete_eq|].
    rewrite !lookup_delete_ne; [apply HK|done|]. by intros ?%key_file_inj.
  - rewrite lookup_delete_ne; [done|]. apply key_file_not_active.
Qed.

(** The set a directory's contents stand for. *)
Definition entry_of `{Ed25519} (secret : string) : KeyEntry := mkKeyEntry secret (ed_public secret).
Definition state_of `{Ed25519} (K : gmap string string) (a : string) : SignerState :=
  mkSignerState (entry_of <$> K) (trim a).

(** A set that loads: every key has its length and the pointer names one. *)
Definition loadable (K : gmap string string) (a : string) : Prop :=
  (∀ id c, K !! id = Some c → String.length c = 32) ∧ trim a ≠ "" ∧ is_Some (K !! trim a).

Section Disk.
Context (io_error : string → string) (torn dir : string) `{Ed25519}.

Lemma fs_write_scratch (name c : string) K a :
  scratch name →
  hoare (dir_holds K a) (fs_write io_error torn name c)
    (λ _ d, sd_exists d = true ∧ ∃ m, sd_keys d = Some m ∧ holds m K a ∧ m !! name = Some c) (dir_holds K a).
Proof.
  intros Hs d [|n] (He & m & Hm & Hh); unfold dir_holds; cbn; rewrite Hm; (split; [done|]); eexists; (split; [reflexivity|]).
  - by apply holds_scratch.
  - split; [by apply holds_scratch|apply lookup_insert_eq].
Qed.

(** A rename of a scratch file makes its contents those of [to]. *)
Lemma fs_rename_scratch (from to c : string) K a K' a' :
  scratch from → (∀ m, holds m K a → holds (<[to := c]> m) K' a') →
  hoare (λ d, sd_exists d = true ∧ ∃ m, sd_keys d = Some m ∧ holds m K a ∧ m !! from = Some c)
    (fs_rename io_error from to) (λ _, dir_holds K' a') (dir_holds K a).
Proof.
  intros Hs Hto d [|n] (He & m & Hm & Hh & Hc); cbn; [split; [done|]; eauto|].
  split; [done|]. exists (<[to := c]> (delete from m)). cbn. rewrite Hm. cbn. rewrite Hc. split; [done|].
  by apply Hto, holds_delete_scratch.
Qed.

Lemma write_key_file_hoare K a id c :
  hoare (dir_holds K a) (write_key_file io_error torn dir id c)
    (λ _, dir_holds (<[id := c]> K) a) (dir_holds K a).
Proof.
  unfold write_key_file. eapply hoare_bind; [apply hoare_context, fs_write_scratch, scratch_key_tmp|]. intros [].
  eapply hoare_bind with (Q := λ _ d, sd_exists d = true ∧ ∃ m, sd_keys d = Some m ∧ holds m K a ∧ m !! key_tmp id = Some c).
  { apply hoare_context. intros d [|n] Hd; cbn; [|exact Hd].
    destruct Hd as (He & m & Hm & Hh & _). split; [done|]. eauto. }
  intros []. apply hoare_context, fs_rename_scratch; [apply scratch_key_tmp|]. intros m. apply holds_key.
Qed.

Lemma write_active_pointer_hoare K a id :
  hoare (dir_holds K a) (write_active_pointer io_error torn dir id) (λ _, dir_holds K id) (dir_holds K a).
Proof.
  unfold write_active_pointer. eapply hoare_bind; [apply hoare_context, fs_write_scratch, scratch_active_tmp|]. intros [].
  apply hoare_context, fs_rename_scratch; [apply scratch_active_tmp|]. intros m. apply holds_pointer.
Qed.

(** ** Loading *)

Lemma load_entries_run m (names : list string) : ∀ keys d n,
  sd_keys d = Some m → (∀ name, name ∈ names → is_Some (m !! name)) →
  (∀ id c, m !! key_file id = Some c → String.length c = 32) →
  match load_entries io_error dir keys names d n with
  | (Ok keys', d', n') =>
      d' = d ∧ n ≤ n' + length names ∧
      ∀ id, keys' !! id = if decide (key_file id ∈ names) then entry_of <$> m !! key_file id else keys !! id
  | (Err _, d', n') => d' = d ∧ n < length names
  end.
Proof.
  induction names as [|name names IH]; intros keys d n Hm Hin Hlen; cbn [load_entries].
  { split; [done|]. split; [lia|]. intros id. rewrite decide_False; [done|]. apply not_elem_of_nil. }
  assert (∀ nm, nm ∈ names → is_Some (m !! nm)) as Hin' by (intros; apply Hin; by right).
  unfold fs_bind at 1. unfold load_entry. destruct (strip_suffix ".bin" name) as [stem|] eqn:Es.
  - apply strip_bin in Es as ->. destruct (Hin (key_file stem)) as [c Hc]; [by left|].
    unfold fs_bind at 1, fs_context, fs_read_file, fs_read. destruct n as [|n]; [split; [done|]; cbn; lia|].
    rewrite Hm. cbn [mbind option_bind]. rewrite Hc, (Hlen _ _ Hc). cbn [Nat.eqb negb fs_ret].
    specialize (IH (<[stem := mkKeyEntry c (ed_public c)]> keys) d n Hm Hin' Hlen).
    destruct (load_entries _ _ _ names d n) as [[[k'|e] d'] n']; cbn [length]; [|destruct IH; split; [done|lia]].
    destruct IH as (-> & Hn & Hk). split; [done|]. split; [lia|]. intros id. rewrite Hk.
    destruct (decide (key_file id ∈ names)) as [Hi|Hi]; [by rewrite decide_True by by right|].
    destruct (decide (stem = id)) as [->|Hne].
    + rewrite lookup_insert_eq, decide_True by left. by rewrite Hc.
    + rewrite lookup_insert_ne by done. rewrite decide_False; [done|].
      intros [He%key_file_inj|?]%elem_of_cons; [by apply Hne|done].
  - cbn [fs_ret]. specialize (IH keys d n Hm Hin' Hlen).
    destruct (load_entries _ _ _ names d n) as [[[k'|e] d'] n']; cbn [length]; [|destruct IH; split; [done|lia]].
    destruct IH as (-> & Hn & Hk). split; [done|]. split; [lia|]. intros id. rewrite Hk.
    assert (key_file id ≠ name) as Hne by (intros He; by rewrite (proj2 (strip_bin name id) (eq_sym He)) in Es).
    destruct (decide (key_file id ∈ names)) as [Hi|Hi]; [by rewrite decide_True by by right|].
    rewrite decide_False; [done|]. intros [?|?]%elem_of_cons; by auto.
Qed.

Lemma load_set_run K a d n :
  dir_holds K a d → loadable K a →
  match load_set io_error dir d n with
  | (Ok s, d', _) => d' = d ∧ s = state_of K a
  | (Err _, d', _) => d' = d ∧ n < 2 + size (default ∅ (sd_keys d))
  end.
Proof.
  intros (_ & m & Hm & HK & HA) (Hlen & Hne & Ha). unfold load_set, fs_bind at 1, fs_context at 1, fs_read_file, fs_read.
  destruct n as [|n]; [split; [done|lia]|]. rewrite Hm. cbn [mbind option_bind default]. rewrite HA.
  rewrite decide_False by done. unfold fs_bind at 1, fs_context at 1.
  destruct n as [|n]; [split; [done|lia]|]. cbn [mbind option_bind]. rewrite Hm. cbn [mbind option_bind].
  pose proof (load_entries_run m (map fst (map_to_list m)) ∅ d n Hm) as Hrun. unfold fs_bind.
  assert (∀ name, name ∈ map fst (map_to_list m) ↔ is_Some (m !! name)) as Hdom.
  { intros name. rewrite elem_of_map. split.
    - intros ([k c] & Hkc & ->). apply elem_of_map_to_list in Hkc. eauto.
    - intros [c Hc]. exists (name, c). by rewrite elem_of_map_to_list. }
  specialize (Hrun (λ name, proj1 (Hdom name))).
  assert (∀ id c, m !! key_file id = Some c → String.length c = 32) as Hlm by (intros id c; rewrite HK; apply Hlen).
  specialize (Hrun Hlm). destruct (load_entries _ _ _ _ d n) as [[[keys|e] d'] n'].
  2: { destruct Hrun as [-> Hn]. split; [done|]. rewrite length_map, length_map_to_list in Hn. rewrite ?Hm. cbn. lia. }
  destruct Hrun as (-> & _ & Hk).
  assert (keys = entry_of <$> K) as ->.
  { apply map_eq. intros id. rewrite Hk, lookup_fmap, <- HK. case_decide as Hi; [done|].
    rewrite Hdom, <- eq_None_not_Some in Hi. by rewrite Hi, lookup_empty. }
  rewrite decide_False; [done|]. rewrite lookup_fmap. destruct Ha as [c ->]. done.
Qed.

Lemma load_set_hoare K a :
  loadable K a → hoare (dir_holds K a) (load_set io_error dir) (λ s d, dir_holds K a d ∧ s = state_of K a) (dir_holds K a).
Proof.
  intros Hl d n Hd. pose proof (load_set_run K a d n Hd Hl) as Hrun.
  destruct (load_set _ _ d n) as [[[s|e] d'] n']; destruct Hrun as [-> ?]; [by split|done].
Qed.

(** ** Rotation and retirement *)

(** The key directory of a rotation to [id] that was cut short. *)
Definition mid_rotation (K : gmap string string) (a id c : string) (d : StateDir) : Prop :=
  dir_holds K a d ∨ dir_holds (<[id := c]> K) a d ∨ dir_holds (<[id := c]> K) id d.

Lemma rotate_hoare K a k :
  loadable K a → String.length (kd_secret k) = 32 → trim (kd_id k) = kd_id k → kd_id k ≠ "" →
  hoare (dir_holds K a)
    (let* new_id := generate_and_persist io_error torn dir k in
     write_active_pointer io_error torn dir new_id ;*
     let* new_state := fs_context [Txt "reloading key set after rotate ("; Ext dir; Txt ")"] (load_set io_error dir) in
     fs_ret (new_id, new_state))
    (λ r d, r = (kd_id k, state_of (<[kd_id k := kd_secret k]> K) (kd_id k)) ∧
            dir_holds (<[kd_id k := kd_secret k]> K) (kd_id k) d)
    (mid_rotation K a (kd_id k) (kd_secret k)).
Proof.
  intros (Hlen & _ & _) Hc Ht Hne. set (K1 := <[kd_id k := kd_secret k]> K).
  assert (loadable K1 (kd_id k)) as Hl1.
  { split; [|rewrite Ht; split; [done|]; subst K1; by rewrite lookup_insert_eq].
    intros id c [[<- <-]|[? Hid]]%lookup_insert_Some; [done|by eapply Hlen]. }
  eapply hoare_bind with (Q := λ id d, id = kd_id k ∧ dir_holds K1 a d).
  { unfold generate_and_persist. apply hoare_bind with (Q := λ _, dir_holds K1 a); [|intros []; apply hoare_ret; by split].
    eapply hoare_consequence; [apply write_key_file_hoare|done|done|]. intros d Hd. by left. }
  intros id. eapply hoare_bind with (Q := λ _ d, id = kd_id k ∧ dir_holds K1 (kd_id k) d).
  { intros d n [-> Hd]. pose proof (write_active_pointer_hoare K1 a (kd_id k) d n Hd) as Hw.
    destruct (write_active_pointer _ _ _ _ d n) as [[[[]|e] d'] n']; [by split|]. right. by left. }
  intros []. eapply hoare_bind with (Q := λ s d, id = kd_id k ∧ s = state_of K1 (kd_id k) ∧ dir_holds K1 (kd_id k) d).
  { apply hoare_context. intros d n [-> Hd]. pose proof (load_set_hoare K1 (kd_id k) Hl1 d n Hd) as Hw.
    destruct (load_set _ _ d n) as [[[s|e] d'] n']; [by destruct Hw|]. by right; right. }
  intros s. apply hoare_ret. intros d (-> & -> & Hd). done.
Qed.

(** The signer's invariant: its directory loads; the key it signs with is in
    memory and on the disk; and the pointer names that key, or one this
    process has not loaded. *)
Definition signer_inv (g : ServerSigner) : Prop :=
  ∃ K a K', dir_holds K a (sg_dir g) ∧ loadable K a ∧
    ss_keys (sg_state g) = entry_of <$> K' ∧
    is_Some (K' !! ss_active_id (sg_state g)) ∧
    K !! ss_active_id (sg_state g) = K' !! ss_active_id (sg_state g) ∧
    (trim a = ss_active_id (sg_state g) ∨ K' !! trim a = None).

(** A drawn key: 32 bytes under an identifier that neither the memory nor the
    disk knows, without surrounding white space. *)
Definition fresh_key (k : KeyDraw) (g : ServerSigner) : Prop :=
  String.length (kd_secret k) = 32 ∧ trim (kd_id k) = kd_id k ∧ kd_id k ≠ "" ∧
  ss_keys (sg_state g) !! kd_id k = None ∧
  ∀ m, sd_keys (sg_dir g) = Some m → m !! key_file (kd_id k) = None.

Lemma loadable_insert K a id c : loadable K a → String.length c = 32 → loadable (<[id := c]> K) a.
Proof.
  intros (Hlen & Hne & Ha) Hc. split; [|split; [done|]].
  - intros id' c' [[<- <-]|[? ?]]%lookup_insert_Some; [done|by eapply Hlen].
  - destruct (decide (id = trim a)) as [->|?]; [by rewrite lookup_insert_eq|by rewrite lookup_insert_ne].
Qed.

Lemma loadable_pointer K id c :
  (∀ i c', K !! i = Some c' → String.length c' = 32) → String.length c = 32 → trim id = id → id ≠ "" →
  loadable (<[id := c]> K) id.
Proof.
  intros Hlen Hc Ht Hne. split; [|rewrite Ht, lookup_insert_eq; done].
  intros id' c' [[<- <-]|[? ?]]%lookup_insert_Some; [done|by eapply Hlen].
Qed.

(** What memory just loaded from the disk satisfies. *)
Lemma signer_inv_loaded K a d : dir_holds K a d → loadable K a → signer_inv (mkSigner d (state_of K a)).
Proof.
  intros Hd Hl. exists K, a, K. cbn. destruct Hl as (? & ? & Ha). split_and!; try done. by left.
Qed.

Lemma rotate_inv k n g :
  signer_inv g → fresh_key k g → signer_inv (rotate io_error torn dir k n g).2.
Proof.
  intros (K & a & K' & Hd & Hl & Hk & Ha & Hsame & Hp) (Hc & Ht & Hne & Hmem & _).
  pose proof (rotate_hoare K a k Hl Hc Ht Hne (sg_dir g) n Hd) as Hrun. unfold rotate.
  destruct (fs_bind _ _ (sg_dir g) n) as [[[[new s]|e] d] n'].
  { destruct Hrun as [[= -> ->] Hd']. apply signer_inv_loaded; [done|]. apply loadable_pointer; try done. apply Hl. }
  assert (K' !! kd_id k = None) as HK' by (rewrite Hk, lookup_fmap in Hmem; by destruct (K' !! kd_id k)).
  assert (ss_active_id (sg_state g) ≠ kd_id k) as Hna by (intros He; rewrite He, HK' in Ha; by destruct Ha).
  cbn. destruct Hrun as [Hd'|[Hd'|Hd']].
  - exists K, a, K'. done.
  - exists (<[kd_id k := kd_secret k]> K), a, K'. split_and!; try done; [by apply loadable_insert|].
    by rewrite lookup_insert_ne.
  - exists (<[kd_id k := kd_secret k]> K), (kd_id k), K'. split_and!; try done.
    + apply loadable_pointer; try done. apply Hl.
    + by rewrite lookup_insert_ne.
    + right. by rewrite Ht.
Qed.

Lemma remove_key_hoare K a id m :
  holds m K a →
  hoare (λ d, dir_holds K a d ∧ sd_keys d = Some m)
    (if decide (is_Some (m !! key_file id))
     then fs_context ([Txt "removing "] ++ path_of dir (key_file id)) (fs_remove io_error (key_file id)) else fs_ret ())
    (λ _, dir_holds (delete id K) a) (dir_holds K a).
Proof.
  intros Hh. case_decide as Hf.
  - apply hoare_context. intros d [|n] [Hd Hm]; [done|]. unfold dir_holds. cbn. rewrite Hm.
    destruct Hd as [He _]. split; [done|]. eexists. split; [reflexivity|]. by apply holds_remove.
  - apply hoare_ret. destruct Hh as [HK _]. rewrite delete_id; [by intros d []|]. rewrite <- HK. by apply eq_None_not_Some.
Qed.

Lemma retire_hoare K a id :
  loadable K a → id ≠ trim a →
  hoare (dir_holds K a)
    (let* d := fs_get in
     (if decide (is_Some (m ← sd_keys d; m !! key_file id))
      then fs_context ([Txt "removing "] ++ path_of dir (key_file id)) (fs_remove io_error (key_file id)) else fs_ret ()) ;*
     load_set io_error dir)
    (λ s d, dir_holds (delete id K) a d ∧ s = state_of (delete id K) a)
    (λ d, dir_holds K a d ∨ dir_holds (delete id K) a d).
Proof.
  intros (Hlen & Hne & Ha) Hid.
  assert (loadable (delete id K) a) as Hl1.
  { split; [|split; [done|by rewrite lookup_delete_ne]]. intros i c [_ ?]%lookup_delete_Some. by eapply Hlen. }
  intros d n Hd. unfold fs_bind at 1, fs_get. pose proof Hd as (He & m & Hm & Hh). rewrite Hm. cbn [mbind option_bind].
  refine (hoare_bind (λ d, dir_holds K a d ∧ sd_keys d = Some m) _ _ (λ _, dir_holds (delete id K) a) _ _ _ _ d n (conj Hd Hm)).
  - eapply hoare_consequence; [by apply remove_key_hoare|done|done|]. intros d'. by left.
  - intros []. eapply hoare_consequence; [by apply load_set_hoare|done|done|]. intros d'. by right.
Qed.

Lemma retire_inv id n g : signer_inv g → signer_inv (retire io_error dir id n g).2.
Proof.
  intros Hg. unfold retire. case_decide as Hact; [done|]. case_decide as Hin; [done|].
  destruct Hg as (K & a & K' & Hd & Hl & Hk & Ha & Hsame & Hp).
  assert (id ≠ trim a) as Hid.
  { intros ->. destruct Hp as [?|Hp]; [done|]. by rewrite Hk, lookup_fmap, Hp in Hin. }
  pose proof (retire_hoare K a id Hl Hid (sg_dir g) n Hd) as Hrun.
  assert (loadable (delete id K) a) as Hl1.
  { destruct Hl as (Hlen & Hne & Hta). split; [|split; [done|by rewrite lookup_delete_ne]].
    intros i c [_ ?]%lookup_delete_Some. by eapply Hlen. }
  destruct (fs_bind _ _ (sg_dir g) n) as [[[s|e] d] n'].
  { destruct Hrun as [Hd' ->]. by apply signer_inv_loaded. }
  cbn. destruct Hrun as [Hd'|Hd'].
  - exists K, a, K'. done.
  - exists (delete id K), a, K'. split_and!; try done. by rewrite lookup_delete_ne.
Qed.

(** ** Boot *)

Context `{Sha256, Base64} (state_dir : string).

(** A boot over a directory that loads, with steps enough. *)
Lemma boot_run K a d k n :
  dir_holds K a d → loadable K a → 2 + size (default ∅ (sd_keys d)) ≤ n →
  ∃ n', load_or_create io_error torn dir state_dir k d n = (Ok (state_of K a), d, n').
Proof.
  intros Hd Hl Hn. pose proof Hd as (He & m & Hm & _). unfold load_or_create, fs_bind, fs_get. rewrite He. cbn [fs_ret]. rewrite Hm.
  unfold fs_context. pose proof (load_set_run K a d n Hd Hl) as Hrun.
  destruct (load_set _ _ d n) as [[[s|e] d'] n']; destruct Hrun as [-> Hr]; [subst s; eauto|lia].
Qed.

(** One action on a signer: a rotation or a retirement, cut off after any
    number of disk steps, or a restart. *)
Inductive signer_step (g : ServerSigner) : ServerSigner → Prop :=
| step_rotate k n : fresh_key k g → signer_step g (rotate io_error torn dir k n g).2
| step_retire id n : signer_step g (retire io_error dir id n g).2
| step_restart k n s d n' :
    load_or_create io_error torn dir state_dir k (sg_dir g) n = (Ok s, d, n') → signer_step g (mkSigner d s).

Lemma signer_step_inv g g' : signer_inv g → signer_step g g' → signer_inv g'.
Proof.
  intros Hg [k n Hf|id n|k n s d n' Hb]; [by apply rotate_inv|by apply retire_inv|].
  destruct Hg as (K & a & K' & Hd & Hl & _). pose proof Hd as (He & m & Hm & _).
  unfold load_or_create, fs_bind, fs_get in Hb. rewrite He in Hb. cbn [fs_ret] in Hb. rewrite Hm in Hb. unfold fs_context in Hb.
  pose proof (load_set_run K a _ n Hd Hl) as Hrun. destruct (load_set _ _ (sg_dir g) n) as [[[s'|e] d'] n1]; [|done].
  injection Hb as <- <- <-. destruct Hrun as [-> ->]. by apply signer_inv_loaded.
Qed.

Lemma signer_run_inv g g' : signer_inv g → rtc signer_step g g' → signer_inv g'.
Proof. intros Hg Hrun. induction Hrun as [|g1 g2 g3 Hs _ IH]; [done|]. apply IH. by eapply signer_step_inv. Qed.

Lemma pubkeys_published (s : SignerState) id entry :
  ss_keys s !! id = Some entry → (id, b64_encode (ke_verifying_key entry)) ∈ pubkeys s.
Proof.
  intros He. unfold pubkeys. rewrite (order_by_perm _ _). rewrite elem_of_map. exists (id, entry).
  by rewrite elem_of_map_to_list.
Qed.

(** C14: The signer survives any fault: after any run of rotations,
    retirements and restarts, each cut off after any number of its disk steps,
    a restart loads the directory and finds in it the key the server was
    signing with; and signing never fails: the signature verifies under a key
    that the server publishes under the id it stamps on the envelope. *)
Theorem signer_survives_faults `{!Ed25519Laws} g g' :
  signer_inv g → rtc signer_step g g' →
  (∀ k n, 2 + size (default ∅ (sd_keys (sg_dir g'))) ≤ n →
     ∃ s n', load_or_create io_error torn dir state_dir k (sg_dir g') n = (Ok s, sg_dir g', n') ∧
       is_Some (ss_keys s !! key_id s) ∧
       ss_keys s !! key_id (sg_state g') = ss_keys (sg_state g') !! key_id (sg_state g')) ∧
  (∀ agent_id assignment_id operation_id created_at expires_at payload_json, ∃ sig pk,
     sign (sg_state g') agent_id assignment_id operation_id created_at expires_at payload_json = Ok (b64_encode sig) ∧
     (key_id (sg_state g'), b64_encode pk) ∈ pubkeys (sg_state g') ∧
     ed_verify pk (canonical_assignment_message agent_id assignment_id operation_id created_at expires_at payload_json) sig = true).
Proof.
  intros Hg Hrun. destruct (signer_run_inv g g' Hg Hrun) as (K & a & K' & Hd & Hl & Hk & Ha & Hsame & _). split.
  - intros k n Hn. destruct (boot_run K a (sg_dir g') k n Hd Hl Hn) as [n' Hb]. exists (state_of K a), n'.
    split; [done|]. unfold key_id. cbn. rewrite Hk, !lookup_fmap, Hsame. destruct Hl as (_ & _ & [c ->]). split; [by eexists|done].
  - intros. destruct Ha as [secret Hs]. unfold sign, try_active_entry.
    assert (ss_keys (sg_state g') !! ss_active_id (sg_state g') = Some (entry_of secret)) as He
      by by rewrite Hk, lookup_fmap, Hs.
    rewrite He. cbn [ok_or mbind result_bind]. eexists _, (ed_public secret). split; [done|].
    split; [exact (pubkeys_published _ _ _ He)|]. apply ed_sign_verifies.
Qed.

(** A rotation that returns: the new key signs, and every key of the
    directory is still accepted. *)
Lemma rotate_outcome k n g g' new :
  signer_inv g → fresh_key k g → rotate io_error torn dir k n g = (Ok new, g') →
  new = kd_id k ∧ key_id (sg_state g') = new ∧
  ss_keys (sg_state g') !! new = Some (entry_of (kd_secret k)) ∧
  ∀ K a, dir_holds K a (sg_dir g) → ∀ id c, K !! id = Some c → id ≠ new → ss_keys (sg_state g') !! id = Some (entry_of c).
Proof.
  intros (K & a & K' & Hd & Hl & _) (Hc & Ht & Hne & _) Hr. unfold rotate in Hr.
  pose proof (rotate_hoare K a k Hl Hc Ht Hne (sg_dir g) n Hd) as Hrun.
  destruct (fs_bind _ _ (sg_dir g) n) as [[[[new' s]|e] d] n']; [|done]. injection Hr as -> <-. destruct Hrun as [[= -> ->] _].
  unfold key_id. cbn. rewrite Ht, lookup_fmap, lookup_insert_eq. split_and!; try done.
  intros K2 a2 (_ & m2 & Hm2 & HK2 & _) id c Hid Hn. destruct Hd as (_ & m & Hm & HK & _). rewrite Hm in Hm2. injection Hm2 as <-.
  rewrite lookup_fmap, lookup_insert_ne by done. by rewrite <- HK, HK2, Hid.
Qed.

(** The key that signs is never retired, and a retirement that returns
    removes exactly the key it names. *)
Lemma retire_outcome id n g g' :
  signer_inv g → retire io_error dir id n g = (Ok true, g') →
  id ≠ key_id (sg_state g) ∧ ss_keys (sg_state g') !! id = None ∧
  ∀ K a, dir_holds K a (sg_dir g) → key_id (sg_state g') = trim a ∧
    ∀ id' c, K !! id' = Some c → id' ≠ id → ss_keys (sg_state g') !! id' = Some (entry_of c).
Proof.
  intros (K & a & K' & Hd & Hl & Hk & Ha & Hsame & Hp). unfold retire. case_decide as Hact; [done|]. case_decide as Hin; [done|].
  assert (id ≠ trim a) as Hid.
  { intros ->. destruct Hp as [?|Hp]; [done|]. by rewrite Hk, lookup_fmap, Hp in Hin. }
  pose proof (retire_hoare K a id Hl Hid (sg_dir g) n Hd) as Hrun.
  destruct (fs_bind _ _ (sg_dir g) n) as [[[s|e] d] n']; [|done]. intros [= <-]. destruct Hrun as [_ ->].
  unfold key_id. cbn. split; [by intros ->|]. rewrite lookup_fmap, lookup_delete_eq. split; [done|].
  intros K2 a2 (_ & m2 & Hm2 & HK2 & Ha2). destruct Hd as (_ & m & Hm & HK & HA). rewrite Hm in Hm2. injection Hm2 as <-.
  rewrite HA in Ha2. injection Ha2 as <-. split; [done|]. intros id' c Hc Hne.
  rewrite lookup_fmap, lookup_delete_ne by done. by rewrite <- HK, HK2, Hc.
Qed.

End Disk.

(** ** The signed message *)

Fixpoint line_feeds (s : string) : nat :=
  match s with "" => 0 | String a s => (if Ascii.eqb a line_feed then 1 else 0) + line_feeds s end.

Lemma line_feeds_app s t : line_feeds (s +:+ t) = line_feeds s + line_feeds t.
Proof.
  induction s as [|a s IH]; [done|]. change (String a s +:+ t) with (String a (s +:+ t)). cbn. rewrite IH. lia.
Qed.

Lemma line_feeds_0 s : line_feeds s = 0 ↔ lacks line_feed s = true.
Proof.
  induction s as [|a s IH]; [done|]. cbn [line_feeds lacks].
  destruct (Ascii.eqb a line_feed); cbn [negb andb Nat.add]; [split; discriminate|exact IH].
Qed.

Lemma line_feeds_message fields : line_feeds (message_lines fields) = length fields + sum_list_with line_feeds fields.
Proof.
  induction fields as [|f fields IH]; [done|]. cbn [message_lines foldr].
  change (foldr (λ f rest, f +:+ lf +:+ rest) "" fields) with (message_lines fields).
  rewrite !line_feeds_app, IH. cbn. lia.
Qed.

Lemma sum_list_with_0 {A} (f : A → nat) xs : sum_list_with f xs = 0 ↔ Forall (λ x, f x = 0) xs.
Proof.
  induction xs as [|x xs IH]; cbn; [split; [constructor|done]|]. rewrite Forall_cons, <- IH. lia.
Qed.

(** One-line fields can be read back from the text, whatever the fields on the
    other side hold. *)
Lemma message_lines_inj fields fields' :
  length fields = length fields' → Forall (λ f, lacks line_feed f = true) fields →
  message_lines fields = message_lines fields' → fields = fields'.
Proof.
  intros Hlen Hf He.
  assert (Forall (λ f, lacks line_feed f = true) fields') as Hf'.
  { pose proof (f_equal line_feeds He) as Hc. rewrite !line_feeds_message in Hc.
    assert (sum_list_with line_feeds fields = 0) as H0 by (apply sum_list_with_0; eapply Forall_impl; [exact Hf|]; intros; by apply line_feeds_0).
    assert (sum_list_with line_feeds fields' = 0) as H1 by lia. apply sum_list_with_0 in H1.
    eapply Forall_impl; [exact H1|]. intros. by apply line_feeds_0. }
  revert fields' Hlen Hf' He. induction Hf as [|f fields Hl _ IH]; intros [|f' fields'] Hlen Hf' He; try discriminate Hlen; [done|].
  apply Forall_cons in Hf' as [Hl' Hf']. cbn in He. fold (message_lines fields) (message_lines fields') in He.
  assert (split_once lf (f +:+ String line_feed (message_lines fields)) = split_once lf (f' +:+ String line_feed (message_lines fields')))
    as Hs by exact (f_equal (split_once lf) He).
  unfold lf in Hs. rewrite !split_once_char in Hs by done. injection Hs as -> Hrest. f_equal.
  apply IH; [by injection Hlen|exact Hf'|exact Hrest].
Qed.

(** The message determines every field it covers: what is signed for one
    agent, assignment, operation, pair of times and payload digest is signed
    for no other. *)
Lemma canonical_message_inj `{Sha256} ag as_ op ca ex p ag' as' op' ca' ex' p' :
  Forall (λ f, lacks line_feed f = true) [ag; as_; op; ca; ex; sha256_hex p] →
  canonical_assignment_message ag as_ op ca ex p = canonical_assignment_message ag' as' op' ca' ex' p' →
  ag = ag' ∧ as_ = as' ∧ op = op' ∧ ca = ca' ∧ ex = ex' ∧ sha256_hex p = sha256_hex p'.
Proof.
  intros Hf He%message_lines_inj; [|done|by constructor]. by injection He.
Qed.

(** ** At concrete inputs *)

(** The first [n] bytes of [s], padded. *)
Fixpoint fit (n : nat) (s : string) : string :=
  match n, s with
  | O, _ => ""
  | S n, "" => String (Ascii.ascii_of_N 48) (fit n "")
  | S n, String a s => String a (fit n s)
  end.

Lemma fit_length n s : String.length (fit n s) = n.
Proof. revert s. induction n as [|n IH]; intros [|a s]; cbn; [done..| |]; by rewrite IH. Qed.

Definition demo_ed25519 : Ed25519 := {|
  ed_public s := fit 32 s;
  ed_sign s m := demo_sha (fit 32 s +:+ m);
  ed_verify pk m sig := bool_decide (sig = demo_sha (pk +:+ m));
  ed_point pk := true
|}.

Lemma demo_ed25519_laws : @Ed25519Laws demo_ed25519.
Proof.
  split; unfold demo_ed25519; cbn [ed_public ed_sign ed_verify ed_point].
  - intros s. apply fit_length.
  - intros s m. unfold demo_sha. rewrite (proj1 (hex_digits_shape 64 _ "")). done.
  - done.
  - intros s m. by apply bool_decide_eq_true.
Qed.

(** Base64 stood in for by the identity. *)
Definition demo_base64 : Base64 := {| b64_encode s := s; b64_decode s := Ok s |}.

Lemma demo_base64_laws : @Base64Laws demo_base64.
Proof. by split. Qed.

#[local] Existing Instances demo_ed25519 demo_sha demo_base64.

Definition demo_draw (id : string) : KeyDraw := mkKeyDraw (fit 32 ("secret of " +:+ id)) id.

Definition demo_boot (id : string) (d : StateDir) (n : nat) : result Anyhow SignerState * StateDir * nat :=
  @load_or_create (λ _, "I/O error") "" "/state/signing-keys" demo_ed25519 demo_sha demo_base64 "/state" (demo_draw id) d n.

(** A first boot cut short once the directory is there and before the pointer
    is: no later boot succeeds. *)
Lemma interrupted_first_boot_bricks :
  map (λ n, is_ok (demo_boot "01B" (demo_boot "01A" empty_dir n).1.2 100).1.1) (seq 1 7) =
  [true; false; false; false; false; false; true].
Proof. vm_compute. reflexivity. Qed.

(** A legacy key of the wrong length: the first boot names the fault, and
    leaves a directory that makes every later boot fail on something else. *)
Lemma bad_legacy_key_bricks :
  let d := mkStateDir true (Some "short") (Some "01A") None in
  (demo_boot "01B" d 100).1.1 = Err [[Txt "legacy signing-key.bin has "; Dec 5; Txt " bytes, expected 32"]] ∧
  (demo_boot "01B" (mkStateDir true (Some (fit 32 "good")) (Some "01A") (sd_keys (demo_boot "01B" d 100).1.2)) 100).1.1 =
    Err [[Txt "loading key set from "; Ext "/state/signing-keys"];
         [Txt "reading "; Ext "/state/signing-keys"; Txt "/"; Txt "active"]; [Ext "I/O error"]].
Proof. split; vm_compute; reflexivity. Qed.

Definition demo_keys : gmap string string := {["01A" := kd_secret (demo_draw "01A")]}.
Definition demo_signer : ServerSigner :=
  mkSigner (mkStateDir true None None (Some {["01A.bin" := kd_secret (demo_draw "01A"); "active" := "01A"]}))
    (@state_of demo_ed25519 demo_keys "01A").

Lemma demo_signer_inv : @signer_inv demo_ed25519 demo_signer.
Proof.
  apply signer_inv_loaded.
  - split; [done|]. eexists. split; [reflexivity|]. split; [|reflexivity]. intros id. unfold demo_keys.
    destruct (decide (id = "01A")) as [->|Hne]; [reflexivity|]. rewrite lookup_singleton_ne by congruence.
    rewrite lookup_insert_ne, lookup_singleton_ne; [done|..].
    + intros He. symmetry in He. by apply key_file_not_active in He.
    + intros He. apply (key_file_inj "01A" id) in He. congruence.
  - split; [|split; [done|by vm_compute; eexists]]. intros id c Hc. unfold demo_keys in Hc. apply lookup_singleton_Some in Hc as [<- <-]. reflexivity.
Qed.

Definition demo_rotate (id : string) (n : nat) (g : ServerSigner) : result Anyhow string * ServerSigner :=
  @rotate (λ _, "I/O error") "" "/state/signing-keys" demo_ed25519 (demo_draw id) n g.

(** A rotation cut short after its pointer is renamed, then one that returns. *)
Definition demo_signer' : ServerSigner := (demo_rotate "01C" 100 (demo_rotate "01B" 5 demo_signer).2).2.

Lemma demo_fresh id g :
  bool_decide (ss_keys (sg_state g) !! id = None) && bool_decide (trim id = id) && negb (bool_decide (id = "")) &&
  (if sd_keys (sg_dir g) is Some m then bool_decide (m !! key_file id = None) else true) = true →
  fresh_key (demo_draw id) g.
Proof.
  rewrite !andb_true_iff, negb_true_iff, bool_decide_eq_false, !bool_decide_eq_true. intros [[[Hm Ht] Hne] Hd].
  split; [apply fit_length|]. cbn. split_and!; try done. intros m Hk. rewrite Hk in Hd. by apply bool_decide_eq_true in Hd.
Qed.

Lemma signer_survives_faults_witness :
  signer_inv demo_signer ∧ key_id (sg_state demo_signer') = "01C" ∧
  (∀ k n, 2 + size (default ∅ (sd_keys (sg_dir demo_signer'))) ≤ n →
     ∃ s n', load_or_create (λ _, "I/O error") "" "/state/signing-keys" "/state" k (sg_dir demo_signer') n
             = (Ok s, sg_dir demo_signer', n') ∧
       is_Some (ss_keys s !! key_id s) ∧
       ss_keys s !! key_id (sg_state demo_signer') = ss_keys (sg_state demo_signer') !! key_id (sg_state demo_signer')).
Proof.
  split; [exact demo_signer_inv|]. split; [vm_compute; reflexivity|].
  refine (proj1 (@signer_survives_faults (λ _, "I/O error") "" "/state/signing-keys" demo_ed25519 demo_sha demo_base64 "/state"
    demo_ed25519_laws demo_signer demo_signer' demo_signer_inv _)).
  eapply rtc_l; [apply (step_rotate _ _ _ _ demo_signer (demo_draw "01B") 5), demo_fresh; vm_compute; reflexivity|].
  eapply rtc_l; [apply (step_rotate _ _ _ _ _ (demo_draw "01C") 100), demo_fresh; vm_compute; reflexivity|apply rtc_refl].
Defined.
