(* ===== verification/Config.v ===== *)
(** * Configuration (crates/iac-controlplane/src/config.rs, tls.rs, main.rs)

    The server's settings, what fills in the missing ones, and the checks at
    load time. The file system, the environment and the TOML parser are
    parameters. *)

From S2P Require Import Prelude Text Net ApiError Policy Clock Maintenance RateLimit Retention Secrets Modules Webhook.

#[local] Open Scope string_scope.
#[local] Open Scope list_scope.
#[local] Open Scope nat_scope.

(** ** Records *)

Inductive SshHostKeyPolicy := Strict | AcceptNew.
Inductive RetryAfterFormat := DeltaSeconds | HttpDate.

Record SshTargetConfig := mkSshTarget {
  st_name : string;
  st_environment : string;
  st_host : string;
  st_user : string;
  st_port : Z;
  st_identity_file : option string;
  st_remote_iac_path : string;
  st_capabilities : list string;
  st_connect_timeout_secs : Z;
  st_host_key_policy : SshHostKeyPolicy;
  st_known_hosts_file : option string
}.

Record TlsConfig := mkTls {
  tls_mode : string;
  tls_cert_file : option string;
  tls_key_file : option string;
  tls_client_ca_file : option string
}.

(** [TlsConfig::default()], the derived one. *)
Definition tls_default : TlsConfig := mkTls "" None None None.
Definition tls_is_enabled (t : TlsConfig) : bool := bool_decide (tls_mode t = "server" ∨ tls_mode t = "mutual").
Definition requires_client_cert (t : TlsConfig) : bool := bool_decide (tls_mode t = "mutual").

Record VaultConfig := mkVaultConfig { vc_addr : string; vc_token : option string; vc_token_env : option string }.
Record SopsConfig := mkSopsConfig { sc_base_dir : string; sc_binary : option string }.
Record SecretsConfig := mkSecrets { sec_vault : option VaultConfig; sec_sops : option SopsConfig }.

(** The fields the file and the running server share. *)
Record Settings := mkSettings {
  set_policies : list Policy;
  set_retention : RetentionConfig;
  set_rate_limit : RateLimitConfig;
  set_maintenance_windows : list MaintenanceWindow;
  set_recurring_maintenance_windows : list RecurringMaintenanceWindow;
  set_webhooks_config : WebhooksConfig;
  set_tls : TlsConfig;
  set_secrets : SecretsConfig;
  set_retry_after_format : RetryAfterFormat;
  set_modules : list Module_;
  set_agent_token_ttl_secs : option Z;
  set_ssh_targets : list SshTargetConfig;
  set_wal_checkpoint_interval_secs : Z;
  set_shutdown_timeout_secs : Z;
  set_trusted_proxies : list IpAddr;
  set_agent_enrollment_token : option string
}.

Record RawConfig := mkRaw {
  raw_bind : option string;
  raw_database_url : option string;
  raw_state_dir : option string;
  raw_max_body_bytes : option Z;
  raw_admin_token : option string;
  raw_settings : Settings
}.

Record Config := mkConfig {
  cfg_bind : IpAddr * Z;
  cfg_database_url : string;
  cfg_state_dir : string;
  cfg_max_body_bytes : Z;
  cfg_admin_token : option string;
  cfg_settings : Settings
}.

Record Overrides := mkOverrides {
  ov_bind : option string;
  ov_database_url : option string;
  ov_state_dir : option string;
  ov_admin_token : option string
}.
Definition overrides_default : Overrides := mkOverrides None None None None.

(** [RawConfig::default()], the derived one: the numbers are zero, not the
    functions serde calls for a missing field. *)
Definition settings_default : Settings :=
  mkSettings [] default_retention rate_config_default [] [] webhooks_default tls_default (mkSecrets None None)
    DeltaSeconds [] None [] 0 0 [] None.
Definition raw_config_default : RawConfig := mkRaw None None None None None settings_default.

Definition default_wal_checkpoint_interval : Z := 60.
Definition default_shutdown_timeout : Z := 10.

(** ** Checks *)

(** What loading draws from outside. *)
Class Host := {
  path_exists : string → bool;
  read_to_string : string → result string string;
  getenv : string → option string;
  toml_parse : string → result string RawConfig;
  parse_socket_addr : string → result string (IpAddr * Z)
}.

Definition bail {A} (m : message) : result Anyhow A := Err [m].

(** [p.join(name)] for a relative name. *)
Definition join (p name : string) : string :=
  if bool_decide (p = "") then name
  else if is_ok (ok_or (strip_suffix "/" p) ()) then p +:+ name else p +:+ "/" +:+ name.

Definition nonempty (s : string) : option string := if bool_decide (s = "") then None else Some s.

Section Load.
Context `{Host, Unicode, YamlCodec}.

Definition resolve_binary (s : SopsConfig) : string :=
  match sc_binary s with
  | Some b => b
  | None => match getenv "IAC_SOPS_BIN" ≫= nonempty with Some b => b | None => "sops" end
  end.

Definition resolve_token (v : VaultConfig) : option string :=
  match vc_token v with
  | Some t => Some t
  | None => match vc_token_env v with Some var => getenv var ≫= nonempty | None => None end
  end.

Definition ssh_name_char (c : N) : bool :=
  is_ascii_alphanumeric c || char_is c 45 || char_is c 95 || char_is c 46.

(** Control characters, a space, a quote: unsafe in [ssh user@host]. *)
Definition ssh_unsafe (value : string) : bool :=
  existsb (λ c, is_control c || char_is c 32 || char_is c 39 || char_is c 34) (chars value).

Definition missing_file (p : option string) : option string :=
  p ← p; if path_exists p then None else Some p.

Definition validate_ssh_target (t : SshTargetConfig) : result Anyhow () :=
  let at_ field rest := [Txt "ssh_targets["; Txt (st_name t); Txt "]."; Txt field] ++ rest in
  if bool_decide (st_name t = "") then bail [Txt "ssh_targets[].name must not be empty"]
  else if negb (forallb ssh_name_char (chars (st_name t))) then
    bail [Txt "ssh_targets[].name "; Dbg (st_name t); Txt " must be alphanumeric with -_."]
  else if bool_decide (st_environment t = "") then bail (at_ "environment" [Txt " must not be empty"])
  else if bool_decide (st_host t = "") then bail (at_ "host" [Txt " must not be empty"])
  else if ssh_unsafe (st_host t) then bail (at_ "host" [Txt " contains unsafe characters: "; Dbg (st_host t)])
  else if ssh_unsafe (st_user t) then bail (at_ "user" [Txt " contains unsafe characters: "; Dbg (st_user t)])
  else if (st_port t =? 0)%Z then bail (at_ "port" [Txt " must be 1..=65535"])
  else
  match missing_file (st_identity_file t) with
  | Some p => bail (at_ "identity_file" [Txt " "; Ext p; Txt " does not exist"])
  | None =>
  if ((st_connect_timeout_secs t =? 0) || (300 <? st_connect_timeout_secs t))%Z then
    bail (at_ "connect_timeout_secs" [Txt " "; Dec (st_connect_timeout_secs t); Txt " out of range 1..=300"])
  else
  match st_host_key_policy t, st_known_hosts_file t with
  | Strict, None =>
      bail [Txt "ssh_targets["; Txt (st_name t);
            Txt "]: host_key_policy=strict requires known_hosts_file to be set (otherwise ssh uses ~/.ssh/known_hosts of the server process, which may not contain a pinned entry for ";
            Dbg (st_host t); Txt ")"]
  | _, _ =>
      match missing_file (st_known_hosts_file t) with
      | Some p => bail (at_ "known_hosts_file" [Txt " "; Ext p; Txt " does not exist"])
      | None => Ok ()
      end
  end
  end.

Definition TTL_UPPER_BOUND_SECS : Z := 10 * 365 * 24 * 60 * 60.

Definition validate_ttl (ttl : option Z) : result Anyhow () :=
  match ttl with
  | None => Ok ()
  | Some ttl =>
      if (ttl <? 60)%Z then
        bail [Txt "agent_token_ttl_secs "; Dec ttl; Txt " too short (minimum 60); below this, rotation can't keep up with normal agent poll intervals"]
      else if (TTL_UPPER_BOUND_SECS <? ttl)%Z then
        bail [Txt "agent_token_ttl_secs "; Dec ttl; Txt " exceeds 10-year upper bound ("; Dec TTL_UPPER_BOUND_SECS;
              Txt "); larger values overflow the expiry-timestamp arithmetic and silently produce immediately-expired tokens"]
      else Ok ()
  end.

(** The error's [Display] is that of its outermost context. *)
Definition anyhow_text (e : Anyhow) : message := match e with m :: _ => m | [] => [] end.

(** The loop over the modules and the one over the targets: each entry is
    checked, then its name must be new. *)
Definition load_module (seen : list string) (m : Module_) : result Anyhow (list string) :=
  _ ← map_err (λ e, [[Txt "module "; Dbg (mod_name m); Txt ": "] ++ e]) (validate_module m);
  if bool_decide (mod_name m ∈ seen) then bail [Txt "module name "; Dbg (mod_name m); Txt " declared twice"]
  else Ok (mod_name m :: seen).

Definition load_target (seen : list string) (t : SshTargetConfig) : result Anyhow (list string) :=
  _ ← map_err (λ e, [[Txt "ssh_targets["; Txt (st_name t); Txt "]: "] ++ anyhow_text e]) (validate_ssh_target t);
  if bool_decide (st_name t ∈ seen) then bail [Txt "ssh_targets name "; Dbg (st_name t); Txt " declared twice"]
  else Ok (st_name t :: seen).

Definition default_state_dir : string :=
  if bool_decide (getenv "USER" = Some "root") then "/var/lib/iac-controlplane"
  else match getenv "HOME" with
       | Some home => join (join home ".iac-controlplane") "state"
       | None => "/tmp/iac-controlplane"
       end.

(** [RawConfig::default()] without a path, and when the file is not there. *)
Definition read_raw (path : option string) : result Anyhow RawConfig :=
  match path with
  | Some p =>
      if path_exists p then
        text ← map_err (λ e, [[Txt "reading config "; Ext p]; [Ext e]]) (read_to_string p);
        map_err (λ e, [[Txt "parsing config "; Ext p]; [Ext e]]) (toml_parse text)
      else Ok raw_config_default
  | None => Ok raw_config_default
  end.

Definition or_else {A} (a b : option A) : option A := match a with Some _ => a | None => b end.

Definition load (path : option string) (ov : Overrides) : result Anyhow Config :=
  raw ← read_raw path;
  let s := raw_settings raw in
  let bind_str := default "127.0.0.1:8443" (or_else (ov_bind ov) (raw_bind raw)) in
  bind ← map_err (λ e, [[Txt "invalid bind address "; Txt bind_str]; [Ext e]]) (parse_socket_addr bind_str);
  let state_dir := default default_state_dir (or_else (ov_state_dir ov) (raw_state_dir raw)) in
  let database_url := default ("sqlite://" +:+ join state_dir "controlplane.db" +:+ "?mode=rwc")
                        (or_else (ov_database_url ov) (raw_database_url raw)) in
  let max_body_bytes := default (8 * 1024 * 1024)%Z (raw_max_body_bytes raw) in
  let admin_token := or_else (or_else (ov_admin_token ov) (raw_admin_token raw)) (getenv "IAC_ADMIN_TOKEN") ≫= nonempty in
  _ ← map_err (λ e, [[Txt "[webhooks] "] ++ e]) (validate_webhooks (set_webhooks_config s));
  _ ← try_fold load_module [] (set_modules s);
  _ ← validate_ttl (set_agent_token_ttl_secs s);
  _ ← try_fold load_target [] (set_ssh_targets s);
  Ok (mkConfig bind database_url state_dir max_body_bytes admin_token s).

(** ** The secret registry (main.rs) *)

Context `{Outside} (display : ApiErr → message).

Definition build_secret_registry (cfg : SecretsConfig) : result Anyhow (option (gmap string Resolver)) :=
  let registry := register REnv ∅ in
  registry ←
    match sec_vault cfg with
    | None => Ok registry
    | Some v =>
        if bool_decide (vc_addr v = "") then bail [Txt "[secrets.vault].addr must be set when vault block is present"]
        else
        token ← ok_or (resolve_token v)
          [[Txt "[secrets.vault]: must set `token` or `token_env` (and the env var must be set)"]];
        resolver ← map_err (λ e, [[Txt "building vault resolver: "] ++ display e]) (vault_new (vc_addr v) token false);
        Ok (register (RVault resolver) registry)
    end;
  registry ←
    match sec_sops cfg with
    | None => Ok registry
    | Some s =>
        if bool_decide (sc_base_dir s = "") then bail [Txt "[secrets.sops].base_dir must be set when sops block is present"]
        else
        resolver ← map_err (λ e, [[Txt "building sops resolver: "] ++ display e]) (sops_new (sc_base_dir s) (resolve_binary s));
        Ok (register (RSops resolver) registry)
    end;
  Ok (Some registry).

End Load.
