(* ===== verification/Server.v ===== *)
(** * The server's shared state (crates/iac-controlplane/src/server.rs, api/mod.rs)

    What every handler reaches: the database, the live configuration, the
    rate limiter, the maintenance counters, the secret registry and the signer; the
    reload that swaps the configuration; the client address a request is
    charged to; the [Retry-After] middleware. *)

From S2P Require Import Prelude Text Net Json ApiError Db Clock Handler Users Maintenance RateLimit Secrets Modules Signing Config.

#[local] Open Scope string_scope.
#[local] Open Scope list_scope.
#[local] Open Scope nat_scope.

(** ** State *)

Record ReloadableState := mkReloadable { rs_config : Config; rs_config_issues : list ConfigIssue }.

Record AppState := mkApp {
  app_db : Db;
  app_live : ReloadableState;
  app_config_path : option string;
  app_rate_limiter : RateLimiter;
  app_maintenance_metrics : MaintenanceMetrics;
  app_secret_registry : option (gmap string Resolver);
  app_signer : ServerSigner
}.

Definition app_config (s : AppState) : Config := rs_config (app_live s).
Definition app_settings (s : AppState) : Settings := cfg_settings (app_config s).
Definition app_config_issues (s : AppState) : list ConfigIssue := rs_config_issues (app_live s).

Definition with_db (d : Db) (s : AppState) : AppState :=
  mkApp d (app_live s) (app_config_path s) (app_rate_limiter s) (app_maintenance_metrics s) (app_secret_registry s) (app_signer s).
Definition with_live (l : ReloadableState) (s : AppState) : AppState :=
  mkApp (app_db s) l (app_config_path s) (app_rate_limiter s) (app_maintenance_metrics s) (app_secret_registry s) (app_signer s).
Definition with_limiter (l : RateLimiter) (s : AppState) : AppState :=
  mkApp (app_db s) (app_live s) (app_config_path s) l (app_maintenance_metrics s) (app_secret_registry s) (app_signer s).
Definition with_maintenance (m : MaintenanceMetrics) (s : AppState) : AppState :=
  mkApp (app_db s) (app_live s) (app_config_path s) (app_rate_limiter s) m (app_secret_registry s) (app_signer s).
Definition with_signer (g : ServerSigner) (s : AppState) : AppState :=
  mkApp (app_db s) (app_live s) (app_config_path s) (app_rate_limiter s) (app_maintenance_metrics s) (app_secret_registry s) g.

(** ** Actions: handlers over the whole state *)

Definition action (A : Type) : Type := AppState → panics (ApiResult A) * AppState.

Definition a_ret {A} (a : A) : action A := λ s, (Some (Ok a), s).
Definition a_throw {A} (e : ApiErr) : action A := λ s, (Some (Err e), s).
Definition a_lift {A} (r : ApiResult A) : action A := λ s, (Some r, s).
Definition a_panics {A} (r : panics (ApiResult A)) : action A := λ s, (r, s).
Definition a_state : action AppState := λ s, (Some (Ok s), s).
Definition a_bind {A B} (m : action A) (f : A → action B) : action B := λ s,
  match m s with
  | (Some (Ok a), s') => f a s'
  | (Some (Err e), s') => (Some (Err e), s')
  | (None, s') => (None, s')
  end.

(** A handler on the database; a call into the limiter; into the counters. *)
Definition on_db {A} (h : handler A) : action A := λ s, let '(r, d) := h (app_db s) in (r, with_db d s).
Definition on_limiter {A} (f : RateLimiter → ApiResult A * RateLimiter) : action A := λ s,
  let '(r, l) := f (app_rate_limiter s) in (Some r, with_limiter l s).
Definition on_maintenance {A} (f : MaintenanceMetrics → ApiResult A * MaintenanceMetrics) : action A := λ s,
  let '(r, m) := f (app_maintenance_metrics s) in (Some r, with_maintenance m s).

Declare Scope action_scope.
Delimit Scope action_scope with action.
Notation "'let+' x ':=' m 'in' k" := (a_bind m (λ x, k))
  (at level 200, x name, m at level 100, k at level 200, right associativity) : action_scope.
Notation "'let+' ' p ':=' m 'in' k" := (a_bind m (λ x, match x with p => k end))
  (at level 200, p pattern, m at level 100, k at level 200, right associativity) : action_scope.
Notation "m ';+' k" := (a_bind m (λ _ : (), k)) (at level 100, k at level 200, right associativity) : action_scope.

(** The state an action leaves. *)
Definition a_end {A} (m : action A) (s : AppState) : AppState := (m s).2.

(** ** Reload *)

Section Reload.
Context `{Host, Unicode, YamlCodec, Jiff, TimeZones} (display : ApiErr → message).

Definition reloadable_new (config : Config) : ReloadableState :=
  mkReloadable config (collect_config_issues display (set_maintenance_windows (cfg_settings config))
                         (set_recurring_maintenance_windows (cfg_settings config))).

Definition reload_config (s : AppState) : result Anyhow (string * nat) * AppState :=
  match app_config_path s with
  | None => (bail [Txt "reload_config: no config_path set; running from programmatic config"], s)
  | Some path =>
      match load (Some path) overrides_default with
      | Err e => (Err e, s)
      | Ok new_config =>
          let s := with_limiter (apply_config (set_rate_limit (cfg_settings new_config)) (app_rate_limiter s)) s in
          let new_state := reloadable_new new_config in
          (Ok (path, length (rs_config_issues new_state)), with_live new_state s)
      end
  end.

End Reload.

(** ** The client's address *)

Definition open_bracket : Ascii.ascii := Ascii.ascii_of_N 91.
Definition close_bracket : Ascii.ascii := Ascii.ascii_of_N 93.

(** [s.trim_start_matches('[')]. *)
Fixpoint trim_open (s : string) : string :=
  match s with String a rest => if Ascii.eqb a open_bracket then trim_open rest else s | "" => "" end.

Fixpoint count_char (c : Ascii.ascii) (s : string) : nat :=
  match s with "" => 0 | String a s => (if Ascii.eqb a c then 1 else 0) + count_char c s end.

Definition parse_xff_entry (entry : string) : option IpAddr :=
  let first c s := default s (head (split_on c s)) in
  let bare :=
    if starts_with "[" entry then first close_bracket (trim_open entry)
    else match parse_ip entry with
         | Some _ => entry
         | None => if count_char colon entry =? 1 then first colon entry else entry
         end in
  parse_ip bare.

(** The walk over the entries, rightmost first. *)
Fixpoint nearest_client (trusted : list IpAddr) (entries : list string) : option IpAddr :=
  match entries with
  | [] => None
  | entry :: entries =>
      match parse_xff_entry (trim entry) with
      | None => nearest_client trusted entries
      | Some ip => if bool_decide (ip ∈ trusted) then nearest_client trusted entries else Some ip
      end
  end.

Definition xff_comma : Ascii.ascii := Ascii.ascii_of_N 44.

(** [xff]: the values of the header's lines; [headers.get] returns the first. *)
Definition effective_client_ip (xff : list string) (socket_ip : IpAddr) (trusted_proxies : list IpAddr) : IpAddr :=
  if bool_decide (trusted_proxies = []) || negb (bool_decide (socket_ip ∈ trusted_proxies)) then socket_ip
  else
  match head xff ≫= header_to_str with
  | None => socket_ip
  | Some s => default socket_ip (nearest_client trusted_proxies (reverse (split_on xff_comma s)))
  end.

(** ** Retry-After *)

(** [strftime] of the IMF-fixdate format in UTC. *)
Class ImfDates := format_imf_fixdate : Z → string.

(** The header after the middleware; [now] is read when it runs.
    [Span::seconds] panics beyond jiff's bound. *)
Definition retry_after_format_middleware `{ImfDates, Jiff} (format : RetryAfterFormat) (now : Z) (retry_after : option string)
    : panics (option string) :=
  match format with
  | DeltaSeconds => Some retry_after
  | HttpDate =>
      match (h ← retry_after; text ← header_to_str h; Webhook.parse_i64 text) with
      | None => Some retry_after
      | Some secs =>
          if (secs <? 0)%Z then Some retry_after
          else match ts_span secs with
               | Err _ => None
               | Ok span => match ts_add now span with
                            | Ok deadline => Some (Some (format_imf_fixdate deadline))
                            | Err _ => Some retry_after
                            end
               end
      end
  end.

(** ** Runs of actions *)

Lemma a_bind_Ok {A B} (m : action A) (f : A → action B) s b s' :
  a_bind m f s = (Some (Ok b), s') → ∃ a s1, m s = (Some (Ok a), s1) ∧ f a s1 = (Some (Ok b), s').
Proof. unfold a_bind. destruct (m s) as [[[a|e]|] s1]; naive_solver. Qed.

(** Splits a successful action into its parts. *)
Ltac act_step H :=
  let a := fresh "a" in let s := fresh "s" in let Ha := fresh "Ha" in
  apply a_bind_Ok in H as (a & s & Ha & H).

Lemma with_db_same s : with_db (app_db s) s = s.
Proof. by destruct s. Qed.

Lemma on_read_Ok {A} (f : Db → ApiResult A) s a s' :
  on_db (h_read f) s = (Some (Ok a), s') → f (app_db s) = Ok a ∧ s' = s.
Proof. unfold on_db, h_read. intros [= ? <-]. by rewrite with_db_same. Qed.

Lemma on_call_Ok {A} (m : tx A) s a s' :
  on_db (h_call m) s = (Some (Ok a), s') → ∃ d, m (app_db s) = Some (Ok (a, d)) ∧ s' = with_db d s.
Proof. unfold on_db, h_call. destruct (m (app_db s)) as [[[a' d]|e]|]; intros [= -> <-]; eauto. Qed.

Lemma on_limiter_Ok {A} (f : RateLimiter → ApiResult A * RateLimiter) s a s' :
  on_limiter f s = (Some (Ok a), s') → ∃ l, f (app_rate_limiter s) = (Ok a, l) ∧ s' = with_limiter l s.
Proof. unfold on_limiter. destruct (f _) as [r l] eqn:E. intros [= -> <-]. eauto. Qed.

Lemma on_maintenance_Ok {A} (f : MaintenanceMetrics → ApiResult A * MaintenanceMetrics) s a s' :
  on_maintenance f s = (Some (Ok a), s') → ∃ m, f (app_maintenance_metrics s) = (Ok a, m) ∧ s' = with_maintenance m s.
Proof. unfold on_maintenance. destruct (f _) as [r m] eqn:E. intros [= -> <-]. eauto. Qed.

(** What no gate touches. *)
Definition same_setup (s s' : AppState) : Prop :=
  app_live s' = app_live s ∧ app_secret_registry s' = app_secret_registry s ∧ app_config_path s' = app_config_path s.

(** A property of states that an action keeps, whatever its outcome. *)
Definition keeps {A} (P : AppState → Prop) (m : action A) : Prop := ∀ s, P s → P (a_end m s).

Lemma keeps_bind {A B} P (m : action A) (f : A → action B) : keeps P m → (∀ a, keeps P (f a)) → keeps P (a_bind m f).
Proof.
  intros Hm Hf s Hs. specialize (Hm s Hs). unfold a_end, a_bind in *.
  destruct (m s) as [[[a|e]|] s1]; [|done..]. by apply Hf.
Qed.

Lemma keeps_same {A} P (m : action A) : (∀ s, a_end m s = s) → keeps P m.
Proof. intros Hm s. by rewrite Hm. Qed.

Lemma keeps_read {A} P (f : Db → ApiResult A) : keeps P (on_db (h_read f)).
Proof. apply keeps_same. intros s. unfold a_end, on_db, h_read. apply with_db_same. Qed.

Lemma keeps_call {A} (P : AppState → Prop) (m : tx A) :
  (∀ s, P s → P (with_db (committed m (app_db s)) s)) → keeps P (on_db (h_call m)).
Proof.
  intros Hm s Hs. specialize (Hm s Hs). unfold a_end, on_db, h_call, committed in *.
  destruct (m (app_db s)) as [[[a d]|e]|]; exact Hm.
Qed.
