(* ===== verification/OperationApi.v ===== *)
(** * The operation endpoints (crates/iac-controlplane/src/api/operations.rs)

    Submission with its gates in the order of the code, approval with the
    policies' approver lists, rejection, rollback and the read endpoints. The
    policy engine, the limiter, the maintenance windows, the expander, the
    secret registry and the store are the modelled ones. *)

From stdpp Require Import pretty.
From S2P Require Import Prelude Text Json ApiError Routing Depsort Db AuditLog Canary Operations Views Clock Handler Users RateLimit Policy Maintenance Secrets Modules Expansion Config Server.

#[local] Open Scope string_scope.
#[local] Open Scope list_scope.
#[local] Open Scope nat_scope.
#[local] Open Scope action_scope.

(** ** Requests and answers *)

Record SubmitOperationRequest := mkSubmit {
  sub_environment : string;
  sub_requested_by : string;
  sub_source_commit : option string;
  sub_summary : option string;
  sub_resources : list Json;
  sub_canary : option CanarySpec
}.

Record BlastRadius := mkBlast { br_resource_count : Z; br_agent_count : nat; br_kinds : list string }.

Record SubmitOperationResponse := mkSubmitted {
  sr_operation_id : string;
  sr_assignment_count : nat;
  sr_unrouted : list (string * message);
  sr_blast_radius : BlastRadius
}.

Record RollbackOperationRequest := mkRollback {
  rb_requested_by : string;
  rb_reason : option string;
  rb_canary : option CanarySpec
}.

Record RollbackOperationResponse := mkRolledBack {
  rr_new_operation_id : string;
  rr_assignment_count : nat;
  rr_resources_reverted : Z;
  rr_resources_orphaned : list string
}.

(** What a request draws from outside: the clock for the role check, the
    instants of the limiter, the clock of the windows, what the store draws,
    and the clock texts of the handler's own audit entries. *)
Record ApiDraw := mkApiDraw {
  ad_now : string;
  ad_instant : Z;
  ad_policy_instant : Z;
  ad_window_now : Z;
  ad_fresh : Fresh;
  ad_audit_now : string
}.

(** Some string of the value holds the opening of a secret reference. *)
Fixpoint json_contains_secret_ref (v : Json) : bool :=
  match v with
  | JString s => str_contains "${secret://" s
  | JArray arr => existsb json_contains_secret_ref arr
  | JObject m =>
      (fix members (m : list (string * Json)) : bool :=
         match m with [] => false | (_, x) :: m => json_contains_secret_ref x || members m end) m
  | _ => false
  end.

(** [u32::try_from(n).unwrap_or(u32::MAX)] of a length. *)
Definition len_u32 {A} (xs : list A) : Z := u32_try_from (Z.of_nat (length xs)).

(** The kinds of a [BTreeSet]: sorted, without duplicates. *)
Fixpoint btree_insert (k : string) (ks : list string) : list string :=
  match ks with
  | [] => [k]
  | k' :: ks' => match String.compare k k' with Lt => k :: ks | Eq => ks | Gt => k' :: btree_insert k ks' end
  end.

Definition MAINT_BYPASS_HEADER : string := "x-iac-maintenance-bypass".

(** The header is there and holds more than white space. *)
Definition bypass_requested (header : option string) : bool :=
  match (h ← header; header_to_str h) with Some v => negb (bool_decide (trim v = "")) | None => false end.

Section Endpoints.
Context `{JsonCodec, Sha256, SqlErrors, Argon2, Jiff, TimeZones, SerdeErrors, Unicode, YamlCodec, Outside, JsonPointer}.
(** The rendering of the registered schemes, and the limiter's earliest instant. *)
Context (registered : gmap string Resolver → string) (instant_min : Z).

Definition a_require_role (bearer now : string) (required : Role) : action Identity :=
  let+ s := a_state in on_db (h_read (require_role (cfg_admin_token (app_config s)) bearer now required)).

(** The pre-flight: every reference resolves; the values are thrown away. *)
Definition probe_secrets (registry : gmap string Resolver) (resources : list Json) : ApiResult () :=
  _ ← try_map (substitute_in_value (resolve_ref registered registry)) resources; Ok ().

Definition secret_gate (registry : option (gmap string Resolver)) (resources : list Json) : ApiResult () :=
  let any_ref := existsb json_contains_secret_ref resources in
  match registry with
  | None => if any_ref then Err (BadRequest [Txt "secret reference present but no resolver is configured on the server"])
            else Ok ()
  | Some registry => if any_ref then probe_secrets registry resources else Ok ()
  end.

(** [if let Err(e) = check(..) { blocked.fetch_add(1); return Err(e) }]. *)
Definition window_gate (check : MaintenanceMetrics → ApiResult () * MaintenanceMetrics)
    (blocked : MaintenanceMetrics → MaintenanceMetrics) : action () :=
  on_maintenance (λ m, let '(r, m) := check m in
                       match r with Err e => (Err e, blocked m) | Ok _ => (Ok (), m) end).

Definition maintenance_gate_action (identity : Identity) (header : option string) (req : SubmitOperationRequest) (w : ApiDraw)
    : action () :=
  on_maintenance (λ m, (Ok (), tick_checks m)) ;+
  if bypass_requested header then
    if negb (has_role identity Admin) then a_throw Forbidden
    else
    on_maintenance (λ m, (Ok (), tick_bypassed m)) ;+
    on_db (h_call (record_audit (ad_audit_now w)
      (with_payload (json_object [("environment", JString (sub_environment req));
                                  ("requested_by", JString (sub_requested_by req))])
        (with_severity "warning" (record_new (audit_actor identity) "operation.maintenance_bypass")))))
  else
    let+ s := a_state in
    window_gate (check (set_maintenance_windows (app_settings s)) (sub_environment req) (ad_window_now w)) tick_absolute ;+
    window_gate (check_recurring (set_recurring_maintenance_windows (app_settings s)) (sub_environment req) (ad_window_now w))
      tick_recurring.

(** Expansion, routing and the dependency order of what was submitted. *)
Definition plan_resources (resources : list Json) (modules : list Module_) (env : string)
    : panics (ApiResult (list ResourceForRouting)) :=
  match (expanded ← expand_resources resources modules; try_map (λ raw, extract_routing raw env) expanded) with
  | Ok routing => topo_sort_by_depends_on routing
  | Err e => Some (Err e)
  end.

(** The policies an operation matches, by the kinds of its resources. *)
Definition matched_policies (policies : list Policy) (env : string) (routing : list ResourceForRouting) : list Policy :=
  evaluate policies (mkFacts env (map kind routing)).

Definition policy_caps (matched : list Policy) : list (string * Z) :=
  omap (λ p, cap ← pol_rate_limit_per_minute p; Some (pol_name p, cap)) matched.

Definition submit (bearer : string) (header : option string) (req : SubmitOperationRequest) (w : ApiDraw)
    : action SubmitOperationResponse :=
  let+ identity := a_require_role bearer (ad_now w) Operator in
  let env := sub_environment req in
  if decide (env = "") then a_throw (BadRequest [Txt "environment must not be empty"])
  else if decide (sub_resources req = []) then a_throw (BadRequest [Txt "resources must not be empty"])
  else
  on_limiter (check_and_record instant_min env (ad_instant w)) ;+
  maintenance_gate_action identity header req w ;+
  let+ s := a_state in
  a_lift (secret_gate (app_secret_registry s) (sub_resources req)) ;+
  let cfg := app_settings s in
  let+ routing := a_panics (plan_resources (sub_resources req) (set_modules cfg) env) in
  let matched := matched_policies (set_policies cfg) env routing in
  (match policy_caps matched with
   | [] => a_ret ()
   | caps => on_limiter (check_and_record_policies instant_min caps (ad_policy_instant w))
   end) ;+
  let+ outcome := on_db (h_call (create_operation env (sub_requested_by req) (audit_actor identity)
    (sub_source_commit req) (sub_summary req) routing (map pol_name matched) (existsb pol_requires_approval matched)
    (sub_canary req) (ad_fresh w))) in
  a_ret (mkSubmitted (out_operation_id outcome) (out_assignment_count outcome) (out_unrouted outcome)
    (mkBlast (len_u32 routing) (out_assignment_count outcome)
       (foldl (λ ks r, btree_insert (kind r) ks) [] routing))).

(** A policy found by name, with a list the caller is not on. *)
Definition policy_refuses (policies : list Policy) (caller matched_name : string) : bool :=
  match List.find (λ p, bool_decide (pol_name p = matched_name)) policies with
  | None => false
  | Some policy =>
      if bool_decide (pol_approvers policy = []) then false
      else negb (existsb (λ u, bool_decide (u = caller)) (pol_approvers policy))
  end.

Definition approve_op (bearer op_id : string) (reason : option string) (w : ApiDraw) : action nat :=
  let+ identity := a_require_role bearer (ad_now w) Approver in
  (if negb (has_role identity Admin) then
     let+ view := on_db (h_read (get_operation op_id)) in
     let+ s := a_state in
     if existsb (policy_refuses (set_policies (app_settings s)) (display_name identity)) (ov_matched_policies view)
     then a_throw Forbidden else a_ret ()
   else a_ret ()) ;+
  on_db (h_call (approve_operation op_id (display_name identity) (audit_actor identity) reason (ad_fresh w))).

Definition reject_op (bearer op_id reason : string) (w : ApiDraw) : action () :=
  let+ identity := a_require_role bearer (ad_now w) Approver in
  on_db (h_call (reject_operation op_id (display_name identity) (audit_actor identity) reason
                   (now (ad_fresh w)) (audit_now (ad_fresh w)))).

Definition get_op (bearer op_id : string) (w : ApiDraw) : action OperationView :=
  let+ _ := a_require_role bearer (ad_now w) Viewer in on_db (h_read (get_operation op_id)).

Definition list_ops (bearer : string) (status : option string) (limit : option Z) (w : ApiDraw) : action (list OperationListItem) :=
  let+ _ := a_require_role bearer (ad_now w) Viewer in
  let limit := default 50%Z limit in
  on_db (h_read (λ d, Ok (list_operations status limit d))).

Definition get_op_desired_state (bearer op_id : string) (w : ApiDraw) : action (string * list OperationDesiredStateItem) :=
  let+ _ := a_require_role bearer (ad_now w) Viewer in
  let+ items := on_db (h_read (list_desired_state_for_operation op_id)) in
  a_ret (op_id, items).

Definition rollback_op (bearer target_op_id : string) (req : RollbackOperationRequest) (w : ApiDraw)
    : action RollbackOperationResponse :=
  let+ identity := a_require_role bearer (ad_now w) Operator in
  let+ '(resources, orphaned, environment) := on_db (h_read (prepare_rollback target_op_id)) in
  if decide (resources = []) then
    a_throw (Conflict [Txt "no resources have a prior desired state to revert to ("; Dec (Z.of_nat (length orphaned));
                       Txt " orphaned). Operator must delete these manually."])
  else
  let+ resources := a_panics (topo_sort_by_depends_on resources) in
  let+ s := a_state in
  let matched := matched_policies (set_policies (app_settings s)) environment resources in
  let summary := "rollback of " +:+ target_op_id +:+ match rb_reason req with Some r => ": " +:+ r | None => "" end in
  let+ outcome := on_db (h_call (create_operation environment (rb_requested_by req) (audit_actor identity)
    None (Some summary) resources (map pol_name matched) (existsb pol_requires_approval matched) (rb_canary req) (ad_fresh w))) in
  on_db (h_call (record_audit (ad_audit_now w)
    (with_payload (json_object [("target_operation_id", JString target_op_id); ("reason", json_opt (rb_reason req));
                                ("resources_reverted", json_nat (length resources));
                                ("resources_orphaned", json_strings orphaned)])
      (with_severity "warning"
        (with_operation (out_operation_id outcome) (record_new (audit_actor identity) "operation.rollback_initiated")))))) ;+
  a_ret (mkRolledBack (out_operation_id outcome) (out_assignment_count outcome) (len_u32 resources) orphaned).

End Endpoints.
