(* ===== verification/OperationApiProps.v ===== *)
(** * Properties of the operation endpoints

    What a submission that succeeds has passed and what it leaves; that one
    that fails leaves nothing; that secret values never reach the database;
    who may approve. *)

From stdpp Require Import pretty.
From S2P Require Import Prelude Text Json ApiError Routing Depsort DepOrder Db AuditLog Canary Operations Dispatch Rollout Views Clock Handler Users RateLimit Policy Maintenance Secrets SecretsProps Modules Expansion ExpansionProps Signing Config Server OperationApi UserProps AuditChain Retention Net.

#[local] Open Scope string_scope.
#[local] Open Scope list_scope.
#[local] Open Scope nat_scope.

Section Endpoints.
Context `{JsonCodec, Sha256, SqlErrors, Argon2, Jiff, TimeZones, SerdeErrors, Unicode, YamlCodec, Outside, JsonPointer}.
Context (registered : gmap string Resolver → string) (instant_min : Z).

Lemma a_require_role_Ok bearer now role s i s' :
  a_require_role bearer now role s = (Some (Ok i), s') →
  require_role (cfg_admin_token (app_config s)) bearer now role (app_db s) = Ok i ∧ s' = s.
Proof.
  unfold a_require_role. intros Hr. act_step Hr. injection Ha as <- <-. by apply on_read_Ok in Hr.
Qed.

Lemma window_gate_Ok check blocked s u s' :
  window_gate check blocked s = (Some (Ok u), s') →
  is_ok (check (app_maintenance_metrics s)).1 = true ∧ app_db s' = app_db s ∧ same_setup s s'.
Proof.
  unfold window_gate. intros Hw. apply on_maintenance_Ok in Hw as (m & Hm & ->).
  destruct (check _) as [[v|e] m1]; [|done]. by repeat split.
Qed.

Lemma has_role_required tok bearer now role d i : require_role tok bearer now role d = Ok i → has_role i role = true.
Proof. unfold require_role. intros Hr. destruct (resolve tok bearer now d) as [j|]; [|done]. cbn in Hr. destruct (has_role j role) eqn:E; [by simplify_eq|done]. Qed.

(** No configured window, absolute or weekly, fences [env] now. *)
Definition windows_open (c : Settings) (env : string) (now : Z) : Prop :=
  (∀ w, w ∈ set_maintenance_windows c → active env now w = false) ∧
  (∀ w, w ∈ set_recurring_maintenance_windows c → active_recurring env now w = false).

Lemma find_check ws env now m : is_ok (check ws env now m).1 = true → ∀ w, w ∈ ws → active env now w = false.
Proof.
  rewrite check_find. destruct (List.find (active env now) ws) as [w|] eqn:Ef; [done|]. intros _ w Hw.
  apply (find_none _ _ Ef). by apply list_elem_of_In.
Qed.

Lemma find_check_recurring ws env now m :
  is_ok (check_recurring ws env now m).1 = true → ∀ w, w ∈ ws → active_recurring env now w = false.
Proof.
  rewrite check_recurring_find. destruct (List.find (active_recurring env now) ws) as [w|] eqn:Ef; [done|]. intros _ w Hw.
  apply (find_none _ _ Ef). by apply list_elem_of_In.
Qed.

(** The database after the bypass entry, or the one before. *)
Definition after_gate (i : Identity) (header : option string) (req : SubmitOperationRequest) (w : ApiDraw) (d : Db) : Db :=
  if bypass_requested header then
    committed (record_audit (ad_audit_now w)
      (with_payload (json_object [("environment", JString (sub_environment req));
                                  ("requested_by", JString (sub_requested_by req))])
        (with_severity "warning" (record_new (audit_actor i) "operation.maintenance_bypass")))) d
  else d.

Lemma maintenance_gate_Ok i header req w s u s' :
  maintenance_gate_action i header req w s = (Some (Ok u), s') →
  app_db s' = after_gate i header req w (app_db s) ∧ same_setup s s' ∧
  (if bypass_requested header then has_role i Admin = true
   else windows_open (app_settings s) (sub_environment req) (ad_window_now w)).
Proof.
  unfold maintenance_gate_action, after_gate. intros Hg. act_step Hg. apply on_maintenance_Ok in Ha as (m & _ & ->).
  destruct (bypass_requested header).
  - destruct (has_role i Admin) eqn:Ei; cbn [negb] in Hg; [|done]. act_step Hg. apply on_maintenance_Ok in Ha as (m1 & _ & ->).
    apply on_call_Ok in Hg as (d & Hd & ->). split; [|by repeat split]. unfold committed.
    change (app_db (with_maintenance m1 (with_maintenance m s))) with (app_db s) in Hd. by rewrite Hd.
  - act_step Hg. injection Ha as <- <-. act_step Hg. apply window_gate_Ok in Ha as (Hc & Hd & Hs1 & Hs2 & Hs3).
    apply window_gate_Ok in Hg as (Hc' & Hd' & Hs1' & Hs2' & Hs3'). cbn in *.
    unfold same_setup. split; [congruence|]. split; [split_and!; congruence|].
    split; [by eapply find_check|by eapply find_check_recurring].
Qed.

(** What a submission that succeeds has passed. *)
Lemma submit_run bearer header req w s resp s' :
  submit registered instant_min bearer header req w s = (Some (Ok resp), s') →
  let env := sub_environment req in
  let cfg := app_settings s in
  ∃ i routing out,
    require_role (cfg_admin_token (app_config s)) bearer (ad_now w) Operator (app_db s) = Ok i ∧
    env ≠ "" ∧ sub_resources req ≠ [] ∧
    (check_and_record instant_min env (ad_instant w) (app_rate_limiter s)).1 = Ok () ∧
    (if bypass_requested header then has_role i Admin = true else windows_open cfg env (ad_window_now w)) ∧
    secret_gate registered (app_secret_registry s) (sub_resources req) = Ok () ∧
    plan_resources (sub_resources req) (set_modules cfg) env = Some (Ok routing) ∧
    let matched := matched_policies (set_policies cfg) env routing in
    create_operation env (sub_requested_by req) (audit_actor i) (sub_source_commit req) (sub_summary req) routing
      (map pol_name matched) (existsb pol_requires_approval matched) (sub_canary req) (ad_fresh w)
      (after_gate i header req w (app_db s)) = Some (Ok (out, app_db s')) ∧
    sr_operation_id resp = out_operation_id out ∧ sr_assignment_count resp = out_assignment_count out.
Proof.
  unfold submit. cbn zeta. intros Hs. act_step Hs. apply a_require_role_Ok in Ha as [Hrole ->]. rename a into i.
  case_decide as Henv; [done|]. case_decide as Hres; [done|].
  act_step Hs. apply on_limiter_Ok in Ha as (l & Hlim & ->).
  act_step Hs. apply maintenance_gate_Ok in Ha as (Hdb & (Hlive & Hreg & _) & Hwin).
  act_step Hs. injection Ha as <- <-. act_step Hs. injection Ha as Hsec <-.
  act_step Hs. injection Ha as Hplan <-. cbn in Hdb, Hlive, Hreg, Hwin.
  act_step Hs. assert (app_db s0 = app_db s1) as Hsame.
  { destruct (policy_caps _); [by injection Ha as _ <-|]. apply on_limiter_Ok in Ha as (l' & _ & ->). done. }
  act_step Hs. apply on_call_Ok in Ha0 as (d & Hcreate & ->). injection Hs as <- <-.
  unfold app_settings, app_config in *. rewrite Hlive in *. cbn in *. rewrite <- Hsame, Hdb in Hcreate.
  eexists i, a2, _. split_and!; try done; [rewrite Hlim|rewrite <- Hreg, Hsec]; by repeat match goal with u : () |- _ => destruct u end.
Qed.

(** ** What is written *)

(** The bypass entry changes the audit log only. *)
Lemma after_gate_frame i header req w d :
  let d' := after_gate i header req w d in
  operations d' = operations d ∧ assignments d' = assignments d ∧ desired_states d' = desired_states d ∧ agents d' = agents d.
Proof. unfold after_gate. by destruct (bypass_requested header). Qed.

Lemma plan_resources_env resources modules env routing :
  plan_resources resources modules env = Some (Ok routing) → ∀ r, r ∈ routing → environment r = env.
Proof.
  unfold plan_resources. destruct (expand_resources _ _ ≫= _) as [rs|e] eqn:Hx; [|done]. intros Ht r Hr.
  destruct (expand_resources resources modules) as [expanded|e]; [|done]. cbn in Hx.
  apply try_map_Forall2 in Hx.
  assert (r ∈ rs) as Hin.
  { destruct (topo_sort_run rs) as [(e & _ & He)|(g & order & d & _ & _ & _ & [[_ [m He]]|[_ (sorted & He & Hf)]])];
      rewrite He in Ht; simplify_eq.
    apply list_elem_of_lookup in Hr as [j Hj]. destruct (Forall2_lookup_r _ _ _ _ _ Hf Hj) as (k & _ & Hk).
    by eapply list_elem_of_lookup_2. }
  apply list_elem_of_lookup in Hin as [j Hj]. destruct (Forall2_lookup_r _ _ _ _ _ Hx Hj) as (raw & _ & Hraw).
  by eapply extract_routing_env.
Qed.

(** The desired states a creation adds are those of its resources. *)
Definition desired_of (op : string) (rs : list ResourceForRouting) (row : DbDesired) : Prop :=
  ds_operation_id row = op ∧ ∃ r, r ∈ rs ∧ ds_environment row = environment r ∧ ds_kind row = kind r ∧
    ds_resource_id row = resource_id r ∧ ds_spec_json row = resource_json r.

Lemma route_loop_desired op env ags layers rs acc d acc' d' :
  tx_for (route_step op env ags layers) acc (enumerate rs) d = Some (Ok (acc', d')) →
  ∃ rows, desired_states d' = desired_states d ++ rows ∧ Forall (desired_of op rs) rows.
Proof.
  intros Hrun. refine (tx_for_inv _ (λ _ d2, ∃ rows, desired_states d2 = desired_states d ++ rows ∧ Forall (desired_of op rs) rows)
    _ _ _ _ _ _ _ Hrun); [|exists []; by rewrite app_nil_r].
  intros [bk un] [i r] d1 b' d2 Hin (rows & Hrows & Hall) Hstep. cbn in Hstep. tx_step Hstep.
  unfold insert_desired in Ha. case_decide; [done|]. injection Ha as _ <-.
  assert (∃ rows', desired_states d2 = desired_states d ++ rows ++ rows' ∧ Forall (desired_of op rs) rows') as (rows' & Hr & Hf).
  { exists [mkDesired (next_desired d1) op (resource_id r) (kind r) (environment r) (resource_json r) "{}"].
    split; [|constructor; [|constructor]; split; [done|]; exists r; split_and!; try done].
    - destruct (route_resource r env ags); [tx_step Hstep; apply tx_panics_Ok in Ha as [_ ->]|]; injection Hstep as _ <-;
        cbn; by rewrite Hrows, app_assoc.
    - apply elem_of_enumerate in Hin. by eapply list_elem_of_lookup_2. }
  exists (rows ++ rows'). split; [by rewrite Hr|by apply Forall_app].
Qed.

Lemma bucket_loop_desired op f split n buckets d n' d' :
  tx_for (bucket_step op f split) n buckets d = Some (Ok (n', d')) → desired_states d' = desired_states d.
Proof.
  intros Hrun. refine (tx_for_inv _ (λ _ d2, desired_states d2 = desired_states d) _ _ _ _ _ _ _ Hrun); [|done].
  intros b [[ag l] items] d1 b' d2 _ Hd Hstep. cbn in Hstep.
  tx_step Hstep. apply tx_lift_Ok in Ha as [_ ->]. tx_step Hstep. injection Hstep as _ <-.
  unfold insert_assignment in Ha. case_decide; [done|]. by injection Ha as _ <-.
Qed.

Lemma create_desired env rb actor sc sm rs mp ra canary f d out d' :
  create_operation env rb actor sc sm rs mp ra canary f d = Some (Ok (out, d')) →
  out_operation_id out = fresh_op f ∧
  ∃ rows, desired_states d' = desired_states d ++ rows ∧ Forall (desired_of (fresh_op f) rs) rows.
Proof.
  unfold create_operation. intros Hrun. tx_step Hrun. injection Ha as <- <-.
  tx_step Hrun. unfold insert_operation in Ha. case_decide; [done|]. injection Ha as _ <-.
  tx_step Hrun. apply tx_lift_Ok in Ha as [_ ->].
  tx_step Hrun. destruct a1 as [buckets unrouted]. apply route_loop_desired in Ha as (rows & Hrows & Hall).
  tx_step Hrun. tx_step Hrun. apply record_audit_frame in Ha0 as (_ & _ & Had & _). injection Hrun as <- <-.
  split; [done|]. exists rows. split; [|done]. rewrite Had. cbn in Hrows. rewrite <- Hrows. destruct ra.
  - by injection Ha as _ <-.
  - tx_step Ha. apply bucket_loop_desired in Ha0. tx_step Ha. injection Ha as _ <-.
    case_decide; injection Ha1 as _ <-; exact Ha0.
Qed.

(** C3: what a successful submission went through and left. The caller holds
    the operator role; either it is an administrator who asked for the bypass,
    or no window fences the environment; and the operation it created waits
    for approval exactly when a configured policy that its resources match
    asks for one, in which case no assignment was created. Every desired state
    added belongs to it and to the requested environment. *)
Theorem submit_gated bearer header req w s resp s' :
  submit registered instant_min bearer header req w s = (Some (Ok resp), s') →
  let env := sub_environment req in
  let cfg := app_settings s in
  ∃ i routing o,
    require_role (cfg_admin_token (app_config s)) bearer (ad_now w) Operator (app_db s) = Ok i ∧
    (if bypass_requested header then has_role i Admin = true else windows_open cfg env (ad_window_now w)) ∧
    plan_resources (sub_resources req) (set_modules cfg) env = Some (Ok routing) ∧
    o ∈ operations (app_db s') ∧ op_id o = sr_operation_id resp ∧
    (op_status o = OpPendingApproval ↔
       ∃ p, p ∈ set_policies cfg ∧ holds (pol_match p) (mkFacts env (map kind routing)) ∧ pol_requires_approval p = true) ∧
    (op_status o = OpPendingApproval → assignments (app_db s') = assignments (app_db s)) ∧
    ∀ row, row ∈ desired_states (app_db s') → row ∈ desired_states (app_db s) ∨
      ds_operation_id row = sr_operation_id resp ∧ ds_environment row = env.
Proof.
  intros Hs. destruct (submit_run _ _ _ _ _ _ _ Hs) as (i & routing & out & Hrole & _ & _ & _ & Hwin & _ & Hplan & Hc & Hid & _).
  destruct (create_desired _ _ _ _ _ _ _ _ _ _ _ _ _ Hc) as (Hout & rows & Hrows & Hall).
  apply create_run in Hc as (o & news & Ho & _ & Hops & Hasg & _ & _ & _ & Hst & Happ).
  destruct (after_gate_frame i header req w (app_db s)) as (_ & Ea & Ed & _).
  exists i, routing, o. split_and!; try done.
  - rewrite Hops. set_solver.
  - by rewrite Hid, Hout.
  - rewrite Happ, existsb_exists. split.
    + intros (p & Hp%list_elem_of_In & Hr). apply elem_of_evaluate in Hp as [Hp Hm]. eauto.
    + intros (p & Hp & Hm & Hr). exists p. split; [|done]. apply list_elem_of_In, elem_of_evaluate. done.
  - intros Hpend. destruct Hst as [[-> _]|[_ Hst]]; [by rewrite Hasg, app_nil_r|congruence].
  - intros row. rewrite Hrows, Ed, elem_of_app. intros [Hr|Hr]; [by left|right]. rewrite Forall_forall in Hall.
    destruct (Hall row Hr) as (Hop & r & Hr' & He & _). split; [by rewrite Hid, Hout|]. rewrite He.
    by eapply plan_resources_env.
Qed.

(** ** Refusals *)

Definition failed {A} (r : panics (ApiResult A)) : Prop := ∀ a, r ≠ Some (Ok a).

Lemma failed_Ok {A} (a : A) : failed (Some (Ok a)) → False.
Proof. intros Hf. by destruct (Hf a). Qed.

Lemma a_bind_failed {A B} (m : action A) (f : A → action B) s r s' :
  a_bind m f s = (r, s') → failed r →
  (∃ r', m s = (r', s') ∧ failed r') ∨ ∃ a s1, m s = (Some (Ok a), s1) ∧ f a s1 = (r, s').
Proof.
  unfold a_bind. destruct (m s) as [[[a|e]|] s1]; [by eauto|intros [= <- <-] _; left..].
  - exists (Some (Err e)). split; [done|]. by intros a.
  - exists None. split; [done|]. by intros a.
Qed.

(** Splits a failed action: the first part failed, or the rest did. *)
Ltac act_fail H Hr :=
  let r := fresh "r" in let a := fresh "a" in let s := fresh "s" in let Ha := fresh "Ha" in
  let Hf := fresh "Hf" in
  destruct (a_bind_failed _ _ _ _ _ H Hr) as [(r & Ha & Hf)|(a & s & Ha & Hf)]; clear H; rename Hf into H.

Lemma on_limiter_db {A} (f : RateLimiter → ApiResult A * RateLimiter) s r s' :
  on_limiter f s = (r, s') → app_db s' = app_db s.
Proof. unfold on_limiter. destruct (f _). by intros [= _ <-]. Qed.

Lemma on_maintenance_db {A} (f : MaintenanceMetrics → ApiResult A * MaintenanceMetrics) s r s' :
  on_maintenance f s = (r, s') → app_db s' = app_db s.
Proof. unfold on_maintenance. destruct (f _). by intros [= _ <-]. Qed.

Lemma on_call_failed {A} (m : tx A) s r s' : on_db (h_call m) s = (r, s') → failed r → app_db s' = app_db s.
Proof. unfold on_db, h_call. destruct (m (app_db s)) as [[[a d]|e]|]; intros [= <- <-] Hf; try done. by destruct (Hf a). Qed.

Lemma a_require_role_state bearer now role s r s' : a_require_role bearer now role s = (r, s') → s' = s.
Proof. unfold a_require_role, a_bind, a_state, on_db, h_read. intros [= _ <-]. apply with_db_same. Qed.

Lemma maintenance_gate_failed i header req w s r s' :
  maintenance_gate_action i header req w s = (r, s') → failed r → app_db s' = app_db s.
Proof.
  unfold maintenance_gate_action. intros Hg Hr. act_fail Hg Hr; [by apply on_maintenance_db in Ha|].
  apply on_maintenance_db in Ha as <-. destruct (bypass_requested header).
  - destruct (negb (has_role i Admin)); [by injection Hg as _ <-|].
    act_fail Hg Hr; [by apply on_maintenance_db in Ha|]. apply on_maintenance_db in Ha as <-. by apply on_call_failed in Hg.
  - act_fail Hg Hr; [injection Ha as <- _; by destruct (failed_Ok _ Hg)|]. injection Ha as _ <-.
    unfold window_gate in Hg.
    act_fail Hg Hr; [by apply on_maintenance_db in Ha|]. apply on_maintenance_db in Ha as <-. by apply on_maintenance_db in Hg.
Qed.

(** a submission that is refused, or panics, leaves no operation, no
    desired state and no assignment: the database is as it was, or has gained
    the one audit entry of an administrator's bypass. *)
Theorem refused_submission_harmless bearer header req w s r s' :
  submit registered instant_min bearer header req w s = (r, s') → failed r →
  app_db s' = app_db s ∨
  ∃ i, bypass_requested header = true ∧ has_role i Admin = true ∧ app_db s' = after_gate i header req w (app_db s).
Proof.
  unfold submit. cbn zeta. intros Hs Hr. act_fail Hs Hr; [apply a_require_role_state in Ha as ->; by left|].
  apply a_require_role_state in Ha as ->. rename a into i.
  case_decide; [injection Hs as _ <-; by left|]. case_decide; [injection Hs as _ <-; by left|].
  act_fail Hs Hr; [apply on_limiter_db in Ha; by left|]. apply on_limiter_db in Ha as <-.
  act_fail Hs Hr; [apply maintenance_gate_failed in Ha; [by left|done]|].
  apply maintenance_gate_Ok in Ha as (Hdb & _ & Hby).
  assert (app_db s' = app_db s1 → app_db s' = app_db s0 ∨
    ∃ i, bypass_requested header = true ∧ has_role i Admin = true ∧ app_db s' = after_gate i header req w (app_db s0)) as Hgoal.
  { intros ->. rewrite Hdb. destruct (bypass_requested header) eqn:Eb; [right; eauto|left]. unfold after_gate. by rewrite Eb. }
  act_fail Hs Hr; [injection Ha as <- _; by destruct (failed_Ok _ Hs)|]. injection Ha as _ <-.
  act_fail Hs Hr; [injection Ha as _ <-; by apply Hgoal|]. injection Ha as _ <-.
  act_fail Hs Hr; [injection Ha as _ <-; by apply Hgoal|]. injection Ha as _ <-.
  act_fail Hs Hr.
  { destruct (policy_caps _); [injection Ha as <- _; by destruct (failed_Ok _ Hs)|]. apply on_limiter_db in Ha. by apply Hgoal. }
  assert (app_db s2 = app_db s1) as Hs2 by (destruct (policy_caps _); [by injection Ha as _ <-|by apply on_limiter_db in Ha]).
  act_fail Hs Hr; [apply on_call_failed in Ha0; [apply Hgoal; congruence|done]|].
  injection Hs as <- _. by destruct (failed_Ok _ Hr).
Qed.

(** ** Approval *)

(** C17: who may approve. An approval that succeeds was given by an approver,
    and unless that is an administrator, by one named on the approver list of
    every policy recorded on the operation that the configuration still has
    and that has such a list; the operation was waiting, and no longer is. *)
Theorem approve_op_authorised bearer op_id_ reason w s n s' :
  approve_op bearer op_id_ reason w s = (Some (Ok n), s') →
  ∃ i o, require_role (cfg_admin_token (app_config s)) bearer (ad_now w) Approver (app_db s) = Ok i ∧
    o ∈ operations (app_db s) ∧ op_id o = op_id_ ∧ op_status o = OpPendingApproval ∧
    (∀ o', o' ∈ operations (app_db s') → op_id o' = op_id_ → op_status o' ≠ OpPendingApproval) ∧
    (has_role i Admin = false → ∃ view, get_operation op_id_ (app_db s) = Ok view ∧
       ∀ name p, name ∈ ov_matched_policies view →
         List.find (λ p, bool_decide (pol_name p = name)) (set_policies (app_settings s)) = Some p →
         pol_approvers p = [] ∨ display_name i ∈ pol_approvers p).
Proof.
  unfold approve_op. intros Hs. act_step Hs. apply a_require_role_Ok in Ha as [Hrole ->]. rename a into i.
  act_step Hs. apply on_call_Ok in Hs as (d & Hd & ->).
  assert (app_db s0 = app_db s ∧ (has_role i Admin = false → ∃ view, get_operation op_id_ (app_db s) = Ok view ∧
       ∀ name p, name ∈ ov_matched_policies view →
         List.find (λ p, bool_decide (pol_name p = name)) (set_policies (app_settings s)) = Some p →
         pol_approvers p = [] ∨ display_name i ∈ pol_approvers p)) as [Hdb Happ].
  { destruct (has_role i Admin) eqn:Ei; cbn [negb] in Ha; [by injection Ha as _ <-|].
    act_step Ha. apply on_read_Ok in Ha0 as [Hview ->]. act_step Ha. injection Ha0 as <- <-.
    destruct (existsb _ _) eqn:Ex; [done|]. injection Ha as _ <-. split; [done|]. intros _. exists a0. split; [done|].
    intros name p Hn Hf. apply not_true_iff_false in Ex. rewrite existsb_exists in Ex.
    destruct (decide (pol_approvers p = [])) as [|Hne]; [by left|right].
    destruct (decide (display_name i ∈ pol_approvers p)) as [|Hni]; [done|]. destruct Ex. exists name.
    split; [by apply list_elem_of_In|]. unfold policy_refuses. rewrite Hf, bool_decide_false by done.
    apply negb_true_iff, not_true_iff_false. rewrite existsb_exists. intros (u & Hu & He). apply bool_decide_eq_true in He as ->.
    by apply Hni, list_elem_of_In. }
  rewrite Hdb in Hd. apply approve_run in Hd as (o & news & st & reason' & fin & Ho & Hid & Hst & Hops & _ & _ & _ & _ & Hnew).
  exists i, o. split_and!; try done. intros o' Ho' Hid'. cbn in Ho'. rewrite Hops in Ho'. apply elem_of_map in Ho' as (o1 & Ho1 & ->).
  destruct (awaiting_approval op_id_ o1) eqn:Ew.
  - cbn. destruct Hnew as [[_ ->]|[_ ->]]; done.
  - intros Hp. apply not_true_iff_false in Ew. destruct Ew. by apply awaiting_true.
Qed.

(** ** Rollback *)

(** A rollback consults neither the limiter nor the windows. *)
Lemma rollback_ungated bearer target req w s l m :
  let '(r, s') := rollback_op bearer target req w s in
  rollback_op bearer target req w (with_limiter l (with_maintenance m s)) =
    (r, with_limiter l (with_maintenance m s')) ∧
  app_rate_limiter s' = app_rate_limiter s ∧ app_maintenance_metrics s' = app_maintenance_metrics s.
Proof.
  destruct s as [d live path lim met reg].
  unfold rollback_op, a_require_role, a_bind, a_state, on_db, a_panics, h_read, h_call.
  cbn [app_db app_live app_config app_settings with_db with_limiter with_maintenance app_config_path app_rate_limiter
       app_maintenance_metrics app_secret_registry].
  destruct (require_role _ _ _ _ _) as [i|e]; [|done]. destruct (prepare_rollback target d) as [[[rs orph] env]|e]; [|done].
  case_decide; [done|]. destruct (topo_sort_by_depends_on rs) as [[rs'|e]|]; [|done|done].
  destruct (create_operation _ _ _ _ _ _ _ _ _ _ _) as [[[out d1]|e]|]; [|done|done]. done.
Qed.

End Endpoints.

(** ** Secrets *)

Lemma a_bind_ext {A B} (m : action A) (f g : A → action B) s :
  (∀ a s1, m s = (Some (Ok a), s1) → f a s1 = g a s1) → a_bind m f s = a_bind m g s.
Proof. unfold a_bind. intros Hfg. destruct (m s) as [[[a|e]|] s1]; [by apply Hfg|done..]. Qed.

Section Secrets.
Context `{JsonCodec, Sha256, SqlErrors, Argon2, Jiff, TimeZones, SerdeErrors, Unicode, YamlCodec, JsonPointer}.
Context (instant_min : Z).

(** The pre-flight and the submission on a server with the backends [o]. *)
Definition gate_with (o : Outside) reg registry resources : ApiResult () := secret_gate reg registry resources.
Definition submit_with (o : Outside) reg bearer header req w : action SubmitOperationResponse :=
  submit reg instant_min bearer header req w.

(** C7: what a submission stores and answers does not depend on the secrets.
    [submit] resolves the secret references of its resources to check that
    they resolve, and drops the result: two servers whose backends hold
    different values, or fail differently, and which both let a submission
    through that check, end it in the same state (database, limiter and
    metrics included) and with the same answer, whether it is accepted or
    refused later on. The claim is about [submit] alone: the drift reports of
    the agents are another route, on which resolved values do reach the
    server. *)
Theorem secrets_stay_references (o1 o2 : Outside) reg1 reg2 bearer header req w s :
  gate_with o1 reg1 (app_secret_registry s) (sub_resources req) = Ok () →
  gate_with o2 reg2 (app_secret_registry s) (sub_resources req) = Ok () →
  submit_with o1 reg1 bearer header req w s = submit_with o2 reg2 bearer header req w s.
Proof.
  unfold gate_with, submit_with. intros Hg1 Hg2. unfold submit. cbn zeta. apply a_bind_ext. intros i s1 Ha. apply a_require_role_Ok in Ha as [_ ->].
  case_decide; [done|]. case_decide; [done|].
  apply a_bind_ext. intros u2 s2 Ha. apply on_limiter_Ok in Ha as (l & _ & ->).
  apply a_bind_ext. intros u3 s3 Ha. apply maintenance_gate_Ok in Ha as (_ & (_ & Hreg & _) & _). cbn in Hreg.
  apply a_bind_ext. intros s4 s5 [= <- <-]. rewrite Hreg, Hg1, Hg2. reflexivity.
Qed.

End Secrets.

(** ** A small server

    One agent in production, an operator token, two approvers, and a policy
    that gives production to one of them. *)

#[local] Existing Instances demo_sha demo_jiff demo_argon demo_zones demo_serde demo_yaml.
#[local] Instance api_sql : SqlErrors := {| unique_violation := SqlxOther "unique" |}.
#[local] Instance api_unicode : Unicode := {| is_alphanumeric := is_ascii_alphanumeric |}.

(** Lists of texts are printed joined, a resource and a payload as a word. *)
#[local] Instance api_codec : JsonCodec := {|
  json_to_string v :=
    match v with
    | JArray xs => str_join "," (map (λ x, default "" (as_str x)) xs)
    | _ => if decide (is_Some (json_get v "resources")) then "payload" else "resource"
    end;
  json_from_str s :=
    if decide (s = "resource") then Ok (JObject [("metadata", JObject [("name", JString "web")])])
    else Ok (JArray (map JString (split_on xff_comma s)))
|}.

Definition backends (value : string) : Outside := {|
  env_var v := if decide (v = "DB") then Some value else None;
  http_get _ _ := Err "unreachable"; body_json _ := Err "no body"; canonicalize _ := Err "no such file";
  run_sops _ _ := SopsTimeout; from_utf8 s := Some s |}.
#[local] Instance api_outside : Outside := backends "s3cret".

Definition api_policy : Policy := mkPolicy "guard" (mkPolicyMatch (Some "prod") None None) true ["bob"] None.

Definition api_settings (policies : list Policy) (windows : list MaintenanceWindow) : Settings :=
  mkSettings policies default_retention (mkRateConfig (Some 5%Z) None None None None) windows [] Webhook.webhooks_default tls_default
    (mkSecrets None None) DeltaSeconds [] None [] 60 10 [] None.

Definition api_user (name : string) : DbUser := mkUser name name "" "approver" "@0" None.
Definition api_token (name : string) : DbUserToken := mkUserToken (hash_token name) name "@0" "@9".

Definition api_db : Db :=
  set_users [api_user "bob"; api_user "carol"] [api_token "bob"; api_token "carol"]
    (set_agents [mkAgent "a1" "a1" "prod" "" "@0" None None "healthy" 0 0 "{}" None "pull"] empty_db).

Definition api_state (policies : list Policy) (windows : list MaintenanceWindow) : AppState :=
  let settings := api_settings policies windows in
  mkApp api_db (mkReloadable (mkConfig (V4 [127; 0; 0; 1]%Z, 8443%Z) "db" "/state" 0 (Some "root") settings) [])
    None (from_config (set_rate_limit settings)) maint_metrics_default (Some (register REnv ∅))
    (mkSigner empty_dir (mkSignerState ∅ "")).

Definition api_resource (password : string) : Json :=
  JObject [("kind", JString "file"); ("metadata", JObject [("name", JString "web")]);
           ("spec", JObject [("password", JString password)])].

Definition api_request (password : string) : SubmitOperationRequest :=
  mkSubmit "prod" "alice" None None [api_resource password] None.

Definition api_draw (op : string) : ApiDraw :=
  mkApiDraw "@1" 0 0 50 (mkFresh op (λ n, op +:+ pretty n) "@1" "@1") "@1".

Definition api_submit (header : option string) (s : AppState) :=
  submit (λ _, "env") (-100) "root" header (api_request "${secret://env/DB}") (api_draw "op1") s.

(** What the examples look at. *)
Definition api_view {A} (r : panics (ApiResult A) * AppState) :=
  (match r.1 with Some (Ok _) => true | _ => false end,
   map (λ o, (op_id o, op_status o)) (operations (app_db r.2)),
   map (λ d, (ds_resource_id d, ds_environment d)) (desired_states (app_db r.2)), length (assignments (app_db r.2)),
   map au_kind (audit_events (app_db r.2))).

Definition api_freeze : MaintenanceWindow := mkWindow "freeze" "*" "@0" "@100".

Example submit_waits : api_view (api_submit None (api_state [api_policy] [])) =
  (true, [("op1", OpPendingApproval)], [("file/prod/web", "prod")], 0, ["operation.pending_approval"]).
Proof. vm_compute. reflexivity. Qed.
Example submit_runs : api_view (api_submit None (api_state [] [])) =
  (true, [("op1", OpPending)], [("file/prod/web", "prod")], 1, ["operation.submitted"]).
Proof. vm_compute. reflexivity. Qed.
Example submit_frozen : api_view (api_submit None (api_state [api_policy] [api_freeze])) = (false, [], [], 0, []).
Proof. vm_compute. reflexivity. Qed.
Example submit_bypass : api_view (api_submit (Some "yes") (api_state [api_policy] [api_freeze])) =
  (true, [("op1", OpPendingApproval)], [("file/prod/web", "prod")], 0,
   ["operation.maintenance_bypass"; "operation.pending_approval"]).
Proof. vm_compute. reflexivity. Qed.

Definition api_start : AppState := api_state [api_policy] [].
Definition api_after : AppState := (api_submit None api_start).2.
Definition api_answer : SubmitOperationResponse :=
  mkSubmitted "op1" 0 [] (mkBlast 1 0 ["file"]).

Lemma api_submitted : api_submit None api_start = (Some (Ok api_answer), api_after).
Proof. vm_compute. reflexivity. Qed.

Lemma submit_gated_witness :
  ∃ o, o ∈ operations (app_db api_after) ∧ op_id o = "op1" ∧ op_status o = OpPendingApproval ∧
    assignments (app_db api_after) = [] ∧
    ∀ row, row ∈ desired_states (app_db api_after) → ds_environment row = "prod".
Proof.
  destruct (submit_gated _ _ _ _ _ _ _ _ _ api_submitted) as (i & routing & o & _ & _ & _ & Ho & Hid & Hst & Has & Hds).
  assert (op_status o = OpPendingApproval) as Hp.
  { apply Hst. exists api_policy. split; [left|]. split; [|reflexivity]. split; [|split; [|split]].
    - intros env [= <-]. right. reflexivity.
    - intros n Hn. discriminate Hn.
    - intros k Hk. discriminate Hk.
    - left. exists "prod". reflexivity. }
  exists o. split; [exact Ho|]. split; [exact Hid|]. split; [exact Hp|]. split; [exact (Has Hp)|].
  intros row Hr. destruct (Hds row Hr) as [Hold|[_ He]]; [|exact He].
  change (row ∈ @nil DbDesired) in Hold. inversion Hold.
Defined.

Definition api_frozen : AppState := api_state [api_policy] [api_freeze].

Definition api_refusal : panics (ApiResult SubmitOperationResponse) :=
  Some (Err (ServiceUnavailable [Txt "maintenance window "; Dbg "freeze"; Txt " is active until "; Txt "@100"] 1)).
Definition api_frozen_after : AppState := (api_submit None api_frozen).2.

Lemma api_refused : api_submit None api_frozen = (api_refusal, api_frozen_after).
Proof. vm_compute. reflexivity. Qed.

Lemma refused_submission_harmless_witness : app_db api_frozen_after = app_db api_frozen.
Proof.
  assert (failed api_refusal) as Hf by (intros a Ha; discriminate Ha).
  pose proof (refused_submission_harmless (λ _, "env") (-100) "root" None (api_request "${secret://env/DB}") (api_draw "op1")
    api_frozen api_refusal api_frozen_after api_refused Hf) as [He|(i & Hb & _)]; [exact He|].
  vm_compute in Hb. discriminate Hb.
Defined.

Definition api_approve (who : string) (s : AppState) := approve_op who "op1" None (api_draw "op1") s.

(** Carol is an approver too, but not on the policy's list. *)
Example carol_is_refused : (api_approve "carol" api_after).1 = Some (Err Forbidden).
Proof. vm_compute. reflexivity. Qed.

Definition api_approved : AppState := (api_approve "bob" api_after).2.

Lemma api_bob : api_approve "bob" api_after = (Some (Ok 1), api_approved).
Proof. vm_compute. reflexivity. Qed.

Lemma approve_op_authorised_witness :
  ∃ i, require_role (Some "root") "bob" "@1" Approver (app_db api_after) = Ok i ∧ display_name i = "bob" ∧
    (∀ o', o' ∈ operations (app_db api_approved) → op_id o' = "op1" → op_status o' ≠ OpPendingApproval) ∧
    display_name i ∈ pol_approvers api_policy.
Proof.
  destruct (approve_op_authorised _ _ _ _ _ _ _ api_bob) as (i & o & Hi & _ & _ & _ & Hdone & Hlist).
  exists i. split; [exact Hi|]. vm_compute in Hi. injection Hi as <-.
  destruct (Hlist eq_refl) as (view & Hv & Hall). split; [reflexivity|]. split; [exact Hdone|].
  vm_compute in Hv. injection Hv as <-. destruct (Hall "guard" api_policy) as [He|He]; [left|reflexivity|discriminate He|exact He].
Defined.

Lemma secrets_stay_references_witness :
  submit_with (-100)%Z (backends "s3cret") (λ _, "env") "root" None (api_request "${secret://env/DB}") (api_draw "op1") api_start =
  submit_with (-100)%Z (backends "rotated") (λ _, "env") "root" None (api_request "${secret://env/DB}") (api_draw "op1") api_start.
Proof.
  apply (secrets_stay_references (-100)%Z (backends "s3cret") (backends "rotated")); vm_compute; reflexivity.
Defined.

(** Nothing is charged and no window is looked at when the same operation is
    rolled back during a freeze; a policy that left the configuration no
    longer guards its operations. *)
Lemma renamed_policy_lifts_its_list :
  let renamed := mkPolicy "guard2" (mkPolicyMatch (Some "prod") None None) true ["bob"] None in
  let s := with_live (app_live (api_state [renamed] [])) api_after in
  (match (api_approve "carol" s).1 with Some (Ok 1) => true | _ => false end) = true.
Proof. vm_compute. reflexivity. Qed.
