(* ===== verification/AgentApi.v ===== *)
(** * The agent, signing and administration endpoints (crates/iac-controlplane/src/api/agents.rs, api/signing.rs, api/admin.rs)

    Registration behind the address limiter and the enrollment secret, the
    endpoints an agent calls with its token, the delivery of assignments
    (claim, resolve the secrets, tag, sign, hand the claims back on failure),
    the public key endpoints and the rotation of signing keys. *)

From S2P Require Import Prelude Text Net Json ApiError Routing Db AuditLog Operations Ids Dispatch Views Clock Handler Users Diff Drift RateLimit Agents Maintenance Secrets Signing Config Server OperationApi.

#[local] Open Scope string_scope.
#[local] Open Scope list_scope.
#[local] Open Scope nat_scope.
#[local] Open Scope action_scope.

(** What a request draws from outside: the clock of the authentication, the
    limiter's instant, the clock of the store and its texts, a token, a ULID,
    the start of the lease a claim honours, and what other requests have made
    of the signer's state by its [n]th load. *)
Record AgentDraw := mkAgentDraw {
  gd_clock : Z;
  gd_instant : Z;
  gd_store_clock : Z;
  gd_now : string;
  gd_later : string;
  gd_audit_now : string;
  gd_token : string;
  gd_id : string;
  gd_lease_cutoff : string;
  gd_signer : nat → SignerState → SignerState
}.

(** ** Secrets in an envelope *)

Definition SECRET_FIELDS_ANNOTATION : string := "iac.dev/secret-fields".

(** The pointers of the resolved fields, stashed under [metadata.annotations]
    when [metadata] is an object. *)
Definition tag_secret_fields (resource : Json) (secret_pointers : list string) : Json :=
  match secret_pointers with
  | [] => resource
  | _ =>
      let annotations := match json_get2 resource "metadata" "annotations" with Some (JObject m) => m | _ => [] end in
      let annotations := assoc_insert SECRET_FIELDS_ANNOTATION (JString (str_join "," secret_pointers)) annotations in
      json_update "metadata" (λ meta, match meta with
                                      | JObject m => JObject (assoc_insert "annotations" (JObject annotations) m)
                                      | _ => meta
                                      end) resource
  end.

Definition set_payload (resources : list Json) (env : AssignmentEnvelope) : AssignmentEnvelope :=
  mkEnvelope (env_assignment_id env) (env_operation_id env) (env_kind env) (env_created_at env) (env_expires_at env)
    (mkPayload resources) (env_key_id env) (env_signature env).
Definition set_signature (key_id signature : string) (env : AssignmentEnvelope) : AssignmentEnvelope :=
  mkEnvelope (env_assignment_id env) (env_operation_id env) (env_kind env) (env_created_at env) (env_expires_at env)
    (env_payload env) key_id signature.

(** [anyhow::Error] in a format string shows its outermost message. *)
Definition prefixed (prefix : string) (e : Anyhow) : message := Txt prefix :: anyhow_text e.

Section Delivery.
Context `{JsonCodec, Sha256, JsonPointer, Ed25519, Base64} (resolve : gmap string Resolver → SecretRef → ApiResult string).

(** [serde_json::to_vec(&env.payload)]. *)
Definition payload_bytes (p : AssignmentPayload) : string := json_to_string (payload_json_of (payload_resources p)).

Definition resolve_resource (registry : gmap string Resolver) (resource : Json) : ApiResult Json :=
  '(resource, _, secret_pointers) ← substitute_with_pointers (resolve registry) resource;
  Ok (tag_secret_fields resource secret_pointers).

Definition resolve_payload (registry : option (gmap string Resolver)) (env : AssignmentEnvelope)
    : ApiResult AssignmentEnvelope :=
  match registry with
  | None => Ok env
  | Some registry =>
      resources ← try_map (resolve_resource registry) (payload_resources (env_payload env));
      Ok (set_payload resources env)
  end.

(** The signature and the key id are two loads of the signer's state. *)
Definition sign_envelope (at_sign at_key_id : SignerState) (agent_id : string) (env : AssignmentEnvelope)
    : ApiResult AssignmentEnvelope :=
  signature ← map_err (λ e, Internal (prefixed "signing failed: " e))
    (sign at_sign agent_id (env_assignment_id env) (env_operation_id env) (env_created_at env)
       (default "" (env_expires_at env)) (payload_bytes (env_payload env)));
  Ok (set_signature (key_id at_key_id) signature env).

(** The body of the loop over the claimed envelopes, and the loop; [loads] is
    what the loads of the signer's state give, two for each envelope, from the
    [n]th on. *)
Definition build_envelope (registry : option (gmap string Resolver)) (at_sign at_key_id : SignerState)
    (agent_id : string) (env : AssignmentEnvelope) : ApiResult AssignmentEnvelope :=
  env ← resolve_payload registry env;
  sign_envelope at_sign at_key_id agent_id env.

Fixpoint build_envelopes (registry : option (gmap string Resolver)) (loads : nat → SignerState) (agent_id : string)
    (n : nat) (items : list AssignmentEnvelope) : ApiResult (list AssignmentEnvelope) :=
  match items with
  | [] => Ok []
  | env :: items =>
      env ← build_envelope registry (loads n) (loads (S n)) agent_id env;
      items ← build_envelopes registry loads agent_id (S (S n)) items;
      Ok (env :: items)
  end.

End Delivery.

(** ** Agents *)

(** [m.await] with its outcome as a value. *)
Definition a_try {A} (m : action A) : action (ApiResult A) := λ s,
  match m s with
  | (Some r, s') => (Some (Ok r), s')
  | (None, s') => (None, s')
  end.

Section Endpoints.
Context `{JsonCodec, Sha256, SqlErrors, Argon2, Jiff, DiffCodec, JsonPointer, Ed25519, Base64}.
Context (resolve : gmap string Resolver → SecretRef → ApiResult string) (instant_min : Z).

(** Every agent endpoint starts here. *)
Definition a_authenticate (agent_id bearer : string) (w : AgentDraw) : action AgentRecord :=
  on_db (h_read (authenticate agent_id bearer (gd_clock w))).

Definition charge_agent (agent_id : string) (w : AgentDraw) : action () :=
  on_limiter (check_and_record_agent instant_min agent_id (gd_instant w)).

Definition register (xff : list string) (socket_ip : IpAddr) (enrollment : option string) (req : RegisterRequest)
    (w : AgentDraw) : action AgentCredentials :=
  let+ s := a_state in
  let cfg := app_settings s in
  let client_ip := effective_client_ip xff socket_ip (set_trusted_proxies cfg) in
  on_limiter (check_and_record_register instant_min (show_ip client_ip) (gd_instant w)) ;+
  if negb (enrollment_ok (set_agent_enrollment_token cfg) enrollment) then a_throw Unauthorized
  else
  on_db (h_call (register_agent req (set_agent_token_ttl_secs cfg) (gd_id w) (gd_token w) (gd_store_clock w) (gd_audit_now w))).

Definition rotate_token (agent_id bearer : string) (w : AgentDraw) : action AgentCredentials :=
  let+ _ := a_authenticate agent_id bearer w in
  let+ s := a_state in
  on_db (h_call (rotate_agent_token agent_id (set_agent_token_ttl_secs (app_settings s)) (gd_token w) (gd_store_clock w)
                   (gd_audit_now w))).

Definition heartbeat (agent_id bearer : string) (req : HeartbeatRequest) (w : AgentDraw) : action () :=
  let+ _ := a_authenticate agent_id bearer w in
  charge_agent agent_id w ;+
  on_db (h_call (record_heartbeat agent_id req (gd_now w))).

Definition observations (agent_id bearer : string) (items : list ObservationItem) (w : AgentDraw) : action Z :=
  let+ record := a_authenticate agent_id bearer w in
  charge_agent agent_id w ;+
  let env := ag_rec_environment record in
  match List.find (λ i, negb (seqb (rid_environment (oi_resource_id i)) env)) items with
  | Some i =>
      a_throw (BadRequest [Txt "observation resource_id env "; Dbg (rid_environment (oi_resource_id i));
        Txt " does not match agent env "; Dbg env; Txt "; refusing cross-env observation"])
  | None => on_db (h_call (record_observations agent_id items (gd_now w)))
  end.

Definition drift (agent_id bearer : string) (items : list DriftItem) (w : AgentDraw) : action nat :=
  let+ record := a_authenticate agent_id bearer w in
  charge_agent agent_id w ;+
  let env := ag_rec_environment record in
  match List.find (λ i, negb (seqb (di_environment i) env)) items with
  | Some i =>
      a_throw (BadRequest [Txt "drift resource_id env "; Dbg (di_environment i);
        Txt " does not match agent env "; Dbg env; Txt "; refusing cross-env drift report"])
  | None =>
      let+ n := on_db (h_call (record_drift agent_id items (gd_now w))) in
      let+ _ := on_db (h_call (close_drift_not_in agent_id (map di_resource_id items) (gd_later w))) in
      a_ret n
  end.

Definition list_agents (bearer now : string) : action (list AgentSummary) :=
  let+ _ := a_require_role bearer now Viewer in
  on_db (h_read (λ d, Ok (Agents.list_agents d))).

(** The signer's state at the [n]th load: other requests may have changed it. *)
Definition signer_loads (w : AgentDraw) (s : AppState) (n : nat) : SignerState := gd_signer w n (sg_state (app_signer s)).

Definition list_assignments (agent_id bearer : string) (w : AgentDraw) : action (list AssignmentEnvelope) :=
  let+ _ := a_authenticate agent_id bearer w in
  let+ items := on_db (h_call (fetch_pending_assignments agent_id (gd_now w) (gd_lease_cutoff w))) in
  let claimed_ids := map env_assignment_id items in
  let+ s := a_state in
  match build_envelopes resolve (app_secret_registry s) (signer_loads w s) agent_id 0 items with
  | Ok items => a_ret items
  | Err e =>
      let+ _ := a_try (on_db (h_call (revert_assignment_claims claimed_ids))) in
      a_throw e
  end.

Definition assignment_result (agent_id assignment_id bearer : string) (req : AssignmentResultRequest) (w : AgentDraw) : action () :=
  let+ _ := a_authenticate agent_id bearer w in
  on_db (h_call (complete_assignment agent_id assignment_id req (gd_now w) (gd_audit_now w))).

Definition desired_state (agent_id bearer : string) (w : AgentDraw) : action (list DesiredStateItem) :=
  let+ _ := a_authenticate agent_id bearer w in
  on_db (h_read (list_desired_state_for_agent agent_id)).

End Endpoints.

(** ** Keys *)

Record SigningPubkey := mkPubkey { pk_key_id : string; pk_public_key : string }.
Record SigningPubkeyBundle := mkBundle { bd_active_key_id : string; bd_keys : list SigningPubkey }.

Section Keys.
Context `{JsonCodec, Sha256, SqlErrors, Argon2, Jiff, Ed25519, Base64}.
(** The I/O error texts, what a torn write leaves, and the keys directory. *)
Context (io_error : string → string) (torn dir : string).

Definition bundle_of (s : SignerState) : SigningPubkeyBundle :=
  mkBundle (key_id s) (map (λ kv, mkPubkey kv.1 kv.2) (pubkeys s)).

Definition bundle (s : AppState) : SigningPubkeyBundle := bundle_of (sg_state (app_signer s)).

Definition pubkey : action SigningPubkey :=
  let+ s := a_state in
  let signer := sg_state (app_signer s) in
  let+ public_key := a_lift (map_err (λ e, Internal (prefixed "signer state inconsistent: " e)) (public_key_b64 signer)) in
  a_ret (mkPubkey (key_id signer) public_key).

Definition pubkey_bundle : action SigningPubkeyBundle := let+ s := a_state in a_ret (bundle s).

(** A call into the signer; its error as an API error. *)
Definition on_signer {A} (f : ServerSigner → result Anyhow A * ServerSigner) (e : Anyhow → ApiErr) : action A := λ s,
  let '(r, g) := f (app_signer s) in (Some (map_err e r), with_signer g s).

(** [steps]: the number of disk steps that succeed. *)
Definition rotate_signing_key (bearer now audit_now : string) (draw : KeyDraw) (steps : nat) : action SigningPubkeyBundle :=
  let+ identity := a_require_role bearer now Admin in
  let+ s := a_state in
  let previous := key_id (sg_state (app_signer s)) in
  let+ new_id := on_signer (rotate io_error torn dir draw steps) (λ e, Internal (prefixed "rotate signing key: " e)) in
  on_db (h_call (record_audit audit_now
    (with_payload (json_object [("previous_active", JString previous); ("new_active", JString new_id)])
       (record_new (audit_actor identity) "signing.key_rotated")))) ;+
  let+ s := a_state in a_ret (bundle s).

Definition retire_signing_key (bearer now audit_now key_id : string) (steps : nat) : action SigningPubkeyBundle :=
  let+ identity := a_require_role bearer now Admin in
  let+ removed := on_signer (retire io_error dir key_id steps) (λ e, Conflict (prefixed "retire: " e)) in
  if negb removed then a_throw NotFound
  else
  on_db (h_call (record_audit audit_now
    (with_payload (json_object [("retired_key_id", JString key_id)])
       (record_new (audit_actor identity) "signing.key_retired")))) ;+
  let+ s := a_state in a_ret (bundle s).

Definition get_config_issues (bearer now : string) : action (list ConfigIssue) :=
  let+ _ := a_require_role bearer now Admin in
  let+ s := a_state in a_ret (app_config_issues s).

End Keys.
