(* ===== verification/AgentApiProps.v ===== *)
(** * Properties of the agent endpoints

    What a delivered envelope carries and what the delivery leaves in the
    database; that a delivery which fails hands its claims back; that an
    endpoint an agent calls does nothing for a caller without its token. *)

From S2P Require Import Prelude Text Net Json ApiError Routing Db AuditLog Operations Ids Dispatch Rollout RolloutProps Views Clock Handler Users Diff Drift RateLimit Agents Maintenance Secrets SecretsProps Modules Signing SigningProps Config Server OperationApi OperationApiProps AuditChain UserProps AgentApi.

#[local] Open Scope string_scope.
#[local] Open Scope list_scope.
#[local] Open Scope nat_scope.
#[local] Open Scope action_scope.

(** ** Signed envelopes *)

Section Envelopes.
Context `{JsonCodec, Sha256, JsonPointer, Ed25519, Base64} (resolve : gmap string Resolver → SecretRef → ApiResult string).

(** Every key of the set verifies what it signs with. *)
Definition paired (s : SignerState) : Prop :=
  ∀ id e, ss_keys s !! id = Some e → ke_verifying_key e = ed_public (ke_signing_key e).

Lemma signer_inv_paired g : signer_inv g → paired (sg_state g).
Proof.
  intros (_ & _ & K' & _ & _ & Hk & _) id e He. rewrite Hk, lookup_fmap in He.
  destruct (K' !! id) as [c|]; [|done]. by injection He as <-.
Qed.

(** The text an envelope's signature covers, for the agent it is sent to. *)
Definition envelope_message (agent_id : string) (e : AssignmentEnvelope) : string :=
  canonical_assignment_message agent_id (env_assignment_id e) (env_operation_id e) (env_created_at e)
    (default "" (env_expires_at e)) (payload_bytes (env_payload e)).

(** The envelope is labelled with the active key of one state, and its
    signature verifies under the active key of the other, as that state
    publishes it. *)
Definition authentic (at_sign at_key_id : SignerState) (agent_id : string) (e : AssignmentEnvelope) : Prop :=
  env_key_id e = bd_active_key_id (bundle_of at_key_id) ∧
  ∃ pk sig, mkPubkey (bd_active_key_id (bundle_of at_sign)) (b64_encode pk) ∈ bd_keys (bundle_of at_sign) ∧
    String.length pk = 32 ∧ ed_point pk = true ∧
    env_signature e = b64_encode sig ∧ String.length sig = 64 ∧
    ed_verify pk (envelope_message agent_id e) sig = true.

(** [e'] is [e] with its payload rewritten and its signature filled in. *)
Definition completes (e e' : AssignmentEnvelope) : Prop :=
  env_assignment_id e' = env_assignment_id e ∧ env_operation_id e' = env_operation_id e ∧
  env_kind e' = env_kind e ∧ env_created_at e' = env_created_at e ∧ env_expires_at e' = env_expires_at e ∧
  length (payload_resources (env_payload e')) = length (payload_resources (env_payload e)).

Lemma in_bundle (s : SignerState) id pk : (id, pk) ∈ pubkeys s → mkPubkey id pk ∈ bd_keys (bundle_of s).
Proof. intros Hp. apply elem_of_map. by exists (id, pk). Qed.

Lemma sign_envelope_authentic `{!Ed25519Laws} s s' agent_id e e' :
  paired s → sign_envelope s s' agent_id e = Ok e' →
  authentic s s' agent_id e' ∧ completes e e' ∧ env_payload e' = env_payload e.
Proof.
  intros Hp. unfold sign_envelope, sign, try_active_entry. intros Hs. destruct (ss_keys s !! ss_active_id s) as [entry|] eqn:He; [|done].
  cbn in Hs. injection Hs as <-. unfold authentic, envelope_message. cbn. split; [|done]. split; [done|].
  exists (ke_verifying_key entry). eexists. split; [apply in_bundle, (pubkeys_published _ _ _ He)|].
  rewrite (Hp _ _ He). split_and!; try done.
  - apply ed_public_length.
  - apply ed_public_point.
  - apply ed_signature_length.
  - apply ed_sign_verifies.
Qed.

Lemma build_envelope_authentic `{!Ed25519Laws} registry s s' agent_id e e' :
  paired s → build_envelope resolve registry s s' agent_id e = Ok e' → authentic s s' agent_id e' ∧ completes e e'.
Proof.
  intros Hp. unfold build_envelope, resolve_payload. intros Hb. destruct registry as [reg|]; cbn in Hb.
  - destruct (try_map _ _) as [rs|] eqn:Hr; [|done]. cbn in Hb. apply sign_envelope_authentic in Hb as (Ha & Hc & Hpl); [|done].
    split; [done|]. apply try_map_length in Hr. destruct Hc as (? & ? & ? & ? & ? & _). by split_and!; try done; rewrite Hpl.
  - by apply sign_envelope_authentic in Hb as (Ha & Hc & _).
Qed.

(** The [j]th envelope is signed at load [2j] and labelled at load [2j + 1]. *)
Lemma build_envelopes_authentic `{!Ed25519Laws} registry loads agent_id n items es :
  (∀ k, paired (loads k)) → build_envelopes resolve registry loads agent_id n items = Ok es →
  length es = length items ∧
  ∀ j e, es !! j = Some e → ∃ c, items !! j = Some c ∧ completes c e ∧
    authentic (loads (n + 2 * j)) (loads (n + 2 * j + 1)) agent_id e.
Proof.
  intros Hp. revert n es. induction items as [|c items IH]; intros n es; cbn [build_envelopes].
  - intros [= <-]. split; [done|]. by intros j e.
  - intros (e0 & He0 & (es0 & Hes & [= <-])%bind_Ok_inv)%bind_Ok_inv.
    destruct (IH _ _ Hes) as [Hlen Hall]. apply build_envelope_authentic in He0 as [Ha Hc]; [|apply Hp].
    split; [cbn; by rewrite Hlen|]. intros [|j] e; cbn [lookup list_lookup].
    + intros [= <-]. exists c. split_and!; [done..|]. by replace (n + 2 * 0) with n by lia; replace (n + 1) with (S n) by lia.
    + intros (c' & Hc' & Hcomp & Hauth)%Hall. exists c'. split_and!; [done..|].
      by replace (n + 2 * S j) with (S (S n) + 2 * j) by lia.
Qed.

End Envelopes.

(** ** Handing claims back *)

Section Claims.
Context `{JsonCodec, Sha256}.

Definition returned (ids : list string) (a : DbAssignment) : bool :=
  bool_decide (asg_id a ∈ ids) && steqb (asg_status a) AFetched.

Lemma revert_run ids d : ∃ d', revert_assignment_claims ids d = Some (Ok ((), d')) ∧
  assignments d' = update_where (returned ids) (set_asg_fetched APending None) (assignments d).
Proof.
  assert (∃ d', tx_for (λ _ id, tx_modify (update_assignments
      (λ a, seqb (asg_id a) id && steqb (asg_status a) AFetched) (set_asg_fetched APending None))) () ids d = Some (Ok ((), d')) ∧
    assignments d' = update_where (returned ids) (set_asg_fetched APending None) (assignments d)) as Hloop.
  { revert d. induction ids as [|id ids IH]; intros d.
    - exists d. split; [done|]. symmetry. by apply update_where_id.
    - cbn [tx_for]. unfold tx_bind at 1, tx_modify at 1. edestruct IH as (d' & -> & Hd'). exists d'. split; [done|].
      rewrite Hd'. cbn. unfold update_where. rewrite map_map. apply map_ext. intros a. unfold returned.
      destruct (seqb (asg_id a) id) eqn:E.
      + apply seqb_true in E. rewrite E. rewrite (bool_decide_eq_true_2 (id ∈ id :: ids)) by left. cbn [andb].
        destruct (steqb (asg_status a) AFetched) eqn:Es; cbn [asg_status set_asg_fetched].
        * cbn. by rewrite andb_false_r.
        * by rewrite Es, andb_false_r.
      + cbn [andb]. assert (asg_id a ≠ id) by (intros He; by rewrite (proj2 (seqb_true _ _) He) in E).
        replace (bool_decide (asg_id a ∈ id :: ids)) with (bool_decide (asg_id a ∈ ids)); [done|].
        apply bool_decide_ext. set_solver. }
  destruct ids as [|id ids]; [|exact Hloop]. exists d. split; [done|]. symmetry. by apply update_where_id.
Qed.

(** A claim followed by the return of what it claimed. *)
Lemma claim_returned agent now cutoff d out d1 d2 :
  NoDup (map asg_id (assignments d)) →
  fetch_pending_assignments agent now cutoff d = Some (Ok (out, d1)) →
  assignments d2 = update_where (returned (map env_assignment_id out)) (set_asg_fetched APending None) (assignments d1) →
  assignments d2 = update_where (fetch_filter agent cutoff) (set_asg_fetched APending None) (assignments d).
Proof.
  intros Hnd Hf ->. rewrite (cl_rows _ _ _ _ (fetch_claims _ _ _ _ _ _ Hf)). pose proof (fetch_envelope_ids _ _ _ _ _ _ Hf) as Hids.
  unfold update_where. rewrite map_map. apply map_ext_in. intros a Ha%list_elem_of_In. unfold returned.
  assert (asg_id a ∈ map env_assignment_id out ↔ fetch_filter agent cutoff a = true) as Hin.
  { rewrite Hids, elem_of_map. split.
    - intros (b & Hb & He). apply elem_of_List_filter in Hb as [Hb Hp].
      by assert (a = b) as -> by by apply (NoDup_map_inj asg_id (assignments d)).
    - intros Hp. exists a. split; [|done]. by apply elem_of_List_filter. }
  destruct (fetch_filter agent cutoff a) eqn:E; cbn [asg_id set_asg_fetched asg_status].
  - rewrite bool_decide_eq_true_2 by by apply Hin. done.
  - rewrite bool_decide_eq_false_2; [done|]. intros Hx%Hin. congruence.
Qed.

End Claims.

(** ** The endpoints *)

Section Endpoints.
Context `{JsonCodec, Sha256, SqlErrors, Argon2, Jiff, DiffCodec, JsonPointer, Ed25519, Base64}.
Context (resolve : gmap string Resolver → SecretRef → ApiResult string) (instant_min : Z).

Lemma a_authenticate_Ok agent_id bearer w s r s' :
  a_authenticate agent_id bearer w s = (Some (Ok r), s') →
  authenticate agent_id bearer (gd_clock w) (app_db s) = Ok r ∧ s' = s.
Proof. apply on_read_Ok. Qed.

(** A state of the signer that rotations, retirements and faults lead to. *)
Definition signer_reaches (st : SignerState) : Prop := ∃ g, signer_inv g ∧ sg_state g = st.

Lemma signer_reaches_paired st : signer_reaches st → paired st.
Proof. intros (g & Hg & <-). by apply signer_inv_paired. Qed.

(** What an agent is sent is authentic. A delivery that succeeds has
    checked the caller's token, its only effect is the claim of the agent's
    pending rows (no resolved secret is stored), and every envelope it sends
    is one of the claimed rows, signed over its own final contents with the
    key that is active at one load of the signer's state, and labelled with
    the one that is active at the next. *)
Lemma delivery_authentic `{!Ed25519Laws} agent_id bearer w s items s' :
  (∀ n, signer_reaches (signer_loads w s n)) →
  list_assignments resolve agent_id bearer w s = (Some (Ok items), s') →
  is_ok (authenticate agent_id bearer (gd_clock w) (app_db s)) = true ∧
  ∃ claimed d, fetch_pending_assignments agent_id (gd_now w) (gd_lease_cutoff w) (app_db s) = Some (Ok (claimed, d)) ∧
    s' = with_db d s ∧ length items = length claimed ∧
    ∀ j e, items !! j = Some e → ∃ c, claimed !! j = Some c ∧ completes c e ∧
      authentic (signer_loads w s (2 * j)) (signer_loads w s (2 * j + 1)) agent_id e.
Proof.
  intros Hg Hr. unfold list_assignments in Hr. act_step Hr. apply a_authenticate_Ok in Ha as [Hauth ->]. rewrite Hauth. split; [done|].
  act_step Hr. apply on_call_Ok in Ha as (d & Hf & ->). exists a0, d. split; [done|].
  act_step Hr. injection Ha as <- <-. cbn [app_secret_registry app_signer with_db] in Hr.
  destruct (build_envelopes _ _ _ _ _ _) as [es|e] eqn:Hb; [|by act_step Hr]. injection Hr as -> <-. split; [done|].
  refine (build_envelopes_authentic resolve _ _ _ 0 _ _ _ Hb). intros k. apply signer_reaches_paired, Hg.
Qed.

(** C35: A delivery that fails keeps nothing. Whatever stops it (the token,
    the database, a secret that does not resolve, the signer), either nothing
    changed, or every row it had claimed is pending again and no other row is
    touched: the agent's next poll, whenever it comes, can claim each of them. *)
Theorem failed_delivery_returns_claims agent_id bearer w s e s' :
  NoDup (map asg_id (assignments (app_db s))) →
  list_assignments resolve agent_id bearer w s = (Some (Err e), s') →
  s' = s ∨
  s' = with_db (app_db s') s ∧
  assignments (app_db s') =
    update_where (fetch_filter agent_id (gd_lease_cutoff w)) (set_asg_fetched APending None) (assignments (app_db s)) ∧
  ∀ a, a ∈ assignments (app_db s) → fetch_filter agent_id (gd_lease_cutoff w) a = true →
    ∃ a', a' ∈ assignments (app_db s') ∧ asg_id a' = asg_id a ∧ ∀ cutoff, fetch_filter agent_id cutoff a' = true.
Proof.
  intros Hnd. unfold list_assignments, a_bind at 1. unfold a_authenticate at 1, on_db at 1, h_read at 1.
  destruct (authenticate _ _ _ _) as [r|e0]; [|intros [= _ <-]; left; apply with_db_same]. rewrite with_db_same.
  unfold a_bind at 1, on_db at 1, h_call at 1. destruct (fetch_pending_assignments _ _ _ _) as [[[out d1]|e0]|] eqn:Hf.
  2: { intros [= _ <-]. left. apply with_db_same. }
  2: { done. }
  unfold a_bind at 1, a_state at 1. cbn [app_secret_registry app_signer with_db].
  destruct (build_envelopes _ _ _ _ _ _) as [es|e1]; [done|].
  destruct (revert_run (map env_assignment_id out) d1) as (d2 & Hrev & Hd2).
  unfold a_bind, a_try, on_db, h_call. cbn [app_db with_db]. rewrite Hrev. intros [= _ <-]. right. cbn. split; [done|].
  pose proof (claim_returned _ _ _ _ _ _ _ Hnd Hf Hd2) as Hrows. split; [done|]. intros a Ha Hp. eexists. split.
  - rewrite Hrows. apply elem_of_update_where. exists a. split; [done|]. by rewrite Hp.
  - split; [done|]. intros cutoff. apply andb_true_iff in Hp as [Hp _]. unfold fetch_filter. cbn. by rewrite Hp.
Qed.

(** Every endpoint an agent calls refuses, without effect, a caller whose
    token does not authenticate. *)
Lemma a_bind_refused {A B} agent_id bearer w s (f : A → action B) (m : AgentRecord → action A) e :
  authenticate agent_id bearer (gd_clock w) (app_db s) = Err e →
  a_bind (a_bind (a_authenticate agent_id bearer w) m) f s = (Some (Err e), s).
Proof. intros He. unfold a_bind, a_authenticate, on_db, h_read. by rewrite He, with_db_same. Qed.

Lemma agent_endpoints_refuse agent_id bearer w s e :
  authenticate agent_id bearer (gd_clock w) (app_db s) = Err e →
  (∀ req, heartbeat instant_min agent_id bearer req w s = (Some (Err e), s)) ∧
  (∀ items, observations instant_min agent_id bearer items w s = (Some (Err e), s)) ∧
  (∀ items, drift instant_min agent_id bearer items w s = (Some (Err e), s)) ∧
  list_assignments resolve agent_id bearer w s = (Some (Err e), s) ∧
  (∀ asg req, assignment_result agent_id asg bearer req w s = (Some (Err e), s)) ∧
  desired_state agent_id bearer w s = (Some (Err e), s) ∧
  rotate_token agent_id bearer w s = (Some (Err e), s).
Proof.
  intros He.
  assert (∀ B (f : AgentRecord → action B), a_bind (a_authenticate agent_id bearer w) f s = (Some (Err e), s)) as Hall
    by (intros; unfold a_bind, a_authenticate, on_db, h_read; by rewrite He, with_db_same).
  by repeat split; intros; apply Hall.
Qed.

(** The endpoint and the handler of [Agents.v] agree: the limiter's verdict is
    the one the real limiter gives, charged after authentication. *)
Lemma observations_refine agent_id bearer items w s r :
  authenticate agent_id bearer (gd_clock w) (app_db s) = Ok r →
  let '(verdict, l) := check_and_record_agent instant_min agent_id (gd_instant w) (app_rate_limiter s) in
  let '(out, d) := handle_observations agent_id bearer verdict items (gd_clock w) (gd_now w) (app_db s) in
  observations instant_min agent_id bearer items w s = (out, with_db d (with_limiter l s)).
Proof.
  intros Hr. unfold observations, handle_observations, a_bind, h_bind, a_authenticate, charge_agent, on_db, on_limiter, h_read, h_lift.
  rewrite Hr, with_db_same. destruct (check_and_record_agent _ _ _ _) as [[u|e] l]; [|by destruct s].
  destruct (find _ items); [by destruct s|]. cbn [app_db with_limiter]. by destruct (h_call _ (app_db s)).
Qed.

End Endpoints.

(** ** A small fleet

    A server that signs with [demo_signer], and one agent with an
    assignment, its lease run out, whose payload holds a secret reference. *)

#[local] Existing Instances demo_sha demo_jiff demo_argon demo_ed25519 demo_base64.

(** Compact JSON, without escapes. *)
Fixpoint show_json (v : Json) : string :=
  match v with
  | JNull => "null"
  | JBool b => if b then "true" else "false"
  | JNumber r => r
  | JString s => "'" +:+ s +:+ "'"
  | JArray xs => "[" +:+ str_join "," (map show_json xs) +:+ "]"
  | JObject m =>
      "{" +:+ str_join "," ((fix members (m : list (string * Json)) : list string :=
                               match m with [] => [] | (k, x) :: m => (k +:+ ":" +:+ show_json x) :: members m end) m) +:+ "}"
  end.

Definition fleet_resource (password : string) : Json :=
  JObject [("kind", JString "file"); ("metadata", JObject [("environment", JString "prod"); ("name", JString "web")]);
           ("spec", JObject [("password", JString password)])].

#[local] Instance fleet_codec : JsonCodec := {|
  json_to_string := show_json;
  json_from_str s :=
    if decide (s = "payload") then Ok (payload_json_of [fleet_resource "${secret://env/DB}"]) else Err "not JSON"
|}.
#[local] Instance fleet_sql : SqlErrors := {| unique_violation := SqlxOther "unique" |}.

Definition fleet_resolve (value : ApiResult string) (_ : gmap string Resolver) (r : SecretRef) : ApiResult string := value.

Definition fleet_assignment : DbAssignment :=
  mkAssignment "as1" "a1" "op1" "payload" "@5" (Some "@0") None AFetched "apply" None None 0 None.

Definition fleet_db : Db :=
  set_assignments [fleet_assignment]
    (set_agents [mkAgent "a1" "a1" "prod" (hash_token "tok") "@0" None None "healthy" 0 0 "{}" None "pull"] empty_db).

Definition fleet_settings : Settings :=
  mkSettings [] Retention.default_retention (mkRateConfig (Some 5%Z) None None None None) [] [] Webhook.webhooks_default tls_default
    (mkSecrets None None) DeltaSeconds [] None [] 60 10 [] None.

Definition fleet_state : AppState :=
  mkApp fleet_db (mkReloadable (mkConfig (V4 [127; 0; 0; 1]%Z, 8443%Z) "db" "/state" 0 (Some "root") fleet_settings) [])
    None (from_config (set_rate_limit fleet_settings)) maint_metrics_default (Some (Secrets.register REnv ∅)) demo_signer.

Definition fleet_draw : AgentDraw := mkAgentDraw 6 0 6 "@6" "@6" "@6" "tok2" "a2" "@1" (λ _ st, st).

Definition fleet_delivery (value : ApiResult string) : panics (ApiResult (list AssignmentEnvelope)) * AppState :=
  list_assignments (fleet_resolve value) "a1" "tok" fleet_draw fleet_state.

Definition fleet_items : list AssignmentEnvelope :=
  match (fleet_delivery (Ok "s3cret")).1 with Some (Ok items) => items | _ => [] end.

Lemma fleet_delivered : fleet_delivery (Ok "s3cret") = (Some (Ok fleet_items), (fleet_delivery (Ok "s3cret")).2).
Proof. vm_compute. reflexivity. Qed.

(** The resolved secret is in the envelope, tagged, and not in the database. *)
Example fleet_payload :
  map (λ e, payload_resources (env_payload e)) fleet_items =
    [[JObject [("kind", JString "file");
               ("metadata", JObject [("annotations", JObject [(SECRET_FIELDS_ANNOTATION, JString "/spec/password")]);
                                     ("environment", JString "prod"); ("name", JString "web")]);
               ("spec", JObject [("password", JString "s3cret")])]]] ∧
  map asg_payload_json (assignments (app_db (fleet_delivery (Ok "s3cret")).2)) = ["payload"].
Proof. split; vm_compute; reflexivity. Qed.

Example fleet_authentic : length fleet_items = 1 ∧
  ∀ e, fleet_items !! 0 = Some e → authentic (sg_state demo_signer) (sg_state demo_signer) "a1" e.
Proof.
  split; [vm_compute; reflexivity|].
  destruct (@delivery_authentic fleet_codec demo_sha demo_jiff rfc6901 demo_ed25519 demo_base64 (fleet_resolve (Ok "s3cret"))
    demo_ed25519_laws "a1" "tok" fleet_draw fleet_state fleet_items (fleet_delivery (Ok "s3cret")).2) as (_ & claimed & d & _ & _ & _ & Hall).
  - intros n. exists (app_signer fleet_state). split; [exact demo_signer_inv|reflexivity].
  - exact fleet_delivered.
  - intros e He. destruct (Hall 0 e He) as (c & _ & _ & Ha). exact Ha.
Qed.

Definition fleet_failed : AppState := (fleet_delivery (Err NotFound)).2.

Lemma fleet_refused : fleet_delivery (Err NotFound) = (Some (Err NotFound), fleet_failed).
Proof. vm_compute. reflexivity. Qed.

Lemma failed_delivery_returns_claims_witness :
  fleet_failed ≠ fleet_state ∧
  map (λ a, (asg_id a, asg_status a)) (assignments (app_db fleet_failed)) = [("as1", APending)] ∧
  assignments (app_db fleet_failed) =
    update_where (fetch_filter "a1" "@1") (set_asg_fetched APending None) (assignments (app_db fleet_state)).
Proof.
  assert (fleet_failed ≠ fleet_state) as Hne.
  { intros He. apply (f_equal (λ s, map asg_status (assignments (app_db s)))) in He. vm_compute in He. discriminate He. }
  split; [exact Hne|]. split; [vm_compute; reflexivity|].
  destruct (@failed_delivery_returns_claims fleet_codec demo_sha demo_jiff rfc6901 demo_ed25519 demo_base64
    (fleet_resolve (Err NotFound)) "a1" "tok" fleet_draw fleet_state NotFound fleet_failed) as [He|(_ & Hrows & _)].
  - apply NoDup_singleton.
  - exact fleet_refused.
  - contradiction.
  - exact Hrows.
Defined.

(** A rotation between the two loads of the signer's state: the envelope is
    signed with the old key and labelled with the new one, under which its
    signature does not verify. *)
Lemma rotation_mislabels :
  let before := sg_state demo_signer in
  let after := sg_state (demo_rotate "01B" 100 demo_signer).2 in
  match fleet_items with
  | e :: _ =>
      match sign_envelope before after "a1" e with
      | Ok e' =>
          env_key_id e' = "01B" ∧
          (λ k, ed_verify (ke_verifying_key k) (envelope_message "a1" e') (env_signature e')) <$> ss_keys after !! "01B" = Some false ∧
          (λ k, ed_verify (ke_verifying_key k) (envelope_message "a1" e') (env_signature e')) <$> ss_keys after !! "01A" = Some true
      | Err _ => False
      end
  | [] => False
  end.
Proof. vm_compute. split_and!; reflexivity. Qed.

(** The keys endpoint publishes what a rotation keeps. *)
Example bundle_after_rotation :
  let b := bundle_of (sg_state (demo_rotate "01B" 100 demo_signer).2) in
  (bd_active_key_id b, map pk_key_id (bd_keys b)) = ("01B", ["01A"; "01B"]).
Proof. vm_compute. reflexivity. Qed.
