(* ===== verification/Remote.v ===== *)
(** * The agent's client (crates/iac-agent/src/remote.rs)

    Registration, the identity file, the pinned set of server keys and the
    rules by which it is replaced, the verification of an assignment, the
    token's rotation, and the adaptive push of observations. The network is a
    function of the request on an arbitrary state of the other side; the
    identity file is on a disk whose every mutation may be the last. *)

From S2P Require Import Prelude Text Json ApiError Routing Db AuditLog Ids Dispatch Views Clock Diff Drift Agents Secrets Signing RateLimit AgentApi.

#[local] Open Scope string_scope.
#[local] Open Scope list_scope.
#[local] Open Scope nat_scope.
#[local] Open Scope fs_scope.

(** ** Requests and responses *)

Definition OBSERVATION_PUSH_CHUNK : nat := 500.

Inductive Body :=
| NoBody
| BRegister (r : RegisterRequest)
| BObservations (items : list ObservationItem)
| BDrift (items : list DriftItem)
| BHeartbeat (r : HeartbeatRequest) (last_observe_at : option string)
| BResult (r : AssignmentResultRequest).

Record Request := mkRequest {
  rq_method : string;
  rq_url : string;
  rq_bearer : option string;
  rq_enrollment : option string;
  rq_body : Body
}.

Record HttpResponse := mkHttp { ht_status : Z; ht_text : string }.

Definition PAYLOAD_TOO_LARGE : Z := 413.
Definition is_success (r : HttpResponse) : bool := ((200 <=? ht_status r) && (ht_status r <? 300))%Z.

(** The JSON of the responses (serde). *)
Class WireCodec := {
  decode_register : string → result string AgentCredentials;
  decode_bundle : string → result string SigningPubkeyBundle;
  decode_assignments : string → result string (list AssignmentEnvelope);
  decode_desired : string → result string (list DesiredStateItem)
}.

(** The text of a status code with its reason. *)
Class StatusText := status_reason : Z → string.
Definition show_status `{StatusText} (r : HttpResponse) : message := [Dec (ht_status r); Txt " "; Ext (status_reason (ht_status r))].

(** ** Identity *)

Record ServerPubkey := mkServerPubkey { sp_key_id : string; sp_public_key : string }.

Record Identity := mkIdentity {
  id_agent_id : string;
  id_token : string;
  id_server_url : string;
  id_registered_at : string;
  id_server_pubkeys : list ServerPubkey;
  id_server_key_id : option string;
  id_server_public_key : option string;
  id_token_expires_at : option string
}.

Definition migrate_legacy_pubkey (i : Identity) : Identity :=
  match id_server_pubkeys i, id_server_key_id i, id_server_public_key i with
  | [], Some id, Some pk =>
      mkIdentity (id_agent_id i) (id_token i) (id_server_url i) (id_registered_at i) [mkServerPubkey id pk]
        (id_server_key_id i) (id_server_public_key i) (id_token_expires_at i)
  | _, _, _ => i
  end.

(** The pinned set becomes the bundle's; the old fields name the active key. *)
Definition pin_bundle (b : SigningPubkeyBundle) (i : Identity) : Identity :=
  mkIdentity (id_agent_id i) (id_token i) (id_server_url i) (id_registered_at i)
    (map (λ k, mkServerPubkey (pk_key_id k) (pk_public_key k)) (bd_keys b))
    (Some (bd_active_key_id b))
    (pk_public_key <$> List.find (λ k, bool_decide (pk_key_id k = bd_active_key_id b)) (bd_keys b))
    (id_token_expires_at i).

Definition set_token (c : AgentCredentials) (i : Identity) : Identity :=
  mkIdentity (id_agent_id i) (cr_token c) (id_server_url i) (id_registered_at i) (id_server_pubkeys i)
    (id_server_key_id i) (id_server_public_key i) (cr_expires_at c).

(** serde_json's text of the identity file. *)
Class IdentityCodec := {
  identity_to_text : Identity → string;
  identity_from_text : string → result string Identity
}.
Class IdentityLaws `{IdentityCodec} := { identity_round i : identity_from_text (identity_to_text i) = Ok i }.

Record Client := mkClient {
  cl_base_url : string;
  cl_identity : Identity;
  cl_verifiers : gmap string string
}.

(** What the client sees: the other side, the identity file and its temporary. *)
Record Host (W : Type) := mkHost { ho_net : W; ho_file : option string; ho_tmp : option string }.
Arguments mkHost {W}.
Arguments ho_net {W}.
Arguments ho_file {W}.
Arguments ho_tmp {W}.

Definition set_net {W} (w : W) (h : Host W) : Host W := mkHost w (ho_file h) (ho_tmp h).
Definition set_tmp {W} (t : option string) (h : Host W) : Host W := mkHost (ho_net h) (ho_file h) t.
(** [rename(tmp, path)]. *)
Definition rename_tmp {W} (h : Host W) : Host W :=
  match ho_tmp h with Some t => mkHost (ho_net h) (Some t) None | None => h end.

(** [r?]. *)
Definition fs_lift {S A} (r : result Anyhow A) : fs_on S A := λ d n, (r, d, n).

(** ** Keys *)

(** The rules for a bundle from the network: at least one pinned id, and no
    pinned id with other contents. The map keeps the last of several keys
    with one id. *)
Definition overlaps (pinned : list ServerPubkey) (keys : list SigningPubkey) : bool :=
  existsb (λ k, bool_decide (pk_key_id k ∈ map sp_key_id pinned)) keys.

Definition by_id (keys : list SigningPubkey) : gmap string string :=
  foldl (λ m k, <[pk_key_id k := pk_public_key k]> m) ∅ keys.

Definition diverged (pinned : list ServerPubkey) (keys : list SigningPubkey) : option ServerPubkey :=
  List.find (λ p, match by_id keys !! sp_key_id p with
                  | Some pk => negb (bool_decide (pk = sp_public_key p))
                  | None => false
                  end) pinned.

Section Verification.
Context `{Ed25519, Base64}.

(** The body of the loop over the pinned keys. *)
Definition verifier_of (out : gmap string string) (entry : ServerPubkey) : result Anyhow (gmap string string) :=
  bytes ← map_err (λ e, [[Txt "decoding pubkey for "; Txt (sp_key_id entry)]; [Ext e]]) (b64_decode (sp_public_key entry));
  if negb (String.length bytes =? 32) then
    Err [[Txt "pubkey for "; Txt (sp_key_id entry); Txt " is "; Dec (Z.of_nat (String.length bytes)); Txt " bytes, expected 32"]]
  else if negb (ed_point bytes) then Err [[Txt "constructing VerifyingKey for "; Txt (sp_key_id entry)]; [Ext "signature error"]]
  else Ok (<[sp_key_id entry := bytes]> out).

Definition build_verifier_set (i : Identity) : result Anyhow (gmap string string) :=
  try_fold verifier_of ∅ (id_server_pubkeys i).

End Verification.

(** ** Freshness *)

Definition FUTURE_GRACE_SECS : Z := 300.

(** [Timestamp::as_second]: truncated towards zero. *)
Definition as_second (t : Z) : Z := Z.quot t NANOS.

(** [a.saturating_sub(b)] on [i64]. *)
Definition i64_sat_sub (a b : Z) : Z := Z.max (- 2 ^ 63) (Z.min i64_max (a - b)).

Section Freshness.
Context `{Jiff}.

Definition check_envelope_freshness (now : Z) (created_at : string) (max_age future_grace : Z) : result Anyhow () :=
  match ts_parse created_at with
  | Err _ => Err [[Txt "envelope created_at "; Dbg created_at; Txt " unparseable — refusing to verify"]]
  | Ok created =>
      let age := i64_sat_sub (as_second now) (as_second created) in
      if (u64_as_i64 max_age <? age)%Z then
        Err [[Txt "envelope created_at "; Txt created_at; Txt " is "; Dec age; Txt "s old (cap "; Dec max_age; Txt "s) — replay rejected"]]
      else if (age <? - future_grace)%Z then
        Err [[Txt "envelope created_at "; Txt created_at; Txt " is "; Dec (- age); Txt "s in the future (grace ";
              Dec future_grace; Txt "s) — replay rejected"]]
      else Ok ()
  end.

(** The two environment variables. *)
Definition max_envelope_age_secs (disable max_age : option string) : option Z :=
  if decide (disable = Some "1") then None
  else Some (default (24 * 60 * 60)%Z (s ← max_age; parse_unsigned u64_max s)).

Definition check_expiry (now : Z) (expires_at : option string) : result Anyhow () :=
  match expires_at with
  | None => Ok ()
  | Some exp_str =>
      match ts_parse exp_str with
      | Ok exp =>
          let overdue := i64_sat_sub (as_second now) (as_second exp) in
          if (FUTURE_GRACE_SECS <? overdue)%Z then
            Err [[Txt "envelope expires_at "; Dbg exp_str; Txt " already past (overdue by "; Dec overdue; Txt "s) — refusing to verify"]]
          else Ok ()
      | Err _ => Err [[Txt "envelope expires_at "; Dbg exp_str; Txt " unparseable — refusing to verify"]]
      end
  end.

Context `{JsonCodec, Sha256, Ed25519, Base64}.

(** [max_age]: what [max_envelope_age_secs] returned. *)
Definition verify_envelope (c : Client) (max_age : option Z) (now : Z) (env : AssignmentEnvelope) : result Anyhow () :=
  if decide (cl_verifiers c = ∅) then Err [[Txt "agent has no pinned server pubkeys — can't verify"]]
  else
  verifier ← ok_or (cl_verifiers c !! env_key_id env)
    [[Txt "envelope key_id "; Txt (env_key_id env); Txt " not in pinned set ("; Dec (Z.of_nat (size (cl_verifiers c))); Txt " keys pinned)"]];
  _ ← match max_age with
      | Some max_age => check_envelope_freshness now (env_created_at env) max_age FUTURE_GRACE_SECS
      | None => Ok ()
      end;
  _ ← check_expiry now (env_expires_at env);
  let msg := canonical_assignment_message (id_agent_id (cl_identity c)) (env_assignment_id env) (env_operation_id env)
               (env_created_at env) (default "" (env_expires_at env)) (payload_bytes (env_payload env)) in
  sig_bytes ← map_err (λ e, [[Txt "decoding base64 signature"]; [Ext e]]) (b64_decode (env_signature env));
  if negb (String.length sig_bytes =? 64) then Err [[Txt "constructing Signature from bytes"]; [Ext "signature error"]]
  else if ed_verify verifier msg sig_bytes then Ok ()
  else Err [[Txt "Ed25519 signature verification failed"]; [Ext "signature error"]].

(** The list is all or nothing. *)
Definition verify_all (c : Client) (max_age : option Z) (now : AssignmentEnvelope → Z) (items : list AssignmentEnvelope)
    : result Anyhow (list AssignmentEnvelope) :=
  _ ← try_map (λ env, map_err (λ e, [Txt "verifying signature on assignment "; Txt (env_assignment_id env)] :: e)
                        (verify_envelope c max_age (now env) env)) items;
  Ok items.

(** ** Tokens *)

Definition token_seconds_until_expiry (c : Client) (now : Z) : option Z :=
  exp ← id_token_expires_at (cl_identity c);
  match ts_parse exp with Ok exp => Some (Z.max 0 (as_second exp - as_second now)) | Err _ => None end.

End Freshness.

(** ** The client's calls *)

Section Client.
Context {W : Type} (http : Request → W → result string HttpResponse * W).
Context (io_error : string → string) (torn path parent : string).
Context `{Jiff, JsonCodec, Sha256, Ed25519, Base64, WireCodec, StatusText, IdentityCodec}.

Abbreviation net := (fs_on (Host W)).

(** [req.send().await]. *)
Definition send (what : message) (rq : Request) : net HttpResponse := λ h n,
  let '(r, w) := http rq (ho_net h) in
  (map_err (λ e, [what; [Ext e]]) r, set_net w h, n).

(** [resp.json().await]. *)
Definition decoded {A} (what : message) (r : result string A) : net A := fs_lift (map_err (λ e, [what; [Ext e]]) r).

Definition check_ok (r : HttpResponse) : net () :=
  if is_success r then fs_ret () else fs_bail ([Txt "control-plane returned "] ++ show_status r ++ [Txt ": "; Ext (ht_text r)]).
Definition check_ok_status (r : HttpResponse) : net () :=
  if is_success r then fs_ret () else fs_bail ([Txt "control-plane returned "] ++ show_status r).

Definition get (url : string) (bearer : option string) : Request := mkRequest "GET" url bearer None NoBody.
Definition post (url : string) (bearer : string) (body : Body) : Request := mkRequest "POST" url (Some bearer) None body.

(** [{base_url}/v1/agents/{id}/{what}]. *)
Definition agent_url (c : Client) (what : string) : string :=
  cl_base_url c +:+ "/v1/agents/" +:+ id_agent_id (cl_identity c) +:+ "/" +:+ what.
Definition bearer_of (c : Client) : string := id_token (cl_identity c).

Definition persist_identity (i : Identity) : net () :=
  fs_context [Txt "creating identity dir "; Ext parent] (fs_step io_error "mkdir" id id) ;*
  fs_step io_error "write" (set_tmp (Some (identity_to_text i))) (set_tmp (Some torn)) ;*
  fs_step io_error "chmod" id id ;*
  fs_context [Txt "renaming identity file "; Ext path] (fs_step io_error "rename" rename_tmp id).

Definition fetch_signing_bundle (base_url : string) : net SigningPubkeyBundle :=
  let* resp := send [Txt "GET /v1/signing-keys"] (get (base_url +:+ "/v1/signing-keys") None) in
  check_ok_status resp ;*
  let* b := decoded [Txt "decoding signing bundle"] (decode_bundle (ht_text resp)) in
  if decide (bd_keys b = []) then fs_bail [Txt "server returned empty signing bundle"]
  else if negb (existsb (λ k, bool_decide (pk_key_id k = bd_active_key_id b)) (bd_keys b)) then
    fs_bail [Txt "server bundle is inconsistent: active_key_id "; Txt (bd_active_key_id b); Txt " not in keys"]
  else fs_ret b.

(** *** Connecting *)

Definition load_identity : net Identity :=
  let* text := fs_context [Txt "reading identity file "; Ext path] (fs_read io_error "read" ho_file) in
  let* i := decoded [Txt "parsing identity file "; Ext path] (identity_from_text text) in
  fs_ret (migrate_legacy_pubkey i).

(** [enrollment]: the variable [IAC_ENROLLMENT_TOKEN]. *)
Definition register_agent (server_url : string) (enrollment : option string) (register : RegisterRequest) (now : Z) : net Identity :=
  let token := (t ← enrollment; if decide (t = "") then None else Some t) in
  let* resp := send [Txt "registering with control-plane"]
                 (mkRequest "POST" (server_url +:+ "/v1/agents/register") None token (BRegister register)) in
  if negb (is_success resp) then
    fs_bail ([Txt "register failed: "] ++ show_status resp ++ [Txt ": "; Ext (ht_text resp)])
  else
  let* creds := decoded [Txt "decoding register response"] (decode_register (ht_text resp)) in
  let i := mkIdentity (cr_agent_id creds) (cr_token creds) (trim_end_slash server_url) (ts_print now) [] None None (cr_expires_at creds) in
  persist_identity i ;* fs_ret i.

(** What a bundle does to the identity, and the identity's persistence. *)
Definition accept_bundle (b : SigningPubkeyBundle) (i : Identity) : net Identity :=
  match id_server_pubkeys i with
  | [] => persist_identity (pin_bundle b i) ;* fs_ret (pin_bundle b i)
  | pinned =>
      if negb (overlaps pinned (bd_keys b)) then
        fs_bail [Txt "server signing bundle has no overlap with pinned keys — refusing to update silently. If the rotation was intended, clear `server_pubkeys` in ";
                 Ext path; Txt " after manual verification"]
      else
      match diverged pinned (bd_keys b) with
      | Some p => fs_bail [Txt "pinned key "; Txt (sp_key_id p); Txt " pubkey diverged from server — refusing"]
      | None => persist_identity (pin_bundle b i) ;* fs_ret (pin_bundle b i)
      end
  end.

Definition connect (server_url : string) (enrollment : option string) (register : RegisterRequest) (now : Z) : net Client :=
  let* h := fs_get in
  let* identity := (match ho_file h with Some _ => load_identity | None => register_agent server_url enrollment register now end) in
  let base_url := trim_end_slash server_url in
  let* b := fs_context [Txt "fetching server signing bundle"] (fetch_signing_bundle base_url) in
  let* identity := accept_bundle b identity in
  let* verifiers := fs_lift (build_verifier_set identity) in
  fs_ret (mkClient base_url identity verifiers).

(** *** With a connected client; a call that fails leaves the client as it was. *)

(** A call through [&mut self]. *)
Definition updating {A} (c : Client) (m : net (A * Client)) : Host W → nat → (result Anyhow A * Client) * Host W * nat := λ h n,
  match m h n with
  | (Ok (a, c'), h', n') => (Ok a, c', h', n')
  | (Err e, h', n') => (Err e, c, h', n')
  end.

Definition refresh_body (c : Client) : net (() * Client) :=
  let* b := fs_context [Txt "fetching server signing bundle for refresh"] (fetch_signing_bundle (cl_base_url c)) in
  let i := cl_identity c in
  if negb (overlaps (id_server_pubkeys i) (bd_keys b)) then
    fs_bail [Txt "refresh: server bundle has no overlap with pinned keys; not updating"]
  else
  match diverged (id_server_pubkeys i) (bd_keys b) with
  | Some p => fs_bail [Txt "refresh: pinned key "; Txt (sp_key_id p); Txt " pubkey diverged from server"]
  | None =>
      let new_identity := pin_bundle b i in
      persist_identity new_identity ;*
      let* verifiers := fs_lift (build_verifier_set new_identity) in
      fs_ret ((), mkClient (cl_base_url c) new_identity verifiers)
  end.
Definition refresh_signing_keys (c : Client) := updating c (refresh_body c).

Definition rotate_body (c : Client) : net (() * Client) :=
  let* resp := send [Txt "rotating token"] (post (agent_url c "rotate-token") (bearer_of c) NoBody) in
  if negb (is_success resp) then
    fs_bail ([Txt "rotate-token failed: "] ++ show_status resp ++ [Txt ": "; Ext (ht_text resp)])
  else
  let* creds := decoded [Txt "decoding rotate response"] (decode_register (ht_text resp)) in
  let new_identity := set_token creds (cl_identity c) in
  persist_identity new_identity ;*
  fs_ret ((), mkClient (cl_base_url c) new_identity (cl_verifiers c)).
Definition rotate_token (c : Client) := updating c (rotate_body c).

(** [Ok(None)]: nothing to do. *)
Definition rotate_if_needed (c : Client) (safety_margin_secs now : Z) :=
  updating c
    (match token_seconds_until_expiry c now with
     | None => fs_ret (None, c)
     | Some remaining =>
         if (safety_margin_secs <? remaining)%Z then fs_ret (None, c)
         else let* r := rotate_body c in fs_ret (Some (), r.2)
     end).

(** *** Pushing *)

(** A request of the push with what became of it. *)
Inductive PushOutcome := Accepted | Halved | Dropped.

Section Push.
Context (c : Client).

(** One request of the work stack. *)
Definition push_chunk (chunk : list ObservationItem) : net HttpResponse :=
  send [Txt "pushing observations"] (post (agent_url c "observations") (bearer_of c) (BObservations chunk)).

(** The loop over the work stack, with the log of its requests; [None]: out
    of fuel. *)
Fixpoint push_loop (fuel : nat) (total : Z) (log : list (list ObservationItem * PushOutcome))
    (stack : list (list ObservationItem)) : net (option (Z * list (list ObservationItem * PushOutcome))) :=
  match fuel with
  | O => fs_ret None
  | S fuel =>
      match stack with
      | [] => fs_ret (Some (total, log))
      | chunk :: stack =>
          let* resp := push_chunk chunk in
          if is_success resp then
            push_loop fuel (Z.min u32_max (total + u32_try_from (Z.of_nat (length chunk)))) (log ++ [(chunk, Accepted)]) stack
          else if (ht_status resp =? PAYLOAD_TOO_LARGE)%Z then
            if length chunk <=? 1 then push_loop fuel total (log ++ [(chunk, Dropped)]) stack
            else
              let mid := length chunk / 2 in
              push_loop fuel total (log ++ [(chunk, Halved)]) (take mid chunk :: drop mid chunk :: stack)
          else fs_bail ([Txt "control-plane returned "] ++ show_status resp ++ [Txt ": "; Ext (ht_text resp)])
      end
  end.

Definition push_fuel (items : list ObservationItem) : nat := S (2 * length items).

Definition push_observations (items : list ObservationItem) : net (option (Z * list (list ObservationItem * PushOutcome))) :=
  match items with
  | [] => fs_ret (Some (0%Z, []))
  | _ => push_loop (push_fuel items) 0 [] (chunks OBSERVATION_PUSH_CHUNK items)
  end.

(** *** The other calls *)

Definition push_drift (items : list DriftItem) : net () :=
  let* resp := send [Txt "pushing drift"] (post (agent_url c "drift") (bearer_of c) (BDrift items)) in
  check_ok resp.

(** [max_age] and the clock: see [verify_envelope]. *)
Definition fetch_assignments (max_age : option Z) (now : AssignmentEnvelope → Z) : net (list AssignmentEnvelope) :=
  let* resp := send [Txt "fetching assignments"] (get (agent_url c "assignments") (Some (bearer_of c))) in
  check_ok_status resp ;*
  let* items := decoded [Txt "decoding assignment list"] (decode_assignments (ht_text resp)) in
  fs_lift (verify_all c max_age now items).

Definition fetch_desired_state : net (list DesiredStateItem) :=
  let* resp := send [Txt "fetching desired-state"] (get (agent_url c "desired-state") (Some (bearer_of c))) in
  check_ok_status resp ;*
  decoded [Txt "decoding desired-state"] (decode_desired (ht_text resp)).

Definition report_assignment (assignment_id : string) (result : AssignmentResultRequest) : net () :=
  let* resp := send [Txt "reporting assignment"]
                 (post (agent_url c ("assignments/" +:+ assignment_id +:+ "/result")) (bearer_of c) (BResult result)) in
  check_ok resp.

Definition heartbeat (status : AgentHealth) (managed open_drifts : Z) (last_observe_at : option string) : net () :=
  let* resp := send [Txt "sending heartbeat"]
                 (post (agent_url c "heartbeat") (bearer_of c) (BHeartbeat (mkHeartbeat status managed open_drifts) last_observe_at)) in
  check_ok resp.

End Push.

End Client.
