(* ===== verification/RemoteProps.v ===== *)
(** * Properties of the agent's client

    What an accepted assignment proves; that what the control plane delivers
    is accepted; how the pinned keys change; what the identity file holds
    after any fault; that the push of observations ends and loses nothing
    silently. *)

From S2P Require Import Prelude Text Json ApiError Routing Db AuditLog AuditChain Operations Ids Dispatch Views Clock Handler Users UserProps Diff Drift RateLimit Agents AgentProps Maintenance Secrets SecretsProps Signing SigningProps Config Server OperationApi AgentApi AgentApiProps Remote.

#[local] Open Scope string_scope.
#[local] Open Scope list_scope.
#[local] Open Scope nat_scope.
#[local] Open Scope fs_scope.

(** ** The verification decides *)

Section Verification.
Context `{Jiff, JsonCodec, Sha256, Ed25519, Base64}.

(** The age of an envelope in seconds, and its window. *)
Definition fresh (max_age : option Z) (now : Z) (env : AssignmentEnvelope) : Prop :=
  ∀ m, max_age = Some m → ∃ created, ts_parse (env_created_at env) = Ok created ∧
    (- FUTURE_GRACE_SECS ≤ i64_sat_sub (as_second now) (as_second created) ≤ u64_as_i64 m)%Z.

Definition unexpired (now : Z) (env : AssignmentEnvelope) : Prop :=
  ∀ s, env_expires_at env = Some s → ∃ exp, ts_parse s = Ok exp ∧
    (i64_sat_sub (as_second now) (as_second exp) ≤ FUTURE_GRACE_SECS)%Z.

(** The signature verifies under the key pinned with the envelope's id. *)
Definition signed_under (c : Client) (env : AssignmentEnvelope) : Prop :=
  ∃ key sig, cl_verifiers c !! env_key_id env = Some key ∧ b64_decode (env_signature env) = Ok sig ∧
    String.length sig = 64 ∧ ed_verify key (envelope_message (id_agent_id (cl_identity c)) env) sig = true.

Lemma freshness_decides now created max_age :
  is_ok (check_envelope_freshness now created max_age FUTURE_GRACE_SECS) = true ↔
  ∃ t, ts_parse created = Ok t ∧
    (- FUTURE_GRACE_SECS ≤ i64_sat_sub (as_second now) (as_second t) ≤ u64_as_i64 max_age)%Z.
Proof.
  unfold check_envelope_freshness. destruct (ts_parse created) as [t|e]; [|split; [done|by intros (? & ? & _)]].
  destruct (Z.ltb_spec (u64_as_i64 max_age) (i64_sat_sub (as_second now) (as_second t))) as [Hlt|Hle].
  { split; [done|]. intros (t' & [= <-] & ?). exfalso. lia. }
  destruct (Z.ltb_spec (i64_sat_sub (as_second now) (as_second t)) (- FUTURE_GRACE_SECS)) as [Hlt|Hge].
  { split; [done|]. intros (t' & [= <-] & ?). exfalso. lia. }
  split; [|done]. intros _. exists t. split; [done|]. lia.
Qed.

Lemma expiry_decides now env : is_ok (check_expiry now (env_expires_at env)) = true ↔ unexpired now env.
Proof.
  unfold check_expiry, unexpired. destruct (env_expires_at env) as [s|]; [|by split].
  destruct (ts_parse s) as [exp|e] eqn:Hp.
  - destruct (Z.ltb_spec FUTURE_GRACE_SECS (i64_sat_sub (as_second now) (as_second exp))) as [Hlt|Hle]; split; try done.
    + intros Hu. destruct (Hu s eq_refl) as (exp' & He & ?). rewrite Hp in He. injection He as <-. exfalso. lia.
    + intros _ s' [= <-]. eauto.
  - split; [done|]. intros Hu. destruct (Hu s eq_refl) as (? & ? & _). congruence.
Qed.

Lemma is_ok_unit {E} (r : result E ()) : is_ok r = true → r = Ok ().
Proof. by destruct r as [[]|]. Qed.

Lemma verify_envelope_decides c max_age now env :
  verify_envelope c max_age now env = Ok () ↔ signed_under c env ∧ fresh max_age now env ∧ unexpired now env.
Proof.
  unfold verify_envelope, signed_under. rewrite <- expiry_decides. case_decide as Hempty.
  { split; [done|]. rewrite Hempty. by intros [(? & ? & [=] & _) _]. }
  destruct (cl_verifiers c !! env_key_id env) as [key|]; cbn [ok_or mbind result_bind]; [|split; [done|by intros [(? & ? & [=] & _) _]]].
  assert (is_ok (match max_age with Some m => check_envelope_freshness now (env_created_at env) m FUTURE_GRACE_SECS | None => Ok () end) = true
          ↔ fresh max_age now env) as <-.
  { unfold fresh. destruct max_age as [m|]; [|done]. rewrite freshness_decides. split; [by intros Hf m' [= <-]|]. intros Hf. by apply Hf. }
  destruct (match max_age with Some m => _ | None => Ok () end) as [[]|]; cbn [mbind result_bind]; [|split; [done|by intros (_ & ? & _)]].
  destruct (check_expiry now (env_expires_at env)) as [[]|]; cbn [mbind result_bind]; [|split; [done|by intros (_ & _ & ?)]].
  destruct (b64_decode (env_signature env)) as [sig|]; cbn [map_err mbind result_bind]; [|split; [done|by intros [(? & ? & _ & [=] & _) _]]].
  destruct (Nat.eqb_spec (String.length sig) 64) as [Hl|Hl]; cbn [negb]; [|split; [done|intros [(? & ? & _ & [= <-] & ? & _) _]; done]].
  change (canonical_assignment_message _ _ _ _ _ _) with (envelope_message (id_agent_id (cl_identity c)) env).
  destruct (ed_verify key _ sig) eqn:Hv; split; try done.
  - intros _. split; [|done]. by exists key, sig.
  - intros [(key' & sig' & [= <-] & [= <-] & _ & ?) _]. congruence.
Qed.

(** The window of the age check is an interval around the clock, unless the
    configured age has its top bit set: then no envelope passes. *)
Lemma freshness_wraps now created max_age t :
  (2 ^ 63 ≤ max_age < 2 ^ 64)%Z → ts_parse created = Ok t → (- 2 ^ 62 ≤ as_second now - as_second t)%Z →
  (max_age < 2 ^ 64 - 2 ^ 62)%Z →
  is_ok (check_envelope_freshness now created max_age FUTURE_GRACE_SECS) = false.
Proof.
  intros Hm Hp Ha Hm2. apply not_true_iff_false. rewrite freshness_decides. intros (t' & Ht & [Hlo Hhi]). rewrite Hp in Ht. injection Ht as <-.
  assert (u64_as_i64 max_age = max_age - 2 ^ 64)%Z as Hw.
  { unfold u64_as_i64, wrap_signed. change (2 ^ (64 - 1))%Z with (2 ^ 63)%Z.
    replace (max_age + 2 ^ 63)%Z with ((max_age - 2 ^ 63) + 1 * 2 ^ 64)%Z by lia. rewrite Z_mod_plus_full, Z.mod_small by lia. lia. }
  rewrite Hw in Hhi. unfold i64_sat_sub, FUTURE_GRACE_SECS, i64_max in *. lia.
Qed.

(** The kind of an envelope is outside its signature. *)
Lemma kind_unsigned c max_age now env kind :
  verify_envelope c max_age now
    (mkEnvelope (env_assignment_id env) (env_operation_id env) kind (env_created_at env) (env_expires_at env)
       (env_payload env) (env_key_id env) (env_signature env)) = verify_envelope c max_age now env.
Proof. done. Qed.

End Verification.

(** ** What the server publishes is what the agent pins *)

Section Bundle.
Context `{Ed25519, Base64}.

(** A published key that the agent can load, with its bytes. *)
Definition loads_as (text pk : string) : Prop := b64_decode text = Ok pk ∧ String.length pk = 32 ∧ ed_point pk = true.

Lemma verifiers_load (keys : list SigningPubkey) out :
  (∀ k, k ∈ keys → ∃ pk, loads_as (pk_public_key k) pk) → NoDup (map pk_key_id keys) →
  ∃ V, try_fold verifier_of out (map (λ k, mkServerPubkey (pk_key_id k) (pk_public_key k)) keys) = Ok V ∧
    (∀ k pk, k ∈ keys → loads_as (pk_public_key k) pk → V !! pk_key_id k = Some pk) ∧
    (∀ id, id ∉ map pk_key_id keys → V !! id = out !! id).
Proof.
  revert out. induction keys as [|k keys IH]; intros out Hl Hnd.
  { exists out. split; [done|]. split; [|done]. by intros ? ? ?%elem_of_nil. }
  apply NoDup_cons in Hnd as [Hk Hnd]. destruct (Hl k) as (pk & Hd & Hlen & Hp); [left|].
  destruct (IH (<[pk_key_id k := pk]> out)) as (V & HV & Hin & Hout); [intros; apply Hl; by right|done|].
  exists V. split; [|split].
  - assert (verifier_of out (mkServerPubkey (pk_key_id k) (pk_public_key k)) = Ok (<[pk_key_id k := pk]> out)) as Hv.
    { unfold verifier_of. cbn. rewrite Hd. cbn. by rewrite Hlen, Hp. }
    simpl. rewrite Hv. exact HV.
  - intros k' pk' [->|Hk']%elem_of_cons Hl'; [|by eapply Hin].
    rewrite Hout by exact Hk. destruct Hl' as [Hd' _]. rewrite Hd in Hd'. injection Hd' as <-. by rewrite lookup_insert_eq.
  - intros id Hid. rewrite Hout; [|intros Hx; apply Hid; by right]. apply lookup_insert_ne. intros <-. apply Hid. left.
Qed.

Lemma pubkeys_ids (s : SignerState) : NoDup (map fst (pubkeys s)).
Proof.
  unfold pubkeys. rewrite (order_by_perm _ _). rewrite map_map. cbn. apply NoDup_fst_map_to_list.
Qed.

Lemma pubkeys_entry (s : SignerState) id text :
  (id, text) ∈ pubkeys s → ∃ e, ss_keys s !! id = Some e ∧ text = b64_encode (ke_verifying_key e).
Proof.
  unfold pubkeys. rewrite (order_by_perm _ _). rewrite elem_of_map. intros ([id' e] & He%elem_of_map_to_list & [= -> ->]). eauto.
Qed.

Context `{!Ed25519Laws, !Base64Laws}.

Lemma bundle_loads (s : SignerState) k :
  paired s → k ∈ bd_keys (bundle_of s) →
  ∃ e, ss_keys s !! pk_key_id k = Some e ∧ loads_as (pk_public_key k) (ke_verifying_key e).
Proof.
  intros Hp ([id text] & Hin & ->)%elem_of_map. apply pubkeys_entry in Hin as (e & He & ->). exists e. split; [done|].
  cbn. rewrite (Hp _ _ He). split; [apply b64_round|]. split; [apply ed_public_length|apply ed_public_point].
Qed.

(** A key that two states share is published by both. *)
Lemma republished (s s' : SignerState) id text :
  ss_keys s' !! id = ss_keys s !! id → mkPubkey id text ∈ bd_keys (bundle_of s) → mkPubkey id text ∈ bd_keys (bundle_of s').
Proof.
  intros Hk ([id' text'] & Hin & [= -> ->])%elem_of_map. apply pubkeys_entry in Hin as (e & He & ->).
  apply in_bundle, pubkeys_published. by rewrite Hk.
Qed.

(** Pinning a bundle gives a verifier for every key it names. *)
Lemma pinned_bundle (s : SignerState) i :
  paired s → ∃ V, build_verifier_set (pin_bundle (bundle_of s) i) = Ok V ∧
    ∀ k pk, k ∈ bd_keys (bundle_of s) → loads_as (pk_public_key k) pk → V !! pk_key_id k = Some pk.
Proof.
  intros Hp. destruct (verifiers_load (bd_keys (bundle_of s)) ∅) as (V & HV & Hin & _).
  - intros k Hk. apply bundle_loads in Hk as (e & _ & ?); [|done]. eauto.
  - unfold bundle_of. cbn. rewrite map_map. cbn. apply pubkeys_ids.
  - by exists V.
Qed.

End Bundle.

(** ** From the server to the agent *)

Section EndToEnd.
Context `{JsonCodec, Sha256, SqlErrors, Argon2, Jiff, JsonPointer, Ed25519, Base64, !Ed25519Laws, !Base64Laws}.
Context (resolve : gmap string Resolver → SecretRef → ApiResult string).

(** C13: End to end, a delivered assignment is accepted. The server reads its
    signer twice for an envelope, to sign it and to label it with the key id,
    and other requests may rotate or retire keys at any time, before and
    between. An agent that pinned a bundle the server published accepts every
    envelope of a delivery to it that was signed with a key of that bundle and
    had no rotation between its two reads (one in between makes the label
    wrong), as long as its clock is within the age window and the envelope has
    not expired. *)
Theorem delivered_is_accepted agent_id bearer w s items s' i url published :
  let loads := signer_loads w s in
  (∀ n, signer_reaches (loads n)) → signer_reaches published →
  list_assignments resolve agent_id bearer w s = (Some (Ok items), s') →
  id_agent_id i = agent_id →
  ∃ V, build_verifier_set (pin_bundle (bundle_of published) i) = Ok V ∧
    ∀ j e max_age now, items !! j = Some e →
      key_id (loads (2 * j + 1)) = key_id (loads (2 * j)) →
      ss_keys published !! key_id (loads (2 * j)) = ss_keys (loads (2 * j)) !! key_id (loads (2 * j)) →
      fresh max_age now e → unexpired now e →
      verify_envelope (mkClient url (pin_bundle (bundle_of published) i) V) max_age now e = Ok ().
Proof.
  intros loads Hg Hpub Hr Hi. destruct (delivery_authentic resolve _ _ _ _ _ _ Hg Hr) as (_ & claimed & d & _ & _ & _ & Hall).
  apply signer_reaches_paired in Hpub as Hp. destruct (pinned_bundle published i Hp) as (V & HV & Hin).
  exists V. split; [exact HV|]. intros j e max_age now He Hsame Hkey Hf Hu. apply verify_envelope_decides. split; [|done].
  destruct (Hall j e He) as (c & _ & _ & Hid & pk & sig & Hk & Hl & Hpt & Hs & Hsl & Hv).
  change (env_key_id e = key_id (loads (2 * j + 1))) in Hid. rewrite Hsame in Hid.
  apply (republished _ published) in Hk; [|done].
  exists pk, sig. cbn [cl_verifiers cl_identity id_agent_id pin_bundle]. rewrite Hs, Hi, Hid. split_and!; try done.
  - exact (Hin _ pk Hk (conj (b64_round pk) (conj Hl Hpt))).
  - apply b64_round.
Qed.

End EndToEnd.

(** ** What acceptance proves *)

Section Authenticity.
Context `{Jiff, JsonCodec, Sha256, Ed25519, Base64}.

(** The fields of an envelope that the server fills in hold no line feed. *)
Definition one_line (agent_id : string) (e : AssignmentEnvelope) : Prop :=
  Forall (λ f, lacks line_feed f = true)
    [agent_id; env_assignment_id e; env_operation_id e; env_created_at e; default "" (env_expires_at e);
     sha256_hex (payload_bytes (env_payload e))].

(** C11: Acceptance proves origin. Suppose the pinned keys verify only what
    the server signed with them: messages of envelopes it built for some
    agent. Then an accepted envelope, whoever sent it, was built by the server
    for this very agent: its assignment, operation, creation time, expiry and
    payload digest are those of an envelope the server signed for it, and it
    is fresh. *)
Theorem accepted_was_signed c max_age now env (signed : list (string * AssignmentEnvelope)) :
  (∀ id key msg sig, cl_verifiers c !! id = Some key → ed_verify key msg sig = true →
     ∃ ag e, (ag, e) ∈ signed ∧ msg = envelope_message ag e) →
  (∀ ag e, (ag, e) ∈ signed → one_line ag e) →
  verify_envelope c max_age now env = Ok () →
  fresh max_age now env ∧ unexpired now env ∧
  ∃ e, (id_agent_id (cl_identity c), e) ∈ signed ∧
    env_assignment_id e = env_assignment_id env ∧ env_operation_id e = env_operation_id env ∧
    env_created_at e = env_created_at env ∧
    default "" (env_expires_at e) = default "" (env_expires_at env) ∧
    sha256_hex (payload_bytes (env_payload e)) = sha256_hex (payload_bytes (env_payload env)).
Proof.
  intros Hunf Hline ((key & sig & Hk & _ & _ & Hv) & Hf & Hu)%verify_envelope_decides. split; [done|]. split; [done|].
  destruct (Hunf _ _ _ _ Hk Hv) as (ag & e & Hin & Hm). symmetry in Hm.
  apply canonical_message_inj in Hm as (<- & ? & ? & ? & ? & ?); [|exact (Hline ag e Hin)].
  exists e. split_and!; done.
Qed.

End Authenticity.

(** ** The push *)

Section Push.
Context {W : Type} (http : Request → W → result string HttpResponse * W).
Context (c : Client).

(** The items a log of requests has settled, in order; those accepted. *)
Definition settled (log : list (list ObservationItem * PushOutcome)) : list ObservationItem :=
  concat (omap (λ '(chunk, o), match o with Halved => None | _ => Some chunk end) log).
Definition accepted_items (log : list (list ObservationItem * PushOutcome)) : nat :=
  sum_list_with (λ '(chunk, o), match o with Accepted => length chunk | _ => 0 end) log.

(** A request that fits the code: at most a chunk's worth of items, and only a
    single item is ever dropped. *)
Definition fits (r : list ObservationItem * PushOutcome) : Prop :=
  0 < length r.1 ≤ OBSERVATION_PUSH_CHUNK ∧ (r.2 = Dropped → length r.1 = 1).

(** Requests left at most. *)
Definition weight (stack : list (list ObservationItem)) : nat := sum_list_with (λ chunk, 2 * length chunk - 1) stack.

Definition sendable (stack : list (list ObservationItem)) : Prop :=
  Forall (λ chunk, 0 < length chunk ≤ OBSERVATION_PUSH_CHUNK) stack.

Lemma sendable_halves chunk stack :
  1 < length chunk → sendable (chunk :: stack) →
  sendable (take (length chunk / 2) chunk :: drop (length chunk / 2) chunk :: stack) ∧
  weight (take (length chunk / 2) chunk :: drop (length chunk / 2) chunk :: stack) < weight (chunk :: stack).
Proof.
  intros Hl [Hc Hs]%Forall_cons. set (m := length chunk / 2).
  assert (0 < m < length chunk) as Hm.
  { subst m. split; [apply Nat.div_str_pos; lia|apply Nat.div_lt; lia]. }
  split.
  - apply Forall_cons. rewrite length_take. split; [lia|]. apply Forall_cons. rewrite length_drop. split; [lia|done].
  - unfold weight. cbn [sum_list_with]. rewrite length_take, length_drop. lia.
Qed.

Lemma settled_app l l' : settled (l ++ l') = settled l ++ settled l'.
Proof. unfold settled. by rewrite omap_app, concat_app. Qed.
Lemma accepted_items_app l l' : accepted_items (l ++ l') = accepted_items l + accepted_items l'.
Proof. apply sum_list_with_app. Qed.

(** What a run of the loop adds to its log. *)
Definition pushed (stack : list (list ObservationItem)) (total total' : Z)
    (new : list (list ObservationItem * PushOutcome)) : Prop :=
  settled new = concat stack ∧ Forall fits new ∧ length new ≤ weight stack ∧
  total' = Z.min u32_max (total + Z.of_nat (accepted_items new)).

Lemma pushed_step chunk o stack stack' total total1 total' new :
  fits (chunk, o) → (0 ≤ total)%Z →
  settled [(chunk, o)] ++ concat stack' = concat (chunk :: stack) → weight stack' < weight (chunk :: stack) →
  total1 = Z.min u32_max (total + Z.of_nat (accepted_items [(chunk, o)])) →
  pushed stack' total1 total' new → pushed (chunk :: stack) total total' ((chunk, o) :: new).
Proof.
  intros Hf H0 Hc Hw -> (Hs & Hfits & Hl & ->). split; [|split; [by constructor|split]].
  - change ((chunk, o) :: new) with ([(chunk, o)] ++ new). by rewrite settled_app, Hs, Hc.
  - cbn [length]. lia.
  - change ((chunk, o) :: new) with ([(chunk, o)] ++ new). rewrite accepted_items_app. unfold u32_max. lia.
Qed.

Context `{StatusText}.

Lemma u32_try_from_min z : (0 ≤ z)%Z → u32_try_from z = Z.min u32_max z.
Proof. intros Hz. unfold u32_try_from. case_decide; lia. Qed.

Lemma push_loop_spec fuel : ∀ total log stack h n,
  sendable stack → weight stack < fuel → (0 ≤ total ≤ u32_max)%Z →
  match push_loop http c fuel total log stack h n with
  | (Ok None, _, _) => False
  | (Ok (Some (total', log')), _, _) => ∃ new, log' = log ++ new ∧ pushed stack total total' new
  | (Err _, _, _) => True
  end.
Proof.
  induction fuel as [|fuel IH]; intros total log stack h n Hs Hw Ht; [lia|].
  destruct stack as [|chunk stack]; cbn [push_loop].
  { cbn. exists []. rewrite app_nil_r. split; [done|]. split_and!; [done|constructor|done|cbn; lia]. }
  unfold fs_bind at 1. destruct (push_chunk http c chunk h n) as [[[resp|e] h1] n1]; [|done].
  pose proof Hs as [Hc Hs']%Forall_cons.
  assert (∀ o stack1 total1, fits (chunk, o) → settled [(chunk, o)] ++ concat stack1 = concat (chunk :: stack) →
      sendable stack1 → weight stack1 < weight (chunk :: stack) →
      total1 = Z.min u32_max (total + Z.of_nat (accepted_items [(chunk, o)])) →
      match push_loop http c fuel total1 (log ++ [(chunk, o)]) stack1 h1 n1 with
      | (Ok None, _, _) => False
      | (Ok (Some (total', log')), _, _) => ∃ new, log' = log ++ new ∧ pushed (chunk :: stack) total total' new
      | (Err _, _, _) => True
      end) as Hstep.
  { intros o stack1 total1 Hf Hcc Hs1 Hw1 Ht1.
    specialize (IH total1 (log ++ [(chunk, o)]) stack1 h1 n1 Hs1 ltac:(lia) ltac:(lia)).
    destruct (push_loop _ _ _ _ _ _ _ _) as [[[[[total' log']|]|e] h2] n2]; [|done..].
    destruct IH as (new & -> & Hnew). exists ((chunk, o) :: new). rewrite <- app_assoc. split; [done|].
    eapply pushed_step; try done. lia. }
  assert (weight stack < weight (chunk :: stack)) as Hw1 by (unfold weight; cbn; lia).
  destruct (is_success resp).
  { refine (Hstep Accepted stack _ _ _ Hs' Hw1 _); [split; cbn; [done|discriminate]|cbn; by rewrite app_nil_r|].
    rewrite u32_try_from_min by lia. unfold accepted_items. cbn. unfold u32_max in *. lia. }
  destruct (ht_status resp =? PAYLOAD_TOO_LARGE)%Z; [|done].
  destruct (Nat.leb_spec (length chunk) 1) as [Hl|Hl].
  { refine (Hstep Dropped stack _ _ _ Hs' Hw1 _); [split; cbn; [done|intros _; lia]|cbn; by rewrite app_nil_r|cbn; lia]. }
  destruct (sendable_halves chunk stack Hl Hs) as [Hs2 Hw2].
  refine (Hstep Halved _ _ _ _ Hs2 Hw2 _); [split; cbn; [done|discriminate]| |cbn; lia].
  cbn. by rewrite app_assoc, take_drop.
Qed.

Lemma chunks_sendable (items : list ObservationItem) : sendable (chunks OBSERVATION_PUSH_CHUNK items).
Proof.
  unfold chunks. generalize (length items) at 1. intros fuel. revert items. induction fuel as [|fuel IH]; intros items; [constructor|].
  destruct items as [|i items]; [constructor|]. cbn [chunks_fuel]. constructor; [|apply IH].
  rewrite length_take. unfold OBSERVATION_PUSH_CHUNK. cbn [length]. lia.
Qed.

Lemma weight_concat stack : sendable stack → weight stack ≤ 2 * length (concat stack).
Proof.
  induction 1 as [|chunk stack Hc _ IH]; [done|]. unfold weight in *. cbn [sum_list_with concat]. rewrite length_app. lia.
Qed.

(** The push ends and loses nothing silently. Against any server, the
    work stack empties within twice as many requests as there are items; when
    the push returns, every item was sent once in an accepted request or was
    alone in a request the server found too large, in the original order; no
    request carries more than a chunk; and the number returned is that of the
    accepted items, saturated. *)
Theorem push_complete items h n :
  match push_observations http c items h n with
  | (Ok None, _, _) => False
  | (Ok (Some (total, log)), _, _) =>
      settled log = items ∧ Forall fits log ∧ length log ≤ 2 * length items ∧
      total = Z.min u32_max (Z.of_nat (accepted_items log))
  | (Err _, _, _) => True
  end.
Proof.
  unfold push_observations. destruct items as [|i items]; [by split_and!; [|constructor|..]|].
  pose proof (chunks_sendable (i :: items)) as Hs. pose proof (weight_concat _ Hs) as Hw.
  rewrite chunks_concat in Hw by (unfold OBSERVATION_PUSH_CHUNK; lia).
  pose proof (push_loop_spec (push_fuel (i :: items)) 0 [] (chunks OBSERVATION_PUSH_CHUNK (i :: items)) h n Hs
    ltac:(unfold push_fuel; lia) ltac:(unfold u32_max; lia)) as Hrun.
  destruct (push_loop _ _ _ _ _ _ _ _) as [[[[[total log]|]|e] h'] n']; [|done..].
  destruct Hrun as (new & -> & Hset & Hfits & Hlen & ->). rewrite chunks_concat in Hset by (unfold OBSERVATION_PUSH_CHUNK; lia).
  cbn [app]. split_and!; try done. lia.
Qed.

End Push.

(** ** The identity file and the pinned keys *)

Section Identity.
Context {W : Type} (http : Request → W → result string HttpResponse * W).
Context (io_error : string → string) (torn path parent : string).
Context `{Jiff, JsonCodec, Sha256, Ed25519, Base64, WireCodec, StatusText, IdentityCodec}.

Definition holds_file (t : option string) (h : Host W) : Prop := ho_file h = t.

Lemma send_hoare what rq t : hoare (holds_file t) (send http what rq) (λ _, holds_file t) (holds_file t).
Proof. intros h n Hh. unfold send. destruct (http rq (ho_net h)) as [[r|e] w]; exact Hh. Qed.

Lemma lift_hoare {A} (r : result Anyhow A) t :
  hoare (holds_file t) (fs_lift r) (λ a h, r = Ok a ∧ holds_file t h) (holds_file t).
Proof. intros h n Hh. unfold fs_lift. by destruct r. Qed.

(** The file is replaced whole, or left alone. *)
Lemma persist_hoare i t :
  hoare (holds_file t) (persist_identity (W := W) io_error torn path parent i)
    (λ _, holds_file (Some (identity_to_text i))) (holds_file t).
Proof.
  unfold persist_identity. apply hoare_bind with (Q := λ _, holds_file t); [apply hoare_context; by intros h [|n] Hh|].
  intros []. apply hoare_bind with (Q := λ _ h, holds_file t h ∧ ho_tmp h = Some (identity_to_text i)); [by intros h [|n] Hh|].
  intros []. apply hoare_bind with (Q := λ _ h, holds_file t h ∧ ho_tmp h = Some (identity_to_text i)).
  { by intros h [|n] [Hh Ht]. }
  intros []. apply hoare_context. intros h [|n] [Hh Ht]; [done|]. unfold fs_step, rename_tmp. by rewrite Ht.
Qed.

Lemma check_hoare r t : hoare (holds_file t) (check_ok_status r) (λ _, holds_file t) (holds_file t).
Proof. unfold check_ok_status. destruct (is_success r); [by apply hoare_ret|by apply hoare_bail]. Qed.

Lemma fetch_bundle_hoare url t :
  hoare (holds_file t) (fetch_signing_bundle http url)
    (λ b h, holds_file t h ∧ ∃ k, k ∈ bd_keys b ∧ pk_key_id k = bd_active_key_id b) (holds_file t).
Proof.
  unfold fetch_signing_bundle. eapply hoare_bind; [apply send_hoare|]. intros resp. cbn beta.
  eapply hoare_bind; [apply check_hoare|]. intros [].
  eapply hoare_bind with (Q := λ _, holds_file t).
  { eapply hoare_consequence; [apply lift_hoare|done|by intros ? ? []|done]. }
  intros b. case_decide; [by apply hoare_bail|]. destruct (existsb _ _) eqn:Ha; cbn [negb]; [|by apply hoare_bail].
  apply hoare_ret. intros h Hh. split; [done|]. apply existsb_exists in Ha as (k & Hk & He%bool_decide_eq_true).
  exists k. split; [by apply list_elem_of_In|done].
Qed.

(** The rules a bundle must pass to replace the pinned keys: some key is
    pinned already with the same contents, and no pinned id has others. *)
Definition anchored (pinned : list ServerPubkey) (keys : list SigningPubkey) : Prop :=
  (∃ p, p ∈ pinned ∧ by_id keys !! sp_key_id p = Some (sp_public_key p)) ∧
  ∀ p, p ∈ pinned → by_id keys !! sp_key_id p = None ∨ by_id keys !! sp_key_id p = Some (sp_public_key p).

Lemma by_id_snoc keys k : by_id (keys ++ [k]) = <[pk_key_id k := pk_public_key k]> (by_id keys).
Proof. unfold by_id. by rewrite foldl_app. Qed.

Lemma by_id_in keys k : k ∈ keys → is_Some (by_id keys !! pk_key_id k).
Proof.
  induction keys as [|k' keys IH] using rev_ind; [by intros ?%elem_of_nil|]. rewrite by_id_snoc.
  intros [Hk|Hk%list_elem_of_singleton]%elem_of_app; [|subst k'; rewrite lookup_insert_eq; eauto].
  destruct (decide (pk_key_id k = pk_key_id k')) as [->|]; [rewrite lookup_insert_eq; eauto|rewrite lookup_insert_ne by done; auto].
Qed.

Lemma rules_anchor pinned keys : overlaps pinned keys = true → diverged pinned keys = None → anchored pinned keys.
Proof.
  intros Ho Hd. assert (∀ p, p ∈ pinned → by_id keys !! sp_key_id p = None ∨ by_id keys !! sp_key_id p = Some (sp_public_key p)) as Hall.
  { intros p Hp. pose proof (find_none _ _ Hd p (proj1 (list_elem_of_In _ _) Hp)) as Hn. cbn in Hn.
    destruct (by_id keys !! sp_key_id p) as [pk|]; [|by left]. right. apply negb_false_iff, bool_decide_eq_true in Hn. by subst. }
  split; [|done]. unfold overlaps in Ho. apply existsb_exists in Ho as (k & Hk%list_elem_of_In & He%bool_decide_eq_true).
  apply elem_of_map in He as (p & Hp & He). exists p. split; [done|].
  destruct (Hall p Hp) as [Hn|Hs]; [|done]. apply by_id_in in Hk as [? Hs]. congruence.
Qed.

(** C16: The agent's trust in the server moves only along its pins. A refresh,
    stopped after any number of disk steps and answered by anyone, either
    changes neither the client nor the identity file, or writes a whole
    identity whose keys are a bundle anchored in the pinned set: at least one
    pinned key appears in it with the same contents and no pinned key id
    appears with others. The client then holds the verifiers of that set, or,
    when a key of the bundle does not load, is left as it was. *)
Theorem refresh_keeps_anchor c h n :
  let '(r, c', h', _) := refresh_signing_keys http io_error torn path parent c h n in
  (c' = c ∧ is_ok r = false ∧ ho_file h' = ho_file h) ∨
  ∃ b, anchored (id_server_pubkeys (cl_identity c)) (bd_keys b) ∧
    (∃ k, k ∈ bd_keys b ∧ pk_key_id k = bd_active_key_id b) ∧
    ho_file h' = Some (identity_to_text (pin_bundle b (cl_identity c))) ∧
    ((r = Ok () ∧ cl_identity c' = pin_bundle b (cl_identity c) ∧
      build_verifier_set (cl_identity c') = Ok (cl_verifiers c')) ∨
     (c' = c ∧ is_ok r = false ∧ is_ok (build_verifier_set (pin_bundle b (cl_identity c))) = false)).
Proof.
  set (i := cl_identity c).
  set (done_with := λ b h', anchored (id_server_pubkeys i) (bd_keys b) ∧
    (∃ k, k ∈ bd_keys b ∧ pk_key_id k = bd_active_key_id b) ∧ ho_file (W:=W) h' = Some (identity_to_text (pin_bundle b i))).
  assert (hoare (holds_file (ho_file h)) (refresh_body http io_error torn path parent c)
    (λ r h', ∃ b, done_with b h' ∧ cl_identity r.2 = pin_bundle b i ∧ build_verifier_set (cl_identity r.2) = Ok (cl_verifiers r.2))
    (λ h', ho_file h' = ho_file h ∨ ∃ b, done_with b h' ∧ is_ok (build_verifier_set (pin_bundle b i)) = false)) as Hrun.
  { unfold refresh_body. eapply hoare_bind.
    { eapply hoare_consequence; [apply hoare_context, fetch_bundle_hoare|by intros d Hd; exact Hd|intros b d Hd; exact Hd|]. intros d Hd. left. exact Hd. }
    intros b. cbn beta. fold i. destruct (overlaps _ _) eqn:Ho; cbn [negb]; [|apply hoare_bail; intros d [Hd _]; by left].
    destruct (diverged _ _) eqn:Hd; [apply hoare_bail; intros d [Hd' _]; by left|].
    pose proof (rules_anchor _ _ Ho Hd) as Ha.
    intros d m [Hf Hact]. unfold fs_bind at 1. pose proof (persist_hoare (pin_bundle b i) (ho_file h) d m Hf) as Hp.
    destruct (persist_identity _ _ _ _ _ d m) as [[[[]|e] d1] m1]; [|by left].
    unfold fs_bind, fs_lift, fs_ret. destruct (build_verifier_set (pin_bundle b i)) as [V|e] eqn:HV.
    - exists b. by split.
    - right. exists b. by rewrite HV. }
  unfold refresh_signing_keys, updating. specialize (Hrun h n eq_refl).
  destruct (refresh_body _ _ _ _ _ c h n) as [[[[[] c']|e] h'] n'].
  - right. destruct Hrun as (b & (Ha & Hact & Hf) & Hi & HV). exists b. split_and!; try done. by left.
  - destruct Hrun as [Hf|(b & (Ha & Hact & Hf) & HV)]; [by left|]. right. exists b. split_and!; try done. by right.
Qed.

(** A rotation keeps the file and the client in agreement, whatever happens. *)
Lemma rotate_agrees c h n :
  ho_file h = Some (identity_to_text (cl_identity c)) →
  let '(r, c', h', _) := rotate_token http io_error torn path parent c h n in
  ho_file h' = Some (identity_to_text (cl_identity c')) ∧
  id_agent_id (cl_identity c') = id_agent_id (cl_identity c) ∧
  (is_ok r = false → c' = c).
Proof.
  intros Hh. set (t := Some (identity_to_text (cl_identity c))).
  assert (hoare (holds_file t) (rotate_body http io_error torn path parent c)
    (λ r h', ho_file h' = Some (identity_to_text (cl_identity r.2)) ∧ id_agent_id (cl_identity r.2) = id_agent_id (cl_identity c))
    (holds_file t)) as Hrun.
  { unfold rotate_body. eapply hoare_bind; [apply send_hoare|]. intros resp. cbn beta.
    destruct (is_success resp); cbn [negb]; [|by apply hoare_bail].
    eapply hoare_bind with (Q := λ _, holds_file t).
    { eapply hoare_consequence; [apply lift_hoare|done|by intros ? ? []|done]. }
    intros creds. eapply hoare_bind; [apply persist_hoare|]. intros []. by apply hoare_ret. }
  unfold rotate_token, updating. specialize (Hrun h n Hh). destruct (rotate_body _ _ _ _ _ c h n) as [[[[[] c']|e] h'] n']; [|done].
  by destruct Hrun.
Qed.

(** The rules do not keep out a key added next to the pinned ones, whose ids
    and contents are public. *)
Lemma added_key_passes pinned k :
  pinned ≠ [] → NoDup (map sp_key_id pinned) → pk_key_id k ∉ map sp_key_id pinned →
  let keys := map (λ p, mkPubkey (sp_key_id p) (sp_public_key p)) pinned ++ [k] in
  overlaps pinned keys = true ∧ diverged pinned keys = None.
Proof.
  intros Hne Hnd Hk. cbn. set (known := map (λ p, mkPubkey (sp_key_id p) (sp_public_key p)) pinned).
  assert (∀ ps, NoDup (map sp_key_id ps) → ∀ p, p ∈ ps → by_id (map (λ p, mkPubkey (sp_key_id p) (sp_public_key p)) ps) !! sp_key_id p = Some (sp_public_key p)) as Hby.
  { clear. intros ps. induction ps as [|q ps IH] using rev_ind; [by intros _ ? ?%elem_of_nil|]. rewrite !map_app. cbn [map].
    rewrite by_id_snoc. cbn. intros (Hnd & Hd & _)%NoDup_app p [Hp|Hp%list_elem_of_singleton]%elem_of_app; [|subst q; by rewrite lookup_insert_eq].
    rewrite lookup_insert_ne; [by apply IH|]. intros He. apply (Hd (sp_key_id p)); [apply elem_of_map; eauto|]. rewrite <- He. left. }
  split.
  - unfold overlaps. rewrite existsb_app. apply orb_true_iff. left. destruct pinned as [|p ps]; [done|]. subst known. cbn.
    rewrite bool_decide_eq_true_2; [done|]. left.
  - unfold diverged. destruct (List.find _ pinned) as [p|] eqn:Hf; [|done]. apply find_some in Hf as [Hp%list_elem_of_In He].
    rewrite by_id_snoc, lookup_insert_ne in He; [|intros Hx; apply Hk; rewrite Hx; apply elem_of_map; eauto].
    unfold known in He. rewrite Hby in He by done. by rewrite bool_decide_eq_true_2 in He.
Qed.

End Identity.

(** ** Reconnecting *)

Section Reconnect.
Context {W : Type} (http : Request → W → result string HttpResponse * W).
Context (io_error : string → string) (torn path parent : string).
Context `{Jiff, JsonCodec, Sha256, Ed25519, Base64, WireCodec, StatusText, IdentityCodec}.

Lemma fs_bind_Ok {S A B} (m : fs_on S A) (f : A → fs_on S B) d n b d' n' :
  fs_bind m f d n = (Ok b, d', n') → ∃ a d1 n1, m d n = (Ok a, d1, n1) ∧ f a d1 n1 = (Ok b, d', n').
Proof. unfold fs_bind. destruct (m d n) as [[[a|e] d1] n1]; [eauto|done]. Qed.

Lemma fs_context_Ok {S A} c (m : fs_on S A) d n a d' n' :
  fs_context c m d n = (Ok a, d', n') → m d n = (Ok a, d', n').
Proof. unfold fs_context. by destruct (m d n) as [[[a0|e] d1] n1]. Qed.

(** As long as the identity file is there, connecting presents the credentials
    it holds: nothing a server answers makes the agent register again. *)
Lemma connect_keeps_credentials url enrollment reg now h n c h' n' text i :
  ho_file h = Some text → identity_from_text text = Ok i →
  connect http io_error torn path parent url enrollment reg now h n = (Ok c, h', n') →
  id_token (cl_identity c) = id_token i ∧ id_agent_id (cl_identity c) = id_agent_id i.
Proof.
  intros Hf Hi Hc. unfold connect in Hc. apply fs_bind_Ok in Hc as (h0 & d0 & n0 & [= <- <- <-] & Hc). rewrite Hf in Hc.
  apply fs_bind_Ok in Hc as (i1 & d1 & n1 & Hload & Hc).
  assert (i1 = migrate_legacy_pubkey i) as ->.
  { unfold load_identity in Hload. apply fs_bind_Ok in Hload as (text' & d2 & n2 & Hr%fs_context_Ok & Hload).
    apply fs_bind_Ok in Hload as (i2 & d3 & n3 & Hd & [= <- _ _]).
    unfold fs_read in Hr. destruct n as [|n]; [done|]. rewrite Hf in Hr. injection Hr as <- <- <-.
    unfold decoded, fs_lift in Hd. rewrite Hi in Hd. by injection Hd as <- _ _. }
  apply fs_bind_Ok in Hc as (b & d2 & n2 & _ & Hc). apply fs_bind_Ok in Hc as (i3 & d3 & n3 & Ha & Hc).
  apply fs_bind_Ok in Hc as (V & d4 & n4 & _ & [= <- _ _]). cbn [cl_identity].
  assert (i3 = pin_bundle b (migrate_legacy_pubkey i)) as ->.
  { assert (∀ x (y : Identity), fs_bind (persist_identity io_error torn path parent y) (λ _, fs_ret y) d2 n2 = (Ok x, d3, n3) → x = y) as Hp
      by (intros x y (? & ? & ? & _ & [= <- _ _])%fs_bind_Ok; done).
    unfold accept_bundle in Ha. destruct (id_server_pubkeys (migrate_legacy_pubkey i)); [by apply Hp|].
    destruct (negb _); [done|]. destruct (diverged _ _); [done|]. by apply Hp. }
  unfold migrate_legacy_pubkey. by destruct (id_server_pubkeys i), (id_server_key_id i), (id_server_public_key i).
Qed.

End Reconnect.

(** ** At concrete inputs *)

#[local] Existing Instances demo_sha demo_jiff demo_argon demo_ed25519 demo_base64 fleet_codec fleet_sql.

Definition agent_identity : Identity := mkIdentity "a1" "tok" "http://cp" "@0" [] None None None.

Lemma delivered_is_accepted_witness :
  length fleet_items = 1 ∧
  ∃ V, build_verifier_set (pin_bundle (bundle fleet_state) agent_identity) = Ok V ∧
    ∀ e, fleet_items !! 0 = Some e →
      verify_envelope (mkClient "http://cp" (pin_bundle (bundle fleet_state) agent_identity) V) (Some 86400%Z) 6 e = Ok ().
Proof.
  split; [vm_compute; reflexivity|].
  destruct (@delivered_is_accepted fleet_codec demo_sha demo_jiff rfc6901 demo_ed25519 demo_base64 demo_ed25519_laws demo_base64_laws
    (fleet_resolve (Ok "s3cret")) "a1" "tok" fleet_draw fleet_state fleet_items (fleet_delivery (Ok "s3cret")).2 agent_identity "http://cp"
    (sg_state (app_signer fleet_state))) as (V & HV & Hall).
  - intros n. exists (app_signer fleet_state). split; [exact demo_signer_inv|reflexivity].
  - exists (app_signer fleet_state). split; [exact demo_signer_inv|reflexivity].
  - exact fleet_delivered.
  - reflexivity.
  - exists V. split; [exact HV|]. intros e He. apply (Hall 0); [exact He|reflexivity|reflexivity| |].
    + intros m [= <-]. exists 5%Z. vm_compute in He. injection He as <-.
      split; [vm_compute; reflexivity|]. vm_compute. split; discriminate.
    + intros x Hx. vm_compute in He. injection He as <-. vm_compute in Hx. discriminate Hx.
Defined.

(** A scheme in which exactly one message was ever signed. *)
Definition closed_ed25519 (m0 : string) : Ed25519 := {|
  ed_public s := fit 32 s; ed_sign s m := fit 64 m; ed_point pk := true;
  ed_verify pk m sig := bool_decide (m = m0)
|}.

Definition signed_envelope : AssignmentEnvelope :=
  mkEnvelope "as1" "op1" "apply" "@5" None (mkPayload [fleet_resource "p"]) "01A" (fit 64 "").

Lemma accepted_was_signed_witness :
  let message := envelope_message "a1" signed_envelope in
  let c := mkClient "http://cp" agent_identity {["01A" := fit 32 ""]} in
  @verify_envelope demo_jiff fleet_codec demo_sha (closed_ed25519 message) demo_base64 c (Some 86400%Z) 6 signed_envelope = Ok () ∧
  ∃ e, ("a1", e) ∈ [("a1", signed_envelope)] ∧ env_assignment_id e = "as1".
Proof.
  intros message c.
  assert (@verify_envelope demo_jiff fleet_codec demo_sha (closed_ed25519 message) demo_base64 c (Some 86400%Z) 6 signed_envelope = Ok ()) as Hv
    by (vm_compute; reflexivity).
  split; [exact Hv|].
  destruct (@accepted_was_signed demo_jiff fleet_codec demo_sha (closed_ed25519 message) demo_base64 c (Some 86400%Z) 6 signed_envelope
    [("a1", signed_envelope)]) as (_ & _ & e & Hin & Hid & _).
  - intros id key msg sig _ Hm. exists "a1", signed_envelope. split; [left|]. cbn in Hm. by apply bool_decide_eq_true in Hm.
  - intros ag e Hin. apply list_elem_of_singleton in Hin. injection Hin as -> ->.
    unfold one_line. repeat (apply Forall_cons; split; [vm_compute; reflexivity|]). by apply Forall_nil.
  - exact Hv.
  - exists e. split; [exact Hin|exact Hid].
Defined.

(** *** A network that serves one bundle *)

Definition opt_text (o : option string) : string := match o with None => "-" | Some s => "+" +:+ s end.
Definition opt_of (s : string) : option string := strip_prefix "+" s.
Definition bar : Ascii.ascii := Ascii.ascii_of_N 124.

#[local] Instance demo_identity : IdentityCodec := {|
  identity_to_text i :=
    str_join "|" [id_agent_id i; id_token i; id_server_url i; id_registered_at i;
                  str_join "," (map (λ k, sp_key_id k +:+ "=" +:+ sp_public_key k) (id_server_pubkeys i));
                  opt_text (id_server_key_id i); opt_text (id_server_public_key i); opt_text (id_token_expires_at i)];
  identity_from_text s :=
    match split_on bar s with
    | [a; t; u; r; ks; k; p; e] =>
        Ok (mkIdentity a t u r (omap (λ kv, '(id, pk) ← split_once "=" kv; Some (mkServerPubkey id pk)) (split_on xff_comma ks))
              (opt_of k) (opt_of p) (opt_of e))
    | _ => Err "not an identity"
    end
|}.

Definition demo_key (id : string) : SigningPubkey := mkPubkey id (fit 32 ("key of " +:+ id)).
Definition honest_bundle : SigningPubkeyBundle := mkBundle "A" [demo_key "A"].
(** A key that is too short for the id the server uses. *)
Definition corrupt_bundle : SigningPubkeyBundle := mkBundle "A" [mkPubkey "A" "short"].
(** The honest key, with another one next to it. *)
Definition injected_bundle : SigningPubkeyBundle := mkBundle "A" [demo_key "A"; demo_key "M"].
(** After a rotation and a retirement. *)
Definition retired_bundle : SigningPubkeyBundle := mkBundle "B" [demo_key "B"].

#[local] Instance demo_wire : WireCodec := {|
  decode_register s := Ok (mkCredentials "a1" s None);
  decode_bundle s := if decide (s = "corrupt") then Ok corrupt_bundle else if decide (s = "injected") then Ok injected_bundle
                     else if decide (s = "retired") then Ok retired_bundle else Ok honest_bundle;
  decode_assignments _ := Ok []; decode_desired _ := Ok [] |}.
#[local] Instance demo_status : StatusText := λ _, "".

Definition serving (rq : Request) (served : string) : result string HttpResponse * string :=
  (Ok (mkHttp 200 (if decide (rq_method rq = "GET") then served else "tok")), served).

Definition demo_connect (h : Host string) :=
  connect (W := string) serving (λ _, "I/O error") "" "/state/identity.json" "/state" "http://cp" None
    (mkRegister "a1" "prod" JNull) 0 h 100.

Definition serve (served : string) (h : Host string) : Host string := mkHost served (ho_file h) (ho_tmp h).

(** The bundle of a first contact is written before its keys are loaded: a
    corrupt one stops this connection and every later one, whatever the server
    serves by then. *)
Lemma bad_first_bundle_bricks :
  let r1 := demo_connect (mkHost "corrupt" None None) in
  is_ok r1.1.1 = false ∧
  (demo_connect (serve "honest" r1.1.2)).1.1 = Err [[Txt "pinned key "; Txt "A"; Txt " pubkey diverged from server — refusing"]].
Proof. split; vm_compute; reflexivity. Qed.

(** Who can rewrite the answer to a refresh adds a key of its own. *)
Lemma injected_key_pinned :
  let r1 := demo_connect (mkHost "honest" None None) in
  match r1.1.1 with
  | Ok c =>
      let '(r, c', h', _) := refresh_signing_keys serving (λ _, "I/O error") "" "/state/identity.json" "/state" c (serve "injected" r1.1.2) 100 in
      r = Ok () ∧ cl_verifiers c' !! "M" = Some (pk_public_key (demo_key "M"))
  | Err _ => False
  end.
Proof. vm_compute. split; reflexivity. Qed.

(** An agent that was away while its only pinned key was rotated and retired
    does not come back by itself. *)
Lemma retired_while_away :
  let r1 := demo_connect (mkHost "honest" None None) in
  is_ok r1.1.1 = true ∧ is_ok (demo_connect (serve "retired" r1.1.2)).1.1 = false.
Proof. split; vm_compute; reflexivity. Qed.

(** *** The real server behind a network that loses the answer *)

Definition lossy (rq : Request) (s : AppState) : result string HttpResponse * AppState :=
  (Err "connection reset", (AgentApi.rotate_token "a1" (default "" (rq_bearer rq)) fleet_draw s).2).

(** The server has replaced the token; the agent keeps the old one, in memory
    and on disk, and it no longer authenticates. *)
Lemma lost_rotation_locks_out :
  let c := mkClient "http://cp" agent_identity ∅ in
  let '(r, c', h', _) := rotate_token lossy (λ _, "I/O error") "" "/state/identity.json" "/state" c
                           (mkHost fleet_state (Some (identity_to_text agent_identity)) None) 100 in
  is_ok r = false ∧ c' = c ∧
  is_ok (authenticate "a1" (bearer_of c) 6 (app_db fleet_state)) = true ∧
  is_ok (authenticate "a1" (bearer_of c') 6 (app_db (ho_net h'))) = false.
Proof. vm_compute. split_and!; reflexivity. Qed.

(** A server that takes two items at most, and an item it never takes. *)
Definition small_server (rq : Request) (u : ()) : result string HttpResponse * () :=
  (Ok (mkHttp (match rq_body rq with
               | BObservations items => if existsb (λ i, bool_decide (oi_observed_at i = "big")) items then 413
                                        else if 2 <? length items then 413 else 200
               | _ => 200
               end) ""), u).
Definition demo_item (at_ : string) : ObservationItem := mkObservationItem (mkRid "file" "prod" "x") at_ true JNull JNull.

Example push_splits :
  match push_observations small_server (mkClient "http://cp" agent_identity ∅) (map demo_item ["1"; "2"; "big"; "4"; "5"])
          (mkHost () None None) 0 with
  | (Ok (Some (total, log)), _, _) =>
      total = 4%Z ∧ map (λ r, (map oi_observed_at r.1, r.2)) log =
        [(["1"; "2"; "big"; "4"; "5"], Halved); (["1"; "2"], Accepted); (["big"; "4"; "5"], Halved); (["big"], Dropped);
         (["4"; "5"], Accepted)]
  | _ => False
  end.
Proof. vm_compute. split; reflexivity. Qed.
