(* ===== verification/AgentLoop.v ===== *)
(** * The agent (crates/iac-agent/src/agent.rs, status.rs, main.rs)

    The observe cycle: observation and drift of every managed resource, the
    push to the control plane, the drain of assignments with its replay
    protection and capability check, and the upkeep of keys and token. The
    agent's state is the host and the executor's state directory, the store,
    the network and identity file, the client, the capability allowlist and
    the status. *)

From S2P Require Import Prelude Text Json ApiError Routing Db AuditLog Ids Dispatch Views Clock Diff Drift Agents Secrets Signing AgentApi Executor Capabilities AgentStore PluginSpec AgentConfig Remote.

#[local] Open Scope string_scope.
#[local] Open Scope list_scope.
#[local] Open Scope nat_scope.

(** ** Status *)

Record ObserveCycleSummary := mkSummary {
  oc_at : Z;
  oc_duration_ms : Z;
  oc_observed : nat;
  oc_drift_detected : nat;
  oc_errors : list message
}.

Definition is_clean (s : ObserveCycleSummary) : bool := bool_decide (oc_errors s = []).

Record AgentStatus := mkStatus {
  sa_started_at : Z;
  sa_last_observe_at : option Z;
  sa_last_observe_summary : option ObserveCycleSummary;
  sa_managed_resource_count : nat;
  sa_open_drift_count : Z;
  sa_healthy : bool;
  sa_manifests_dir : string;
  sa_state_dir : string
}.

Definition status_initial (now : Z) (c : Config) : AgentStatus :=
  mkStatus now None None 0 0 true (ac_manifests_dir c) (ac_state_dir c).

Definition record_cycle (summary : ObserveCycleSummary) (open_drift : Z) (managed : nat) (s : AgentStatus) : AgentStatus :=
  mkStatus (sa_started_at s) (Some (oc_at summary)) (Some summary) managed open_drift (is_clean summary)
    (sa_manifests_dir s) (sa_state_dir s).

(** ** State and effects *)

Record Agent (V W N : Type) := mkAgentOf {
  ag_world : World V W;
  ag_store : Store;
  ag_host : Host N;
  ag_calls : nat;                         (* calls of the client and files written so far *)
  ag_client : option Client;
  ag_watch : Watch;                       (* the capability allowlist and its watcher *)
  ag_status : AgentStatus;
  ag_status_file : option AgentStatus;
  ag_last_key_refresh : Z
}.
Arguments mkAgentOf {V W N}.
Arguments ag_world {V W N}.
Arguments ag_store {V W N}.
Arguments ag_host {V W N}.
Arguments ag_calls {V W N}.
Arguments ag_client {V W N}.
Arguments ag_watch {V W N}.
Arguments ag_status {V W N}.
Arguments ag_status_file {V W N}.
Arguments ag_last_key_refresh {V W N}.

(** What the agent draws from outside: the clock readings of a verification
    pass that starts at a given reading, the disk steps a client call still
    gets, the outcome of the status file's writes, the manifests directory
    (absent, or its walk) at each loading, the elapsed time, two environment
    variables, and serde's reading of a resource. *)
Class AgentEnv := {
  verify_at : nat → AssignmentEnvelope → Z;
  disk_at : nat → nat;
  status_write_at : nat → result string ();
  manifests_at : nat → option (list (result string WalkEntry));
  elapsed_ms : nat → Z;
  env_max_age : option Z;
  env_enrollment : option string;
  agent_version : string;
  resource_of_json : Json → result string Resource;
  io_error_text : string → string;
  torn_identity : string;
  identity_dir : string
}.

Section Agent.
Context {V W N : Type} (ws_empty : W) (http : Remote.Request → N → result string HttpResponse * N).
Context `{AgentEnv, StoreEnv, ExecEnv, DebugText}.
Context `{Jiff, JiffHours, JsonCodec, DiffCodec, Sha256, Ed25519, Base64, WireCodec, StatusText, IdentityCodec, Globset, Yaml}.
Context (config : Config) (registry : ProviderRegistry V W).

Abbreviation State := (Agent V W N).

Definition set_world x (s : State) : State :=
  mkAgentOf x (ag_store s) (ag_host s) (ag_calls s) (ag_client s) (ag_watch s) (ag_status s) (ag_status_file s) (ag_last_key_refresh s).
Definition set_store x (s : State) : State :=
  mkAgentOf (ag_world s) x (ag_host s) (ag_calls s) (ag_client s) (ag_watch s) (ag_status s) (ag_status_file s) (ag_last_key_refresh s).
Definition set_net x (s : State) : State :=
  mkAgentOf (ag_world s) (ag_store s) x (S (ag_calls s)) (ag_client s) (ag_watch s) (ag_status s) (ag_status_file s) (ag_last_key_refresh s).
Definition set_client x (s : State) : State :=
  mkAgentOf (ag_world s) (ag_store s) (ag_host s) (ag_calls s) x (ag_watch s) (ag_status s) (ag_status_file s) (ag_last_key_refresh s).
Definition set_watch x (s : State) : State :=
  mkAgentOf (ag_world s) (ag_store s) (ag_host s) (ag_calls s) (ag_client s) x (ag_status s) (ag_status_file s) (ag_last_key_refresh s).
Definition set_status x (s : State) : State :=
  mkAgentOf (ag_world s) (ag_store s) (ag_host s) (ag_calls s) (ag_client s) (ag_watch s) x (ag_status_file s) (ag_last_key_refresh s).
Definition set_status_file x (s : State) : State :=
  mkAgentOf (ag_world s) (ag_store s) (ag_host s) (S (ag_calls s)) (ag_client s) (ag_watch s) (ag_status s) x (ag_last_key_refresh s).
Definition set_refresh x (s : State) : State :=
  mkAgentOf (ag_world s) (ag_store s) (ag_host s) (ag_calls s) (ag_client s) (ag_watch s) (ag_status s) (ag_status_file s) x.

(** Nothing an error leaves behind is undone. *)
Definition ag (A : Type) : Type := State → result Anyhow A * State.

Definition ag_ret {A} (a : A) : ag A := λ s, (Ok a, s).
Definition ag_throw {A} (e : Anyhow) : ag A := λ s, (Err e, s).
Definition ag_bind {A B} (m : ag A) (f : A → ag B) : ag B := λ s,
  match m s with
  | (Ok a, s') => f a s'
  | (Err e, s') => (Err e, s')
  end.
Definition ag_get {A} (f : State → A) : ag A := λ s, (Ok (f s), s).
Definition ag_modify (f : State → State) : ag () := λ s, (Ok (), f s).
Definition ag_lift {A} (r : result Anyhow A) : ag A := λ s, (r, s).
(** The result as a value: what a [match] on a call sees. *)
Definition ag_try {A} (m : ag A) : ag (result Anyhow A) := λ s, let '(r, s') := m s in (Ok r, s').
(** [if let Err(e) = m { warn!(..) }] *)
Definition ag_ignore {A} (m : ag A) : ag () := λ s, (Ok (), (m s).2).
Definition ag_context {A} (c : message) (m : ag A) : ag A := λ s,
  match m s with (Err e, s') => (Err (c :: e), s') | ok => ok end.

Definition on_store {A} (m : st A) : ag A := λ s, let '(r, x) := m (ag_store s) in (r, set_store x s).
Definition on_world {A} (m : ex V W A) : ag A := λ s,
  let '(r, w) := m (ag_world s) in (map_err (λ e, [core_error_text e]) r, set_world w s).
Definition on_net {A} (m : fs_on (Host N) A) : ag A := λ s,
  let '(r, h, _) := m (ag_host s) (disk_at (ag_calls s)) in (r, set_net h s).
(** A call that may replace the client. *)
Definition on_client {A} (m : Host N → nat → (result Anyhow A * Client) * Host N * nat) : ag A := λ s,
  let '((r, c), h, _) := m (ag_host s) (disk_at (ag_calls s)) in (r, set_client (Some c) (set_net h s)).

Declare Scope ag_scope.
Delimit Scope ag_scope with ag.
Notation "'let*' x ':=' m 'in' k" := (ag_bind m (λ x, k))
  (at level 200, x name, m at level 100, k at level 200, right associativity) : ag_scope.
Notation "m ';*' k" := (ag_bind m (λ _ : (), k)) (at level 100, k at level 200, right associativity) : ag_scope.
#[local] Open Scope ag_scope.

(** [for x in xs { body(x) }], with the bodies' results. *)
Fixpoint ag_map {A B} (body : A → ag B) (xs : list A) : ag (list B) :=
  match xs with
  | [] => ag_ret []
  | x :: xs => let* y := body x in let* ys := ag_map body xs in ag_ret (y :: ys)
  end.

Definition clock : ag Z := on_store now.

(** ** The control plane *)

Definition connect_remote : ag bool :=
  match ac_server_url config with
  | None => ag_ret false
  | Some url =>
      let req := mkRegister (ac_agent_name config) (ac_environment config)
                   (JObject [("actor", JString (ac_actor config)); ("version", JString agent_version)]) in
      let* at_ := clock in
      let* r := ag_try (on_net (connect http io_error_text torn_identity (ac_identity_file config) identity_dir
                                  url env_enrollment req at_)) in
      match r with
      | Ok c => ag_modify (set_client (Some c)) ;* ag_ret true
      | Err _ => ag_ret false
      end
  end.

Definition has_remote : ag bool := ag_get (λ s, bool_decide (is_Some (ag_client s))).

(** The lazy reconnect in front of a push. *)
Definition reconnect : ag () :=
  let* connected := has_remote in
  if negb connected && bool_decide (is_Some (ac_server_url config)) then let* _ := connect_remote in ag_ret () else ag_ret ().

(** ** Assignments *)

Definition item_status_text (s : ItemStatus) : string :=
  match s with INoChange => "no_change" | ISucceeded => "succeeded" | IFailed => "failed" | ISkipped => "skipped" end.

Definition report_status (s : ExecStatus) : AssignmentResultStatus :=
  match s with ExSucceeded => RSucceeded | ExPartiallyApplied => RPartiallyApplied | _ => RFailed end.

Definition denied_report (denied : list (Resource * DenyReason)) : AssignmentResultRequest :=
  mkResult RFailed (Some (msg_text [Dec (Z.of_nat (length denied)); Txt " resource(s) denied by agent capability policy"]))
    (map (λ d, mkItemResult (dn_resource_id d.2) "capability_denied" (Some (msg_text (deny_text d.2)))) denied).

Definition apply_report (r : ApplyResult) : AssignmentResultRequest :=
  mkResult (report_status (ex_status (ar_operation r)))
    (Some ("operation " +:+ ulid_text (ex_id (ar_operation r))))
    (map (λ i, mkItemResult (rid_display (it_resource_id i)) (item_status_text (it_status i)) (msg_text <$> it_error i)) (ar_items r)).

Definition run_executor (resources : list Resource) : ag ApplyResult :=
  on_world (Executor.apply ws_empty registry (ac_actor config) resources).

Definition execute_assignment (env : AssignmentEnvelope) : ag AssignmentResultRequest :=
  if decide (env_kind env ≠ "apply") then ag_throw [[Txt "unsupported assignment kind "; Dbg (env_kind env)]]
  else
  let* resources := ag_lift (map_err (λ e, [[Txt "decoding assignment resources"]; [Ext e]])
                               (try_map resource_of_json (payload_resources (env_payload env)))) in
  let* caps := ag_get (λ s, wt_caps (ag_watch s)) in
  let '(resources, denied) := enforce_capabilities registry caps resources in
  match denied with
  | _ :: _ => ag_ret (denied_report denied)
  | [] => let* result := run_executor resources in ag_ret (apply_report result)
  end.

Definition status_of_processed (s : string) : AssignmentResultStatus :=
  if decide (s = "succeeded") then RSucceeded
  else if decide (s = "partially_applied") then RPartiallyApplied
  else RFailed.

Definition processed_of_status (r : AssignmentResultStatus) : string :=
  match r with RSucceeded => "succeeded" | RPartiallyApplied => "partially_applied" | RFailed => "failed" end.

Definition report (c : Client) (env : AssignmentEnvelope) (r : AssignmentResultRequest) : ag () :=
  ag_ignore (on_net (report_assignment http c (env_assignment_id env) r)).

(** The body of the loop over the fetched assignments: whether it counts as handled. *)
Definition handle_assignment (c : Client) (env : AssignmentEnvelope) : ag bool :=
  let id := env_assignment_id env in
  let* prior := ag_try (on_store (assignment_already_processed id)) in
  match prior with
  | Ok (Some prior_status) =>
      report c env (mkResult (status_of_processed prior_status)
                      (Some ("replay-of-already-processed assignment (" +:+ prior_status +:+ ")")) []) ;*
      ag_ret false
  | _ =>
      let* executed := ag_try (execute_assignment env) in
      match executed with
      | Ok r =>
          ag_ignore (on_store (mark_assignment_processed id (processed_of_status (res_status r)))) ;*
          report c env r ;*
          ag_ret true
      | Err e =>
          ag_ignore (on_store (mark_assignment_processed id "failed")) ;*
          report c env (mkResult RFailed (Some (msg_text (Txt "execution error: " :: match e with m :: _ => m | [] => [] end))) []) ;*
          ag_ret false
      end
  end.

(** One verified fetch. *)
Definition fetch (c : Client) : ag (list AssignmentEnvelope) :=
  let* k := ag_get (λ s, so_clock (ag_store s)) in
  let* _ := clock in
  on_net (fetch_assignments http c env_max_age (verify_at k)).

Definition drain_assignments : ag nat :=
  let* client := ag_get ag_client in
  match client with
  | None => ag_ret 0
  | Some c =>
      let* fetched := ag_try (fetch c) in
      match fetched with
      | Err _ => ag_ret 0
      | Ok envs => let* handled := ag_map (handle_assignment c) envs in ag_ret (count_if id handled)
      end
  end.

(** ** Observation *)

Definition load_manifests : ag (list Resource) :=
  let* n := ag_get ag_calls in
  match manifests_at n with
  | None => ag_ret []
  | Some entries =>
      ag_lift (map_err (λ e, [[Txt "loading manifests from "; Txt (ac_manifests_dir config)]; core_error_text e])
                 (load_directory (λ e, msg_text (core_error_text e)) (ac_manifests_dir config) entries))
  end.

(** The map by the text of the id, the server's entries last; the list in
    the order of that text. *)
Definition merge_resources (local server : list Resource) : list Resource :=
  let by_id := foldl (λ m r, <[rid_display (rid_of r) := r]> m) (∅ : gmap string Resource) (local ++ server) in
  order_by (λ a b, str_le (rid_display (rid_of a)) (rid_display (rid_of b))) (map_to_list by_id).*2.

Definition server_resources : ag (list Resource) :=
  let* client := ag_get ag_client in
  match client with
  | None => ag_ret []
  | Some c =>
      let* r := ag_try (on_net (fetch_desired_state http c)) in
      ag_ret match r with
             | Ok items => omap (λ it, match resource_of_json (it_resource it) with Ok r => Some r | Err _ => None end) items
             | Err _ => []
             end
  end.

Definition observation_resources : ag (list Resource) :=
  let* resources := load_manifests in
  let* server := server_resources in
  ag_ret (merge_resources resources server).

Definition severity_for (d : Diff) : string := if diff_reversible d then "warning" else "critical".

(** [push] of the error of a call, if it failed. *)
Definition collect {A} (what : message) (m : ag A) : ag (list message) :=
  let* r := ag_try m in
  ag_ret match r with Ok _ => [] | Err e => [what ++ match e with m :: _ => m | [] => [] end] end.

(** One resource: the errors it adds, and whether it drifts. *)
Definition observe_one (r : Resource) : ag (list message * bool) :=
  let id := rid_of r in
  let label := Txt (rid_display id) in
  match registry_require registry (r_kind r) with
  | Err e => ag_ret ([[label; Txt ": unknown kind: "] ++ core_error_text e], false)
  | Ok p =>
      let* v := ag_get (λ s, w_host (ag_world s)) in
      match p_observe p r v with
      | Err e => ag_ret ([[label; Txt ": observe failed: "] ++ core_error_text e], false)
      | Ok observed =>
          let* recorded := collect [label; Txt ": record observation: "] (on_store (record_observation id observed)) in
          match p_diff p r observed with
          | Err e => ag_ret (recorded ++ [[label; Txt ": diff failed: "] ++ core_error_text e], false)
          | Ok diff =>
              if is_change diff then
                let* opened := collect [label; Txt ": open drift: "] (on_store (open_drift id (severity_for diff) diff)) in
                ag_ret (recorded ++ opened, true)
              else
                let* closed := collect [label; Txt ": close drift: "] (on_store (close_open_drift_for id "drift cleared")) in
                ag_ret (recorded ++ closed, false)
          end
      end
  end.

Definition observe_resources_blocking (resources : list Resource) (started_at : Z) : ag ObserveCycleSummary :=
  let* outcomes := ag_map observe_one resources in
  let errors := concat (map fst outcomes) in
  let drift_count := count_if snd outcomes in
  let* finished_at := clock in
  let* n := ag_get (λ s, so_clock (ag_store s)) in
  let* _ := on_store (record_run started_at (Some finished_at) (Z.of_nat (length resources)) (Z.of_nat drift_count)
                        (match errors with [] => None | _ => Some (str_join "; " (map msg_text errors)) end)) in
  ag_ret (mkSummary started_at (elapsed_ms n) (length resources) drift_count errors).

(** ** The push *)

Definition to_item (id : ResourceId) (o : Observation) : ObservationItem :=
  mkObservationItem id (or_observed_at o) (or_present o) (or_spec o) (or_facts o).

Definition observation_batch (resources : list Resource) : ag (list ObservationItem) :=
  let* items := ag_map (λ r, let* row := on_store (last_observation (rid_display (rid_of r))) in
                             ag_ret (to_item (rid_of r) <$> row)) resources in
  ag_ret (omap id items).

Definition drift_row_to_item (row : DriftRow * Diff) : option DriftItem :=
  rid ← rid_parse (dw_resource_id row.1);
  Some (mkDriftItem rid (dw_severity row.1) row.2 (dw_detected_at row.1)).

Definition push_to_remote (summary : ObserveCycleSummary) : ag () :=
  reconnect ;*
  let* client := ag_get ag_client in
  match client with
  | None => ag_ret ()
  | Some c =>
      let* resources := observation_resources in
      let* observations := observation_batch resources in
      let* rows := on_store list_open_drifts in
      let* _ := on_net (push_observations http c observations) in
      on_net (push_drift http c (omap drift_row_to_item rows)) ;*
      let* open := on_store open_drift_count in
      on_net (heartbeat http c (if is_clean summary then Healthy else Degraded)
                (u32_try_from (Z.of_nat (oc_observed summary))) (u32_try_from open) (Some (ts_print (oc_at summary))))
  end.

(** ** Upkeep *)

Definition maybe_rotate_token : ag () :=
  let* client := ag_get ag_client in
  match client with
  | None => ag_ret ()
  | Some c =>
      let* now := clock in
      match token_seconds_until_expiry c now with
      | None => ag_ret ()
      | Some remaining =>
          let safety := Z.max (remaining / 2) 3600 in
          let* now := clock in
          let* _ := on_client (rotate_if_needed http io_error_text torn_identity (ac_identity_file config) identity_dir c safety now) in
          ag_ret ()
      end
  end.

Definition KEY_REFRESH_INTERVAL_SECS : Z := 3600.

Definition maybe_refresh_signing_keys : ag () :=
  let* at_ := clock in
  let now := as_second at_ in
  let* last := ag_get ag_last_key_refresh in
  if negb (last =? 0)%Z && (i64_sat_sub now last <? KEY_REFRESH_INTERVAL_SECS)%Z then ag_ret ()
  else
  let* client := ag_get ag_client in
  match client with
  | None => ag_ret ()
  | Some c =>
      let* r := ag_try (on_client (refresh_signing_keys http io_error_text torn_identity (ac_identity_file config) identity_dir c)) in
      match r with
      | Ok _ => ag_modify (set_refresh now)
      | Err _ => ag_ret ()
      end
  end.

Definition reset_remote_if_auth_error (e : Anyhow) : ag () :=
  let msg := chain_text e in
  if str_contains "401" msg || str_contains "Unauthorized" msg then ag_modify (set_client None) else ag_ret ().

(** ** The cycle *)

(** Temporary file and rename: a write that fails leaves the file as it was. *)
Definition write_status : ag () :=
  λ s, match status_write_at (ag_calls s) with
       | Ok _ => (Ok (), set_status_file (Some (ag_status s)) s)
       | Err e => (Err [[Txt "writing status "; Txt (ac_status_file config)]; [Ext e]], set_status_file (ag_status_file s) s)
       end.

(** [if let Err(e) = m { warn!(..); reset_remote_if_auth_error(&e) }] *)
Definition guarded {A} (m : ag A) : ag () :=
  let* r := ag_try m in
  match r with Ok _ => ag_ret () | Err e => reset_remote_if_auth_error e end.

Definition observe_once : ag ObserveCycleSummary :=
  let* started_at := clock in
  let* resources := observation_resources in
  let* summary := observe_resources_blocking resources started_at in
  let* open := on_store open_drift_count in
  ag_modify (λ s, set_status (record_cycle summary (Z.max 0 open) (oc_observed summary) (ag_status s)) s) ;*
  write_status ;*
  guarded (push_to_remote summary) ;*
  let* connected := has_remote in
  (if connected then guarded drain_assignments else ag_ret ()) ;*
  maybe_refresh_signing_keys ;*
  ag_ignore maybe_rotate_token ;*
  ag_ignore (on_store (vacuum_replay 7)) ;*
  ag_ret summary.

(** ** One-shot commands *)

Definition apply_once : ag ApplyResult :=
  let* resources := load_manifests in
  let* caps := ag_get (λ s, wt_caps (ag_watch s)) in
  let '(resources, _) := enforce_capabilities registry caps resources in
  let* result := run_executor resources in
  let* _ := ag_map (λ item, if decide (it_status item = INoChange ∨ it_status item = ISucceeded)
                            then on_store (close_open_drift_for (it_resource_id item) "apply converged")
                            else ag_ret 0%Z) (ar_items result) in
  ag_ret result.

Definition plan_once : ag PlanResult :=
  let* resources := load_manifests in
  let* caps := ag_get (λ s, wt_caps (ag_watch s)) in
  let '(resources, _) := enforce_capabilities registry caps resources in
  on_world (Executor.plan registry (ac_actor config) resources).

Definition rollback (operation_id : Z) : ag () := on_world (Executor.rollback ws_empty registry operation_id).

(** ** The loop *)

Definition force_initial_heartbeat : ag () :=
  reconnect ;*
  let* client := ag_get ag_client in
  match client with
  | None => ag_ret ()
  | Some c => on_net (heartbeat http c Healthy 0 0 None)
  end.

Fixpoint ticks (n : nat) : ag () :=
  match n with
  | O => ag_ret ()
  | S n => ag_ignore observe_once ;* ticks n
  end.

(** The first cycle, then [n] ticks until the shutdown; tokio's interval
    panics on a period of zero. *)
Definition run (n : nat) (s : State) : panics State :=
  let s1 := (ag_ignore observe_once (ag_ignore force_initial_heartbeat s).2).2 in
  if (ac_observe_interval config =? 0)%Z then None else Some (ticks n s1).2.

(** [Agent::new]: a new process on the same host, disk and network; the
    watcher takes the file's time at the start of the loop. *)
Definition agent_new (parse_yaml : string → result string RawCapabilities) (mtime : option Z)
    (file : option (result string string)) : ag () :=
  on_store migrate ;*
  let* at_ := clock in
  let* caps := ag_lift (Capabilities.load (ac_capabilities_file config) parse_yaml file) in
  ag_modify (λ s, mkAgentOf (ag_world s) (ag_store s) (ag_host s) (ag_calls s) None (mkWatch caps mtime)
                    (status_initial at_ config) (ag_status_file s) 0).

(** A tick of the capability watcher, beside the loop. *)
Definition capabilities_watcher (parse_yaml : string → result string RawCapabilities) (mtime : option Z)
    (file : option (result string string)) : ag () :=
  ag_modify (λ s, set_watch (watch_tick (ac_capabilities_file config) parse_yaml mtime file (ag_watch s)) s).

End Agent.
