(* ===== verification/AgentLoopProps.v ===== *)
(** * The steps of the agent, and what its store remembers

    The transition system of an agent: its cycles, the operator's commands,
    restarts, and whatever changes around it. No step takes a record of a
    processed assignment away before it is a week old. *)

From S2P Require Import Prelude Text Json ApiError Routing Db AuditLog Ids Dispatch Views Clock Diff Drift Agents Secrets Signing RateLimit AgentApi Executor Capabilities AgentStore PluginSpec AgentConfig Remote RemoteProps AgentLoop.

#[local] Open Scope string_scope.
#[local] Open Scope list_scope.
#[local] Open Scope nat_scope.

(** ** What the store remembers *)

Definition WEEK : Z := 604800.

(** [Timestamp::MAX], 9999-12-30T22:00:00.999999999Z. *)
Definition TIMESTAMP_MAX : Z := 253402207200999999999.

(** What the printed times promise: those of different seconds compare as
    texts, and a week can be taken off a time of the present. *)
Class TimeLaws `{Jiff, JiffHours} : Prop := {
  print_order a b : (0 ≤ a)%Z → (b ≤ TIMESTAMP_MAX)%Z → (as_second a < as_second b)%Z → str_lt (ts_print a) (ts_print b) = true;
  sub_week t : (WEEK * NANOS ≤ t)%Z → ts_sub t WEEK = Ok (t - WEEK * NANOS)%Z
}.

Lemma as_second_mono a b : (a ≤ b)%Z → (as_second a ≤ as_second b)%Z.
Proof. intros Hab. unfold as_second. apply Z.quot_le_mono; [done|]. exact Hab. Qed.

Lemma as_second_week t : (WEEK * NANOS ≤ t)%Z → as_second (t - WEEK * NANOS) = (as_second t - WEEK)%Z.
Proof.
  intros Ht. assert (0 < NANOS)%Z by done. assert (0 ≤ WEEK * NANOS)%Z by done. unfold as_second.
  rewrite !Z.quot_div_nonneg by lia. replace (t - WEEK * NANOS)%Z with (t + - WEEK * NANOS)%Z by lia.
  rewrite Z.div_add by lia. lia.
Qed.

Lemma str_lt_asym a b : str_lt a b = true → str_lt b a = false.
Proof.
  intros H. apply not_true_iff_false. intros H'. pose proof (str_lt_trans _ _ _ H H') as Hc.
  by rewrite str_lt_irrefl in Hc.
Qed.

Section Store.
Context `{StoreEnv, TimeLaws, JsonCodec, DiffCodec}.
Context (Hmono : ∀ i j, i ≤ j → (clock_at i ≤ clock_at j)%Z) (Hpresent : ∀ i, (WEEK * NANOS ≤ clock_at i ≤ TIMESTAMP_MAX)%Z).

(** The store goes on: its clock has not gone back, and a row about an
    assignment is still there as long as it is not a week old. *)
Definition remembers (s s' : Store) : Prop :=
  so_clock s ≤ so_clock s' ∧
  ∀ id p status, (p ≤ TIMESTAMP_MAX)%Z → (as_second (clock_at (so_clock s')) < as_second p + WEEK)%Z →
    mkProcessed id (ts_print p) status ∈ tb_processed (so_tables s) →
    mkProcessed id (ts_print p) status ∈ tb_processed (so_tables s').

Lemma remembers_refl s : remembers s s.
Proof. split; [done|]. eauto. Qed.

Lemma remembers_trans s1 s2 s3 : remembers s1 s2 → remembers s2 s3 → remembers s1 s3.
Proof.
  intros [Hc1 Hr1] [Hc2 Hr2]. split; [lia|]. intros id p status Hmax Hp Hin. apply Hr2; [done..|]. apply Hr1; [done| |done].
  pose proof (as_second_mono _ _ (Hmono _ _ Hc2)). lia.
Qed.

Definition st_keeps {A} (m : st A) : Prop := ∀ s, remembers s (m s).2.

Lemma st_keeps_bind {A B} (m : st A) (f : A → st B) : st_keeps m → (∀ a, st_keeps (f a)) → st_keeps (st_bind m f).
Proof.
  intros Hm Hf s. unfold st_bind. specialize (Hm s). destruct (m s) as [[a|e] s'].
  - eapply remembers_trans; [exact Hm|apply Hf].
  - exact Hm.
Qed.

Lemma st_keeps_same {A} (m : st A) :
  (∀ s, so_clock s ≤ so_clock (m s).2 ∧ tb_processed (so_tables (m s).2) = tb_processed (so_tables s)) → st_keeps m.
Proof. intros Hm s. destruct (Hm s) as [Hc He]. split; [done|]. intros id p status _ _. by rewrite He. Qed.

Lemma st_keeps_ret {A} (a : A) : st_keeps (st_ret a).
Proof. by apply st_keeps_same. Qed.
Lemma st_keeps_throw {A} e : st_keeps (A := A) (st_throw e).
Proof. by apply st_keeps_same. Qed.
Lemma st_keeps_lift {A} (r : result string A) : st_keeps (st_lift r).
Proof. by apply st_keeps_same. Qed.
Lemma st_keeps_query {A} (f : Tables → A) : st_keeps (sql_query f).
Proof. by apply st_keeps_same. Qed.
Lemma st_keeps_now : st_keeps now.
Proof. apply st_keeps_same. intros s. cbn. split; [lia|done]. Qed.

Lemma st_keeps_exec {A} (f : Tables → A * Tables) :
  (∀ t, tb_processed (f t).2 = tb_processed t) → st_keeps (sql_exec f).
Proof.
  intros Hf. apply st_keeps_same. intros s. unfold sql_exec. destruct (sql_at (so_sql s)); [|done].
  specialize (Hf (so_tables s)). by destruct (f (so_tables s)).
Qed.

Lemma st_keeps_or_else {A} (a : A) (m : st A) : st_keeps m → st_keeps (or_else a m).
Proof. intros Hm s. specialize (Hm s). unfold or_else. by destruct (m s) as [[?|?] ?]. Qed.

Lemma st_keeps_transaction {A} (m : st A) : st_keeps m → st_keeps (transaction m).
Proof.
  intros Hm s. specialize (Hm s). unfold transaction. destruct (m s) as [[?|?] s']; [done|].
  destruct Hm as [Hc _]. split; [done|]. eauto.
Qed.

Hint Resolve st_keeps_ret st_keeps_throw st_keeps_lift st_keeps_query st_keeps_now st_keeps_or_else st_keeps_transaction : keeps.

(** Runs through a chain of binds. *)
Ltac st_keep :=
  repeat (first [ progress auto with keeps | apply st_keeps_bind; [|intros ?] | apply st_keeps_exec; by intros ?
                | case_match ]).

Lemma keeps_migrate : st_keeps migrate.
Proof. unfold migrate. apply st_keeps_transaction. st_keep. Qed.

Lemma keeps_record_observation id o : st_keeps (record_observation id o).
Proof. unfold record_observation. st_keep. Qed.

Lemma keeps_last_observation rid : st_keeps (last_observation rid).
Proof. unfold last_observation. st_keep. Qed.

Lemma keeps_open_drift id severity d : st_keeps (open_drift id severity d).
Proof. unfold open_drift. st_keep. Qed.

Lemma keeps_resolve_where p resolution : st_keeps (resolve_where p resolution).
Proof. unfold resolve_where. st_keep. Qed.

Lemma keeps_list_open_drifts : st_keeps list_open_drifts.
Proof. unfold list_open_drifts. st_keep. Qed.

Lemma keeps_record_run a b c d e : st_keeps (record_run a b c d e).
Proof. unfold record_run. st_keep. Qed.

Lemma elem_of_insert_or_ignore r x rows : x ∈ rows → x ∈ insert_or_ignore r rows.
Proof. intros Hx. unfold insert_or_ignore. case_match; [done|]. apply elem_of_app. by left. Qed.

Lemma keeps_mark id status : st_keeps (mark_assignment_processed id status).
Proof.
  unfold mark_assignment_processed. apply st_keeps_bind; [auto with keeps|]. intros at_ s. unfold sql_exec.
  destruct (sql_at (so_sql s)); (split; [done|]); cbn; [|eauto]. intros id' p st' _ _. apply elem_of_insert_or_ignore.
Qed.

(** The rows a vacuum deletes are a week old. *)
Lemma keeps_vacuum : st_keeps (vacuum_replay 7).
Proof.
  intros s. unfold vacuum_replay, st_bind, now. cbn.
  change (7 * 86400)%Z with WEEK. rewrite sub_week by apply Hpresent. cbn. unfold sql_exec. cbn.
  destruct (sql_at (so_sql s)); (split; cbn; [lia|]); [|eauto].
  intros id p status Hmax Hp Hin. apply elem_of_delete_where. split; [done|]. cbn. apply str_lt_asym, print_order; [|done|].
  - pose proof (Hpresent (so_clock s)). lia.
  - rewrite as_second_week by apply Hpresent.
    pose proof (as_second_mono _ _ (Hmono (so_clock s) (S (so_clock s)) ltac:(lia))). lia.
Qed.

End Store.

#[export] Hint Resolve st_keeps_ret st_keeps_throw st_keeps_lift st_keeps_query st_keeps_now st_keeps_or_else
  st_keeps_transaction keeps_migrate keeps_record_observation keeps_last_observation keeps_open_drift
  keeps_resolve_where keeps_list_open_drifts keeps_record_run keeps_mark keeps_vacuum : keeps.

(** ** Steps of the agent *)

Section Agent.
Context {V W N : Type} (ws_empty : W) (http : Remote.Request → N → result string HttpResponse * N).
Context `{AgentEnv, StoreEnv, ExecEnv, DebugText}.
Context `{TimeLaws, JsonCodec, DiffCodec, Sha256, Ed25519, Base64, WireCodec, StatusText, IdentityCodec, Globset, Yaml}.
Context (config : Config) (registry : ProviderRegistry V W).

Abbreviation State := (Agent V W N).
Abbreviation ag := (@ag V W N).
Abbreviation handle := (handle_assignment (V := V) (W := W) ws_empty http config registry).
Abbreviation handle_all c := (ag_map (handle c)).
Abbreviation fetch := (AgentLoop.fetch (V := V) (W := W) http).

(** What an agent goes through: its own operations, the commands of the
    operator, restarts, ticks of the watcher, and whatever changes on the
    host, on its disk and in the network. *)
Inductive agent_step : State → State → Prop :=
| step_cycle s : agent_step s (observe_once ws_empty http config registry s).2
| step_heartbeat s : agent_step s (force_initial_heartbeat http config s).2
| step_assignment c env s : agent_step s (handle c env s).2
| step_apply s : agent_step s (apply_once ws_empty config registry s).2
| step_plan s : agent_step s (plan_once config registry s).2
| step_rollback op s : agent_step s (rollback ws_empty registry op s).2
| step_resolve i resolution s : agent_step s (on_store (resolve_drift i resolution) s).2
| step_watch parse mtime file s : agent_step s (capabilities_watcher config parse mtime file s).2
| step_restart parse mtime file s : agent_step s (agent_new config parse mtime file s).2
| step_outside w h calls file s :
    agent_step s (mkAgentOf w (ag_store s) h calls (ag_client s) (ag_watch s) (ag_status s) file (ag_last_key_refresh s))
| step_time k s : so_clock (ag_store s) ≤ k →
    agent_step s (set_store (mkStore (so_tables (ag_store s)) (so_sql (ag_store s)) k) s).

(** ** Replay *)

Context (Hmono : ∀ i j, i ≤ j → (clock_at i ≤ clock_at j)%Z) (Hpresent : ∀ i, (WEEK * NANOS ≤ clock_at i ≤ TIMESTAMP_MAX)%Z).

Definition keeps {A} (m : ag A) : Prop := ∀ s, remembers (ag_store s) (ag_store (m s).2).

Lemma ag_keeps_bind {A B} (m : ag A) (f : A → ag B) : keeps m → (∀ a, keeps (f a)) → keeps (ag_bind m f).
Proof.
  intros Hm Hf s. unfold ag_bind. specialize (Hm s). destruct (m s) as [[a|e] s'].
  - eapply (remembers_trans Hmono); [exact Hm|apply Hf].
  - exact Hm.
Qed.

Lemma ag_keeps_same {A} (m : ag A) : (∀ s, ag_store (m s).2 = ag_store s) → keeps m.
Proof. intros Hm s. rewrite Hm. apply remembers_refl. Qed.

Lemma keeps_ret {A} (a : A) : keeps (ag_ret a).
Proof. by apply ag_keeps_same. Qed.
Lemma keeps_throw {A} e : keeps (A := A) (ag_throw e).
Proof. by apply ag_keeps_same. Qed.
Lemma keeps_get {A} (f : State → A) : keeps (ag_get f).
Proof. by apply ag_keeps_same. Qed.
Lemma keeps_lift {A} (r : result Anyhow A) : keeps (ag_lift r).
Proof. by apply ag_keeps_same. Qed.
Lemma keeps_modify (f : State → State) : (∀ s, ag_store (f s) = ag_store s) → keeps (ag_modify f).
Proof. intros Hf. by apply ag_keeps_same. Qed.
Lemma keeps_on_world {A} (m : ex V W A) : keeps (on_world m).
Proof. apply ag_keeps_same. intros s. unfold on_world. by destruct (m (ag_world s)). Qed.
Lemma keeps_on_net {A} (m : fs_on (Host N) A) : keeps (on_net m).
Proof. apply ag_keeps_same. intros s. unfold on_net. by destruct (m (ag_host s) _) as [[? ?] ?]. Qed.
Lemma keeps_on_client {A} (m : Host N → nat → (result Anyhow A * Client) * Host N * nat) : keeps (on_client m).
Proof. apply ag_keeps_same. intros s. unfold on_client. by destruct (m (ag_host s) _) as [[[? ?] ?] ?]. Qed.
Lemma keeps_on_store {A} (m : st A) : st_keeps m → keeps (on_store m).
Proof. intros Hm s. specialize (Hm (ag_store s)). unfold on_store. by destruct (m (ag_store s)). Qed.
Lemma keeps_try {A} (m : ag A) : keeps m → keeps (ag_try m).
Proof. intros Hm s. specialize (Hm s). unfold ag_try. by destruct (m s). Qed.
Lemma keeps_ignore {A} (m : ag A) : keeps m → keeps (ag_ignore m).
Proof. intros Hm s. apply Hm. Qed.
Lemma keeps_map {A B} (body : A → ag B) xs : (∀ x, keeps (body x)) → keeps (ag_map body xs).
Proof.
  intros Hb. induction xs as [|x xs IH]; cbn [ag_map]; [apply keeps_ret|].
  apply ag_keeps_bind; [done|]. intros y. apply ag_keeps_bind; [done|]. intros ys. apply keeps_ret.
Qed.
Lemma keeps_write_status : keeps (write_status config).
Proof. apply ag_keeps_same. intros s. unfold write_status. by destruct (status_write_at _). Qed.

Hint Resolve keeps_ret keeps_throw keeps_get keeps_lift keeps_modify keeps_on_world keeps_on_net keeps_on_client
  keeps_on_store keeps_try keeps_ignore keeps_map keeps_write_status : keeps.

Ltac keep :=
  repeat (first [ progress auto with keeps
                | lazymatch goal with
                  | |- keeps (ag_bind _ _) => apply ag_keeps_bind; [|intros ?]
                  | |- keeps (ag_try _) => apply keeps_try
                  | |- keeps (ag_ignore _) => apply keeps_ignore
                  | |- keeps (ag_map _ _) => apply keeps_map; intros ?
                  | |- keeps (on_store _) => apply keeps_on_store
                  end
                | case_match ]).

Lemma keeps_reconnect : keeps (reconnect http config).
Proof. unfold reconnect, has_remote, connect_remote, clock. keep. Qed.
Hint Resolve keeps_reconnect : keeps.

Lemma keeps_execute env : keeps (execute_assignment ws_empty config registry env).
Proof. unfold execute_assignment, run_executor. keep. Qed.
Hint Resolve keeps_execute : keeps.

Lemma keeps_handle c env : keeps (handle c env).
Proof. unfold handle_assignment, report, assignment_already_processed. keep. Qed.
Hint Resolve keeps_handle : keeps.

Lemma keeps_fetch c : keeps (fetch c).
Proof. unfold AgentLoop.fetch, clock. keep. Qed.

Lemma keeps_observation_resources : keeps (observation_resources http config).
Proof. unfold observation_resources, load_manifests, server_resources. keep. Qed.
Hint Resolve keeps_fetch keeps_observation_resources : keeps.

Lemma keeps_observe_one r : keeps (observe_one registry r).
Proof. unfold observe_one, collect, close_open_drift_for. keep. Qed.
Hint Resolve keeps_observe_one : keeps.

Lemma keeps_reset e : keeps (reset_remote_if_auth_error e).
Proof. unfold reset_remote_if_auth_error. keep. Qed.
Hint Resolve keeps_reset : keeps.

Lemma keeps_guarded {A} (m : ag A) : keeps m → keeps (guarded m).
Proof. intros Hm. unfold guarded. keep. Qed.

Lemma keeps_push summary : keeps (push_to_remote http config summary).
Proof. unfold push_to_remote, observation_batch, open_drift_count. keep. Qed.

Lemma keeps_drain : keeps (drain_assignments ws_empty http config registry).
Proof. unfold drain_assignments. keep. Qed.
Hint Resolve keeps_guarded keeps_push keeps_drain : keeps.

Lemma keeps_observe_once : keeps (observe_once ws_empty http config registry).
Proof.
  unfold observe_once, observe_resources_blocking, maybe_refresh_signing_keys, maybe_rotate_token, has_remote, clock, open_drift_count.
  keep.
Qed.

Lemma keeps_agent_step s s' : agent_step s s' → remembers (ag_store s) (ag_store s').
Proof.
  intros [ | | | | | | | | | |k s0 Hk].
  - apply keeps_observe_once.
  - revert s0. change (keeps (force_initial_heartbeat http config)). unfold force_initial_heartbeat. keep.
  - apply keeps_handle.
  - revert s0. change (keeps (apply_once ws_empty config registry)). unfold apply_once, load_manifests, run_executor, close_open_drift_for. keep.
  - revert s0. change (keeps (plan_once config registry)). unfold plan_once, load_manifests. keep.
  - revert s0. apply keeps_on_world.
  - revert s0. by apply keeps_on_store, keeps_resolve_where.
  - revert s0. by apply keeps_modify.
  - revert s0. change (keeps (agent_new config parse mtime file)). unfold agent_new, clock. keep.
  - apply remembers_refl.
  - split; [done|]. eauto.
Qed.

Lemma keeps_steps s s' : rtc agent_step s s' → remembers (ag_store s) (ag_store s').
Proof.
  induction 1 as [s|s s1 s' Hs _ IH]; [apply remembers_refl|]. eapply (remembers_trans Hmono); [|exact IH].
  by apply keeps_agent_step.
Qed.

(** ** Upkeep *)

(** A token is rotated in the last hour of its life only: the margin is half
    of what remains, or an hour. *)
Lemma rotation_waits c r (s : State) :
  ag_client s = Some c →
  token_seconds_until_expiry c (clock_at (so_clock (ag_store s))) = Some r →
  token_seconds_until_expiry c (clock_at (S (so_clock (ag_store s)))) = Some r →
  (3600 < r)%Z → ag_host (maybe_rotate_token http config s).2 = ag_host s.
Proof.
  intros Hc Hr1 Hr2 Hr. unfold maybe_rotate_token, ag_bind at 1, ag_get. rewrite Hc. unfold clock, on_store, now, ag_bind. cbn.
  rewrite Hr1. cbn. unfold on_client, rotate_if_needed. rewrite Hr2.
  destruct (Z.ltb_spec (Z.max (r / 2) 3600) r) as [_|Hn]; [done|].
  pose proof (Z.div_lt r 2). lia.
Qed.

(** The drain never fails: a fetch that is refused counts as an empty one. *)
Lemma drain_never_fails (s : State) : ∃ n, (drain_assignments ws_empty http config registry s).1 = Ok n.
Proof.
  unfold drain_assignments, ag_bind at 1, ag_get. destruct (ag_client s) as [c|]; [|by eexists].
  unfold ag_bind at 1, ag_try. destruct (fetch c s) as [[envs|e] s1]; [|by eexists].
  assert (∀ env s, ∃ b, (handle c env s).1 = Ok b) as Hh.
  { intros env s0. unfold handle_assignment. unfold ag_bind at 1, ag_try.
    destruct (on_store _ s0) as [[[prior|]|e] s2].
    - by eexists.
    - unfold ag_bind at 1. destruct (execute_assignment _ _ _ env s2) as [[r|e] s3]; by eexists.
    - unfold ag_bind at 1. destruct (execute_assignment _ _ _ env s2) as [[r|e'] s3]; by eexists. }
  enough (∀ envs s, ∃ bs, (ag_map (handle c) envs s).1 = Ok bs) as Hm.
  { destruct (Hm envs s1) as [bs Hbs]. unfold ag_bind. destruct (ag_map (handle c) envs s1) as [[?|?] ?]; [by eexists|done]. }
  clear s s1 envs. induction envs as [|env envs IH]; intros s; [by eexists|]. cbn [ag_map]. unfold ag_bind.
  destruct (Hh env s) as [b Hb]. destruct (handle c env s) as [[?|?] s2]; [|done].
  destruct (IH s2) as [bs Hbs]. destruct (ag_map (handle c) envs s2) as [[?|?] ?]; [by eexists|done].
Qed.

(** An interval of zero stops the agent after its first cycle. *)
Lemma zero_interval_panics n (s : State) : ac_observe_interval config = 0%Z → run ws_empty http config registry n s = None.
Proof. intros Hz. unfold run. by rewrite Hz. Qed.

End Agent.
