(* ===== verification/AgentRunProps.v ===== *)
(** * What the agent as a whole guarantees

    No assignment is executed twice, over any run of the agent's steps; the
    allowlist stands before every execution; an observe cycle mirrors the
    host. *)

From stdpp Require Import pretty.
From S2P Require Import Prelude Text Json ApiError Routing Db AuditLog Ids Dispatch Views Clock Diff Drift Agents Secrets Signing RateLimit AgentApi Executor Capabilities AgentStore PluginSpec AgentConfig Remote RemoteProps AgentLoop AgentLoopProps ExecutorProps.

#[local] Open Scope string_scope.
#[local] Open Scope list_scope.
#[local] Open Scope nat_scope.

(** ** A concrete agent

    Instances of what the agent's definitions draw from outside, for the
    witnesses and examples: a clock that ticks every second, a store and a
    disk that work, signatures that always verify, and a network that answers
    every request with the same assignment. *)

(** ** Times

    The seconds in 40 binary digits. *)

Fixpoint bits (w : nat) (z : Z) : string :=
  match w with
  | O => ""
  | S w => if (z <? 2 ^ Z.of_nat w)%Z then "0" +:+ bits w z else "1" +:+ bits w (z - 2 ^ Z.of_nat w)
  end.

Lemma bits_order w a b : (0 ≤ a < b)%Z → (b < 2 ^ Z.of_nat w)%Z → str_lt (bits w a) (bits w b) = true.
Proof.
  revert a b. induction w as [|w IH]; intros a b Hab Hb; [cbn in Hb; lia|].
  assert (2 ^ Z.of_nat (S w) = 2 * 2 ^ Z.of_nat w)%Z as Hp by (rewrite Nat2Z.inj_succ, Z.pow_succ_r; lia).
  apply str_lt_spec. cbn [bits].
  destruct (Z.ltb_spec a (2 ^ Z.of_nat w)), (Z.ltb_spec b (2 ^ Z.of_nat w)); try lia.
  - apply str_lt_spec, (IH a b); lia.
  - done.
  - apply str_lt_spec, (IH (a - 2 ^ Z.of_nat w) (b - 2 ^ Z.of_nat w))%Z; lia.
Qed.

#[export] Instance bit_times : Jiff := {|
  ts_parse s := ok_or ((λ z, z * NANOS)%Z <$> (d ← strip_prefix "@" s; parse_unsigned u64_max d)) "not a timestamp";
  ts_print t := bits 40 (as_second t);
  ts_span s := Ok s;
  ts_add t s := Ok (t + s * NANOS)%Z
|}.

#[export] Instance bit_spans : JiffHours := {|
  ts_span_hours h := Ok (h * 3600)%Z; span_zero := 0%Z; ts_sub t s := Ok (t - s * NANOS)%Z
|}.

#[export] Instance bit_time_laws : TimeLaws.
Proof.
  split; [|reflexivity]. intros a b Ha Hb Hab. cbn [ts_print bit_times]. apply bits_order.
  - split; [|exact Hab]. unfold as_second. apply Z.quot_pos; [exact Ha|reflexivity].
  - eapply Z.le_lt_trans; [apply as_second_mono, Hb|]. vm_compute. reflexivity.
Qed.

(** ** The rest of the outside *)

#[export] Instance ticking_store : StoreEnv := {|
  sql_at _ := Ok (); clock_at n := ((WEEK + Z.min 1000000 (Z.of_nat n)) * NANOS)%Z;
  observed_spec_text _ := Ok "spec"; observed_facts_text _ := Ok "facts"
|}.

Lemma ticking_mono i j : i ≤ j → (clock_at i ≤ clock_at j)%Z.
Proof. intros Hij. cbn. apply Z.mul_le_mono_nonneg_r; [done|]. lia. Qed.

Lemma ticking_present i : (WEEK * NANOS ≤ clock_at i ≤ TIMESTAMP_MAX)%Z.
Proof. cbn. unfold WEEK, NANOS, TIMESTAMP_MAX. lia. Qed.

Lemma ticking_sql n : sql_at n = Ok ().
Proof. reflexivity. Qed.

#[export] Instance demo_text : DebugText := λ s, s.
#[export] Instance demo_digest : Sha256 := λ _, "0123456789abcdef".
#[export] Instance demo_json : JsonCodec := {| json_from_str _ := Ok JNull; json_to_string _ := "" |}.
#[export] Instance demo_diffs : DiffCodec := {| diff_from_str _ := Ok no_change; diff_to_string _ := "diff" |}.
#[export] Instance demo_base64 : Base64 := {| b64_encode s := s; b64_decode s := Ok s |}.
#[export] Instance trusting : Ed25519 := {|
  ed_public s := s; ed_sign _ m := m; ed_verify _ _ _ := true; ed_point _ := true |}.
#[export] Instance demo_reason : StatusText := λ _, "".
#[export] Instance demo_identities : IdentityCodec := {|
  identity_to_text _ := "identity"; identity_from_text _ := Err "not an identity" |}.

(** Patterns are literal, or end in a star that stands for any rest. *)
#[export] Instance demo_globs : Globset := {|
  glob_new _ := Ok (); globset_build _ := Ok ();
  glob_match g key := match strip_suffix "*" g with Some p => starts_with p key | None => bool_decide (g = key) end
|}.

#[export] Instance demo_yaml : Yaml := {|
  from_utf8 s := Ok s; yaml_documents _ := []; resource_of_yaml _ := Err "no resource" |}.

(** A resource of kind text, from its name and value. *)
Definition text_of_json (v : Json) : result string Resource :=
  match v with JArray [JString n; JString x] => Ok (text_resource n x) | _ => Err "not a resource" end.

#[export] Instance demo_outside : AgentEnv := {|
  verify_at k _ := clock_at k; disk_at _ := 100; status_write_at _ := Ok (); manifests_at _ := None; elapsed_ms _ := 1%Z;
  env_max_age := Some 86400%Z; env_enrollment := None; agent_version := "0.1.0"; resource_of_json := text_of_json;
  io_error_text _ := "I/O error"; torn_identity := ""; identity_dir := "/state"
|}.

Lemma demo_verify_between env k : (clock_at k ≤ verify_at k env ≤ clock_at (S k))%Z.
Proof. split; [reflexivity|]. apply ticking_mono. lia. Qed.

(** An assignment that sets one text. *)
Definition demo_assignment : AssignmentEnvelope :=
  mkEnvelope "as1" "op1" "apply" "@604800" None (mkPayload [JArray [JString "a"; JString "x"]]) "K"
    (str_join "" (repeat "0123456789abcdef" 4)).

#[export] Instance demo_answers : WireCodec := {|
  decode_register _ := Err "no"; decode_bundle _ := Err "no"; decode_assignments _ := Ok [demo_assignment]; decode_desired _ := Ok [] |}.

Definition demo_http (rq : Remote.Request) (n : ()) : result string HttpResponse * () := (Ok (mkHttp 200 ""), n).

Definition demo_client : Client :=
  mkClient "http://cp" (mkIdentity "a1" "tok" "http://cp" "@0" [] None None None) {["K" := "key"]}.

Definition demo_config : Config :=
  mkConfig "/state" "/manifests" "/state/status.json" "/state/agent.db" 60 "prod" "agent" (Some "http://cp")
    "/state/identity.json" "vm1" "/state/capabilities.yaml" (mkAgentTls None None None) [] [] [].

Definition demo_agent (caps : option Capabilities) : Agent string () () :=
  mkAgentOf fresh_world (mkStore new_tables 0 0) (mkHost () None None) 0 (Some demo_client) (mkWatch caps None)
    (status_initial 0 demo_config) None 0.

Section Agent.
Context {V W N : Type} (ws_empty : W) (http : Remote.Request → N → result string HttpResponse * N).
Context `{AgentEnv, StoreEnv, ExecEnv, DebugText}.
Context `{TimeLaws, JsonCodec, DiffCodec, Sha256, Ed25519, Base64, WireCodec, StatusText, IdentityCodec, Globset, Yaml}.
Context (config : Config) (registry : ProviderRegistry V W).

Abbreviation State := (Agent V W N).
Abbreviation ag := (@ag V W N).
Abbreviation handle := (handle_assignment (V := V) (W := W) ws_empty http config registry).
Abbreviation handle_all c := (ag_map (handle c)).
Abbreviation fetch := (AgentLoop.fetch (V := V) (W := W) http).

Abbreviation agent_step := (AgentLoopProps.agent_step ws_empty http config registry).

Context (Hmono : ∀ i j, i ≤ j → (clock_at i ≤ clock_at j)%Z) (Hpresent : ∀ i, (WEEK * NANOS ≤ clock_at i ≤ TIMESTAMP_MAX)%Z).

(** *** An assignment executed leaves its mark *)

Context (Hsql : ∀ n, sql_at n = Ok ()).

Lemma query_Ok {A} (f : Tables → A) x :
  sql_query f x = (Ok (f (so_tables x)), mkStore (so_tables x) (S (so_sql x)) (so_clock x)).
Proof. unfold sql_query. by rewrite Hsql. Qed.

Lemma mark_Ok id status x :
  mark_assignment_processed id status x =
  (Ok (), mkStore (set_processed (insert_or_ignore (mkProcessed id (ts_print (clock_at (so_clock x))) status)
                                    (tb_processed (so_tables x))) (so_tables x)) (S (so_sql x)) (S (so_clock x))).
Proof. unfold mark_assignment_processed, st_bind, now, sql_exec. cbn. by rewrite Hsql. Qed.

Lemma execute_store env (s : State) : ag_store (execute_assignment ws_empty config registry env s).2 = ag_store s.
Proof.
  unfold execute_assignment. case_decide; [done|]. unfold ag_bind, ag_lift, ag_get.
  destruct (map_err _ _) as [rs|]; [|done]. destruct (enforce_capabilities _ _ rs) as [rs' [|? ?]]; [|done].
  unfold run_executor, on_world. destruct (Executor.apply _ _ _ _ _) as [[?|?] ?]; done.
Qed.

Lemma bind_try {A B} (m : ag A) (f : result Anyhow A → ag B) s : ag_bind (ag_try m) f s = f (m s).1 (m s).2.
Proof. unfold ag_bind, ag_try. by destruct (m s). Qed.
Lemma bind_ignore {A B} (m : ag A) (f : () → ag B) s : ag_bind (ag_ignore m) f s = f () (m s).2.
Proof. reflexivity. Qed.
Lemma on_store_run {A} (m : st A) (s : State) : on_store m s = ((m (ag_store s)).1, set_store (m (ag_store s)).2 s).
Proof. unfold on_store. by destruct (m (ag_store s)). Qed.
Lemma store_on_net {A} (m : fs_on (Host N) A) (s : State) : ag_store (on_net m s).2 = ag_store s.
Proof. unfold on_net. by destruct (m (ag_host s) _) as [[? ?] ?]. Qed.
Lemma world_on_net {A} (m : fs_on (Host N) A) (s : State) : ag_world (on_net m s).2 = ag_world s.
Proof. unfold on_net. by destruct (m (ag_host s) _) as [[? ?] ?]. Qed.

Lemma handle_store c env (s : State) (Hnew : (assignment_already_processed (env_assignment_id env) (ag_store s)).1 = Ok None) :
  ∃ status, ag_store (handle c env s).2 =
    mkStore (set_processed (insert_or_ignore (mkProcessed (env_assignment_id env) (ts_print (clock_at (so_clock (ag_store s)))) status)
                              (tb_processed (so_tables (ag_store s)))) (so_tables (ag_store s)))
      (S (S (so_sql (ag_store s)))) (S (so_clock (ag_store s))).
Proof.
  unfold handle_assignment. rewrite bind_try, on_store_run. cbn [fst snd].
  unfold assignment_already_processed in *. rewrite query_Ok in *. cbn [fst snd] in *. injection Hnew as ->.
  rewrite bind_try. set (s0 := set_store _ s). pose proof (execute_store env s0) as Hx.
  destruct (execute_assignment _ _ _ env s0) as [[r|e] s1]; cbn [fst snd] in *;
    rewrite bind_ignore; unfold report; rewrite bind_ignore; cbn [ag_ret snd]; rewrite store_on_net, on_store_run, mark_Ok;
    cbn [snd set_store ag_store]; rewrite Hx; [by exists (processed_of_status (res_status r))|by exists "failed"].
Qed.

Lemma insert_or_ignore_new r rows :
  pw_status <$> List.find (λ x, seqb (pw_assignment_id x) (pw_assignment_id r)) rows = None → r ∈ insert_or_ignore r rows.
Proof.
  intros Hf. unfold insert_or_ignore. destruct (existsb _ rows) eqn:He; [|apply elem_of_app; right; left].
  apply existsb_exists in He as (x & Hin & Hx). destruct (List.find _ rows) eqn:Hfind; [done|].
  by rewrite (find_none _ _ Hfind x Hin) in Hx.
Qed.

(** An assignment with a row is answered without being executed. *)
Lemma handle_replay c env (s : State) p status :
  mkProcessed (env_assignment_id env) p status ∈ tb_processed (so_tables (ag_store s)) →
  (handle c env s).1 = Ok false ∧ ag_world (handle c env s).2 = ag_world s.
Proof.
  intros Hin. unfold handle_assignment. rewrite bind_try, on_store_run. cbn [fst snd].
  unfold assignment_already_processed. rewrite query_Ok. cbn [fst snd]. destruct (List.find _ _) as [r|] eqn:Hf.
  - cbn [fmap option_fmap option_map]. unfold report. rewrite bind_ignore. split; [done|]. cbn [ag_ret snd]. by rewrite world_on_net.
  - apply list_elem_of_In in Hin. apply (find_none _ _ Hf) in Hin. cbn in Hin. by rewrite (proj2 (seqb_true _ _) eq_refl) in Hin.
Qed.

(** What a fetch returns was verified at a reading of the clock within the fetch. *)
Lemma fetch_verified c (f : State) envs env :
  (fetch c f).1 = Ok envs → env ∈ envs →
  verify_envelope c env_max_age (verify_at (so_clock (ag_store f)) env) env = Ok () ∧
  so_clock (ag_store (fetch c f).2) = S (so_clock (ag_store f)).
Proof.
  unfold AgentLoop.fetch, ag_bind, ag_get, clock, on_store, now, on_net. cbn.
  destruct (fetch_assignments _ _ _ _ _ _) as [[r h] n] eqn:Hf. cbn. intros -> Hin. split; [|done].
  apply fs_bind_Ok in Hf as (resp & h1 & n1 & _ & Hf). apply fs_bind_Ok in Hf as ([] & h2 & n2 & _ & Hf).
  apply fs_bind_Ok in Hf as (items & h3 & n3 & _ & Hf). unfold fs_lift in Hf. injection Hf as Hv _ _.
  unfold verify_all in Hv. inv_result. apply try_map_Forall2 in E.
  apply list_elem_of_lookup in Hin as [i Hi]. destruct (Forall2_lookup_l _ _ _ _ _ E Hi) as (u & _ & Hu).
  by destruct (verify_envelope c env_max_age _ env) as [[]|].
Qed.

(** Handling assignments only adds rows. *)
Lemma handle_grows c env (s : State) x :
  x ∈ tb_processed (so_tables (ag_store s)) → x ∈ tb_processed (so_tables (ag_store (handle c env s).2)).
Proof.
  intros Hx. destruct (assignment_already_processed (env_assignment_id env) (ag_store s)).1 as [[prior|]|e] eqn:Hp.
  - enough (so_tables (ag_store (handle c env s).2) = so_tables (ag_store s)) as -> by done.
    unfold handle_assignment. rewrite bind_try, on_store_run. cbn [fst snd]. rewrite Hp. unfold report. rewrite bind_ignore.
    cbn [ag_ret snd]. rewrite store_on_net. unfold assignment_already_processed. by rewrite query_Ok.
  - destruct (handle_store c env s Hp) as [status ->]. by apply elem_of_insert_or_ignore.
  - exfalso. unfold assignment_already_processed in Hp. by rewrite query_Ok in Hp.
Qed.

Lemma handle_all_grows c envs (s : State) x :
  x ∈ tb_processed (so_tables (ag_store s)) → x ∈ tb_processed (so_tables (ag_store (handle_all c envs s).2)).
Proof.
  revert s. induction envs as [|env envs IH]; intros s Hx; [done|]. cbn [ag_map]. unfold ag_bind at 1.
  apply (handle_grows c env) in Hx. destruct (handle c env s) as [[b|e] s']; [|done]. cbn [snd] in Hx.
  unfold ag_bind. apply IH in Hx. by destruct (ag_map (handle c) envs s') as [[bs|e] s''].
Qed.

Lemma i64_window a b m : (0 ≤ m < i64_max)%Z → (- FUTURE_GRACE_SECS ≤ i64_sat_sub a b ≤ m)%Z → (- FUTURE_GRACE_SECS ≤ a - b ≤ m)%Z.
Proof. unfold i64_sat_sub, i64_max, FUTURE_GRACE_SECS. lia. Qed.

(** The readings of two fetches that accept one envelope are less than a week apart. *)
Lemma accepted_within_a_week m c1 c2 (f1 f2 : State) env envs1 envs2 :
  env_max_age = Some m → (0 ≤ m)%Z → (m + FUTURE_GRACE_SECS < WEEK)%Z →
  (∀ k, (clock_at k ≤ verify_at k env ≤ clock_at (S k))%Z) →
  (fetch c1 f1).1 = Ok envs1 → env ∈ envs1 → (fetch c2 f2).1 = Ok envs2 → env ∈ envs2 →
  (as_second (clock_at (so_clock (ag_store f2))) < as_second (clock_at (S (so_clock (ag_store f1)))) + WEEK)%Z.
Proof.
  intros Hm Hpos Hweek Hv Hf1 Hin1 Hf2 Hin2.
  destruct (fetch_verified _ _ _ _ Hf1 Hin1) as [Ha1 _]. destruct (fetch_verified _ _ _ _ Hf2 Hin2) as [Ha2 _].
  apply verify_envelope_decides in Ha1 as (_ & Hfr1 & _), Ha2 as (_ & Hfr2 & _).
  destruct (Hfr1 m Hm) as (t & Ht & Hw1), (Hfr2 m Hm) as (t' & Ht' & Hw2). assert (t' = t) as -> by congruence.
  assert (u64_as_i64 m = m) as Hmm.
  { unfold u64_as_i64, wrap_signed. rewrite Z.mod_small; [lia|]. unfold FUTURE_GRACE_SECS, WEEK in Hweek. lia. }
  rewrite Hmm in *. assert (m < i64_max)%Z by (unfold FUTURE_GRACE_SECS, WEEK, i64_max in *; lia).
  apply i64_window in Hw1, Hw2; [|lia..].
  pose proof (as_second_mono _ _ (proj2 (Hv (so_clock (ag_store f1))))).
  pose proof (as_second_mono _ _ (proj1 (Hv (so_clock (ag_store f2))))). unfold FUTURE_GRACE_SECS in *. lia.
Qed.

(** C10: An assignment that was executed is never executed again. Take an
    envelope a fetch returned and the agent executed (it was not recorded as
    processed when its turn came). Whatever happens then (further cycles,
    operator commands, restarts, any change of the host and of the network),
    a later fetch that returns the same envelope again leaves it unexecuted:
    when its turn comes the host and the executor's state stay as they are.
    This needs a store whose statements succeed, a clock that does not run
    backwards, times whose texts are in the order of their seconds, and an age
    limit on envelopes that, with the grace for clock skew, is less than the
    week the records are kept. *)
Theorem no_replay m c1 c2 (f1 f2 : State) env pre1 post1 pre2 post2 :
  env_max_age = Some m → (0 ≤ m)%Z → (m + FUTURE_GRACE_SECS < WEEK)%Z →
  (∀ k, (clock_at k ≤ verify_at k env ≤ clock_at (S k))%Z) →
  (fetch c1 f1).1 = Ok (pre1 ++ env :: post1) →
  (assignment_already_processed (env_assignment_id env) (ag_store (handle_all c1 pre1 (fetch c1 f1).2).2)).1 = Ok None →
  rtc agent_step (handle c1 env (handle_all c1 pre1 (fetch c1 f1).2).2).2 f2 →
  (fetch c2 f2).1 = Ok (pre2 ++ env :: post2) →
  let s2 := (handle_all c2 pre2 (fetch c2 f2).2).2 in
  (handle c2 env s2).1 = Ok false ∧ ag_world (handle c2 env s2).2 = ag_world s2.
Proof.
  intros Hm Hpos Hweek Hv Hf1 Hnew Hsteps Hf2 s2.
  pose proof (accepted_within_a_week m c1 c2 f1 f2 env _ _ Hm Hpos Hweek Hv Hf1 ltac:(set_solver) Hf2 ltac:(set_solver)) as Hgap.
  set (s1 := (handle_all c1 pre1 (fetch c1 f1).2).2) in *.
  destruct (handle_store c1 env s1 Hnew) as [status Hs1]. set (p := clock_at (so_clock (ag_store s1))) in *.
  assert (mkProcessed (env_assignment_id env) (ts_print p) status ∈ tb_processed (so_tables (ag_store (handle c1 env s1).2))) as Hrow.
  { rewrite Hs1. cbn. apply insert_or_ignore_new. unfold assignment_already_processed in Hnew. rewrite query_Ok in Hnew. by injection Hnew as Hnew. }
  destruct (fetch_verified _ _ _ env Hf1 ltac:(set_solver)) as [_ Hk1].
  assert (so_clock (ag_store (fetch c1 f1).2) ≤ so_clock (ag_store s1)) as Hk.
  { apply (keeps_map Hmono (handle c1) pre1 (keeps_handle ws_empty http config registry Hmono c1)). }
  rewrite Hk1 in Hk. pose proof (as_second_mono _ _ (Hmono _ _ Hk)) as Hp. fold p in Hp.
  apply (keeps_steps ws_empty http config registry Hmono Hpresent) in Hsteps as [Hc2 Hrem].
  apply (Hrem _ p) in Hrow; [|apply Hpresent|lia].
  eapply handle_replay. apply handle_all_grows.
  enough (so_tables (ag_store (fetch c2 f2).2) = so_tables (ag_store f2)) as -> by exact Hrow.
  unfold AgentLoop.fetch, ag_bind, ag_get, clock, on_store, now. cbn. by rewrite store_on_net.
Qed.

End Agent.

(** ** At a concrete agent

    The network hands the same assignment out at every fetch. *)

Definition demo_fetch (s : Agent string () ()) := fetch (V := string) (W := ()) demo_http demo_client s.

Section Demo.
#[local] Existing Instance steady_env.

Definition demo_handle (s : Agent string () ()) :=
  handle_assignment () demo_http demo_config (text_registry (H := steady_env)) demo_client demo_assignment s.

Definition executed_once : Agent string () () := (demo_handle (demo_fetch (demo_agent None)).2).2.

Lemma no_replay_witness :
  w_host (ag_world executed_once) = "x" ∧
  (demo_fetch executed_once).1 = Ok [demo_assignment] ∧
  (demo_handle (demo_fetch executed_once).2).1 = Ok false ∧
  ag_world (demo_handle (demo_fetch executed_once).2).2 = ag_world (demo_fetch executed_once).2.
Proof.
  assert ((demo_fetch (demo_agent None)).1 = Ok [demo_assignment]) as Hf1 by (vm_compute; reflexivity).
  assert ((demo_fetch executed_once).1 = Ok [demo_assignment]) as Hf2 by (vm_compute; reflexivity).
  split; [vm_compute; reflexivity|]. split; [exact Hf2|].
  apply (no_replay () demo_http demo_config (text_registry (H := steady_env)) ticking_mono ticking_present ticking_sql
           86400 demo_client demo_client (demo_agent None) executed_once demo_assignment [] [] [] []).
  - reflexivity.
  - lia.
  - reflexivity.
  - intros k. apply demo_verify_between.
  - exact Hf1.
  - vm_compute. reflexivity.
  - unfold executed_once, demo_handle, demo_fetch. cbn [ag_map ag_ret snd]. apply rtc_refl.
  - exact Hf2.
Defined.

(** Without an answer from the store the protection is off: the third
    statement, the second look-up, fails, and the assignment runs again. *)
Definition faulty_store : StoreEnv := {|
  sql_at n := if n =? 2 then Err "disk I/O error" else Ok (); clock_at n := clock_at n;
  observed_spec_text _ := Ok "spec"; observed_facts_text _ := Ok "facts"
|}.

Example store_fault_executes_again :
  let handle := handle_assignment (H0 := faulty_store) (N := ()) () demo_http demo_config (text_registry (H := steady_env)) demo_client demo_assignment in
  let s1 := (handle (demo_agent None)).2 in
  (assignment_already_processed (H := ticking_store) "as1" (ag_store s1)).1 = Ok (Some "succeeded") ∧
  (handle s1).1 = Ok true ∧ w_ulid (ag_world s1) < w_ulid (ag_world (handle s1).2).
Proof. vm_compute. split; [reflexivity|]. split; [reflexivity|]. lia. Qed.

End Demo.

(** ** Properties of the capability allowlist

    What the check admits, that nothing else reaches the executor, that no
    reload opens a restricted agent, and two ways in which the rules admit
    more than their documentation says. *)

(** ** What the rules admit *)

Section Check.
Context `{Globset}.

(** The deny and the allow patterns of a kind, when the file has a section for it. *)
Definition rules_of (c : Capabilities) (kind : string) : option (option (list string) * option (list string)) :=
  if decide (kind = "file") then Some (pr_deny (cap_files c), pr_allow (cap_files c))
  else if decide (kind = "nginx.vhost") then Some (pr_deny (cap_nginx_vhost c), pr_allow (cap_nginx_vhost c))
  else if decide (kind = "systemd.unit") then Some (None, nr_allow (cap_systemd c))
  else if decide (kind = "docker.container") then Some (None, nr_allow (cap_docker c))
  else if decide (kind = "package") then Some (None, nr_allow (cap_packages c))
  else if decide (kind = "cron.job") then Some (None, nr_allow (cap_cron c))
  else None.

(** No deny pattern matches, and an allow pattern does where there are any. *)
Definition admits_key (c : Capabilities) (kind key : string) : Prop :=
  match rules_of c kind with
  | Some (deny, allow) =>
      (∀ d, deny = Some d → is_match d key = false) ∧ (∀ a, allow = Some a → is_match a key = true)
  | None => cap_default c = DefaultAllow
  end.

Lemma path_check_decides r id kind key :
  is_ok (path_check r id kind key) = true ↔
  (∀ d, pr_deny r = Some d → is_match d key = false) ∧ (∀ a, pr_allow r = Some a → is_match a key = true).
Proof.
  unfold path_check. destruct (pr_deny r) as [d|]; cbn [from_option].
  - destruct (is_match d key) eqn:Hd.
    + split; [done|]. intros [Hn _]. specialize (Hn d eq_refl). congruence.
    + destruct (pr_allow r) as [a|]; [destruct (is_match a key) eqn:Ha|]; cbn; split; naive_solver.
  - destruct (pr_allow r) as [a|]; [destruct (is_match a key) eqn:Ha|]; cbn; split; naive_solver.
Qed.

Lemma name_check_path r id kind key : name_check r id kind key = path_check (mkPathRules (nr_allow r) None) id kind key.
Proof. reflexivity. Qed.

Lemma check_key_decides c id kind key : is_ok (check_key c id kind key) = true ↔ admits_key c kind key.
Proof.
  unfold check_key, admits_key, rules_of.
  repeat (case_decide; [rewrite ?name_check_path, path_check_decides; done|]).
  by destruct (cap_default c).
Qed.

Lemma path_check_id r id kind key d : path_check r id kind key = Err d → dn_resource_id d = id.
Proof. unfold path_check. intros Hc. repeat case_match; try done; by injection Hc as <-. Qed.

Lemma check_key_id c id kind key d : check_key c id kind key = Err d → dn_resource_id d = id.
Proof.
  unfold check_key. repeat (case_decide; [rewrite ?name_check_path; apply path_check_id|]).
  destruct (cap_default c); [done|]. by intros [= <-].
Qed.

Context {V W : Type} (registry : ProviderRegistry V W).

(** The provider of the resource's kind gives keys, and each is admitted; a
    kind without provider goes by the default. *)
Definition admits (c : Capabilities) (r : Resource) : Prop :=
  match assoc_get (r_kind r) registry with
  | None => cap_default c = DefaultAllow
  | Some p => ∃ keys, p_capability_keys p r = Ok keys ∧ ∀ key, key ∈ keys → admits_key c (r_kind r) key
  end.

Lemma try_map_keys (f : string → result DenyReason ()) keys :
  is_ok (_ ← try_map f keys; Ok ()) = true ↔ ∀ key, key ∈ keys → is_ok (f key) = true.
Proof.
  induction keys as [|key keys IH]; cbn; [split; [by intros _ k Hk%elem_of_nil|done]|].
  setoid_rewrite elem_of_cons. destruct (f key) as [[]|e] eqn:Hf; cbn.
  - transitivity (is_ok (_ ← try_map f keys; Ok ()) = true); [by destruct (try_map f keys)|]. rewrite IH.
    split; [intros Hk k [->|Hin]; [by rewrite Hf|by apply Hk]|intros Hk k Hin; apply Hk; by right].
  - split; [done|]. intros Hk. specialize (Hk key (or_introl eq_refl)). by rewrite Hf in Hk.
Qed.

Lemma check_decides c r : is_ok (check registry c r) = true ↔ admits c r.
Proof.
  unfold check, admits. destruct (assoc_get (r_kind r) registry) as [p|]; [|by destruct (cap_default c)].
  destruct (p_capability_keys p r) as [keys|e]; cbn [map_err mbind result_bind]; [|split; [done|by intros (? & ? & _)]].
  assert (is_ok (match keys with [] => Ok () | _ => _ ← try_map (check_key c (rid_display (rid_of r)) (r_kind r)) keys; Ok () end) =
          is_ok (_ ← try_map (check_key c (rid_display (rid_of r)) (r_kind r)) keys; Ok ())) as -> by by destruct keys.
  rewrite try_map_keys. setoid_rewrite check_key_decides. naive_solver.
Qed.

Lemma check_id c r d : check registry c r = Err d → dn_resource_id d = rid_display (rid_of r).
Proof.
  unfold check. destruct (assoc_get (r_kind r) registry) as [p|].
  - destruct (p_capability_keys p r) as [keys|e]; cbn [map_err mbind result_bind]; [|by intros [= <-]].
    assert (∀ ks, (_ ← try_map (check_key c (rid_display (rid_of r)) (r_kind r)) ks; Ok ()) = Err d →
      dn_resource_id d = rid_display (rid_of r)) as Hks.
    { induction ks as [|k ks IH]; cbn; [done|]. destruct (check_key _ _ _ k) as [[]|e] eqn:Hk; cbn.
      - intros Ht. apply IH. by destruct (try_map _ ks).
      - intros [= <-]. by eapply check_key_id. }
    destruct keys; [done|apply Hks].
  - destruct (cap_default c); [done|]. by intros [= <-].
Qed.

Lemma enforce_spec c rs :
  enforce_capabilities registry (Some c) rs =
    (List.filter (λ r, is_ok (check registry c r)) rs, (enforce_capabilities registry (Some c) rs).2) ∧
  map (λ d, dn_resource_id d.2) (enforce_capabilities registry (Some c) rs).2 =
    map (λ r, rid_display (rid_of r)) (List.filter (λ r, negb (is_ok (check registry c r))) rs).
Proof.
  split; [done|]. cbn [enforce_capabilities snd]. induction rs as [|r rs IH]; [done|]. cbn [omap list_omap List.filter].
  destruct (check registry c r) as [[]|d] eqn:Hc; cbn [is_ok negb]; [exact IH|]. cbn [map snd]. rewrite (check_id _ _ _ Hc).
  f_equal. exact IH.
Qed.

(** ** The watcher *)

Context (path : string) (parse_yaml : string → result string RawCapabilities).

Definition watch_ticks (ticks : list (option Z * option (result string string))) (w : Watch) : Watch :=
  foldl (λ w t, watch_tick path parse_yaml t.1 t.2 w) w ticks.

(** No reload opens a restricted agent. Once an allowlist is loaded, any
    number of ticks of the watcher, whatever they find (the file unchanged,
    edited, deleted, unreadable or malformed), leave an allowlist in force:
    the one loaded last from a file that was whole, or the first one. *)
Theorem allowlist_survives c ticks w :
  wt_caps w = Some c →
  ∃ c', wt_caps (watch_ticks ticks w) = Some c' ∧
    (c' = c ∨ ∃ mtime text, (mtime, Some (Ok text)) ∈ ticks ∧ Capabilities.load path parse_yaml (Some (Ok text)) = Ok (Some c')).
Proof.
  revert c w. induction ticks as [|[mtime file] ticks IH]; intros c w Hw; [by exists c; auto|].
  cbn [watch_ticks foldl fst snd].
  assert (∃ c1, wt_caps (watch_tick path parse_yaml mtime file w) = Some c1 ∧
    (c1 = c ∨ ∃ text, file = Some (Ok text) ∧ Capabilities.load path parse_yaml file = Ok (Some c1))) as (c1 & Hc1 & Hfrom).
  { unfold watch_tick. case_decide; [eauto|]. destruct (Capabilities.load path parse_yaml file) as [[c1|]|e] eqn:Hl; [|by exists c; auto..].
    exists c1. split; [done|]. right. destruct file as [[text|e]|]; [by exists text|done..]. }
  destruct (IH c1 _ Hc1) as (c' & Hc' & Hor). exists c'. split; [exact Hc'|].
  destruct Hor as [->|(m & text & Hin & Hl)]; [|right; exists m, text; split; [by right|done]].
  destruct Hfrom as [->|(text & -> & Hl)]; [by left|]. right. exists mtime, text. split; [left|done].
Qed.

End Check.

(** ** Between an assignment and the executor *)

Section Agent.
Context {V W N : Type} (ws_empty : W).
Context `{AgentEnv, ExecEnv, DebugText, Sha256, Globset}.
Context (config : Config) (registry : ProviderRegistry V W).

Abbreviation State := (Agent V W N).
Abbreviation admitted := (admits registry).
Abbreviation execute := (execute_assignment (N := N) ws_empty config registry).

(** The resources the allowlist refuses. *)
Definition refused (c : Capabilities) (rs : list Resource) : list Resource :=
  List.filter (λ r, negb (is_ok (check registry c r))) rs.

Lemma elem_of_refused c rs r : r ∈ refused c rs ↔ r ∈ rs ∧ ¬ admitted c r.
Proof.
  unfold refused. rewrite elem_of_List_filter, negb_true_iff, <- check_decides. by rewrite not_true_iff_false.
Qed.

Lemma denied_refused c rs : length (enforce_capabilities registry (Some c) rs).2 = length (refused c rs).
Proof.
  rewrite <- (length_map (λ d, dn_resource_id d.2)), (proj2 (enforce_spec registry c rs)), length_map. done.
Qed.

Lemma allowed_all c rs : refused c rs = [] → (enforce_capabilities registry (Some c) rs).1 = rs.
Proof.
  intros Hr. cbn. apply List_filter_all. intros r Hin. apply not_false_iff_true. intros Hf.
  assert (r ∈ refused c rs) as Hn by (apply elem_of_List_filter; by rewrite Hf). rewrite Hr in Hn. by apply elem_of_nil in Hn.
Qed.

(** C9: The allowlist stands between every assignment and the executor.
    With an allowlist in force, an assignment whose resources it admits all
    runs the executor on exactly these resources. If it refuses one of them,
    nothing happens at all: the agent's state, its host included, is what it
    was, and the assignment is reported as failed, with one item per refused
    resource. A resource is admitted when its provider names its keys and
    every key is admitted, so one without keys always is. The six kinds file,
    nginx.vhost, systemd.unit, docker.container, package and cron.job have a
    section of their own: a key is admitted when no deny pattern matches it
    and, where there are allow patterns, one of them does; the default policy
    plays no part, so a kind whose section is missing or empty is unrestricted
    even under a default of deny. The other kinds, and the kinds without a
    provider, go by the default policy. (The reference and the provider trait
    document a stricter rule for the missing section and for the empty list of
    keys.) *)
Theorem assignment_confined c env rs (s : State) :
  wt_caps (ag_watch s) = Some c → env_kind env = "apply" →
  try_map resource_of_json (payload_resources (env_payload env)) = Ok rs →
  ((∀ r, r ∈ rs → admitted c r) ∧
   execute env s = ag_bind (run_executor ws_empty config registry rs) (λ result, ag_ret (apply_report result)) s) ∨
  ((∃ r, r ∈ rs ∧ ¬ admitted c r) ∧
   ∃ report, execute env s = (Ok report, s) ∧ res_status report = RFailed ∧
     map item_resource_id (res_items report) = map (λ r, rid_display (rid_of r)) (refused c rs) ∧
     Forall (λ i, item_status i = "capability_denied") (res_items report)).
Proof.
  intros Hc Hk Hrs.
  assert (execute env s = (let '(allowed, denied) := enforce_capabilities registry (Some c) rs in
                           match denied with
                           | _ :: _ => ag_ret (denied_report denied)
                           | [] => ag_bind (run_executor ws_empty config registry allowed) (λ result, ag_ret (apply_report result))
                           end) s) as ->.
  { unfold execute_assignment. rewrite decide_False by (intros Hn; by apply Hn). rewrite Hrs. cbv [ag_bind ag_lift ag_get map_err].
    by rewrite Hc. }
  destruct (enforce_capabilities registry (Some c) rs) as [allowed denied] eqn:He.
  pose proof (denied_refused c rs) as Hlen. pose proof (allowed_all c rs) as Hall.
  pose proof (proj2 (enforce_spec registry c rs)) as Hids. rewrite He in Hlen, Hall, Hids. cbn [fst snd] in *.
  destruct denied as [|d ds].
  - left. assert (refused c rs = []) as Hr by by destruct (refused c rs). rewrite (Hall Hr). split; [|done].
    intros r Hin. destruct (decide (is_ok (check registry c r) = true)) as [Hok|Hn]; [by apply check_decides|].
    assert (r ∈ refused c rs) as Hin' by (apply elem_of_refused; split; [done|by rewrite <- check_decides]).
    rewrite Hr in Hin'. by apply elem_of_nil in Hin'.
  - right. split.
    + destruct (refused c rs) as [|r l] eqn:Hr; [done|]. exists r. apply elem_of_refused. rewrite Hr. left.
    + exists (denied_report (d :: ds)). split; [done|]. split; [done|]. split.
      * unfold refused. rewrite <- Hids. cbn [denied_report res_items]. by rewrite map_map.
      * cbn [denied_report res_items]. apply Forall_forall. intros i (x & _ & ->)%elem_of_map. done.
Qed.

(** The local command runs the executor on what is admitted of its manifests. *)
Lemma apply_once_confined `{Yaml, StoreEnv, Jiff, JiffHours, JsonCodec, DiffCodec} c (s : State) rs s1 :
  wt_caps (ag_watch s) = Some c → load_manifests config s = (Ok rs, s1) →
  ∃ k, apply_once ws_empty config registry s =
         ag_bind (run_executor ws_empty config registry (List.filter (λ r, is_ok (check registry c r)) rs)) k s1 .
Proof.
  intros Hc Hl. assert (ag_watch s1 = ag_watch s) as Hw.
  { unfold load_manifests, ag_bind, ag_get, ag_ret, ag_lift in Hl. destruct (manifests_at _); by injection Hl as _ <-. }
  eexists. unfold apply_once. unfold ag_bind at 1. rewrite Hl. unfold ag_bind at 1, ag_get. rewrite Hw, Hc. cbn [enforce_capabilities].
  reflexivity.
Qed.

End Agent.

(** ** At concrete inputs *)

Section Demo.
#[local] Existing Instance steady_env.

(** A file with a section for paths only; the default policy is to deny. *)
Definition nginx_only : RawCapabilities :=
  mkRawCapabilities DefaultDeny (mkRawPath ["/etc/nginx/*"] ["/etc/nginx/secrets/*"]) (mkRawPath [] []) (mkRawName []) (mkRawName [])
    (mkRawName []) (mkRawName []).
Definition nginx_capabilities : Capabilities :=
  mkCapabilities DefaultDeny (mkPathRules (Some ["/etc/nginx/*"]) (Some ["/etc/nginx/secrets/*"])) (mkPathRules None None)
    (mkNameRules None) (mkNameRules None) (mkNameRules None) (mkNameRules None).

Lemma nginx_compiles : compile nginx_only = Ok nginx_capabilities.
Proof. reflexivity. Qed.

Abbreviation texts := (text_registry (H := steady_env)).

Lemma assignment_confined_witness :
  ∃ report, execute_assignment () demo_config texts demo_assignment (demo_agent (Some nginx_capabilities)) =
              (Ok report, demo_agent (Some nginx_capabilities)) ∧
    res_status report = RFailed ∧ map item_resource_id (res_items report) = ["text/prod/a"].
Proof.
  assert (try_map resource_of_json (payload_resources (env_payload demo_assignment)) = Ok [text_resource "a" "x"]) as Hrs
    by (vm_compute; reflexivity).
  destruct (assignment_confined () demo_config texts nginx_capabilities demo_assignment [text_resource "a" "x"]
    (demo_agent (Some nginx_capabilities)) eq_refl eq_refl Hrs) as [[Hall _]|(_ & report & Hrun & Hst & Hids & _)].
  - exfalso. pose proof (Hall (text_resource "a" "x") (list_elem_of_here _ _)) as Ha. apply check_decides in Ha.
    vm_compute in Ha. discriminate Ha.
  - exists report. split; [exact Hrun|]. split; [exact Hst|]. rewrite Hids. vm_compute. reflexivity.
Defined.

(** The reader of the rules file in the examples: one good text. *)
Definition parse_rules (text : string) : result string RawCapabilities :=
  if decide (text = "nginx only") then Ok nginx_only else Err "not YAML".

Lemma allowlist_survives_witness :
  ∃ c', wt_caps (watch_ticks "/state/capabilities.yaml" parse_rules
                   [(Some 1%Z, Some (Ok "nginx only")); (Some 2%Z, Some (Ok "typo")); (None, None)]
                   (mkWatch (Some nginx_capabilities) None)) = Some c' ∧ c' = nginx_capabilities.
Proof.
  destruct (allowlist_survives "/state/capabilities.yaml" parse_rules nginx_capabilities
    [(Some 1%Z, Some (Ok "nginx only")); (Some 2%Z, Some (Ok "typo")); (None, None)] (mkWatch (Some nginx_capabilities) None) eq_refl)
    as (c' & Hc & _).
  exists c'. split; [exact Hc|]. vm_compute in Hc. injection Hc as <-. reflexivity.
Defined.

(** *** More than the documentation says

    A kind with a section of its own, but no patterns in it, is unrestricted
    under a default policy of deny. *)
Example deny_admits_unlisted_builtin keys :
  ∃ c, compile raw_default_capabilities = Ok c ∧ cap_default c = DefaultDeny ∧
    ∀ key, key ∈ (keys : list string) → admits_key c "file" key ∧ admits_key c "package" key ∧ admits_key c "docker.container" key.
Proof. eexists. split; [reflexivity|]. split; [reflexivity|]. intros key _. repeat split; discriminate. Qed.

(** A provider that gives no keys is unrestricted, whatever the rules. *)
Lemma no_keys_no_check {V W} (registry : ProviderRegistry V W) c r p :
  assoc_get (r_kind r) registry = Some p → p_capability_keys p r = Ok [] → check registry c r = Ok ().
Proof. intros Hp Hk. unfold check. by rewrite Hp, Hk. Qed.

(** Paths are matched as they are written. *)
Example patterns_do_not_normalise :
  is_ok (path_check (cap_files nginx_capabilities) "file/prod/x" "file" "/etc/nginx/../shadow") = true.
Proof. reflexivity. Qed.

End Demo.

(** ** An observe cycle mirrors the host

    After a cycle the drift events that are open are those of the resources
    the cycle saw drifting, one each; what it could not judge it leaves. *)

(** ** The store *)

(** The open drift events of a resource. *)
Definition opens (rid : string) (t : Tables) : nat := count_if (open_for rid) (tb_drifts t).

Lemma open_for_refresh rid d sev at_ r : open_for rid (refresh_drift d sev at_ r) = open_for rid r.
Proof. reflexivity. Qed.

Lemma open_for_other rid rid' r : rid ≠ rid' → open_for rid' r = true → open_for rid r = false.
Proof.
  intros Hne [Hr Ho]%andb_true_iff. apply seqb_true in Hr. apply andb_false_iff. left. apply not_true_iff_false.
  intros Hs%seqb_true. congruence.
Qed.

Lemma count_if_map {A B} (f : A → B) (p : B → bool) xs : count_if p (map f xs) = count_if (λ x, p (f x)) xs.
Proof. induction xs as [|x xs IH]; [done|]. cbn [map]. rewrite !count_if_cons. by rewrite IH. Qed.

Section Store.
Context `{StoreEnv, Jiff, JsonCodec, DiffCodec}.
Context (Hsql : ∀ n, sql_at n = Ok ()).

Lemma exec_Ok {A} (f : Tables → A * Tables) x :
  sql_exec f x = (Ok (f (so_tables x)).1, mkStore (f (so_tables x)).2 (S (so_sql x)) (so_clock x)).
Proof. unfold sql_exec. rewrite Hsql. by destruct (f (so_tables x)). Qed.

Lemma query_run {A} (f : Tables → A) x :
  sql_query f x = (Ok (f (so_tables x)), mkStore (so_tables x) (S (so_sql x)) (so_clock x)).
Proof. unfold sql_query. by rewrite Hsql. Qed.

Lemma st_bind_Ok {A B} (m : st A) (f : A → st B) a x x' : m x = (Ok a, x') → st_bind m f x = f a x'.
Proof. unfold st_bind. by intros ->. Qed.

(** The rows that [open_drift] leaves. *)
Definition opened (id : ResourceId) (sev diff at_ : string) (t : Tables) : list DriftRow :=
  match order_by detected_later (select_where (open_for (rid_display id)) (tb_drifts t)) with
  | r :: _ => update_where (λ z, (dw_id z =? dw_id r)%Z) (refresh_drift diff sev at_) (tb_drifts t)
  | [] => tb_drifts t ++ [mkDriftRow (tb_next_drift t) (rid_display id) (rid_kind id) sev diff at_ None None]
  end.

Lemma open_drift_run id sev d x :
  ∃ i t, open_drift id sev d x = (Ok i, mkStore t (S (S (so_sql x))) (S (so_clock x))) ∧
    tb_drifts t = opened id sev (diff_to_string d) (ts_print (clock_at (so_clock x))) (so_tables x) ∧
    tb_next_drift t = (tb_next_drift (so_tables x) + (if decide (opens (rid_display id) (so_tables x) = 0%nat) then 1 else 0))%Z.
Proof.
  unfold open_drift, opened, opens, count_if. erewrite st_bind_Ok by apply query_run. cbv beta.
  change (List.filter (open_for (rid_display id)) _) with (select_where (open_for (rid_display id)) (tb_drifts (so_tables x))).
  pose proof (order_by_perm detected_later (select_where (open_for (rid_display id)) (tb_drifts (so_tables x)))) as Hp.
  rewrite <- (Permutation_length Hp). destruct (order_by detected_later _) as [|r rest]; cbn [head fmap option_fmap option_map];
    (erewrite st_bind_Ok by reflexivity); cbv beta; [|erewrite st_bind_Ok by apply exec_Ok]; [rewrite exec_Ok|]; do 2 eexists;
    (split; [reflexivity|]); (split; [reflexivity|]); cbn [length tb_next_drift set_drift_rows so_tables snd]; case_decide; done || lia.
Qed.

Lemma open_drift_opens id sev d x :
  (∃ i, (open_drift id sev d x).1 = Ok i) ∧
  ∀ rid, opens rid (so_tables (open_drift id sev d x).2) =
    if decide (rid = rid_display id) then Nat.max 1 (opens rid (so_tables x)) else opens rid (so_tables x).
Proof.
  destruct (open_drift_run id sev d x) as (i & t & -> & Ht & _). split; [by exists i|]. intros rid. unfold opens. cbn [snd so_tables].
  rewrite Ht. unfold opened. set (rows := select_where _ _). pose proof (order_by_perm detected_later rows) as Hperm.
  destruct (order_by detected_later rows) as [|r rest] eqn:Ho.
  - apply Permutation_nil in Hperm. rewrite count_if_app, count_if_cons. case_decide as Hr.
    + subst rid. assert (count_if (open_for (rid_display id)) (tb_drifts (so_tables x)) = 0) as ->
        by (unfold count_if; change (List.filter _ _) with rows; by rewrite Hperm).
      unfold open_for at 1. cbn. by rewrite (proj2 (seqb_true _ _) eq_refl).
    + unfold open_for at 2, seqb. cbn. rewrite bool_decide_false by congruence. cbn. lia.
  - unfold update_where. rewrite count_if_map.
    rewrite (count_if_ext _ (open_for rid)) by (intros z _; by destruct (dw_id z =? dw_id r)%Z).
    case_decide as Hr; [|done]. subst rid.
    enough (0 < count_if (open_for (rid_display id)) (tb_drifts (so_tables x))) by lia. apply count_if_pos. exists r.
    apply elem_of_List_filter. change (List.filter _ _) with rows. rewrite <- Hperm. left.
Qed.

Lemma close_drift_opens id resolution x :
  (∃ i, (close_open_drift_for id resolution x).1 = Ok i) ∧
  ∀ rid, opens rid (so_tables (close_open_drift_for id resolution x).2) =
    if decide (rid = rid_display id) then 0 else opens rid (so_tables x).
Proof.
  unfold close_open_drift_for, resolve_where. erewrite st_bind_Ok by reflexivity. cbv beta. rewrite exec_Ok. cbn [fst snd so_tables]. split; [eauto|].
  intros rid. unfold opens. cbn [tb_drifts set_drift_rows]. unfold update_where. rewrite count_if_map. case_decide as Hr.
  - subst rid. apply count_if_0. intros z _. destruct (open_for (rid_display id) z) eqn:Hz; [|done].
    unfold open_for, is_open. cbn. by rewrite andb_false_r.
  - apply count_if_ext. intros z _. destruct (open_for (rid_display id) z) eqn:Hz; [|done].
    rewrite (open_for_other _ _ _ Hr Hz). unfold open_for, is_open. cbn. by rewrite andb_false_r.
Qed.

(** The ids of the drift table are those its counter has handed out, and a
    resource has one open event at most. *)
Definition drift_table (t : Tables) : Prop :=
  NoDup (map dw_id (tb_drifts t)) ∧ (∀ r, r ∈ tb_drifts t → (dw_id r < tb_next_drift t)%Z) ∧ ∀ rid, opens rid t ≤ 1.

(** Where one event is open, the rows with its id are the open rows of its resource. *)
Lemma the_open_row rid t r z :
  drift_table t → r ∈ tb_drifts t → open_for rid r = true → z ∈ tb_drifts t → (dw_id z =? dw_id r)%Z = open_for rid z.
Proof.
  intros (Hnd & _ & Hone) Hr Ho Hz. apply eq_true_iff_eq. rewrite Z.eqb_eq. split.
  - intros Hid. by rewrite (NoDup_map_inj dw_id (tb_drifts t) z r Hnd Hz Hr Hid).
  - intros Hoz. specialize (Hone rid). unfold opens, count_if in Hone.
    assert (r ∈ List.filter (open_for rid) (tb_drifts t)) as Hr' by (by apply elem_of_List_filter).
    assert (z ∈ List.filter (open_for rid) (tb_drifts t)) as Hz' by (by apply elem_of_List_filter).
    destruct (List.filter _ _) as [|a [|b l]]; [by apply elem_of_nil in Hr'|..|cbn in Hone; lia].
    apply list_elem_of_singleton in Hr' as ->. by apply list_elem_of_singleton in Hz' as ->.
Qed.

Lemma update_where_ext {A} (p q : A → bool) f rows : (∀ r, r ∈ rows → p r = q r) → update_where p f rows = update_where q f rows.
Proof. intros Hpq. unfold update_where. apply map_ext_in. intros r Hr. by rewrite (Hpq r) by by apply list_elem_of_In. Qed.

(** With one open event at most, [open_drift] refreshes it, or adds a row. *)
Lemma open_drift_rows id sev d x : drift_table (so_tables x) →
  let t := so_tables x in let t' := so_tables (open_drift id sev d x).2 in let at_ := ts_print (clock_at (so_clock x)) in
  drift_table t' ∧
  tb_drifts t' = if decide (opens (rid_display id) t = 0)
    then tb_drifts t ++ [mkDriftRow (tb_next_drift t) (rid_display id) (rid_kind id) sev (diff_to_string d) at_ None None]
    else update_where (open_for (rid_display id)) (refresh_drift (diff_to_string d) sev at_) (tb_drifts t).
Proof.
  intros Ht. pose proof Ht as (Hnd & Hlt & Hone). pose proof (proj2 (open_drift_opens id sev d x)) as Hopens.
  destruct (open_drift_run id sev d x) as (i & t' & Hrun & Hrows & Hnext). rewrite Hrun in *. cbn [snd so_tables] in *. cbv zeta.
  set (t := so_tables x) in *. set (at_ := ts_print _) in *.
  assert (tb_drifts t' = if decide (opens (rid_display id) t = 0)
    then tb_drifts t ++ [mkDriftRow (tb_next_drift t) (rid_display id) (rid_kind id) sev (diff_to_string d) at_ None None]
    else update_where (open_for (rid_display id)) (refresh_drift (diff_to_string d) sev at_) (tb_drifts t)) as Hr.
  { rewrite Hrows. unfold opened, opens, count_if.
    change (List.filter (open_for (rid_display id)) _) with (select_where (open_for (rid_display id)) (tb_drifts t)).
    pose proof (order_by_perm detected_later (select_where (open_for (rid_display id)) (tb_drifts t))) as Hp.
    rewrite <- (Permutation_length Hp). destruct (order_by detected_later _) as [|r rest]; [done|]. cbn [length].
    rewrite decide_False by lia. assert (r ∈ select_where (open_for (rid_display id)) (tb_drifts t)) as Hin by (rewrite <- Hp; left).
    apply elem_of_List_filter in Hin as [Hin Ho]. apply update_where_ext. intros z Hz. by apply (the_open_row _ t). }
  split; [|exact Hr]. split; [|split].
  - rewrite Hr. case_decide; [|unfold update_where; rewrite map_map; rewrite (map_ext _ dw_id) by (intros z; by case_match); done].
    rewrite map_app. apply NoDup_app. split; [done|]. split; [|apply NoDup_singleton].
    intros k (r & -> & Hin)%list_elem_of_fmap Hk. apply list_elem_of_singleton in Hk. cbn in Hk. specialize (Hlt r Hin). lia.
  - rewrite Hnext, Hr. destruct (decide _); intros r Hin.
    + apply elem_of_app in Hin as [Hin| ->%list_elem_of_singleton]; [specialize (Hlt r Hin); lia|cbn; lia].
    + unfold update_where in Hin. apply elem_of_map in Hin as (z & Hz & ->). specialize (Hlt z Hz). case_match; cbn; lia.
  - intros rid. rewrite Hopens. specialize (Hone rid). destruct (decide (rid = _)); lia.
Qed.

(** [close_open_drift_for] resolves the open rows of the resource. *)
Lemma close_drift_rows id resolution x : drift_table (so_tables x) →
  let t' := so_tables (close_open_drift_for id resolution x).2 in
  drift_table t' ∧
  tb_drifts t' = update_where (open_for (rid_display id)) (resolve_row (ts_print (clock_at (so_clock x))) resolution) (tb_drifts (so_tables x)).
Proof.
  intros (Hnd & Hlt & Hone). pose proof (proj2 (close_drift_opens id resolution x)) as Hopens. revert Hopens.
  unfold close_open_drift_for, resolve_where. erewrite st_bind_Ok by reflexivity. cbv beta zeta. rewrite exec_Ok.
  cbn [fst snd so_tables so_clock tb_drifts set_drift_rows tb_next_drift]. intros Hopens. split; [|done]. split; [|split].
  - cbn. unfold update_where. rewrite map_map. rewrite (map_ext _ dw_id) by (intros z; by case_match). done.
  - cbn. intros r (z & Hz & ->)%elem_of_map. specialize (Hlt z Hz). by case_match.
  - intros rid. rewrite Hopens. specialize (Hone rid). case_decide; lia.
Qed.

Lemma record_observation_drifts id o x :
  tb_drifts (so_tables (record_observation id o x).2) = tb_drifts (so_tables x) ∧
  tb_next_drift (so_tables (record_observation id o x).2) = tb_next_drift (so_tables x).
Proof.
  unfold record_observation, st_bind, st_lift. destruct (observed_spec_text _); [|done].
  destruct (observed_facts_text _); [|done]. cbn [map_err]. by rewrite !exec_Ok.
Qed.

(** The history of a resource: at most ten rows, the newest ones, and no
    other resource's. *)
Lemma observation_history id o x (Hnd : NoDup (map ow_id (tb_observations (so_tables x))))
    (Hfresh : ∀ r, r ∈ tb_observations (so_tables x) → (ow_id r < tb_next_observation (so_tables x))%Z) :
  is_ok (record_observation id o x).1 = true →
  let rows' := tb_observations (so_tables (record_observation id o x).2) in
  length (select_where (λ r, seqb (ow_resource_id r) (rid_display id)) rows') ≤ AGENT_OBSERVATION_HISTORY_CAP ∧
  (∀ r, r ∈ tb_observations (so_tables x) → ow_resource_id r ≠ rid_display id → r ∈ rows').
Proof.
  unfold record_observation, st_bind, st_lift. destruct (observed_spec_text _) as [spec|]; [|done].
  destruct (observed_facts_text _) as [facts|]; [|done]. cbn [map_err]. rewrite !exec_Ok. cbn [fst snd so_tables set_obs_rows tb_observations].
  intros _. set (rows := tb_observations _ ++ _). set (mine := select_where (λ r, seqb (ow_resource_id r) (rid_display id)) rows).
  assert (NoDup (map ow_id rows)) as Hnd'.
  { unfold rows. rewrite map_app. apply NoDup_app. split; [done|]. split; [|apply NoDup_singleton].
    intros i (r & Hr & ->)%elem_of_map Hi. apply list_elem_of_singleton in Hi. cbn in Hi. specialize (Hfresh r Hr). lia. }
  pose proof (order_by_perm obs_newer mine) as Hperm. split.
  - unfold select_where, delete_where. rewrite List_filter_filter. fold (count_if (λ r, negb (bool_decide (ow_id r ∈ beyond_cap (rid_display id) rows)) && seqb (ow_resource_id r) (rid_display id)) rows).
    transitivity (count_if (λ r, negb (bool_decide (ow_id r ∈ beyond_cap (rid_display id) rows))) mine).
    { unfold count_if, mine, select_where. rewrite List_filter_filter. apply Nat.eq_le_incl. f_equal. apply List_filter_ext_in.
      intros r _. apply andb_comm. }
    rewrite <- (count_if_perm _ _ _ Hperm), <- (take_drop AGENT_OBSERVATION_HISTORY_CAP (order_by obs_newer mine)), count_if_app.
    rewrite (proj2 (count_if_0 _ (drop _ _))).
    + rewrite Nat.add_0_r. etransitivity; [apply count_if_le|]. rewrite length_take. lia.
    + intros r Hr. apply negb_false_iff, bool_decide_eq_true. unfold beyond_cap. apply elem_of_map. exists r. split; [exact Hr|done].
  - intros r Hr Hne. apply elem_of_delete_where. assert (r ∈ rows) as Hin by (apply elem_of_app; by left). split; [done|].
    apply bool_decide_eq_false. intros (r' & Hr' & He)%elem_of_map.
    assert (r' ∈ mine) as Hm by (rewrite <- Hperm, <- (take_drop AGENT_OBSERVATION_HISTORY_CAP); apply elem_of_app; by right).
    apply elem_of_List_filter in Hm as [Hin' Hs%seqb_true]. apply (NoDup_map_inj ow_id rows) in He; [congruence|done..].
Qed.

End Store.

(** ** The cycle *)

Section Agent.
Context {V W N : Type}.
Context `{AgentEnv, StoreEnv, DebugText, Jiff, JsonCodec, DiffCodec}.
Context (registry : ProviderRegistry V W).
Context (Hsql : ∀ n, sql_at n = Ok ()).

Abbreviation State := (Agent V W N).
Abbreviation observe_one := (observe_one (N := N) registry).

Definition rid_text (r : Resource) : string := rid_display (rid_of r).

(** What a cycle finds of a resource on a host: nothing when its kind is
    unknown or its provider fails, else whether it drifts, and how. *)
Definition finding (v : V) (r : Resource) : option (option Diff) :=
  match registry_require registry (r_kind r) with
  | Ok p => match p_observe p r v with
            | Ok o => match p_diff p r o with Ok d => Some (if is_change d then Some d else None) | Err _ => None end
            | Err _ => None
            end
  | Err _ => None
  end.

Definition verdict (v : V) (r : Resource) : option bool := (λ d, bool_decide (is_Some d)) <$> finding v r.

(** A reading of the clock, as the tables store it. *)
Definition dated (at_ : string) : Prop := ∃ i, at_ = ts_print (clock_at i).

(** What becomes of a row of the drift table when the cycle has found [f] of
    its resource: an open one is refreshed or resolved, or left. *)
Definition row_after (f : option (option Diff)) (r r' : DriftRow) : Prop :=
  match f with
  | Some (Some d) => ∃ at_, dated at_ ∧
      r' = mkDriftRow (dw_id r) (dw_resource_id r) (dw_kind r) (severity_for d) (diff_to_string d) at_ None (dw_resolution r)
  | Some None => ∃ at_, dated at_ ∧
      r' = mkDriftRow (dw_id r) (dw_resource_id r) (dw_kind r) (dw_severity r) (dw_diff r) (dw_detected_at r) (Some at_)
             (Some "drift cleared")
  | None => r' = r
  end.

Definition row_kept (v : V) (rs : list Resource) (r r' : DriftRow) : Prop :=
  (is_open r = false ∨ dw_resource_id r ∉ map rid_text rs → r' = r) ∧
  (∀ x, x ∈ rs → rid_text x = dw_resource_id r → is_open r = true → row_after (finding v x) r r').

(** The drifting resources without an open event, and the row each gets. *)
Definition unrecorded (v : V) (t : Tables) (x : Resource) : bool :=
  bool_decide (verdict v x = Some true) && bool_decide (opens (rid_text x) t = 0).

Definition row_opened (v : V) (x : Resource) (r : DriftRow) : Prop :=
  ∃ i d at_, finding v x = Some (Some d) ∧ dated at_ ∧
    r = mkDriftRow i (rid_text x) (r_kind x) (severity_for d) (diff_to_string d) at_ None None.

(** The drift table after the cycle, by the one before. *)
Definition mirrored (v : V) (rs : list Resource) (t t' : Tables) : Prop :=
  ∃ kept new, tb_drifts t' = kept ++ new ∧
    Forall2 (row_kept v rs) (tb_drifts t) kept ∧
    Forall2 (row_opened v) (List.filter (unrecorded v t) rs) new.

(** The open events of a resource after the cycle judged it, by those before. *)
Definition judged (b : option bool) (n : nat) : nat :=
  match b with Some true => Nat.max 1 n | Some false => 0 | None => n end.

Definition tables_of (s : State) : Tables := so_tables (ag_store s).

Lemma collect_run {A} what (m : ag A) (s : State) :
  collect what m s = (Ok (match (m s).1 with Ok _ => [] | Err e => [what ++ match e with x :: _ => x | [] => [] end] end), (m s).2).
Proof. unfold collect, ag_bind, ag_try, ag_ret. by destruct (m s) as [[?|?] ?]. Qed.

Lemma ag_bind_Ok {A B} (m : @ag V W N A) (f : A → ag B) s a s' : m s = (Ok a, s') → ag_bind m f s = f a s'.
Proof. unfold ag_bind. by intros ->. Qed.

Lemma row_kept_refl v r : row_kept v [] r r.
Proof. split; [done|]. by intros x Hx%elem_of_nil. Qed.

Lemma mirrored_nil v t : mirrored v [] t t.
Proof. exists (tb_drifts t), []. rewrite app_nil_r. split; [done|]. split; [|done]. by apply Forall_Forall2_diag, Forall_true, row_kept_refl. Qed.

(** The rows of one judged resource. *)
Lemma row_kept_one v x (f : DriftRow → DriftRow) rows :
  (∀ r, row_after (finding v x) r (f r)) →
  Forall2 (row_kept v [x]) rows (update_where (open_for (rid_text x)) f rows).
Proof.
  intros Hf. unfold update_where. rewrite Forall2_fmap_r. apply Forall_Forall2_diag, Forall_true. intros r.
  unfold open_for. split.
  - intros [Ho|Hn]; [by rewrite Ho, andb_false_r|]. destruct (seqb _ _) eqn:He; [|done]. apply seqb_true in He.
    destruct Hn. rewrite He. left.
  - intros y ->%list_elem_of_singleton He Ho. rewrite Ho, <- He, (proj2 (seqb_true _ _) eq_refl). apply Hf.
Qed.

Lemma row_kept_none v x rows :
  opens (rid_text x) rows = 0 → Forall2 (row_kept v [x]) (tb_drifts rows) (tb_drifts rows).
Proof.
  intros Ho. apply Forall_Forall2_diag, Forall_forall. intros r Hr. split; [done|].
  intros y ->%list_elem_of_singleton He Hop. unfold opens in Ho. rewrite count_if_0 in Ho. specialize (Ho r Hr).
  unfold open_for in Ho. by rewrite <- He, (proj2 (seqb_true _ _) eq_refl), Hop in Ho.
Qed.

(** A table with the same drift rows and counter. *)
Definition same_drifts (t t' : Tables) : Prop := tb_drifts t' = tb_drifts t ∧ tb_next_drift t' = tb_next_drift t.

Lemma same_drifts_opens t t' rid : same_drifts t t' → opens rid t' = opens rid t.
Proof. unfold opens. by intros [-> _]. Qed.

Lemma same_drifts_table t t' : same_drifts t t' → drift_table t → drift_table t'.
Proof.
  intros Hs (Hnd & Hlt & Hone). pose proof Hs as [Hr Hn]. unfold drift_table. rewrite Hr, Hn. split; [done|]. split; [done|].
  intros rid. by rewrite (same_drifts_opens t).
Qed.

Lemma mirrored_left v x t t' : finding v x = None → same_drifts t t' → mirrored v [x] t t'.
Proof.
  intros Hf [Hr _]. exists (tb_drifts t), []. rewrite app_nil_r. split; [done|]. split.
  - apply Forall_Forall2_diag, Forall_true. intros r. split; [done|]. intros y ->%list_elem_of_singleton _ _. by rewrite Hf.
  - unfold unrecorded, verdict. cbn. by rewrite Hf.
Qed.

Lemma mirrored_from v rs t t1 t' : same_drifts t t1 → mirrored v rs t1 t' → mirrored v rs t t'.
Proof.
  intros Hs (kept & new & Hr & Hk & Hn). exists kept, new. destruct Hs as [He Hc]. split; [done|]. rewrite <- He. split; [done|].
  rewrite (List_filter_ext_in _ (unrecorded v t1)); [done|]. intros x _. unfold unrecorded.
  by rewrite (same_drifts_opens t t1 (rid_text x) (conj He Hc)).
Qed.

(** The events opened for a resource, and those closed. *)
Lemma open_drift_mirrored v r d (x : Store) :
  drift_table (so_tables x) → finding v r = Some (Some d) →
  let t' := so_tables (open_drift (rid_of r) (severity_for d) d x).2 in drift_table t' ∧ mirrored v [r] (so_tables x) t'.
Proof.
  intros Ht Hf. pose proof (open_drift_rows Hsql (rid_of r) (severity_for d) d x Ht) as [Ht' Hr]. split; [exact Ht'|].
  assert (dated (ts_print (clock_at (so_clock x)))) as Hd by (eexists; reflexivity).
  change (rid_display (rid_of r)) with (rid_text r) in Hr.
  assert (unrecorded v (so_tables x) r = bool_decide (opens (rid_text r) (so_tables x) = 0)) as Hu
    by (unfold unrecorded, verdict; by rewrite Hf).
  destruct (decide (opens (rid_text r) (so_tables x) = 0)) as [Ho|Ho].
  - do 2 eexists. split; [exact Hr|]. split; [by apply row_kept_none|]. cbn. rewrite Hu, bool_decide_true by done.
    apply Forall2_cons. split; [|done]. by do 3 eexists.
  - eexists _, []. rewrite app_nil_r. split; [exact Hr|]. cbn. rewrite Hu, bool_decide_false by done. split; [|done].
    unfold update_where. rewrite Forall2_fmap_r. apply Forall_Forall2_diag, Forall_true. intros z. unfold open_for. split.
    + intros [Hz|Hn]; [by rewrite Hz, andb_false_r|]. destruct (seqb _ _) eqn:He; [|done]. apply seqb_true in He.
      destruct Hn. rewrite He. left.
    + intros y ->%list_elem_of_singleton He Hz. rewrite Hz, <- He, (proj2 (seqb_true _ _) eq_refl). cbn. rewrite Hf.
      eexists. split; [exact Hd|]. apply bool_decide_eq_true in Hz. unfold refresh_drift. by rewrite Hz.
Qed.

Lemma close_drift_mirrored v r (x : Store) :
  drift_table (so_tables x) → finding v r = Some None →
  let t' := so_tables (close_open_drift_for (rid_of r) "drift cleared" x).2 in drift_table t' ∧ mirrored v [r] (so_tables x) t'.
Proof.
  intros Ht Hf. pose proof (close_drift_rows Hsql (rid_of r) "drift cleared" x Ht) as [Ht' Hr]. split; [exact Ht'|].
  eexists _, []. rewrite app_nil_r. split; [exact Hr|]. split; [|unfold unrecorded, verdict; cbn; by rewrite Hf].
  apply row_kept_one. intros z. rewrite Hf. eexists. split; [eexists; reflexivity|done].
Qed.

(** A statement on the agent's store. *)
Lemma store_run {A} (m : st A) (s : State) :
  ag_world (on_store m s).2 = ag_world s ∧ tables_of (on_store m s).2 = so_tables (m (ag_store s)).2.
Proof. by rewrite on_store_run. Qed.

Lemma observe_one_run r (s : State) :
  let v := w_host (ag_world s) in
  drift_table (tables_of s) →
  ∃ errors s', observe_one r s = (Ok (errors, bool_decide (verdict v r = Some true)), s') ∧
    ag_world s' = ag_world s ∧ drift_table (tables_of s') ∧ mirrored v [r] (tables_of s) (tables_of s') ∧
    ∀ rid, opens rid (tables_of s') =
      if decide (rid = rid_text r) then judged (verdict v r) (opens rid (tables_of s)) else opens rid (tables_of s).
Proof.
  cbv zeta. intros Ht. assert (same_drifts (tables_of s) (tables_of s)) as Hrefl by done.
  unfold AgentLoop.observe_one. destruct (finding (w_host (ag_world s)) r) as [f|] eqn:Hf; unfold verdict; rewrite Hf;
    pose proof Hf as Hf0; unfold finding in Hf0; (destruct (registry_require registry (r_kind r)) as [p|];
    [erewrite ag_bind_Ok by reflexivity; cbv beta; destruct (p_observe p r _) as [o|];
     [erewrite ag_bind_Ok by apply collect_run; cbv beta;
      destruct (store_run (record_observation (rid_of r) o) s) as [Hw Hs];
      assert (same_drifts (tables_of s) (tables_of (on_store (record_observation (rid_of r) o) s).2)) as Hs1
        by (unfold same_drifts; rewrite Hs; apply (record_observation_drifts Hsql));
      set (s1 := (on_store (record_observation (rid_of r) o) s).2) in *;
      pose proof (same_drifts_table _ _ Hs1 Ht) as Ht1; destruct (p_diff p r o) as [d|]|]|]); try done.
  - injection Hf0 as Hf0. destruct (is_change d); subst f; (erewrite ag_bind_Ok by apply collect_run); cbv beta;
      do 2 eexists; (split; [reflexivity|]).
    + destruct (store_run (open_drift (rid_of r) (severity_for d) d) s1) as [Hw2 ->].
      split; [congruence|]. destruct (open_drift_mirrored _ r d (ag_store s1) Ht1 Hf) as [Ht2 Hm]. split; [exact Ht2|].
      split; [by apply (mirrored_from _ _ _ (tables_of s1))|]. intros rid. rewrite (proj2 (open_drift_opens Hsql _ _ _ _) rid).
      change (so_tables (ag_store s1)) with (tables_of s1). by rewrite (same_drifts_opens (tables_of s)) by done.
    + destruct (store_run (close_open_drift_for (rid_of r) "drift cleared") s1) as [Hw2 ->].
      split; [congruence|]. destruct (close_drift_mirrored _ r (ag_store s1) Ht1 Hf) as [Ht2 Hm]. split; [exact Ht2|].
      split; [by apply (mirrored_from _ _ _ (tables_of s1))|]. intros rid. rewrite (proj2 (close_drift_opens Hsql _ _ _) rid).
      change (so_tables (ag_store s1)) with (tables_of s1). by rewrite (same_drifts_opens (tables_of s)) by done.
  - do 2 eexists. split; [reflexivity|]. split; [done|]. split; [done|]. split; [by apply mirrored_left|].
    intros rid. rewrite (same_drifts_opens (tables_of s)) by done. by case_decide.
  - do 2 eexists. split; [reflexivity|]. split; [done|]. split; [done|]. split; [by apply mirrored_left|]. intros rid. by case_decide.
  - do 2 eexists. split; [reflexivity|]. split; [done|]. split; [done|]. split; [by apply mirrored_left|]. intros rid. by case_decide.
Qed.

Lemma row_kept_resource v rs r r' : row_kept v rs r r' → dw_resource_id r' = dw_resource_id r.
Proof.
  intros [Hsame Hjudged]. destruct (is_open r) eqn:Ho; [|by rewrite Hsame by by left].
  destruct (decide (dw_resource_id r ∈ map rid_text rs)) as [(x & Hx & He)%elem_of_map|Hn]; [|by rewrite Hsame by by right].
  specialize (Hjudged x Hx (eq_sym He) eq_refl). unfold row_after in Hjudged.
  destruct (finding v x) as [[d|]|]; [destruct Hjudged as (at_ & _ & ->)..|subst]; done.
Qed.

(** One resource, then the others: their rows are not touched twice. *)
Lemma row_kept_cons v x rs r r1 r2 :
  rid_text x ∉ map rid_text rs → row_kept v [x] r r1 → row_kept v rs r1 r2 → row_kept v (x :: rs) r r2.
Proof.
  intros Hx Hfst Hsnd. pose proof (row_kept_resource _ _ _ _ Hfst) as Hrid. destruct Hfst as [Hs1 Hj1], Hsnd as [Hs2 Hj2].
  destruct (decide (dw_resource_id r = rid_text x)) as [He|Hne].
  - rewrite (Hs2 ltac:(right; by rewrite Hrid, He)). split.
    + intros [Ho|Hn]; [by apply Hs1; left|]. destruct Hn. rewrite He. left.
    + intros y [->|Hy]%elem_of_cons Hry Ho; [apply Hj1; [left|done..]|]. destruct Hx. rewrite <- He, <- Hry. apply elem_of_map. by exists y.
  - rewrite (Hs1 ltac:(right; by intros ?%list_elem_of_singleton)) in *. split.
    + intros [Ho|Hn]; apply Hs2; [by left|right]. intros Hin. destruct Hn. by right.
    + intros y [->|Hy]%elem_of_cons Hry Ho; [by destruct Hne|by apply Hj2].
Qed.

Lemma mirrored_cons v x rs t t1 t2 :
  rid_text x ∉ map rid_text rs → (∀ y, y ∈ rs → opens (rid_text y) t1 = opens (rid_text y) t) →
  mirrored v [x] t t1 → mirrored v rs t1 t2 → mirrored v (x :: rs) t t2.
Proof.
  intros Hx Ho (k1 & n1 & Hfst & Hk1 & Hn1) (k2 & n2 & Hsnd & Hk2 & Hn2). rewrite Hfst in Hk2.
  apply Forall2_app_inv_l in Hk2 as (ka & kb & Hka & Hkb & ->). exists ka, (kb ++ n2). rewrite Hsnd, app_assoc. split; [done|]. split.
  - clear -Hx Hk1 Hka. revert ka Hka. induction Hk1 as [|r r1 l l1 Hr Hl IH]; intros ka Hka.
    + by apply Forall2_nil_inv_l in Hka as ->.
    + apply Forall2_cons_inv_l in Hka as (r2 & l2 & Hr2 & Hl2 & ->). constructor; [by eapply row_kept_cons|by apply IH].
  - assert (kb = n1) as ->.
    { clear -Hx Hn1 Hkb. assert (Forall (λ r, dw_resource_id r = rid_text x) n1) as Hall.
      { revert Hn1. cbn. destruct (unrecorded v t x); intros Hn1; [|by apply Forall2_nil_inv_l in Hn1 as ->].
        apply Forall2_cons_inv_l in Hn1 as (r & l & (i & d & at_ & _ & _ & ->) & Hl & ->). apply Forall2_nil_inv_l in Hl as ->.
        by repeat constructor. }
      clear Hn1. induction Hkb as [|r r1 l l1 [Hr _] Hl IH]; [done|]. apply Forall_cons in Hall as [He Hall]. rewrite (IH Hall).
      f_equal. apply Hr. right. by rewrite He. }
    change (x :: rs) with ([x] ++ rs). rewrite List.filter_app. apply Forall2_app; [done|].
    rewrite (List_filter_ext_in _ (unrecorded v t1)); [done|]. intros y Hy. unfold unrecorded. by rewrite Ho.
Qed.

Lemma observe_all_run rs (s : State) :
  let v := w_host (ag_world s) in
  NoDup (map rid_text rs) → drift_table (tables_of s) →
  ∃ outcomes s', ag_map observe_one rs s = (Ok outcomes, s') ∧
    map snd outcomes = map (λ r, bool_decide (verdict v r = Some true)) rs ∧
    drift_table (tables_of s') ∧ mirrored v rs (tables_of s) (tables_of s') ∧
    (∀ r, r ∈ rs → opens (rid_text r) (tables_of s') = judged (verdict v r) (opens (rid_text r) (tables_of s))) ∧
    (∀ rid, rid ∉ map rid_text rs → opens rid (tables_of s') = opens rid (tables_of s)).
Proof.
  cbv zeta. revert s. induction rs as [|r rs IH]; intros s Hnd Ht.
  - exists [], s. split_and!; try done; [apply mirrored_nil|by intros r Hr%elem_of_nil].
  - cbn [map] in Hnd. apply NoDup_cons in Hnd as [Hin Hnd]. cbn [ag_map].
    destruct (observe_one_run r s Ht) as (errors & s1 & Hr & Hw & Ht1 & Hm1 & Ho). erewrite ag_bind_Ok by exact Hr. cbv beta.
    destruct (IH s1 Hnd Ht1) as (outcomes & s' & Hrs & Hd & Ht' & Hm & Hj & Hk). erewrite ag_bind_Ok by exact Hrs. cbv beta.
    rewrite Hw in *. assert (∀ x, x ∈ rs → rid_text x ≠ rid_text r) as Hne.
    { intros x Hx He. apply Hin. rewrite <- He. apply elem_of_map. by exists x. }
    eexists _, s'. split; [reflexivity|]. split; [cbn [map snd]; by rewrite Hd|]. split; [done|]. split; [|split].
    + apply (mirrored_cons _ _ _ _ (tables_of s1)); [done| |done..]. intros y Hy. rewrite Ho, decide_False; [done|by apply Hne].
    + intros x [->|Hx]%elem_of_cons; [by rewrite (Hk _ Hin), Ho, decide_True|]. by rewrite (Hj _ Hx), Ho, decide_False by by apply Hne.
    + intros rid Hrid. apply not_elem_of_cons in Hrid as [Hr' Hrid]. by rewrite (Hk _ Hrid), Ho, decide_False.
Qed.

(** C24: An observe cycle mirrors the host in the agent's drift table. For
    resources with distinct ids, a store whose statements succeed, and a drift
    table with unique ids and at most one open event per resource, the rows
    after the cycle are the rows before, in place, and then the new ones. A
    row is left as it was when its event is resolved, when its resource is not
    one of the cycle's, or when that resource could not be judged (unknown
    kind, failed observation or comparison). The open event of a resource that
    drifts is that same event, with the severity and the difference found now
    and a new date; that of a resource that does not drift is resolved, as
    drift cleared. Exactly the drifting resources without an open event get a
    new row, one each, with what was found. So a drifting resource has exactly
    one open event afterwards, a resource in its desired state none, and the
    table keeps its shape. The summary counts the drifting resources. *)
Theorem observe_mirrors rs started (s s' : State) summary :
  let v := w_host (ag_world s) in
  NoDup (map rid_text rs) → drift_table (tables_of s) →
  observe_resources_blocking registry rs started s = (Ok summary, s') →
  (∃ kept new, tb_drifts (tables_of s') = kept ++ new ∧
     Forall2 (row_kept v rs) (tb_drifts (tables_of s)) kept ∧
     Forall2 (row_opened v) (List.filter (unrecorded v (tables_of s)) rs) new) ∧
  (∀ r, r ∈ rs → opens (rid_text r) (tables_of s') =
     match verdict v r with
     | Some true => 1 | Some false => 0 | None => opens (rid_text r) (tables_of s)
     end) ∧
  drift_table (tables_of s') ∧
  oc_observed summary = length rs ∧
  oc_drift_detected summary = count_if (λ r, bool_decide (verdict v r = Some true)) rs.
Proof.
  cbv zeta. intros Hnd Ht Hrun. destruct (observe_all_run rs s Hnd Ht) as (outcomes & s1 & Hrs & Hd & Ht' & Hm & Hj & Hk).
  unfold observe_resources_blocking in Hrun. erewrite ag_bind_Ok in Hrun by exact Hrs.
  unfold record_run, clock, now, ag_get, ag_ret, ag_bind, on_store in Hrun. cbn [ag_store set_store so_tables] in Hrun.
  rewrite (exec_Ok Hsql) in Hrun. injection Hrun as <- <-. cbn [oc_observed oc_drift_detected].
  split; [exact Hm|]. split; [|split; [exact Ht'|split; [done|]]].
  - intros r Hin. transitivity (opens (rid_text r) (tables_of s1)); [done|]. rewrite (Hj r Hin). destruct Ht as (_ & _ & Hone).
    specialize (Hone (rid_text r)). unfold judged. destruct (verdict _ r) as [[]|]; lia.
  - change (λ r, bool_decide (verdict (w_host (ag_world s)) r = Some true))
      with (λ r, id (bool_decide (verdict (w_host (ag_world s)) r = Some true))).
    rewrite <- (count_if_map (λ r, bool_decide (verdict (w_host (ag_world s)) r = Some true)) id), <- Hd, count_if_map. done.
Qed.

(** The merged list of a cycle has distinct ids. *)
Lemma merge_distinct local server : NoDup (map rid_text (merge_resources local server)).
Proof.
  unfold merge_resources. set (by_id := foldl _ _ _).
  assert (∀ k r, by_id !! k = Some r → rid_text r = k) as Hkey.
  { assert (∀ rs (m : gmap string Resource), (∀ k r, m !! k = Some r → rid_text r = k) →
      ∀ k r, foldl (λ m r, <[rid_display (rid_of r) := r]> m) m rs !! k = Some r → rid_text r = k) as Hg.
    { induction rs as [|x rs IH]; intros m Hm; [exact Hm|]. cbn [foldl]. apply IH. intros k r Hl.
      destruct (decide (k = rid_display (rid_of x))) as [->|Hne]; [rewrite lookup_insert_eq in Hl; by injection Hl as <-|].
      rewrite lookup_insert_ne in Hl by done. by apply Hm. }
    apply Hg. intros k r Hl. by rewrite lookup_empty in Hl. }
  eapply (NoDup_Permutation_proper _ (map_to_list by_id).*1).
  - rewrite (Permutation_map rid_text (order_by_perm _ _)). apply reflexive_eq.
    assert (∀ kr, kr ∈ map_to_list by_id → rid_text kr.2 = kr.1) as Hin by (intros [k r] Hkr%elem_of_map_to_list; by apply Hkey).
    induction (map_to_list by_id) as [|kr l IH]; [done|]. cbn. rewrite (Hin kr) by left. f_equal. apply IH.
    intros. apply Hin. by right.
  - apply NoDup_fst_map_to_list.
Qed.

End Agent.

(** ** At a concrete agent

    Two resources of a host that is one text: the first has that text, the
    second does not. *)

Section Demo.
#[local] Existing Instance steady_env.

(** An open event that is out of date, one that is, one resolved, and one of
    a resource that is not the cycle's. *)
Definition demo_events : list DriftRow :=
  [mkDriftRow 1 "text/prod/a" "text" "warning" "old" "@1" None None;
   mkDriftRow 2 "text/prod/b" "text" "critical" "old" "@1" None None;
   mkDriftRow 3 "text/prod/d" "text" "warning" "old" "@1" (Some "@2") (Some "drift cleared");
   mkDriftRow 4 "text/prod/z" "text" "warning" "old" "@1" None None].

Definition watched_agent : Agent string () () :=
  set_store (mkStore (set_drift_rows demo_events 5 new_tables) 0 0) (demo_agent None).

Definition watched : list Resource := [text_resource "a" "before"; text_resource "b" "other"; text_resource "d" "new"].

Abbreviation demo_cycle := (observe_resources_blocking (N := ()) (text_registry (H := steady_env)) watched 0 watched_agent).

Lemma demo_drift_table : drift_table (tables_of watched_agent).
Proof.
  split; [apply (bool_decide_unpack _); vm_compute; exact I|]. split.
  - intros r Hr. change (r ∈ demo_events) in Hr. change (dw_id r < 5)%Z. unfold demo_events in Hr.
    repeat (apply elem_of_cons in Hr as [->|Hr]; [cbn; lia|]). by apply elem_of_nil in Hr.
  - intros rid. change (count_if (open_for rid) demo_events ≤ 1).
    destruct (decide (rid ∈ map dw_resource_id demo_events)) as [Hin|Hn].
    + unfold demo_events in Hin. cbn [map dw_resource_id] in Hin.
      repeat (apply elem_of_cons in Hin as [->|Hin]; [apply (bool_decide_unpack _); vm_compute; exact I|]). by apply elem_of_nil in Hin.
    + rewrite (proj2 (count_if_0 _ _)); [lia|]. intros z Hz.
      apply not_true_iff_false. intros [He%seqb_true _]%andb_true_iff. destruct Hn. rewrite <- He. apply elem_of_map. by exists z.
Qed.

Lemma watched_distinct : NoDup (map rid_text watched).
Proof. apply (bool_decide_unpack _). vm_compute. exact I. Qed.

Lemma watched_verdicts : Forall (λ r,
  verdict (text_registry (H := steady_env)) "before" r = Some (negb (bool_decide (rid_text r = "text/prod/a")))) watched.
Proof. repeat constructor. Qed.

Lemma observe_mirrors_witness :
  ∃ summary s' kept new, demo_cycle = (Ok summary, s') ∧ oc_drift_detected summary = 2 ∧
    tb_drifts (tables_of s') = kept ++ new ∧
    Forall2 (row_kept (text_registry (H := steady_env)) "before" watched) demo_events kept ∧
    Forall2 (row_opened (text_registry (H := steady_env)) "before") [text_resource "d" "new"] new ∧
    opens "text/prod/a" (tables_of s') = 0 ∧ opens "text/prod/b" (tables_of s') = 1 ∧ opens "text/prod/d" (tables_of s') = 1.
Proof.
  destruct demo_cycle as [[summary|e] s'] eqn:Hrun; [|exfalso; revert Hrun; vm_compute; discriminate].
  destruct (observe_mirrors (text_registry (H := steady_env)) ticking_sql watched 0 watched_agent s' summary watched_distinct demo_drift_table Hrun)
    as ((kept & new & Hrows & Hkept & Hnew) & Hopen & _ & _ & Hcount).
  exists summary, s', kept, new. split; [reflexivity|]. split; [rewrite Hcount; vm_compute; reflexivity|]. split; [exact Hrows|].
  split; [exact Hkept|]. split; [exact Hnew|].
  assert (∀ r, r ∈ watched → opens (rid_text r) (tables_of s') = if bool_decide (rid_text r = "text/prod/a") then 0 else 1) as Ho.
  { intros r Hr. rewrite (Hopen r Hr). change (w_host _) with "before". rewrite (proj1 (Forall_forall _ _) watched_verdicts r Hr).
    destruct (bool_decide _); reflexivity. }
  split; [exact (Ho (text_resource "a" "before") (list_elem_of_here _ _))|].
  split; [exact (Ho (text_resource "b" "other") (list_elem_of_further _ _ _ (list_elem_of_here _ _)))|].
  exact (Ho (text_resource "d" "new") (list_elem_of_further _ _ _ (list_elem_of_further _ _ _ (list_elem_of_here _ _)))).
Defined.

End Demo.
